(* ===== verification/_CoqProject ===== *)
-Q . S2P
Prelude.v
Endian.v
Intset.v
Lzf.v
Numconv.v
LdbBase.v
KvServer.v
Coding.v
Skiplist.v
Dbformat.v
WriteBatch.v
Memtable.v
Iterator.v
Arena.v
DbImpl.v
Engine.v
Crc32c.v
LogFormat.v
Recovery.v
MdbItem.v
MdbAssoc.v
MdbQueue.v
Block.v
Filter.v
Format.v
TwoLevel.v
Table.v
TableRead.v
Cache.v
CacheShards.v
CacheTables.v
VersionEdit.v
MemIter.v
Version.v
Levels.v
Filename.v
TableIO.v
LogIO.v
Env.v
TableCache.v
Manifest.v
Storage.v
ManifestLog.v
Open.v
