(* ===== verification/Prelude.v ===== *)
(** * A verification of kv_store

    The repository is a key-value server, [src/kv_server], in front of storage
    engines kept beside it: LevelDB ([src/leveldb]), Redis
    ([src/redis/redis]) and a C++ cache core derived from memcached
    ([src/memcached/src], with the original in [src/memcached/memcached]).
    The server is built on LevelDB; the others are stand-alone.

    ** How the code is modelled

    C integers are [Z], with the wrap-around of their width written where the
    code can reach it ([wrap], [swrap]).  A buffer is the list of its octets
    and an access outside of it is [None] ([rd], [wr], [rd_bytes],
    [wr_bytes]), so that a theorem ending in [Some _] is also a memory-safety
    theorem.  An assertion of the code is [passert]: a false one is [None] too.
    Memory that C leaves uninitialised is an arbitrary argument
    ([junk], [uninit], [stack]), and so is the byte order of the host ([le],
    [be]).  Loops are structural or take fuel; every theorem about them states
    that a result is returned, so the fuel given by the callers is enough:
    it is the number of nodes and levels left to visit in the skip list, and
    the number of octets left in the codecs.

    ** Files

    - [Prelude]: integers, buffers, little-endian codecs, tactics and the hint
      database [kv].
    - [KvServer]: [kv_server.cpp], [kv_store.h] and [ldb_store.cpp]; the
      request handlers, [InitKVStore], [InitLdbStore] and [CreateDir].  The
      class [KVStore] is the C++ interface of that name.
    - [LdbBase]: [leveldb::Status], and the class [LevelDB] with the contract
      of [leveldb/db.h] as the server relies on it.
    - [Coding]: [util/coding.cc].  [Dbformat]: [db/dbformat.cc] and
      [util/comparator.cc].  [Skiplist]: [util/random.h] and [db/skiplist.h].
      [WriteBatch]: [db/write_batch.cc].  [Memtable], [MemIter]:
      [db/memtable.cc].  [Arena]: [util/arena.cc].
    - [DbImpl]: the write path, the read path and log replay of
      [db/db_impl.cc] over the class [VersionSet], which stands for the tables.
      [Recovery]: [RecoverLogFile] over log files.
    - [Engine]: the instance of [LevelDB] given by [DbImpl].
    - [Crc32c]: [util/crc32c.cc].  [LogFormat]: the log writer and reader.
    - [Iterator], [Block], [Filter], [Format], [TwoLevel], [Table],
      [TableRead]: the table files of [src/leveldb/table], with the hash and the
      Bloom filter of [util]; [TableIO]: the table builder over files that fail.
    - [Cache]: [util/cache.cc]; [CacheShards]: the sharded cache as its clients
      see it; [CacheTables]: several tables on one block cache.
    - [Filename], [Env]: [db/filename.cc], the helpers of [util/env.cc] and the
      class of file systems.  [TableCache]: [db/table_cache.cc] and
      [db/builder.cc].  [VersionEdit]: [db/version_edit.cc].  [Version],
      [Levels]: the files of the levels, [Version] and [VersionSet::Builder] of
      [db/version_set.cc].  [LogIO]: the log writer over files that fail.
      [Manifest], [ManifestLog]: [VersionSet] with its manifest.  [Storage]: the
      tables behind [DbImpl], the instance of its class [VersionSet].  [Open]:
      [DB::Open] and [DestroyDB].
    - [MdbItem], [MdbAssoc], [MdbQueue]: item layout, hash table with its
      maintainer, LRU queues and crawler of [src/memcached/src].
    - [Endian], [Intset], [Lzf], [Numconv]: [endianconv.c], [intset.c],
      [lzf_c.c] and [lzf_d.c], and the integer conversions of [util.c] of Redis.

    ** What the theorems show

    - The server.  [KvServer.kv_session_refines]: over any engine that keeps
      the contract of [LevelDB], a session of requests is one call of the
      engine per request with a key, and answers and replies are a run of a
      finite map, where a write that fails may have been made or not.
      [Engine.kv_server_on_leveldb]: the same with the engine replaced by
      the model of [DBImpl], down to the octets of the write batch and the
      links of the skip list; when no file operation fails the replies are
      those of an executable map.  [KvServer.kv_server_never_opened] and
      [KvServer.InitLdbStore_spec] show two defects of the start-up code.
    - The engine.  Group commit is atomic and ordered
      ([DbImpl.db_group_commit]), with every status traced to the call that
      failed; reads at a snapshot are stable
      ([DbImpl.db_snapshot_isolation]).  Below them are the memtable, the skip list
      with its iterators, the batch format, the key order and the codecs, each
      with functional correctness, round trips, and safety on arbitrary octets
      for the decoders.
    - The log.  Cut anywhere, a log reads back as whole records
      ([LogFormat.log_crash_safe]), damage is detected
      ([LogFormat.log_damage_detected]) and recovery restores whole batches
      ([Recovery.db_crash_recovery]).  The manifest, a log too, commits a
      change of version atomically ([ManifestLog.manifest_atomic]), except after
      a failure that the log writer ignores.
    - The tables.  A table file answers lookups and iterates as the entries it
      was built of ([TableRead.table_get_correct],
      [TableRead.table_iterator_correct]), also when tables share a block cache
      ([CacheTables.shared_cache_correct]), and the handles of the cache that
      they take are all released; the cache is a list in order of use
      ([Cache.lru_cache_refines]).  A lookup through the levels finds the newest
      version ([Version.version_get_correct]).
    - The cache core.  The hash table is a finite map across expansions
      ([MdbAssoc.assoc_refines_map]) unless its maintainer is woken at the wrong
      time ([MdbAssoc.assoc_wakeup_loses_items]).  Nothing can be linked into an
      empty LRU queue, but the crawler visits a queue that has items and leaves
      it as it was ([MdbQueue.lru_queues_refine_lists],
      [MdbQueue.lru_crawler_visits_all]).
    - Redis.  [Intset.intset_refines_set] and the per-operation theorems: the
      packed integer set is a finite set; [Lzf]: round trip, output bound and
      decompressor safety; [Numconv]: [string2ll] and [ll2string] are exactly
      the decimal notation.  [Intset.intsetAdd_overflows] and
      [Lzf.lzf_compress_overread] prove a defect each.

    ** What is not modelled

    Files, sockets, threads and clocks are I/O; where a result of theirs
    matters it is an argument ([Outcome] in [DbImpl], the shell in
    [KvServer]) or behind a class ([Env], [WritableFile]).  Compaction of tables
    into deeper levels, iterators over the whole database, the reordering of memory accesses seen by concurrent readers of the skip list,
    the Redis commands with persistence, replication and cluster, the memcached
    network server and the bundled third-party libraries are outside. *)

From stdpp Require Export base list option numbers sorting gmap.
From Stdlib Require Export ZArith Lia.

#[global] Open Scope Z_scope.

Notation zlen l := (Z.of_nat (length l)).

(** ** Machine integers

    A C integer is a [Z]; [wrap w] is the value kept by an unsigned type of
    [w] bits, [swrap w] the one kept by a two's-complement signed type. *)
Definition wrap (w x : Z) : Z := x mod 2 ^ w.
Definition swrap (w x : Z) : Z :=
  let m := x mod 2 ^ w in if m <? 2 ^ (w - 1) then m else m - 2 ^ w.

Definition is_byte (b : Z) : Prop := 0 <= b < 256.
#[global] Instance is_byte_dec b : Decision (is_byte b).
Proof. unfold is_byte; apply _. Defined.

Definition fits_signed (w v : Z) : Prop := - 2 ^ (w - 1) <= v < 2 ^ (w - 1).
#[global] Instance fits_signed_dec w v : Decision (fits_signed w v).
Proof. unfold fits_signed; apply _. Defined.

Definition fits_unsigned (w v : Z) : Prop := 0 <= v < 2 ^ w.
#[global] Instance fits_unsigned_dec w v : Decision (fits_unsigned w v).
Proof. unfold fits_unsigned; apply _. Defined.

(** A C assertion: a false condition stops the program. *)
Definition passert (c : bool) : option unit := if c then Some tt else None.

(** ** Byte buffers

    A buffer is the list of its bytes.  The accessors return [None] exactly
    when the C access would leave the buffer, so a theorem that a function
    returns [Some _] is also a memory-safety theorem. *)
Definition rd (buf : list Z) (i : Z) : option Z :=
  if bool_decide (0 <= i) then buf !! Z.to_nat i else None.

Definition wr (buf : list Z) (i b : Z) : option (list Z) :=
  if bool_decide (0 <= i < zlen buf) then Some (<[Z.to_nat i := b]> buf)
  else None.

(** [memcpy] out of a buffer: the [n] bytes at [off]. *)
Definition rd_bytes (buf : list Z) (off n : Z) : option (list Z) :=
  if bool_decide (0 <= off /\ 0 <= n /\ off + n <= zlen buf)
  then Some (take (Z.to_nat n) (drop (Z.to_nat off) buf)) else None.

(** [memcpy] into a buffer: [bs] stored at [off]. *)
Definition wr_bytes (buf : list Z) (off : Z) (bs : list Z) : option (list Z) :=
  if bool_decide (0 <= off /\ off + zlen bs <= zlen buf)
  then Some (take (Z.to_nat off) buf ++ bs ++
             drop (Z.to_nat off + length bs) buf) else None.

(** [memmove (buf+dst, buf+src, n)]: overlapping areas are allowed. *)
Definition memmove (buf : list Z) (dst src n : Z) : option (list Z) :=
  bs ← rd_bytes buf src n; wr_bytes buf dst bs.

(** [realloc] to [n] bytes: the old contents up to [n], then bytes about
    which C promises nothing; [junk] names them, and every theorem holds for
    all of them. *)
Definition realloc (junk : nat -> Z) (buf : list Z) (n : Z) : list Z :=
  take (Z.to_nat n) buf ++
  ((fun i => wrap 8 (junk i)) <$> seq (length buf) (Z.to_nat n - length buf)).

(** ** Little-endian codecs *)
Fixpoint le_enc (n : nat) (v : Z) : list Z :=
  match n with
  | O => []
  | S n => v mod 256 :: le_enc n (v / 256)
  end.

Fixpoint le_dec (bs : list Z) : Z :=
  match bs with
  | [] => 0
  | b :: bs => b + 256 * le_dec bs
  end.

(** ** Lemmas on the codecs *)
Lemma length_le_enc n v : length (le_enc n v) = n.
Proof. revert v; induction n as [|n IH]; intros v; simpl; auto. Qed.

Lemma le_enc_bytes n v : Forall is_byte (le_enc n v).
Proof.
  revert v; induction n as [|n IH]; intros v; simpl; constructor; [|apply IH].
  apply Z.mod_pos_bound; lia.
Qed.

Lemma pow256_S n : 256 ^ Z.of_nat (S n) = 256 * 256 ^ Z.of_nat n.
Proof. rewrite Nat2Z.inj_succ, Z.pow_succ_r; lia. Qed.

Lemma le_dec_enc n v : le_dec (le_enc n v) = v mod 256 ^ Z.of_nat n.
Proof.
  revert v; induction n as [|n IH]; intros v; [simpl; by rewrite Z.mod_1_r|].
  cbn [le_enc le_dec]. rewrite IH, pow256_S.
  assert (0 < 256 ^ Z.of_nat n) by (apply Z.pow_pos_nonneg; lia).
  rewrite Z.rem_mul_r; lia.
Qed.

Lemma le_dec_bound bs :
  Forall is_byte bs -> 0 <= le_dec bs < 256 ^ zlen bs.
Proof.
  unfold is_byte; induction 1 as [|b bs Hb _ IH]; [simpl; lia|].
  cbn [le_dec length]. rewrite pow256_S. lia.
Qed.

Lemma le_dec_app a b : le_dec (a ++ b) = le_dec a + 256 ^ zlen a * le_dec b.
Proof.
  induction a as [|x a IH]; [simpl; lia|].
  cbn [app le_dec length]. rewrite IH, pow256_S. lia.
Qed.

Lemma le_enc_dec bs : Forall is_byte bs -> le_enc (length bs) (le_dec bs) = bs.
Proof.
  unfold is_byte; induction 1 as [|b bs Hb _ IH]; [done|].
  cbn [le_dec length le_enc]. f_equal.
  - rewrite (Z.mul_comm 256), Z_mod_plus_full, Z.mod_small; lia.
  - rewrite (Z.mul_comm 256), Z_div_plus_full, Z.div_small, Z.add_0_l by lia. done.
Qed.

Lemma le_enc_mod n v : le_enc n (v mod 256 ^ Z.of_nat n) = le_enc n v.
Proof. pose proof (le_enc_dec (le_enc n v) (le_enc_bytes n v)) as H. by rewrite length_le_enc, le_dec_enc in H. Qed.

Lemma swrap_id w v : 0 < w -> fits_signed w v -> swrap w (v mod 2 ^ w) = v.
Proof.
  unfold swrap, fits_signed; intros Hw Hv.
  assert (2 ^ w = 2 * 2 ^ (w - 1)) as E
    by (rewrite <-Z.pow_succ_r by lia; f_equal; lia).
  rewrite E in *. set (h := 2 ^ (w - 1)) in *.
  rewrite Z.mod_mod by lia.
  destruct (decide (0 <= v)).
  - rewrite Z.mod_small by lia. destruct (Z.ltb_spec v h); lia.
  - assert (v mod (2 * h) = v + 2 * h) as ->
      by (symmetry; apply (Z.mod_unique_pos _ _ (-1)); lia).
    destruct (Z.ltb_spec (v + 2 * h) h); lia.
Qed.

Lemma swrap_fits w v : 0 < w -> fits_signed w v -> swrap w v = v.
Proof.
  intros Hw Hv. rewrite <-(swrap_id w v Hw Hv) at 2. unfold swrap.
  rewrite Z.mod_mod; [done|]. apply Z.pow_nonzero; lia.
Qed.

Lemma wrap_fits w v : fits_unsigned w v -> wrap w v = v.
Proof. apply Z.mod_small. Qed.

#[global] Arguments le_enc : simpl never.
#[global] Arguments le_dec : simpl never.

(** ** Lemmas on buffers

    The accessors are characterised on a buffer split around the area they
    touch; proofs bring the buffer to that form and rewrite. *)
Lemma rd_bytes_app (a b c : list Z) off n :
  off = zlen a -> n = zlen b -> rd_bytes (a ++ b ++ c) off n = Some b.
Proof.
  intros -> ->. unfold rd_bytes. rewrite bool_decide_true
    by (rewrite !length_app; lia).
  rewrite !Nat2Z.id, drop_app_length, take_app_length. done.
Qed.

Lemma wr_bytes_app (a b b' c : list Z) off :
  off = zlen a -> length b' = length b ->
  wr_bytes (a ++ b ++ c) off b' = Some (a ++ b' ++ c).
Proof.
  intros -> Hb. unfold wr_bytes. rewrite bool_decide_true
    by (rewrite !length_app; lia).
  rewrite Nat2Z.id, take_app_length, Hb, drop_app_ge by lia.
  rewrite drop_app_ge by lia.
  replace (length a + length b - length a - length b)%nat with O by lia. done.
Qed.

Lemma rd_bytes_0 (b c : list Z) n : n = zlen b -> rd_bytes (b ++ c) 0 n = Some b.
Proof. by apply (rd_bytes_app [] b c). Qed.

Lemma wr_bytes_0 (b b' c : list Z) :
  length b' = length b -> wr_bytes (b ++ c) 0 b' = Some (b' ++ c).
Proof. by apply (wr_bytes_app [] b b' c). Qed.

Lemma rd_bytes_inv buf off n bs :
  rd_bytes buf off n = Some bs ->
  0 <= off /\ off + n <= zlen buf /\ zlen bs = n.
Proof.
  unfold rd_bytes. case_bool_decide; [|done]. intros [= <-].
  rewrite length_take, length_drop. lia.
Qed.

Lemma wr_bytes_length buf off bs buf' :
  wr_bytes buf off bs = Some buf' -> length buf' = length buf.
Proof.
  unfold wr_bytes. case_bool_decide; [|done]. intros [= <-].
  rewrite !length_app, length_take, length_drop. lia.
Qed.

Lemma wr_bytes_None buf off bs :
  off + zlen bs > zlen buf -> wr_bytes buf off bs = None.
Proof. intros. unfold wr_bytes. rewrite bool_decide_false; [done | lia]. Qed.

Lemma split_at {A} (l : list A) (i : nat) :
  (i <= length l)%nat -> exists a b, l = a ++ b /\ length a = i.
Proof.
  intros. exists (take i l), (drop i l). rewrite take_drop, length_take. split; [done|lia].
Qed.

Lemma length_realloc junk buf n : length (realloc junk buf n) = Z.to_nat n.
Proof.
  unfold realloc. rewrite length_app, length_take, length_fmap, length_seq. lia.
Qed.

Lemma realloc_grow junk buf n :
  zlen buf <= n ->
  exists fresh, realloc junk buf n = buf ++ fresh /\ zlen fresh = n - zlen buf
    /\ Forall is_byte fresh.
Proof.
  intros. unfold realloc. eexists. rewrite take_ge by lia.
  split; [done|]. rewrite length_fmap, length_seq. split; [lia|].
  rewrite Forall_fmap. apply Forall_true. intros. apply Z.mod_pos_bound. lia.
Qed.

Lemma realloc_shrink junk a b n :
  n = zlen a -> realloc junk (a ++ b) n = a.
Proof.
  intros ->. unfold realloc. rewrite Nat2Z.id, take_app_length, length_app.
  replace (length a - _)%nat with O by lia. simpl. by rewrite app_nil_r.
Qed.

(** A buffer made of chunks of the same size is an array. *)
Section chunks.
Context (n : nat).
Implicit Types (cs : list (list Z)).

Lemma length_concat_chunks cs :
  Forall (fun c => length c = n) cs -> length (concat cs) = (length cs * n)%nat.
Proof.
  induction 1 as [|c cs Hc _ IH]; [done|].
  simpl. rewrite length_app, IH, Hc. lia.
Qed.

Lemma concat_split cs i c :
  cs !! i = Some c ->
  concat cs = concat (take i cs) ++ c ++ concat (drop (S i) cs).
Proof.
  intros H. rewrite <-(take_drop_middle cs i c H) at 1.
  rewrite concat_app. done.
Qed.

Lemma rd_chunk cs i c off :
  Forall (fun c => length c = n) cs -> cs !! i = Some c ->
  off = Z.of_nat i * Z.of_nat n ->
  rd_bytes (concat cs) off (Z.of_nat n) = Some c.
Proof.
  intros Hcs Hi ->. rewrite (concat_split cs i c Hi).
  apply rd_bytes_app.
  - rewrite length_concat_chunks by (by apply Forall_take).
    rewrite length_take. apply lookup_lt_Some in Hi. lia.
  - rewrite Forall_lookup in Hcs. rewrite (Hcs i c Hi). done.
Qed.

Lemma wr_chunk cs i c c' off :
  Forall (fun c => length c = n) cs -> cs !! i = Some c -> length c' = n ->
  off = Z.of_nat i * Z.of_nat n ->
  wr_bytes (concat cs) off c' = Some (concat (<[i := c']> cs)).
Proof.
  intros Hcs Hi Hc' ->. pose proof (lookup_lt_Some _ _ _ Hi).
  rewrite (concat_split cs i c Hi), (concat_split (<[i:=c']> cs) i c')
    by (apply list_lookup_insert_eq; done).
  rewrite take_insert_ge, drop_insert_lt by lia. apply wr_bytes_app.
  - rewrite length_concat_chunks by (by apply Forall_take).
    rewrite length_take. lia.
  - rewrite Forall_lookup in Hcs. rewrite (Hcs i c Hi). done.
Qed.
End chunks.

Lemma take_incl {A} (x : A) n l : x ∈ take n l -> x ∈ l.
Proof. intros Hx. rewrite <-(take_drop n l). apply elem_of_app. by left. Qed.
Lemma drop_incl {A} (x : A) n l : x ∈ drop n l -> x ∈ l.
Proof. intros Hx. rewrite <-(take_drop n l). apply elem_of_app. by right. Qed.

Lemma filter_ext_in {A} (P Q : A -> Prop) `{!forall x, Decision (P x)} `{!forall x, Decision (Q x)} (l : list A) :
  (forall x, x ∈ l -> P x <-> Q x) -> filter P l = filter Q l.
Proof.
  intros HPQ. induction l as [|x l IH]; [done|]. rewrite !filter_cons. rewrite IH by (intros y Hy; apply HPQ; by right).
  pose proof (HPQ x ltac:(by left)). destruct (decide (P x)), (decide (Q x)); naive_solver.
Qed.

Lemma filter_all {A} (P : A -> Prop) `{!forall x, Decision (P x)} (l : list A) : (forall x, x ∈ l -> P x) -> filter P l = l.
Proof.
  intros HP. induction l as [|x l IH]; [done|]. rewrite filter_cons_True by (apply HP; by left).
  f_equal. apply IH. intros y Hy. apply HP. by right.
Qed.

Lemma filter_fmap {A B} (f : A -> B) (P : B -> Prop) `{!forall x, Decision (P x)} (l : list A) :
  filter P (f <$> l) = f <$> filter (fun x => P (f x)) l.
Proof. induction l as [|x l IH]; [done|]. cbn [fmap list_fmap]. rewrite !filter_cons. destruct (decide _); cbn [fmap list_fmap]; by rewrite IH. Qed.

Lemma NoDup_fmap_filter {A B} (f : A -> B) (P : A -> Prop) `{!forall x, Decision (P x)} (l : list A) :
  NoDup (f <$> l) -> NoDup (f <$> filter P l).
Proof.
  induction l as [|x l IH]; [done|]. cbn [fmap list_fmap]. intros [Hx Hl]%NoDup_cons. rewrite filter_cons.
  destruct (decide (P x)); [|by apply IH]. cbn [fmap list_fmap]. apply NoDup_cons. split; [|by apply IH].
  intros (y & E & Hy)%list_elem_of_fmap. apply Hx. rewrite E. apply list_elem_of_fmap_2. by apply list_elem_of_filter in Hy as [_ ?].
Qed.

Lemma elem_of_concat {A} (x : A) (ls : list (list A)) : x ∈ concat ls <-> exists l, x ∈ l /\ l ∈ ls.
Proof. rewrite list_elem_of_In, in_concat. setoid_rewrite list_elem_of_In. naive_solver. Qed.

Lemma concat_middle {A} (ls : list (list A)) i l : ls !! i = Some l -> concat ls = concat (take i ls) ++ l ++ concat (drop (S i) ls).
Proof. intros Hi. rewrite <-(take_drop_middle ls i l Hi) at 1. by rewrite concat_app. Qed.

Lemma concat_NoDup {A} (ls : list (list A)) i l : ls !! i = Some l -> NoDup (concat ls) -> NoDup l.
Proof.
  intros Hi. rewrite (concat_middle ls i l Hi), !NoDup_app. naive_solver.
Qed.

Lemma StronglySorted_intro {A} (R : A -> A -> Prop) l :
  (forall i j x y, (i < j)%nat -> l !! i = Some x -> l !! j = Some y -> R x y) -> StronglySorted R l.
Proof.
  induction l as [|x l IH]; intros H; constructor.
  - apply IH. intros i j y z Hij. apply (H (S i) (S j)). lia.
  - apply Forall_lookup. intros i y Hi. apply (H 0%nat (S i)); [lia|done|done].
Qed.

Lemma concat_insert {A} (ls : list (list A)) i l l' : ls !! i = Some l -> l' ++ concat ls ≡ₚ l ++ concat (<[i := l']> ls).
Proof.
  intros Hi. rewrite (insert_take_drop ls i l') by (by eapply lookup_lt_Some). rewrite <-(take_drop_middle ls i l Hi) at 1.
  rewrite !concat_app. cbn [concat]. rewrite !(Permutation_app_swap_app (concat (take i ls))). apply Permutation_app_swap_app.
Qed.

(** Where the pieces of a concatenation start. *)
Definition off (cs : list (list Z)) (i : nat) : Z := zlen (concat (take i cs)).

Lemma off_S cs i c : cs !! i = Some c -> off cs (S i) = off cs i + zlen c.
Proof.
  intros Hc. unfold off. rewrite (take_S_r _ _ _ Hc), concat_app, length_app. simpl.
  rewrite app_nil_r. lia.
Qed.

Lemma off_app cs cs' i : (i <= length cs)%nat -> off (cs ++ cs') i = off cs i.
Proof. intros Hi. unfold off. by rewrite take_app_le. Qed.

Lemma off_le cs i j : (i <= j)%nat -> off cs i <= off cs j.
Proof.
  intros Hij. unfold off. replace j with (i + (j - i))%nat by lia.
  rewrite <-take_take_drop, concat_app, length_app. lia.
Qed.

Lemma off_all cs i : (length cs <= i)%nat -> off cs i = zlen (concat cs).
Proof. intros Hi. unfold off. by rewrite take_ge. Qed.

Lemma off_nonneg cs i : 0 <= off cs i.
Proof. unfold off. lia. Qed.

Lemma rd_off cs i c : cs !! i = Some c -> rd_bytes (concat cs) (off cs i) (zlen c) = Some c.
Proof. intros Hi. rewrite (concat_split cs i c Hi). by apply rd_bytes_app. Qed.

Lemma memmove_up (a t f : list Z) dst src n :
  src = zlen a -> dst = zlen a + zlen f -> n = zlen t ->
  memmove (a ++ t ++ f) dst src n = Some (a ++ take (length f) (t ++ f) ++ t).
Proof.
  intros -> -> ->. unfold memmove. rewrite rd_bytes_app by done. simpl.
  rewrite <-(take_drop (length f) (t ++ f)) at 1.
  rewrite app_assoc, <-(app_nil_r (drop _ _)), wr_bytes_app.
  - by rewrite app_nil_r, <-app_assoc.
  - rewrite length_app, length_take, length_app. lia.
  - rewrite length_drop, length_app. lia.
Qed.

Lemma memmove_down (a x t : list Z) dst src n :
  dst = zlen a -> src = zlen a + zlen x -> n = zlen t ->
  memmove (a ++ x ++ t) dst src n = Some (a ++ t ++ drop (length t) (x ++ t)).
Proof.
  intros -> -> ->. unfold memmove.
  assert (rd_bytes (a ++ x ++ t) (zlen a + zlen x) (zlen t) = Some t) as ->.
  { rewrite app_assoc, <-(app_nil_r t) at 1. apply rd_bytes_app; [|done].
    rewrite length_app. lia. }
  simpl. rewrite <-(take_drop (length t) (x ++ t)) at 1.
  apply wr_bytes_app; [done|]. rewrite length_take, length_app. lia.
Qed.

(** Rewrites the prelude's automation uses. *)
Create HintDb kv discriminated.
#[export] Hint Rewrite @length_app @length_cons @length_take @length_drop @length_fmap
  @length_seq @length_insert @length_replicate @length_reverse length_le_enc
  length_realloc : kv.

(** Normalise lengths and close linear goals. *)
Ltac len_solve := autorewrite with kv in *; simpl in *; lia.
Ltac zdiv_lia := Z.to_euclidean_division_equations; lia.
Tactic Notation "len_lia" := autorewrite with kv; simpl; lia.

(** Decide the outermost integer test of the goal by arithmetic. *)
Ltac zdecide tac :=
  match goal with
  | |- context [if ?a <? ?b then _ else _] =>
      first [ rewrite (proj2 (Z.ltb_lt a b)) by tac | rewrite (proj2 (Z.ltb_ge a b)) by tac ]
  | |- context [if ?a <=? ?b then _ else _] =>
      first [ rewrite (proj2 (Z.leb_le a b)) by tac | rewrite (proj2 (Z.leb_gt a b)) by tac ]
  | |- context [if ?a =? ?b then _ else _] =>
      first [ rewrite (proj2 (Z.eqb_eq a b)) by tac | rewrite (proj2 (Z.eqb_neq a b)) by tac ]
  end; cbn [mbind option_bind].
Tactic Notation "zif" := zdecide lia.
Tactic Notation "zif" "by" tactic3(tac) := zdecide tac.

(** ** Sorted lists of integers *)
Lemma StronglySorted_lookup {A} (R : A -> A -> Prop) l i j x y :
  StronglySorted R l -> (i < j)%nat -> l !! i = Some x -> l !! j = Some y -> R x y.
Proof.
  intros Hs. revert i j. induction Hs as [|z l _ IH Hz]; intros i j Hij Hi Hj; [done|].
  destruct j as [|j]; [lia|]. destruct i as [|i]; simplify_eq/=.
  - rewrite Forall_lookup in Hz. eauto.
  - apply (IH i j); [lia|done..].
Qed.

Lemma sorted_lookup_lt (l : list Z) i j x y :
  StronglySorted Z.lt l -> (i < j)%nat ->
  l !! i = Some x -> l !! j = Some y -> x < y.
Proof. apply StronglySorted_lookup. Qed.

Lemma sorted_app_mid (l1 l2 : list Z) v :
  StronglySorted Z.lt (l1 ++ l2) ->
  Forall (fun x => x < v) l1 -> Forall (fun x => v < x) l2 ->
  StronglySorted Z.lt (l1 ++ v :: l2).
Proof.
  induction l1 as [|x l1 IH]; simpl; intros Hs H1 H2.
  - by constructor.
  - apply StronglySorted_inv in Hs as [Hs Hx]. apply Forall_cons in H1 as [Hxv H1].
    constructor; [by apply IH|]. apply Forall_app in Hx as [Hx1 Hx2].
    apply Forall_app; split; [done|]. constructor; [done|]. eapply Forall_impl; [exact H2|].
    simpl; lia.
Qed.

Lemma sorted_remove_mid (l1 l2 : list Z) v :
  StronglySorted Z.lt (l1 ++ v :: l2) -> StronglySorted Z.lt (l1 ++ l2).
Proof.
  induction l1 as [|x l1 IH]; simpl; intros Hs.
  - by apply StronglySorted_inv in Hs as [].
  - apply StronglySorted_inv in Hs as [Hs Hx]. constructor; [by apply IH|].
    rewrite Forall_app, Forall_cons in Hx. apply Forall_app. tauto.
Qed.

(** ** Single-byte accesses *)
Lemma rd_lookup buf i : 0 <= i -> rd buf i = buf !! Z.to_nat i.
Proof. intros. unfold rd. by rewrite bool_decide_true. Qed.

Lemma rd_app (a c : list Z) b i : i = zlen a -> rd (a ++ b :: c) i = Some b.
Proof.
  intros ->. rewrite rd_lookup, Nat2Z.id by lia.
  by rewrite lookup_app_r, Nat.sub_diag by lia.
Qed.

Lemma rd_at buf (a c : list Z) b i : buf = a ++ b :: c -> i = zlen a -> rd buf i = Some b.
Proof. intros ->. apply rd_app. Qed.

Lemma rd_Some buf i : 0 <= i < zlen buf -> exists b, rd buf i = Some b.
Proof.
  intros. rewrite rd_lookup by lia. apply lookup_lt_is_Some. lia.
Qed.

Lemma rd_byte buf i b : Forall is_byte buf -> rd buf i = Some b -> is_byte b.
Proof.
  unfold rd. intros Hall. case_bool_decide; [|done]. intros Hb.
  rewrite Forall_lookup in Hall. eauto.
Qed.

Lemma wr_app (a c : list Z) b b' i :
  i = zlen a -> wr (a ++ b :: c) i b' = Some (a ++ b' :: c).
Proof.
  intros ->. unfold wr. rewrite bool_decide_true by (rewrite length_app; simpl; lia).
  rewrite Nat2Z.id, insert_app_r_alt, Nat.sub_diag by lia. done.
Qed.

Lemma cons_of_length {A} (l : list A) : (0 < length l)%nat -> exists x l', l = x :: l'.
Proof. destruct l; simpl; [lia|eauto]. Qed.

(** Split a list at a [Z] offset. *)
Lemma split_Z {A} (l : list A) (i : Z) :
  0 <= i <= zlen l -> exists a b, l = a ++ b /\ zlen a = i.
Proof.
  intros. destruct (split_at l (Z.to_nat i)) as (a & b & -> & ?); [lia|].
  exists a, b. split; [done|lia].
Qed.

(** ** Bit operations as arithmetic *)
Lemma byte_forall (P : Z -> bool) b :
  forallb P (Z.of_nat <$> seq 0 256) = true -> is_byte b -> P b = true.
Proof.
  unfold is_byte. intros H Hb. rewrite List.forallb_forall in H. apply H.
  apply list_elem_of_In, list_elem_of_fmap. exists (Z.to_nat b).
  split; [lia|]. apply elem_of_seq. lia.
Qed.

Lemma land_shiftl_disjoint a b s :
  0 <= s -> 0 <= a < 2 ^ s -> Z.land a (Z.shiftl b s) = 0.
Proof.
  intros Hs Ha. apply Z.bits_inj'. intros i Hi. rewrite Z.land_spec, Z.bits_0.
  destruct (decide (i < s)).
  - rewrite Z.shiftl_spec_low by done. apply andb_false_r.
  - rewrite <-(Z.mod_small a (2 ^ s)) by done. by rewrite Z.mod_pow2_bits_high by lia.
Qed.

Lemma lor_shiftl_add a b s :
  0 <= s -> 0 <= a < 2 ^ s -> Z.lor a (Z.shiftl b s) = a + b * 2 ^ s.
Proof.
  intros Hs Ha. pose proof (land_shiftl_disjoint a b s Hs Ha) as E.
  rewrite <-Z.lxor_lor, <-Z.add_nocarry_lxor by done. by rewrite Z.shiftl_mul_pow2.
Qed.

Lemma land_255 v : Z.land v 255 = v mod 256.
Proof. change 255 with (Z.ones 8). by rewrite Z.land_ones by lia. Qed.

Lemma shiftr_div v n : 0 <= n -> Z.shiftr v n = v / 2 ^ n.
Proof. apply Z.shiftr_div_pow2. Qed.

Lemma wrap_lor_128 v : wrap 8 (Z.lor v 128) = v mod 128 + 128.
Proof.
  unfold wrap. rewrite <-Z.land_ones, Z.land_lor_distr_l, !Z.land_ones by lia.
  assert (v mod 128 = (v mod 2 ^ 8) mod 128) as -> by (simpl; zdiv_lia).
  apply Z.eqb_eq. change (128 mod 2 ^ 8) with 128. change (2 ^ 8) with 256.
  apply (byte_forall (fun b => Z.lor b 128 =? b mod 128 + 128)).
  - vm_compute. done.
  - apply Z.mod_pos_bound. lia.
Qed.

Lemma byte_land_128 b : is_byte b -> (Z.land b 128 =? 0) = (b <? 128).
Proof.
  intros. apply eqb_prop.
  apply (byte_forall (fun b => eqb (Z.land b 128 =? 0) (b <? 128))); [vm_compute|]; done.
Qed.

Lemma land_127 b : Z.land b 127 = b mod 128.
Proof. change 127 with (Z.ones 7). by rewrite Z.land_ones by lia. Qed.

(** An element of a duplicate-free list has one position. *)
Lemma NoDup_split_unique {A} (y : A) a b a' b' :
  NoDup (a ++ y :: b) -> a ++ y :: b = a' ++ y :: b' -> a = a' /\ b = b'.
Proof.
  revert a'. induction a as [|z a IH]; intros [|z' a'] Hnd E; simplify_eq/=; try done.
  - apply NoDup_cons in Hnd as [Hy _]. destruct Hy. apply elem_of_app. right. by left.
  - apply NoDup_cons in Hnd as [Hy _]. destruct Hy. apply elem_of_app. right. by left.
  - apply NoDup_cons in Hnd as [_ Hnd]. destruct (IH a' Hnd) as [-> ->]; done.
Qed.

Lemma NoDup_omap_strong {A B} (f : A -> option B) l : NoDup l -> (forall x y z, x ∈ l -> y ∈ l -> f x = Some z -> f y = Some z -> x = y) -> NoDup (omap f l).
Proof.
  induction 1 as [|x l Hx Hl IH]; intros Hf; cbn [omap list_omap]; [constructor|]. assert (NoDup (omap f l)) as Hn by (apply IH; intros a b z Ha Hb; apply Hf; by right).
  destruct (f x) as [z|] eqn:Ez; [|done]. constructor; [|done]. intros (y & Hy & Ey)%list_elem_of_omap. apply Hx. by rewrite (Hf x y z (list_elem_of_here _ _) (list_elem_of_further _ _ _ Hy) Ez Ey).
Qed.

Lemma StronglySorted_NoDup {A} (R : A -> A -> Prop) l : (forall x, ~ R x x) -> StronglySorted R l -> NoDup l.
Proof.
  intros Hirr. induction 1 as [|x l Hl IH Hx]; constructor; [|done]. intros Hin. rewrite Forall_forall in Hx. by apply (Hirr x), Hx.
Qed.

Lemma StronglySorted_impl_in {A} (R R' : A -> A -> Prop) l :
  (forall x y, x ∈ l -> y ∈ l -> R x y -> R' x y) -> StronglySorted R l -> StronglySorted R' l.
Proof.
  intros H Hs. induction Hs as [|x l Hs IH Hx]; constructor.
  - apply IH. intros y z Hy Hz. apply H; by right.
  - rewrite Forall_forall in *. intros y Hy. apply H; [by left|by right|auto].
Qed.

(** ** Bits *)
Lemma lxor_bound w a b :
  0 <= w -> fits_unsigned w a -> fits_unsigned w b -> fits_unsigned w (Z.lxor a b).
Proof.
  unfold fits_unsigned. intros Hw Ha Hb. rewrite <-(Z.mod_small a (2 ^ w)), <-(Z.mod_small b (2 ^ w)) by done.
  replace (Z.lxor _ _) with (Z.lxor a b mod 2 ^ w); [apply Z.mod_pos_bound; lia|].
  apply Z.bits_inj'. intros i Hi. rewrite Z.lxor_spec.
  destruct (decide (i < w)).
  - by rewrite !Z.mod_pow2_bits_low, Z.lxor_spec by done.
  - by rewrite !Z.mod_pow2_bits_high by lia.
Qed.

Lemma lor_bound w a b :
  0 <= w -> fits_unsigned w a -> fits_unsigned w b -> fits_unsigned w (Z.lor a b).
Proof.
  unfold fits_unsigned. intros Hw Ha Hb. rewrite <-(Z.mod_small a (2 ^ w)), <-(Z.mod_small b (2 ^ w)) by done.
  replace (Z.lor _ _) with (Z.lor a b mod 2 ^ w); [apply Z.mod_pos_bound; lia|].
  apply Z.bits_inj'. intros i Hi. rewrite Z.lor_spec.
  destruct (decide (i < w)).
  - by rewrite !Z.mod_pow2_bits_low, Z.lor_spec by done.
  - by rewrite !Z.mod_pow2_bits_high by lia.
Qed.

Lemma wrap_unsigned w x : 0 <= w -> fits_unsigned w (wrap w x).
Proof. intros. apply Z.mod_pos_bound. lia. Qed.

Lemma shiftr_bound w a n : 0 <= n -> fits_unsigned w a -> fits_unsigned w (Z.shiftr a n).
Proof.
  unfold fits_unsigned. intros Hn Ha. rewrite Z.shiftr_div_pow2 by done.
  assert (1 <= 2 ^ n) by (pose proof (Z.pow_pos_nonneg 2 n); lia).
  split; [apply Z.div_pos; lia|]. apply Z.div_lt_upper_bound; nia.
Qed.
