(* ===== verification/Endian.v ===== *)
(** Byte order conversion: redis/redis/src/endianconv.c and the [...ifbe]
    macros of endianconv.h.

    [be] is the byte order of the host, [true] for big endian.  An object of
    [n] bytes that holds the integer [v] is the byte list [host_enc be n v].
    The conversions are stated on that representation, so the theorems below
    say what the stored bytes are on either kind of host. *)
From S2P Require Import Prelude.

(** How the host lays an integer object out in memory. *)
Definition host_enc (be : bool) (n : nat) (v : Z) : list Z :=
  if be then reverse (le_enc n v) else le_enc n v.
Definition host_dec (be : bool) (bs : list Z) : Z :=
  le_dec (if be then reverse bs else bs).

(** The byte swaps, on the object the pointer refers to. *)
Definition memrev16 (x : list Z) : list Z :=
  match x with [x0; x1] => [x1; x0] | _ => x end.
Definition memrev32 (x : list Z) : list Z :=
  match x with [x0; x1; x2; x3] => [x3; x2; x1; x0] | _ => x end.
Definition memrev64 (x : list Z) : list Z :=
  match x with
  | [x0; x1; x2; x3; x4; x5; x6; x7] => [x7; x6; x5; x4; x3; x2; x1; x0]
  | _ => x
  end.

Section endian.
Variable be : bool.

Definition intrev16 (v : Z) : Z := host_dec be (memrev16 (host_enc be 2 v)).
Definition intrev32 (v : Z) : Z := host_dec be (memrev32 (host_enc be 4 v)).
Definition intrev64 (v : Z) : Z := host_dec be (memrev64 (host_enc be 8 v)).

Definition memrev16ifbe (x : list Z) : list Z := if be then memrev16 x else x.
Definition memrev32ifbe (x : list Z) : list Z := if be then memrev32 x else x.
Definition memrev64ifbe (x : list Z) : list Z := if be then memrev64 x else x.
Definition intrev32ifbe (v : Z) : Z := if be then intrev32 v else v.
End endian.

Lemma memrev16_reverse x : length x = 2%nat -> memrev16 x = reverse x.
Proof. by destruct x as [|? [|? [|]]]. Qed.
Lemma memrev32_reverse x : length x = 4%nat -> memrev32 x = reverse x.
Proof. by destruct x as [|? [|? [|? [|? [|]]]]]. Qed.
Lemma memrev64_reverse x : length x = 8%nat -> memrev64 x = reverse x.
Proof. by destruct x as [|? [|? [|? [|? [|? [|? [|? [|? [|]]]]]]]]]. Qed.

Lemma length_host_enc be n v : length (host_enc be n v) = n.
Proof. destruct be; simpl; rewrite ?length_reverse; apply length_le_enc. Qed.

Lemma host_dec_enc be n v : host_dec be (host_enc be n v) = v mod 256 ^ Z.of_nat n.
Proof.
  unfold host_dec, host_enc. destruct be; rewrite ?reverse_involutive; apply le_dec_enc.
Qed.

Lemma host_dec_le (be : bool) bs :
  host_dec be (if be then reverse bs else bs) = le_dec bs.
Proof. unfold host_dec. destruct be; by rewrite ?reverse_involutive. Qed.

Lemma le_dec_reverse_involutive n v :
  le_dec (reverse (le_enc n (le_dec (reverse (le_enc n v))))) = v mod 256 ^ Z.of_nat n.
Proof.
  assert (length (reverse (le_enc n v)) = n) as Hl
    by (rewrite length_reverse; apply length_le_enc).
  assert (Forall is_byte (reverse (le_enc n v)))
    by (apply Forall_reverse, le_enc_bytes).
  rewrite <-Hl at 1. rewrite le_enc_dec, reverse_involutive by done. apply le_dec_enc.
Qed.

Lemma intrev32_eq be v : intrev32 be v = le_dec (reverse (le_enc 4 v)).
Proof.
  unfold intrev32. rewrite memrev32_reverse by apply length_host_enc.
  unfold host_dec, host_enc. destruct be; by rewrite ?reverse_involutive.
Qed.

Lemma intrev32_bound be v : fits_unsigned 32 (intrev32 be v).
Proof.
  rewrite intrev32_eq. unfold fits_unsigned.
  pose proof (le_dec_bound (reverse (le_enc 4 v))) as H.
  rewrite length_reverse, length_le_enc in H.
  change (2 ^ 32) with (256 ^ Z.of_nat 4). apply H, Forall_reverse, le_enc_bytes.
Qed.

Lemma intrev32_involutive be v :
  fits_unsigned 32 v -> intrev32 be (intrev32 be v) = v.
Proof.
  intros Hv. rewrite !intrev32_eq, le_dec_reverse_involutive.
  apply Z.mod_small. exact Hv.
Qed.

Lemma intrev32ifbe_involutive be v :
  fits_unsigned 32 v -> intrev32ifbe be (intrev32ifbe be v) = v.
Proof. unfold intrev32ifbe. destruct be; [apply intrev32_involutive | done]. Qed.

(** Storing natively and swapping on big endian hosts leaves the little
    endian bytes in memory, whatever the host. *)
Lemma memrev_store (be : bool) n (memrev : list Z -> list Z) v :
  (forall x, length x = n -> memrev x = reverse x) ->
  (if be then memrev (host_enc be n v) else host_enc be n v) = le_enc n v.
Proof.
  intros H. destruct be; [|done].
  rewrite H by apply length_host_enc. simpl. apply reverse_involutive.
Qed.

Lemma memrev_load (be : bool) n (memrev : list Z -> list Z) v :
  (forall x, length x = n -> memrev x = reverse x) ->
  host_dec be (if be then memrev (le_enc n v) else le_enc n v)
  = v mod 256 ^ Z.of_nat n.
Proof.
  intros H. rewrite <-le_dec_enc.
  destruct be; [|done]. rewrite H by apply length_le_enc. apply (host_dec_le true).
Qed.
