(* ===== verification/Intset.v ===== *)
(** Integer sets: redis/redis/src/intset.c, intset.h.

    An intset is one allocation: a header with the width of the elements and
    their number, then the elements in increasing order, each of the width
    the header names, little endian on every host.  The model keeps that
    layout: [contents] is the byte array, every access goes through the
    checked accessors of [Prelude], and the encoding of the elements is
    widened in place the way the code does it.  [be] is the byte order of
    the host and [junk] the bytes a growing [zrealloc] leaves behind. *)
From S2P Require Import Prelude Endian.

Record intset := mk_intset {
  encoding : Z;        (* uint32_t, as stored (little endian object) *)
  is_length : Z;       (* uint32_t [length], as stored *)
  contents : list Z    (* int8_t contents[], as bytes *)
}.

Definition INTSET_ENC_INT16 : Z := 2.
Definition INTSET_ENC_INT32 : Z := 4.
Definition INTSET_ENC_INT64 : Z := 8.

Definition _intsetValueEncoding (v : Z) : Z :=
  if (v <? - 2 ^ 31) || (2 ^ 31 - 1 <? v) then INTSET_ENC_INT64
  else if (v <? - 2 ^ 15) || (2 ^ 15 - 1 <? v) then INTSET_ENC_INT32
  else INTSET_ENC_INT16.

Section intset.
Variable be : bool.
Variable junk : nat -> Z.

Definition _intsetGetEncoded (s : intset) (pos enc : Z) : option Z :=
  if enc =? INTSET_ENC_INT64 then
    v64 ← rd_bytes (contents s) (pos * 8) 8;
    Some (swrap 64 (host_dec be (memrev64ifbe be v64)))
  else if enc =? INTSET_ENC_INT32 then
    v32 ← rd_bytes (contents s) (pos * 4) 4;
    Some (swrap 32 (host_dec be (memrev32ifbe be v32)))
  else
    v16 ← rd_bytes (contents s) (pos * 2) 2;
    Some (swrap 16 (host_dec be (memrev16ifbe be v16))).

Definition _intsetGet (s : intset) (pos : Z) : option Z :=
  _intsetGetEncoded s pos (intrev32ifbe be (encoding s)).

(** [memrevNifbe(p)] on the object at offset [off]. *)
Definition memrev_at (memrev : list Z -> list Z) (off n : Z) (buf : list Z)
    : option (list Z) :=
  x ← rd_bytes buf off n; wr_bytes buf off (memrev x).

Definition _intsetSet (s : intset) (pos value : Z) : option intset :=
  let enc := intrev32ifbe be (encoding s) in
  c ← (if enc =? INTSET_ENC_INT64 then
         c ← wr_bytes (contents s) (pos * 8) (host_enc be 8 value);
         memrev_at (memrev64ifbe be) (pos * 8) 8 c
       else if enc =? INTSET_ENC_INT32 then
         c ← wr_bytes (contents s) (pos * 4) (host_enc be 4 value);
         memrev_at (memrev32ifbe be) (pos * 4) 4 c
       else
         c ← wr_bytes (contents s) (pos * 2) (host_enc be 2 value);
         memrev_at (memrev16ifbe be) (pos * 2) 2 c);
  Some (mk_intset (encoding s) (is_length s) c).

Definition intsetNew : intset :=
  mk_intset (intrev32ifbe be INTSET_ENC_INT16) 0 [].

Definition intsetResize (s : intset) (len : Z) : intset :=
  let size := wrap 32 (len * intrev32ifbe be (encoding s)) in
  mk_intset (encoding s) (is_length s) (realloc junk (contents s) size).

(** The [while(max >= min)] loop of [intsetSearch]; [cur] and [mid] are the
    variables' values on entry.  The result is ([cur], [mid], [min]). *)
Fixpoint intsetSearch_loop (fuel : nat) (s : intset) (value min max mid cur : Z)
    : option (Z * Z * Z) :=
  match fuel with
  | O => None
  | S fuel =>
    if min <=? max then
      let mid := swrap 32 (Z.shiftr (wrap 32 (wrap 32 min + wrap 32 max)) 1) in
      cur ← _intsetGet s mid;
      if cur <? value then intsetSearch_loop fuel s value (mid + 1) max mid cur
      else if value <? cur then intsetSearch_loop fuel s value min (mid - 1) mid cur
      else Some (cur, mid, min)
    else Some (cur, mid, min)
  end.

(** Returns whether the value was found and what [*pos] is set to. *)
Definition intsetSearch (s : intset) (value : Z) : option (bool * Z) :=
  let len := intrev32ifbe be (is_length s) in
  let search :=
    r ← intsetSearch_loop (S (Z.to_nat len)) s value 0 (swrap 32 (len - 1)) (-1) (-1);
    let '(cur, mid, min) := r in
    if value =? cur then Some (true, mid) else Some (false, min) in
  if len =? 0 then Some (false, 0)
  else
    last ← _intsetGet s (swrap 32 (len - 1));
    if last <? value then Some (false, len)
    else
      first ← _intsetGet s 0;
      if value <? first then Some (false, 0) else search.

(** [while(length--) _intsetSet(is,length+prepend,_intsetGetEncoded(...))]. *)
Fixpoint intsetUpgrade_loop (length : nat) (s : intset) (prepend curenc : Z)
    : option intset :=
  match length with
  | O => Some s
  | S length =>
    v ← _intsetGetEncoded s (Z.of_nat length) curenc;
    s ← _intsetSet s (Z.of_nat length + prepend) v;
    intsetUpgrade_loop length s prepend curenc
  end.

Definition intsetUpgradeAndAdd (s : intset) (value : Z) : option intset :=
  let curenc := wrap 8 (intrev32ifbe be (encoding s)) in
  let newenc := _intsetValueEncoding value in
  let length := intrev32ifbe be (is_length s) in
  let prepend := if value <? 0 then 1 else 0 in
  let s := mk_intset (intrev32ifbe be newenc) (is_length s) (contents s) in
  let s := intsetResize s (wrap 32 (intrev32ifbe be (is_length s) + 1)) in
  s ← intsetUpgrade_loop (Z.to_nat length) s prepend curenc;
  s ← (if prepend =? 1 then _intsetSet s 0 value
        else _intsetSet s (intrev32ifbe be (is_length s)) value);
  Some (mk_intset (encoding s)
          (intrev32ifbe be (wrap 32 (intrev32ifbe be (is_length s) + 1))) (contents s)).

Definition intsetMoveTail (s : intset) (from to : Z) : option intset :=
  let bytes := wrap 32 (intrev32ifbe be (is_length s) - from) in
  let enc := intrev32ifbe be (encoding s) in
  c ← (if enc =? INTSET_ENC_INT64 then
         memmove (contents s) (to * 8) (from * 8) (wrap 32 (bytes * 8))
       else if enc =? INTSET_ENC_INT32 then
         memmove (contents s) (to * 4) (from * 4) (wrap 32 (bytes * 4))
       else memmove (contents s) (to * 2) (from * 2) (wrap 32 (bytes * 2)));
  Some (mk_intset (encoding s) (is_length s) c).

(** Returns the set and [*success]. *)
Definition intsetAdd (s : intset) (value : Z) : option (intset * bool) :=
  let valenc := _intsetValueEncoding value in
  if intrev32ifbe be (encoding s) <? valenc then
    s ← intsetUpgradeAndAdd s value; Some (s, true)
  else
    r ← intsetSearch s value;
    let '(found, pos) := r in
    if (found : bool) then Some (s, false)
    else
      let s := intsetResize s (wrap 32 (intrev32ifbe be (is_length s) + 1)) in
      s ← (if pos <? intrev32ifbe be (is_length s)
            then intsetMoveTail s pos (wrap 32 (pos + 1)) else Some s);
      s ← _intsetSet s pos value;
      Some (mk_intset (encoding s)
              (intrev32ifbe be (wrap 32 (intrev32ifbe be (is_length s) + 1))) (contents s),
            true).

Definition intsetRemove (s : intset) (value : Z) : option (intset * bool) :=
  let valenc := _intsetValueEncoding value in
  if valenc <=? intrev32ifbe be (encoding s) then
    r ← intsetSearch s value;
    let '(found, pos) := r in
    if (found : bool) then
      let len := intrev32ifbe be (is_length s) in
      s ← (if pos <? wrap 32 (len - 1)
            then intsetMoveTail s (wrap 32 (pos + 1)) pos else Some s);
      let s := intsetResize s (wrap 32 (len - 1)) in
      Some (mk_intset (encoding s) (intrev32ifbe be (wrap 32 (len - 1))) (contents s),
            true)
    else Some (s, false)
  else Some (s, false).

Definition intsetFind (s : intset) (value : Z) : option bool :=
  let valenc := _intsetValueEncoding value in
  if valenc <=? intrev32ifbe be (encoding s) then
    r ← intsetSearch s value; Some (fst r)
  else Some false.

(** [rand] is what [rand()] returned. *)
Definition intsetRandom (rand : Z) (s : intset) : option Z :=
  let len := intrev32ifbe be (is_length s) in
  if len =? 0 then None
  else _intsetGet s (swrap 32 (rand mod len)).

Definition intsetGet (s : intset) (pos : Z) : option (option Z) :=
  if pos <? intrev32ifbe be (is_length s)
  then v ← _intsetGet s (swrap 32 pos); Some (Some v) else Some None.

Definition intsetLen (s : intset) : Z := intrev32ifbe be (is_length s).

Definition intsetBlobLen (s : intset) : Z :=
  8 + wrap 32 (intrev32ifbe be (is_length s) * intrev32ifbe be (encoding s)).
End intset.

(** ** What an intset represents

    [intset_rep be s e vals]: [s] stores the strictly increasing list [vals]
    with elements of [e] bytes. *)
Definition valid_enc (e : nat) : Prop := (e = 2 \/ e = 4 \/ e = 8)%nat.

Record intset_rep (be : bool) (s : intset) (e : nat) (vals : list Z) : Prop := {
  rep_valid : valid_enc e;
  rep_enc : encoding s = intrev32ifbe be (Z.of_nat e);
  rep_len : is_length s = intrev32ifbe be (zlen vals);
  rep_small : zlen vals < 2 ^ 31;
  rep_contents : contents s = concat (le_enc e <$> vals);
  rep_fits : Forall (fits_signed (8 * Z.of_nat e)) vals;
  rep_sorted : StronglySorted Z.lt vals
}.

(** Case on the width and run the code's tests on it. *)
Ltac enc_cases He :=
  destruct He as [-> | [-> | ->]];
  repeat match goal with
  | |- context [Z.of_nat ?n =? ?k] =>
      let b := eval vm_compute in (Z.of_nat n =? k) in
      change (Z.of_nat n =? k) with b; cbv beta iota
  end.

(** The state between the steps of an operation: the header says [e], the
    array holds [a], one slot, and [c]. *)
Lemma getEncoded_at be s pos e (a c : list Z) v :
  valid_enc e -> contents s = a ++ le_enc e v ++ c ->
  zlen a = pos * Z.of_nat e -> fits_signed (8 * Z.of_nat e) v ->
  _intsetGetEncoded be s pos (Z.of_nat e) = Some v.
Proof.
  intros He Hc Ha Hv. unfold _intsetGetEncoded. rewrite Hc.
  enc_cases He;
    rewrite (rd_bytes_app a (le_enc _ v)) by (rewrite ?length_le_enc; lia);
    cbn [mbind option_bind]; f_equal;
    unfold memrev16ifbe, memrev32ifbe, memrev64ifbe.
  - rewrite (memrev_load be 2 memrev16 v memrev16_reverse). by apply (swrap_id 16).
  - rewrite (memrev_load be 4 memrev32 v memrev32_reverse). by apply (swrap_id 32).
  - rewrite (memrev_load be 8 memrev64 v memrev64_reverse). by apply (swrap_id 64).
Qed.

Lemma memrev_at_app memrev n (a b c : list Z) off :
  off = zlen a -> length b = n -> length (memrev b) = n ->
  memrev_at memrev off (Z.of_nat n) (a ++ b ++ c) = Some (a ++ memrev b ++ c).
Proof.
  intros -> Hb Hm. unfold memrev_at. rewrite rd_bytes_app by lia. simpl.
  apply wr_bytes_app; lia.
Qed.

Lemma store_at (be : bool) memrev n (a b c : list Z) off v :
  (forall x, length x = n -> memrev x = reverse x) ->
  off = zlen a -> length b = n ->
  (c' ← wr_bytes (a ++ b ++ c) off (host_enc be n v);
   memrev_at (fun x => if be then memrev x else x) off (Z.of_nat n) c')
  = Some (a ++ le_enc n v ++ c).
Proof.
  intros Hr Ho Hb. rewrite wr_bytes_app by (rewrite ?length_host_enc; done). simpl.
  rewrite memrev_at_app; rewrite ?(memrev_store be n memrev v Hr), ?length_host_enc;
    rewrite ?length_le_enc; done.
Qed.

Lemma intsetSet_at be s pos e (a b c : list Z) v :
  valid_enc e -> encoding s = intrev32ifbe be (Z.of_nat e) ->
  contents s = a ++ b ++ c -> zlen a = pos * Z.of_nat e -> length b = e ->
  _intsetSet be s pos v =
    Some (mk_intset (encoding s) (is_length s) (a ++ le_enc e v ++ c)).
Proof.
  intros He Henc Hc Ha Hb. unfold _intsetSet.
  rewrite Henc, intrev32ifbe_involutive
    by (unfold fits_unsigned; destruct He as [-> | [-> | ->]]; simpl; lia).
  rewrite Hc. enc_cases He.
  - rewrite (store_at be memrev16 2); [done|apply memrev16_reverse|lia|done].
  - rewrite (store_at be memrev32 4); [done|apply memrev32_reverse|lia|done].
  - rewrite (store_at be memrev64 8); [done|apply memrev64_reverse|lia|done].
Qed.

Lemma length_encoded e (l : list Z) : length (concat (le_enc e <$> l)) = (length l * e)%nat.
Proof.
  rewrite (length_concat_chunks e), length_fmap; [done|].
  rewrite Forall_fmap. apply Forall_true. intros; apply length_le_enc.
Qed.
#[local] Hint Rewrite length_encoded : kv.

Lemma encoded_split e (l : list Z) i v :
  l !! i = Some v ->
  concat (le_enc e <$> l) =
    concat (le_enc e <$> take i l) ++ le_enc e v ++ concat (le_enc e <$> drop (S i) l).
Proof.
  intros H. rewrite fmap_take, fmap_drop. apply concat_split. by rewrite list_lookup_fmap, H.
Qed.

Section rep.
Context (be : bool) (s : intset) (e : nat) (vals : list Z).
Hypothesis Hrep : intset_rep be s e vals.

Lemma rep_get_enc : intrev32ifbe be (encoding s) = Z.of_nat e.
Proof.
  destruct Hrep as [He -> _ _ _ _ _]. apply intrev32ifbe_involutive.
  unfold fits_unsigned. destruct He as [-> | [-> | ->]]; simpl; lia.
Qed.

Lemma rep_get_len : intrev32ifbe be (is_length s) = zlen vals.
Proof.
  destruct Hrep. rewrite rep_len0. apply intrev32ifbe_involutive.
  unfold fits_unsigned. lia.
Qed.

Lemma rep_get i v pos :
  vals !! i = Some v -> pos = Z.of_nat i -> _intsetGet be s pos = Some v.
Proof.
  intros Hi ->. unfold _intsetGet. rewrite rep_get_enc.
  pose proof (lookup_lt_Some _ _ _ Hi). destruct Hrep.
  eapply getEncoded_at; [done| |..].
  - by rewrite rep_contents0, (encoded_split e vals i v Hi).
  - rewrite length_encoded, length_take. lia.
  - rewrite Forall_lookup in rep_fits0. eauto.
Qed.
End rep.

(** ** Binary search *)
Definition insertion_point (vals : list Z) (v pos : Z) : Prop :=
  0 <= pos <= zlen vals /\
  (forall i x, vals !! i = Some x -> Z.of_nat i < pos -> x < v) /\
  (forall i x, vals !! i = Some x -> pos <= Z.of_nat i -> v < x).

Lemma lookup_Z {A} (l : list A) i :
  0 <= i < zlen l -> exists x, l !! Z.to_nat i = Some x.
Proof. intros. apply lookup_lt_is_Some. lia. Qed.

Section search.
Context (be : bool) (s : intset) (e : nat) (vals : list Z).
Hypothesis Hrep : intset_rep be s e vals.

Lemma search_loop_spec fuel v min max mid cur :
  0 <= min -> max < zlen vals -> min <= max + 1 ->
  (Z.to_nat (max - min + 1) < fuel)%nat ->
  (forall i x, vals !! i = Some x -> Z.of_nat i < min -> x < v) ->
  (forall i x, vals !! i = Some x -> max < Z.of_nat i -> v < x) ->
  min <= max \/ cur <> v ->
  exists cur' mid' min',
    intsetSearch_loop be fuel s v min max mid cur = Some (cur', mid', min') /\
    (if cur' =? v then 0 <= mid' /\ vals !! Z.to_nat mid' = Some v
     else insertion_point vals v min').
Proof.
  pose proof (rep_small _ _ _ _ Hrep) as Hsmall.
  revert min max mid cur. induction fuel as [|fuel IH]; [lia|].
  intros min max mid cur H0 Hmax Hle Hfuel Hlo Hhi Hcur. simpl.
  destruct (Z.leb_spec min max) as [Hmm|Hmm].
  2:{ exists cur, mid, min. split; [done|].
      destruct (Z.eqb_spec cur v); [lia|]. split_and!; [lia|lia|done|].
      intros i x Hi ?. apply (Hhi i x Hi). lia. }
  assert (swrap 32 (Z.shiftr (wrap 32 (wrap 32 min + wrap 32 max)) 1)
          = (min + max) / 2) as ->.
  { unfold wrap. rewrite !(Z.mod_small min), !(Z.mod_small max) by lia.
    rewrite (Z.mod_small (min + max)), Z.shiftr_div_pow2 by lia.
    change (2 ^ 1) with 2. apply swrap_fits; [lia|].
    unfold fits_signed. simpl. zdiv_lia. }
  set (m := (min + max) / 2) in *.
  assert (min <= m <= max) by (subst m; zdiv_lia).
  destruct (lookup_Z vals m) as [x Hx]; [lia|].
  rewrite (rep_get _ _ _ _ Hrep (Z.to_nat m) x) by (done || lia). simpl.
  pose proof (rep_sorted _ _ _ _ Hrep) as Hs.
  destruct (Z.ltb_spec x v).
  - apply IH; try lia; [|done].
    intros i y Hi Hlt. destruct (decide (i = Z.to_nat m)) as [->|]; [simplify_eq; lia|].
    destruct (decide (Z.of_nat i < m)); [|lia].
    pose proof (sorted_lookup_lt vals i (Z.to_nat m) y x Hs ltac:(lia) Hi Hx). lia.
  - destruct (Z.ltb_spec v x).
    + apply IH; try lia; [done|].
      intros i y Hi Hlt. destruct (decide (i = Z.to_nat m)) as [->|]; [simplify_eq; lia|].
      pose proof (sorted_lookup_lt vals (Z.to_nat m) i x y Hs ltac:(lia) Hx Hi). lia.
    + assert (x = v) as -> by lia. exists v, m, min. rewrite Z.eqb_refl.
      split_and!; [done|lia|done].
Qed.

Lemma intsetSearch_rep v :
  exists found pos, intsetSearch be s v = Some (found, pos) /\
    if (found : bool) then 0 <= pos /\ vals !! Z.to_nat pos = Some v
    else insertion_point vals v pos.
Proof.
  unfold intsetSearch. rewrite (rep_get_len _ _ _ _ Hrep).
  pose proof (rep_small _ _ _ _ Hrep) as Hsmall.
  pose proof (rep_sorted _ _ _ _ Hrep) as Hs.
  destruct (Z.eqb_spec (zlen vals) 0) as [H0|H0].
  { exists false, 0. split; [done|]. destruct vals; [|done].
    split; [simpl; lia|]. split; intros i x; by rewrite lookup_nil. }
  assert (swrap 32 (zlen vals - 1) = zlen vals - 1) as Hsw.
  { apply swrap_fits; [lia|]. unfold fits_signed; simpl; lia. }
  rewrite Hsw. destruct (lookup_Z vals (zlen vals - 1)) as [y Hy]; [lia|].
  destruct (lookup_Z vals 0) as [x Hx]; [lia|].
  rewrite (rep_get _ _ _ _ Hrep _ y (zlen vals - 1) Hy) by lia.
  rewrite (rep_get _ _ _ _ Hrep _ x 0 Hx) by lia. cbn [mbind option_bind].
  destruct (Z.ltb_spec y v) as [Hyv|Hyv].
  { exists false, (zlen vals). split; [done|]. split; [lia|]. split.
    - intros i z Hi _. destruct (decide (Z.of_nat i = zlen vals - 1)) as [E|E].
      + rewrite <-E, Nat2Z.id in Hy. by simplify_eq.
      + pose proof (lookup_lt_Some _ _ _ Hi).
        pose proof (sorted_lookup_lt vals i (Z.to_nat (zlen vals - 1)) z y Hs ltac:(lia) Hi Hy). lia.
    - intros i z Hi ?. apply lookup_lt_Some in Hi. lia. }
  destruct (Z.ltb_spec v x) as [Hvx|Hvx].
  { exists false, 0. split; [done|]. split; [lia|]. split; [intros; lia|].
    intros i z Hi _. destruct i as [|i]; [change (Z.to_nat 0) with O in Hx; simplify_eq; lia|].
    pose proof (sorted_lookup_lt vals (Z.to_nat 0) (S i) x z Hs ltac:(lia) Hx Hi). lia. }
  destruct (search_loop_spec (S (Z.to_nat (zlen vals))) v 0 (zlen vals - 1) (-1) (-1))
    as (cur & mid & mn & Heq & Hres); try lia.
  { intros i z Hi ?. apply lookup_lt_Some in Hi. lia. }
  rewrite Heq. cbn [mbind option_bind]. rewrite Z.eqb_sym.
  destruct (cur =? v); eauto.
Qed.
End search.

(** ** Insertion and removal *)
Lemma insertion_split vals v pos :
  insertion_point vals v pos ->
  exists l1 l2, vals = l1 ++ l2 /\ pos = zlen l1 /\
    Forall (fun x => x < v) l1 /\ Forall (fun x => v < x) l2.
Proof.
  intros (Hb & Hlo & Hhi). exists (take (Z.to_nat pos) vals), (drop (Z.to_nat pos) vals).
  rewrite take_drop, length_take. split_and!; [done|lia|..]; apply Forall_lookup; intros i x Hi.
  - apply lookup_take_Some in Hi as [Hi ?]. apply (Hlo i x Hi). lia.
  - rewrite lookup_drop in Hi. apply (Hhi _ x Hi). lia.
Qed.

Lemma valueEncoding_spec v :
  fits_signed 64 v ->
  exists e, valid_enc e /\ _intsetValueEncoding v = Z.of_nat e /\
    fits_signed (8 * Z.of_nat e) v.
Proof.
  unfold fits_signed, _intsetValueEncoding, valid_enc. intros Hv.
  destruct (_ || _) eqn:E1; [exists 8%nat|destruct ((v <? - 2 ^ 15) || _) eqn:E2];
    [| exists 4%nat | exists 2%nat]; (split_and!; [lia|done|..]); simpl in *; lia.
Qed.

Lemma valueEncoding_le e v :
  valid_enc e -> fits_signed 64 v ->
  _intsetValueEncoding v <= Z.of_nat e <-> fits_signed (8 * Z.of_nat e) v.
Proof.
  unfold _intsetValueEncoding, INTSET_ENC_INT16, INTSET_ENC_INT32, INTSET_ENC_INT64,
    fits_signed. intros [-> | [-> | ->]] Hv; simpl in *;
    repeat case_match; lia.
Qed.

Lemma fits_mono e e' v :
  valid_enc e -> valid_enc e' -> (e <= e')%nat ->
  fits_signed (8 * Z.of_nat e) v -> fits_signed (8 * Z.of_nat e') v.
Proof.
  unfold fits_signed. intros [-> | [-> | ->]] [-> | [-> | ->]] ?; simpl; lia.
Qed.

Lemma moveTail_up be s e (a t f : list Z) pos len :
  valid_enc e -> intrev32ifbe be (encoding s) = Z.of_nat e ->
  intrev32ifbe be (is_length s) = len -> contents s = a ++ t ++ f ->
  zlen a = pos * Z.of_nat e -> zlen t = (len - pos) * Z.of_nat e -> length f = e ->
  0 <= pos <= len -> (len + 1) * 8 < 2 ^ 32 ->
  exists x, intsetMoveTail be s pos (wrap 32 (pos + 1)) =
    Some (mk_intset (encoding s) (is_length s) (a ++ x ++ t)) /\ length x = e.
Proof.
  intros He Henc Hlen Hc Ha Ht Hf Hpos Hsmall. exists (take (length f) (t ++ f)).
  split; [|len_lia]. unfold intsetMoveTail.
  rewrite Henc, Hlen, Hc, (wrap_fits 32 (len - pos)), (wrap_fits 32 (pos + 1))
    by (unfold fits_unsigned; lia).
  enc_cases He; rewrite wrap_fits by (unfold fits_unsigned; lia);
    rewrite memmove_up by lia; done.
Qed.

Lemma moveTail_down be s e (a x t : list Z) pos len :
  valid_enc e -> intrev32ifbe be (encoding s) = Z.of_nat e ->
  intrev32ifbe be (is_length s) = len -> contents s = a ++ x ++ t ->
  zlen a = pos * Z.of_nat e -> length x = e -> zlen t = (len - pos - 1) * Z.of_nat e ->
  0 <= pos < len -> len * 8 < 2 ^ 32 ->
  exists f, intsetMoveTail be s (wrap 32 (pos + 1)) pos =
    Some (mk_intset (encoding s) (is_length s) (a ++ t ++ f)).
Proof.
  intros He Henc Hlen Hc Ha Hx Ht Hpos Hsmall. exists (drop (length t) (x ++ t)).
  unfold intsetMoveTail.
  rewrite Henc, Hlen, Hc, (wrap_fits 32 (pos + 1)), (wrap_fits 32 (len - (pos + 1)))
    by (unfold fits_unsigned; lia).
  enc_cases He; rewrite wrap_fits by (unfold fits_unsigned; lia);
    rewrite memmove_down by lia; done.
Qed.

Lemma resize_grow be junk s e n :
  valid_enc e -> intrev32ifbe be (encoding s) = Z.of_nat e ->
  zlen (contents s) = (n - 1) * Z.of_nat e -> 0 < n -> n * 8 < 2 ^ 32 ->
  exists f, intsetResize be junk s (wrap 32 n) =
    mk_intset (encoding s) (is_length s) (contents s ++ f) /\ length f = e.
Proof.
  intros He Henc Hc Hn Hsmall. unfold intsetResize. rewrite Henc.
  assert (n * Z.of_nat e <= n * 8) by (unfold valid_enc in He; nia).
  rewrite (wrap_fits 32 n), wrap_fits by (unfold fits_unsigned; nia).
  destruct (realloc_grow junk (contents s) (n * Z.of_nat e)) as (f & -> & Hf & _); [lia|].
  exists f. split; [done|]. lia.
Qed.

Section ops.
Context (be : bool) (junk : nat -> Z) (s : intset) (e : nat) (vals : list Z).
Hypothesis Hrep : intset_rep be s e vals.
Hypothesis Hsmall : (zlen vals + 1) * 8 < 2 ^ 32.

Lemma rep_zlen_contents : zlen (contents s) = zlen vals * Z.of_nat e.
Proof. rewrite (rep_contents _ _ _ _ Hrep), length_encoded. lia. Qed.

(** The insertion branch of [intsetAdd], after the search. *)
Lemma insert_at l1 l2 v :
  vals = l1 ++ l2 -> fits_signed (8 * Z.of_nat e) v ->
  Forall (fun x => x < v) l1 -> Forall (fun x => v < x) l2 ->
  exists s', (let s := intsetResize be junk s (wrap 32 (intrev32ifbe be (is_length s) + 1)) in
      s ← (if zlen l1 <? intrev32ifbe be (is_length s)
            then intsetMoveTail be s (zlen l1) (wrap 32 (zlen l1 + 1)) else Some s);
      s ← _intsetSet be s (zlen l1) v;
      Some (mk_intset (encoding s)
              (intrev32ifbe be (wrap 32 (intrev32ifbe be (is_length s) + 1))) (contents s),
            true)) = Some (s', true) /\ intset_rep be s' e (l1 ++ v :: l2).
Proof.
  intros Hv Hfit H1 H2. pose proof rep_zlen_contents as Hzl.
  pose proof (rep_get_enc _ _ _ _ Hrep) as Hgenc.
  pose proof (rep_get_len _ _ _ _ Hrep) as Hglen.
  destruct Hrep as [Hval Henc Hlen Hs Hc Hfits Hsort].
  destruct (resize_grow be junk s e (zlen vals + 1)) as (f & Hres & Hf);
    [done|done|lia|lia|lia|].
  rewrite Hglen, Hres. simpl. rewrite Hglen.
  rewrite Hv, fmap_app, concat_app in Hc. rewrite Hc, <-app_assoc.
  set (a := concat (le_enc e <$> l1)) in *. set (t := concat (le_enc e <$> l2)) in *.
  assert (zlen a = zlen l1 * Z.of_nat e) as Ha by (subst a; rewrite length_encoded; lia).
  assert (zlen t = zlen l2 * Z.of_nat e) as Ht by (subst t; rewrite length_encoded; lia).
  assert (zlen vals = zlen l1 + zlen l2) as Hl by (rewrite Hv; len_lia).
  assert (exists x, (if zlen l1 <? zlen vals
     then intsetMoveTail be (mk_intset (encoding s) (is_length s) (a ++ t ++ f))
            (zlen l1) (wrap 32 (zlen l1 + 1))
     else Some (mk_intset (encoding s) (is_length s) (a ++ t ++ f)))
     = Some (mk_intset (encoding s) (is_length s) (a ++ x ++ t)) /\ length x = e)
    as (x & -> & Hx).
  { destruct (Z.ltb_spec (zlen l1) (zlen vals)).
    - apply (moveTail_up be (mk_intset (encoding s) (is_length s) (a ++ t ++ f))
               e a t f (zlen l1) (zlen vals)); simpl; (done || lia || nia).
    - assert (l2 = []) as -> by (apply length_zero_iff_nil; lia).
      exists f. split; [|done]. subst t. simpl. by rewrite app_nil_r. }
  cbn [mbind option_bind].
  rewrite (intsetSet_at be _ (zlen l1) e a x t) by (simpl; (done || lia)).
  eexists; split; [done|]. simpl. rewrite Hglen, wrap_fits by (unfold fits_unsigned; lia).
  split; simpl; [done|done| |len_lia| |..].
  - f_equal. rewrite Hl. len_lia.
  - by rewrite fmap_app, concat_app.
  - rewrite Hv, Forall_app in Hfits. rewrite Forall_app, Forall_cons. tauto.
  - apply sorted_app_mid; [by rewrite <-Hv|done|done].
Qed.
End ops.

(** ** Widening in place

    The loop walks from the last element down.  Before step [k] the first [k]
    elements are still there in the old width, the others are already
    stored in the new width [p] slots to the right, and what is between the
    two areas is free. *)
Lemma upgrade_loop_spec be e e' (vals : list Z) (p : Z) (tail : list Z) :
  valid_enc e -> valid_enc e' -> (e <= e')%nat -> 0 <= p ->
  Forall (fits_signed (8 * Z.of_nat e)) vals ->
  forall k s gap, (k <= length vals)%nat ->
  encoding s = intrev32ifbe be (Z.of_nat e') ->
  contents s = concat (le_enc e <$> take k vals) ++ gap ++
               concat (le_enc e' <$> drop k vals) ++ tail ->
  zlen gap = (Z.of_nat k + p) * Z.of_nat e' - Z.of_nat k * Z.of_nat e ->
  exists gap', intsetUpgrade_loop be k s p (Z.of_nat e) =
    Some (mk_intset (encoding s) (is_length s)
            (gap' ++ concat (le_enc e' <$> vals) ++ tail)) /\
    zlen gap' = p * Z.of_nat e'.
Proof.
  intros He He' Hee Hp Hfits. induction k as [|k IH]; intros s gap Hk Henc Hc Hgap.
  { exists gap. destruct s; simpl in *. subst. split; [done|lia]. }
  destruct (lookup_lt_is_Some_2 vals k ltac:(lia)) as [v Hv].
  rewrite Forall_lookup in Hfits. pose proof (Hfits k v Hv) as Hfv.
  rewrite (take_S_r _ _ _ Hv), fmap_app, concat_app in Hc. simpl in Hc.
  rewrite app_nil_r, <-app_assoc in Hc. set (a := concat (le_enc e <$> take k vals)) in *.
  assert (zlen a = Z.of_nat k * Z.of_nat e) as Ha
    by (subst a; rewrite length_encoded, length_take; lia).
  simpl. rewrite (getEncoded_at be s (Z.of_nat k) e a _ v He Hc Ha Hfv).
  cbn [mbind option_bind].
  destruct (split_at (le_enc e v ++ gap) (Z.to_nat ((Z.of_nat k + p) * Z.of_nat e' - Z.of_nat k * Z.of_nat e)))
    as (x & y & Hxy & Hx); [len_lia || (autorewrite with kv; nia)|].
  assert (length y = e') as Hy.
  { apply (f_equal length) in Hxy. autorewrite with kv in Hxy. nia. }
  rewrite app_assoc, app_assoc, <-(app_assoc a), Hxy, !app_assoc, <-app_assoc in Hc.
  rewrite <-(app_assoc _ y) in Hc.
  rewrite (intsetSet_at be s _ e' (a ++ x) y
            (concat (le_enc e' <$> drop (S k) vals) ++ tail) v He' Henc Hc)
    by (rewrite ?length_app; (done || nia)).
  cbn [mbind option_bind]. rewrite <-app_assoc.
  destruct (IH (mk_intset (encoding s) (is_length s)
    (a ++ x ++ le_enc e' v ++ concat (le_enc e' <$> drop (S k) vals) ++ tail)) x)
    as (gap' & Hl & Hg); simpl; [lia|done| |nia|eauto].
  rewrite (drop_S _ _ _ Hv). simpl. by rewrite <-app_assoc.
Qed.

Section upgrade.
Context (be : bool) (junk : nat -> Z) (s : intset) (e : nat) (vals : list Z).
Hypothesis Hrep : intset_rep be s e vals.
Hypothesis Hsmall : (zlen vals + 1) * 8 < 2 ^ 32.

Lemma upgradeAndAdd_rep v :
  fits_signed 64 v -> Z.of_nat e < _intsetValueEncoding v ->
  exists s' e' vals', intsetUpgradeAndAdd be junk s v = Some s' /\
    intset_rep be s' e' vals' /\ Z.of_nat e' = _intsetValueEncoding v /\
    ((v < 0 /\ vals' = v :: vals) \/ (0 <= v /\ vals' = vals ++ [v])).
Proof.
  intros Hv Hlt. pose proof (rep_get_enc _ _ _ _ Hrep) as Hgenc.
  pose proof (rep_get_len _ _ _ _ Hrep) as Hglen.
  pose proof (rep_zlen_contents _ _ _ _ Hrep) as Hzl.
  destruct (valueEncoding_spec v Hv) as (e' & He' & Hne & Hfit).
  destruct Hrep as [Hval Henc Hlen Hs Hc Hfits Hsort].
  assert (fits_unsigned 32 (Z.of_nat e'))
    by (unfold fits_unsigned; destruct He' as [-> | [-> | ->]]; simpl; lia).
  assert (~ fits_signed (8 * Z.of_nat e) v) as Hnf
    by (rewrite <-(valueEncoding_le e v Hval Hv); lia).
  unfold intsetUpgradeAndAdd. rewrite Hgenc, Hglen, Hne.
  rewrite (wrap_fits 8) by (unfold fits_unsigned; destruct Hval as [-> | [-> | ->]]; simpl; lia).
  unfold intsetResize. simpl. rewrite Hglen, intrev32ifbe_involutive by done.
  assert (0 <= (zlen vals + 1) * Z.of_nat e' <= (zlen vals + 1) * 8)
    by (unfold valid_enc in He'; nia).
  rewrite (wrap_fits 32 (zlen vals + 1)), wrap_fits by (unfold fits_unsigned; lia).
  destruct (realloc_grow junk (contents s) ((zlen vals + 1) * Z.of_nat e'))
    as (f & -> & Hf & _); [nia|].
  rewrite Nat2Z.id.
  set (p := if v <? 0 then 1 else 0).
  assert (p = 0 \/ p = 1) as Hp by (subst p; destruct (v <? 0); lia).
  destruct (split_at f (Z.to_nat ((zlen vals + p) * Z.of_nat e' - zlen vals * Z.of_nat e)))
    as (gap & tail & -> & Hgap); [nia|].
  destruct (upgrade_loop_spec be e e' vals p tail Hval He' ltac:(lia) ltac:(lia) Hfits
    (length vals) (mk_intset (intrev32ifbe be (Z.of_nat e')) (is_length s)
       (contents s ++ gap ++ tail)) gap) as (gap' & -> & Hg'); simpl; [lia|done| |nia|].
  { by rewrite Hc, take_ge, drop_ge by lia. }
  cbn [mbind option_bind encoding is_length contents].
  assert (zlen tail = (1 - p) * Z.of_nat e') as Htl by (rewrite length_app in Hf; nia).
  destruct (Z.ltb_spec v 0) as [Hneg|Hpos]; subst p; cbn [Z.eqb Pos.eqb]; cbv iota.
  - assert (tail = []) as -> by (apply length_zero_iff_nil; lia).
    rewrite (intsetSet_at be _ 0 e' [] gap' (concat (le_enc e' <$> vals) ++ []))
      by (simpl; (done || lia)).
    do 3 eexists. split; [done|]. split; [|split; [done|by left]].
    simpl. rewrite Hglen, wrap_fits by (unfold fits_unsigned; lia).
    split; simpl; [done|done| |lia|by rewrite app_nil_r|..].
    + f_equal; lia.
    + constructor; [done|]. eapply Forall_impl; [exact Hfits|].
      intros x. apply fits_mono; [done..|lia].
    + constructor; [done|]. eapply Forall_impl; [exact Hfits|].
      intros x Hx. unfold fits_signed in *. lia.
  - rewrite Hglen. assert (gap' = []) as -> by (apply length_zero_iff_nil; lia).
    rewrite (intsetSet_at be _ (zlen vals) e' (concat (le_enc e' <$> vals)) tail [])
      by (simpl; rewrite ?app_nil_r, ?length_encoded; (done || lia)).
    do 3 eexists. split; [done|]. split; [|split; [done|by right]].
    simpl. rewrite Hglen, wrap_fits by (unfold fits_unsigned; lia).
    split; simpl; [done|done| |len_lia| |..].
    + f_equal. len_lia.
    + rewrite fmap_app, concat_app. done.
    + apply Forall_app; split; [|by constructor]. eapply Forall_impl; [exact Hfits|].
      intros x. apply fits_mono; [done..|lia].
    + apply sorted_app_mid; [by rewrite app_nil_r| |done].
      eapply Forall_impl; [exact Hfits|]. intros x Hx. unfold fits_signed in *. lia.
Qed.
End upgrade.

(** ** The operations on the stored list

    [sadd] and [srem] say which list an operation leaves behind. *)
Fixpoint sadd (v : Z) (l : list Z) : list Z :=
  match l with
  | [] => [v]
  | x :: l => if v <? x then v :: x :: l
              else if v =? x then x :: l else x :: sadd v l
  end.
Definition srem (v : Z) (l : list Z) : list Z := filter (fun x => x <> v) l.

Lemma sadd_split v l1 l2 :
  Forall (fun x => x < v) l1 -> Forall (fun x => v < x) l2 ->
  sadd v (l1 ++ l2) = l1 ++ v :: l2.
Proof.
  induction 1 as [|x l1 Hx _ IH]; intros H2; simpl.
  - destruct H2 as [|y l2 Hy _]; [done|]. simpl. by rewrite (proj2 (Z.ltb_lt _ _) Hy).
  - rewrite (proj2 (Z.ltb_ge _ _)), (proj2 (Z.eqb_neq _ _)), IH by (done || lia). done.
Qed.

Lemma sadd_present v l : StronglySorted Z.lt l -> v ∈ l -> sadd v l = l.
Proof.
  induction 1 as [|x l Hs IH Hx]; intros Hin; [by apply not_elem_of_nil in Hin|]. simpl.
  apply elem_of_cons in Hin as [->|Hin].
  - by rewrite Z.ltb_irrefl, Z.eqb_refl.
  - rewrite Forall_forall in Hx. specialize (Hx v Hin).
    rewrite (proj2 (Z.ltb_ge _ _)), (proj2 (Z.eqb_neq _ _)), IH by (done || lia). done.
Qed.

Lemma elem_of_sadd v l x : x ∈ sadd v l <-> x = v \/ x ∈ l.
Proof.
  induction l as [|y l IH]; simpl; [set_solver|].
  destruct (v <? y); [set_solver|]. destruct (Z.eqb_spec v y); set_solver.
Qed.

Lemma elem_of_srem v l x : x ∈ srem v l <-> x ∈ l /\ x <> v.
Proof. unfold srem. rewrite list_elem_of_filter. tauto. Qed.

Lemma srem_split v l1 l2 :
  StronglySorted Z.lt (l1 ++ v :: l2) -> srem v (l1 ++ v :: l2) = l1 ++ l2.
Proof.
  intros Hs. unfold srem. rewrite filter_app, filter_cons_False by auto.
  assert (forall l, Forall (fun x => x <> v) l -> filter (fun x => x <> v) l = l) as Hid.
  { induction 1; [done|]. rewrite filter_cons_True by done. by f_equal. }
  rewrite !Hid; [done|..]; apply Forall_lookup; intros i x Hi Hxv; subst.
  - pose proof (lookup_lt_Some _ _ _ Hi).
    enough (v < v) by lia. eapply (sorted_lookup_lt _ (length l1) (length l1 + S i)); eauto.
    + lia.
    + by rewrite lookup_app_r, Nat.sub_diag by lia.
    + rewrite lookup_app_r by lia. by replace (length l1 + S i - length l1)%nat with (S i) by lia.
  - pose proof (lookup_lt_Some _ _ _ Hi).
    enough (v < v) by lia. eapply (sorted_lookup_lt _ i (length l1)); eauto.
    + by rewrite lookup_app_l by lia.
    + by rewrite lookup_app_r, Nat.sub_diag by lia.
Qed.

Lemma srem_absent v l : v ∉ l -> srem v l = l.
Proof.
  induction l as [|x l IH]; [done|]. unfold srem in *. intros Hn.
  rewrite filter_cons_True by set_solver. f_equal. apply IH. set_solver.
Qed.

Lemma insertion_point_absent vals v pos : insertion_point vals v pos -> v ∉ vals.
Proof.
  intros (_ & Hlo & Hhi) Hin. apply list_elem_of_lookup in Hin as [i Hi].
  destruct (decide (Z.of_nat i < pos)); [apply Hlo in Hi|apply Hhi in Hi]; lia.
Qed.

Section spec.
Context (be : bool) (junk : nat -> Z) (s : intset) (e : nat) (vals : list Z).
Hypothesis Hrep : intset_rep be s e vals.

Lemma unfit_absent v :
  fits_signed 64 v -> Z.of_nat e < _intsetValueEncoding v -> v ∉ vals.
Proof.
  intros Hv Hlt Hin. destruct Hrep. rewrite Forall_forall in rep_fits0.
  apply rep_fits0, valueEncoding_le in Hin; [lia|done|done].
Qed.

Lemma intsetAdd_rep v :
  (zlen vals + 1) * 8 < 2 ^ 32 -> fits_signed 64 v ->
  exists s' e', intsetAdd be junk s v = Some (s', bool_decide (v ∉ vals)) /\
    intset_rep be s' e' (sadd v vals) /\
    Z.of_nat e' = Z.max (Z.of_nat e) (_intsetValueEncoding v).
Proof.
  intros Hsmall Hv. unfold intsetAdd. rewrite (rep_get_enc _ _ _ _ Hrep).
  pose proof (rep_valid _ _ _ _ Hrep) as Hval.
  destruct (Z.ltb_spec (Z.of_nat e) (_intsetValueEncoding v)) as [Hlt|Hge].
  - rewrite bool_decide_true by (by apply unfit_absent).
    destruct (upgradeAndAdd_rep be junk s e vals Hrep Hsmall v Hv Hlt)
      as (s' & e' & vals' & -> & Hr & He' & Hcase).
    exists s', e'. split; [done|]. split; [|lia].
    assert (sadd v vals = vals') as ->; [|done].
    assert (forall x, x ∈ vals -> fits_signed (8 * Z.of_nat e) x) as Hf
      by (apply Forall_forall, Hrep).
    assert (~ fits_signed (8 * Z.of_nat e) v) as Hnf
      by (rewrite <-(valueEncoding_le e v Hval Hv); lia).
    destruct Hcase as [[Hn ->] | [Hn ->]].
    + apply (sadd_split v []); [done|]. apply Forall_forall. intros x Hx.
      specialize (Hf x Hx). unfold fits_signed in *. lia.
    + rewrite <-(app_nil_r vals) at 1. apply sadd_split; [|done].
      apply Forall_forall. intros x Hx. specialize (Hf x Hx). unfold fits_signed in *. lia.
  - destruct (intsetSearch_rep be s e vals Hrep v) as (found & pos & -> & Hres).
    cbn [mbind option_bind]. destruct found.
    + assert (v ∈ vals) by (apply list_elem_of_lookup; naive_solver).
      rewrite bool_decide_false by auto. exists s, e. split; [done|]. split; [|lia].
      rewrite sadd_present; [done|apply Hrep|done].
    + rewrite bool_decide_true by (by eapply insertion_point_absent).
      destruct (insertion_split vals v pos Hres) as (l1 & l2 & Hl & -> & H1 & H2).
      assert (fits_signed (8 * Z.of_nat e) v) as Hfit by (by apply valueEncoding_le).
      destruct (insert_at be junk s e vals Hrep Hsmall l1 l2 v Hl Hfit H1 H2)
        as (s' & Heq & Hr).
      exists s', e. split; [exact Heq|]. split; [|lia].
      by rewrite Hl, sadd_split.
Qed.

Lemma intsetRemove_rep v :
  zlen vals * 8 < 2 ^ 32 -> fits_signed 64 v ->
  exists s', intsetRemove be junk s v = Some (s', bool_decide (v ∈ vals)) /\
    intset_rep be s' e (srem v vals).
Proof.
  intros Hsmall Hv. unfold intsetRemove. rewrite (rep_get_enc _ _ _ _ Hrep).
  destruct (Z.leb_spec (_intsetValueEncoding v) (Z.of_nat e)) as [Hle|Hgt].
  2:{ assert (v ∉ vals) by (by apply unfit_absent).
      rewrite bool_decide_false, srem_absent by done. by exists s. }
  destruct (intsetSearch_rep be s e vals Hrep v) as (found & pos & -> & Hres).
  cbn [mbind option_bind]. destruct found.
  2:{ apply insertion_point_absent in Hres.
      rewrite bool_decide_false, srem_absent by done. by exists s. }
  destruct Hres as [Hpos Hlk]. rewrite bool_decide_true
    by (apply list_elem_of_lookup; eauto).
  rewrite (rep_get_len _ _ _ _ Hrep).
  pose proof (rep_get_enc _ _ _ _ Hrep) as Hgenc.
  pose proof (rep_get_len _ _ _ _ Hrep) as Hglen.
  destruct Hrep as [Hval Henc Hlen Hs Hc Hfits Hsort].
  pose proof (lookup_lt_Some _ _ _ Hlk) as Hlt.
  assert (exists l1 l2, vals = l1 ++ v :: l2 /\ pos = zlen l1) as (l1 & l2 & Hl & ->).
  { exists (take (Z.to_nat pos) vals), (drop (S (Z.to_nat pos)) vals).
    rewrite length_take. split; [symmetry; by apply take_drop_middle|lia]. }
  assert (zlen vals = zlen l1 + 1 + zlen l2) as Hll by (rewrite Hl; len_lia).
  subst vals.
  rewrite fmap_app, concat_app in Hc. simpl in Hc.
  set (a := concat (le_enc e <$> l1)) in *. set (t := concat (le_enc e <$> l2)) in *.
  assert (zlen a = zlen l1 * Z.of_nat e) as Ha by (subst a; rewrite length_encoded; lia).
  assert (zlen t = zlen l2 * Z.of_nat e) as Ht by (subst t; rewrite length_encoded; lia).
  rewrite Hll, (wrap_fits 32 (zlen l1 + 1 + zlen l2 - 1)) by (unfold fits_unsigned; lia).
  assert (exists f, (if zlen l1 <? zlen l1 + 1 + zlen l2 - 1
     then intsetMoveTail be s (wrap 32 (zlen l1 + 1)) (zlen l1) else Some s)
     = Some (mk_intset (encoding s) (is_length s) (a ++ t ++ f))) as (f & ->).
  { destruct (Z.ltb_spec (zlen l1) (zlen l1 + 1 + zlen l2 - 1)).
    - apply (moveTail_down be s e a (le_enc e v) t (zlen l1) (zlen (l1 ++ v :: l2)));
        rewrite ?length_le_enc; (done || lia || nia).
    - assert (l2 = []) as -> by (apply length_zero_iff_nil; lia).
      exists (le_enc e v). subst t. simpl in *. rewrite app_nil_r in Hc.
      destruct s; simpl in *; by subst. }
  cbn [mbind option_bind].
  assert ((zlen l1 + zlen l2) * Z.of_nat e <= (zlen l1 + zlen l2) * 8)
    by (unfold valid_enc in Hval; nia).
  eexists. split; [done|]. unfold intsetResize; simpl. rewrite Hgenc.
  rewrite srem_split by done.
  rewrite wrap_fits by (unfold fits_unsigned; nia).
  rewrite app_assoc, realloc_shrink by (rewrite length_app; lia).
  split; simpl; [done|done| |len_lia| |..].
  - f_equal. len_lia.
  - by rewrite fmap_app, concat_app.
  - rewrite Forall_app, Forall_cons in Hfits. rewrite Forall_app. tauto.
  - by eapply sorted_remove_mid.
Qed.

Lemma intsetFind_rep v :
  fits_signed 64 v -> intsetFind be s v = Some (bool_decide (v ∈ vals)).
Proof.
  intros Hv. unfold intsetFind. rewrite (rep_get_enc _ _ _ _ Hrep).
  destruct (Z.leb_spec (_intsetValueEncoding v) (Z.of_nat e)) as [Hle|Hgt].
  - destruct (intsetSearch_rep be s e vals Hrep v) as (found & pos & -> & Hres). simpl.
    f_equal. destruct found; symmetry; [apply bool_decide_true|apply bool_decide_false].
    + apply list_elem_of_lookup. naive_solver.
    + by eapply insertion_point_absent.
  - symmetry; f_equal; apply bool_decide_false. by apply unfit_absent.
Qed.
End spec.

(** ** Refinement of finite sets

    A client drives an intset through its public operations.  [exec] runs one
    on the bytes, [exec_set] on a finite set of integers. *)
Inductive op :=
  | Add (v : Z) | Remove (v : Z) | Find (v : Z) | Get (pos : Z) | Len.
Inductive reply := RBool (b : bool) | RVal (v : option Z) | RLen (n : Z).

Definition op_ok (o : op) : Prop :=
  match o with
  | Add v | Remove v | Find v => fits_signed 64 v
  | Get pos => 0 <= pos < 2 ^ 32
  | Len => True
  end.

Definition exec (be : bool) (junk : nat -> Z) (o : op) (s : intset)
    : option (intset * reply) :=
  match o with
  | Add v => r ← intsetAdd be junk s v; Some (fst r, RBool (snd r))
  | Remove v => r ← intsetRemove be junk s v; Some (fst r, RBool (snd r))
  | Find v => b ← intsetFind be s v; Some (s, RBool b)
  | Get pos => v ← intsetGet be s pos; Some (s, RVal v)
  | Len => Some (s, RLen (intsetLen be s))
  end.

Fixpoint run (be : bool) (junk : nat -> Z) (ops : list op) (s : intset)
    : option (intset * list reply) :=
  match ops with
  | [] => Some (s, [])
  | o :: ops =>
    r ← exec be junk o s;
    q ← run be junk ops (fst r);
    Some (fst q, snd r :: snd q)
  end.

Definition in_order (X : gset Z) : list Z := merge_sort Z.le (elements X).

Definition exec_set (o : op) (X : gset Z) : gset Z * reply :=
  match o with
  | Add v => ({[ v ]} ∪ X, RBool (bool_decide (v ∉ X)))
  | Remove v => (X ∖ {[ v ]}, RBool (bool_decide (v ∈ X)))
  | Find v => (X, RBool (bool_decide (v ∈ X)))
  | Get pos => (X, RVal (in_order X !! Z.to_nat pos))
  | Len => (X, RLen (Z.of_nat (size X)))
  end.

Fixpoint run_set (ops : list op) (X : gset Z) : list reply :=
  match ops with
  | [] => []
  | o :: ops => snd (exec_set o X) :: run_set ops (fst (exec_set o X))
  end.

Lemma sorted_NoDup (l : list Z) : StronglySorted Z.lt l -> NoDup l.
Proof.
  induction 1 as [|x l _ IH Hx]; constructor; [|done].
  rewrite Forall_forall in Hx. intros Hin. specialize (Hx x Hin). lia.
Qed.

Lemma in_order_sorted (l : list Z) :
  StronglySorted Z.lt l -> in_order (list_to_set l) = l.
Proof.
  intros Hs. unfold in_order. apply (StronglySorted_unique Z.le).
  - apply StronglySorted_merge_sort; apply _.
  - clear -Hs. induction Hs as [|x l _ IH Hx]; constructor; [done|].
    eapply Forall_impl; [exact Hx|]. simpl; lia.
  - rewrite merge_sort_Permutation. apply elements_list_to_set. by apply sorted_NoDup.
Qed.

Lemma size_sorted (l : list Z) :
  StronglySorted Z.lt l -> size (list_to_set l : gset Z) = length l.
Proof. intros. by apply size_list_to_set, sorted_NoDup. Qed.

(** One step: the bytes and the set stay in step, the width and the stored
    list do not depend on the host, and the number of elements grows by one
    at most. *)
Definition next_state (o : op) (e : nat) (vals : list Z) : nat * list Z :=
  match o with
  | Add v => (Nat.max e (Z.to_nat (_intsetValueEncoding v)), sadd v vals)
  | Remove v => (e, srem v vals)
  | _ => (e, vals)
  end.

Lemma length_sadd v l : (length l <= length (sadd v l) <= S (length l))%nat.
Proof.
  induction l as [|x l IH]; simpl; [lia|].
  destruct (v <? x); simpl; [lia|]. destruct (v =? x); simpl; lia.
Qed.

Lemma length_srem v l : (length (srem v l) <= length l)%nat.
Proof. unfold srem. apply length_filter. Qed.

Lemma length_next_state o e vals :
  (length (snd (next_state o e vals)) <= S (length vals))%nat.
Proof.
  destruct o as [v|v| | |]; simpl;
    [pose proof (length_sadd v vals) | pose proof (length_srem v vals) | ..]; lia.
Qed.

Lemma exec_rep be junk o s e vals :
  intset_rep be s e vals -> op_ok o -> (zlen vals + 1) * 8 < 2 ^ 32 ->
  exists s', exec be junk o s = Some (s', snd (exec_set o (list_to_set vals))) /\
    intset_rep be s' (fst (next_state o e vals)) (snd (next_state o e vals)) /\
    list_to_set (snd (next_state o e vals)) = fst (exec_set o (list_to_set vals)).
Proof.
  intros Hr Hok Hsmall. pose proof (rep_sorted _ _ _ _ Hr) as Hs.
  destruct o as [v|v|v|pos|]; simpl in *.
  - destruct (intsetAdd_rep be junk s e vals Hr v Hsmall Hok) as (s' & e' & -> & Hr' & He').
    exists s'. simpl. split_and!.
    + do 3 f_equal. apply bool_decide_ext. set_solver.
    + by replace (Nat.max _ _) with e' by lia.
    + apply set_eq. intros x. rewrite elem_of_list_to_set, elem_of_sadd. set_solver.
  - destruct (intsetRemove_rep be junk s e vals Hr v) as (s' & -> & Hr'); [lia|done|].
    exists s'. simpl. split_and!; [|done|].
    + do 3 f_equal. apply bool_decide_ext. set_solver.
    + apply set_eq. intros x. rewrite elem_of_list_to_set, elem_of_srem. set_solver.
  - rewrite (intsetFind_rep be junk s e vals Hr v Hok). exists s. simpl. split_and!; [|done|done].
    do 3 f_equal. apply bool_decide_ext. set_solver.
  - unfold intsetGet. rewrite (rep_get_len _ _ _ _ Hr), in_order_sorted by done.
    exists s. split; [|done].
    destruct (Z.ltb_spec pos (zlen vals)) as [Hlt|Hge].
    + destruct (lookup_Z vals pos) as [x Hx]; [lia|]. rewrite Hx.
      rewrite swrap_fits by (unfold fits_signed; simpl; lia).
      by rewrite (rep_get be s e vals Hr (Z.to_nat pos) x pos Hx) by lia.
    + by rewrite lookup_ge_None_2 by lia.
  - unfold intsetLen. rewrite (rep_get_len _ _ _ _ Hr), size_sorted by done. eauto.
Qed.

Lemma run_rep be junk ops s e vals :
  intset_rep be s e vals -> Forall op_ok ops ->
  (zlen vals + zlen ops) * 8 < 2 ^ 32 ->
  exists s', run be junk ops s = Some (s', run_set ops (list_to_set vals)) /\
    let '(e', vals') := foldl (fun st o => next_state o (fst st) (snd st)) (e, vals) ops in
    intset_rep be s' e' vals'.
Proof.
  revert s e vals. induction ops as [|o ops IH]; intros s e vals Hr Hok Hsmall; [eauto|].
  apply Forall_cons in Hok as [Ho Hok]. simpl in Hsmall.
  destruct (exec_rep be junk o s e vals Hr Ho) as (s1 & Hex & Hr1 & Hset); [lia|].
  pose proof (length_next_state o e vals). simpl. rewrite Hex. cbn [mbind option_bind fst snd].
  destruct (IH s1 _ _ Hr1 Hok) as (s2 & -> & Hr2); [lia|].
  rewrite Hset. cbn [mbind option_bind fst snd]. exists s2. split; [done|].
  by destruct (next_state o e vals).
Qed.

Lemma intsetNew_rep be : intset_rep be (intsetNew be) 2 [].
Proof.
  split; simpl; try done.
  - by left.
  - unfold intrev32ifbe. destruct be; [|done]. by rewrite intrev32_eq.
  - constructor.
Qed.

(** The allocation as it lies in memory. *)
Definition intset_bytes (be : bool) (s : intset) : list Z :=
  host_enc be 4 (encoding s) ++ host_enc be 4 (is_length s) ++ contents s.

Lemma host_enc_intrev32ifbe be v :
  host_enc be 4 (intrev32ifbe be v) = le_enc 4 v.
Proof.
  unfold host_enc, intrev32ifbe. destruct be; [|done]. rewrite intrev32_eq.
  assert (length (reverse (le_enc 4 v)) = 4%nat) as Hl
    by (by rewrite length_reverse, length_le_enc).
  rewrite <-Hl at 1. rewrite le_enc_dec; [apply reverse_involutive|].
  apply Forall_reverse, le_enc_bytes.
Qed.

Lemma rep_bytes be s e vals :
  intset_rep be s e vals ->
  intset_bytes be s =
    le_enc 4 (Z.of_nat e) ++ le_enc 4 (zlen vals) ++ concat (le_enc e <$> vals).
Proof.
  intros []. unfold intset_bytes.
  by rewrite rep_enc0, rep_len0, rep_contents0, !host_enc_intrev32ifbe.
Qed.

(** C27 (intset_refines_set) every sequence of intset operations on 64-bit values,
    short enough that eight octets for each of them stay below 2^32 octets (the
    range of the 32-bit sizes of [intsetResize]), started on [intsetNew], runs without an access outside the allocation and answers
    exactly what the same operations answer on a finite set of integers:
    membership for [intsetFind], whether the set changed for [intsetAdd] and
    [intsetRemove], the [pos]-th smallest element for [intsetGet], the
    cardinality for [intsetLen]. *)
Theorem intset_refines_set be junk ops :
  Forall op_ok ops -> zlen ops * 8 < 2 ^ 32 ->
  exists s, run be junk ops (intsetNew be) = Some (s, run_set ops ∅).
Proof.
  intros Hok Hsmall.
  destruct (run_rep be junk ops (intsetNew be) 2 [] (intsetNew_rep be) Hok)
    as (s & -> & _); [done|]. by exists s.
Qed.

Definition sample_ops : list op :=
  [Add 7; Add (-3); Add 70000; Add 7; Find 70000; Add (-5000000000); Get 1;
   Remove 7; Find 7; Remove 8; Len].

Lemma intset_refines_set_witness :
  exists s, run true (fun i => Z.of_nat i) sample_ops (intsetNew true)
            = Some (s, run_set sample_ops ∅).
Proof.
  apply (intset_refines_set true (fun i => Z.of_nat i) sample_ops).
  - repeat constructor; unfold fits_signed; simpl; lia.
  - vm_compute; done.
Defined.

(** on a well-formed intset that stores the sorted
    list [vals], [intsetAdd] of a 64-bit value succeeds without leaving the
    allocation, reports whether the value was new, and leaves a well-formed
    intset whose sorted list is [vals] with the value inserted and whose
    width is the maximum of the old one and the one the value needs. *)
Theorem intsetAdd_correct be junk s e vals v :
  intset_rep be s e vals -> fits_signed 64 v -> (zlen vals + 1) * 8 < 2 ^ 32 ->
  exists s' e' vals', intsetAdd be junk s v = Some (s', bool_decide (v ∉ vals)) /\
    intset_rep be s' e' vals' /\
    (forall x, x ∈ vals' <-> x = v \/ x ∈ vals) /\
    Z.of_nat e' = Z.max (Z.of_nat e) (_intsetValueEncoding v).
Proof.
  intros Hr Hv Hsmall.
  destruct (intsetAdd_rep be junk s e vals Hr v Hsmall Hv) as (s' & e' & ? & ? & ?).
  exists s', e', (sadd v vals). split_and!; [done|done| |done]. intros. apply elem_of_sadd.
Qed.

Definition sample_set : intset := mk_intset 2 2 [253; 255; 7; 0].

Lemma sample_set_rep : intset_rep false sample_set 2 [-3; 7].
Proof.
  split; try done; [by left|..]; repeat constructor; unfold fits_signed; simpl; lia.
Qed.

Lemma intsetAdd_correct_witness :
  exists s' e' vals', intsetAdd false (fun _ => 9) sample_set 40000
      = Some (s', bool_decide (40000 ∉ [-3; 7])) /\
    intset_rep false s' e' vals' /\
    (forall x, x ∈ vals' <-> x = 40000 \/ x ∈ [-3; 7]) /\
    Z.of_nat e' = Z.max (Z.of_nat 2) (_intsetValueEncoding 40000).
Proof.
  apply (intsetAdd_correct false (fun _ => 9) sample_set 2 [-3; 7] 40000).
  - exact sample_set_rep.
  - unfold fits_signed; simpl; lia.
  - simpl; lia.
Defined.

(** on a well-formed intset [intsetRemove] reports
    whether the value was there, and leaves a well-formed intset of the same
    width that stores the other values in order. *)
Theorem intsetRemove_correct be junk s e vals v :
  intset_rep be s e vals -> fits_signed 64 v -> zlen vals * 8 < 2 ^ 32 ->
  exists s', intsetRemove be junk s v = Some (s', bool_decide (v ∈ vals)) /\
    intset_rep be s' e (filter (fun x => x <> v) vals).
Proof. intros Hr Hv Hsmall. by apply intsetRemove_rep. Qed.

Lemma intsetRemove_correct_witness :
  exists s', intsetRemove false (fun _ => 9) sample_set (-3)
      = Some (s', bool_decide (-3 ∈ [-3; 7])) /\
    intset_rep false s' 2 (filter (fun x => x <> -3) [-3; 7]).
Proof.
  apply (intsetRemove_correct false (fun _ => 9) sample_set 2 [-3; 7] (-3)).
  - exact sample_set_rep.
  - unfold fits_signed; simpl; lia.
  - simpl; lia.
Defined.

(** the bytes of the allocation after any sequence of
    operations are the same on little and big endian hosts and do not depend
    on what a growing [zrealloc] leaves in the new area, so the blob can be
    written to disk or sent as it is. *)
Theorem intset_portable be1 be2 junk1 junk2 ops :
  Forall op_ok ops -> zlen ops * 8 < 2 ^ 32 ->
  exists s1 s2 replies,
    run be1 junk1 ops (intsetNew be1) = Some (s1, replies) /\
    run be2 junk2 ops (intsetNew be2) = Some (s2, replies) /\
    intset_bytes be1 s1 = intset_bytes be2 s2.
Proof.
  intros Hok Hsmall.
  destruct (run_rep be1 junk1 ops (intsetNew be1) 2 [] (intsetNew_rep be1) Hok)
    as (s1 & H1 & Hr1); [done|].
  destruct (run_rep be2 junk2 ops (intsetNew be2) 2 [] (intsetNew_rep be2) Hok)
    as (s2 & H2 & Hr2); [done|].
  exists s1, s2. eexists. split_and!; [exact H1|exact H2|].
  destruct (foldl _ _ _) as [e vals].
  by rewrite (rep_bytes _ _ _ _ Hr1), (rep_bytes _ _ _ _ Hr2).
Qed.

Lemma intset_portable_witness :
  exists s1 s2 replies,
    run true (fun _ => 1) sample_ops (intsetNew true) = Some (s1, replies) /\
    run false (fun _ => 2) sample_ops (intsetNew false) = Some (s2, replies) /\
    intset_bytes true s1 = intset_bytes false s2.
Proof.
  apply (intset_portable true false (fun _ => 1) (fun _ => 2) sample_ops).
  - repeat constructor; unfold fits_signed; simpl; lia.
  - vm_compute; done.
Defined.

(** Beyond that size the 32-bit product of [intsetResize] wraps. *)
Lemma resize_wraps be junk s :
  intrev32ifbe be (encoding s) = 8 ->
  intsetResize be junk s (wrap 32 (2 ^ 29)) = mk_intset (encoding s) (is_length s) [].
Proof. intros He. unfold intsetResize. rewrite He. done. Qed.

Lemma intsetSet_empty be enc len pos v :
  0 <= pos -> _intsetSet be (mk_intset enc len []) pos v = None.
Proof.
  intros Hp. unfold _intsetSet. simpl.
  destruct (_ =? INTSET_ENC_INT64); [|destruct (_ =? INTSET_ENC_INT32)];
    rewrite wr_bytes_None by (rewrite length_host_enc; simpl; lia); done.
Qed.

(** [intsetResize] computes the new size in 32 bits,
    so appending to a set of 2^29 - 1 64-bit elements shrinks the allocation
    to its header and the element is written outside of it. *)
Theorem intsetAdd_overflows be junk s vals v :
  intset_rep be s 8 vals -> zlen vals = 2 ^ 29 - 1 ->
  fits_signed 64 v -> Forall (fun x => x < v) vals ->
  intsetAdd be junk s v = None.
Proof.
  intros Hr Hlen Hv Hall. unfold intsetAdd. rewrite (rep_get_enc _ _ _ _ Hr).
  rewrite (proj2 (Z.ltb_ge _ _))
    by (apply (valueEncoding_le 8); [right; by right|done|done]).
  destruct (intsetSearch_rep be s 8 vals Hr v) as (found & pos & -> & Hres).
  cbn [mbind option_bind]. rewrite Forall_lookup in Hall. destruct found.
  { destruct Hres as [_ Hi]. apply Hall in Hi. lia. }
  destruct Hres as (Hpos & _ & Hhi).
  assert (pos = zlen vals) as ->.
  { destruct (decide (pos < zlen vals)); [|lia].
    destruct (lookup_Z vals pos) as [x Hx]; [lia|].
    pose proof (Hall _ _ Hx). pose proof (Hhi _ _ Hx ltac:(lia)). lia. }
  rewrite (rep_get_len _ _ _ _ Hr), Hlen, resize_wraps
    by apply (rep_get_enc _ _ _ _ Hr). simpl is_length.
  rewrite (rep_get_len _ _ _ _ Hr), Hlen, Z.ltb_irrefl. cbn [mbind option_bind].
  by rewrite intsetSet_empty by lia.
Qed.

Definition big_vals (n : nat) : list Z := (fun i => Z.of_nat i) <$> seq 0 n.
Definition big_set (n : nat) : intset :=
  mk_intset 8 (Z.of_nat n) (concat (le_enc 8 <$> big_vals n)).

Lemma big_vals_lookup n i x : big_vals n !! i = Some x -> x = Z.of_nat i /\ (i < n)%nat.
Proof.
  unfold big_vals. rewrite list_lookup_fmap, fmap_Some. intros (j & Hj & ->).
  apply lookup_seq in Hj. simpl in Hj. lia.
Qed.

Lemma big_sorted m n : StronglySorted Z.lt ((fun i => Z.of_nat i) <$> seq m n).
Proof.
  revert m. induction n as [|n IH]; intros m; simpl; constructor; [apply IH|].
  apply Forall_forall. intros x Hx. apply list_elem_of_fmap in Hx as (j & -> & Hj).
  apply elem_of_seq in Hj. lia.
Qed.

Lemma big_set_rep n :
  Z.of_nat n < 2 ^ 31 -> intset_rep false (big_set n) 8 (big_vals n).
Proof.
  intros Hn. assert (zlen (big_vals n) = Z.of_nat n) as Hl
    by (unfold big_vals; by rewrite length_fmap, length_seq).
  split; simpl; [right; by right|done|by rewrite Hl|lia|done| |apply big_sorted].
  apply Forall_lookup. intros i x Hx. apply big_vals_lookup in Hx as [-> ?].
  unfold fits_signed. simpl. lia.
Qed.

Lemma intsetAdd_overflows_witness :
  intsetAdd false (fun _ => 0) (big_set (Z.to_nat (2 ^ 29 - 1))) (2 ^ 40) = None.
Proof.
  assert (Z.of_nat (Z.to_nat (2 ^ 29 - 1)) = 2 ^ 29 - 1) as Hn by (apply Z2Nat.id; lia).
  apply (intsetAdd_overflows false (fun _ => 0) (big_set (Z.to_nat (2 ^ 29 - 1)))
           (big_vals (Z.to_nat (2 ^ 29 - 1))) (2 ^ 40)).
  - apply big_set_rep. rewrite Hn. lia.
  - unfold big_vals. rewrite length_fmap, length_seq. exact Hn.
  - unfold fits_signed. simpl. lia.
  - apply Forall_lookup. intros i x Hx. apply big_vals_lookup in Hx as [-> Hi].
    rewrite Nat2Z.inj_lt, Hn in Hi. lia.
Defined.
