(* ===== verification/Lzf.v ===== *)
(** LZF compression: redis/redis/src/lzf_c.c, lzf_d.c, lzfP.h.

    Pointers into the two buffers are offsets; every read and write goes
    through the checked accessors, so [None] is an access outside a buffer.
    The configuration is the one lzfP.h selects on a 64-bit host: HLOG 16,
    VERY_FAST, no INIT_HTAB (the hash table starts with whatever is on the
    stack), CHECK_INPUT, offsets in the table. *)
From S2P Require Import Prelude.

Definition HLOG : Z := 16.
Definition HSIZE : Z := Z.shiftl 1 HLOG.
Definition MAX_LIT : Z := Z.shiftl 1 5.
Definition MAX_OFF : Z := Z.shiftl 1 13.
Definition MAX_REF : Z := Z.shiftl 1 8 + Z.shiftl 1 3.

(** ** lzf_decompress *)
Inductive lzf_errno := E2BIG | EINVAL.

(** [*op++ = *ip++], [n] times, from the input. *)
Fixpoint copy_in (n : nat) (inp : list Z) (ip : Z) (out : list Z) (op : Z)
    : option (list Z) :=
  match n with
  | O => Some out
  | S n => b ← rd inp ip; out ← wr out op b; copy_in n inp (ip + 1) out (op + 1)
  end.

(** [*op++ = *ref++], [n] times, inside the output. *)
Fixpoint copy_out (n : nat) (out : list Z) (ref op : Z) : option (list Z) :=
  match n with
  | O => Some out
  | S n => b ← rd out ref; out ← wr out op b; copy_out n out (ref + 1) (op + 1)
  end.

(** One iteration of the [do ... while (ip < in_end)] loop: the new [ip],
    [op] and output, or the error. *)
Definition lzf_d_step (inp out : list Z) (ip op : Z)
    : option (lzf_errno + Z * Z * list Z) :=
  let in_end := zlen inp in
  let out_end := zlen out in
  ctrl ← rd inp ip;
  let ip := ip + 1 in
  if ctrl <? Z.shiftl 1 5 then
    let ctrl := ctrl + 1 in
    if out_end <? op + ctrl then Some (inl E2BIG)
    else if in_end <? ip + ctrl then Some (inl EINVAL)
    else
      out ← copy_in (Z.to_nat ctrl) inp ip out op;
      Some (inr (ip + ctrl, op + ctrl, out))
  else
    let len := Z.shiftr ctrl 5 in
    let ref := op - Z.shiftl (Z.land ctrl 31) 8 - 1 in
    if in_end <=? ip then Some (inl EINVAL)
    else
      r ← (if len =? 7 then
             b ← rd inp ip;
             Some (len + b, ip + 1, in_end <=? ip + 1)
           else Some (len, ip, false));
      let '(len, ip, bad) := r in
      if (bad : bool) then Some (inl EINVAL)
      else
        b ← rd inp ip;
        let ref := ref - b in
        let ip := ip + 1 in
        if out_end <? op + len + 2 then Some (inl E2BIG)
        else if ref <? 0 then Some (inl EINVAL)
        else
          out ← (if (9 <? len) && (ref + (len + 2) <=? op)
                 then bs ← rd_bytes out ref (len + 2); wr_bytes out op bs
                 else copy_out (Z.to_nat (len + 2)) out ref op);
          Some (inr (ip, op + (len + 2), out)).

Fixpoint lzf_d_loop (fuel : nat) (inp out : list Z) (ip op : Z)
    : option (lzf_errno + Z * list Z) :=
  match fuel with
  | O => None
  | S fuel =>
    r ← lzf_d_step inp out ip op;
    match r with
    | inl err => Some (inl err)
    | inr (ip, op, out) =>
      if ip <? zlen inp then lzf_d_loop fuel inp out ip op
      else Some (inr (op, out))
    end
  end.

(** The number of bytes written and the output buffer, or [errno]. *)
Definition lzf_decompress (inp out : list Z) : option (lzf_errno + Z * list Z) :=
  lzf_d_loop (length inp) inp out 0 0.

(** ** lzf_compress *)
Definition FRST (inp : list Z) (p : Z) : option Z :=
  a ← rd inp p; b ← rd inp (p + 1); Some (Z.lor (Z.shiftl a 8) b).
Definition NEXT (v : Z) (inp : list Z) (p : Z) : option Z :=
  c ← rd inp (p + 2); Some (wrap 32 (Z.lor (Z.shiftl v 8) c)).
Definition IDX (h : Z) : Z :=
  Z.land (wrap 32 (Z.shiftr h (3 * 8 - HLOG) - h * 5)) (HSIZE - 1).

(** The hash table: an [unsigned int] per slot. *)
Definition htab_t : Type := Z -> Z.
Definition htab_get (htab : htab_t) (i : Z) : Z := wrap 32 (htab i).
Definition htab_set (htab : htab_t) (i v : Z) : htab_t :=
  fun j => if j =? i then wrap 32 v else htab j.

Record cstate := mk_cstate {
  c_ip : Z; c_op : Z; c_lit : Z; c_hval : Z; c_out : list Z; c_htab : htab_t
}.

(** The test that [ref] starts a usable match, with its short-circuits. *)
Definition is_match (inp : list Z) (ip ref : Z) : option bool :=
  if negb (wrap 64 (ip - ref - 1) <? MAX_OFF) then Some false
  else if negb (0 <? ref) then Some false
  else
    r2 ← rd inp (ref + 2); i2 ← rd inp (ip + 2);
    if negb (r2 =? i2) then Some false
    else
      r ← rd_bytes inp ref 2; i ← rd_bytes inp ip 2;
      Some (le_dec r =? le_dec i).

(** [len++; if (ref[len] != ip[len]) break;] written out [n] times: whether it
    broke out, and [len]. *)
Fixpoint match_unrolled (n : nat) (inp : list Z) (ip ref len : Z)
    : option (bool * Z) :=
  match n with
  | O => Some (false, len)
  | S n =>
    let len := len + 1 in
    r ← rd inp (ref + len); i ← rd inp (ip + len);
    if negb (r =? i) then Some (true, len)
    else match_unrolled n inp ip ref len
  end.

(** [do len++; while (len < maxlen && ref[len] == ip[len]);] *)
Fixpoint match_tail (fuel : nat) (inp : list Z) (ip ref maxlen len : Z) : option Z :=
  match fuel with
  | O => None
  | S fuel =>
    let len := len + 1 in
    if len <? maxlen then
      r ← rd inp (ref + len); i ← rd inp (ip + len);
      if r =? i then match_tail fuel inp ip ref maxlen len else Some len
    else Some len
  end.

Definition match_len (inp : list Z) (ip ref : Z) : option Z :=
  let maxlen := wrap 32 (zlen inp - ip - 2) in
  let maxlen := if MAX_REF <? maxlen then MAX_REF else maxlen in
  r ← (if 16 <? maxlen then match_unrolled 16 inp ip ref 2 else Some (false, 2));
  let '(brk, len) := r in
  if (brk : bool) then Some len
  else match_tail (S (Z.to_nat MAX_REF)) inp ip ref maxlen len.

(** [op[- lit - 1] = lit - 1; op -= !lit;] *)
Definition stop_run (out : list Z) (op lit : Z) : option (list Z * Z) :=
  out ← wr out (op - lit - 1) (wrap 8 (lit - 1));
  Some (out, op - (if lit =? 0 then 1 else 0)).

(** The two or three octets of a back reference. *)
Definition emit_ref (out : list Z) (op off len : Z) : option (list Z * Z) :=
  r ← (if len <? 7 then
         out ← wr out op (wrap 8 (Z.shiftr off 8 + Z.shiftl len 5));
         Some (out, op + 1)
       else
         out ← wr out op (wrap 8 (Z.shiftr off 8 + Z.shiftl 7 5));
         out ← wr out (op + 1) (wrap 8 (len - 7));
         Some (out, op + 2));
  let '(out, op) := r in
  out ← wr out op (wrap 8 off);
  Some (out, op + 1).

(** What an iteration leads to: [return 0], leaving the loop, or another. *)
Inductive cnext :=
  CReturn0 (out : list Z) | CBreak (s : cstate) | CContinue (s : cstate).

Definition compress_match (inp : list Z) (s : cstate) (hval ref : Z) (htab : htab_t)
    : option cnext :=
  let '(mk_cstate ip op lit _ out _) := s in
  let in_end := zlen inp in
  let out_end := zlen out in
  let off := wrap 64 (ip - ref - 1) in
  if (out_end <=? op + 3 + 1) &&
     (out_end <=? op - (if lit =? 0 then 1 else 0) + 3 + 1) then Some (CReturn0 out)
  else
    r ← stop_run out op lit;
    let '(out, op) := r in
    len ← match_len inp ip ref;
    let len := len - 2 in
    let ip := ip + 1 in
    r ← emit_ref out op off len;
    let '(out, op) := r in
    let lit := 0 in
    let op := op + 1 in
    let ip := ip + (len + 1) in
    if in_end - 2 <=? ip then Some (CBreak (mk_cstate ip op lit hval out htab))
    else
      let ip := ip - 1 in
      let ip := ip - 1 in
      hval ← FRST inp ip;
      hval ← NEXT hval inp ip;
      let htab := htab_set htab (IDX hval) ip in
      let ip := ip + 1 in
      hval ← NEXT hval inp ip;
      let htab := htab_set htab (IDX hval) ip in
      let ip := ip + 1 in
      Some (CContinue (mk_cstate ip op lit hval out htab)).

(** [lit++; *op++ = *ip++; if (lit == MAX_LIT) ...] *)
Definition put_literal (inp : list Z) (ip op lit : Z) (out : list Z)
    : option (Z * Z * Z * list Z) :=
  let lit := lit + 1 in
  b ← rd inp ip;
  out ← wr out op b;
  let op := op + 1 in
  let ip := ip + 1 in
  if lit =? MAX_LIT then
    out ← wr out (op - lit - 1) (wrap 8 (lit - 1));
    Some (ip, op + 1, 0, out)
  else Some (ip, op, lit, out).

Definition compress_step (inp : list Z) (s : cstate) : option cnext :=
  let '(mk_cstate ip op lit hval out htab) := s in
  hval ← NEXT hval inp ip;
  let hslot := IDX hval in
  let ref := htab_get htab hslot in
  let htab := htab_set htab hslot ip in
  m ← is_match inp ip ref;
  if (m : bool) then compress_match inp s hval ref htab
  else
    if zlen out <=? op then Some (CReturn0 out)
    else
      r ← put_literal inp ip op lit out;
      let '(ip, op, lit, out) := r in
      Some (CContinue (mk_cstate ip op lit hval out htab)).

(** [while (ip < in_end - 2)]; [inl] is [return 0] and the buffer then. *)
Fixpoint compress_loop (fuel : nat) (inp : list Z) (s : cstate)
    : option (list Z + cstate) :=
  match fuel with
  | O => None
  | S fuel =>
    if c_ip s <? zlen inp - 2 then
      r ← compress_step inp s;
      match r with
      | CReturn0 out => Some (inl out)
      | CBreak s => Some (inr s)
      | CContinue s => compress_loop fuel inp s
      end
    else Some (inr s)
  end.

(** [while (ip < in_end)] at the end. *)
Fixpoint tail_loop (fuel : nat) (inp : list Z) (ip op lit : Z) (out : list Z)
    : option (Z * Z * list Z) :=
  match fuel with
  | O => None
  | S fuel =>
    if ip <? zlen inp then
      r ← put_literal inp ip op lit out;
      let '(ip, op, lit, out) := r in
      tail_loop fuel inp ip op lit out
    else Some (op, lit, out)
  end.

(** The return value and the output buffer; [htab] is the uninitialised
    table. *)
Definition lzf_compress (inp out : list Z) (htab : htab_t) : option (Z * list Z) :=
  if (zlen inp =? 0) || (zlen out =? 0) then Some (0, out)
  else
    hval ← FRST inp 0;
    r ← compress_loop (S (length inp)) inp (mk_cstate 0 1 0 hval out htab);
    match r with
    | inl out => Some (0, out)
    | inr s =>
      if zlen (c_out s) <? c_op s + 3 then Some (0, c_out s)
      else
        r ← tail_loop (S (length inp)) inp (c_ip s) (c_op s) (c_lit s) (c_out s);
        let '(op, lit, out) := r in
        r ← stop_run out op lit;
        Some (snd r, fst r)
    end.

(** ** Copies *)
Lemma copy_in_spec inp (x y z : list Z) : inp = x ++ y ++ z ->
  forall (a b c : list Z) ip op n,
  ip = zlen x -> op = zlen a -> length b = length y -> n = length y ->
  copy_in n inp ip (a ++ b ++ c) op = Some (a ++ y ++ c).
Proof.
  revert x. induction y as [|v y IH]; intros x Hinp a b c ip op n -> -> Hb ->.
  { by destruct b. }
  destruct b as [|w b]; [done|]. simpl in *.
  rewrite Hinp, rd_app by done. cbn [mbind option_bind].
  rewrite wr_app by done. cbn [mbind option_bind].
  rewrite <-Hinp. replace (a ++ v :: b ++ c) with ((a ++ [v]) ++ b ++ c)
    by (by rewrite <-app_assoc).
  rewrite (IH (x ++ [v])); [by rewrite <-app_assoc|by rewrite <-app_assoc|..].
  all: rewrite ?length_app; simpl; lia.
Qed.

(** What the octet by octet copy appends: [n] octets, each the one [d] back. *)
Fixpoint lz_copy (n d : nat) (acc : list Z) : list Z :=
  match n with
  | O => acc
  | S n => lz_copy n d (acc ++ [default 0 (acc !! (length acc - d)%nat)])
  end.

Lemma length_lz_copy n d acc : length (lz_copy n d acc) = (length acc + n)%nat.
Proof.
  revert acc. induction n as [|n IH]; intros acc; simpl; [lia|].
  rewrite IH, length_app. simpl. lia.
Qed.

Lemma copy_out_spec n : forall (a b c : list Z) ref op,
  op = zlen a -> 0 <= ref < op -> length b = n ->
  copy_out n (a ++ b ++ c) ref op = Some (lz_copy n (Z.to_nat (op - ref)) a ++ c).
Proof.
  induction n as [|n IH]; intros a b c ref op -> Href Hb; [by destruct b|].
  destruct b as [|w b]; [done|]. simpl.
  destruct (lookup_lt_is_Some_2 a (Z.to_nat ref)) as [v Hv]; [lia|].
  rewrite rd_lookup, lookup_app_l, Hv by lia. cbn [mbind option_bind].
  rewrite wr_app by done. cbn [mbind option_bind].
  replace (a ++ v :: b ++ c) with ((a ++ [v]) ++ b ++ c) by (by rewrite <-app_assoc).
  rewrite IH by (simpl in *; rewrite ?length_app; simpl; lia).
  replace (length a - Z.to_nat (zlen a - ref))%nat with (Z.to_nat ref) by lia.
  rewrite Hv. simpl. do 3 f_equal. lia.
Qed.

Lemma lz_copy_disjoint n d acc :
  (n <= d)%nat -> (d <= length acc)%nat ->
  lz_copy n d acc = acc ++ take n (drop (length acc - d) acc).
Proof.
  intros Hn Hd.
  enough (forall m k, (m + k = n)%nat ->
     lz_copy m d (acc ++ take k (drop (length acc - d) acc))
     = acc ++ take n (drop (length acc - d) acc)) as H.
  { specialize (H n O). rewrite Nat.add_0_r in H. simpl in H. rewrite app_nil_r in H. by apply H. }
  induction m as [|m IH]; intros k Hk; simpl in *; [by subst|].
  destruct (lookup_lt_is_Some_2 acc (length acc - d + k)) as [v Hv]; [lia|].
  rewrite <-(IH (S k)) by lia. f_equal. rewrite <-app_assoc. f_equal.
  rewrite (take_S_r _ k v) by (by rewrite lookup_drop).
  do 2 f_equal. rewrite lookup_app_l by len_lia.
  replace (length _ - d)%nat with (length acc - d + k)%nat by len_lia. by rewrite Hv.
Qed.

(** ** The decompressor never leaves its buffers *)
Lemma land31_bound x : 0 <= Z.land x 31 < 32.
Proof. change 31 with (Z.ones 5). rewrite Z.land_ones by lia. apply Z.mod_pos_bound. lia. Qed.

Lemma backref_copy (acc b c : list Z) ref op len :
  op = zlen acc -> 0 <= ref < op -> zlen b = len + 2 -> 0 <= len ->
  (if (9 <? len) && (ref + (len + 2) <=? op)
   then bs ← rd_bytes (acc ++ b ++ c) ref (len + 2); wr_bytes (acc ++ b ++ c) op bs
   else copy_out (Z.to_nat (len + 2)) (acc ++ b ++ c) ref op)
  = Some (lz_copy (Z.to_nat (len + 2)) (Z.to_nat (op - ref)) acc ++ c).
Proof.
  intros Hop Href Hb Hlen. destruct (_ && _) eqn:E; [|apply copy_out_spec; lia].
  apply andb_true_iff in E as [_ E%Z.leb_le].
  destruct (split_Z acc ref) as (x & y & -> & Hx); [lia|].
  destruct (split_Z y (len + 2)) as (y1 & y2 & -> & Hy); [rewrite length_app in Hop; lia|]. rewrite !length_app in Hop.
  assert (rd_bytes ((x ++ y1 ++ y2) ++ b ++ c) ref (len + 2) = Some y1) as ->.
  { rewrite <-!app_assoc. apply rd_bytes_app; lia. }
  cbn [mbind option_bind]. rewrite wr_bytes_app by len_lia.
  rewrite lz_copy_disjoint by len_lia.
  replace (length (x ++ y1 ++ y2) - Z.to_nat (op - ref))%nat with (length x) by len_lia.
  rewrite drop_app_length, take_app_le, take_ge by lia. by rewrite <-!app_assoc.
Qed.

Lemma lzf_d_step_safe inp out ip op :
  Forall is_byte inp -> 0 <= ip < zlen inp -> 0 <= op ->
  exists r, lzf_d_step inp out ip op = Some r /\
    match r with
    | inl _ => True
    | inr (ip', op', out') => ip < ip' /\ op <= op' /\ op' <= zlen out /\ length out' = length out
    end.
Proof.
  intros Hb Hip Hop. unfold lzf_d_step.
  destruct (rd_Some inp ip Hip) as [ctrl Hc]. pose proof (rd_byte _ _ _ Hb Hc) as Hcb.
  rewrite Hc. cbn [mbind option_bind]. change (Z.shiftl 1 5) with 32.
  unfold is_byte in Hcb. destruct (Z.ltb_spec ctrl 32).
  { destruct (Z.ltb_spec (zlen out) (op + (ctrl + 1))); [by eexists|].
    destruct (Z.ltb_spec (zlen inp) (ip + 1 + (ctrl + 1))); [by eexists|].
    destruct (split_Z inp (ip + 1)) as (x & y' & -> & Hx); [lia|].
    destruct (split_Z y' (ctrl + 1)) as (y & z & -> & Hy); [len_solve|].
    destruct (split_Z out op) as (a & b' & -> & Ha); [lia|].
    destruct (split_Z b' (ctrl + 1)) as (b & c & -> & Hbl); [len_solve|].
    rewrite (copy_in_spec _ x y z) by (done || lia). cbn [mbind option_bind].
    eexists; split; [done|]. simpl. rewrite !length_app in *. lia. }
  destruct (Z.leb_spec (zlen inp) (ip + 1)); [by eexists|].
  pose proof (land31_bound ctrl) as Hl31.
  assert (0 <= Z.shiftr ctrl 5) as Hlen by (apply Z.shiftr_nonneg; lia).
  destruct (rd_Some inp (ip + 1)) as [b1 Hb1]; [lia|].
  pose proof (rd_byte _ _ _ Hb Hb1) as Hb1b. unfold is_byte in Hb1b.
  assert (exists len ip' bad, (if Z.shiftr ctrl 5 =? 7
     then b ← rd inp (ip + 1); Some (Z.shiftr ctrl 5 + b, ip + 1 + 1, zlen inp <=? ip + 1 + 1)
     else Some (Z.shiftr ctrl 5, ip + 1, false)) = Some (len, ip', bad) /\
     0 <= len /\ ip < ip' /\ (bad = false -> ip' < zlen inp)) as (len & ip' & bad & -> & ? & ? & Hbad).
  { destruct (_ =? 7).
    - rewrite Hb1. cbn [mbind option_bind]. do 3 eexists. split; [done|]. split_and!; lia.
    - do 3 eexists. split; [done|]. split_and!; lia. }
  cbn [mbind option_bind]. destruct bad; [by eexists|]. specialize (Hbad eq_refl).
  destruct (rd_Some inp ip') as [b2 Hb2]; [lia|].
  pose proof (rd_byte _ _ _ Hb Hb2) as Hb2b. unfold is_byte in Hb2b.
  rewrite Hb2. cbn [mbind option_bind].
  destruct (Z.ltb_spec (zlen out) (op + len + 2)); [by eexists|].
  rewrite Z.shiftl_mul_pow2 by lia. change (2 ^ 8) with 256.
  set (ref := op - Z.land ctrl 31 * 256 - 1 - b2).
  destruct (Z.ltb_spec ref 0); [by eexists|].
  destruct (split_Z out op) as (a & b' & -> & Ha); [lia|].
  destruct (split_Z b' (len + 2)) as (b & c & -> & Hbl); [rewrite length_app in *; lia|].
  rewrite backref_copy by lia. cbn [mbind option_bind].
  eexists; split; [done|]. simpl.
  rewrite !length_app, length_lz_copy in *. lia.
Qed.

Lemma lzf_d_loop_safe fuel : forall inp out ip op,
  Forall is_byte inp -> 0 <= ip < zlen inp -> 0 <= op ->
  (Z.to_nat (zlen inp - ip) <= fuel)%nat ->
  exists r, lzf_d_loop fuel inp out ip op = Some r /\
    match r with
    | inl _ => True
    | inr (n, out') => op <= n <= zlen out /\ length out' = length out
    end.
Proof.
  induction fuel as [|fuel IH]; intros inp out ip op Hb Hip Hop Hf; [lia|]. simpl.
  destruct (lzf_d_step_safe inp out ip op Hb Hip Hop) as (r & -> & Hr).
  cbn [mbind option_bind]. destruct r as [err|[[ip' op'] out']]; [by eexists|].
  destruct Hr as (Hip' & Hop' & Hle & Hlen).
  destruct (Z.ltb_spec ip' (zlen inp)).
  - destruct (IH inp out' ip' op' Hb) as (r & -> & Hr); [lia..|].
    eexists; split; [done|]. destruct r as [|[n o]]; [done|]. destruct Hr. split; [lia|congruence].
  - eexists; split; [done|]. split; [lia|done].
Qed.

(** ** The compressed format

    A stream is a sequence of tokens: a literal run of 1 to 32 octets, or a
    copy of [len + 2] octets that starts [off + 1] octets back. *)
Inductive tok := TLit (bs : list Z) | TRef (off len : Z).

Definition enc_tok (t : tok) : list Z :=
  match t with
  | TLit bs => (zlen bs - 1) :: bs
  | TRef off len =>
    if len <? 7 then [off / 256 + len * 32; off mod 256]
    else [off / 256 + 224; len - 7; off mod 256]
  end.

Definition exp_tok (acc : list Z) (t : tok) : list Z :=
  match t with
  | TLit bs => acc ++ bs
  | TRef off len => lz_copy (Z.to_nat (len + 2)) (Z.to_nat (off + 1)) acc
  end.

Definition tok_ok (acc : list Z) (t : tok) : Prop :=
  match t with
  | TLit bs => 1 <= zlen bs <= 32
  | TRef off len => 0 <= off < 8192 /\ off < zlen acc /\ 1 <= len <= 262
  end.

Fixpoint toks_ok (acc : list Z) (ts : list tok) : Prop :=
  match ts with
  | [] => True
  | t :: ts => tok_ok acc t /\ toks_ok (exp_tok acc t) ts
  end.

Notation expand := (foldl exp_tok).
Notation encode ts := (concat (enc_tok <$> ts)).

Lemma encode_cons t ts : encode (t :: ts) = enc_tok t ++ encode ts.
Proof. done. Qed.

Lemma encode_app ts ts' : encode (ts ++ ts') = encode ts ++ encode ts'.
Proof. by rewrite fmap_app, concat_app. Qed.

Lemma toks_ok_app acc ts t :
  toks_ok acc ts -> tok_ok (expand acc ts) t -> toks_ok acc (ts ++ [t]).
Proof.
  revert acc. induction ts as [|t' ts IH]; simpl; intros acc Hts Ht; [done|].
  split; [tauto|]. apply IH; tauto.
Qed.

Lemma length_exp_tok acc t : tok_ok acc t -> (length acc < length (exp_tok acc t))%nat.
Proof.
  destruct t as [bs|off len]; simpl; rewrite ?length_app, ?length_lz_copy; lia.
Qed.

Lemma length_expand acc ts : toks_ok acc ts -> (length acc <= length (expand acc ts))%nat.
Proof.
  revert acc. induction ts as [|t ts IH]; simpl; intros acc Hok; [lia|].
  destruct Hok as [Ht Hok]. apply length_exp_tok in Ht. apply IH in Hok. lia.
Qed.

Lemma enc_tok_nonnil t : enc_tok t <> [].
Proof. destruct t as [|off len]; simpl; [done|]. by destruct (len <? 7). Qed.

Lemma ctrl_fields hi lo : 0 <= hi -> 0 <= lo < 32 ->
  Z.shiftr (lo + hi * 32) 5 = hi /\ Z.land (lo + hi * 32) 31 = lo.
Proof.
  intros. rewrite Z.shiftr_div_pow2 by lia. change 31 with (Z.ones 5).
  rewrite Z.land_ones by lia. change (2 ^ 5) with 32.
  rewrite Z.div_add, Z.mod_add, Z.div_small, Z.mod_small; lia.
Qed.

Lemma step_eq (a a' b b' : Z) (c c' : list Z) :
  a = a' -> b = b' -> c = c' ->
  Some (inr (a, b, c)) = Some (inr (a', b', c') : lzf_errno + Z * Z * list Z).
Proof. congruence. Qed.

(** One iteration decodes one token. *)
Lemma lzf_d_step_tok inp (pre post acc rest : list Z) t :
  inp = pre ++ enc_tok t ++ post -> tok_ok acc t ->
  (length (exp_tok acc t) <= length (acc ++ rest))%nat ->
  exists rest', lzf_d_step inp (acc ++ rest) (zlen pre) (zlen acc) =
    Some (inr (zlen pre + zlen (enc_tok t), zlen (exp_tok acc t), exp_tok acc t ++ rest')) /\
    length (exp_tok acc t ++ rest') = length (acc ++ rest).
Proof.
  intros Hinp Hok Hroom. pose proof (length_exp_tok _ _ Hok) as Hgrow.
  destruct (split_at rest (length (exp_tok acc t) - length acc)) as (b & rest' & -> & Hb);
    [rewrite length_app in Hroom; lia|].
  exists rest'. unfold lzf_d_step. destruct t as [bs|off len]; simpl in Hinp, Hok, Hb.
  - rewrite (rd_at inp pre _ _ (zlen pre) Hinp) by done. cbn [mbind option_bind].
    change (Z.shiftl 1 5) with 32. zif.
    replace (zlen bs - 1 + 1) with (zlen bs) by lia. rewrite length_app in Hb.
    zif by len_lia.
    zif by (rewrite Hinp; len_lia).
    rewrite (copy_in_spec inp (pre ++ [zlen bs - 1]) bs post);
      [|by rewrite Hinp, <-app_assoc|len_lia|done|lia|lia].
    cbn [mbind option_bind]. split; [|simpl exp_tok; len_lia].
    simpl exp_tok. simpl enc_tok. apply step_eq; [len_lia..|by rewrite <-app_assoc].
  - destruct Hok as (Hoff & Hacc & Hlen). rewrite length_lz_copy in Hb.
    assert (0 <= off / 256 < 32 /\ off = off / 256 * 256 + off mod 256 /\ 0 <= off mod 256 < 256)
      as (Hq & Hd & Hm) by zdiv_lia.
    destruct (Z.ltb_spec len 7); simpl in Hinp.
    + rewrite (rd_at inp pre _ _ (zlen pre) Hinp) by done. cbn [mbind option_bind].
      destruct (ctrl_fields len (off / 256)) as [Hs Hl]; [lia|lia|]. rewrite Hs, Hl.
      change (Z.shiftl 1 5) with 32. zif.
      zif by (rewrite Hinp; len_lia).
      zif. cbn [mbind option_bind].
      rewrite (rd_at inp (pre ++ [off / 256 + len * 32]) post (off mod 256) (zlen pre + 1))
        by (rewrite ?Hinp, ?length_app, <-?app_assoc; (done || simpl; lia)).
      cbn [mbind option_bind]. zif by len_lia.
      rewrite Z.shiftl_mul_pow2 by lia. change (2 ^ 8) with 256.
      zif.
      rewrite backref_copy by lia. cbn [mbind option_bind].
      split; [|simpl exp_tok; rewrite !length_app, length_lz_copy; lia].
      simpl exp_tok. simpl enc_tok. rewrite (proj2 (Z.ltb_lt len 7)) by lia.
      rewrite length_lz_copy. apply step_eq; [simpl; lia|lia|].
      do 2 f_equal. lia.
    + rewrite (rd_at inp pre _ _ (zlen pre) Hinp) by done. cbn [mbind option_bind].
      destruct (ctrl_fields 7 (off / 256)) as [Hs Hl]; [lia|lia|].
      change (7 * 32) with 224 in *. rewrite Hs, Hl.
      change (Z.shiftl 1 5) with 32. zif.
      zif by (rewrite Hinp; len_lia).
      rewrite Z.eqb_refl.
      rewrite (rd_at inp (pre ++ [off / 256 + 224]) (off mod 256 :: post) (len - 7) (zlen pre + 1))
        by (rewrite ?Hinp, ?length_app, <-?app_assoc; (done || simpl; lia)).
      cbn [mbind option_bind].
      zif by (rewrite Hinp; len_lia).
      rewrite (rd_at inp (pre ++ [off / 256 + 224; len - 7]) post (off mod 256)
        (zlen pre + 1 + 1))
        by (rewrite ?Hinp, ?length_app, <-?app_assoc; (done || simpl; lia)).
      cbn [mbind option_bind]. replace (7 + (len - 7)) with len by lia.
      zif by len_lia.
      rewrite Z.shiftl_mul_pow2 by lia. change (2 ^ 8) with 256.
      zif.
      rewrite backref_copy by lia. cbn [mbind option_bind].
      split; [|simpl exp_tok; rewrite !length_app, length_lz_copy; lia].
      simpl exp_tok. simpl enc_tok. rewrite (proj2 (Z.ltb_ge len 7)) by lia.
      rewrite length_lz_copy. apply step_eq; [simpl; lia|lia|].
      do 2 f_equal. lia.
Qed.

Lemma lzf_d_loop_toks ts : forall fuel inp (pre acc rest : list Z),
  ts <> [] -> inp = pre ++ encode ts -> toks_ok acc ts ->
  (length (expand acc ts) <= length (acc ++ rest))%nat ->
  (length (encode ts) <= fuel)%nat ->
  exists rest', lzf_d_loop fuel inp (acc ++ rest) (zlen pre) (zlen acc) =
    Some (inr (zlen (expand acc ts), expand acc ts ++ rest')) /\
    length (expand acc ts ++ rest') = length (acc ++ rest).
Proof.
  induction ts as [|t ts IH]; intros fuel inp pre acc rest Hne Hinp Hok Hroom Hfuel; [done|].
  rewrite encode_cons in *. cbn [foldl toks_ok] in *. destruct Hok as [Ht Hok].
  pose proof (length_expand _ _ Hok) as Hmono.
  assert (0 < length (enc_tok t))%nat as Hpos
    by (pose proof (enc_tok_nonnil t); destruct (enc_tok t); [done|simpl; lia]).
  rewrite length_app in Hfuel. destruct fuel as [|fuel]; [lia|]. cbn [lzf_d_loop].
  destruct (lzf_d_step_tok inp pre (encode ts) acc rest t Hinp Ht) as (r1 & -> & Hl1); [lia|].
  cbn [mbind option_bind].
  destruct ts as [|t2 ts].
  - simpl in *. rewrite app_nil_r in Hinp. zif by (rewrite Hinp, length_app; lia).
    exists r1. done.
  - assert (0 < length (encode (t2 :: ts)))%nat as Hpos2.
    { rewrite encode_cons, length_app. pose proof (enc_tok_nonnil t2). destruct (enc_tok t2); [done|simpl; lia]. }
    zif by (rewrite Hinp, !length_app; lia).
    destruct (IH fuel inp (pre ++ enc_tok t) (exp_tok acc t) r1) as (r2 & Heq & Hl2);
      [done|by rewrite <-app_assoc|done|lia|lia|].
    rewrite length_app, Nat2Z.inj_add in Heq. rewrite Heq. exists r2. split; [done|lia].
Qed.

(** Decompression inverts the format. *)
Lemma lzf_decompress_toks ts (out : list Z) :
  ts <> [] -> toks_ok [] ts -> (length (expand [] ts) <= length out)%nat ->
  exists out', lzf_decompress (encode ts) out =
      Some (inr (zlen (expand [] ts), out')) /\
    take (length (expand [] ts)) out' = expand [] ts.
Proof.
  intros Hne Hok Hroom. unfold lzf_decompress.
  destruct (lzf_d_loop_toks ts (length (encode ts)) (encode ts) [] [] out) as (r & Heq & _);
    [done..|].
  cbn in Heq. change (Z.of_nat 0) with 0 in Heq. rewrite Heq. eexists; split; [done|]. apply take_app_length.
Qed.

(** ** Matches *)
Definition same_at (inp : list Z) (r p : Z) (n : Z) : Prop :=
  forall i, 0 <= i < n -> rd inp (r + i) = rd inp (p + i).

Lemma lz_copy_match inp r p n :
  0 <= r < p -> p + Z.of_nat n <= zlen inp -> same_at inp r p (Z.of_nat n) ->
  lz_copy n (Z.to_nat (p - r)) (take (Z.to_nat p) inp) = take (Z.to_nat (p + Z.of_nat n)) inp.
Proof.
  revert r p. induction n as [|n IH]; intros r p Hr Hp Hs.
  { simpl. f_equal. lia. }
  simpl. destruct (rd_Some inp p) as [v Hv]; [lia|].
  assert (rd inp r = Some v) as Hvr.
  { specialize (Hs 0). rewrite !Z.add_0_r in Hs. rewrite Hs; [done|lia]. }
  rewrite rd_lookup in Hv, Hvr by lia.
  assert (take (Z.to_nat p) inp ++ [default 0 (take (Z.to_nat p) inp !!
     (length (take (Z.to_nat p) inp) - Z.to_nat (p - r))%nat)] = take (Z.to_nat (p + 1)) inp) as ->.
  { rewrite length_take. replace (Nat.min _ _ - _)%nat with (Z.to_nat r) by lia.
    rewrite lookup_take_lt, Hvr by lia. simpl.
    replace (Z.to_nat (p + 1)) with (S (Z.to_nat p)) by lia. by rewrite (take_S_r _ _ _ Hv). }
  replace (Z.to_nat (p - r)) with (Z.to_nat (p + 1 - (r + 1))) by lia.
  rewrite (IH (r + 1) (p + 1)); [f_equal; lia|lia|lia|].
  intros i Hi. specialize (Hs (i + 1)).
  replace (r + 1 + i) with (r + (i + 1)) by lia.
  replace (p + 1 + i) with (p + (i + 1)) by lia. apply Hs. lia.
Qed.

Lemma same_at_S inp r p n v :
  same_at inp r p n -> 0 <= n -> rd inp (r + n) = Some v -> rd inp (p + n) = Some v ->
  same_at inp r p (n + 1).
Proof.
  intros Hs Hn Hr Hp i Hi. destruct (decide (i = n)) as [->|]; [congruence|]. apply Hs. lia.
Qed.

Lemma is_match_spec inp ip ref :
  0 <= ip -> 0 <= ref < 2 ^ 32 -> ip < zlen inp - 2 -> zlen inp < 2 ^ 32 -> Forall is_byte inp ->
  exists m, is_match inp ip ref = Some m /\
    (m = true -> 0 < ref < ip /\ wrap 64 (ip - ref - 1) = ip - ref - 1 /\
       ip - ref - 1 < 8192 /\ same_at inp ref ip 3).
Proof.
  intros Hip Href Hend Hlen Hby. unfold is_match.
  destruct (Z.ltb_spec (wrap 64 (ip - ref - 1)) MAX_OFF) as [Hoff|]; simpl; [|by eexists].
  destruct (Z.ltb_spec 0 ref) as [H0|]; simpl; [|by eexists].
  change MAX_OFF with 8192 in Hoff.
  assert (ref < ip) as Hri.
  { destruct (decide (ref < ip)); [done|]. unfold wrap in Hoff.
    rewrite <-(Z.mod_add _ 1), Z.mod_small in Hoff; lia. }
  rewrite wrap_fits in * by (unfold fits_unsigned; lia).
  destruct (rd_Some inp (ref + 2)) as [r2 Hr2]; [lia|].
  destruct (rd_Some inp (ip + 2)) as [i2 Hi2]; [lia|].
  rewrite Hr2, Hi2. cbn [mbind option_bind].
  destruct (Z.eqb_spec r2 i2) as [->|]; simpl; [|by eexists].
  destruct (rd_Some inp ref) as [r0 Hr0]; [lia|]. destruct (rd_Some inp ip) as [i0 Hi0]; [lia|].
  destruct (rd_Some inp (ref + 1)) as [r1 Hr1]; [lia|].
  destruct (rd_Some inp (ip + 1)) as [i1 Hi1]; [lia|].
  assert (forall k a b, 0 <= k -> rd inp k = Some a -> rd inp (k + 1) = Some b ->
            rd_bytes inp k 2 = Some [a; b]) as Hrd2.
  { intros k a b Hk Ha Hb. rewrite rd_lookup in Ha, Hb by lia.
    pose proof (lookup_lt_Some _ _ _ Hb).
    unfold rd_bytes. rewrite bool_decide_true by lia.
    rewrite (drop_S _ a) by done. replace (S (Z.to_nat k)) with (Z.to_nat (k + 1)) by lia.
    by rewrite (drop_S _ b). }
  rewrite (Hrd2 ref r0 r1), (Hrd2 ip i0 i1) by (done || lia). cbn [mbind option_bind].
  eexists; split; [done|]. intros E%Z.eqb_eq.
  pose proof (rd_byte _ _ _ Hby Hr0). pose proof (rd_byte _ _ _ Hby Hr1).
  pose proof (rd_byte _ _ _ Hby Hi0). pose proof (rd_byte _ _ _ Hby Hi1).
  unfold is_byte in *. cbv [le_dec] in E. assert (r0 = i0 /\ r1 = i1) as [-> ->] by lia.
  split_and!; [lia|lia|lia|lia|].
  intros i Hi. assert (i = 0 \/ i = 1 \/ i = 2) as [-> | [-> | ->]] by lia;
    rewrite ?Z.add_0_r; congruence.
Qed.

Lemma match_unrolled_spec n inp ip ref len :
  0 < ref < ip -> 0 <= len -> ip + len + Z.of_nat n < zlen inp -> same_at inp ref ip (len + 1) ->
  exists brk len', match_unrolled n inp ip ref len = Some (brk, len') /\
    len <= len' <= len + Z.of_nat n /\
    (if (brk : bool) then len < len' /\ same_at inp ref ip len'
     else len' = len + Z.of_nat n /\ same_at inp ref ip (len' + 1)).
Proof.
  revert len. induction n as [|n IH]; intros len Hr Hl Hin Hs.
  { exists false, len. split_and!; [done|lia|lia|lia|done]. }
  cbn [match_unrolled].
  destruct (rd_Some inp (ref + (len + 1))) as [a Ha]; [lia|].
  destruct (rd_Some inp (ip + (len + 1))) as [b Hb]; [lia|].
  rewrite Ha, Hb. cbn [mbind option_bind]. destruct (Z.eqb_spec a b) as [->|]; simpl.
  - destruct (IH (len + 1)) as (brk & len' & -> & Hle & Hres); [lia..| |].
    { by eapply same_at_S; [..|exact Ha|exact Hb]; [|lia]. }
    exists brk, len'. split; [done|]. split; [lia|].
    destruct brk; [|split; [lia|tauto]]. destruct Hres. split; [lia|done].
  - exists true, (len + 1). split; [done|]. split; [lia|]. split; [lia|done].
Qed.

Lemma match_tail_spec fuel inp ip ref maxlen len :
  0 < ref < ip -> 0 <= len -> ip + maxlen <= zlen inp -> ip + len + 1 <= zlen inp ->
  same_at inp ref ip (len + 1) -> (Z.to_nat (maxlen - len) < fuel)%nat ->
  exists len', match_tail fuel inp ip ref maxlen len = Some len' /\
    len + 1 <= len' <= Z.max (len + 1) maxlen /\ same_at inp ref ip len'.
Proof.
  revert len. induction fuel as [|fuel IH]; intros len Hr Hl Hmax Hin Hs Hf; [lia|].
  cbn [match_tail]. destruct (Z.ltb_spec (len + 1) maxlen) as [Hlt|].
  2:{ exists (len + 1). split; [done|]. split; [lia|done]. }
  destruct (rd_Some inp (ref + (len + 1))) as [a Ha]; [lia|].
  destruct (rd_Some inp (ip + (len + 1))) as [b Hb]; [lia|].
  rewrite Ha, Hb. cbn [mbind option_bind]. destruct (Z.eqb_spec a b) as [->|]; simpl.
  - destruct (IH (len + 1)) as (len' & -> & Hle & Hres); [lia..| |lia|].
    { by eapply same_at_S; [..|exact Ha|exact Hb]; [|lia]. }
    exists len'. split; [done|]. split; [lia|done].
  - exists (len + 1). split; [done|]. split; [lia|done].
Qed.

Lemma match_len_spec inp ip ref :
  0 < ref < ip -> ip < zlen inp - 2 -> zlen inp < 2 ^ 32 -> same_at inp ref ip 3 ->
  exists len, match_len inp ip ref = Some len /\
    3 <= len <= 264 /\ ip + len <= zlen inp /\ same_at inp ref ip len.
Proof.
  intros Hr Hip Hlen Hs. unfold match_len.
  rewrite wrap_fits by (unfold fits_unsigned; lia). change MAX_REF with 264.
  set (maxlen := if _ : bool then _ else _).
  assert (1 <= maxlen <= 264 /\ maxlen <= zlen inp - ip - 2 /\
          (16 < maxlen -> 17 <= zlen inp - ip - 2)) as (Hm1 & Hm2 & Hm3)
    by (subst maxlen; destruct (Z.ltb_spec 264 (zlen inp - ip - 2)); lia).
  assert (forall len, 2 <= len <= 18 -> ip + len + 1 <= zlen inp -> same_at inp ref ip (len + 1) ->
    exists len', match_tail (S (Z.to_nat 264)) inp ip ref maxlen len = Some len' /\
    3 <= len' <= 264 /\ ip + len' <= zlen inp /\ same_at inp ref ip len') as Htail.
  { intros len H1 H2 H3.
    destruct (match_tail_spec (S (Z.to_nat 264)) inp ip ref maxlen len)
      as (len' & -> & Hle & Hres); [lia..|done|lia|].
    exists len'. split; [done|]. split_and!; [lia|lia|lia|done]. }
  destruct (Z.ltb_spec 16 maxlen) as [H16|H16].
  - destruct (match_unrolled_spec 16 inp ip ref 2) as (brk & len & -> & Hle & Hres); [lia..|done|].
    cbn [mbind option_bind]. destruct brk.
    + exists len. destruct Hres. split; [done|]. split_and!; [lia|lia|lia|done].
    + destruct Hres as [-> Hs']. apply Htail; [lia|lia|done].
  - cbn [mbind option_bind]. apply Htail; [lia|lia|done].
Qed.

(** ** The compressor

    At every point of the main loop the output holds complete tokens, the
    header octet of the current run, which is not written yet, and the [lit]
    literals of that run; the tokens and the literals expand to the input up
    to [ip]. *)
Record cinv (inp : list Z) (ip op lit : Z) (out : list Z)
    (ts : list tok) (P Q : list Z) : Prop := {
  ci_out : out = encode ts ++ Q;
  ci_run : P = [] \/ exists h rest, Q = h :: P ++ rest;
  ci_lit : lit = zlen P;
  ci_max : lit < 32;
  ci_op : op = zlen (encode ts) + 1 + lit;
  ci_ok : toks_ok [] ts;
  ci_exp : expand [] ts ++ P = take (Z.to_nat ip) inp;
  ci_ip : 0 <= ip <= zlen inp;
  ci_size : 32 * zlen (encode ts) <= 33 * zlen (expand [] ts)
}.

Lemma ci_bound inp ip op lit out ts P Q :
  cinv inp ip op lit out ts P Q -> 32 * op <= 33 * ip + 32 /\ 0 <= lit.
Proof.
  intros [_ _ -> _ -> _ Hexp Hip Hsz]. apply (f_equal length) in Hexp.
  rewrite length_app, length_take in Hexp. lia.
Qed.

Lemma take_succ_Z inp ip b :
  0 <= ip -> rd inp ip = Some b ->
  take (Z.to_nat (ip + 1)) inp = take (Z.to_nat ip) inp ++ [b].
Proof.
  intros Hip Hb. rewrite rd_lookup in Hb by done.
  replace (Z.to_nat (ip + 1)) with (S (Z.to_nat ip)) by lia. by apply take_S_r.
Qed.

Lemma expand_snoc ts t : expand [] (ts ++ [t]) = exp_tok (expand [] ts) t.
Proof. by rewrite foldl_app. Qed.

Lemma put_literal_spec inp ip op lit out ts P Q :
  cinv inp ip op lit out ts P Q -> ip < zlen inp -> op < zlen out ->
  exists op' lit' out' ts' P' Q',
    put_literal inp ip op lit out = Some (ip + 1, op', lit', out') /\
    cinv inp (ip + 1) op' lit' out' ts' P' Q' /\ length out' = length out /\
    ((lit < 31 /\ op' = op + 1 /\ lit' = lit + 1) \/ (lit = 31 /\ op' = op + 2 /\ lit' = 0)).
Proof.
  intros [-> Hrun -> Hmax -> Hok Hexp Hip Hsz] Hlt Hroom. unfold put_literal.
  destruct (rd_Some inp ip) as [b Hb]; [lia|]. rewrite Hb. cbn [mbind option_bind].
  assert (exists h w rest, Q = h :: P ++ w :: rest) as (h & w & rest & ->).
  { rewrite length_app in Hroom. destruct Hrun as [-> | (h & rest & ->)].
    - destruct Q as [|h [|w rest]]; simpl in Hroom; [lia|lia|by exists h, w, rest].
    - simpl in Hroom. rewrite length_app in Hroom.
      destruct rest as [|w rest]; [simpl in Hroom; lia|by exists h, w, rest]. }
  replace (encode ts ++ h :: P ++ w :: rest) with ((encode ts ++ h :: P) ++ w :: rest)
    by (by rewrite <-app_assoc).
  rewrite wr_app by (rewrite length_app; simpl; lia). cbn [mbind option_bind].
  assert (expand [] ts ++ (P ++ [b]) = take (Z.to_nat (ip + 1)) inp) as Hexp'
    by (rewrite app_assoc, Hexp; symmetry; apply take_succ_Z; [lia|done]).
  change MAX_LIT with 32. destruct (Z.eqb_spec (zlen P + 1) 32) as [E|E].
  - replace ((encode ts ++ h :: P) ++ b :: rest) with (encode ts ++ h :: (P ++ b :: rest))
      by (by rewrite <-app_assoc).
    rewrite wr_app by lia. cbn [mbind option_bind].
    exists (zlen (encode ts) + 1 + zlen P + 1 + 1), 0, (encode ts ++ wrap 8 (zlen P + 1 - 1) :: P ++ b :: rest),
      (ts ++ [TLit (P ++ [b])]), [], rest.
    split; [done|]. split; [|split; [len_lia|right; lia]].
    assert (encode [TLit (P ++ [b])] = (wrap 8 (zlen P + 1 - 1) :: P ++ [b])) as He.
    { simpl. rewrite app_nil_r. f_equal. rewrite wrap_fits; [len_lia|unfold fits_unsigned; lia]. }
    split; rewrite ?encode_app, ?He, ?expand_snoc; [ |by left|done|lia|len_lia| | |lia|].
    + rewrite <-!app_assoc. simpl. by rewrite <-!app_assoc.
    + apply toks_ok_app; [done|]. simpl. len_lia.
    + simpl. by rewrite app_nil_r.
    + simpl exp_tok. len_lia.
  - exists (zlen (encode ts) + 1 + zlen P + 1), (zlen P + 1), (encode ts ++ h :: P ++ b :: rest),
      ts, (P ++ [b]), (h :: P ++ b :: rest).
    split; [by rewrite <-app_assoc|]. split; [|split; [len_lia|left; lia]].
    split; [done| |len_lia|lia|lia|done|done|lia|done].
    right. exists h, rest. by rewrite <-app_assoc.
Qed.

Lemma stop_run_spec inp ip op lit out ts P Q :
  cinv inp ip op lit out ts P Q -> op - (if lit =? 0 then 1 else 0) <= zlen out ->
  zlen (encode ts) < zlen out ->
  exists out' ts' Q', stop_run out op lit = Some (out', op - (if lit =? 0 then 1 else 0)) /\
    out' = encode ts' ++ Q' /\ op - (if lit =? 0 then 1 else 0) = zlen (encode ts') /\
    toks_ok [] ts' /\ expand [] ts' = take (Z.to_nat ip) inp /\ length out' = length out /\
    32 * zlen (encode ts') <= 33 * zlen (expand [] ts') + (if lit =? 0 then 0 else 32).
Proof.
  intros [-> Hrun -> Hmax -> Hok Hexp Hip Hsz] Hroom Hlt. unfold stop_run.
  rewrite length_app in Hlt. destruct (cons_of_length Q) as (h & Q' & ->); [lia|].
  rewrite wr_app by lia. cbn [mbind option_bind].
  destruct Hrun as [-> | (h' & rest & [= -> ->])].
  - exists (encode ts ++ wrap 8 (-1) :: Q'), ts, (wrap 8 (-1) :: Q').
    simpl in *. rewrite app_nil_r in Hexp. split_and!; [done|done|lia|done|done|len_lia|lia].
  - destruct (Z.eqb_spec (zlen P) 0) as [E|E].
    + assert (P = []) as -> by (apply length_zero_iff_nil; lia).
      exists (encode ts ++ wrap 8 (-1) :: rest), ts, (wrap 8 (-1) :: rest).
      simpl in *. rewrite app_nil_r in Hexp. split_and!; [done|done|lia|done|done|len_lia|lia].
    + exists (encode ts ++ wrap 8 (zlen P - 1) :: P ++ rest), (ts ++ [TLit P]), rest.
      assert (encode [TLit P] = wrap 8 (zlen P - 1) :: P) as He.
      { simpl. rewrite app_nil_r. f_equal. rewrite wrap_fits; [done|unfold fits_unsigned; lia]. }
      rewrite encode_app, He, expand_snoc.
      split_and!; [done|by rewrite <-app_assoc|len_lia| |done|len_lia|simpl exp_tok; len_lia].
      apply toks_ok_app; [done|]. simpl. lia.
Qed.

Lemma emit_ref_spec ts Q off len op :
  op = zlen (encode ts) -> 4 <= zlen Q -> 0 <= off < 8192 -> 1 <= len <= 262 ->
  exists Q', emit_ref (encode ts ++ Q) op off len =
      Some (encode (ts ++ [TRef off len]) ++ Q', zlen (encode (ts ++ [TRef off len]))) /\
    length (encode (ts ++ [TRef off len]) ++ Q') = length (encode ts ++ Q) /\
    1 <= zlen Q'.
Proof.
  intros -> HQ Hoff Hlen. unfold emit_ref.
  rewrite Z.shiftr_div_pow2, !Z.shiftl_mul_pow2 by lia.
  change (2 ^ 8) with 256. change (2 ^ 5) with 32. change (7 * 32) with 224.
  assert (wrap 8 off = off mod 256) as -> by done.
  destruct Q as [|q0 [|q1 [|q2 Q]]]; simpl in HQ; try lia.
  rewrite encode_app. simpl (encode [_]).
  destruct (Z.ltb_spec len 7).
  - rewrite wrap_fits by (unfold fits_unsigned; zdiv_lia).
    rewrite wr_app by lia. cbn [mbind option_bind].
    rewrite cons_middle, app_assoc, wr_app by len_lia. cbn [mbind option_bind].
    exists (q2 :: Q). rewrite <-!app_assoc. simpl. split; [|split; [len_lia|lia]].
    do 2 f_equal. len_lia.
  - rewrite !wrap_fits by (unfold fits_unsigned; zdiv_lia).
    rewrite wr_app by lia. cbn [mbind option_bind].
    rewrite cons_middle, app_assoc, wr_app by len_lia. cbn [mbind option_bind].
    rewrite cons_middle, app_assoc, wr_app by len_lia. cbn [mbind option_bind].
    exists Q. rewrite <-!app_assoc. simpl. split; [|split; [len_lia|lia]].
    do 2 f_equal. len_lia.
Qed.

Lemma FRST_safe inp p : 0 <= p -> p + 1 < zlen inp -> exists v, FRST inp p = Some v.
Proof.
  intros. unfold FRST. destruct (rd_Some inp p) as [a ->]; [lia|].
  destruct (rd_Some inp (p + 1)) as [b ->]; [lia|]. by eexists.
Qed.

Lemma NEXT_safe v inp p : 0 <= p -> p + 2 < zlen inp -> exists v', NEXT v inp p = Some v'.
Proof.
  intros. unfold NEXT. destruct (rd_Some inp (p + 2)) as [a ->]; [lia|]. by eexists.
Qed.

(** The state at the head of the loop, and how an iteration changes it. *)
Definition loop_inv (inp : list Z) (n : nat) (s : cstate) : Prop :=
  length (c_out s) = n /\
  exists ts P Q, cinv inp (c_ip s) (c_op s) (c_lit s) (c_out s) ts P Q /\
    zlen (encode ts) <= zlen (c_out s).

Definition step_post (inp : list Z) (n : nat) (s : cstate) (r : cnext) : Prop :=
  match r with
  | CReturn0 out => length out = n /\ 32 * zlen out <= 33 * zlen inp + 160
  | CBreak s' => loop_inv inp n s' /\ zlen inp - 2 <= c_ip s'
  | CContinue s' => loop_inv inp n s' /\ c_ip s < c_ip s'
  end.

Lemma compress_match_spec inp n s hval ref htab :
  loop_inv inp n s -> zlen inp < 2 ^ 32 -> c_ip s < zlen inp - 2 ->
  0 < ref < c_ip s -> wrap 64 (c_ip s - ref - 1) = c_ip s - ref - 1 ->
  c_ip s - ref - 1 < 8192 -> same_at inp ref (c_ip s) 3 ->
  exists r, compress_match inp s hval ref htab = Some r /\ step_post inp n s r.
Proof.
  destruct s as [ip op lit hv out ht]. unfold loop_inv; simpl.
  intros (Hn & ts & P & Q & Hinv & Hts) Hlen Hip Hr Hw Hoff Hs. rewrite Hw.
  pose proof (ci_bound _ _ _ _ _ _ _ _ Hinv) as [Hbnd Hlit0].
  destruct (_ && _) eqn:Eg.
  { apply andb_true_iff in Eg as [E _]. apply Z.leb_le in E.
    eexists; split; [done|]. split; [done|lia]. }
  assert (op - (if lit =? 0 then 1 else 0) + 4 < zlen out) as Hroom.
  { apply andb_false_iff in Eg as [E|E]; apply Z.leb_gt in E; destruct (lit =? 0); lia. }
  destruct (stop_run_spec _ _ _ _ _ _ _ _ Hinv) as (out1 & ts1 & Q1 & -> & -> & Hop1 & Hok1 & Hexp1 & Hl1 & Hsz1).
  { lia. }
  { destruct Hinv as [_ _ Hl _ Ho _ _ _ _]. destruct (Z.eqb_spec lit 0); lia. }
  cbn [mbind option_bind]. rewrite Hop1 in *.
  destruct (match_len_spec inp ip ref) as (len & -> & Hlb & Hle & Hsame); [done..|].
  cbn [mbind option_bind].
  destruct (emit_ref_spec ts1 Q1 (ip - ref - 1) (len - 2) (zlen (encode ts1)))
    as (Q2 & -> & Hl2 & HQ2); [done| |lia|lia|].
  { rewrite <-Hl1, length_app in Hroom. lia. }
  cbn [mbind option_bind].
  set (ts2 := ts1 ++ [TRef (ip - ref - 1) (len - 2)]) in *.
  replace (ip + 1 + (len - 2 + 1)) with (ip + len) by lia.
  assert (cinv inp (ip + len) (zlen (encode ts2) + 1) 0 (encode ts2 ++ Q2) ts2 [] Q2) as Hinv'.
  { split; [done|by left|done|lia|lia| |rewrite app_nil_r|lia|].
    - apply toks_ok_app; [done|]. rewrite Hexp1. simpl. rewrite length_take. lia.
    - subst ts2. rewrite expand_snoc, Hexp1. simpl.
      replace (ip - ref - 1 + 1) with (ip - ref) by lia.
      rewrite lz_copy_match.
      + f_equal. lia.
      + lia.
      + lia.
      + replace (Z.of_nat (Z.to_nat (len - 2 + 2))) with len by lia. done.
    - subst ts2. rewrite encode_app, expand_snoc, length_app. simpl. rewrite app_nil_r.
      rewrite length_lz_copy. destruct (lit =? 0), (Z.ltb_spec (len - 2) 7); simpl; lia. }
  assert (forall hv' ht', loop_inv inp n (mk_cstate (ip + len) (zlen (encode ts2) + 1) 0 hv'
            (encode ts2 ++ Q2) ht')) as Hloop.
  { intros. split; simpl; [lia|]. exists ts2, [], Q2. split; [done|]. rewrite length_app. lia. }
  destruct (Z.leb_spec (zlen inp - 2) (ip + len)) as [Hend|Hend].
  { eexists; split; [done|]. simpl. split; [apply Hloop|lia]. }
  destruct (FRST_safe inp (ip + len - 1 - 1)) as [v1 ->]; [lia..|]. cbn [mbind option_bind].
  destruct (NEXT_safe v1 inp (ip + len - 1 - 1)) as [v2 ->]; [lia..|]. cbn [mbind option_bind].
  destruct (NEXT_safe v2 inp (ip + len - 1 - 1 + 1)) as [v3 ->]; [lia..|]. cbn [mbind option_bind].
  eexists; split; [done|]. simpl.
  replace (ip + len - 1 - 1 + 1 + 1) with (ip + len) by lia. split; [apply Hloop|lia].
Qed.

Lemma compress_step_spec inp n s :
  loop_inv inp n s -> Forall is_byte inp -> zlen inp < 2 ^ 32 -> c_ip s < zlen inp - 2 ->
  exists r, compress_step inp s = Some r /\ step_post inp n s r.
Proof.
  intros Hinv Hby Hlen Hip. pose proof Hinv as (Hn & ts & P & Q & Hc & Hts).
  pose proof (ci_ip _ _ _ _ _ _ _ _ Hc) as Hip0.
  destruct s as [ip op lit hv out ht]. unfold compress_step.
  cbn [c_ip c_op c_lit c_out] in Hn, Hc, Hts, Hip, Hip0.
  destruct (NEXT_safe hv inp ip) as [h ->]; [lia..|]. cbn [mbind option_bind].
  assert (0 <= htab_get ht (IDX h) < 2 ^ 32) as Href by (apply Z.mod_pos_bound; lia).
  destruct (is_match_spec inp ip (htab_get ht (IDX h))) as (m & -> & Hm); [lia..|done|].
  cbn [mbind option_bind]. destruct m.
  - destruct (Hm eq_refl) as (? & ? & ? & ?). by apply compress_match_spec.
  - pose proof (ci_bound _ _ _ _ _ _ _ _ Hc) as [Hbnd Hlit0].
    destruct (Z.leb_spec (zlen out) op).
    { eexists; split; [done|]. split; [done|lia]. }
    destruct (put_literal_spec _ _ _ _ _ _ _ _ Hc) as (op' & lit' & out' & ts' & P' & Q' & -> & Hc' & Hl & Hcase);
      [lia|lia|].
    cbn [mbind option_bind]. eexists; split; [done|]. simpl. split; [|lia].
    split; simpl; [lia|]. exists ts', P', Q'. split; [done|].
    destruct Hc' as [_ _ Hl' _ Ho _ _ _ _]. simpl. lia.
Qed.

Lemma compress_loop_spec fuel : forall inp n s,
  loop_inv inp n s -> Forall is_byte inp -> zlen inp < 2 ^ 32 ->
  (Z.to_nat (zlen inp - c_ip s) < fuel)%nat ->
  exists r, compress_loop fuel inp s = Some r /\
    match r with
    | inl out => length out = n /\ 32 * zlen out <= 33 * zlen inp + 160
    | inr s' => loop_inv inp n s' /\ zlen inp - 2 <= c_ip s'
    end.
Proof.
  induction fuel as [|fuel IH]; intros inp n s Hinv Hby Hlen Hf; [lia|]. cbn [compress_loop].
  destruct (Z.ltb_spec (c_ip s) (zlen inp - 2)) as [Hlt|Hge]; [|by eexists].
  destruct (compress_step_spec inp n s Hinv Hby Hlen Hlt) as (r & -> & Hr).
  cbn [mbind option_bind]. destruct r as [out|s'|s']; [by eexists|by eexists|].
  destruct Hr as [Hinv' Hlt']. apply IH; [done..|lia].
Qed.

(** After the loop at most two octets are left, and the test on [op + 3]
    leaves room for them, for a run header and for the last header. *)
Lemma tail_loop_spec fuel : forall inp ip op lit out ts P Q,
  cinv inp ip op lit out ts P Q -> zlen inp - 2 <= ip ->
  op + (zlen inp - ip) + (if 32 <=? lit + (zlen inp - ip) then 1 else 0) <= zlen out ->
  (Z.to_nat (zlen inp - ip) < fuel)%nat ->
  exists op' lit' out' ts' P' Q', tail_loop fuel inp ip op lit out = Some (op', lit', out') /\
    cinv inp (zlen inp) op' lit' out' ts' P' Q' /\ length out' = length out /\ op' <= zlen out.
Proof.
  induction fuel as [|fuel IH]; intros inp ip op lit out ts P Q Hc Hend Hroom Hf; [lia|].
  cbn [tail_loop]. pose proof (ci_ip _ _ _ _ _ _ _ _ Hc) as Hip.
  destruct (Z.ltb_spec ip (zlen inp)) as [Hlt|Hge].
  - destruct (put_literal_spec _ _ _ _ _ _ _ _ Hc) as (op' & lit' & out' & ts' & P' & Q' & -> & Hc' & Hl & Hcase);
      [lia|destruct (32 <=? _); lia|].
    cbn [mbind option_bind].
    destruct (IH inp (ip + 1) op' lit' out' ts' P' Q' Hc')
      as (op2 & lit2 & out2 & ts2 & P2 & Q2 & -> & Hc2 & Hl2 & Hle2); [lia| |lia|].
    { destruct (Z.leb_spec 32 (lit + (zlen inp - ip))), (Z.leb_spec 32 (lit' + (zlen inp - (ip + 1))));
        lia. }
    do 6 eexists. split; [done|]. split; [exact Hc2|]. split; [congruence|lia].
  - assert (ip = zlen inp) as -> by lia. do 6 eexists. split; [done|]. split; [exact Hc|].
    split; [done|]. destruct (32 <=? _); lia.
Qed.

Lemma lzf_compress_spec inp out htab :
  Forall is_byte inp -> 2 <= zlen inp < 2 ^ 32 ->
  exists n out', lzf_compress inp out htab = Some (n, out') /\ length out' = length out /\
    ((n = 0 /\ 32 * zlen out <= 33 * zlen inp + 160) \/
     exists ts Q, out' = encode ts ++ Q /\ n = zlen (encode ts) /\ ts <> [] /\
       toks_ok [] ts /\ expand [] ts = inp /\ 32 * n <= 33 * zlen inp + 32).
Proof.
  intros Hby Hlen. unfold lzf_compress. rewrite (proj2 (Z.eqb_neq (zlen inp) 0)) by lia. cbn [orb].
  destruct (Z.eqb_spec (zlen out) 0) as [H0|H0].
  { exists 0, out. split; [done|]. split; [done|]. left. lia. }
  destruct (FRST_safe inp 0) as [v ->]; [lia..|]. cbn [mbind option_bind].
  destruct (compress_loop_spec (S (length inp)) inp (length out) (mk_cstate 0 1 0 v out htab))
    as (r & -> & Hr); [|done|lia|simpl; lia|].
  { split; [done|]. exists [], [], out. split; [|simpl; lia].
    split; simpl; (done || lia || by left). }
  cbn [mbind option_bind]. destruct r as [out'|s]; [exists 0, out'; split; [done|]; split; [tauto|left; lia]|].
  destruct Hr as [(Hl & ts & P & Q & Hc & _) Hend].
  pose proof (ci_bound _ _ _ _ _ _ _ _ Hc) as [Hbnd Hlit0].
  pose proof (ci_ip _ _ _ _ _ _ _ _ Hc) as Hip. pose proof (ci_max _ _ _ _ _ _ _ _ Hc).
  destruct (Z.ltb_spec (zlen (c_out s)) (c_op s + 3)) as [Hno|Hroom].
  { exists 0, (c_out s). split; [done|]. split; [done|]. left. lia. }
  destruct (tail_loop_spec (S (length inp)) _ _ _ _ _ _ _ _ Hc Hend)
    as (op & lit & o & ts' & P' & Q' & -> & Hc' & Hl' & Hle'); [destruct (32 <=? _); lia|lia|].
  cbn [mbind option_bind].
  pose proof (ci_bound _ _ _ _ _ _ _ _ Hc') as [_ Hlit'].
  destruct (stop_run_spec _ _ _ _ _ _ _ _ Hc') as (o2 & ts2 & Q2 & -> & -> & Hop2 & Hok2 & Hexp2 & Hl2 & Hsz2).
  { destruct (lit =? 0); lia. }
  { destruct Hc' as [_ _ _ _ Ho _ _ _ _]. lia. }
  cbn [mbind option_bind fst snd]. do 2 eexists. split; [done|]. split; [congruence|].
  right. exists ts2, Q2. rewrite Nat2Z.id, firstn_all in Hexp2.
  rewrite Hexp2 in Hsz2.
  split_and!; [done|done| |done|done|rewrite Hop2; destruct (lit =? 0); lia]. intros ->. simpl in Hexp2. subst inp. simpl in Hlen. lia.
Qed.

(** ** Theorems *)

(** C25 (lzf_roundtrip) whatever garbage the uninitialised hash table holds,
    [lzf_compress] on an input of at least two octets terminates without an
    access outside its buffers and returns 0 or the length of a stream that
    [lzf_decompress] expands, in any buffer that is large enough, to exactly
    the input. *)
Theorem lzf_roundtrip inp out htab :
  Forall is_byte inp -> 2 <= zlen inp < 2 ^ 32 ->
  exists n out', lzf_compress inp out htab = Some (n, out') /\
    (n = 0 \/
     0 < n <= zlen out /\
     forall buf, zlen inp <= zlen buf ->
     exists buf', lzf_decompress (take (Z.to_nat n) out') buf
                  = Some (inr (zlen inp, buf')) /\
       take (length inp) buf' = inp).
Proof.
  intros Hby Hlen.
  destruct (lzf_compress_spec inp out htab Hby Hlen) as (n & out' & Heq & Hl & [[-> _]|Hts]).
  { exists 0, out'. eauto. }
  destruct Hts as (ts & Q & -> & -> & Hne & Hok & Hexp & _).
  exists (zlen (encode ts)), (encode ts ++ Q). split; [done|]. right.
  rewrite length_app in Hl. split.
  { destruct ts as [|t ts]; [done|]. rewrite encode_cons, length_app in *.
    pose proof (enc_tok_nonnil t). destruct (enc_tok t); [done|simpl in *; lia]. }
  intros buf Hbuf. rewrite Nat2Z.id, take_app_length.
  destruct (lzf_decompress_toks ts buf Hne Hok) as (buf' & -> & Hbuf'); [rewrite Hexp; lia|].
  rewrite Hexp in *. eauto.
Qed.

Definition sample_input : list Z :=
  concat (replicate 10 [1; 2; 3; 4; 5; 6]) ++ (Z.of_nat <$> seq 0 40) ++ [9; 9; 9; 9].

Lemma sample_input_bytes : Forall is_byte sample_input.
Proof. apply (bool_decide_unpack _). vm_compute. done. Qed.

Lemma lzf_roundtrip_witness :
  exists n out', lzf_compress sample_input (replicate 120 0) (fun i => i * 7) = Some (n, out') /\
    (n = 0 \/
     0 < n <= zlen (replicate 120 0) /\
     forall buf, zlen sample_input <= zlen buf ->
     exists buf', lzf_decompress (take (Z.to_nat n) out') buf
                  = Some (inr (zlen sample_input, buf')) /\
       take (length sample_input) buf' = sample_input).
Proof.
  apply (lzf_roundtrip sample_input (replicate 120 0) (fun i => i * 7)).
  - exact sample_input_bytes.
  - vm_compute. split; [discriminate|reflexivity].
Defined.

(** [lzf_compress] does not give up when the
    output has room for one header per 32 input octets and five octets more:
    it returns a positive length that fits, and that exceeds the input by one
    octet in 32, and one more, at most. *)
Theorem lzf_compress_succeeds inp out htab :
  Forall is_byte inp -> 2 <= zlen inp < 2 ^ 32 ->
  33 * zlen inp + 160 < 32 * zlen out ->
  exists n out', lzf_compress inp out htab = Some (n, out') /\ 0 < n <= zlen out /\
    32 * n <= 33 * zlen inp + 32.
Proof.
  intros Hby Hlen Hroom.
  destruct (lzf_compress_spec inp out htab Hby Hlen) as (n & out' & -> & Hl & [[-> ?]|Hts]); [lia|].
  destruct Hts as (ts & Q & -> & -> & Hne & _ & _ & Hsz). do 2 eexists. split; [done|].
  split; [|done]. rewrite length_app in Hl. clear Hsz. destruct ts as [|t ts]; [done|]. rewrite encode_cons, length_app in *.
  pose proof (enc_tok_nonnil t). destruct (enc_tok t); [done|simpl in *; lia].
Qed.

Lemma lzf_compress_succeeds_witness :
  exists n out', lzf_compress sample_input (replicate 120 0) (fun _ => 5) = Some (n, out') /\
    0 < n <= zlen (replicate 120 0) /\ 32 * n <= 33 * zlen sample_input + 32.
Proof.
  apply (lzf_compress_succeeds sample_input (replicate 120 0) (fun _ => 5)).
  - exact sample_input_bytes.
  - vm_compute. split; [discriminate|reflexivity].
  - vm_compute. reflexivity.
Defined.

(** C26 (lzf_decompress_safe) on every non-empty input, well formed or not,
    [lzf_decompress] terminates, never reads outside the input or the output
    written so far and never writes outside the output: it reports an error
    or a length within the buffer. *)
Theorem lzf_decompress_safe inp out :
  Forall is_byte inp -> 0 < zlen inp ->
  exists r, lzf_decompress inp out = Some r /\
    match r with
    | inl _ => True
    | inr (n, out') => 0 <= n <= zlen out /\ length out' = length out
    end.
Proof. intros Hby Hne. apply lzf_d_loop_safe; [done|lia..]. Qed.

Lemma lzf_decompress_safe_witness :
  exists r, lzf_decompress [224; 255; 3; 31; 7] (replicate 10 0) = Some r /\
    match r with
    | inl _ => True
    | inr (n, out') => 0 <= n <= zlen (replicate 10 0) /\ length out' = length (replicate 10 0)
    end.
Proof.
  apply (lzf_decompress_safe [224; 255; 3; 31; 7] (replicate 10 0)).
  - repeat constructor; unfold is_byte; lia.
  - vm_compute. reflexivity.
Defined.

(** on an input of one octet [lzf_compress] reads
    the octet after it, to start its hash. *)
Theorem lzf_compress_overread b out htab :
  0 < zlen out -> lzf_compress [b] out htab = None.
Proof.
  intros H. unfold lzf_compress. rewrite (proj2 (Z.eqb_neq (zlen out) 0)) by lia. done.
Qed.

Lemma lzf_compress_overread_witness : lzf_compress [65] [0; 0; 0; 0] (fun _ => 0) = None.
Proof. apply (lzf_compress_overread 65 [0; 0; 0; 0] (fun _ => 0)). simpl. lia. Defined.
