(* ===== verification/Numconv.v ===== *)
(** Integer/string conversions: digits10, sdigits10, ll2string, string2ll and
    string2l of redis/redis/src/util.c.

    Characters are octets.  [ll2string] writes into a caller's buffer through
    the checked accessor; [string2ll] returns [None] for the C return value 0. *)
From Stdlib Require Import String Ascii.
From S2P Require Import Prelude.

(** The octets of a C string literal. *)
Fixpoint chars (s : string) : list Z :=
  match s with
  | EmptyString => []
  | String c s => Z.of_nat (nat_of_ascii c) :: chars s
  end.

Definition LLONG_MAX : Z := 2 ^ 63 - 1.
Definition LLONG_MIN : Z := - 2 ^ 63.
Definition ULLONG_MAX : Z := 2 ^ 64 - 1.

(** [digits10] recurses on [v / 10^12]; a 64-bit value has at most 20 digits,
    so three levels are enough. *)
Fixpoint digits10_rec (fuel : nat) (v : Z) : Z :=
  if v <? 10 then 1
  else if v <? 100 then 2
  else if v <? 1000 then 3
  else if v <? 1000000000000 then
    if v <? 100000000 then
      if v <? 1000000 then
        if v <? 10000 then 4 else 5 + (if 100000 <=? v then 1 else 0)
      else 7 + (if 10000000 <=? v then 1 else 0)
    else if v <? 10000000000 then 9 + (if 1000000000 <=? v then 1 else 0)
    else 11 + (if 100000000000 <=? v then 1 else 0)
  else
    match fuel with
    | O => 0
    | S fuel => 12 + digits10_rec fuel (v / 1000000000000)
    end.
Definition digits10 (v : Z) : Z := digits10_rec 2 v.

Definition sdigits10 (v : Z) : Z :=
  if v <? 0 then
    let uv := if v =? LLONG_MIN then LLONG_MAX + 1 else - v in
    digits10 uv + 1
  else digits10 v.

Definition digits : list Z := chars
  "00010203040506070809101112131415161718192021222324252627282930313233343536373839404142434445464748495051525354555657585960616263646566676869707172737475767778798081828384858687888990919293949596979899".

(** The [while (value >= 100)] loop: the remaining value, [next] and [dst]. *)
Fixpoint ll2string_loop (fuel : nat) (dst : list Z) (value next : Z)
    : option (Z * Z * list Z) :=
  match fuel with
  | O => None
  | S fuel =>
    if 100 <=? value then
      let i := (value mod 100) * 2 in
      let value := value / 100 in
      d1 ← rd digits (i + 1); dst ← wr dst next d1;
      d0 ← rd digits i; dst ← wr dst (next - 1) d0;
      ll2string_loop fuel dst value (next - 2)
    else Some (value, next, dst)
  end.

(** The return value and the buffer; [dstlen] is the size of [dst]. *)
Definition ll2string (dst : list Z) (svalue : Z) : option (Z * list Z) :=
  let '(value, negative) :=
    if svalue <? 0 then
      ((if svalue =? LLONG_MIN then LLONG_MAX + 1 else - svalue), 1)
    else (svalue, 0) in
  let length := digits10 value + negative in
  if zlen dst <=? length then Some (0, dst)
  else
    dst ← wr dst length 0;
    r ← ll2string_loop 11 dst value (length - 1);
    let '(value, next, dst) := r in
    dst ← (if value <? 10 then wr dst next (48 + value)
           else
             let i := value * 2 in
             d1 ← rd digits (i + 1); dst ← wr dst next d1;
             d0 ← rd digits i; wr dst (next - 1) d0);
    dst ← (if negative =? 1 then wr dst 0 45 else Some dst);
    Some (length, dst).

(** The [while] loop of [string2ll] over the rest of the string: [None] on
    overflow, otherwise the value and the characters left. *)
Fixpoint string2ll_loop (p : list Z) (v : Z) : option (Z * list Z) :=
  match p with
  | [] => Some (v, [])
  | c :: p' =>
    if (48 <=? c) && (c <=? 57) then
      if ULLONG_MAX / 10 <? v then None
      else
        let v := v * 10 in
        if ULLONG_MAX - (c - 48) <? v then None
        else string2ll_loop p' (v + (c - 48))
    else Some (v, p)
  end.

(** After the sign. *)
Definition string2ll_digits (slen : Z) (negative : bool) (p : list Z) : option Z :=
  match p with
  | [] => None
  | c :: p =>
    if (49 <=? c) && (c <=? 57) then
      r ← string2ll_loop p (c - 48);
      let '(v, rest) := r in
      match rest with
      | _ :: _ => None
      | [] =>
        if negative then
          if (- (LLONG_MIN + 1) + 1) <? v then None
          else Some (swrap 64 (wrap 64 (- v)))
        else if LLONG_MAX <? v then None
        else Some v
      end
    else if (c =? 48) && (slen =? 1) then Some 0
    else None
  end.

Definition string2ll (s : list Z) : option Z :=
  match s with
  | [] => None
  | c :: p =>
    if (zlen s =? 1) && (c =? 48) then Some 0
    else if c =? 45 then string2ll_digits (zlen s) true p
    else string2ll_digits (zlen s) false s
  end.

(** [long] is 64 bits wide. *)
Definition string2l (s : list Z) : option Z :=
  llval ← string2ll s;
  if (llval <? LLONG_MIN) || (LLONG_MAX <? llval) then None else Some llval.

(** ** Decimal notation

    [dec v] is the reference: the decimal digits of [v >= 0], without leading
    zeros; the fuel is the number of digits available. *)
Fixpoint dec_rec (fuel : nat) (v : Z) : list Z :=
  match fuel with
  | O => []
  | S fuel => if v <? 10 then [48 + v] else dec_rec fuel (v / 10) ++ [48 + v mod 10]
  end.
Definition dec (v : Z) : list Z := dec_rec 20 v.
#[global] Arguments dec : simpl never.
Definition decimal (v : Z) : list Z := if v <? 0 then 45 :: dec (- v) else dec v.

Lemma dec_rec_S n v :
  dec_rec (S n) v = if v <? 10 then [48 + v] else dec_rec n (v / 10) ++ [48 + v mod 10].
Proof. done. Qed.

Lemma dec_rec_fuel n m v :
  0 <= v < 10 ^ Z.of_nat n -> (0 < n <= m)%nat -> dec_rec m v = dec_rec n v.
Proof.
  revert m v. induction n as [|n IH]; intros m v Hv Hm; [lia|].
  destruct m as [|m]; [lia|]. cbn [dec_rec].
  destruct (Z.ltb_spec v 10); [done|]. f_equal.
  rewrite Nat2Z.inj_succ, Z.pow_succ_r in Hv by lia.
  destruct n as [|n]; [simpl in Hv; lia|]. apply IH; [zdiv_lia|lia].
Qed.

Lemma length_dec_rec n v :
  0 <= v < 10 ^ Z.of_nat n -> (0 < n)%nat -> 10 ^ (Z.of_nat n - 1) <= v \/ n = 1%nat ->
  length (dec_rec n v) = n.
Proof.
  revert v. induction n as [|n IH]; intros v Hv Hn Hlo; [lia|]. cbn [dec_rec].
  destruct (decide (n = 0%nat)) as [->|].
  - rewrite (proj2 (Z.ltb_lt v 10)) by (simpl in Hv; lia). done.
  - assert (10 ^ Z.of_nat n = 10 * 10 ^ (Z.of_nat n - 1)) as E.
    { rewrite <-Z.pow_succ_r by lia. f_equal. lia. }
    assert (0 < 10 ^ (Z.of_nat n - 1)) by (apply Z.pow_pos_nonneg; lia).
    rewrite Nat2Z.inj_succ, Z.pow_succ_r in Hv by lia.
    replace (Z.of_nat (S n) - 1) with (Z.of_nat n) in Hlo by lia.
    rewrite (proj2 (Z.ltb_ge v 10)) by lia. rewrite length_app, IH; simpl; [lia| |lia|].
    + zdiv_lia.
    + left. zdiv_lia.
Qed.

Lemma length_dec_exact n v :
  0 <= v -> (0 < n <= 20)%nat -> v < 10 ^ Z.of_nat n -> 10 ^ (Z.of_nat n - 1) <= v \/ n = 1%nat ->
  length (dec v) = n.
Proof.
  intros. unfold dec. rewrite (dec_rec_fuel n) by lia. apply length_dec_rec; lia || done.
Qed.

Lemma digits10_dec v : 0 <= v < 2 ^ 64 -> digits10 v = zlen (dec v).
Proof.
  intros Hv. unfold digits10, digits10_rec.
  repeat match goal with
  | |- context [if ?a <? ?b then _ else _] => destruct (Z.ltb_spec a b)
  | |- context [if ?a <=? ?b then _ else _] => destruct (Z.leb_spec a b)
  end; try zdiv_lia; symmetry;
  match goal with |- zlen _ = ?k =>
    let k' := eval vm_compute in (Z.to_nat k) in
    rewrite (length_dec_exact k'); [done|zdiv_lia|lia|simpl; zdiv_lia|first [right; reflexivity | left; simpl; zdiv_lia]]
  end.
Qed.

(** ** ll2string writes the decimal notation *)
Lemma dec_small v : 0 <= v < 10 -> dec v = [48 + v].
Proof. intros. unfold dec. rewrite (dec_rec_S 19). by rewrite (proj2 (Z.ltb_lt v 10)) by lia. Qed.

Lemma dec_ten v : 10 <= v < 10 ^ 20 -> dec v = dec (v / 10) ++ [48 + v mod 10].
Proof.
  intros Hv. unfold dec at 1. rewrite (dec_rec_S 19), (proj2 (Z.ltb_ge v 10)) by lia.
  unfold dec. rewrite (dec_rec_fuel 19 20 (v / 10)); [done| |lia].
  change (10 ^ Z.of_nat 19) with 10000000000000000000.
  change (10 ^ 20) with 100000000000000000000 in Hv. zdiv_lia.
Qed.

Lemma dec_hundred v : 100 <= v < 10 ^ 20 ->
  dec v = dec (v / 100) ++ [48 + v mod 100 / 10; 48 + v mod 100 mod 10].
Proof.
  intros Hv. change (10 ^ 20) with 100000000000000000000 in Hv.
  rewrite (dec_ten v), (dec_ten (v / 10)) by (change (10 ^ 20) with 100000000000000000000; zdiv_lia).
  rewrite Z.div_div by lia. change (10 * 10) with 100. rewrite <-app_assoc. simpl.
  do 3 f_equal; [|f_equal]; zdiv_lia.
Qed.

Lemma digits_table_all :
  forallb (fun j => let k := Z.of_nat j in
    bool_decide (rd digits (k * 2) = Some (48 + k / 10)) &&
    bool_decide (rd digits (k * 2 + 1) = Some (48 + k mod 10))) (seq 0 100) = true.
Proof. vm_compute. done. Qed.

Lemma digits_table k :
  0 <= k < 100 -> rd digits (k * 2) = Some (48 + k / 10) /\ rd digits (k * 2 + 1) = Some (48 + k mod 10).
Proof.
  intros Hk. pose proof (proj1 (List.forallb_forall _ _) digits_table_all (Z.to_nat k)) as H.
  cbv beta zeta in H. rewrite Z2Nat.id in H by lia.
  apply andb_prop in H as [H1 H2]; [|apply List.in_seq; lia].
  by split; [apply bool_decide_eq_true in H1|apply bool_decide_eq_true in H2].
Qed.

Lemma wr_pair (a c : list Z) x y x' y' next :
  next = zlen a + 1 ->
  (dst ← wr (a ++ x :: y :: c) next y'; wr dst (next - 1) x') = Some (a ++ x' :: y' :: c).
Proof.
  intros ->. rewrite cons_middle, app_assoc, wr_app by len_lia. cbn [mbind option_bind].
  rewrite <-app_assoc. simpl. rewrite wr_app by lia. done.
Qed.

Lemma wr_pair_bind {A} (a c : list Z) x y x' y' next (k : list Z -> option A) :
  next = zlen a + 1 ->
  (dst ← wr (a ++ x :: y :: c) next y'; dst ← wr dst (next - 1) x'; k dst)
  = k (a ++ x' :: y' :: c).
Proof.
  intros H. pose proof (wr_pair a c x y x' y' next H) as E.
  destruct (wr _ next y') as [d|]; [|done]. simpl in *. by rewrite E.
Qed.

Lemma list_snoc2 {A} (l : list A) n :
  length l = (n + 2)%nat -> exists l' x y, l = l' ++ [x; y] /\ length l' = n.
Proof.
  intros H. destruct (split_at l n) as (l' & r & -> & Hl); [lia|].
  rewrite length_app in H. destruct r as [|x [|y [|]]]; simpl in H; try lia. eauto.
Qed.

(** Loop and last digits together replace the [X] area by the digits. *)
Lemma ll2string_digits fuel : forall (a X c : list Z) v next,
  0 <= v < 10 ^ 20 -> v < 100 ^ Z.of_nat fuel -> (0 < fuel)%nat -> length X = length (dec v) ->
  next = zlen a + zlen X - 1 ->
  (r ← ll2string_loop fuel (a ++ X ++ c) v next;
   let '(value, next, dst) := r in
   if value <? 10 then wr dst next (48 + value)
   else d1 ← rd digits (value * 2 + 1); dst ← wr dst next d1;
        d0 ← rd digits (value * 2); wr dst (next - 1) d0) = Some (a ++ dec v ++ c).
Proof.
  induction fuel as [|fuel IH]; intros a X c v next Hv Hf Hpos HX ->; [lia|].
  cbn [ll2string_loop]. destruct (Z.leb_spec 100 v).
  - destruct (digits_table (v mod 100)) as [Hd0 Hd1]; [zdiv_lia|].
    rewrite Hd0, Hd1. cbn [mbind option_bind].
    rewrite (dec_hundred v), length_app in HX by lia. simpl in HX.
    destruct (list_snoc2 X (length (dec (v / 100))) HX) as (X' & x & y & -> & HX').
    rewrite <-app_assoc. simpl. rewrite app_assoc, wr_pair_bind by len_lia.
    rewrite <-app_assoc, IH; [|zdiv_lia| | |done|len_lia].
    + rewrite (dec_hundred v) by lia. by rewrite <-app_assoc.
    + rewrite Nat2Z.inj_succ, Z.pow_succ_r in Hf by lia. zdiv_lia.
    + destruct fuel; [simpl in Hf|]; lia.
  - cbn [mbind option_bind]. destruct (Z.ltb_spec v 10).
    + rewrite dec_small in * by lia. destruct X as [|x [|]]; simpl in HX; try lia.
      simpl. rewrite wr_app by lia. done.
    + destruct (digits_table v) as [Hd0 Hd1]; [lia|]. rewrite Hd0, Hd1. cbn [mbind option_bind].
      assert (dec v = [48 + v / 10; 48 + v mod 10]) as Hdv
        by (rewrite dec_ten, dec_small by zdiv_lia; done).
      rewrite Hdv in HX |- *.
      destruct X as [|x [|y [|]]]; simpl in HX; try lia. simpl.
      rewrite wr_pair by (simpl; lia). done.
Qed.

Lemma ll2string_correct dst v :
  fits_signed 64 v -> zlen (decimal v) < zlen dst ->
  exists rest, ll2string dst v = Some (zlen (decimal v), decimal v ++ 0 :: rest) /\
    length (decimal v ++ 0 :: rest) = length dst.
Proof.
  unfold fits_signed; simpl Z.sub; intros Hv Hroom. unfold ll2string, decimal in *.
  set (p := if v <? 0 then _ else _).
  assert (exists n (sg : list Z), p = (n, zlen sg) /\ 0 <= n < 2 ^ 64 /\
     (if v <? 0 then 45 :: dec (- v) else dec v) = sg ++ dec n /\
     (sg = [] \/ sg = [45])) as (n & sg & -> & Hn & Hd & Hsg).
  { subst p. destruct (Z.ltb_spec v 0).
    - exists (- v), [45]. unfold LLONG_MIN, LLONG_MAX. split_and!; [|lia|lia|done|by right].
      destruct (Z.eqb_spec v (- 2 ^ 63)) as [->|]; done.
    - exists v, []. split_and!; [done|lia|lia|done|by left]. }
  rewrite Hd in *. rewrite length_app in *.
  rewrite digits10_dec by done. zif.
  destruct (split_at dst (length sg)) as (s & dst' & -> & Hs); [lia|].
  rewrite length_app in Hroom. destruct (split_at dst' (length (dec n))) as (X & d2 & -> & HX); [lia|].
  rewrite length_app in Hroom. destruct (cons_of_length d2) as (z & rest & ->); [lia|].
  rewrite app_assoc, wr_app by len_lia. cbn [mbind option_bind]. rewrite <-app_assoc.
  pose proof (ll2string_digits 11 s X (0 :: rest) n (zlen (dec n) + zlen sg - 1)) as Hlp.
  destruct (ll2string_loop _ _ _ _) as [[[value next] dd]|]; cbn [mbind option_bind] in Hlp |- *;
    [|discriminate Hlp; simpl; lia].
  rewrite Hlp by (simpl; lia). cbn [mbind option_bind].
  exists rest. destruct Hsg as [-> | ->]; simpl in *.
  - destruct s; [|done]. split; [|len_lia]. do 3 f_equal. lia.
  - destruct s as [|s0 [|]]; [done| |done]. simpl. unfold wr. simpl.
    split; [|len_lia]. do 3 f_equal. lia.
Qed.

Lemma ll2string_small dst v :
  fits_signed 64 v -> zlen dst <= zlen (decimal v) -> ll2string dst v = Some (0, dst).
Proof.
  unfold fits_signed; simpl Z.sub; intros Hv Hroom. unfold ll2string, decimal, LLONG_MIN, LLONG_MAX in *.
  destruct (Z.ltb_spec v 0).
  - destruct (Z.eqb_spec v (- 2 ^ 63)) as [->|]; cbv iota; rewrite digits10_dec by lia;
      rewrite length_cons in Hroom; (rewrite (proj2 (Z.leb_le _ _)); [done|]).
    + change (2 ^ 63 - 1 + 1) with (- (- 2 ^ 63)). lia.
    + lia.
  - cbv iota. rewrite digits10_dec by lia. rewrite (proj2 (Z.leb_le _ _)); [done|lia].
Qed.

Lemma sdigits10_decimal v : fits_signed 64 v -> sdigits10 v = zlen (decimal v).
Proof.
  unfold fits_signed, sdigits10, decimal, LLONG_MIN, LLONG_MAX; simpl Z.sub; intros Hv.
  destruct (Z.ltb_spec v 0); [|by apply digits10_dec; lia].
  rewrite length_cons.
  destruct (Z.eqb_spec v (- 2 ^ 63)) as [->|]; rewrite digits10_dec by lia; [|lia].
  change (2 ^ 63 - 1 + 1) with (- (- 2 ^ 63)). lia.
Qed.

(** ** string2ll accepts exactly the decimal notations *)
Definition digit (c : Z) : Prop := 48 <= c <= 57.
Definition dval (v : Z) (l : list Z) : Z := foldl (fun v c => v * 10 + (c - 48)) v l.

Lemma dval_snoc v l c : dval v (l ++ [c]) = dval v l * 10 + (c - 48).
Proof. unfold dval. by rewrite foldl_app. Qed.

Lemma dval_ge v l : 0 <= v -> Forall digit l -> v <= dval v l.
Proof.
  intros Hv Hl. induction l as [|c l IH] using rev_ind; [done|].
  rewrite dval_snoc. rewrite Forall_app, Forall_singleton in Hl.
  destruct Hl as [Hl Hc]. unfold digit in Hc. specialize (IH Hl). lia.
Qed.

Lemma string2ll_loop_digits p v :
  0 <= v -> Forall digit p ->
  string2ll_loop p v = if dval v p <=? Z.max v ULLONG_MAX then Some (dval v p, []) else None.
Proof.
  revert v. induction p as [|c p IH]; intros v Hv Hp; cbn [string2ll_loop].
  - change (dval v []) with v. by rewrite (proj2 (Z.leb_le _ _)) by lia.
  - apply Forall_cons in Hp as [Hc Hp]. unfold digit in Hc.
    rewrite (proj2 (Z.leb_le 48 c)), (proj2 (Z.leb_le c 57)) by lia. cbn [andb].
    change (dval v (c :: p)) with (dval (v * 10 + (c - 48)) p).
    pose proof (dval_ge (v * 10 + (c - 48)) p ltac:(lia) Hp).
    unfold ULLONG_MAX in *. change ((2 ^ 64 - 1) / 10) with 1844674407370955161.
    destruct (Z.ltb_spec 1844674407370955161 v); [zif; done|].
    destruct (Z.ltb_spec (2 ^ 64 - 1 - (c - 48)) (v * 10)); [zif; done|].
    rewrite IH by (done || lia). rewrite !Z.max_r by lia. done.
Qed.

(** A successful run of the loop over the whole string. *)
Lemma string2ll_loop_inv p v w :
  0 <= v -> string2ll_loop p v = Some (w, []) -> Forall digit p /\ w = dval v p.
Proof.
  revert v. induction p as [|c p IH]; intros v Hv H; cbn [string2ll_loop] in H.
  - by injection H as [= ->].
  - destruct (Z.leb_spec 48 c), (Z.leb_spec c 57); cbn [andb] in H; try discriminate H.
    destruct (_ <? v); [done|]. destruct (_ <? _); [done|].
    apply IH in H as [Hp ->]; [|lia]. split; [|done]. by constructor.
Qed.

Lemma dec_dval c p :
  49 <= c <= 57 -> Forall digit p -> dval (c - 48) p < 10 ^ 20 -> dec (dval (c - 48) p) = c :: p.
Proof.
  intros Hc Hp. induction p as [|d p IH] using rev_ind; intros Hlt.
  - change (dval (c - 48) []) with (c - 48). rewrite dec_small by lia. f_equal. lia.
  - rewrite Forall_app, Forall_singleton in Hp. destruct Hp as [Hp Hd]. unfold digit in Hd.
    rewrite dval_snoc in *. pose proof (dval_ge (c - 48) p ltac:(lia) Hp).
    change (10 ^ 20) with 100000000000000000000 in *.
    rewrite dec_ten by (change (10 ^ 20) with 100000000000000000000; lia).
    replace ((dval (c - 48) p * 10 + (d - 48)) / 10) with (dval (c - 48) p) by zdiv_lia.
    rewrite IH by (done || lia). simpl. do 2 f_equal. f_equal. zdiv_lia.
Qed.

Lemma dec_shape v :
  0 < v < 10 ^ 20 ->
  exists c p, dec v = c :: p /\ 49 <= c <= 57 /\ Forall digit p /\ dval (c - 48) p = v.
Proof.
  change (10 ^ 20) with 100000000000000000000.
  induction v as [v IH] using (well_founded_induction (Z.lt_wf 0)). intros Hv.
  destruct (Z.ltb_spec v 10).
  - exists (48 + v), []. rewrite dec_small by lia. unfold dval. simpl. split_and!; [done|lia|lia|done|lia].
  - destruct (IH (v / 10)) as (c & p & Hd & Hc & Hp & Hval); [zdiv_lia|zdiv_lia|].
    exists c, (p ++ [48 + v mod 10]).
    rewrite dec_ten by (change (10 ^ 20) with 100000000000000000000; lia).
    rewrite Hd, dval_snoc, Hval. split_and!; [done|lia|lia| |zdiv_lia].
    apply Forall_app. split; [done|]. apply Forall_singleton. unfold digit. zdiv_lia.
Qed.

Lemma decimal_shape v :
  fits_signed 64 v ->
  v = 0 /\ decimal v = [48] \/
  exists (neg : bool) c p, decimal v = (if neg then [45] else []) ++ c :: p /\
    49 <= c <= 57 /\ Forall digit p /\
    v = (if neg then - dval (c - 48) p else dval (c - 48) p).
Proof.
  unfold fits_signed, decimal; simpl Z.sub; intros Hv.
  destruct (Z.ltb_spec v 0); [|destruct (decide (v = 0)) as [->|]; [by left|]]; right.
  - destruct (dec_shape (- v)) as (c & p & -> & Hc & Hp & Hval); [lia|].
    exists true, c, p. rewrite Hval. split_and!; [done|lia|lia|done|lia].
  - destruct (dec_shape v) as (c & p & -> & Hc & Hp & Hval); [lia|].
    exists false, c, p. rewrite Hval. split_and!; [done|lia|lia|done|lia].
Qed.

Lemma string2ll_decimal v : fits_signed 64 v -> string2ll (decimal v) = Some v.
Proof.
  intros Hv. destruct (decimal_shape v Hv) as [[-> ->]|(neg & c & p & -> & Hc & Hp & E)]; [done|].
  unfold fits_signed in Hv; simpl Z.sub in Hv.
  pose proof (dval_ge (c - 48) p ltac:(lia) Hp).
  assert (string2ll_loop p (c - 48) = Some (dval (c - 48) p, [])) as Hlp.
  { rewrite string2ll_loop_digits by (done || lia). unfold ULLONG_MAX.
    rewrite (proj2 (Z.leb_le _ _)); [done|]. destruct neg; lia. }
  assert (forall slen, string2ll_digits slen neg (c :: p) = Some v) as Hds.
  { intros slen. unfold string2ll_digits.
    rewrite (proj2 (Z.leb_le 49 c)), (proj2 (Z.leb_le c 57)), Hlp by lia. cbn [andb mbind option_bind].
    unfold LLONG_MIN, LLONG_MAX. destruct neg; zif; [|by rewrite E].
    f_equal. rewrite E. apply swrap_id; [lia|]. unfold fits_signed. simpl Z.sub. lia. }
  destruct neg; unfold string2ll; cbn [app].
  - rewrite Bool.andb_false_r. apply Hds.
  - rewrite (proj2 (Z.eqb_neq c 48)), (proj2 (Z.eqb_neq c 45)), Bool.andb_false_r by lia. apply Hds.
Qed.

Lemma string2ll_digits_inv slen neg s v :
  string2ll_digits slen neg s = Some v ->
  slen = 1 /\ v = 0 /\ (exists p, s = 48 :: p) \/
  fits_signed 64 v /\ (if neg then v < 0 else 0 <= v) /\ s = dec (Z.abs v).
Proof.
  unfold string2ll_digits. destruct s as [|c p]; [done|]. intros H.
  destruct (Z.leb_spec 49 c), (Z.leb_spec c 57); cbn [andb] in H;
    try (destruct (Z.eqb_spec c 48), (Z.eqb_spec slen 1); cbn [andb] in H; try discriminate H;
         injection H as [= <-]; left; subst; by eauto).
  right. destruct (string2ll_loop p (c - 48)) as [[w [|]]|] eqn:Hlp; try discriminate H.
  apply string2ll_loop_inv in Hlp as [Hp ->]; [|lia]. cbn [mbind option_bind] in H.
  pose proof (dval_ge (c - 48) p ltac:(lia) Hp). unfold LLONG_MIN, LLONG_MAX in H.
  assert (fits_signed 64 v /\ v = (if neg then - dval (c - 48) p else dval (c - 48) p)) as [Hv E].
  { unfold fits_signed. simpl Z.sub. destruct neg;
      match type of H with context [?a <? ?b] => destruct (Z.ltb_spec a b) end; try discriminate H.
    - injection H as [= <-]. unfold wrap. rewrite swrap_id; [lia|lia|]. unfold fits_signed. simpl Z.sub. lia.
    - injection H as [= <-]. lia. }
  split; [done|]. unfold fits_signed in Hv. simpl Z.sub in Hv. split; [destruct neg; lia|].
  replace (Z.abs v) with (dval (c - 48) p) by (destruct neg; lia).
  rewrite dec_dval; [done|lia|done|destruct neg; lia].
Qed.

Lemma string2ll_inv s v : string2ll s = Some v -> fits_signed 64 v /\ s = decimal v.
Proof.
  assert (fits_signed 64 0 /\ [48] = decimal 0) as H0 by (unfold fits_signed; split; [simpl; lia|done]).
  unfold string2ll. destruct s as [|c p]; [done|]. rewrite length_cons.
  destruct ((_ =? 1) && (c =? 48)) eqn:Ez.
  { intros [= <-]. apply andb_prop in Ez as [E1%Z.eqb_eq ->%Z.eqb_eq].
    destruct p; simpl in E1; [done|lia]. }
  destruct (Z.eqb_spec c 45) as [->|Hc]; intros H; apply string2ll_digits_inv in H as [(E & -> & q & Hq)|(Hv & Hs & E)].
  - destruct p; simplify_eq/=; lia.
  - split; [done|]. unfold decimal. rewrite E. rewrite (proj2 (Z.ltb_lt v 0)), Z.abs_neq by lia. done.
  - simplify_eq. rewrite E in Ez. discriminate Ez.
  - split; [done|]. unfold decimal. rewrite E. by rewrite (proj2 (Z.ltb_ge v 0)), Z.abs_eq by lia.
Qed.

(** ** Properties *)

(** [string2ll] succeeds exactly on the decimal notation
    of a 64-bit signed integer, and returns that integer: no leading zeros, no
    plus sign, no blanks, no overflow. *)
Theorem string2ll_spec s v : string2ll s = Some v <-> fits_signed 64 v /\ s = decimal v.
Proof.
  split; [apply string2ll_inv|]. intros [Hv ->]. by apply string2ll_decimal.
Qed.

(** C28 (ll2string_spec) for every 64-bit value [ll2string] stays inside its
    buffer; it writes the decimal notation and the terminator and returns the
    length when both fit, and returns 0 without writing otherwise; the value
    read back by [string2ll] is the one written. *)
Theorem ll2string_spec dst v :
  fits_signed 64 v ->
  sdigits10 v = zlen (decimal v) /\
  (zlen dst <= sdigits10 v -> ll2string dst v = Some (0, dst)) /\
  (sdigits10 v < zlen dst -> exists rest,
     ll2string dst v = Some (sdigits10 v, decimal v ++ 0 :: rest) /\
     length (decimal v ++ 0 :: rest) = length dst /\
     string2ll (take (Z.to_nat (sdigits10 v)) (decimal v ++ 0 :: rest)) = Some v).
Proof.
  intros Hv. rewrite sdigits10_decimal by done. split_and!; [done|by apply ll2string_small|].
  intros Hroom. destruct (ll2string_correct dst v Hv Hroom) as (rest & E & Hl).
  exists rest. split_and!; [done|done|].
  rewrite Nat2Z.id, take_app_length. by apply string2ll_decimal.
Qed.

Lemma ll2string_spec_witness :
  fits_signed 64 (-120) /\ ll2string [7; 7; 7; 7; 7; 7] (-120) = Some (4, [45; 49; 50; 48; 0; 7]).
Proof.
  assert (fits_signed 64 (-120)) as H by (unfold fits_signed; simpl; lia).
  split; [exact H|]. destruct (ll2string_spec [7; 7; 7; 7; 7; 7] (-120) H) as (_ & _ & H3).
  destruct H3 as (rest & E & _ & _); [reflexivity|]. vm_compute in E |- *. exact eq_refl.
Defined.
