(* ===== verification/LdbBase.v ===== *)
(** The surface of LevelDB the rest of the development is written against:
    status codes (leveldb/include/leveldb/status.h), the contract of leveldb::DB
    (leveldb/include/leveldb/db.h) and the files of leveldb::Env
    (leveldb/include/leveldb/env.h) as classes. *)
From S2P Require Import Prelude.

(** ** leveldb::Status *)
Inductive Code : Type :=
  | kOk | kNotFound | kCorruption | kNotSupported | kInvalidArgument | kIOError.
#[global] Instance Code_eq_dec : EqDecision Code.
Proof. solve_decision. Defined.
Definition Status_ok (s : Code) : bool := bool_decide (s = kOk).
Definition IsNotFound (s : Code) : bool := bool_decide (s = kNotFound).

(** ** The contract of leveldb::DB

    [DB_holds db n m]: the database stands for the map [m] and its sequence and
    file numbers last for [n] more calls.  A write that does not return OK has
    or has not taken effect; a read may change the state, but not the map, and
    leaves the caller's value alone when there is no entry.  [None]
    is undefined behaviour, which the contract excludes for slices of at most
    [DB_limit] octets. *)
Definition fits_slice (limit : Z) (s : list Z) : Prop := Forall is_byte s /\ zlen s <= limit.

Class LevelDB (DB : Type) := {
  DB_Open : bool -> list Z -> Code * option DB;
  DB_Put : bool -> list Z -> list Z -> DB -> option (Code * DB);
  DB_Delete : bool -> list Z -> DB -> option (Code * DB);
  DB_Get : list Z -> list Z -> DB -> option (Code * list Z * DB);
  DB_limit : Z;
  DB_holds : DB -> nat -> gmap (list Z) (list Z) -> Prop;
  holds_less db n m : DB_holds db (S n) m -> DB_holds db n m;
  Open_spec create name : match DB_Open create name with
    | (kOk, Some db) => exists m, DB_holds db 0 m
    | (kOk, None) => False
    | (_, None) => True
    | (_, Some _) => False end;
  Put_spec sync k v db n m :
    DB_holds db (S n) m -> fits_slice DB_limit k -> fits_slice DB_limit v ->
    exists c db' m', DB_Put sync k v db = Some (c, db') /\ DB_holds db' n m' /\
      (m' = <[k := v]> m \/ c <> kOk /\ m' = m);
  Delete_spec sync k db n m :
    DB_holds db (S n) m -> fits_slice DB_limit k ->
    exists c db' m', DB_Delete sync k db = Some (c, db') /\ DB_holds db' n m' /\
      (m' = delete k m \/ c <> kOk /\ m' = m);
  Get_spec k old db n m :
    DB_holds db (S n) m -> fits_slice DB_limit k ->
    exists c v db', DB_Get k old db = Some (c, v, db') /\ DB_holds db' n m /\
      (c = kOk -> m !! k = Some v) /\ (c = kNotFound -> m !! k = None /\ v = old);
}.

Lemma Status_ok_eq s : Status_ok s = true <-> s = kOk.
Proof. apply bool_decide_eq_true. Qed.
Lemma IsNotFound_eq s : IsNotFound s = true <-> s = kNotFound.
Proof. apply bool_decide_eq_true. Qed.

(** The contract is satisfiable: a DB that is its contents and never fails. *)
Definition map_db : LevelDB (gmap (list Z) (list Z)).
Proof.
  refine {| DB_Open _ _ := (kOk, Some ∅);
    DB_Put _ k v db := Some (kOk, <[k := v]> db);
    DB_Delete _ k db := Some (kOk, delete k db);
    DB_Get k old db := Some (match db !! k with Some v => (kOk, v, db) | None => (kNotFound, old, db) end);
    DB_limit := 2 ^ 31;
    DB_holds db _ m := db = m |}.
  - done.
  - by eexists.
  - intros ? k v db _ m -> _ _. eexists _, _, _. split; [done|]. split; [done|]. by left.
  - intros ? k db _ m -> _. eexists _, _, _. split; [done|]. split; [done|]. by left.
  - intros k old db _ m -> _. destruct (m !! k) eqn:E; eexists _, _, _; (split; [done|by split]).
Defined.

(** ** Files ([leveldb/include/leveldb/env.h]) *)
Class WritableFile (F : Type) := {
  Append : list Z -> F -> Code * F;
  Flush : F -> Code * F;
}.

(** [contents] is what is left to read.  A successful [Read] returns the next
    octets, fewer than asked for only at the end of the file; what a failed
    one returns is not known. *)
Class SequentialFile (F : Type) := {
  Read : Z -> F -> Code * list Z * F;
  Skip : Z -> F -> Code * F;
  contents : F -> list Z;
  Read_spec n f s r f' :
    Read n f = (s, r, f') -> Status_ok s = true ->
    r = take (Z.to_nat n) (contents f) /\ contents f' = drop (Z.to_nat n) (contents f);
  Skip_spec n f s f' :
    Skip n f = (s, f') -> Status_ok s = true -> contents f' = drop (Z.to_nat n) (contents f);
}.

(** [Read_at off n] is [Read(off, n, ...)]: the status, the result and whether it
    lies in the caller's scratch buffer. *)
Class RandomAccessFile (F : Type) := {
  Read_at : Z -> Z -> F -> Code * list Z * bool;
}.

(** The file serves these octets: reads succeed, and are short only at the end. *)
Definition serves {F} `{RandomAccessFile F} (f : F) (bytes : list Z) : Prop :=
  forall off n, 0 <= off -> 0 <= n ->
    exists scratch, Read_at off n f = (kOk, take (Z.to_nat n) (drop (Z.to_nat off) bytes), scratch).

(** A file kept in memory; every operation on it succeeds. *)
#[global] Instance mem_WritableFile : WritableFile (list Z) := {
  Append s f := (kOk, f ++ s);
  Flush f := (kOk, f);
}.
#[global] Program Instance mem_SequentialFile : SequentialFile (list Z) := {
  Read n f := (kOk, take (Z.to_nat n) f, drop (Z.to_nat n) f);
  Skip n f := (kOk, drop (Z.to_nat n) f);
  contents f := f;
}.
Next Obligation. intros. by simplify_eq/=. Qed.
Next Obligation. intros. by simplify_eq/=. Qed.
#[global] Instance mem_RandomAccessFile : RandomAccessFile (list Z) := {
  Read_at off n f := (kOk, take (Z.to_nat n) (drop (Z.to_nat off) f), true);
}.
