(* ===== verification/KvServer.v ===== *)
(** The service of the repository: [KVServer] (kv_server/kv_server.cpp), the
    [KVStore] interface (kv_server/kv_store.h) and its LevelDB implementation
    [LdbStore] (kv_server/ldb_store.cpp).

    A [const char*] argument is an optional block of octets ([None] is the null
    pointer); reading past the block is undefined behaviour, and so is strlen of
    the null pointer: an operation that can run into it returns [None].
    [LdbStore] is written against the class [LevelDB], the contract documented in
    leveldb/include/leveldb/db.h. *)
From S2P Require Import Prelude LdbBase.

Definition cstr : Type := option (list Z).

(** strlen and the Slice it makes: the octets before the terminator. *)
Fixpoint c_string (block : list Z) : option (list Z) :=
  match block with
  | [] => None
  | c :: block => if c =? 0 then Some [] else s ← c_string block; Some (c :: s)
  end.
Definition Slice (s : cstr) : option (list Z) := block ← s; c_string block.

(** ** LdbStore *)
Record LdbStore (DB : Type) := {
  create_if_missing : bool;
  w_sync : bool;
  db_ptr : option DB;
}.
Arguments Build_LdbStore {DB} _ _ _.
Arguments create_if_missing {DB} _.
Arguments w_sync {DB} _.
Arguments db_ptr {DB} _.

Section ldb.
Context {DB : Type} `{LevelDB DB}.
(** system(3) of the C library: its status for a command line. *)
Variable system : list Z -> Z.

(** leveldb::Options and WriteOptions start with both flags off. *)
Definition new_LdbStore : LdbStore DB := Build_LdbStore false false None.

(** sprintf into the 256-octet [cmd]: undefined when the text does not fit. *)
Definition CreateDir (path : cstr) : option bool :=
  p ← Slice path;
  let cmd := [109; 107; 100; 105; 114; 32; 45; 112; 32] ++ p in
  if 256 <? zlen cmd + 1 then None else Some (negb (system cmd =? -1)).

Definition InitLdbStore (db_path : cstr) (st : LdbStore DB) : option (bool * LdbStore DB) :=
  created ← CreateDir db_path;
  if negb created then Some (false, st)
  else
    name ← Slice db_path;
    let '(_, dbptr) := DB_Open true name in
    let st := Build_LdbStore true true dbptr in
    Some (match dbptr with None => false | Some _ => true end, st).

Definition set_db (st : LdbStore DB) (db : DB) : LdbStore DB :=
  Build_LdbStore (create_if_missing st) (w_sync st) (Some db).

Definition LdbStore_Put (key value : cstr) (st : LdbStore DB) : option (bool * LdbStore DB) :=
  match db_ptr st with
  | None => Some (false, st)
  | Some db =>
    k ← Slice key; v ← Slice value;
    '(status, db) ← DB_Put (w_sync st) k v db;
    if negb (Status_ok status) then Some (false, set_db st db) else Some (true, set_db st db)
  end.

(** [value] is the caller's std::string; the result carries its new value. *)
Definition LdbStore_Get (key : cstr) (value : list Z) (st : LdbStore DB)
    : option (bool * list Z * LdbStore DB) :=
  match key with
  | None => Some (false, value, st)
  | Some _ =>
    match db_ptr st with
    | None => Some (false, value, st)
    | Some db =>
      k ← Slice key;
      '(status, value, db) ← DB_Get k value db;
      if negb (IsNotFound status) && negb (Status_ok status) then Some (false, value, set_db st db)
      else if IsNotFound status then Some (true, [], set_db st db)
      else Some (true, value, set_db st db)
    end
  end.

Definition LdbStore_Delete (key : cstr) (st : LdbStore DB) : option (bool * LdbStore DB) :=
  match key with
  | None => Some (false, st)
  | Some _ =>
    match db_ptr st with
    | None => Some (false, st)
    | Some db =>
      k ← Slice key;
      '(status, db) ← DB_Delete (w_sync st) k db;
      if negb (Status_ok status) then Some (false, set_db st db) else Some (true, set_db st db)
    end
  end.
End ldb.

(** ** The KVStore interface: the pure virtual methods *)
Class KVStore (S : Type) := {
  Put : cstr -> cstr -> S -> option (bool * S);
  Get : cstr -> list Z -> S -> option (bool * list Z * S);
  Delete : cstr -> S -> option (bool * S);
}.

#[global] Instance LdbStore_KVStore {DB} `{LevelDB DB} : KVStore (LdbStore DB) := {
  Put := LdbStore_Put;
  Get := LdbStore_Get;
  Delete := LdbStore_Delete;
}.

(** ** KVServer *)
Record KVServer (S : Type) := { kv_store_ptr : option S; rdb_opening : bool }.
Arguments Build_KVServer {S} _ _.
Arguments kv_store_ptr {S} _.
Arguments rdb_opening {S} _.

Section server.
Context {S : Type} `{KVStore S}.

Definition new_KVServer : KVServer S := Build_KVServer None false.

Definition set_store (sv : KVServer S) (st : S) : KVServer S :=
  Build_KVServer (Some st) (rdb_opening sv).

Definition KVServer_Put (key value : cstr) (sv : KVServer S) : option (bool * KVServer S) :=
  match kv_store_ptr sv with
  | None => Some (false, sv)
  | Some st => r ← Put key value st; let '(b, st) := r in Some (b, set_store sv st)
  end.

Definition KVServer_Get (key : cstr) (value : list Z) (sv : KVServer S)
    : option (bool * list Z * KVServer S) :=
  match kv_store_ptr sv with
  | None => Some (false, value, sv)
  | Some st => r ← Get key value st; let '(b, value, st) := r in Some (b, value, set_store sv st)
  end.

Definition KVServer_Delete (key : cstr) (sv : KVServer S) : option (bool * KVServer S) :=
  match kv_store_ptr sv with
  | None => Some (false, sv)
  | Some st => r ← Delete key st; let '(b, st) := r in Some (b, set_store sv st)
  end.
End server.

(** [InitKVStore] installs an LdbStore and reports success. *)
Definition InitKVStore {DB} (sv : KVServer (LdbStore DB)) : bool * KVServer (LdbStore DB) :=
  (true, Build_KVServer (Some new_LdbStore) (rdb_opening sv)).

(** ** Requests

    A client session is a sequence of requests; the reply carries the returned
    flag and, for a Get, the string the caller ends up with. *)
Inductive request : Type :=
  | ReqPut (key value : cstr)
  | ReqGet (key : cstr) (value : list Z)
  | ReqDelete (key : cstr).

Definition reply : Type := bool * list Z.

Definition serve {S} `{KVStore S} (r : request) (sv : KVServer S)
    : option (reply * KVServer S) :=
  match r with
  | ReqPut k v => '(b, sv) ← KVServer_Put k v sv; Some ((b, []), sv)
  | ReqGet k v => '(b, v, sv) ← KVServer_Get k v sv; Some ((b, v), sv)
  | ReqDelete k => '(b, sv) ← KVServer_Delete k sv; Some ((b, []), sv)
  end.

Fixpoint serve_all {S} `{KVStore S} (rs : list request) (sv : KVServer S)
    : option (list reply * KVServer S) :=
  match rs with
  | [] => Some ([], sv)
  | r :: rs =>
    '(rep, sv) ← serve r sv;
    '(reps, sv) ← serve_all rs sv;
    Some (rep :: reps, sv)
  end.

(** ** The same requests made to the database directly

    The answer of a request is the status of the database and the string it
    leaves the caller with; [None]: the database is not asked, since the key is
    the null pointer. *)
Definition answer : Type := option (Code * list Z).

Section calls.
Context {DB : Type} `{LevelDB DB} (sync : bool).

Definition db_call (r : request) (db : DB) : option (answer * DB) :=
  match r with
  | ReqPut key value =>
    k ← Slice key; v ← Slice value; '(c, db) ← DB_Put sync k v db; Some (Some (c, []), db)
  | ReqGet None _ | ReqDelete None => Some (None, db)
  | ReqGet key old => k ← Slice key; '(c, v, db) ← DB_Get k old db; Some (Some (c, v), db)
  | ReqDelete key => k ← Slice key; '(c, db) ← DB_Delete sync k db; Some (Some (c, []), db)
  end.

Fixpoint db_run (rs : list request) (db : DB) : option (list answer * DB) :=
  match rs with
  | [] => Some ([], db)
  | r :: rs => '(a, db) ← db_call r db; '(answers, db) ← db_run rs db; Some (a :: answers, db)
  end.
End calls.

(** ** Abstract behaviour: a map from keys to values

    The reply is a function of the request and the answer of the database: true
    exactly when the database says OK or, for a Get, NotFound, which becomes the
    empty string.  OK is only said of the map's value, NotFound only of a key
    that the map does not have; a failed Put or Delete has or has not taken
    effect. *)
Inductive map_step (m : gmap (list Z) (list Z)) : request -> answer -> reply -> gmap (list Z) (list Z) -> Prop :=
  | step_put key value k v c m' :
      Slice key = Some k -> Slice value = Some v -> m' = <[k := v]> m \/ c <> kOk /\ m' = m ->
      map_step m (ReqPut key value) (Some (c, [])) (Status_ok c, []) m'
  | step_get key k old c v :
      Slice key = Some k -> (c = kOk -> m !! k = Some v) -> (c = kNotFound -> m !! k = None) ->
      map_step m (ReqGet key old) (Some (c, v)) (Status_ok c || IsNotFound c, if IsNotFound c then [] else v) m
  | step_delete key k c m' :
      Slice key = Some k -> m' = delete k m \/ c <> kOk /\ m' = m ->
      map_step m (ReqDelete key) (Some (c, [])) (Status_ok c, []) m'
  | step_get_null old : map_step m (ReqGet None old) None (false, old) m
  | step_delete_null : map_step m (ReqDelete None) None (false, []) m.

Inductive map_run (m : gmap (list Z) (list Z))
    : list request -> list answer -> list reply -> gmap (list Z) (list Z) -> Prop :=
  | run_nil : map_run m [] [] [] m
  | run_cons r a rep m' rs answers reps m'' :
      map_step m r a rep m' -> map_run m' rs answers reps m'' -> map_run m (r :: rs) (a :: answers) (rep :: reps) m''.

(** What a map replies when nothing fails. *)
Definition map_serve (r : request) (m : gmap (list Z) (list Z)) : reply * gmap (list Z) (list Z) :=
  match r with
  | ReqPut key value =>
    match Slice key, Slice value with Some k, Some v => ((true, []), <[k := v]> m) | _, _ => ((false, []), m) end
  | ReqGet key old => match Slice key with Some k => ((true, default [] (m !! k)), m) | None => ((false, old), m) end
  | ReqDelete key => match Slice key with Some k => ((true, []), delete k m) | None => ((false, []), m) end
  end.
Fixpoint map_serve_all (rs : list request) (m : gmap (list Z) (list Z)) : list reply * gmap (list Z) (list Z) :=
  match rs with
  | [] => ([], m)
  | r :: rs => let '(rep, m) := map_serve r m in let '(reps, m) := map_serve_all rs m in (rep :: reps, m)
  end.

Definition answer_ok (r : request) (a : answer) : Prop :=
  match a with
  | None => True
  | Some (c, _) => c = kOk \/ (match r with ReqGet _ _ => c = kNotFound | _ => False end)
  end.

Lemma map_run_ok rs : forall m answers reps m',
  map_run m rs answers reps m' -> Forall2 answer_ok rs answers -> map_serve_all rs m = (reps, m').
Proof.
  induction rs as [|r rs IH]; intros m answers reps m' Hrun Hok; inversion Hrun as [|? a rep m1 ? answers' reps' ? Hstep Hrest]; subst; [done|].
  apply Forall2_cons in Hok as [Ha Hok]. cbn [map_serve_all]. assert (map_serve r m = (rep, m1)) as ->; [|by rewrite (IH _ _ _ _ Hrest Hok)].
  destruct Hstep as [key value k v c m1 Hk Hv Hm|key k old c v Hk H1 H2|key k c m1 Hk Hm|old|]; cbn [map_serve answer_ok] in *; rewrite ?Hk, ?Hv; try done.
  - destruct Ha as [->|[]]. by destruct Hm as [->|[? _]].
  - destruct Ha as [-> | ->]; [by rewrite H1|by rewrite H2].
  - destruct Ha as [->|[]]. by destruct Hm as [->|[? _]].
Qed.

(** Every pointer of the request is null or refers to a terminated string of
    supported length, and a Put has no null pointer (its implementation does
    not test for one). *)
Definition terminated (limit : Z) (s : cstr) : Prop := exists k, Slice s = Some k /\ fits_slice limit k.
Definition well_formed (limit : Z) (r : request) : Prop :=
  match r with
  | ReqPut key value => terminated limit key /\ terminated limit value
  | ReqGet key _ | ReqDelete key => key = None \/ terminated limit key
  end.

(** Concrete requests. *)
Ltac prove_well_formed :=
  repeat apply Forall_cons_2; try apply Forall_nil_2;
  repeat (first [left; reflexivity | eexists; split; [reflexivity|split; [by apply (bool_decide_unpack (Forall is_byte _))|by vm_compute]] | split | right]).

Definition opened {DB} (sync : bool) (sv : KVServer (LdbStore DB)) (db : DB) : Prop :=
  exists st, kv_store_ptr sv = Some st /\ db_ptr st = Some db /\ w_sync st = sync.

Section refinement.
Context {DB : Type} `{LevelDB DB} (sync : bool).
Implicit Types (sv : KVServer (LdbStore DB)) (db : DB) (m : gmap (list Z) (list Z)).

(** One request, and the call of the database it makes. *)
Definition refines (r : request) sv db (n : nat) m : Prop :=
  exists a rep sv' db' m', serve r sv = Some (rep, sv') /\ db_call sync r db = Some (a, db') /\
    opened sync sv' db' /\ DB_holds db' n m' /\ map_step m r a rep m'.

Lemma serve_put key value sv db n m :
  opened sync sv db -> DB_holds db (S n) m -> well_formed DB_limit (ReqPut key value) -> refines (ReqPut key value) sv db n m.
Proof.
  intros (st & E1 & E2 & E3) Hdb [(k & Hk & Hfk) (v & Hv & Hfv)]. unfold refines.
  cbn [serve db_call]. unfold KVServer_Put. rewrite E1. cbn. unfold LdbStore_Put. rewrite E2, E3, Hk, Hv. cbn [mbind option_bind].
  destruct (Put_spec sync k v db n m Hdb Hfk Hfv) as (c & db' & m' & -> & Hdb' & Hm'). cbn [mbind option_bind].
  destruct (Status_ok c) eqn:Es; cbn; eexists _, _, _, db', m'; (split; [done|]); (split; [done|]);
    (split; [by eexists|]); (split; [done|]); rewrite <-Es; by econstructor.
Qed.

Lemma serve_delete key sv db n m :
  opened sync sv db -> DB_holds db (S n) m -> well_formed DB_limit (ReqDelete key) -> refines (ReqDelete key) sv db n m.
Proof.
  intros (st & E1 & E2 & E3) Hdb Hwf. unfold refines. cbn [serve db_call]. unfold KVServer_Delete. rewrite E1. cbn.
  unfold LdbStore_Delete. destruct key as [block|].
  - destruct Hwf as [|(k & Hk & Hfk)]; [done|]. rewrite E2, E3, Hk. cbn [mbind option_bind].
    destruct (Delete_spec sync k db n m Hdb Hfk) as (c & db' & m' & -> & Hdb' & Hm'). cbn [mbind option_bind].
    destruct (Status_ok c) eqn:Es; cbn; eexists _, _, _, db', m'; (split; [done|]); (split; [done|]);
      (split; [by eexists|]); (split; [done|]); rewrite <-Es; by econstructor.
  - eexists _, _, _, db, m. split; [done|]. split; [done|]. split; [by eexists|]. split; [by apply holds_less|constructor].
Qed.

Lemma serve_get key old sv db n m :
  opened sync sv db -> DB_holds db (S n) m -> well_formed DB_limit (ReqGet key old) -> refines (ReqGet key old) sv db n m.
Proof.
  intros (st & E1 & E2 & E3) Hdb Hwf. unfold refines. cbn [serve db_call]. unfold KVServer_Get. rewrite E1. cbn.
  unfold LdbStore_Get. destruct key as [block|].
  - destruct Hwf as [|(k & Hk & Hfk)]; [done|]. rewrite E2, Hk. cbn [mbind option_bind].
    destruct (Get_spec k old db n m Hdb Hfk) as (c & v & db' & -> & Hdb' & Hok & Hnf). cbn [mbind option_bind].
    assert (map_step m (ReqGet (Some block) old) (Some (c, v)) (Status_ok c || IsNotFound c, if IsNotFound c then [] else v) m) as Hstep
      by (apply (step_get _ _ k); [done|done|intros Hc; by apply Hnf]).
    destruct (IsNotFound c) eqn:En; [|destruct (Status_ok c) eqn:Es]; rewrite ?orb_true_r in Hstep; cbn in Hstep |- *;
      eexists _, _, _, db', m; (split; [done|]); (split; [done|]); (split; [by eexists|]); by split.
  - eexists _, _, _, db, m. split; [done|]. split; [done|]. split; [by eexists|]. split; [by apply holds_less|constructor].
Qed.

Lemma serve_refines r sv db n m :
  opened sync sv db -> DB_holds db (S n) m -> well_formed DB_limit r -> refines r sv db n m.
Proof. destruct r; [apply serve_put|apply serve_get|apply serve_delete]. Qed.

Lemma serve_all_refines rs : forall sv db m,
  opened sync sv db -> DB_holds db (length rs) m -> Forall (well_formed DB_limit) rs ->
  exists answers reps sv' db' m', serve_all rs sv = Some (reps, sv') /\ db_run sync rs db = Some (answers, db') /\
    opened sync sv' db' /\ DB_holds db' 0 m' /\ map_run m rs answers reps m'.
Proof.
  induction rs as [|r rs IH]; intros sv db m Ho Hdb Hwf.
  - exists [], [], sv, db, m. by split_and!; [..|constructor].
  - apply Forall_cons in Hwf as [Hr Hrs]. cbn [serve_all db_run].
    destruct (serve_refines r sv db (length rs) m Ho Hdb Hr) as (a & rep & sv1 & db1 & m1 & -> & -> & Ho1 & Hdb1 & Hs). cbn [mbind option_bind].
    destruct (IH sv1 db1 m1 Ho1 Hdb1 Hrs) as (answers & reps & sv2 & db2 & m2 & -> & -> & Ho2 & Hdb2 & Hrun). cbn [mbind option_bind].
    exists (a :: answers), (rep :: reps), sv2, db2, m2. split_and!; [done..|by econstructor].
Qed.

(** ** A store that was never opened *)
Definition unopened sv : Prop :=
  exists st, kv_store_ptr sv = Some st /\ db_ptr st = None.

Lemma serve_unopened r sv :
  unopened sv -> well_formed DB_limit r -> exists rep sv', serve r sv = Some (rep, sv') /\ unopened sv' /\ rep.1 = false.
Proof.
  intros (st & E1 & E2) Hr. destruct r as [key value|key old|key];
    unfold serve, KVServer_Put, KVServer_Get, KVServer_Delete; rewrite E1; simpl;
    unfold LdbStore_Put, LdbStore_Get, LdbStore_Delete; rewrite ?E2; [| |];
    try destruct key; simpl; eexists _, _; (split; [done|]); (split; [by eexists|done]).
Qed.

Lemma serve_all_unopened rs : forall sv,
  unopened sv -> Forall (well_formed DB_limit) rs ->
  exists reps sv', serve_all rs sv = Some (reps, sv') /\ Forall (fun rep => rep.1 = false) reps.
Proof.
  induction rs as [|r rs IH]; intros sv Hu Hwf.
  - by exists [], sv.
  - apply Forall_cons in Hwf as [Hr Hrs]. simpl.
    destruct (serve_unopened r sv Hu Hr) as (rep & sv1 & -> & Hu1 & Hf). simpl.
    destruct (IH sv1 Hu1 Hrs) as (reps & sv2 & -> & Hreps). simpl.
    eexists _, _. split; [done|by constructor].
Qed.
End refinement.

(** ** Properties *)

(** C2 (kv_session_refines) A server whose store is open serves every session
    of well-formed requests without undefined behaviour and stays open.  The
    database sees exactly the calls of [db_run], one per request with a key, and
    each reply is the answer of the database, turned into a flag and a string;
    answers and replies are those of a map: a Get that succeeds returns the last
    value put under the key, or the empty string when there is none. *)
Theorem kv_session_refines {DB} `{LevelDB DB} sync rs (sv : KVServer (LdbStore DB)) db m :
  opened sync sv db -> DB_holds db (length rs) m -> Forall (well_formed DB_limit) rs ->
  exists answers reps sv' db' m', serve_all rs sv = Some (reps, sv') /\ db_run sync rs db = Some (answers, db') /\
    opened sync sv' db' /\ DB_holds db' 0 m' /\ map_run m rs answers reps m'.
Proof. apply serve_all_refines. Qed.

Definition example_session : list request :=
  [ReqPut (Some [107; 0]) (Some [118; 0]); ReqGet (Some [107; 0]) []; ReqGet None [5];
   ReqDelete (Some [107; 0]); ReqGet (Some [107; 0; 9]) [1]].

Lemma kv_session_refines_witness :
  exists answers reps sv' db' m',
    @serve_all _ (@LdbStore_KVStore _ map_db) example_session
      (Build_KVServer (Some (Build_LdbStore true true (Some ∅))) false) = Some (reps, sv') /\
    @db_run _ map_db true example_session ∅ = Some (answers, db') /\
    reps = [(true, []); (true, [118]); (false, [5]); (true, []); (true, [])] /\
    opened true sv' db' /\ db' = m' /\ map_run ∅ example_session answers reps m'.
Proof.
  destruct (@kv_session_refines _ map_db true example_session
    (Build_KVServer (Some (Build_LdbStore true true (Some ∅))) false) ∅ ∅)
    as (answers & reps & sv' & db' & m' & H1 & H2 & H3 & H4 & H5); [by eexists|reflexivity|by prove_well_formed|].
  exists answers, reps, sv', db', m'. split; [exact H1|]. split; [exact H2|].
  split; [vm_compute in H1; by injection H1 as <- _|]. split; [exact H3|]. split; [exact H4|exact H5].
Defined.

(** for a terminated path of at most 246 octets
    [InitLdbStore] runs mkdir -p on it and then opens the DB with
    create_if_missing; it returns true exactly when both succeed, and then the
    store is open and writes are synchronous.  A longer path overflows the
    command buffer. *)
Theorem InitLdbStore_spec {DB} `{LevelDB DB} system path p (st : LdbStore DB) :
  Slice path = Some p ->
  let cmd := [109; 107; 100; 105; 114; 32; 45; 112; 32] ++ p in
  if 246 <? zlen p then InitLdbStore system path st = None
  else if system cmd =? -1 then InitLdbStore system path st = Some (false, st)
  else exists st', InitLdbStore system path st = Some (Status_ok (DB_Open true p).1, st') /\
    w_sync st' = true /\ db_ptr st' = (DB_Open true p).2 /\
    (Status_ok (DB_Open true p).1 = true <-> is_Some (db_ptr st')).
Proof.
  intros Hp. cbv zeta. unfold InitLdbStore, CreateDir. rewrite Hp. cbn [mbind option_bind].
  rewrite length_app. simpl length. destruct (Z.ltb_spec 246 (zlen p)); zif; [done|].
  destruct (Z.eqb_spec (system ([109; 107; 100; 105; 114; 32; 45; 112; 32] ++ p)) (-1)); [done|].
  cbn [mbind option_bind negb].
  pose proof (Open_spec true p) as Ho. destruct (DB_Open true p) as [code [db|]];
    eexists; (split; [destruct code; done|]); simpl; (split_and!; [done|done|]);
    destruct code; try done; rewrite is_Some_alt; done.
Qed.

Lemma InitLdbStore_spec_witness :
  Slice (Some [47; 100; 0]) = Some [47; 100] /\
  exists st', @InitLdbStore _ map_db (fun _ => 0) (Some [47; 100; 0]) (new_LdbStore) = Some (true, st').
Proof.
  split; [reflexivity|].
  destruct (@InitLdbStore_spec _ map_db (fun _ => 0) (Some [47; 100; 0]) [47; 100] new_LdbStore eq_refl)
    as (st' & E & _). exists st'. exact E.
Defined.

(** C40 (kv_server_never_opened) a server set up by [InitKVStore] reports
    success but its LdbStore has no database, since nothing calls
    [InitLdbStore]; every request of every session then fails. *)
Theorem kv_server_never_opened {DB} `{LevelDB DB} rs :
  Forall (well_formed DB_limit) rs ->
  (InitKVStore (new_KVServer (S := LdbStore DB))).1 = true /\
  exists reps sv', serve_all rs (InitKVStore (new_KVServer (S := LdbStore DB))).2 = Some (reps, sv') /\
    Forall (fun rep => rep.1 = false) reps.
Proof.
  intros Hwf. split; [done|]. apply serve_all_unopened; [|done]. by eexists.
Qed.

Lemma kv_server_never_opened_witness :
  Forall (well_formed (DB_limit (LevelDB := map_db))) [ReqPut (Some [107; 0]) (Some [118; 0])] /\
  exists reps sv',
    @serve_all _ (@LdbStore_KVStore _ map_db) [ReqPut (Some [107; 0]) (Some [118; 0])]
      (InitKVStore new_KVServer).2 = Some (reps, sv') /\ Forall (fun rep => rep.1 = false) reps.
Proof.
  assert (Forall (well_formed (DB_limit (LevelDB := map_db))) [ReqPut (Some [107; 0]) (Some [118; 0])]) as Hwf
    by prove_well_formed.
  split; [exact Hwf|]. exact (proj2 (@kv_server_never_opened _ map_db _ Hwf)).
Defined.
