(* ===== verification/Coding.v ===== *)
(** Binary formats of LevelDB: leveldb/util/coding.cc and coding.h.

    A Slice or std::string is the list of its octets.  A [const char*] that is
    read is the suffix of its object that starts at the pointer, together with
    the number [n] of octets before [limit]; reading past the object gives
    [None].  [le] is port::kLittleEndian. *)
From S2P Require Import Prelude.

(** ** Fixed-width integers *)
Section fixed.
Variable le : bool.

(** memcpy copies the little-endian object when [le]. *)
Definition EncodeFixed32 (value : Z) : list Z :=
  if le then le_enc 4 value
  else [Z.land value 255; Z.land (Z.shiftr value 8) 255;
        Z.land (Z.shiftr value 16) 255; Z.land (Z.shiftr value 24) 255].

Definition EncodeFixed64 (value : Z) : list Z :=
  if le then le_enc 8 value
  else [Z.land value 255; Z.land (Z.shiftr value 8) 255;
        Z.land (Z.shiftr value 16) 255; Z.land (Z.shiftr value 24) 255;
        Z.land (Z.shiftr value 32) 255; Z.land (Z.shiftr value 40) 255;
        Z.land (Z.shiftr value 48) 255; Z.land (Z.shiftr value 56) 255].

Definition PutFixed32 (dst : list Z) (value : Z) : list Z := dst ++ EncodeFixed32 value.
Definition PutFixed64 (dst : list Z) (value : Z) : list Z := dst ++ EncodeFixed64 value.

Definition DecodeFixed32 (ptr : list Z) : option Z :=
  if le then bs ← rd_bytes ptr 0 4; Some (le_dec bs)
  else
    b0 ← rd ptr 0; b1 ← rd ptr 1; b2 ← rd ptr 2; b3 ← rd ptr 3;
    Some (Z.lor (Z.lor (Z.lor b0 (Z.shiftl b1 8)) (Z.shiftl b2 16)) (Z.shiftl b3 24)).

Definition DecodeFixed64 (ptr : list Z) : option Z :=
  if le then bs ← rd_bytes ptr 0 8; Some (le_dec bs)
  else
    lo ← DecodeFixed32 ptr;
    hi ← DecodeFixed32 (drop 4 ptr);
    Some (Z.lor (Z.shiftl hi 32) lo).
End fixed.

(** ** Variable-length integers *)
Definition B : Z := 128.

(** The octets stored at [dst]; [*(ptr++) = e] keeps the low octet of [e]. *)
Definition EncodeVarint32 (v : Z) : list Z :=
  if v <? 2 ^ 7 then [wrap 8 v]
  else if v <? 2 ^ 14 then [wrap 8 (Z.lor v B); wrap 8 (Z.shiftr v 7)]
  else if v <? 2 ^ 21 then
    [wrap 8 (Z.lor v B); wrap 8 (Z.lor (Z.shiftr v 7) B); wrap 8 (Z.shiftr v 14)]
  else if v <? 2 ^ 28 then
    [wrap 8 (Z.lor v B); wrap 8 (Z.lor (Z.shiftr v 7) B);
     wrap 8 (Z.lor (Z.shiftr v 14) B); wrap 8 (Z.shiftr v 21)]
  else
    [wrap 8 (Z.lor v B); wrap 8 (Z.lor (Z.shiftr v 7) B);
     wrap 8 (Z.lor (Z.shiftr v 14) B); wrap 8 (Z.lor (Z.shiftr v 21) B);
     wrap 8 (Z.shiftr v 28)].

(** A 64-bit value is shifted at most nine times. *)
Fixpoint EncodeVarint64_loop (fuel : nat) (v : Z) : list Z :=
  match fuel with
  | O => []
  | S fuel =>
    if B <=? v then wrap 8 (Z.lor (Z.land v (B - 1)) B) :: EncodeVarint64_loop fuel (Z.shiftr v 7)
    else [wrap 8 v]
  end.
Definition EncodeVarint64 (v : Z) : list Z := EncodeVarint64_loop 10 v.

Definition PutVarint32 (dst : list Z) (v : Z) : list Z := dst ++ EncodeVarint32 v.
Definition PutVarint64 (dst : list Z) (v : Z) : list Z := dst ++ EncodeVarint64 v.

(** The length is passed as a [uint32_t]. *)
Definition PutLengthPrefixedSlice (dst value : list Z) : list Z :=
  PutVarint32 dst (wrap 32 (zlen value)) ++ value.

Fixpoint VarintLength_loop (fuel : nat) (v len : Z) : Z :=
  match fuel with
  | O => len
  | S fuel => if 128 <=? v then VarintLength_loop fuel (Z.shiftr v 7) (len + 1) else len
  end.
Definition VarintLength (v : Z) : Z := VarintLength_loop 10 v 1.

(** The loop of the pointer-based readers, for a [w]-bit result and shifts up
    to [last]: [Some None] is the NULL result, [Some (Some (v, n, p))] the
    value, what is left of the limit, and the pointer past it. *)
Fixpoint GetVarint_loop (w last : Z) (fuel : nat) (shift result n : Z) (p : list Z)
    : option (option (Z * Z * list Z)) :=
  match fuel with
  | O => None
  | S fuel =>
    if (shift <=? last) && (0 <? n) then
      match p with
      | [] => None
      | byte :: p =>
        if negb (Z.land byte 128 =? 0) then
          GetVarint_loop w last fuel (shift + 7)
            (Z.lor result (wrap w (Z.shiftl (Z.land byte 127) shift))) (n - 1) p
        else Some (Some (Z.lor result (wrap w (Z.shiftl byte shift)), n - 1, p))
      end
    else Some None
  end.

Definition GetVarint32PtrFallback (p : list Z) (n : Z) := GetVarint_loop 32 28 6 0 0 n p.

Definition GetVarint32Ptr (p : list Z) (n : Z) : option (option (Z * Z * list Z)) :=
  if 0 <? n then
    match p with
    | [] => None
    | result :: p' =>
      if Z.land result 128 =? 0 then Some (Some (result, n - 1, p'))
      else GetVarint32PtrFallback p n
    end
  else GetVarint32PtrFallback p n.

Definition GetVarint64Ptr (p : list Z) (n : Z) : option (option (Z * Z * list Z)) :=
  GetVarint_loop 64 63 11 0 0 n p.

(** The Slice variants: [Some None] is the [false] result, otherwise the value
    and the Slice left. *)
Definition GetVarint32 (input : list Z) : option (option (Z * list Z)) :=
  r ← GetVarint32Ptr input (zlen input);
  Some (match r with None => None | Some (v, n, q) => Some (v, take (Z.to_nat n) q) end).

Definition GetVarint64 (input : list Z) : option (option (Z * list Z)) :=
  r ← GetVarint64Ptr input (zlen input);
  Some (match r with None => None | Some (v, n, q) => Some (v, take (Z.to_nat n) q) end).

(** The Slice read, and what is left. *)
Definition GetLengthPrefixedSlicePtr (p : list Z) (n : Z)
    : option (option (list Z * Z * list Z)) :=
  r ← GetVarint32Ptr p n;
  match r with
  | None => Some None
  | Some (len, n, p) =>
    if n <? len then Some None
    else s ← rd_bytes p 0 len; Some (Some (s, n - len, drop (Z.to_nat len) p))
  end.

Definition GetLengthPrefixedSlice (input : list Z) : option (option (list Z * list Z)) :=
  r ← GetVarint32 input;
  match r with
  | None => Some None
  | Some (len, input) =>
    if len <=? zlen input
    then Some (Some (take (Z.to_nat len) input, drop (Z.to_nat len) input))
    else Some None
  end.

(** ** Reference: base-128 digits, least significant first *)
Fixpoint varint (fuel : nat) (v : Z) : list Z :=
  match fuel with
  | O => []
  | S fuel => if v <? 128 then [v] else v mod 128 + 128 :: varint fuel (v / 128)
  end.

Lemma EncodeVarint64_loop_eq fuel v :
  0 <= v -> EncodeVarint64_loop fuel v = varint fuel v.
Proof.
  revert v. induction fuel as [|fuel IH]; intros v Hv; [done|].
  cbn [EncodeVarint64_loop varint]. unfold B.
  destruct (Z.leb_spec 128 v), (Z.ltb_spec v 128); try lia.
  - rewrite wrap_lor_128, shiftr_div, IH by zdiv_lia. change (128 - 1) with 127.
    rewrite land_127, Z.mod_mod by lia. done.
  - by rewrite wrap_fits by (unfold fits_unsigned; lia).
Qed.

Lemma EncodeVarint64_eq v : 0 <= v -> EncodeVarint64 v = varint 10 v.
Proof. apply EncodeVarint64_loop_eq. Qed.

Lemma varint_fuel n m v :
  0 <= v < 128 ^ Z.of_nat n -> (0 < n <= m)%nat -> varint m v = varint n v.
Proof.
  revert m v. induction n as [|n IH]; intros m v Hv Hm; [lia|].
  destruct m as [|m]; [lia|]. cbn [varint]. destruct (Z.ltb_spec v 128); [done|]. f_equal.
  rewrite Nat2Z.inj_succ, Z.pow_succ_r in Hv by lia.
  destruct n as [|n]; [simpl in Hv; lia|]. apply IH; [zdiv_lia|lia].
Qed.

Lemma EncodeVarint32_eq v : fits_unsigned 32 v -> EncodeVarint32 v = varint 10 v.
Proof.
  unfold fits_unsigned. intros Hv. rewrite (varint_fuel 5) by (simpl; lia).
  unfold EncodeVarint32, B. rewrite !wrap_lor_128, !shiftr_div by lia. cbn [varint].
  rewrite !Z.div_div by lia. unfold wrap. simpl.
  repeat match goal with |- context [if ?a <? ?b then _ else _] => destruct (Z.ltb_spec a b) end;
    try zdiv_lia; repeat f_equal; zdiv_lia.
Qed.

Lemma varint_bytes fuel v : 0 <= v -> Forall is_byte (varint fuel v).
Proof.
  revert v. induction fuel as [|fuel IH]; intros v Hv; cbn [varint]; [done|].
  unfold is_byte in *. destruct (Z.ltb_spec v 128); repeat constructor; try lia; try zdiv_lia.
  apply IH. zdiv_lia.
Qed.

Lemma VarintLength_loop_eq fuel v len :
  0 <= v -> VarintLength_loop fuel v len = len - 1 + zlen (varint (S fuel) v).
Proof.
  revert v len. induction fuel as [|fuel IH]; intros v len Hv.
  - cbn. destruct (v <? 128); simpl; lia.
  - cbn [VarintLength_loop]. replace (varint (S (S fuel)) v) with
      (if v <? 128 then [v] else v mod 128 + 128 :: varint (S fuel) (v / 128)) by done.
    destruct (Z.leb_spec 128 v), (Z.ltb_spec v 128); try lia; [|simpl; lia].
    rewrite shiftr_div by lia. rewrite IH by zdiv_lia.
    change (2 ^ 7) with 128. rewrite length_cons. lia.
Qed.

Lemma VarintLength_eq v : fits_unsigned 64 v -> VarintLength v = zlen (varint 10 v).
Proof.
  unfold fits_unsigned. intros Hv. unfold VarintLength. rewrite VarintLength_loop_eq by lia.
  rewrite (varint_fuel 10 11) by (simpl; lia). lia.
Qed.

(** One decoding loop reads back what either encoder wrote. *)
Lemma GetVarint_loop_varint w last k : forall fuel shift result n v rest,
  last = 7 * ((w - 1) / 7) -> 0 < w -> 0 <= shift -> shift mod 7 = 0 ->
  0 <= result < 2 ^ shift -> 0 <= v -> v * 2 ^ shift < 2 ^ w -> shift < w ->
  v < 128 ^ Z.of_nat k -> (0 < k <= fuel)%nat -> zlen (varint k v) <= n ->
  GetVarint_loop w last fuel shift result n (varint k v ++ rest)
  = Some (Some (result + v * 2 ^ shift, n - zlen (varint k v), rest)).
Proof.
  induction k as [|k IH]; intros fuel shift result n v rest Hlast Hw Hs Hs7 Hr Hv Hvw Hsw Hvk Hf Hn; [lia|].
  destruct fuel as [|fuel]; [lia|]. cbn [varint] in *.
  assert (shift <= last) by zdiv_lia.
  destruct (Z.ltb_spec v 128) as [Hlt|Hge]; simpl app; simpl length in *; cbn [GetVarint_loop];
    (rewrite (proj2 (Z.leb_le shift last)), (proj2 (Z.ltb_lt 0 n)) by lia); cbn [andb];
    rewrite byte_land_128 by (unfold is_byte; zdiv_lia).
  - rewrite (proj2 (Z.ltb_lt v 128)) by lia. cbn [negb]. rewrite wrap_fits by (unfold fits_unsigned; rewrite Z.shiftl_mul_pow2 by lia; lia).
    rewrite lor_shiftl_add by lia. done.
  - rewrite (proj2 (Z.ltb_ge _ 128)) by zdiv_lia. cbn [negb].
    assert (2 ^ (shift + 7) = 2 ^ shift * 128) as Hp by (rewrite Z.pow_add_r by lia; done).
    assert (v / 128 * 2 ^ (shift + 7) <= v * 2 ^ shift) by (rewrite Hp; nia || zdiv_lia).
    assert (0 < 2 ^ shift) by (apply Z.pow_pos_nonneg; lia).
    assert (0 <= v mod 128 < 128) as Hm by zdiv_lia.
    rewrite land_127. replace ((v mod 128 + 128) mod 128) with (v mod 128) by zdiv_lia.
    rewrite wrap_fits by (unfold fits_unsigned; rewrite Z.shiftl_mul_pow2 by lia;
      assert (v mod 128 <= v) by zdiv_lia; nia).
    rewrite lor_shiftl_add by lia.
    rewrite Nat2Z.inj_succ, Z.pow_succ_r in Hvk by lia.
    assert (shift + 7 < w).
    { apply (Z.pow_lt_mono_r_iff 2); [lia|lia|]. rewrite Hp. nia. }
    rewrite IH; [|done|done|lia|zdiv_lia|nia|zdiv_lia|lia|done|zdiv_lia|destruct k; simpl in *; lia|lia].
    do 4 f_equal; [|lia]. rewrite Hp. assert (v = 128 * (v / 128) + v mod 128) by zdiv_lia. nia.
Qed.

(** [p'] is [p] after at least one octet of the [n] allowed; [n'] are left. *)
Definition read_past (p : list Z) (n : Z) (p' : list Z) (n' : Z) : Prop :=
  exists hd, p = hd ++ p' /\ zlen hd = n - n' /\ 0 < zlen hd /\ 0 <= n' <= zlen p'.

Lemma read_past_one b p n : 0 < n <= zlen (b :: p) -> read_past (b :: p) n p (n - 1).
Proof. intros. exists [b]. simpl in *. split_and!; (done || lia). Qed.

Lemma GetVarint_loop_total w last fuel : forall shift result n p,
  shift <= last + 7 < 7 * Z.of_nat fuel + shift -> 0 <= n <= zlen p ->
  exists r, GetVarint_loop w last fuel shift result n p = Some r /\
    match r with None => True | Some (_, n', p') => read_past p n p' n' end.
Proof.
  induction fuel as [|fuel IH]; intros shift result n p Hf Hn; cbn [GetVarint_loop].
  - lia.
  - destruct (Z.leb_spec shift last), (Z.ltb_spec 0 n); cbn [andb]; try by eexists.
    destruct p as [|b p]; simpl in *; [lia|].
    destruct (negb _); [|eexists; split; [done|apply read_past_one; simpl; lia]].
    destruct (IH (shift + 7) (Z.lor result (wrap w (Z.shiftl (Z.land b 127) shift))) (n - 1) p)
      as (r & -> & Hr); [lia|lia|].
    exists r. split; [done|]. destruct r as [[[? n'] p']|]; [|done].
    destruct Hr as (hd & -> & ? & ? & ?). exists (b :: hd). simpl. split_and!; (done || lia).
Qed.

Lemma length_EncodeVarint32 v :
  fits_unsigned 32 v -> 1 <= zlen (EncodeVarint32 v) <= 5 /\ VarintLength v = zlen (EncodeVarint32 v).
Proof.
  intros Hv. rewrite VarintLength_eq by (unfold fits_unsigned in *; simpl in *; lia).
  rewrite <-EncodeVarint32_eq by done. unfold EncodeVarint32.
  repeat case_match; simpl; lia.
Qed.

Lemma GetVarint32Ptr_encode v n rest :
  fits_unsigned 32 v -> zlen (EncodeVarint32 v) <= n ->
  GetVarint32Ptr (EncodeVarint32 v ++ rest) n
  = Some (Some (v, n - zlen (EncodeVarint32 v), rest)).
Proof.
  intros Hv. rewrite EncodeVarint32_eq by done. unfold fits_unsigned in Hv. intros Hn.
  unfold GetVarint32Ptr. rewrite (varint_fuel 5 10) in * by (simpl; lia).
  assert (GetVarint32PtrFallback (varint 5 v ++ rest) n
          = Some (Some (v, n - zlen (varint 5 v), rest))) as E.
  { unfold GetVarint32PtrFallback. rewrite (GetVarint_loop_varint 32 28 5) by (simpl in *; (done || lia)).
    do 4 f_equal. simpl. lia. }
  rewrite E. cbn [varint] in *. destruct (Z.ltb_spec v 128); simpl app; simpl length in *; zif.
  - rewrite byte_land_128 by (unfold is_byte; lia). zif. done.
  - rewrite byte_land_128 by (unfold is_byte; zdiv_lia). zif by zdiv_lia. done.
Qed.

Lemma GetVarint64Ptr_encode v n rest :
  fits_unsigned 64 v -> zlen (EncodeVarint64 v) <= n ->
  GetVarint64Ptr (EncodeVarint64 v ++ rest) n
  = Some (Some (v, n - zlen (EncodeVarint64 v), rest)).
Proof.
  unfold fits_unsigned. intros Hv. rewrite EncodeVarint64_eq by lia. intros Hn.
  unfold GetVarint64Ptr. rewrite (GetVarint_loop_varint 64 63 10) by (done || (simpl in *; lia)).
  do 4 f_equal. simpl. lia.
Qed.

Lemma take_rest {A} (a rest : list A) n :
  n = zlen (a ++ rest) - zlen a -> take (Z.to_nat n) rest = rest.
Proof. intros ->. apply take_ge. rewrite length_app. lia. Qed.

Lemma GetVarint32_encode v rest :
  fits_unsigned 32 v -> GetVarint32 (EncodeVarint32 v ++ rest) = Some (Some (v, rest)).
Proof.
  intros Hv. unfold GetVarint32. rewrite GetVarint32Ptr_encode by (done || len_lia).
  cbn [mbind option_bind]. by rewrite (take_rest (EncodeVarint32 v)).
Qed.

Lemma GetVarint64_encode v rest :
  fits_unsigned 64 v -> GetVarint64 (EncodeVarint64 v ++ rest) = Some (Some (v, rest)).
Proof.
  intros Hv. unfold GetVarint64. rewrite GetVarint64Ptr_encode by (done || len_lia).
  cbn [mbind option_bind]. by rewrite (take_rest (EncodeVarint64 v)).
Qed.

Lemma GetLengthPrefixedSlice_put s rest :
  zlen s < 2 ^ 32 ->
  GetLengthPrefixedSlice (PutLengthPrefixedSlice [] s ++ rest) = Some (Some (s, rest)).
Proof.
  intros Hs. unfold GetLengthPrefixedSlice, PutLengthPrefixedSlice, PutVarint32. simpl app.
  assert (fits_unsigned 32 (zlen s)) as Hf by (unfold fits_unsigned; lia).
  rewrite wrap_fits, <-app_assoc, GetVarint32_encode by done. cbn [mbind option_bind].
  rewrite length_app. zif. by rewrite Nat2Z.id, take_app_length, drop_app_length.
Qed.

Lemma PutLengthPrefixedSlice_app dst s :
  PutLengthPrefixedSlice dst s = dst ++ PutLengthPrefixedSlice [] s.
Proof. unfold PutLengthPrefixedSlice, PutVarint32. simpl. by rewrite <-app_assoc. Qed.

Lemma GetVarint32Ptr_total p n :
  0 <= n <= zlen p -> exists r, GetVarint32Ptr p n = Some r /\
    match r with None => True | Some (_, n', p') => read_past p n p' n' end.
Proof.
  intros Hn. unfold GetVarint32Ptr.
  destruct (GetVarint_loop_total 32 28 6 0 0 n p ltac:(lia) Hn) as (r & E & Hr).
  unfold GetVarint32PtrFallback. rewrite E. destruct (Z.ltb_spec 0 n); [|by exists r].
  destruct p as [|b p]; simpl in *; [lia|]. destruct (_ =? 0); [|by exists r].
  eexists. split; [done|]. apply read_past_one. simpl. lia.
Qed.

Lemma GetVarint32_total input :
  exists r, GetVarint32 input = Some r /\
    match r with None => True | Some (_, rest) => exists hd, input = hd ++ rest /\ 0 < zlen hd end.
Proof.
  unfold GetVarint32. destruct (GetVarint32Ptr_total input (zlen input)) as (r & -> & Hr); [lia|].
  eexists. split; [done|]. destruct r as [[[? n'] p']|]; [|done].
  destruct Hr as (hd & -> & Hhd & ? & ?). exists hd. rewrite length_app in Hhd.
  rewrite take_ge by lia. done.
Qed.

Lemma GetVarint64_total input :
  exists r, GetVarint64 input = Some r /\
    match r with None => True | Some (_, rest) => exists hd, input = hd ++ rest /\ 0 < zlen hd end.
Proof.
  unfold GetVarint64, GetVarint64Ptr.
  destruct (GetVarint_loop_total 64 63 11 0 0 (zlen input) input) as (r & -> & Hr); [lia|lia|].
  eexists. split; [done|]. destruct r as [[[? n'] p']|]; [|done].
  destruct Hr as (hd & -> & Hhd & ? & ?). exists hd. rewrite length_app in Hhd.
  rewrite take_ge by lia. done.
Qed.

Lemma GetLengthPrefixedSlice_total input :
  exists r, GetLengthPrefixedSlice input = Some r /\
    match r with
    | None => True
    | Some (s, rest) => exists hd, input = hd ++ s ++ rest /\ 0 < zlen hd
    end.
Proof.
  unfold GetLengthPrefixedSlice.
  destruct (GetVarint32_total input) as (r & -> & Hr). cbn [mbind option_bind].
  destruct r as [[len rest]|]; [|by eexists]. destruct Hr as (hd & -> & Hhd).
  destruct (_ <=? _); [|by eexists]. eexists. split; [done|]. exists hd. by rewrite take_drop.
Qed.

(** ** Fixed-width codecs agree on both kinds of host *)
Lemma EncodeFixed32_eq le v : EncodeFixed32 le v = le_enc 4 v.
Proof.
  unfold EncodeFixed32. destruct le; [done|]. rewrite !land_255, !shiftr_div by lia.
  unfold le_enc. by rewrite !Z.div_div by lia.
Qed.

Lemma EncodeFixed64_eq le v : EncodeFixed64 le v = le_enc 8 v.
Proof.
  unfold EncodeFixed64. destruct le; [done|]. rewrite !land_255, !shiftr_div by lia.
  unfold le_enc. by rewrite !Z.div_div by lia.
Qed.

Lemma DecodeFixed32_app le bs rest :
  Forall is_byte bs -> length bs = 4%nat -> DecodeFixed32 le (bs ++ rest) = Some (le_dec bs).
Proof.
  intros Hb Hl. unfold DecodeFixed32. destruct le.
  - by rewrite (rd_bytes_app [] bs rest) by (done || lia).
  - destruct bs as [|b0 [|b1 [|b2 [|b3 [|]]]]]; try done. unfold rd, le_dec. simpl.
    unfold is_byte in Hb. decompose_Forall_hyps.
    rewrite (lor_shiftl_add b0 b1), (lor_shiftl_add _ b2), (lor_shiftl_add _ b3) by (simpl; lia).
    f_equal. lia.
Qed.

Lemma DecodeFixed64_app le bs rest :
  Forall is_byte bs -> length bs = 8%nat -> DecodeFixed64 le (bs ++ rest) = Some (le_dec bs).
Proof.
  intros Hb Hl. unfold DecodeFixed64. destruct le.
  - by rewrite (rd_bytes_app [] bs rest) by (done || lia).
  - destruct (split_at bs 4) as (lo & hi & -> & Hlo); [lia|]. rewrite length_app in Hl.
    apply Forall_app in Hb as [Hb1 Hb2].
    rewrite <-app_assoc, (DecodeFixed32_app false lo) by done. cbn [mbind option_bind].
    rewrite drop_app_length' by done. rewrite (DecodeFixed32_app false hi) by (done || lia).
    cbn [mbind option_bind]. pose proof (le_dec_bound lo Hb1) as Hlb. rewrite Hlo in Hlb.
    rewrite Z.lor_comm, lor_shiftl_add by (simpl in *; lia). f_equal.
    rewrite le_dec_app, Hlo. simpl. lia.
Qed.

Lemma DecodeFixed32_total le p : 4 <= zlen p -> is_Some (DecodeFixed32 le p).
Proof.
  intros Hp. unfold DecodeFixed32. destruct le.
  - unfold rd_bytes. rewrite bool_decide_true by lia. by eexists.
  - destruct p as [|b0 [|b1 [|b2 [|b3 p]]]]; simpl in Hp; try lia. by eexists.
Qed.

Lemma DecodeFixed32_short le p : zlen p < 4 -> DecodeFixed32 le p = None.
Proof.
  intros Hp. unfold DecodeFixed32. destruct le.
  - unfold rd_bytes. by rewrite bool_decide_false by lia.
  - destruct p as [|b0 [|b1 [|b2 [|b3 p]]]]; [done..|]. simpl in Hp. lia.
Qed.

Lemma DecodeFixed32_encode le le' v rest :
  DecodeFixed32 le (EncodeFixed32 le' v ++ rest) = Some (wrap 32 v).
Proof.
  rewrite EncodeFixed32_eq, DecodeFixed32_app by (apply le_enc_bytes || apply length_le_enc).
  by rewrite le_dec_enc.
Qed.

(** Arrays of fixed-width integers. *)
Lemma fold_PutFixed32 le l buf : fold_left (PutFixed32 le) l buf = buf ++ concat (EncodeFixed32 le <$> l).
Proof.
  revert buf. induction l as [|x l IH]; intros buf; simpl; [by rewrite app_nil_r|].
  rewrite IH. unfold PutFixed32. by rewrite <-app_assoc.
Qed.

Lemma length_fixed_concat lw (l : list Z) : zlen (concat (EncodeFixed32 lw <$> l)) = 4 * zlen l.
Proof.
  induction l as [|x l IH]; [done|]. rewrite fmap_cons. cbn [concat length]. rewrite length_app, EncodeFixed32_eq, length_le_enc.
  lia.
Qed.

Lemma DecodeFixed32_array le lw a l rest i v :
  l !! i = Some v ->
  DecodeFixed32 le (drop (Z.to_nat (zlen a + Z.of_nat i * 4)) (a ++ concat (EncodeFixed32 lw <$> l) ++ rest)) =
    Some (wrap 32 v).
Proof.
  intros Hi. replace (Z.to_nat (zlen a + Z.of_nat i * 4)) with (length a + (i * 4))%nat by lia.
  rewrite <-drop_drop, drop_app_length, <-(take_drop_middle l i v Hi), fmap_app, fmap_cons, concat_app. cbn [concat].
  rewrite <-app_assoc, drop_app_length'; [by rewrite <-app_assoc, DecodeFixed32_encode|].
  pose proof (length_fixed_concat lw (take i l)) as H. rewrite length_take in H.
  apply lookup_lt_Some in Hi. lia.
Qed.

Lemma DecodeFixed64_encode le le' v rest :
  DecodeFixed64 le (EncodeFixed64 le' v ++ rest) = Some (wrap 64 v).
Proof.
  rewrite EncodeFixed64_eq, DecodeFixed64_app by (apply le_enc_bytes || apply length_le_enc).
  by rewrite le_dec_enc.
Qed.

(** ** Properties *)

(** what the encoders write the decoders read back,
    also when reader and writer have different byte orders and whatever
    follows; [VarintLength] is the length of the varint written. *)
Theorem coding_roundtrip le le' u v s rest :
  fits_unsigned 32 u -> fits_unsigned 64 v -> zlen s < 2 ^ 32 ->
  DecodeFixed32 le (EncodeFixed32 le' u ++ rest) = Some u /\
  DecodeFixed64 le (EncodeFixed64 le' v ++ rest) = Some v /\
  GetVarint32 (EncodeVarint32 u ++ rest) = Some (Some (u, rest)) /\
  GetVarint64 (EncodeVarint64 v ++ rest) = Some (Some (v, rest)) /\
  GetLengthPrefixedSlice (PutLengthPrefixedSlice [] s ++ rest) = Some (Some (s, rest)) /\
  VarintLength u = zlen (EncodeVarint32 u) /\ VarintLength v = zlen (EncodeVarint64 v).
Proof.
  intros Hu Hv Hs. rewrite DecodeFixed32_encode, DecodeFixed64_encode, !wrap_fits by done.
  split_and!; [done|done|by apply GetVarint32_encode|by apply GetVarint64_encode
    |by apply GetLengthPrefixedSlice_put|by apply length_EncodeVarint32|].
  rewrite VarintLength_eq, EncodeVarint64_eq by (done || unfold fits_unsigned in Hv; lia). done.
Qed.

Lemma coding_roundtrip_witness :
  GetVarint32 (EncodeVarint32 4294967295 ++ [7]) = Some (Some (4294967295, [7])) /\
  DecodeFixed64 true (EncodeFixed64 false 18446744073709551615 ++ [7]) = Some 18446744073709551615.
Proof.
  destruct (coding_roundtrip true false 4294967295 18446744073709551615 [1; 2; 3] [7])
    as (_ & H2 & H3 & _); [split; [discriminate|reflexivity]..|reflexivity|].
  split; [exact H3|exact H2].
Defined.

(** on arbitrary input the varint and string readers
    terminate without reading past the input; when they succeed they have
    consumed at least one octet and return a part of the input. *)
Theorem coding_decode_safe input :
  (exists r, GetVarint32 input = Some r /\
     match r with None => True | Some (_, rest) => exists hd, input = hd ++ rest /\ 0 < zlen hd end) /\
  (exists r, GetVarint64 input = Some r /\
     match r with None => True | Some (_, rest) => exists hd, input = hd ++ rest /\ 0 < zlen hd end) /\
  (exists r, GetLengthPrefixedSlice input = Some r /\
     match r with None => True | Some (s, rest) => exists hd, input = hd ++ s ++ rest /\ 0 < zlen hd end).
Proof.
  split_and!; [apply GetVarint32_total|apply GetVarint64_total|apply GetLengthPrefixedSlice_total].
Qed.
