(* ===== verification/Skiplist.v ===== *)
(** LevelDB's skip list (leveldb/db/skiplist.h) and the generator it draws node
    heights from (leveldb/util/random.h).

    The nodes live in an arena: a node address is an index of [nodes], NULL is
    [None], and the head is the first node.  Following a link out of a node's
    array, or to a node that does not exist, gives [None]. *)
From S2P Require Import Prelude.

(** ** Random *)
Definition Random (s : Z) : Z :=
  let seed := Z.land s 2147483647 in
  if (seed =? 0) || (seed =? 2147483647) then 1 else seed.

Definition Random_Next (seed : Z) : Z :=
  let M := 2147483647 in
  let A := 16807 in
  let product := wrap 64 (seed * A) in
  let seed := wrap 32 (Z.shiftr product 31 + Z.land product M) in
  if M <? seed then seed - M else seed.

Definition kMaxHeight : nat := 12.

(** ** The list *)
Record Node (Key : Type) := { key : Key; next_ : list (option nat) }.
Arguments Build_Node {Key} _ _.
Arguments key {Key} _.
Arguments next_ {Key} _.

Record SkipList (Key : Type) := {
  nodes : list (Node Key);
  max_height_ : nat;
  rnd_ : Z;
}.
Arguments Build_SkipList {Key} _ _ _.
Arguments nodes {Key} _.
Arguments max_height_ {Key} _.
Arguments rnd_ {Key} _.

Section skiplist.
Context {Key : Type}.
(** [compare_], which may fail on a key it cannot read; the key of the head,
    never looked at; and the contents of links not yet stored. *)
Context (compare : Key -> Key -> option Z) (key0 : Key) (uninit : option nat).
Implicit Types (ns : list (Node Key)) (sl : SkipList Key).

Definition head_ : nat := 0.

Definition Next ns (x : nat) (n : nat) : option (option nat) :=
  nd ← ns !! x; next_ nd !! n.

Definition SetNext ns (x : nat) (n : nat) (y : option nat) : option (list (Node Key)) :=
  nd ← ns !! x;
  if decide (n < length (next_ nd))%nat
  then Some (<[x := Build_Node (key nd) (<[n := y]> (next_ nd))]> ns) else None.

Definition NewNode ns (k : Key) (height : nat) : list (Node Key) * nat :=
  (ns ++ [Build_Node k (replicate height uninit)], length ns).

(** The loop that clears the head's links. *)
Fixpoint clear_head ns (i : nat) : option (list (Node Key)) :=
  match i with
  | O => Some ns
  | S i => ns ← clear_head ns i; SetNext ns head_ i None
  end.

Definition new_SkipList : option (SkipList Key) :=
  let '(ns, _) := NewNode [] key0 kMaxHeight in
  ns ← clear_head ns kMaxHeight;
  Some (Build_SkipList ns 1 (Random 3735928559)).

(** The loop of [RandomHeight]; [fuel] counts the heights up to the maximum. *)
Fixpoint RandomHeight_loop (fuel height : nat) (rnd : Z) : nat * Z :=
  match fuel with
  | O => (height, rnd)
  | S fuel =>
    if decide (height < kMaxHeight)%nat then
      let rnd := Random_Next rnd in
      if rnd mod 4 =? 0 then RandomHeight_loop fuel (S height) rnd else (height, rnd)
    else (height, rnd)
  end.
Definition RandomHeight (rnd : Z) : option (nat * Z) :=
  let '(height, rnd) := RandomHeight_loop kMaxHeight 1 rnd in
  _ ← passert (bool_decide (0 < height)%nat);
  _ ← passert (bool_decide (height <= kMaxHeight)%nat);
  Some (height, rnd).

Definition KeyIsAfterNode ns (k : Key) (n : option nat) : option bool :=
  match n with
  | None => Some false
  | Some a => nd ← ns !! a; c ← compare (key nd) k; Some (c <? 0)
  end.

(** [prev] is NULL or the array the caller passes. *)
Definition set_prev (prev : option (list nat)) (level x : nat) : option (list nat) :=
  prev ← prev; Some (<[level := x]> prev).

Fixpoint FindGreaterOrEqual_loop (fuel : nat) ns (k : Key) (prev : option (list nat))
    (x level : nat) : option (option nat * option (list nat)) :=
  match fuel with
  | O => None
  | S fuel =>
    next ← Next ns x level;
    after ← KeyIsAfterNode ns k next;
    match after, next with
    | true, Some y => FindGreaterOrEqual_loop fuel ns k prev y level
    | _, _ =>
      let prev := set_prev prev level x in
      match level with
      | O => Some (next, prev)
      | S level => FindGreaterOrEqual_loop fuel ns k prev x level
      end
    end
  end.

(** Each turn goes to a later node or down a level. *)
Definition find_fuel ns : nat := length ns + kMaxHeight.

Definition FindGreaterOrEqual sl (k : Key) (prev : option (list nat))
    : option (option nat * option (list nat)) :=
  FindGreaterOrEqual_loop (find_fuel (nodes sl)) (nodes sl) k prev head_ (max_height_ sl - 1).

Fixpoint FindLessThan_loop (fuel : nat) ns (k : Key) (x level : nat) : option nat :=
  match fuel with
  | O => None
  | S fuel =>
    before ← (if decide (x = head_) then Some true else KeyIsAfterNode ns k (Some x));
    _ ← passert before;
    next ← Next ns x level;
    after ← KeyIsAfterNode ns k next;
    match after, next with
    | true, Some y => FindLessThan_loop fuel ns k y level
    | _, _ =>
      match level with O => Some x | S level => FindLessThan_loop fuel ns k x level end
    end
  end.
Definition FindLessThan sl (k : Key) : option nat :=
  FindLessThan_loop (find_fuel (nodes sl)) (nodes sl) k head_ (max_height_ sl - 1).

Fixpoint FindLast_loop (fuel : nat) ns (x level : nat) : option nat :=
  match fuel with
  | O => None
  | S fuel =>
    next ← Next ns x level;
    match next with
    | Some y => FindLast_loop fuel ns y level
    | None => match level with O => Some x | S level => FindLast_loop fuel ns x level end
    end
  end.
Definition FindLast sl : option nat :=
  FindLast_loop (find_fuel (nodes sl)) (nodes sl) head_ (max_height_ sl - 1).

(** [prev[i] = head_] for the levels the list did not have. *)
Definition raise_prev (prev : list nat) (from to : nat) : list nat :=
  foldl (fun prev i => <[i := head_]> prev) prev (seq from (to - from)).

(** The loop that links the new node [x] at the levels [i], ..., [height - 1]. *)
Fixpoint link_loop ns (prev : list nat) (x i : nat) (todo : nat) : option (list (Node Key)) :=
  match todo with
  | O => Some ns
  | S todo =>
    p ← prev !! i;
    nxt ← Next ns p i;
    ns ← SetNext ns x i nxt;
    ns ← SetNext ns p i (Some x);
    link_loop ns prev x (S i) todo
  end.

(** [n != NULL && Equal(k, n->key)]. *)
Definition EqualsNode ns (k : Key) (n : option nat) : option bool :=
  match n with
  | None => Some false
  | Some a => nd ← ns !! a; c ← compare k (key nd); Some (c =? 0)
  end.

(** [prev] starts as an uninitialised array of the caller's stack frame. *)
Definition Insert (stack : nat -> nat) sl (k : Key) : option (SkipList Key) :=
  '(x, prev) ← FindGreaterOrEqual sl k (Some (stack <$> seq 0 kMaxHeight));
  prev ← prev;
  found ← EqualsNode (nodes sl) k x;
  _ ← passert (negb found);
  '(height, rnd) ← RandomHeight (rnd_ sl);
  let '(prev, max_height) :=
    if decide (max_height_ sl < height)%nat
    then (raise_prev prev (max_height_ sl) height, height)
    else (prev, max_height_ sl) in
  let '(ns, x) := NewNode (nodes sl) k height in
  ns ← link_loop ns prev x 0 height;
  Some (Build_SkipList ns max_height rnd).

Definition Contains sl (k : Key) : option bool :=
  '(x, _) ← FindGreaterOrEqual sl k None;
  EqualsNode (nodes sl) k x.

(** ** Iterator: the current node *)
Definition iter_Valid (node : option nat) : bool := bool_decide (node ≠ None).
Definition iter_key sl (node : option nat) : option Key := a ← node; nd ← nodes sl !! a; Some (key nd).
Definition iter_Next sl (node : option nat) : option (option nat) := a ← node; Next (nodes sl) a 0.
Definition iter_Prev sl (node : option nat) : option (option nat) :=
  k ← iter_key sl node;
  x ← FindLessThan sl k;
  Some (if decide (x = head_) then None else Some x).
Definition iter_Seek sl (k : Key) : option (option nat) :=
  '(x, _) ← FindGreaterOrEqual sl k None; Some x.
Definition iter_SeekToFirst sl : option (option nat) := Next (nodes sl) head_ 0.
Definition iter_SeekToLast sl : option (option nat) :=
  x ← FindLast sl; Some (if decide (x = head_) then None else Some x).
End skiplist.

(** ** The order the list relies on

    On [valid] keys the comparator succeeds with [cmp], a total preorder. *)
Class KeyOrder {Key} (compare : Key -> Key -> option Z) (valid : Key -> Prop)
    (cmp : Key -> Key -> Z) := {
  compare_cmp a b : valid a -> valid b -> compare a b = Some (cmp a b);
  cmp_antisym a b : valid a -> valid b -> cmp a b < 0 <-> 0 < cmp b a;
  cmp_trans a b c : valid a -> valid b -> valid c -> cmp a b < 0 -> cmp b c < 0 -> cmp a c < 0;
  cmp_equal a b c : valid a -> valid b -> valid c -> cmp a b < 0 -> cmp b c = 0 -> cmp a c < 0;
}.

(** ** Invariant

    [L] is the level-0 list.  The link of a node at a level leads to the next
    node that is high enough. *)
Definition height {Key} (ns : list (Node Key)) (x : nat) : nat :=
  match ns !! x with Some nd => length (next_ nd) | None => 0 end.
Definition at_level {Key} (ns : list (Node Key)) (i : nat) (l : list nat) : list nat :=
  filter (fun x => (i < height ns x)%nat) l.
Definition linked {Key} (ns : list (Node Key)) (i : nat) (hl : list nat) : Prop :=
  forall A x B, hl = A ++ x :: B -> (i < height ns x)%nat ->
    Next ns x i = Some (head (at_level ns i B)).
Definition key_at {Key} (key0 : Key) (ns : list (Node Key)) (x : nat) : Key :=
  match ns !! x with Some nd => key nd | None => key0 end.

Record inv {Key} (valid : Key -> Prop) (cmp : Key -> Key -> Z) (key0 : Key)
    (sl : SkipList Key) (L : list nat) : Prop := {
  inv_head : height (nodes sl) head_ = kMaxHeight;
  inv_max : (1 <= max_height_ sl <= kMaxHeight)%nat;
  inv_nodup : NoDup (head_ :: L);
  inv_heights : Forall (fun x => (1 <= height (nodes sl) x <= max_height_ sl)%nat) L;
  inv_links i : (i < kMaxHeight)%nat -> linked (nodes sl) i (head_ :: L);
  inv_valid : Forall (fun x => valid (key_at key0 (nodes sl) x)) L;
  inv_sorted : StronglySorted (fun x y => cmp (key_at key0 (nodes sl) x) (key_at key0 (nodes sl) y) < 0) L;
  inv_size : length (nodes sl) = S (length L);
}.

(** The sorted list the skip list stands for. *)
Definition elements {Key} (key0 : Key) (sl : SkipList Key) (L : list nat) : list Key :=
  key_at key0 (nodes sl) <$> L.

Lemma filter_cons_inv {A} (P : A -> Prop) `{!forall x, Decision (P x)} l y l' :
  filter P l = y :: l' -> exists B1 B2, l = B1 ++ y :: B2 /\ P y /\ filter P B1 = [] /\ filter P B2 = l'.
Proof.
  induction l as [|z l IH]; [done|]. rewrite filter_cons. case_decide as Hz.
  - intros [= -> <-]. by exists [], l.
  - intros Hf. destruct (IH Hf) as (B1 & B2 & -> & Hy & H1 & H2). exists (z :: B1), B2.
    by rewrite filter_cons_False.
Qed.

Lemma at_level_app {Key} (ns : list (Node Key)) i a b :
  at_level ns i (a ++ b) = at_level ns i a ++ at_level ns i b.
Proof. apply filter_app. Qed.

Lemma height_lookup {Key} (ns : list (Node Key)) x :
  (0 < height ns x)%nat -> exists nd, ns !! x = Some nd /\ length (next_ nd) = height ns x.
Proof. unfold height. destruct (ns !! x) as [nd|]; [eauto|lia]. Qed.

Section find.
Context {Key : Type} {compare : Key -> Key -> option Z} {valid : Key -> Prop}.
Context {cmp : Key -> Key -> Z} `{!KeyOrder compare valid cmp} (key0 : Key).
Implicit Types (sl : SkipList Key) (L : list nat).
Notation inv := (inv valid cmp key0).

(** [x] is the last node before the position that is present at level [i]. *)
Definition pred_at (ns : list (Node Key)) (lt : list nat) (i x : nat) : Prop :=
  exists A B, head_ :: lt = A ++ x :: B /\ (i < height ns x)%nat /\ at_level ns i B = [].

Section at_key.
Context {sl : SkipList Key} {lt ge : list nat} (Hinv : inv sl (lt ++ ge)).
Context {k : Key} (Hk : valid k).
Context (Hlt : Forall (fun x => cmp (key_at key0 (nodes sl) x) k < 0) lt).
Context (Hge : Forall (fun x => ~ cmp (key_at key0 (nodes sl) x) k < 0) ge).
Local Notation ns := (nodes sl).

Lemma next_in_list A x B level :
  head_ :: lt = A ++ x :: B -> (level < height ns x)%nat -> (level < kMaxHeight)%nat ->
  Next ns x level = Some (head (at_level ns level (B ++ ge))).
Proof.
  intros E Hh Hl. apply (inv_links _ _ _ _ _ Hinv level Hl A); [|done].
  rewrite app_comm_cons, E, <-app_assoc. done.
Qed.

Lemma key_is_after y :
  y ∈ lt ++ ge -> KeyIsAfterNode compare ns k (Some y) = Some (cmp (key_at key0 ns y) k <? 0).
Proof.
  intros Hy. pose proof (inv_heights _ _ _ _ _ Hinv) as Hh. pose proof (inv_valid _ _ _ _ _ Hinv) as Hv.
  rewrite Forall_forall in Hh, Hv. specialize (Hh y Hy). specialize (Hv y Hy).
  destruct (height_lookup ns y) as (nd & E & _); [lia|].
  unfold KeyIsAfterNode, key_at in *. rewrite E in *. cbn [mbind option_bind].
  by rewrite (compare_cmp _ _ Hv Hk).
Qed.

Lemma after_next B level :
  (forall y, y ∈ B -> y ∈ lt) ->
  KeyIsAfterNode compare ns k (head (at_level ns level (B ++ ge)))
  = Some (match at_level ns level B with [] => false | _ => true end).
Proof.
  intros HB. rewrite at_level_app. destruct (at_level ns level B) as [|y B'] eqn:E; cbn [app head].
  - destruct (at_level ns level ge) as [|y ge'] eqn:E'; [done|]. cbn [head].
    assert (y ∈ ge) as Hy.
    { assert (y ∈ at_level ns level ge) as [_ ?]%list_elem_of_filter by (rewrite E'; left). done. }
    rewrite key_is_after by set_solver. rewrite Forall_forall in Hge.
    f_equal. apply Z.ltb_ge. specialize (Hge y Hy). lia.
  - assert (y ∈ B) as Hy.
    { assert (y ∈ at_level ns level B) as [_ ?]%list_elem_of_filter by (rewrite E; left). done. }
    rewrite key_is_after by set_solver. rewrite Forall_forall in Hlt.
    f_equal. apply Z.ltb_lt. apply Hlt. auto.
Qed.

Lemma at_level_step A x B level y B' :
  head_ :: lt = A ++ x :: B -> at_level ns level B = y :: B' ->
  exists A' B2, head_ :: lt = A' ++ y :: B2 /\ (level < height ns y)%nat /\ (length B2 < length B)%nat.
Proof.
  intros E Hy. apply filter_cons_inv in Hy as (B1 & B2 & -> & Hh & _ & _).
  exists (A ++ x :: B1), B2. rewrite E, <-app_assoc. split_and!; [done|done|len_lia].
Qed.

Lemma tail_in_lt A x B : head_ :: lt = A ++ x :: B -> forall y, y ∈ B -> y ∈ lt.
Proof using Type.
  intros E y Hy. destruct A as [|a A]; injection E as _ E; rewrite E; [done|].
  apply elem_of_app. right. by right.
Qed.

Lemma at_level_0 l : (forall y, y ∈ l -> y ∈ lt ++ ge) -> at_level ns 0 l = l.
Proof.
  intros Hl. pose proof (inv_heights _ _ _ _ _ Hinv) as Hh. rewrite Forall_forall in Hh.
  induction l as [|y l IH]; [done|]. unfold at_level in *.
  assert (1 <= height ns y)%nat by (apply Hh, Hl; left).
  rewrite filter_cons_True by lia. f_equal. apply IH. intros z Hz. apply Hl. by right.
Qed.

Lemma FindGreaterOrEqual_loop_spec fuel : forall A x B level prev,
  head_ :: lt = A ++ x :: B -> (level < height ns x)%nat -> (level < kMaxHeight)%nat ->
  (length B + level < fuel)%nat -> (forall p, prev = Some p -> length p = kMaxHeight) ->
  exists prev', FindGreaterOrEqual_loop compare fuel ns k prev x level = Some (head ge, prev') /\
    forall p, prev = Some p -> exists p', prev' = Some p' /\ length p' = kMaxHeight /\
      forall i, if decide (i <= level)%nat then exists y, p' !! i = Some y /\ pred_at ns lt i y
                else p' !! i = p !! i.
Proof.
  induction fuel as [|fuel IH]; intros A x B level prev E Hh Hl Hf Hp; [lia|].
  cbn [FindGreaterOrEqual_loop]. rewrite (next_in_list A x B) by done. cbn [mbind option_bind].
  rewrite after_next by (by eapply tail_in_lt). cbn [mbind option_bind].
  destruct (at_level ns level B) as [|y B'] eqn:EB.
  - assert (forall p, set_prev prev level x = Some p -> length p = kMaxHeight) as Hp'.
    { intros p. destruct prev as [p0|]; [|done]. intros [= <-]. rewrite length_insert. by apply Hp. }
    assert (pred_at ns lt level x) as Hpred by (by exists A, B).
    destruct level as [|level].
    + eexists. rewrite at_level_app, EB. cbn [app]. rewrite at_level_0 by set_solver.
      split; [done|]. intros p ->. specialize (Hp p eq_refl). specialize (Hp' _ eq_refl).
      eexists. split; [done|]. split; [done|]. intros i. case_decide.
      * assert (i = 0%nat) as -> by lia. exists x. split; [|done].
        apply list_lookup_insert_eq. rewrite Hp. unfold kMaxHeight. lia.
      * by rewrite list_lookup_insert_ne by lia.
    + destruct (IH A x B level (set_prev prev (S level) x)) as (prev' & E' & Hprev);
        [done|lia|lia|lia|done|].
      rewrite E'. exists prev'. split; [done|]. intros p ->. specialize (Hp p eq_refl).
      destruct (Hprev _ eq_refl) as (p' & -> & Hlen & Hspec). exists p'. split; [done|]. split; [done|].
      intros i. specialize (Hspec i). destruct (decide (i <= level)%nat).
      * by rewrite decide_True by lia.
      * case_decide; [|by rewrite Hspec, list_lookup_insert_ne by lia].
        assert (i = S level) as -> by lia. exists x. split; [|done].
        rewrite Hspec. apply list_lookup_insert_eq. lia.
  - rewrite at_level_app, EB. cbn [app head].
    destruct (at_level_step A x B level y B' E EB) as (A' & B2 & E2 & Hy & HB2).
    apply (IH A' y B2); (done || lia).
Qed.

Lemma pred_at_0 x : pred_at ns lt 0 x -> last (head_ :: lt) = Some x.
Proof.
  intros (A & B & E & _ & HB). rewrite at_level_0 in HB.
  - rewrite E, HB. apply last_snoc.
  - intros y Hy. apply elem_of_app. left. by eapply tail_in_lt.
Qed.

Lemma FindLessThan_loop_spec fuel : forall A x B level,
  head_ :: lt = A ++ x :: B -> (level < height ns x)%nat -> (level < kMaxHeight)%nat ->
  (length B + level < fuel)%nat ->
  FindLessThan_loop compare fuel ns k x level = last (head_ :: lt).
Proof.
  induction fuel as [|fuel IH]; intros A x B level E Hh Hl Hf; [lia|].
  cbn [FindLessThan_loop].
  assert ((if decide (x = head_) then Some true else KeyIsAfterNode compare ns k (Some x)) = Some true) as ->.
  { case_decide as Hx; [done|]. assert (x ∈ lt) as Hin by (assert (x ∈ head_ :: lt) by (rewrite E; set_solver); set_solver).
    rewrite key_is_after by set_solver. rewrite Forall_forall in Hlt. f_equal. apply Z.ltb_lt. by apply Hlt. }
  cbn [passert mbind option_bind]. rewrite (next_in_list A x B) by done. cbn [mbind option_bind].
  rewrite after_next by (by eapply tail_in_lt). cbn [mbind option_bind].
  destruct (at_level ns level B) as [|y B'] eqn:EB.
  - destruct level as [|level]; [|apply (IH A x B); (done || lia)].
    symmetry. apply pred_at_0. by exists A, B.
  - rewrite at_level_app, EB. cbn [app head].
    destruct (at_level_step A x B level y B' E EB) as (A' & B2 & E2 & Hy & HB2).
    apply (IH A' y B2); (done || lia).
Qed.
End at_key.

Lemma FindLast_loop_spec sl L (Hinv : inv sl L) fuel : forall A x B level,
  head_ :: L = A ++ x :: B -> (level < height (nodes sl) x)%nat -> (level < kMaxHeight)%nat ->
  (length B + level < fuel)%nat ->
  FindLast_loop fuel (nodes sl) x level = last (head_ :: L).
Proof.
  rewrite <-(app_nil_r L) in Hinv.
  induction fuel as [|fuel IH]; intros A x B level E Hh Hl Hf; [lia|].
  cbn [FindLast_loop]. rewrite (next_in_list Hinv A x B) by done. cbn [mbind option_bind].
  rewrite app_nil_r. destruct (at_level (nodes sl) level B) as [|y B'] eqn:EB; cbn [head].
  - destruct level as [|level]; [|apply (IH A x B); (done || lia)].
    symmetry. apply (pred_at_0 Hinv). by exists A, B.
  - destruct (at_level_step A x B level y B' E EB) as (A' & B2 & E2 & Hy & HB2).
    apply (IH A' y B2); (done || lia).
Qed.

(** The list splits at any valid key. *)
Lemma split_key sl L k :
  inv sl L -> valid k -> exists lt ge, L = lt ++ ge /\
    Forall (fun x => cmp (key_at key0 (nodes sl) x) k < 0) lt /\
    Forall (fun x => ~ cmp (key_at key0 (nodes sl) x) k < 0) ge.
Proof.
  intros Hinv Hk. pose proof (inv_sorted _ _ _ _ _ Hinv) as Hs.
  pose proof (inv_valid _ _ _ _ _ Hinv) as Hv. clear Hinv. set (f := key_at key0 (nodes sl)) in *.
  induction L as [|x L IH]; [by exists [], []|].
  apply StronglySorted_inv in Hs as [Hs Hx]. apply Forall_cons in Hv as [Hvx Hv].
  destruct (decide (cmp (f x) k < 0)) as [Hc|Hc].
  - destruct (IH Hs Hv) as (lt & ge & -> & ? & ?). exists (x :: lt), ge.
    split; [done|]. split; [by constructor|done].
  - exists [], (x :: L). split; [done|]. split; [done|]. constructor; [done|].
    rewrite Forall_forall in *. intros y Hy Hyk. apply Hc. specialize (Hx y Hy). specialize (Hv y Hy).
    by apply (cmp_trans _ (f y)).
Qed.

Lemma find_start sl L lt ge :
  inv sl L -> L = lt ++ ge ->
  (max_height_ sl - 1 < height (nodes sl) head_)%nat /\ (max_height_ sl - 1 < kMaxHeight)%nat /\
  (length lt + (max_height_ sl - 1) < find_fuel (nodes sl))%nat.
Proof.
  intros Hinv ->. pose proof (inv_max _ _ _ _ _ Hinv). pose proof (inv_head _ _ _ _ _ Hinv).
  pose proof (inv_size _ _ _ _ _ Hinv) as Hsz. rewrite length_app in Hsz. unfold find_fuel. lia.
Qed.

Lemma FindGreaterOrEqual_spec sl lt ge k prev :
  inv sl (lt ++ ge) -> valid k ->
  Forall (fun x => cmp (key_at key0 (nodes sl) x) k < 0) lt ->
  Forall (fun x => ~ cmp (key_at key0 (nodes sl) x) k < 0) ge ->
  (forall p, prev = Some p -> length p = kMaxHeight) ->
  exists prev', FindGreaterOrEqual compare sl k prev = Some (head ge, prev') /\
    forall p, prev = Some p -> exists p', prev' = Some p' /\ length p' = kMaxHeight /\
      forall i, (i < max_height_ sl)%nat -> exists y, p' !! i = Some y /\ pred_at (nodes sl) lt i y.
Proof.
  intros Hinv Hk Hlt Hge Hp. destruct (find_start sl _ lt ge Hinv eq_refl) as (H1 & H2 & H3).
  destruct (FindGreaterOrEqual_loop_spec Hinv Hk Hlt Hge (find_fuel (nodes sl)) [] head_ lt
    (max_height_ sl - 1) prev) as (prev' & E & Hprev); [done..|].
  exists prev'. split; [exact E|]. intros p Ep. destruct (Hprev p Ep) as (p' & -> & Hlen & Hspec).
  exists p'. split; [done|]. split; [done|]. intros i Hi. specialize (Hspec i).
  by rewrite decide_True in Hspec by lia.
Qed.

Lemma FindLessThan_spec sl lt ge k :
  inv sl (lt ++ ge) -> valid k ->
  Forall (fun x => cmp (key_at key0 (nodes sl) x) k < 0) lt ->
  Forall (fun x => ~ cmp (key_at key0 (nodes sl) x) k < 0) ge ->
  FindLessThan compare sl k = last (head_ :: lt).
Proof.
  intros Hinv Hk Hlt Hge. destruct (find_start sl _ lt ge Hinv eq_refl) as (H1 & H2 & H3).
  by apply (FindLessThan_loop_spec Hinv Hk Hlt Hge _ [] head_ lt).
Qed.

Lemma FindLast_spec sl L : inv sl L -> FindLast sl = last (head_ :: L).
Proof.
  intros Hinv. destruct (find_start sl L L [] Hinv) as (H1 & H2 & H3); [by rewrite app_nil_r|].
  by apply (FindLast_loop_spec sl L Hinv _ [] head_ L).
Qed.
End find.

(** ** Insertion *)
Section insert.
Context {Key : Type} (key0 : Key).
Implicit Types (ns : list (Node Key)).

(** Same nodes, keys and heights; only links may differ. *)
Definition same_shape ns ns' : Prop :=
  length ns' = length ns /\ (forall z, height ns' z = height ns z) /\
  (forall z, key_at key0 ns' z = key_at key0 ns z).

#[local] Instance same_shape_trans : Transitive same_shape.
Proof. intros a b c (? & ? & ?) (? & ? & ?). split_and!; intros; congruence. Qed.

Lemma same_shape_at_level ns ns' i l : same_shape ns ns' -> at_level ns' i l = at_level ns i l.
Proof.
  intros (_ & Hh & _). apply list_filter_iff. intros z. by rewrite Hh.
Qed.

Lemma SetNext_spec ns x n y :
  (n < height ns x)%nat -> exists ns', SetNext ns x n y = Some ns' /\ same_shape ns ns' /\
    forall z j, Next ns' z j = if decide (z = x /\ j = n) then Some y else Next ns z j.
Proof.
  intros Hn. destruct (height_lookup ns x) as (nd & E & Hl); [lia|]. rewrite <-Hl in Hn.
  unfold SetNext. rewrite E. cbn [mbind option_bind]. rewrite decide_True by done.
  assert (x < length ns)%nat as Hx by (by eapply lookup_lt_Some).
  eexists. split; [done|]. split; [split_and!|].
  - apply length_insert.
  - intros z. unfold height. destruct (decide (z = x)) as [->|].
    + rewrite list_lookup_insert_eq, E by done. apply length_insert.
    + by rewrite list_lookup_insert_ne.
  - intros z. unfold key_at. destruct (decide (z = x)) as [->|].
    + by rewrite list_lookup_insert_eq, E.
    + by rewrite list_lookup_insert_ne.
  - intros z j. unfold Next. destruct (decide (z = x)) as [->|].
    + rewrite list_lookup_insert_eq, E by done. cbn [mbind option_bind next_].
      destruct (decide (j = n)) as [->|].
      * rewrite decide_True by done. by apply list_lookup_insert_eq.
      * rewrite list_lookup_insert_ne by done. by rewrite decide_False by naive_solver.
    + rewrite list_lookup_insert_ne by done. by rewrite decide_False by naive_solver.
Qed.

Lemma at_level_nil ns i l y : at_level ns i l = [] -> y ∈ l -> ~ (i < height ns y)%nat.
Proof.
  intros E Hy Hh. assert (y ∈ at_level ns i l) as H by (by apply list_elem_of_filter).
  rewrite E in H. by apply not_elem_of_nil in H.
Qed.

(** Where a node of [Ap ++ p :: Bp ++ x :: ge] leads after the update. *)
Lemma relinked ns ns' i Ap p Bp x ge A y B :
  NoDup (Ap ++ p :: Bp ++ x :: ge) -> same_shape ns ns' ->
  linked ns i (Ap ++ p :: Bp ++ ge) -> (i < height ns p)%nat -> (i < height ns x)%nat ->
  at_level ns i Bp = [] ->
  (forall z, Next ns' z i = if decide (z = p) then Some (Some x)
    else if decide (z = x) then Some (head (at_level ns i ge)) else Next ns z i) ->
  Ap ++ p :: Bp ++ x :: ge = A ++ y :: B -> (i < height ns y)%nat ->
  Next ns' y i = Some (head (at_level ns i B)).
Proof.
  intros Hnd Hsh Hlk Hp Hx HB Hnext E Hy.
  assert (y ∈ Ap ++ p :: Bp ++ x :: ge) as Hin by (rewrite E; set_solver).
  assert (forall a b, Ap ++ p :: Bp ++ x :: ge = a ++ y :: b -> b = B) as Huniq.
  { intros a b Eb. rewrite E in Eb, Hnd. by destruct (NoDup_split_unique y A B a b Hnd Eb). }
  assert (forall z, at_level ns i (p :: z) = p :: at_level ns i z) as Hatp
    by (intros z; unfold at_level; by rewrite filter_cons_True).
  apply elem_of_app in Hin as [Hin|Hin]; [|apply elem_of_cons in Hin as [->|Hin];
    [|apply elem_of_app in Hin as [Hin|Hin]; [|apply elem_of_cons in Hin as [->|Hin]]]].
  - pose proof Hin as (a & b & ->)%list_elem_of_split.
    rewrite <-app_assoc in E, Huniq, Hnd, Hlk. cbn [app] in E, Huniq, Hnd, Hlk.
    rewrite <-(Huniq a _ eq_refl), Hnext.
    assert (y <> p /\ y <> x) as [Hyp Hyx].
    { apply NoDup_app in Hnd as (_ & _ & Hnd). apply NoDup_cons in Hnd as [Hnd _]. set_solver. }
    rewrite !decide_False by done. rewrite (Hlk a y _ eq_refl Hy).
    rewrite !at_level_app, !Hatp. by destruct (at_level ns i b).
  - rewrite <-(Huniq Ap _ eq_refl), Hnext, decide_True by done.
    rewrite at_level_app, HB. unfold at_level. by rewrite filter_cons_True.
  - by destruct (at_level_nil ns i Bp y HB Hin).
  - rewrite <-(Huniq (Ap ++ p :: Bp) ge) by (by rewrite <-app_assoc). rewrite Hnext.
    rewrite decide_False; [by rewrite decide_True|].
    intros ->. apply NoDup_app in Hnd as (_ & _ & Hnd). apply NoDup_cons in Hnd as [Hnd _]. set_solver.
  - pose proof Hin as (a & b & ->)%list_elem_of_split.
    rewrite <-(Huniq (Ap ++ p :: Bp ++ x :: a) b) by (rewrite <-app_assoc; simpl; by rewrite <-app_assoc).
    rewrite Hnext, !decide_False.
    + apply (Hlk (Ap ++ p :: Bp ++ a)); [|done]. rewrite <-app_assoc. simpl. by rewrite <-app_assoc.
    + intros ->. apply NoDup_app in Hnd as (_ & _ & Hnd). apply NoDup_cons in Hnd as [_ Hnd].
      apply NoDup_app in Hnd as (_ & _ & Hnd). apply NoDup_cons in Hnd as [Hnd _]. set_solver.
    + intros ->. apply NoDup_app in Hnd as (_ & _ & Hnd). apply NoDup_cons in Hnd as [Hnd _]. set_solver.
Qed.

Lemma pred_at_same ns ns' lt i y : same_shape ns ns' -> pred_at ns lt i y -> pred_at ns' lt i y.
Proof.
  intros Hsh (A & B & E & Hh & HB). pose proof Hsh as (_ & Hheight & _). exists A, B.
  rewrite Hheight, (same_shape_at_level ns ns') by done. done.
Qed.

(** One turn of the linking loop. *)
Lemma link_step ns lt ge p x i :
  NoDup (head_ :: lt ++ x :: ge) -> linked ns i (head_ :: lt ++ ge) -> pred_at ns lt i p ->
  (i < height ns x)%nat ->
  exists ns', (nxt ← Next ns p i; ns1 ← SetNext ns x i nxt; SetNext ns1 p i (Some x)) = Some ns' /\
    same_shape ns ns' /\ linked ns' i (head_ :: lt ++ x :: ge) /\
    forall z j, j <> i -> Next ns' z j = Next ns z j.
Proof.
  intros Hnd Hlk (Ap & Bp & E & Hp & HB) Hx.
  rewrite app_comm_cons, E, <-app_assoc in Hlk. cbn [app] in Hlk.
  rewrite app_comm_cons, E, <-app_assoc in Hnd |- *. cbn [app] in Hnd |- *.
  rewrite (Hlk Ap p _ eq_refl Hp). cbn [mbind option_bind].
  rewrite at_level_app, HB. cbn [app].
  destruct (SetNext_spec ns x i (head (at_level ns i ge)) Hx) as (ns1 & -> & Hsh1 & Hn1).
  cbn [mbind option_bind]. pose proof Hsh1 as (_ & Hh1 & _).
  destruct (SetNext_spec ns1 p i (Some x)) as (ns2 & -> & Hsh2 & Hn2); [by rewrite Hh1|].
  assert (same_shape ns ns2) as Hsh by (by transitivity ns1). pose proof Hsh as (_ & Hh & _).
  exists ns2. split; [done|]. split; [done|]. split.
  - intros A y B Ey Hy. rewrite Hh in Hy. rewrite (same_shape_at_level ns ns2) by done.
    apply (relinked ns ns2 i Ap p Bp x ge A y B); try done.
    intros z. rewrite Hn2. destruct (decide (z = p)) as [->|]; [by rewrite decide_True|].
    rewrite decide_False by naive_solver. rewrite Hn1.
    destruct (decide (z = x)) as [->|]; [by rewrite decide_True|by rewrite decide_False by naive_solver].
  - intros z j Hj. rewrite Hn2, decide_False, Hn1, decide_False by naive_solver. done.
Qed.

Lemma linked_other ns ns' i hl :
  same_shape ns ns' -> (forall z, Next ns' z i = Next ns z i) -> linked ns i hl -> linked ns' i hl.
Proof.
  intros Hsh Hn Hlk A y B E Hy. pose proof Hsh as (_ & Hh & _). rewrite Hh in Hy.
  rewrite Hn, (same_shape_at_level ns ns') by done. by apply (Hlk A).
Qed.

(** The node [x] of height [h] ends up linked at all its levels. *)
Lemma link_loop_spec lt ge prev x h todo : forall ns i,
  NoDup (head_ :: lt ++ x :: ge) -> height ns x = h -> (i + todo = h)%nat ->
  (forall j, (j < h)%nat -> exists p, prev !! j = Some p /\ pred_at ns lt j p) ->
  (forall j, (j < i)%nat -> linked ns j (head_ :: lt ++ x :: ge)) ->
  (forall j, (i <= j < kMaxHeight)%nat -> linked ns j (head_ :: lt ++ ge)) -> (h <= kMaxHeight)%nat ->
  exists ns', link_loop ns prev x i todo = Some ns' /\ same_shape ns ns' /\
    (forall j, (j < h)%nat -> linked ns' j (head_ :: lt ++ x :: ge)) /\
    (forall j, (h <= j < kMaxHeight)%nat -> linked ns' j (head_ :: lt ++ ge)).
Proof.
  induction todo as [|todo IH]; intros ns i Hnd Hh Hi Hprev Hlo Hhi Hmax; cbn [link_loop].
  - exists ns. split_and!; [done|done|intros j ?; apply Hlo; lia|intros j ?; apply Hhi; lia].
  - destruct (Hprev i ltac:(lia)) as (p & -> & Hp). cbn [mbind option_bind].
    destruct (link_step ns lt ge p x i Hnd) as (ns1 & E & Hsh & Hlk & Hother);
      [apply Hhi; lia|done|lia|].
    destruct (Next ns p i) as [nxt|]; [|done]. cbn [mbind option_bind] in E |- *.
    destruct (SetNext ns x i nxt) as [ns0|]; [|done]. cbn [mbind option_bind] in E |- *.
    rewrite E. cbn [mbind option_bind]. pose proof Hsh as (_ & Hheight & _).
    destruct (IH ns1 (S i)) as (ns' & E' & Hsh' & H1 & H2); [done|by rewrite Hheight|lia| | | |done|].
    + intros j Hj. destruct (Hprev j Hj) as (q & Hq & Hpq). exists q. split; [done|].
      by eapply pred_at_same.
    + intros j Hj. destruct (decide (j = i)) as [->|]; [done|].
      apply (linked_other ns); [done|intros z; by apply Hother|apply Hlo; lia].
    + intros j Hj. apply (linked_other ns); [done|intros z; apply Hother; lia|apply Hhi; lia].
    + exists ns'. split_and!; [done|by transitivity ns1|done|done].
Qed.
End insert.

Lemma RandomHeight_loop_spec fuel : forall h rnd,
  (1 <= h <= kMaxHeight)%nat -> (1 <= (RandomHeight_loop fuel h rnd).1 <= kMaxHeight)%nat.
Proof.
  induction fuel as [|fuel IH]; intros h rnd Hh; cbn [RandomHeight_loop]; [done|].
  case_decide; [|done]. destruct (_ =? 0); [|done]. apply IH. lia.
Qed.

Lemma RandomHeight_spec rnd : exists h rnd', RandomHeight rnd = Some (h, rnd') /\ (1 <= h <= kMaxHeight)%nat.
Proof.
  pose proof (RandomHeight_loop_spec kMaxHeight 1 rnd ltac:(unfold kMaxHeight; lia)) as Hh. unfold RandomHeight.
  destruct (RandomHeight_loop kMaxHeight 1 rnd) as [h rnd']. simpl in Hh. rewrite !bool_decide_eq_true_2 by lia. by exists h, rnd'.
Qed.

Lemma raise_prev_spec n : forall prev from i,
  foldl (fun prev i => <[i := head_]> prev) prev (seq from n) !! i =
  if decide (from <= i < from + n)%nat then (if decide (i < length prev)%nat then Some head_ else None)
  else prev !! i.
Proof.
  induction n as [|n IH]; intros prev from i; cbn [seq foldl].
  - by rewrite decide_False by lia.
  - rewrite IH, length_insert. destruct (decide (i = from)) as [->|].
    + rewrite decide_False, decide_True by lia. case_decide; [by apply list_lookup_insert_eq|].
      apply lookup_ge_None. rewrite length_insert. lia.
    + rewrite list_lookup_insert_ne by done. repeat case_decide; (done || lia).
Qed.

Section grow.
Context {Key : Type} (key0 : Key) (ns : list (Node Key)) (nd : Node Key).

Lemma height_grow z : (z < length ns)%nat -> height (ns ++ [nd]) z = height ns z.
Proof. intros. unfold height. by rewrite lookup_app_l. Qed.
Lemma height_new : height (ns ++ [nd]) (length ns) = length (next_ nd).
Proof. unfold height. by rewrite lookup_app_r, Nat.sub_diag by lia. Qed.
Lemma key_at_grow z : (z < length ns)%nat -> key_at key0 (ns ++ [nd]) z = key_at key0 ns z.
Proof. intros. unfold key_at. by rewrite lookup_app_l. Qed.
Lemma key_at_new : key_at key0 (ns ++ [nd]) (length ns) = key nd.
Proof. unfold key_at. by rewrite lookup_app_r, Nat.sub_diag by lia. Qed.

Lemma at_level_grow i l :
  Forall (fun z => (z < length ns)%nat) l -> at_level (ns ++ [nd]) i l = at_level ns i l.
Proof.
  induction 1 as [|z l Hz _ IH]; [done|]. unfold at_level in *. rewrite !filter_cons, height_grow by done.
  by rewrite IH.
Qed.

Lemma linked_grow i hl :
  Forall (fun z => (z < length ns)%nat) hl -> linked ns i hl -> linked (ns ++ [nd]) i hl.
Proof.
  intros Hall Hlk A x B -> Hx. apply Forall_app in Hall as [_ [Hxl HB]%Forall_cons].
  rewrite height_grow in Hx by done. rewrite at_level_grow by done. unfold Next in *.
  rewrite lookup_app_l by done. by apply (Hlk A).
Qed.

Lemma pred_at_grow lt i y :
  Forall (fun z => (z < length ns)%nat) (head_ :: lt) -> pred_at ns lt i y -> pred_at (ns ++ [nd]) lt i y.
Proof.
  intros Hall (A & B & E & Hy & HB). rewrite E in Hall.
  apply Forall_app in Hall as [_ [Hyl HBl]%Forall_cons].
  exists A, B. by rewrite height_grow, at_level_grow.
Qed.
End grow.

(** A node that does not reach level [i] is invisible there. *)
Lemma linked_skip {Key} (ns : list (Node Key)) i lt x ge :
  ~ (i < height ns x)%nat -> NoDup (head_ :: lt ++ x :: ge) ->
  linked ns i (head_ :: lt ++ ge) -> linked ns i (head_ :: lt ++ x :: ge).
Proof.
  intros Hx Hnd Hlk A y B E Hy.
  assert (y ∈ (head_ :: lt) ++ x :: ge) as Hin by (simpl; rewrite E; set_solver).
  rewrite app_comm_cons in E, Hnd, Hlk.
  apply elem_of_app in Hin as [Hin|[->|Hin]%elem_of_cons]; [|done|].
  - apply list_elem_of_split in Hin as (a & b & Eb). rewrite Eb, <-app_assoc in E, Hnd, Hlk.
    simpl in E, Hnd, Hlk. destruct (NoDup_split_unique y _ _ A B Hnd E) as [_ <-].
    rewrite (Hlk a y _ eq_refl Hy). rewrite !at_level_app. unfold at_level at 4.
    by rewrite filter_cons_False.
  - apply list_elem_of_split in Hin as (a & b & ->).
    rewrite app_comm_cons, app_assoc in E, Hnd.
    destruct (NoDup_split_unique y _ _ A B Hnd E) as [_ <-].
    apply (Hlk ((head_ :: lt) ++ a)); [|done]. by rewrite <-app_assoc.
Qed.

Section insert_spec.
Context {Key : Type} {compare : Key -> Key -> option Z} {valid : Key -> Prop}.
Context {cmp : Key -> Key -> Z} `{!KeyOrder compare valid cmp} (key0 : Key).
Implicit Types (sl : SkipList Key) (L : list nat).
Notation inv := (inv valid cmp key0).
Notation key_at := (key_at key0).

Lemma inv_range sl L : inv sl L -> Forall (fun z => (z < length (nodes sl))%nat) (head_ :: L).
Proof.
  intros Hinv. assert (forall z, (0 < height (nodes sl) z)%nat -> (z < length (nodes sl))%nat) as Hr.
  { intros z Hz. destruct (height_lookup _ _ Hz) as (nd & E & _). by eapply lookup_lt_Some. }
  constructor; [apply Hr; rewrite (inv_head _ _ _ _ _ Hinv); unfold kMaxHeight; lia|].
  eapply Forall_impl; [exact (inv_heights _ _ _ _ _ Hinv)|]. intros z Hz. apply Hr. simpl in Hz. lia.
Qed.

Lemma pred_at_head sl lt ge i :
  inv sl (lt ++ ge) -> (max_height_ sl <= i < kMaxHeight)%nat -> pred_at (nodes sl) lt i head_.
Proof.
  intros Hinv Hi. exists [], lt. split; [done|]. rewrite (inv_head _ _ _ _ _ Hinv). split; [lia|].
  pose proof (inv_heights _ _ _ _ _ Hinv) as Hh. apply Forall_app in Hh as [Hh _]. unfold at_level.
  clear Hinv. induction Hh as [|z lt Hz _ IH]; [done|]. simpl in Hz. rewrite filter_cons_False by lia. done.
Qed.

(** The array [prev] when linking starts. *)
Lemma prev_ready sl lt ge p (h : nat) :
  inv sl (lt ++ ge) -> length p = kMaxHeight -> (h <= kMaxHeight)%nat ->
  (forall i, (i < max_height_ sl)%nat -> exists y, p !! i = Some y /\ pred_at (nodes sl) lt i y) ->
  forall j, (j < h)%nat -> exists y,
    (if decide (max_height_ sl < h)%nat then raise_prev p (max_height_ sl) h else p) !! j = Some y /\
    pred_at (nodes sl) lt j y.
Proof.
  intros Hinv Hlen Hh Hp j Hj. case_decide; [|apply Hp; lia].
  unfold raise_prev. rewrite raise_prev_spec. case_decide as Hji; [|apply Hp; lia].
  rewrite decide_True by lia. exists head_. split; [done|]. apply (pred_at_head _ _ ge); [done|lia].
Qed.

Lemma sorted_insert (f : nat -> Key) lt x ge :
  StronglySorted (fun a b => cmp (f a) (f b) < 0) (lt ++ ge) ->
  Forall (fun a => cmp (f a) (f x) < 0) lt -> Forall (fun a => cmp (f x) (f a) < 0) ge ->
  Forall (fun a => valid (f a)) (lt ++ x :: ge) ->
  StronglySorted (fun a b => cmp (f a) (f b) < 0) (lt ++ x :: ge).
Proof.
  induction lt as [|a lt IH]; simpl; intros Hs Hlt Hge Hv.
  - by constructor.
  - apply StronglySorted_inv in Hs as [Hs Ha]. apply Forall_cons in Hlt as [Hax Hlt].
    apply Forall_cons in Hv as [_ Hv]. constructor; [by apply IH|].
    apply Forall_app in Ha as [Ha1 Ha2]. apply Forall_app. split; [done|]. by constructor.
Qed.

(** The invariant of the list with the new node, from what linking gives. *)
Lemma insert_result sl lt ge k uninit ns' h rnd x :
  inv sl (lt ++ ge) -> valid k -> x = length (nodes sl) -> (1 <= h <= kMaxHeight)%nat ->
  Forall (fun x => cmp (key_at (nodes sl) x) k < 0) lt ->
  Forall (fun x => cmp k (key_at (nodes sl) x) < 0) ge ->
  NoDup (head_ :: lt ++ x :: ge) ->
  same_shape key0 (nodes sl ++ [Build_Node k (replicate h uninit)]) ns' ->
  (forall j, (j < h)%nat -> linked ns' j (head_ :: lt ++ x :: ge)) ->
  (forall j, (h <= j < kMaxHeight)%nat -> linked ns' j (head_ :: lt ++ ge)) ->
  let sl' := Build_SkipList ns' (Nat.max (max_height_ sl) h) rnd in
  inv sl' (lt ++ x :: ge) /\
  elements key0 sl' (lt ++ x :: ge) = elements key0 sl lt ++ k :: elements key0 sl ge.
Proof.
  intros Hinv Hk -> Hh Hlt Hgt Hnd (Hlen & Hheight & Hkey) Hlo Hhi sl'.
  set (nd := Build_Node k (replicate h uninit)) in *. set (ns := nodes sl) in *.
  pose proof (inv_range _ _ Hinv) as Hrange. apply Forall_cons in Hrange as [H0 Hrange].
  assert (height ns' (length ns) = h) as Hhx
    by (rewrite Hheight, height_new; apply length_replicate).
  assert (key_at ns' (length ns) = k) as Hkx by (rewrite Hkey; apply key_at_new).
  assert (Forall (fun z => height ns' z = height ns z /\ key_at ns' z = key_at ns z) (lt ++ ge)) as Hold.
  { eapply Forall_impl; [exact Hrange|]. intros z Hz. rewrite Hheight, Hkey.
    by rewrite height_grow, key_at_grow. }
  assert (forall Q : nat -> Prop, Q (length ns) -> Forall Q (lt ++ ge) ->
    Forall Q (lt ++ length ns :: ge)) as Hmid.
  { intros Q HQ. rewrite !Forall_app, Forall_cons. tauto. }
  assert (forall l, (forall z, z ∈ l -> z ∈ lt ++ ge) -> elements key0 sl' l = elements key0 sl l) as Hel.
  { intros l Hl. apply list_fmap_ext. intros i z Hz%list_elem_of_lookup_2.
    rewrite Forall_forall in Hold. apply (Hold z (Hl z Hz)). }
  assert (Forall (fun z => valid (key_at ns' z)) (lt ++ length ns :: ge)) as Hvalid.
  { apply Hmid; [by rewrite Hkx|]. pose proof (inv_valid _ _ _ _ _ Hinv) as Hv.
    rewrite Forall_forall in *. intros z Hz. destruct (Hold z Hz) as [_ ->]. by apply Hv. }
  split; [split|].
  - simpl. rewrite Hheight, height_grow by done. apply (inv_head _ _ _ _ _ Hinv).
  - simpl. pose proof (inv_max _ _ _ _ _ Hinv). lia.
  - done.
  - apply Hmid; [simpl; lia|]. pose proof (inv_heights _ _ _ _ _ Hinv) as Hhs.
    rewrite Forall_forall in *. intros z Hz. simpl. destruct (Hold z Hz) as [-> _].
    specialize (Hhs z Hz). fold ns in Hhs. lia.
  - intros i Hi. simpl. destruct (decide (i < h)%nat); [by apply Hlo|].
    apply linked_skip; [by rewrite Hhx|done|apply Hhi; lia].
  - done.
  - simpl. rewrite Forall_forall in Hlt, Hgt, Hold. apply sorted_insert.
    + eapply StronglySorted_impl_in; [|exact (inv_sorted _ _ _ _ _ Hinv)].
      intros y z Hy Hz. simpl. destruct (Hold y Hy) as [_ ->], (Hold z Hz) as [_ ->]. done.
    + apply Forall_forall. intros y Hy. rewrite Hkx. destruct (Hold y) as [_ ->]; [set_solver|auto].
    + apply Forall_forall. intros y Hy. rewrite Hkx. destruct (Hold y) as [_ ->]; [set_solver|auto].
    + done.
  - simpl. rewrite Hlen, !length_app. pose proof (inv_size _ _ _ _ _ Hinv) as Hsz.
    rewrite length_app in Hsz. fold ns in Hsz. simpl. lia.
  - unfold elements at 1. rewrite fmap_app. simpl. rewrite Hkx.
    f_equal; [|f_equal]; apply Hel; set_solver.
Qed.

Lemma Insert_spec uninit stack sl lt ge k :
  inv sl (lt ++ ge) -> valid k ->
  Forall (fun x => cmp (key_at (nodes sl) x) k < 0) lt ->
  Forall (fun x => cmp k (key_at (nodes sl) x) < 0) ge ->
  exists sl' x, Insert compare uninit stack sl k = Some sl' /\ inv sl' (lt ++ x :: ge) /\
    elements key0 sl' (lt ++ x :: ge) = elements key0 sl lt ++ k :: elements key0 sl ge.
Proof.
  intros Hinv Hk Hlt Hgt. set (ns := nodes sl). set (x := length ns).
  pose proof (inv_range _ _ Hinv) as Hrange. pose proof (inv_valid _ _ _ _ _ Hinv) as Hv.
  assert (Forall (fun x => ~ cmp (key_at ns x) k < 0) ge) as Hge.
  { apply Forall_app in Hv as [_ Hv]. rewrite Forall_forall in *. intros y Hy Hlty.
    apply (cmp_antisym _ _ (Hv y Hy) Hk) in Hlty. specialize (Hgt y Hy). fold ns in Hgt, Hlty. lia. }
  destruct (FindGreaterOrEqual_spec key0 sl lt ge k (Some (stack <$> seq 0 kMaxHeight)) Hinv Hk Hlt Hge)
    as (prev' & E & Hprev); [by intros ? [= <-]|].
  destruct (Hprev _ eq_refl) as (p & -> & Hplen & Hp). unfold Insert. rewrite E. cbn [mbind option_bind].
  assert (EqualsNode compare (nodes sl) k (head ge) = Some false) as ->.
  { destruct ge as [|y ge]; [done|]. cbn [head EqualsNode]. fold ns. destruct (height_lookup ns y) as (nd & Ey & _).
    { pose proof (inv_heights _ _ _ _ _ Hinv) as Hh. rewrite Forall_forall in Hh. specialize (Hh y ltac:(set_solver)). simpl in Hh. unfold ns. lia. }
    rewrite Ey. cbn [mbind option_bind]. apply Forall_app in Hv as [_ Hv]. apply Forall_cons in Hv as [Hv _]. apply Forall_cons in Hgt as [Hgt _].
    assert (key_at ns y = key nd) as E' by (unfold key_at; by rewrite Ey). fold ns in Hv, Hgt. rewrite E' in Hv, Hgt.
    rewrite compare_cmp by done. cbn [mbind option_bind]. f_equal. apply Z.eqb_neq. lia. }
  cbn [passert negb mbind option_bind].
  destruct (RandomHeight_spec (rnd_ sl)) as (h & rnd' & -> & Hh). cbn [mbind option_bind].
  pose proof (prev_ready sl lt ge p h Hinv Hplen (proj2 Hh) Hp) as Hready.
  set (pm := if decide _ then _ else _).
  replace pm with (if decide (max_height_ sl < h)%nat then raise_prev p (max_height_ sl) h else p,
                   Nat.max (max_height_ sl) h) by (subst pm; case_decide; f_equal; lia).
  cbn [NewNode]. clear pm. fold ns x. fold ns in Hrange, Hready.
  set (nd := Build_Node k (replicate h uninit)).
  assert (NoDup (head_ :: lt ++ x :: ge)) as Hnd.
  { assert (x ∉ head_ :: lt ++ ge) as Hx.
    { intros Hx. rewrite Forall_forall in Hrange. specialize (Hrange x Hx). simpl in Hrange. subst x. lia. }
    pose proof (inv_nodup _ _ _ _ _ Hinv) as H. rewrite app_comm_cons in H, Hx |- *.
    rewrite <-Permutation_middle. by constructor. }
  destruct (link_loop_spec key0 lt ge
    (if decide (max_height_ sl < h)%nat then raise_prev p (max_height_ sl) h else p) x h h (ns ++ [nd]) 0)
    as (ns' & E' & Hsh & Hlo & Hhi); [done|..].
  { unfold x. rewrite height_new. apply length_replicate. }
  { lia. }
  { intros j Hj. destruct (Hready j Hj) as (y & Hy & Hpy). exists y. split; [done|].
    apply pred_at_grow; [|done]. rewrite app_comm_cons in Hrange. by apply Forall_app in Hrange as [? _]. }
  { intros j Hj. lia. }
  { intros j Hj. apply linked_grow; [done|]. apply (inv_links _ _ _ _ _ Hinv). lia. }
  { lia. }
  rewrite E'. cbn [mbind option_bind]. eexists _, x. split; [done|].
  by eapply insert_result.
Qed.

(** ** What clients see: a sorted list of keys *)
Definition represents sl (ks : list Key) : Prop :=
  exists L, inv sl L /\ elements key0 sl L = ks.

Lemma clear_head_spec (ns : list (Node Key)) n :
  (n <= height ns head_)%nat -> exists ns', clear_head ns n = Some ns' /\
    (forall z, height ns' z = height ns z) /\ length ns' = length ns /\
    forall i, (i < n)%nat -> Next ns' head_ i = Some None.
Proof.
  induction n as [|n IH]; intros Hn; cbn [clear_head]; [exists ns; split_and!; [done..|lia]|].
  destruct IH as (ns1 & -> & Hh & Hl & Hn1); [lia|]. cbn [mbind option_bind].
  destruct (SetNext_spec key0 ns1 head_ n None) as (ns2 & -> & (Hl2 & Hh2 & _) & Hn2); [rewrite Hh; lia|].
  exists ns2. split_and!; [done|congruence|congruence|].
  intros i Hi. rewrite Hn2. case_decide; [done|]. apply Hn1. lia.
Qed.

Lemma new_SkipList_spec uninit : exists sl, new_SkipList key0 uninit = Some sl /\ represents sl [].
Proof.
  unfold new_SkipList, NewNode. cbn [app].
  destruct (clear_head_spec [Build_Node key0 (replicate kMaxHeight uninit)] kMaxHeight)
    as (ns & -> & Hh & Hl & Hn); [done|].
  eexists. split; [done|]. exists []. split; [|done]. split; cbn [nodes max_height_]; try done.
  - unfold kMaxHeight. lia.
  - apply NoDup_singleton.
  - intros i Hi A x B E Hx. destruct A as [|? [|]]; simplify_eq/=. by apply Hn.
  - constructor.
Qed.

Lemma elements_Forall sl L (P : Key -> Prop) :
  Forall P (elements key0 sl L) <-> Forall (fun x => P (key_at (nodes sl) x)) L.
Proof. apply Forall_fmap. Qed.

Lemma represents_sorted sl ks :
  represents sl ks -> StronglySorted (fun a b => cmp a b < 0) ks /\ Forall valid ks.
Proof.
  intros (L & Hinv & <-). split.
  - pose proof (inv_sorted _ _ _ _ _ Hinv) as Hs. clear Hinv. unfold elements.
    induction Hs as [|x L Hs IH Hx]; simpl; constructor; [done|]. by apply elements_Forall.
  - apply elements_Forall. apply (inv_valid _ _ _ _ _ Hinv).
Qed.

Lemma represents_insert uninit stack sl ks k :
  represents sl ks -> valid k -> Forall (fun x => cmp x k <> 0) ks ->
  exists sl' ks1 ks2, Insert compare uninit stack sl k = Some sl' /\ ks = ks1 ++ ks2 /\
    Forall (fun x => cmp x k < 0) ks1 /\ Forall (fun x => cmp k x < 0) ks2 /\
    represents sl' (ks1 ++ k :: ks2).
Proof.
  intros (L & Hinv & <-) Hk Hne.
  destruct (split_key key0 sl L k Hinv Hk) as (lt & ge & -> & Hlt & Hge).
  assert (Forall (fun x => cmp k (key_at (nodes sl) x) < 0) ge) as Hgt.
  { apply elements_Forall in Hne. pose proof (inv_valid _ _ _ _ _ Hinv) as Hv.
    apply Forall_app in Hv as [_ Hv]. apply Forall_app in Hne as [_ Hne].
    rewrite Forall_forall in *. intros y Hy. apply (cmp_antisym _ _ Hk (Hv y Hy)).
    specialize (Hge y Hy). specialize (Hne y Hy). simpl in *. lia. }
  destruct (Insert_spec uninit stack sl lt ge k Hinv Hk Hlt Hgt) as (sl' & x & E & Hinv' & Hel).
  exists sl', (elements key0 sl lt), (elements key0 sl ge). split; [done|].
  split; [apply fmap_app|]. rewrite !elements_Forall. split_and!; [done|done|]. by exists (lt ++ x :: ge).
Qed.

Lemma Seek_spec sl lt ge k :
  inv sl (lt ++ ge) -> valid k ->
  Forall (fun x => cmp (key_at (nodes sl) x) k < 0) lt ->
  Forall (fun x => ~ cmp (key_at (nodes sl) x) k < 0) ge -> iter_Seek compare sl k = Some (head ge).
Proof.
  intros Hinv Hk Hlt Hge. unfold iter_Seek.
  destruct (FindGreaterOrEqual_spec key0 sl lt ge k None Hinv Hk Hlt Hge) as (p & -> & _); done.
Qed.

Lemma iter_key_spec sl L x :
  inv sl L -> x ∈ L -> iter_key sl (Some x) = Some (key_at (nodes sl) x).
Proof.
  intros Hinv Hx. pose proof (inv_heights _ _ _ _ _ Hinv) as Hh. rewrite Forall_forall in Hh.
  specialize (Hh x Hx). destruct (height_lookup (nodes sl) x) as (nd & E & _); [lia|].
  unfold iter_key, key_at. cbn [mbind option_bind]. by rewrite E.
Qed.

(** Where [Seek] stops, in terms of the keys. *)
Lemma represents_seek sl ks k :
  represents sl ks -> valid k -> exists ks1 ks2 node, ks = ks1 ++ ks2 /\
    Forall (fun x => cmp x k < 0) ks1 /\ Forall (fun x => ~ cmp x k < 0) ks2 /\
    iter_Seek compare sl k = Some node /\
    match ks2 with
    | [] => iter_Valid node = false
    | y :: _ => iter_Valid node = true /\ iter_key sl node = Some y
    end.
Proof.
  intros (L & Hinv & <-) Hk. destruct (split_key key0 sl L k Hinv Hk) as (lt & ge & -> & Hlt & Hge).
  exists (elements key0 sl lt), (elements key0 sl ge), (head ge). rewrite !elements_Forall.
  split; [apply fmap_app|]. split_and!; [done|done|by apply (Seek_spec sl lt ge)|].
  destruct ge as [|y ge]; [done|]. simpl. split; [done|].
  apply (iter_key_spec sl (lt ++ y :: ge)); [done|set_solver].
Qed.

Lemma cmp_eq_sym a b : valid a -> valid b -> cmp a b = 0 -> cmp b a = 0.
Proof.
  intros Ha Hb E. pose proof (cmp_antisym a b Ha Hb). pose proof (cmp_antisym b a Hb Ha). lia.
Qed.

Lemma existsb_lt k ks :
  valid k -> Forall valid ks -> Forall (fun x => cmp x k < 0) ks ->
  existsb (fun x => cmp k x =? 0) ks = false.
Proof.
  intros Hk Hv. induction Hv as [|x ks Hx _ IH]; [done|]. intros [Hlt Hall]%Forall_cons. simpl.
  apply (cmp_antisym x k Hx Hk) in Hlt. rewrite (proj2 (Z.eqb_neq _ _)) by lia. by apply IH.
Qed.

Lemma existsb_ge k ks :
  valid k -> Forall valid ks -> StronglySorted (fun a b => cmp a b < 0) ks ->
  Forall (fun x => ~ cmp x k < 0) ks ->
  existsb (fun x => cmp k x =? 0) ks = match ks with [] => false | y :: _ => cmp k y =? 0 end.
Proof.
  intros Hk Hv Hs Hge. destruct Hs as [|y ks Hs Hy]; [done|]. simpl.
  destruct (cmp k y =? 0); [done|]. simpl. apply not_true_is_false.
  intros (z & Hz & Heq%Z.eqb_eq)%existsb_exists. apply list_elem_of_In in Hz.
  rewrite !Forall_cons, !Forall_forall in *. destruct Hv as [Hvy Hv], Hge as [Hyk _]. apply Hyk.
  apply (cmp_equal y z k); [done|auto..|]. by apply cmp_eq_sym; auto.
Qed.

Lemma represents_contains sl ks k :
  represents sl ks -> valid k -> Contains compare sl k = Some (existsb (fun x => cmp k x =? 0) ks).
Proof.
  intros Hrep Hk. destruct (represents_sorted sl ks Hrep) as [Hs Hv]. destruct Hrep as (L & Hinv & <-).
  destruct (split_key key0 sl L k Hinv Hk) as (lt & ge & -> & Hlt & Hge). unfold Contains.
  destruct (FindGreaterOrEqual_spec key0 sl lt ge k None Hinv Hk Hlt Hge) as (p & -> & _); [done|].
  cbn [mbind option_bind].
  apply (elements_Forall sl lt (fun a => cmp a k < 0)) in Hlt.
  apply (elements_Forall sl ge (fun a => ~ cmp a k < 0)) in Hge.
  unfold elements in *. rewrite fmap_app, existsb_app in *.
  apply StronglySorted_app in Hs as (_ & _ & Hs). apply Forall_app in Hv as [Hv1 Hv2].
  rewrite existsb_lt, existsb_ge by done. cbn [orb]. destruct ge as [|y ge]; [done|]. cbn [head fmap list_fmap].
  destruct (height_lookup (nodes sl) y) as (nd & E & _).
  { pose proof (inv_heights _ _ _ _ _ Hinv) as Hh. rewrite Forall_forall in Hh.
    specialize (Hh y ltac:(set_solver)). simpl in Hh. lia. }
  assert (key_at (nodes sl) y = key nd) as Ey by (unfold key_at; by rewrite E).
  cbn [EqualsNode]. rewrite E. cbn [mbind option_bind]. apply Forall_cons in Hv2 as [Hvy _].
  rewrite Ey in *. by rewrite compare_cmp by done.
Qed.

(** ** Iterators: the position [i] in the list *)
Lemma head_lookup0 {A} (l : list A) : head l = l !! 0%nat.
Proof. by destruct l. Qed.

Lemma linked_level0 sl L A x B :
  inv sl L -> head_ :: L = A ++ x :: B -> Next (nodes sl) x 0 = Some (head B).
Proof.
  intros Hinv E.
  assert (0 < height (nodes sl) x)%nat as Hx.
  { pose proof (inv_head _ _ _ _ _ Hinv) as H0. pose proof (inv_heights _ _ _ _ _ Hinv) as Hh.
    rewrite Forall_forall in Hh. assert (x ∈ head_ :: L) as [->|Hx]%elem_of_cons by (rewrite E; set_solver).
    - rewrite H0. unfold kMaxHeight. lia.
    - specialize (Hh x Hx). simpl in Hh. lia. }
  rewrite (inv_links _ _ _ _ _ Hinv 0 ltac:(unfold kMaxHeight; lia) A x B E Hx).
  rewrite <-(app_nil_r L) in Hinv. rewrite (at_level_0 key0 Hinv); [done|].
  intros y Hy. rewrite app_nil_r. destruct A as [|? A]; simplify_eq/=; set_solver.
Qed.

Lemma SeekToFirst_spec sl L : inv sl L -> iter_SeekToFirst sl = Some (L !! 0%nat).
Proof. intros Hinv. rewrite <-head_lookup0. by apply (linked_level0 sl L []). Qed.

Lemma SeekToLast_spec sl L : inv sl L -> iter_SeekToLast sl = Some (last L).
Proof.
  intros Hinv. unfold iter_SeekToLast. rewrite (FindLast_spec key0 sl L Hinv).
  destruct L as [|x L] using rev_ind; [done|].
  rewrite app_comm_cons, !last_snoc. cbn [mbind option_bind].
  pose proof (inv_nodup _ _ _ _ _ Hinv) as Hnd. apply NoDup_cons in Hnd as [Hnd _].
  rewrite decide_False; [done|]. intros ->. apply Hnd. set_solver.
Qed.

Lemma iter_Next_spec sl L i x :
  inv sl L -> L !! i = Some x -> iter_Next sl (Some x) = Some (L !! S i).
Proof.
  intros Hinv Hi. unfold iter_Next. cbn [mbind option_bind].
  rewrite (linked_level0 sl L (head_ :: take i L) x (drop (S i) L) Hinv).
  - by rewrite head_lookup0, lookup_drop, Nat.add_0_r.
  - simpl. by rewrite take_drop_middle.
Qed.

Lemma iter_Prev_spec sl L i x :
  inv sl L -> L !! i = Some x ->
  iter_Prev compare sl (Some x) = Some (match i with O => None | S j => L !! j end).
Proof.
  intros Hinv Hi. pose proof (inv_sorted _ _ _ _ _ Hinv) as Hs. pose proof (inv_valid _ _ _ _ _ Hinv) as Hv.
  pose proof (inv_nodup _ _ _ _ _ Hinv) as Hnd.
  unfold iter_Prev. rewrite (iter_key_spec sl L) by (done || by eapply list_elem_of_lookup_2).
  cbn [mbind option_bind]. rewrite <-(take_drop_middle L i x Hi) in Hs, Hv.
  apply StronglySorted_app in Hs as (Hlt & _ & Hs). apply StronglySorted_inv in Hs as [_ Hgt].
  apply Forall_app in Hv as [_ [Hvx Hv]%Forall_cons]. rewrite Forall_forall in Hv, Hgt.
  rewrite (FindLessThan_spec key0 sl (take i L) (x :: drop (S i) L)).
  - cbn [mbind option_bind]. destruct i as [|j]; [done|].
    destruct (lookup_lt_is_Some_2 L j) as [y Hy]; [apply lookup_lt_Some in Hi; lia|].
    rewrite (take_S_r _ _ _ Hy), app_comm_cons, last_snoc, Hy. cbn [mbind option_bind].
    apply NoDup_cons in Hnd as [Hnd _]. rewrite decide_False; [done|]. intros ->.
    apply Hnd. by eapply list_elem_of_lookup_2.
  - by rewrite take_drop_middle.
  - done.
  - apply Forall_forall. intros y Hy. apply Hlt; [done|by left].
  - apply Forall_cons. pose proof (cmp_antisym _ _ Hvx Hvx). split; [lia|].
    apply Forall_forall. intros y Hy Hc. specialize (Hgt y Hy). simpl in Hgt.
    apply (cmp_antisym _ _ Hvx (Hv y Hy)) in Hgt. lia.
Qed.

(** Inserting several keys, in the order given. *)
Fixpoint insert_all uninit stack sl (ks : list Key) : option (SkipList Key) :=
  match ks with
  | [] => Some sl
  | k :: ks => sl ← Insert compare uninit stack sl k; insert_all uninit stack sl ks
  end.

Lemma insert_all_spec uninit stack ks : forall sl ks0,
  represents sl ks0 -> Forall valid ks -> ForallOrdPairs (fun a b => cmp a b <> 0) ks ->
  Forall (fun k => Forall (fun x => cmp x k <> 0) ks0) ks ->
  exists sl' ks', insert_all uninit stack sl ks = Some sl' /\ represents sl' ks' /\ ks' ≡ₚ ks0 ++ ks.
Proof.
  induction ks as [|k ks IH]; intros sl ks0 Hrep Hv Hd Hne; cbn [insert_all].
  - exists sl, ks0. by rewrite app_nil_r.
  - apply Forall_cons in Hv as [Hk Hv]. apply Forall_cons in Hne as [Hk0 Hne].
    inversion_clear Hd as [|? ? Hkd Hd'].
    destruct (represents_insert uninit stack sl ks0 k Hrep Hk Hk0)
      as (sl1 & ks1 & ks2 & -> & -> & _ & _ & Hrep1). cbn [mbind option_bind].
    destruct (IH sl1 (ks1 ++ k :: ks2) Hrep1 Hv Hd') as (sl' & ks' & E & Hrep' & HP).
    { rewrite !Forall_forall in *. intros y Hy. specialize (Hne y Hy). specialize (Hkd y Hy).
      rewrite Forall_app in *. rewrite Forall_cons. tauto. }
    exists sl', ks'. split_and!; [done|done|]. rewrite HP. solve_Permutation.
Qed.

Lemma existsb_Permutation (f : Key -> bool) l l' : l ≡ₚ l' -> existsb f l = existsb f l'.
Proof.
  induction 1 as [|x l l' _ IH|x y l|l l' l'' _ IH1 _ IH2]; simpl; [done| | |congruence].
  - by rewrite IH.
  - destruct (f x), (f y); done.
Qed.
End insert_spec.

Lemma land_M x : Z.land x 2147483647 = x mod 2147483648.
Proof. change 2147483647 with (Z.ones 31). by rewrite Z.land_ones by lia. Qed.

Lemma Random_range s : 0 < Random s < 2147483647.
Proof.
  unfold Random. rewrite land_M. pose proof (Z.mod_pos_bound s 2147483648 eq_refl) as H.
  destruct (Z.eqb_spec (s mod 2147483648) 0), (Z.eqb_spec (s mod 2147483648) 2147483647); simpl; lia.
Qed.

Lemma Random_Next_spec seed :
  0 < seed < 2147483647 ->
  Random_Next seed = (seed * 16807) mod 2147483647 /\ 0 < Random_Next seed < 2147483647.
Proof.
  intros Hs. unfold Random_Next, wrap.
  rewrite (Z.mod_small (seed * 16807)) by lia.
  rewrite land_M, Z.shiftr_div_pow2 by lia.
  set (p := seed * 16807). assert (0 < p < 16807 * 2147483647) as Hp by lia.
  change (2 ^ 31) with 2147483648. change (2 ^ 32) with 4294967296.
  set (q := p / 2147483648). set (r := p mod 2147483648).
  assert (p = 2147483648 * q + r /\ 0 <= r < 2147483648 /\ 0 <= q < 16807) as (Hpq & Hr & Hq) by (subst q r; zdiv_lia).
  rewrite (Z.mod_small (q + r)) by lia.
  assert (q + r <> 0 /\ q + r <> 2147483647 /\ q + r <> 2 * 2147483647) as (Hn0 & Hn1 & Hn2).
  { split_and!; [lia| |lia]. intros E. assert (2147483647 | 16807 * seed) as Hdiv.
    { exists (q + 1). lia. }
    apply Z.gauss in Hdiv; [|reflexivity]. apply Z.divide_pos_le in Hdiv; lia. }
  assert (p mod 2147483647 = (q + r) mod 2147483647) as ->.
  { rewrite Hpq. replace (2147483648 * q + r) with (q + r + q * 2147483647) by lia. apply Z_mod_plus_full. }
  destruct (Z.ltb_spec 2147483647 (q + r)).
  - split; [|lia]. apply (Z.mod_unique_pos _ _ 1); lia.
  - split; [|lia]. symmetry. apply Z.mod_small. lia.
Qed.

(** ** Properties *)

(** C17 (skiplist_insert_correct) inserting any sequence of valid, pairwise
    different keys into a new list succeeds for every choice of heights the
    generator makes; the list then holds exactly those keys, in order, and
    [Contains] answers for every valid key whether one of them is equal to it. *)
Theorem skiplist_insert_correct {Key} (compare : Key -> Key -> option Z) valid cmp
    `{!KeyOrder compare valid cmp} key0 uninit stack ks :
  Forall valid ks -> ForallOrdPairs (fun a b => cmp a b <> 0) ks ->
  exists sl0 sl ks', new_SkipList key0 uninit = Some sl0 /\
    insert_all (compare := compare) uninit stack sl0 ks = Some sl /\
    represents (valid := valid) (cmp := cmp) key0 sl ks' /\
    ks' ≡ₚ ks /\ StronglySorted (fun a b => cmp a b < 0) ks' /\
    forall k, valid k -> Contains compare sl k = Some (existsb (fun x => cmp k x =? 0) ks).
Proof.
  intros Hv Hd. destruct (new_SkipList_spec (valid := valid) (cmp := cmp) key0 uninit)
    as (sl0 & E0 & Hrep0).
  destruct (insert_all_spec (compare := compare) key0 uninit stack ks sl0 [] Hrep0 Hv Hd)
    as (sl & ks' & E & Hrep & HP); [by apply Forall_true|].
  exists sl0, sl, ks'. split_and!; [done|done|done|done| |].
  - exact (proj1 (represents_sorted key0 sl ks' Hrep)).
  - intros k Hk. rewrite (represents_contains key0 sl ks') by done. f_equal. by apply existsb_Permutation.
Qed.

#[local] Instance Z_order : KeyOrder (fun a b : Z => Some (a - b)) (fun _ => True) Z.sub.
Proof. split; intros; (done || lia). Qed.

Lemma skiplist_insert_correct_witness :
  exists sl0 sl ks', new_SkipList 0 None = Some sl0 /\
    insert_all (compare := fun a b => Some (a - b)) None id sl0 [5; 1; 9; 3] = Some sl /\
    represents (valid := fun _ => True) (cmp := Z.sub) 0 sl ks' /\ ks' ≡ₚ [5; 1; 9; 3] /\
    Contains (fun a b => Some (a - b)) sl 9 = Some true.
Proof.
  destruct (skiplist_insert_correct (fun a b : Z => Some (a - b)) (fun _ => True) Z.sub 0 None id [5; 1; 9; 3])
    as (sl0 & sl & ks' & H1 & H2 & H3 & H4 & _ & H6).
  - repeat constructor.
  - repeat constructor; discriminate.
  - exists sl0, sl, ks'. split_and!; [exact H1|exact H2|exact H3|exact H4|]. exact (H6 9 I).
Defined.

(** on a list that represents the keys at the
    positions of [L], an iterator is a position: [SeekToFirst], [SeekToLast],
    [Next] and [Prev] move as positions do, and [Seek] goes to the first key
    that is not before the target. *)
Theorem skiplist_iterators {Key} (compare : Key -> Key -> option Z) valid cmp
    `{!KeyOrder compare valid cmp} key0 sl L :
  inv valid cmp key0 sl L ->
  iter_SeekToFirst sl = Some (L !! 0%nat) /\ iter_SeekToLast sl = Some (last L) /\
  (forall i x, L !! i = Some x ->
     iter_key sl (Some x) = Some (key_at key0 (nodes sl) x) /\
     iter_Next sl (Some x) = Some (L !! S i) /\
     iter_Prev compare sl (Some x) = Some (match i with O => None | S j => L !! j end)) /\
  (forall k, valid k -> exists lt ge, L = lt ++ ge /\ iter_Seek compare sl k = Some (head ge) /\
     Forall (fun x => cmp (key_at key0 (nodes sl) x) k < 0) lt /\
     Forall (fun x => ~ cmp (key_at key0 (nodes sl) x) k < 0) ge).
Proof.
  intros Hinv. split_and!.
  - by apply (SeekToFirst_spec key0 sl L Hinv).
  - by apply (SeekToLast_spec key0 sl L Hinv).
  - intros i x Hx. split_and!; [|by apply (iter_Next_spec key0 sl L i x Hinv)|by apply (iter_Prev_spec key0 sl L i x Hinv)].
    apply (iter_key_spec key0 sl L x Hinv). by eapply list_elem_of_lookup_2.
  - intros k Hk. destruct (split_key key0 sl L k Hinv Hk) as (lt & ge & -> & Hlt & Hge).
    exists lt, ge. split_and!; [done| |done|done]. by apply (Seek_spec key0 sl lt ge k Hinv Hk).
Qed.

Lemma skiplist_iterators_witness :
  exists sl, new_SkipList 0 None = Some sl /\ iter_SeekToFirst sl = Some None.
Proof.
  destruct (new_SkipList_spec (valid := fun _ => True) (cmp := Z.sub) 0 None) as (sl & E & L & Hinv & HL).
  exists sl. split; [exact E|]. destruct L; [|discriminate HL].
  exact (proj1 (skiplist_iterators (fun a b => Some (a - b)) (fun _ => True) Z.sub 0 sl [] Hinv)).
Defined.

(** the shift-and-add reduction of [Random::Next] is
    multiplication by 16807 modulo 2^31-1; from any seed the constructor
    makes, every state is in 1..2^31-2, so the generator never gets stuck, and
    every node height is between 1 and kMaxHeight. *)
Theorem random_generator s n :
  let state := Nat.iter n Random_Next (Random s) in
  0 < state < 2147483647 /\
  Random_Next state = (state * 16807) mod 2147483647 /\
  exists height rnd, RandomHeight state = Some (height, rnd) /\ (1 <= height <= kMaxHeight)%nat.
Proof.
  intros state. assert (0 < state < 2147483647) as Hs.
  { unfold state. clear state. induction n as [|n IH]; [apply Random_range|]. simpl. by apply Random_Next_spec. }
  split_and!; [lia|lia|by apply Random_Next_spec|apply RandomHeight_spec].
Qed.
