(* ===== verification/Dbformat.v ===== *)
(** Keys of LevelDB: comparison of slices (leveldb/include/leveldb/slice.h,
    leveldb/util/comparator.cc) and the internal key format
    (leveldb/db/dbformat.h and dbformat.cc).

    An internal key is a user key followed by eight octets that pack a sequence
    number and a value type.  A key shorter than eight octets gives [None]
    where the code asserts the length. *)
From S2P Require Import Prelude Coding.

(** ** Slice::compare and the bytewise comparator *)

(** memcmp on the first [n] octets: C fixes the sign of the result only. *)
Fixpoint memcmp (a b : list Z) (n : nat) : Z :=
  match n, a, b with
  | S n, x :: a, y :: b => if x <? y then -1 else if y <? x then 1 else memcmp a b n
  | _, _, _ => 0
  end.

Definition Slice_compare (a b : list Z) : Z :=
  let min_len := if zlen a <? zlen b then length a else length b in
  let r := memcmp a b min_len in
  if r =? 0 then if zlen a <? zlen b then -1 else if zlen b <? zlen a then 1 else r
  else r.

Definition Bytewise_Compare (a b : list Z) : Z := Slice_compare a b.

(** Length of the common prefix. *)
Fixpoint diff_index_of (start limit : list Z) : nat :=
  match start, limit with
  | x :: start, y :: limit => if x =? y then S (diff_index_of start limit) else 0
  | _, _ => 0
  end.

Definition Bytewise_FindShortestSeparator (start limit : list Z) : option (list Z) :=
  let min_length := Nat.min (length start) (length limit) in
  let diff_index := diff_index_of start limit in
  if (min_length <=? diff_index)%nat then Some start
  else
    diff_byte ← start !! diff_index;
    limit_byte ← limit !! diff_index;
    if (diff_byte <? 255) && (diff_byte + 1 <? limit_byte) then
      let start := take (diff_index + 1) (<[diff_index := diff_byte + 1]> start) in
      _ ← passert (Bytewise_Compare start limit <? 0);
      Some start
    else Some start.

(** The loop of [FindShortSuccessor] from the octet at index [length pre]. *)
Fixpoint short_successor (pre key : list Z) : list Z :=
  match key with
  | [] => pre
  | byte :: key => if byte =? 255 then short_successor (pre ++ [byte]) key else pre ++ [byte + 1]
  end.
Definition Bytewise_FindShortSuccessor (key : list Z) : list Z := short_successor [] key.

(** ** Internal keys *)
Definition kTypeDeletion : Z := 0.
Definition kTypeValue : Z := 1.
Definition kValueTypeForSeek : Z := kTypeValue.
Definition kMaxSequenceNumber : Z := Z.shiftl 1 56 - 1.

Record ParsedInternalKey := { pk_user_key : list Z; pk_sequence : Z; pk_type : Z }.

Definition PackSequenceAndType (seq t : Z) : option Z :=
  _ ← passert (seq <=? kMaxSequenceNumber);
  _ ← passert (t <=? kValueTypeForSeek);
  Some (Z.lor (wrap 64 (Z.shiftl seq 8)) t).

Section internal_keys.
Variable le : bool.

Definition AppendInternalKey (result : list Z) (k : ParsedInternalKey) : option (list Z) :=
  packed ← PackSequenceAndType (pk_sequence k) (pk_type k);
  Some (PutFixed64 le (result ++ pk_user_key k) packed).

Definition InternalKeyEncodingLength (k : ParsedInternalKey) : Z := zlen (pk_user_key k) + 8.

Definition ExtractUserKey (internal_key : list Z) : option (list Z) :=
  rd_bytes internal_key 0 (zlen internal_key - 8).

Definition key_num (internal_key : list Z) : option Z :=
  if zlen internal_key <? 8 then None
  else DecodeFixed64 le (drop (length internal_key - 8) internal_key).

Definition ExtractValueType (internal_key : list Z) : option Z :=
  num ← key_num internal_key; Some (Z.land num 255).

(** [Some None] is the [false] result. *)
Definition ParseInternalKey (internal_key : list Z) : option (option ParsedInternalKey) :=
  if zlen internal_key <? 8 then Some None
  else
    num ← DecodeFixed64 le (drop (length internal_key - 8) internal_key);
    let c := Z.land num 255 in
    user_key ← rd_bytes internal_key 0 (zlen internal_key - 8);
    if c <=? kTypeValue
    then Some (Some {| pk_user_key := user_key; pk_sequence := Z.shiftr num 8; pk_type := c |})
    else Some None.

Definition InternalKey_Compare (akey bkey : list Z) : option Z :=
  ua ← ExtractUserKey akey;
  ub ← ExtractUserKey bkey;
  let r := Bytewise_Compare ua ub in
  if r =? 0 then
    anum ← key_num akey;
    bnum ← key_num bkey;
    Some (if bnum <? anum then -1 else if anum <? bnum then 1 else r)
  else Some r.

Definition InternalKey_FindShortestSeparator (start limit : list Z) : option (list Z) :=
  user_start ← ExtractUserKey start;
  user_limit ← ExtractUserKey limit;
  tmp ← Bytewise_FindShortestSeparator user_start user_limit;
  if (zlen tmp <? zlen user_start) && (Bytewise_Compare user_start tmp <? 0) then
    packed ← PackSequenceAndType kMaxSequenceNumber kValueTypeForSeek;
    let tmp := PutFixed64 le tmp packed in
    c ← InternalKey_Compare start tmp; _ ← passert (c <? 0);
    c ← InternalKey_Compare tmp limit; _ ← passert (c <? 0);
    Some tmp
  else Some start.

Definition InternalKey_FindShortSuccessor (key : list Z) : option (list Z) :=
  user_key ← ExtractUserKey key;
  let tmp := Bytewise_FindShortSuccessor user_key in
  if (zlen tmp <? zlen user_key) && (Bytewise_Compare user_key tmp <? 0) then
    packed ← PackSequenceAndType kMaxSequenceNumber kValueTypeForSeek;
    let tmp := PutFixed64 le tmp packed in
    c ← InternalKey_Compare key tmp; _ ← passert (c <? 0);
    Some tmp
  else Some key.

(** ** LookupKey: the buffer and the offset of [kstart_] *)
Record LookupKey := { lk_buf : list Z; lk_kstart : Z }.

(** [needed] octets of [space_] or of the heap; [junk] are their old contents. *)
Definition new_LookupKey (junk : nat -> Z) (user_key : list Z) (s : Z) : option LookupKey :=
  let usize := zlen user_key in
  let needed := usize + 13 in
  let dst := realloc junk [] needed in
  let len := EncodeVarint32 (wrap 32 (usize + 8)) in
  dst ← wr_bytes dst 0 len;
  let kstart := zlen len in
  dst ← wr_bytes dst kstart user_key;
  packed ← PackSequenceAndType s kValueTypeForSeek;
  dst ← wr_bytes dst (kstart + usize) (EncodeFixed64 le packed);
  buf ← rd_bytes dst 0 (kstart + usize + 8);
  Some {| lk_buf := buf; lk_kstart := kstart |}.

Definition memtable_key (k : LookupKey) : list Z := lk_buf k.
Definition lk_internal_key (k : LookupKey) : list Z := drop (Z.to_nat (lk_kstart k)) (lk_buf k).
Definition lk_user_key (k : LookupKey) : list Z :=
  take (length (lk_buf k) - Z.to_nat (lk_kstart k) - 8) (drop (Z.to_nat (lk_kstart k)) (lk_buf k)).
End internal_keys.

(** ** Reference: lexicographic order *)
Fixpoint lex (a b : list Z) : Z :=
  match a, b with
  | [], [] => 0
  | [], _ :: _ => -1
  | _ :: _, [] => 1
  | x :: a, y :: b => if x <? y then -1 else if y <? x then 1 else lex a b
  end.

Lemma Slice_compare_lex a b : Slice_compare a b = lex a b.
Proof.
  unfold Slice_compare. revert b. induction a as [|x a IH]; intros [|y b].
  - done.
  - cbn [length]. by zif.
  - cbn [length]. zif. cbn [memcmp Z.eqb]. by repeat zif.
  - specialize (IH b). cbn [lex]. rewrite <-IH, !length_cons.
    destruct (Z.ltb_spec (zlen a) (zlen b)), (Z.ltb_spec (zlen b) (zlen a)); try lia;
      repeat zif; cbn [memcmp]; destruct (x <? y), (y <? x); try done; cbn [Z.eqb]; by repeat zif.
Qed.

Lemma lex_refl a : lex a a = 0.
Proof. induction a as [|x a IH]; [done|]. simpl. by rewrite Z.ltb_irrefl. Qed.

Lemma lex_antisym a b : lex a b = - lex b a.
Proof.
  revert b. induction a as [|x a IH]; intros [|y b]; simpl; try done.
  destruct (Z.ltb_spec x y), (Z.ltb_spec y x); try lia. apply IH.
Qed.

Lemma lex_eq a b : lex a b = 0 <-> a = b.
Proof.
  split; [|intros ->; apply lex_refl]. revert b. induction a as [|x a IH]; intros [|y b]; simpl; try done.
  destruct (Z.ltb_spec x y), (Z.ltb_spec y x); try done. intros H'. f_equal; [lia|auto].
Qed.

Lemma lex_trans a b c : lex a b < 0 -> lex b c < 0 -> lex a c < 0.
Proof.
  revert b c. induction a as [|x a IH]; intros [|y b] [|z c]; simpl; try lia.
  repeat match goal with |- context [?u <? ?v] => destruct (Z.ltb_spec u v) end; try lia. apply IH.
Qed.

(** ** Internal keys as (user key, tag) *)
Definition tag (seq t : Z) : Z := seq * 256 + t.

Lemma pack_tag seq t : 0 <= seq < 2 ^ 56 -> 0 <= t < 256 -> Z.lor (wrap 64 (Z.shiftl seq 8)) t = tag seq t.
Proof.
  intros Hs Ht. unfold tag.
  rewrite wrap_fits by (unfold fits_unsigned; rewrite Z.shiftl_mul_pow2 by lia; simpl in *; lia).
  rewrite Z.lor_comm, lor_shiftl_add by (simpl; lia). simpl. lia.
Qed.

Lemma PackSequenceAndType_eq seq t : 0 <= seq < 2 ^ 56 -> 0 <= t <= kTypeValue -> PackSequenceAndType seq t = Some (tag seq t).
Proof.
  intros Hs Ht. unfold PackSequenceAndType. change kMaxSequenceNumber with (2 ^ 56 - 1). unfold kValueTypeForSeek, kTypeValue in *.
  rewrite !(proj2 (Z.leb_le _ _)) by lia. cbn [passert mbind option_bind]. by rewrite pack_tag by lia.
Qed.

Lemma tag_fits seq t : 0 <= seq < 2 ^ 56 -> 0 <= t < 256 -> fits_unsigned 64 (tag seq t).
Proof. unfold fits_unsigned, tag. simpl. lia. Qed.

Definition ikey (u : list Z) (num : Z) : list Z := u ++ le_enc 8 num.

Lemma length_ikey u num : length (ikey u num) = (length u + 8)%nat.
Proof. unfold ikey. by rewrite length_app, length_le_enc. Qed.

Lemma ExtractUserKey_ikey u num : ExtractUserKey (ikey u num) = Some u.
Proof.
  unfold ExtractUserKey, ikey. apply (rd_bytes_app [] u (le_enc 8 num)); [done|len_lia].
Qed.

Lemma drop_ikey u num : drop (length (ikey u num) - 8) (ikey u num) = le_enc 8 num.
Proof. unfold ikey. apply drop_app_length'. len_lia. Qed.

Lemma key_num_ikey le u num : fits_unsigned 64 num -> key_num le (ikey u num) = Some num.
Proof.
  intros Hn. unfold key_num. rewrite drop_ikey, length_ikey. zif.
  rewrite <-(EncodeFixed64_eq le), <-(app_nil_r (EncodeFixed64 le num)), DecodeFixed64_encode.
  by rewrite wrap_fits.
Qed.

Lemma AppendInternalKey_eq le result k :
  0 <= pk_sequence k < 2 ^ 56 -> 0 <= pk_type k <= kTypeValue ->
  AppendInternalKey le result k = Some (result ++ ikey (pk_user_key k) (tag (pk_sequence k) (pk_type k))).
Proof.
  intros. unfold AppendInternalKey, PutFixed64, ikey. rewrite PackSequenceAndType_eq by done.
  cbn [mbind option_bind]. by rewrite EncodeFixed64_eq, app_assoc.
Qed.

(** Order by user key, then by decreasing tag. *)
Definition ikey_cmp (u : list Z) (n : Z) (u' : list Z) (n' : Z) : Z :=
  if lex u u' =? 0 then if n' <? n then -1 else if n <? n' then 1 else 0 else lex u u'.

Lemma InternalKey_Compare_ikey le u n u' n' :
  fits_unsigned 64 n -> fits_unsigned 64 n' ->
  InternalKey_Compare le (ikey u n) (ikey u' n') = Some (ikey_cmp u n u' n').
Proof.
  intros Hn Hn'. unfold InternalKey_Compare, ikey_cmp, Bytewise_Compare.
  rewrite !ExtractUserKey_ikey. cbn [mbind option_bind]. rewrite Slice_compare_lex.
  destruct (Z.eqb_spec (lex u u') 0) as [E|]; [|done].
  rewrite !key_num_ikey by done. cbn [mbind option_bind]. by rewrite E.
Qed.

Lemma ikey_cmp_antisym u n u' n' : ikey_cmp u n u' n' < 0 <-> 0 < ikey_cmp u' n' u n.
Proof.
  unfold ikey_cmp. rewrite (lex_antisym u' u).
  destruct (Z.eqb_spec (lex u u') 0), (Z.eqb_spec (- lex u u') 0); try lia.
  repeat match goal with |- context [?a <? ?b] => destruct (Z.ltb_spec a b) end; lia.
Qed.

Lemma ikey_cmp_zero u n u' n' : ikey_cmp u n u' n' = 0 <-> u = u' /\ n = n'.
Proof.
  unfold ikey_cmp. rewrite <-(lex_eq u u').
  destruct (Z.eqb_spec (lex u u') 0);
  repeat match goal with |- context [?a <? ?b] => destruct (Z.ltb_spec a b) end; lia.
Qed.

Lemma ikey_cmp_lt u n u' n' :
  ikey_cmp u n u' n' < 0 <-> lex u u' < 0 \/ (u = u' /\ n' < n).
Proof.
  unfold ikey_cmp. rewrite <-(lex_eq u u').
  destruct (Z.eqb_spec (lex u u') 0);
  repeat match goal with |- context [?a <? ?b] => destruct (Z.ltb_spec a b) end; lia.
Qed.

Lemma ikey_cmp_trans u n u' n' u'' n'' :
  ikey_cmp u n u' n' < 0 -> ikey_cmp u' n' u'' n'' < 0 -> ikey_cmp u n u'' n'' < 0.
Proof.
  rewrite !ikey_cmp_lt. intros [H|[-> H]] [H'|[<- H']]; [|auto..].
  - left. by eapply lex_trans.
  - right. split; [done|lia].
Qed.

(** ** LookupKey *)
Lemma new_LookupKey_eq le junk u s :
  zlen u + 8 < 2 ^ 32 -> 0 <= s < 2 ^ 56 ->
  new_LookupKey le junk u s =
  Some {| lk_buf := EncodeVarint32 (zlen u + 8) ++ ikey u (tag s kValueTypeForSeek);
          lk_kstart := zlen (EncodeVarint32 (zlen u + 8)) |}.
Proof.
  intros Hu Hs. unfold new_LookupKey.
  assert (fits_unsigned 32 (zlen u + 8)) as Hf by (unfold fits_unsigned; simpl in *; lia).
  rewrite wrap_fits by done. set (len := EncodeVarint32 (zlen u + 8)).
  destruct (length_EncodeVarint32 _ Hf) as [Hlen _]. fold len in Hlen.
  set (dst := realloc junk [] (zlen u + 13)).
  assert (length dst = Z.to_nat (zlen u + 13)) as Hd by apply length_realloc. clearbody dst.
  destruct (split_at dst (length len)) as (d1 & d2 & -> & Hd1); [lia|].
  rewrite length_app in Hd. destruct (split_at d2 (length u)) as (d2' & d3 & -> & Hd2); [lia|].
  rewrite length_app in Hd. destruct (split_at d3 8) as (d3' & d4 & -> & Hd3); [lia|].
  rewrite wr_bytes_0 by done. cbn [mbind option_bind].
  rewrite (wr_bytes_app len d2' u) by done. cbn [mbind option_bind app].
  rewrite PackSequenceAndType_eq by (done || (unfold kValueTypeForSeek, kTypeValue; lia)). cbn [mbind option_bind]. rewrite EncodeFixed64_eq.
  rewrite (app_assoc len u), (wr_bytes_app (len ++ u) d3') by len_lia. cbn [mbind option_bind].
  rewrite (app_assoc (len ++ u)), rd_bytes_0 by len_lia.
  cbn [mbind option_bind]. unfold ikey. by rewrite <-app_assoc.
Qed.

Lemma lk_parts le junk u s :
  zlen u + 8 < 2 ^ 32 -> 0 <= s < 2 ^ 56 ->
  exists k, new_LookupKey le junk u s = Some k /\
    memtable_key k = EncodeVarint32 (zlen u + 8) ++ ikey u (tag s kValueTypeForSeek) /\
    lk_internal_key k = ikey u (tag s kValueTypeForSeek) /\ lk_user_key k = u.
Proof.
  intros Hu Hs. eexists. split; [by apply new_LookupKey_eq|]. unfold lk_internal_key, lk_user_key. simpl.
  rewrite Nat2Z.id, drop_app_length. split_and!; [done|done|].
  rewrite length_app, length_ikey. unfold ikey. apply take_app_length'. lia.
Qed.

Lemma ParseInternalKey_ikey le u seq t :
  0 <= seq < 2 ^ 56 -> 0 <= t < 256 ->
  ParseInternalKey le (ikey u (tag seq t)) =
  Some (if t <=? kTypeValue
        then Some {| pk_user_key := u; pk_sequence := seq; pk_type := t |} else None).
Proof.
  intros Hs Ht. pose proof (key_num_ikey le u _ (tag_fits seq t Hs Ht)) as Hnum.
  pose proof (ExtractUserKey_ikey u (tag seq t)) as Huk. unfold ParseInternalKey, key_num, ExtractUserKey in *.
  rewrite length_ikey in *. rewrite (proj2 (Z.ltb_ge _ 8)) in * by lia.
  rewrite Hnum. cbn [mbind option_bind]. rewrite Huk. cbn [mbind option_bind].
  rewrite land_255, shiftr_div by lia. unfold tag. change (2 ^ 8) with 256.
  replace ((seq * 256 + t) mod 256) with t by zdiv_lia.
  replace ((seq * 256 + t) / 256) with seq by zdiv_lia. by destruct (t <=? kTypeValue).
Qed.

(** ** Separators *)
Lemma lex_prefix p a b : lex (p ++ a) (p ++ b) = lex a b.
Proof. induction p as [|x p IH]; [done|]. simpl. by rewrite Z.ltb_irrefl. Qed.

Lemma diff_index_spec start limit :
  exists p s l, start = p ++ s /\ limit = p ++ l /\ diff_index_of start limit = length p /\
    (s = [] \/ l = [] \/ exists x s' y l', s = x :: s' /\ l = y :: l' /\ x <> y).
Proof.
  revert limit. induction start as [|x start IH]; intros [|y limit]; simpl.
  - exists [], [], []. split_and!; auto.
  - exists [], [], (y :: limit). split_and!; auto.
  - exists [], (x :: start), []. split_and!; auto.
  - destruct (Z.eqb_spec x y) as [->|Hxy].
    + destruct (IH limit) as (p & s & l & -> & -> & -> & H). exists (y :: p), s, l. split_and!; auto.
    + exists [], (x :: start), (y :: limit). split_and!; try done. right. right. by exists x, start, y, limit.
Qed.

Lemma take_insert_mid (p s : list Z) x y n :
  n = length p -> take (n + 1) (<[n := y]> (p ++ x :: s)) = p ++ [y].
Proof.
  intros ->. rewrite insert_app_r_alt, Nat.sub_diag by lia. simpl.
  rewrite take_app_ge by lia. do 2 f_equal. by replace (length p + 1 - length p)%nat with 1%nat by lia.
Qed.

(** The separator exists for any two keys; it is between them if they are in order. *)
Lemma Bytewise_FindShortestSeparator_spec start limit :
  exists r, Bytewise_FindShortestSeparator start limit = Some r /\ zlen r <= zlen start /\
    (Forall is_byte start -> Forall is_byte r) /\ (start = limit -> r = start) /\
    (lex start limit < 0 -> lex start r <= 0 /\ lex r limit < 0).
Proof.
  unfold Bytewise_FindShortestSeparator.
  assert (exists r, Some start = Some r /\ zlen r <= zlen start /\ (Forall is_byte start -> Forall is_byte r) /\ (start = limit -> r = start) /\
    (lex start limit < 0 -> lex start r <= 0 /\ lex r limit < 0)) as Hkeep by (exists start; rewrite lex_refl; split_and!; (done || lia)).
  destruct (diff_index_spec start limit) as (p & s & l & Es & El & -> & H).
  destruct (Nat.leb_spec (Nat.min (length start) (length limit)) (length p)) as [|Hmin]; [done|].
  rewrite Es, El, !length_app in Hmin.
  destruct H as [->|[->|(x & s' & y & l' & -> & -> & Hxy)]]; [simpl in Hmin; lia..|].
  subst start limit. rewrite !list_lookup_middle by done. cbn [mbind option_bind].
  destruct ((x <? 255) && (x + 1 <? y)) eqn:Hc; [|done].
  apply andb_prop in Hc as [Hx%Z.ltb_lt Hy%Z.ltb_lt].
  rewrite take_insert_mid by done. unfold Bytewise_Compare. rewrite Slice_compare_lex, !lex_prefix. cbn [lex].
  rewrite (proj2 (Z.ltb_lt (x + 1) y)) by lia. cbn [passert mbind option_bind]. eexists. split; [done|].
  rewrite !lex_prefix, !length_app. cbn [lex length].
  rewrite (proj2 (Z.ltb_lt x (x + 1))), (proj2 (Z.ltb_lt (x + 1) y)) by lia. split_and!; [lia| | |lia].
  - rewrite !Forall_app, Forall_cons. intros (Hp & Hbx & _). split; [done|]. constructor; [unfold is_byte in *; lia|done].
  - intros E%app_inv_head. by injection E as ->.
Qed.

Lemma short_successor_spec key pre :
  Forall is_byte key ->
  exists r, short_successor pre key = pre ++ r /\ lex key r <= 0 /\ zlen r <= zlen key.
Proof.
  intros Hb. revert pre. induction Hb as [|b key Hb _ IH]; intros pre; cbn [short_successor].
  - exists []. by rewrite app_nil_r.
  - unfold is_byte in Hb. destruct (Z.eqb_spec b 255) as [->|].
    + destruct (IH (pre ++ [255])) as (r & -> & Hr & Hl). exists (255 :: r). rewrite <-app_assoc. simpl. split_and!; [done|done|lia].
    + exists [b + 1]. cbn [lex length]. rewrite (proj2 (Z.ltb_lt b (b + 1))) by lia.
      split_and!; [done|lia|lia].
Qed.

Lemma seek_tag : PackSequenceAndType kMaxSequenceNumber kValueTypeForSeek = Some (2 ^ 64 - 255).
Proof. vm_compute. done. Qed.

Lemma ikey_cmp_le u n u' n' : lex u u' < 0 -> ikey_cmp u n u' n' < 0.
Proof. intros. apply ikey_cmp_lt. by left. Qed.

Lemma ikey_cmp_refl u n : ikey_cmp u n u n = 0.
Proof. by apply ikey_cmp_zero. Qed.

(** Different user keys decide. *)
Lemma InternalKey_Compare_user le u n u' n' : lex u u' <> 0 -> InternalKey_Compare le (ikey u n) (ikey u' n') = Some (lex u u').
Proof.
  intros Hne. unfold InternalKey_Compare. rewrite !ExtractUserKey_ikey. cbn [mbind option_bind]. unfold Bytewise_Compare.
  rewrite Slice_compare_lex. by rewrite (proj2 (Z.eqb_neq _ _)).
Qed.

Lemma short_successor_octets key : forall pre, Forall is_byte pre -> Forall is_byte key -> Forall is_byte (short_successor pre key).
Proof.
  induction key as [|b key IH]; intros pre Hp Hk; cbn [short_successor]; [done|]. apply Forall_cons in Hk as [Hb Hk].
  unfold is_byte in Hb. destruct (Z.eqb_spec b 255); [apply IH; [apply Forall_app; auto|done]|].
  apply Forall_app. split; [done|]. constructor; [unfold is_byte; lia|done].
Qed.

(** The separator is the first key, or has a user key strictly between. *)
Lemma InternalKey_FindShortestSeparator_cases le u n u' n' : ikey_cmp u n u' n' < 0 ->
  InternalKey_FindShortestSeparator le (ikey u n) (ikey u' n') = Some (ikey u n) \/
  exists ur, InternalKey_FindShortestSeparator le (ikey u n) (ikey u' n') = Some (ikey ur (2 ^ 64 - 255)) /\
    lex u ur < 0 /\ lex ur u' < 0 /\ zlen ur <= zlen u /\ (Forall is_byte u -> Forall is_byte ur).
Proof.
  intros Hlt. unfold InternalKey_FindShortestSeparator. rewrite !ExtractUserKey_ikey. cbn [mbind option_bind].
  destruct (Bytewise_FindShortestSeparator_spec u u') as (tmp & -> & Hz & Ho & Hself & Hbetween). cbn [mbind option_bind].
  unfold Bytewise_Compare. rewrite Slice_compare_lex.
  destruct ((_ <? _) && _) eqn:Hc; [right|by left]. apply andb_prop in Hc as [Hl%Z.ltb_lt Hlex%Z.ltb_lt].
  assert (lex u u' < 0) as Huu.
  { apply ikey_cmp_lt in Hlt as [|[<- _]]; [done|]. rewrite Hself in Hl by done. lia. }
  destruct (Hbetween Huu) as [H1 H2]. exists tmp. unfold PutFixed64. rewrite seek_tag. cbn [mbind option_bind]. rewrite EncodeFixed64_eq.
  change (tmp ++ le_enc 8 (2 ^ 64 - 255)) with (ikey tmp (2 ^ 64 - 255)).
  rewrite InternalKey_Compare_user by lia. cbn [mbind option_bind]. rewrite (proj2 (Z.ltb_lt _ _)) by lia. cbn [passert mbind option_bind].
  rewrite InternalKey_Compare_user by lia. cbn [mbind option_bind]. rewrite (proj2 (Z.ltb_lt _ _)) by lia. done.
Qed.

Lemma InternalKey_FindShortestSeparator_spec le u n u' n' :
  fits_unsigned 64 n -> ikey_cmp u n u' n' < 0 ->
  exists ur nr, InternalKey_FindShortestSeparator le (ikey u n) (ikey u' n') = Some (ikey ur nr) /\
    fits_unsigned 64 nr /\ ikey_cmp u n ur nr <= 0 /\ ikey_cmp ur nr u' n' < 0 /\ zlen ur <= zlen u.
Proof.
  intros Hn Hlt. destruct (InternalKey_FindShortestSeparator_cases le u n u' n' Hlt) as [-> |(ur & -> & H1 & H2 & H3 & _)].
  - exists u, n. rewrite ikey_cmp_refl. split_and!; (done || lia || apply Hn).
  - exists ur, (2 ^ 64 - 255). pose proof (ikey_cmp_le u n ur (2 ^ 64 - 255) H1). pose proof (ikey_cmp_le ur (2 ^ 64 - 255) u' n' H2).
    split_and!; (done || lia).
Qed.

Lemma InternalKey_FindShortSuccessor_spec le u n :
  Forall is_byte u -> fits_unsigned 64 n ->
  exists ur nr, InternalKey_FindShortSuccessor le (ikey u n) = Some (ikey ur nr) /\
    fits_unsigned 64 nr /\ ikey_cmp u n ur nr <= 0 /\ zlen ur <= zlen u.
Proof.
  intros Hb Hn. unfold InternalKey_FindShortSuccessor, Bytewise_Compare.
  rewrite ExtractUserKey_ikey. cbn [mbind option_bind]. rewrite Slice_compare_lex.
  destruct (short_successor_spec u [] Hb) as (r & E & Hr & Hl). unfold Bytewise_FindShortSuccessor.
  rewrite E. cbn [app].
  destruct ((zlen r <? zlen u) && (lex u r <? 0)) eqn:Hc.
  - apply andb_prop in Hc as [_ Hlex%Z.ltb_lt].
    eexists r, _. unfold PutFixed64. rewrite seek_tag. cbn [mbind option_bind]. rewrite EncodeFixed64_eq.
    change (r ++ le_enc 8 (2 ^ 64 - 255)) with (ikey r (2 ^ 64 - 255)).
    rewrite InternalKey_Compare_user by lia. cbn [mbind option_bind]. rewrite (proj2 (Z.ltb_lt _ _)) by lia. split; [done|].
    split; [unfold fits_unsigned; lia|]. pose proof (ikey_cmp_le u n r (2 ^ 64 - 255) Hlex). lia.
  - exists u, n. rewrite ikey_cmp_refl. split_and!; (done || lia || apply Hn).
Qed.

(** ** Properties *)
Definition valid_key (k : ParsedInternalKey) : Prop :=
  0 <= pk_sequence k <= kMaxSequenceNumber /\ 0 <= pk_type k <= kTypeValue.

(** C29 (internal_key_order) an encoded internal key parses back, and the
    comparator orders encoded keys by increasing user key, then decreasing
    sequence number, then decreasing type; only equal keys compare equal. *)
Theorem internal_key_order le le' k k' :
  valid_key k -> valid_key k' ->
  exists e e', AppendInternalKey le' [] k = Some e /\ AppendInternalKey le' [] k' = Some e' /\
  ParseInternalKey le e = Some (Some k) /\
  exists c, InternalKey_Compare le e e' = Some c /\
    (c < 0 <-> lex (pk_user_key k) (pk_user_key k') < 0 \/
      (pk_user_key k = pk_user_key k' /\
       (pk_sequence k' < pk_sequence k \/
        (pk_sequence k = pk_sequence k' /\ pk_type k' < pk_type k)))) /\
    (c = 0 <-> k = k').
Proof.
  intros [Hs Ht] [Hs' Ht']. change kMaxSequenceNumber with (2 ^ 56 - 1) in *. unfold kTypeValue in *.
  rewrite !AppendInternalKey_eq by (unfold kTypeValue; lia). cbn [app]. eexists _, _. split; [done|]. split; [done|]. split.
  - rewrite ParseInternalKey_ikey by lia. unfold kTypeValue. zif. by destruct k.
  - eexists. split; [apply InternalKey_Compare_ikey; apply tag_fits; lia|].
    rewrite ikey_cmp_lt, ikey_cmp_zero. unfold tag. split; [|split].
    + split; intros [|[? ?]]; [by left|right; split; [done|lia]|by left|right; split; [done|lia]].
    + intros [? ?]. destruct k as [u s t], k' as [u' s' t']; simpl in *. f_equal; (done || lia).
    + intros ->. done.
Qed.

Lemma internal_key_order_witness :
  valid_key {| pk_user_key := [97]; pk_sequence := 7; pk_type := 1 |} /\
  exists e, AppendInternalKey false [] {| pk_user_key := [97]; pk_sequence := 7; pk_type := 1 |} = Some e /\
    ParseInternalKey true e = Some (Some {| pk_user_key := [97]; pk_sequence := 7; pk_type := 1 |}).
Proof.
  assert (valid_key {| pk_user_key := [97]; pk_sequence := 7; pk_type := 1 |}) as Hv
    by (split; split; vm_compute; discriminate).
  split; [exact Hv|]. destruct (internal_key_order true false _ _ Hv Hv) as (e & _ & E & _ & H & _). exists e. split; [exact E|exact H].
Defined.

(** the shortened keys used for index entries stay
    in place: the separator of two internal keys is not before the first and
    strictly before the second, the successor is not before the key, and the
    user part never grows. *)
Theorem separators_between le u n u' n' :
  Forall is_byte u -> fits_unsigned 64 n -> ikey_cmp u n u' n' < 0 ->
  (exists ur nr, InternalKey_FindShortestSeparator le (ikey u n) (ikey u' n') = Some (ikey ur nr) /\
    fits_unsigned 64 nr /\ ikey_cmp u n ur nr <= 0 /\ ikey_cmp ur nr u' n' < 0 /\ zlen ur <= zlen u) /\
  (exists ur nr, InternalKey_FindShortSuccessor le (ikey u n) = Some (ikey ur nr) /\
    fits_unsigned 64 nr /\ ikey_cmp u n ur nr <= 0 /\ zlen ur <= zlen u).
Proof.
  intros Hb Hn Hlt. split; [by apply InternalKey_FindShortestSeparator_spec|].
  by apply InternalKey_FindShortSuccessor_spec.
Qed.

Lemma separators_between_witness :
  ikey_cmp [97; 98; 99] 5 [99] 9 < 0 /\
  exists ur nr, InternalKey_FindShortestSeparator true (ikey [97; 98; 99] 5) (ikey [99] 9) = Some (ikey ur nr) /\
    ikey_cmp [97; 98; 99] 5 ur nr <= 0 /\ ikey_cmp ur nr [99] 9 < 0.
Proof.
  split; [reflexivity|].
  destruct (separators_between true [97; 98; 99] 5 [99] 9) as [(ur & nr & H1 & _ & H2 & H3 & _) _].
  - repeat constructor; discriminate.
  - split; [discriminate|reflexivity].
  - reflexivity.
  - exists ur, nr. split; [exact H1|]. split; [exact H2|exact H3].
Defined.
