(* ===== verification/WriteBatch.v ===== *)
(** WriteBatch: leveldb/db/write_batch.cc and write_batch_internal.h.

    A batch is its representation [rep_]: an eight-octet sequence number, a
    four-octet count, and the records.  The handler passed to [Iterate] is a
    pair of state transformers. *)
From S2P Require Import Prelude Coding Dbformat LdbBase.

Definition kHeader : nat := 12.

(** WriteBatch::Handler *)
Class Handler (St : Type) := {
  h_Put : list Z -> list Z -> St -> option St;
  h_Delete : list Z -> St -> option St;
}.

Section batch.
Variable le : bool.

(** resize fills with zero octets. *)
Definition Clear : list Z := replicate kHeader 0.

Definition Count (rep : list Z) : option Z :=
  n ← DecodeFixed32 le (drop 8 rep); Some (swrap 32 n).
Definition SetCount (rep : list Z) (n : Z) : option (list Z) :=
  wr_bytes rep 8 (EncodeFixed32 le (wrap 32 n)).
Definition Sequence (rep : list Z) : option Z := DecodeFixed64 le rep.
Definition SetSequence (rep : list Z) (seq : Z) : option (list Z) :=
  wr_bytes rep 0 (EncodeFixed64 le seq).

Definition Put (rep key value : list Z) : option (list Z) :=
  n ← Count rep;
  rep ← SetCount rep (n + 1);
  let rep := rep ++ [kTypeValue] in
  let rep := PutLengthPrefixedSlice rep key in
  Some (PutLengthPrefixedSlice rep value).

Definition Delete (rep key : list Z) : option (list Z) :=
  n ← Count rep;
  rep ← SetCount rep (n + 1);
  let rep := rep ++ [kTypeDeletion] in
  Some (PutLengthPrefixedSlice rep key).

(** The [while (!input.empty())] loop; each turn consumes the tag, so the
    length of the input bounds the turns. *)
Fixpoint Iterate_loop {St} `{Handler St} (fuel : nat) (input : list Z) (found : Z) (st : St)
    : option (Code * Z * St) :=
  match fuel with
  | O => None
  | S fuel =>
    match input with
    | [] => Some (kOk, found, st)
    | t :: input =>
      let found := found + 1 in
      if t =? kTypeValue then
        r ← GetLengthPrefixedSlice input;
        match r with
        | None => Some (kCorruption, found, st)
        | Some (key, input) =>
          r ← GetLengthPrefixedSlice input;
          match r with
          | None => Some (kCorruption, found, st)
          | Some (value, input) =>
            st ← h_Put key value st; Iterate_loop fuel input found st
          end
        end
      else if t =? kTypeDeletion then
        r ← GetLengthPrefixedSlice input;
        match r with
        | None => Some (kCorruption, found, st)
        | Some (key, input) => st ← h_Delete key st; Iterate_loop fuel input found st
        end
      else Some (kCorruption, found, st)
    end
  end.

Definition Iterate {St} `{Handler St} (rep : list Z) (st : St) : option (Code * St) :=
  if (length rep <? kHeader)%nat then Some (kCorruption, st)
  else
    let input := drop kHeader rep in
    '(code, found, st) ← Iterate_loop (S (length input)) input 0 st;
    if negb (Status_ok code) then Some (code, st)
    else
      n ← Count rep;
      if negb (found =? n) then Some (kCorruption, st) else Some (kOk, st).

Definition SetContents (contents : list Z) : option (list Z) :=
  _ ← passert (kHeader <=? length contents)%nat;
  Some contents.
Definition Contents (rep : list Z) : list Z := rep.
Definition ByteSize (rep : list Z) : Z := zlen rep.

Definition Append (dst src : list Z) : option (list Z) :=
  n ← Count dst; m ← Count src;
  dst ← SetCount dst (n + m);
  _ ← passert (kHeader <=? length src)%nat;
  Some (dst ++ drop kHeader src).
End batch.

(** ** What a batch stands for: a sequence number and a list of updates *)
Inductive update : Type :=
  | UPut (key value : list Z)
  | UDelete (key : list Z).

Definition fits_update (u : update) : Prop :=
  match u with
  | UPut k v => zlen k < 2 ^ 32 /\ zlen v < 2 ^ 32
  | UDelete k => zlen k < 2 ^ 32
  end.

Definition encode_update (u : update) : list Z :=
  match u with
  | UPut k v => kTypeValue :: PutLengthPrefixedSlice [] k ++ PutLengthPrefixedSlice [] v
  | UDelete k => kTypeDeletion :: PutLengthPrefixedSlice [] k
  end.

Definition encode_batch (seq : Z) (us : list update) : list Z :=
  le_enc 8 seq ++ le_enc 4 (zlen us) ++ concat (encode_update <$> us).

Definition apply_update {St} `{Handler St} (u : update) (st : St) : option St :=
  match u with UPut k v => h_Put k v st | UDelete k => h_Delete k st end.

Fixpoint apply_updates {St} `{Handler St} (us : list update) (st : St) : option St :=
  match us with
  | [] => Some st
  | u :: us => st ← apply_update u st; apply_updates us st
  end.

Lemma encode_batch_0 : Clear = encode_batch 0 [].
Proof. done. Qed.

Lemma drop_encode_batch seq us :
  drop kHeader (encode_batch seq us) = concat (encode_update <$> us).
Proof.
  unfold encode_batch. rewrite app_assoc. apply drop_app_length'. by rewrite length_app, !length_le_enc.
Qed.

Lemma Count_encode le seq us :
  zlen us < 2 ^ 31 -> Count le (encode_batch seq us) = Some (zlen us).
Proof.
  intros Hn. unfold Count, encode_batch. rewrite drop_app_length' by (by rewrite length_le_enc).
  rewrite <-(EncodeFixed32_eq le), DecodeFixed32_encode. cbn [mbind option_bind].
  rewrite wrap_fits by (unfold fits_unsigned; lia). by rewrite swrap_fits by (unfold fits_signed; simpl in *; lia).
Qed.

Lemma Sequence_encode le seq us :
  fits_unsigned 64 seq -> Sequence le (encode_batch seq us) = Some seq.
Proof.
  intros Hs. unfold Sequence, encode_batch. rewrite <-(EncodeFixed64_eq le), DecodeFixed64_encode.
  by rewrite wrap_fits.
Qed.

Lemma SetSequence_encode le seq seq' us :
  SetSequence le (encode_batch seq us) seq' = Some (encode_batch seq' us).
Proof.
  unfold SetSequence, encode_batch. rewrite EncodeFixed64_eq. apply wr_bytes_0. by rewrite !length_le_enc.
Qed.

Lemma SetCount_encode le seq us n :
  0 <= n < 2 ^ 31 ->
  SetCount le (encode_batch seq us) n =
  Some (le_enc 8 seq ++ le_enc 4 n ++ concat (encode_update <$> us)).
Proof.
  intros Hn. unfold SetCount, encode_batch. rewrite wrap_fits by (unfold fits_unsigned; simpl in *; lia).
  rewrite EncodeFixed32_eq. apply wr_bytes_app; by rewrite !length_le_enc.
Qed.

Lemma Put_encode le seq us k v :
  zlen us < 2 ^ 31 - 1 ->
  Put le (encode_batch seq us) k v = Some (encode_batch seq (us ++ [UPut k v])).
Proof.
  intros Hn. unfold Put. rewrite Count_encode by lia. cbn [mbind option_bind].
  rewrite SetCount_encode by lia. cbn [mbind option_bind]. f_equal.
  rewrite PutLengthPrefixedSlice_app, (PutLengthPrefixedSlice_app (_ ++ [_])).
  unfold encode_batch. rewrite fmap_app, concat_app, length_app. simpl. rewrite app_nil_r, Nat2Z.inj_add.
  by rewrite <-!app_assoc.
Qed.

Lemma Delete_encode le seq us k :
  zlen us < 2 ^ 31 - 1 ->
  Delete le (encode_batch seq us) k = Some (encode_batch seq (us ++ [UDelete k])).
Proof.
  intros Hn. unfold Delete. rewrite Count_encode by lia. cbn [mbind option_bind].
  rewrite SetCount_encode by lia. cbn [mbind option_bind]. f_equal.
  rewrite PutLengthPrefixedSlice_app.
  unfold encode_batch. rewrite fmap_app, concat_app, length_app. simpl. rewrite app_nil_r, Nat2Z.inj_add.
  by rewrite <-!app_assoc.
Qed.

Lemma header_encode seq us : (kHeader <=? length (encode_batch seq us))%nat = true.
Proof. apply Nat.leb_le. unfold encode_batch, kHeader. rewrite !length_app, !length_le_enc. lia. Qed.

Lemma SetContents_encode seq us : SetContents (encode_batch seq us) = Some (encode_batch seq us).
Proof. unfold SetContents. by rewrite header_encode. Qed.

Lemma Append_encode le seq us seq' us' :
  zlen us + zlen us' < 2 ^ 31 ->
  Append le (encode_batch seq us) (encode_batch seq' us') = Some (encode_batch seq (us ++ us')).
Proof.
  intros Hn. unfold Append. rewrite !Count_encode by lia. cbn [mbind option_bind].
  rewrite SetCount_encode by lia. cbn [mbind option_bind].
  rewrite drop_encode_batch, header_encode. cbn [passert mbind option_bind].
  unfold encode_batch. rewrite fmap_app, concat_app, length_app, Nat2Z.inj_add. by rewrite <-!app_assoc.
Qed.

Section iterate.
Context {St : Type} `{Handler St}.

Lemma Iterate_loop_encode us : forall fuel found st st',
  Forall fits_update us -> apply_updates us st = Some st' -> (length us < fuel)%nat ->
  Iterate_loop fuel (concat (encode_update <$> us)) found st = Some (kOk, found + zlen us, st').
Proof.
  induction us as [|u us IH]; intros fuel found st st' Hfit Happ Hf; (destruct fuel as [|fuel]; [simpl in Hf; lia|]).
  - simpl in *. simplify_eq. do 3 f_equal. lia.
  - apply Forall_cons in Hfit as [Hu Hus]. simpl in Happ, Hf.
    destruct (apply_update u st) as [st1|] eqn:E1; [|done]. simpl in Happ.
    rewrite length_cons. replace (found + Z.of_nat (S (length us))) with (found + 1 + zlen us) by lia.
    destruct u as [k v|k]; simpl in E1; cbn [fmap list_fmap concat encode_update app Iterate_loop].
    + destruct Hu as [Hk Hv]. rewrite Z.eqb_refl. cbn [mbind option_bind].
      rewrite <-app_assoc, GetLengthPrefixedSlice_put by done. cbn [mbind option_bind].
      rewrite GetLengthPrefixedSlice_put by done. cbn [mbind option_bind].
      rewrite E1. cbn [mbind option_bind]. apply IH; [done|done|lia].
    + simpl in Hu. cbn [kTypeDeletion kTypeValue Z.eqb].
      rewrite GetLengthPrefixedSlice_put by done. cbn [mbind option_bind].
      rewrite E1. cbn [mbind option_bind]. apply IH; [done|done|lia].
Qed.

Lemma length_encode_updates us : (length us <= length (concat (encode_update <$> us)))%nat.
Proof.
  induction us as [|u us IH]; [simpl; lia|]. rewrite fmap_cons. cbn [concat length]. rewrite length_app.
  assert (1 <= length (encode_update u))%nat by (destruct u; simpl; lia). lia.
Qed.

Lemma Iterate_encode le seq us st st' :
  Forall fits_update us -> zlen us < 2 ^ 31 -> apply_updates us st = Some st' ->
  Iterate le (encode_batch seq us) st = Some (kOk, st').
Proof.
  intros Hfit Hn Happ. unfold Iterate.
  destruct (Nat.ltb_spec (length (encode_batch seq us)) kHeader) as [Hlt|_].
  { unfold encode_batch, kHeader in Hlt. rewrite !length_app, !length_le_enc in Hlt. lia. }
  rewrite drop_encode_batch, (Iterate_loop_encode us _ 0 st st') by
    (done || (pose proof (length_encode_updates us); lia)).
  cbn [mbind option_bind]. change (negb (Status_ok kOk)) with false. cbv iota.
  rewrite Count_encode by done. cbn [mbind option_bind]. by rewrite Z.eqb_refl.
Qed.

(** A handler that never fails makes [Iterate] total on any octets. *)
Lemma Iterate_loop_total fuel : forall input found st,
  (forall k v st, is_Some (h_Put k v st)) -> (forall k st, is_Some (h_Delete k st)) ->
  (length input < fuel)%nat -> exists code found' st',
    Iterate_loop fuel input found st = Some (code, found', st') /\ (code = kOk \/ code = kCorruption).
Proof.
  induction fuel as [|fuel IH]; intros input found st Hp Hd Hf; [lia|]. cbn [Iterate_loop].
  destruct input as [|t input]; [eexists _, _, _; split; [done|by left]|]. simpl in Hf.
  destruct (t =? kTypeValue); [|destruct (t =? kTypeDeletion); [|eexists _, _, _; split; [done|by right]]].
  - destruct (GetLengthPrefixedSlice_total input) as (r & -> & Hr). cbn [mbind option_bind].
    destruct r as [[key rest]|]; [|eexists _, _, _; split; [done|by right]].
    destruct Hr as (hd & -> & Hhd).
    destruct (GetLengthPrefixedSlice_total rest) as (r & -> & Hr). cbn [mbind option_bind].
    destruct r as [[value rest2]|]; [|eexists _, _, _; split; [done|by right]].
    destruct Hr as (hd2 & -> & Hhd2). destruct (Hp key value st) as [st1 ->]. cbn [mbind option_bind].
    apply IH; [done|done|]. rewrite !length_app in Hf. lia.
  - destruct (GetLengthPrefixedSlice_total input) as (r & -> & Hr). cbn [mbind option_bind].
    destruct r as [[key rest]|]; [|eexists _, _, _; split; [done|by right]].
    destruct Hr as (hd & -> & Hhd). destruct (Hd key st) as [st1 ->]. cbn [mbind option_bind].
    apply IH; [done|done|]. rewrite !length_app in Hf. lia.
Qed.
End iterate.

Lemma Count_total le rep : (kHeader <= length rep)%nat -> is_Some (Count le rep).
Proof.
  unfold kHeader. intros Hl. unfold Count.
  destruct (DecodeFixed32_total le (drop 8 rep)) as [n ->]; [rewrite length_drop; lia|]. by eexists.
Qed.

Definition add_update (le : bool) (rep : list Z) (u : update) : option (list Z) :=
  match u with UPut k v => Put le rep k v | UDelete k => Delete le rep k end.

Fixpoint add_updates (le : bool) (rep : list Z) (us : list update) : option (list Z) :=
  match us with
  | [] => Some rep
  | u :: us => rep ← add_update le rep u; add_updates le rep us
  end.

Lemma add_updates_encode le seq us : forall us0,
  zlen us0 + zlen us < 2 ^ 31 ->
  add_updates le (encode_batch seq us0) us = Some (encode_batch seq (us0 ++ us)).
Proof.
  induction us as [|u us IH]; intros us0 Hn; cbn [add_updates]; [by rewrite app_nil_r|].
  rewrite length_cons in Hn.
  assert (add_update le (encode_batch seq us0) u = Some (encode_batch seq (us0 ++ [u]))) as ->
    by (destruct u; [apply Put_encode|apply Delete_encode]; lia).
  cbn [mbind option_bind]. rewrite IH by len_lia. by rewrite <-app_assoc.
Qed.

(** ** Properties *)

(** C18 (write_batch_replay) a batch built by any sequence of [Put] and
    [Delete] and given a sequence number reads back, also on a host of the
    other byte order: same sequence number and count, and [Iterate] runs the
    handler on exactly those updates in that order and returns OK. *)
Theorem write_batch_replay {St} `{Handler St} le le' us seq (st st' : St) :
  Forall fits_update us -> zlen us < 2 ^ 31 -> fits_unsigned 64 seq ->
  apply_updates us st = Some st' ->
  exists rep0 rep, add_updates le Clear us = Some rep0 /\ SetSequence le rep0 seq = Some rep /\
    Sequence le' rep = Some seq /\ Count le' rep = Some (zlen us) /\
    Iterate le' rep st = Some (kOk, st').
Proof.
  intros Hfit Hn Hs Happ. rewrite encode_batch_0. eexists _, _.
  split; [apply add_updates_encode; simpl; lia|]. split; [apply SetSequence_encode|]. cbn [app].
  split; [by apply Sequence_encode|]. split; [by apply Count_encode|]. by apply Iterate_encode.
Qed.

#[local] Instance log_handler : Handler (list update) := {
  h_Put k v st := Some (st ++ [UPut k v]);
  h_Delete k st := Some (st ++ [UDelete k]);
}.

Lemma write_batch_replay_witness :
  exists rep0 rep, add_updates true Clear [UPut [1] [2; 3]; UDelete [4]] = Some rep0 /\
    SetSequence true rep0 77 = Some rep /\
    Iterate false rep [] = Some (kOk, [UPut [1] [2; 3]; UDelete [4]]).
Proof.
  destruct (write_batch_replay true false [UPut [1] [2; 3]; UDelete [4]] 77 []
    [UPut [1] [2; 3]; UDelete [4]]) as (rep0 & rep & H1 & H2 & _ & _ & H3).
  - repeat constructor.
  - reflexivity.
  - split; [discriminate|reflexivity].
  - reflexivity.
  - exists rep0, rep. split; [exact H1|]. split; [exact H2|exact H3].
Defined.

(** [Iterate] on arbitrary octets, with a handler that
    does not fail, terminates inside the representation and returns OK or
    Corruption. *)
Theorem write_batch_safe {St} `{Handler St} le rep (st : St) :
  (forall k v st, is_Some (h_Put k v st)) -> (forall k st, is_Some (h_Delete k st)) ->
  exists code st', Iterate le rep st = Some (code, st') /\ (code = kOk \/ code = kCorruption).
Proof.
  intros Hp Hd. unfold Iterate. destruct (Nat.ltb_spec (length rep) kHeader) as [|Hl].
  { eexists _, _. split; [done|by right]. }
  destruct (Iterate_loop_total (S (length (drop kHeader rep))) (drop kHeader rep) 0 st Hp Hd)
    as (code & found & st' & -> & Hc); [lia|]. cbn [mbind option_bind].
  destruct Hc as [-> | ->]; [|eexists _, _; split; [done|by right]].
  destruct (Count_total le rep Hl) as [n ->]. simpl.
  destruct (found =? n); eexists _, _; (split; [done|auto]).
Qed.

Lemma write_batch_safe_witness :
  exists code st', Iterate true [0; 0; 0; 0; 0; 0; 0; 0; 1; 0; 0; 0; 1; 200] (@nil update) = Some (code, st')
    /\ (code = kOk \/ code = kCorruption).
Proof.
  apply (write_batch_safe true [0; 0; 0; 0; 0; 0; 0; 0; 1; 0; 0; 0; 1; 200] (@nil update));
    intros; eexists; reflexivity.
Defined.
