(* ===== verification/Memtable.v ===== *)
(** The in-memory table of LevelDB (leveldb/db/memtable.cc): entries encoded in
    the arena, ordered by a skip list, and the handler that applies a write
    batch to it (MemTableInserter in leveldb/db/write_batch.cc).

    A key of the skip list is the block of octets its pointer refers to. *)
From S2P Require Import Prelude Coding Dbformat LdbBase WriteBatch Skiplist.

Section memtable.
(** Byte order, contents of fresh memory, of unset links and of the stack. *)
Context (le : bool) (junk : nat -> Z) (uninit : option nat) (stack : nat -> nat).

(** GetLengthPrefixedSlice of memtable.cc, which trusts the five octets. *)
Definition LengthPrefixed (data : list Z) : option (list Z) :=
  r ← GetVarint32Ptr data 5;
  '(len, _, p) ← r;
  rd_bytes p 0 len.

Definition KeyComparator (aptr bptr : list Z) : option Z :=
  a ← LengthPrefixed aptr;
  b ← LengthPrefixed bptr;
  InternalKey_Compare le a b.

Definition EncodeKey (target : list Z) : list Z :=
  PutVarint32 [] (wrap 32 (zlen target)) ++ target.

Definition new_MemTable : option (SkipList (list Z)) := new_SkipList [] uninit.

Definition Add (s type : Z) (key value : list Z) (table : SkipList (list Z))
    : option (SkipList (list Z)) :=
  let key_size := zlen key in
  let val_size := zlen value in
  let internal_key_size := key_size + 8 in
  let encoded_len :=
    VarintLength internal_key_size + internal_key_size + VarintLength val_size + val_size in
  let buf := realloc junk [] encoded_len in
  let len := EncodeVarint32 (wrap 32 internal_key_size) in
  buf ← wr_bytes buf 0 len;
  let p := zlen len in
  buf ← wr_bytes buf p key;
  let p := p + key_size in
  buf ← wr_bytes buf p (EncodeFixed64 le (Z.lor (wrap 64 (Z.shiftl s 8)) type));
  let p := p + 8 in
  let vlen := EncodeVarint32 (wrap 32 val_size) in
  buf ← wr_bytes buf p vlen;
  let p := p + zlen vlen in
  buf ← wr_bytes buf p value;
  _ ← passert (p + val_size =? encoded_len);
  Insert KeyComparator uninit stack table buf.

(** [value] and [st] are the caller's; the flag tells whether there is an entry. *)
Definition Get (key : LookupKey) (value : list Z) (st : Code) (table : SkipList (list Z))
    : option (bool * list Z * Code) :=
  iter ← iter_Seek KeyComparator table (memtable_key key);
  if iter_Valid iter then
    entry ← iter_key table iter;
    r ← GetVarint32Ptr entry 5;
    '(key_length, _, key_ptr) ← r;
    ukey ← rd_bytes key_ptr 0 (key_length - 8);
    if Bytewise_Compare ukey (lk_user_key key) =? 0 then
      num ← DecodeFixed64 le (drop (Z.to_nat (key_length - 8)) key_ptr);
      let type := Z.land num 255 in
      if type =? kTypeValue then
        v ← LengthPrefixed (drop (Z.to_nat key_length) key_ptr);
        Some (true, v, st)
      else if type =? kTypeDeletion then Some (true, value, kNotFound)
      else Some (false, value, st)
    else Some (false, value, st)
  else Some (false, value, st).

(** ** MemTableIterator *)
Definition mi_Seek (k : list Z) (table : SkipList (list Z)) : option (option nat) :=
  iter_Seek KeyComparator table (EncodeKey k).
Definition mi_key (table : SkipList (list Z)) (iter : option nat) : option (list Z) :=
  entry ← iter_key table iter; LengthPrefixed entry.
Definition mi_value (table : SkipList (list Z)) (iter : option nat) : option (list Z) :=
  entry ← iter_key table iter;
  r ← GetVarint32Ptr entry 5;
  '(len, _, p) ← r;
  LengthPrefixed (drop (Z.to_nat len) p).

(** ** MemTableInserter: the table and the next sequence number *)
Record Inserter := { sequence_ : Z; mem_ : SkipList (list Z) }.

#[local] Instance MemTableInserter : Handler Inserter := {
  h_Put key value i :=
    m ← Add (sequence_ i) kTypeValue key value (mem_ i);
    Some {| sequence_ := wrap 64 (sequence_ i + 1); mem_ := m |};
  h_Delete key i :=
    m ← Add (sequence_ i) kTypeDeletion key [] (mem_ i);
    Some {| sequence_ := wrap 64 (sequence_ i + 1); mem_ := m |};
}.

Definition InsertInto (rep : list Z) (memtable : SkipList (list Z))
    : option (Code * SkipList (list Z)) :=
  seq ← Sequence le rep;
  '(code, i) ← Iterate le rep {| sequence_ := seq; mem_ := memtable |};
  Some (code, mem_ i).
End memtable.

(** ** Versions

    The table holds versions: an update with its sequence number. *)
Definition version : Type := Z * update.
Definition v_key (e : version) : list Z := match e.2 with UPut k _ | UDelete k => k end.
Definition v_type (e : version) : Z := match e.2 with UPut _ _ => kTypeValue | UDelete _ => kTypeDeletion end.
Definition v_value (e : version) : list Z := match e.2 with UPut _ v => v | UDelete _ => [] end.
Definition v_tag (e : version) : Z := tag e.1 (v_type e).

Definition fits_version (e : version) : Prop :=
  0 <= e.1 < 2 ^ 56 /\ zlen (v_key e) + 8 < 2 ^ 32 /\ zlen (v_value e) < 2 ^ 32.

Definition encode_version (e : version) : list Z :=
  EncodeVarint32 (zlen (v_key e) + 8) ++ ikey (v_key e) (v_tag e) ++
  EncodeVarint32 (zlen (v_value e)) ++ v_value e.

(** The entry for [u] that a reader at sequence [s] sees: none, a deletion
    ([Some None]) or a value. *)
Definition v_result (e : version) : option (list Z) :=
  match e.2 with UPut _ v => Some v | UDelete _ => None end.
Definition see (u : list Z) (s : Z) (acc : option (option (list Z))) (e : version)
    : option (option (list Z)) :=
  if decide (v_key e = u /\ e.1 <= s) then Some (v_result e) else acc.
Definition visible (u : list Z) (s : Z) (es : list version) : option (option (list Z)) :=
  foldl (see u s) None es.

(** ** Entries and lookup keys as blocks *)
Definition block (u : list Z) (num : Z) (rest : list Z) : list Z :=
  EncodeVarint32 (zlen u + 8) ++ ikey u num ++ rest.
Definition valid_block (b : list Z) : Prop :=
  exists u num rest, b = block u num rest /\ zlen u + 8 < 2 ^ 32 /\ fits_unsigned 64 num.

Lemma fits_len (n : Z) : 0 <= n < 2 ^ 32 -> fits_unsigned 32 n.
Proof. done. Qed.

Lemma varint_ptr5 v rest :
  0 <= v < 2 ^ 32 -> exists n, GetVarint32Ptr (EncodeVarint32 v ++ rest) 5 = Some (Some (v, n, rest)).
Proof.
  intros Hv. destruct (length_EncodeVarint32 v Hv) as [Hl _].
  eexists. apply GetVarint32Ptr_encode; [done|lia].
Qed.

Lemma LengthPrefixed_spec s rest :
  zlen s < 2 ^ 32 -> LengthPrefixed (EncodeVarint32 (zlen s) ++ s ++ rest) = Some s.
Proof.
  intros Hs. unfold LengthPrefixed.
  destruct (varint_ptr5 (zlen s) (s ++ rest)) as [n ->]; [lia|]. cbn [mbind option_bind].
  by apply rd_bytes_0.
Qed.

Lemma LengthPrefixed_block u num rest :
  zlen u + 8 < 2 ^ 32 -> LengthPrefixed (block u num rest) = Some (ikey u num).
Proof.
  intros Hu. unfold block. replace (zlen u + 8) with (zlen (ikey u num)) in * by (rewrite length_ikey; lia).
  by apply LengthPrefixed_spec.
Qed.

Section order.
Context (le : bool).

Lemma KeyComparator_block u n r u' n' r' :
  zlen u + 8 < 2 ^ 32 -> zlen u' + 8 < 2 ^ 32 -> fits_unsigned 64 n -> fits_unsigned 64 n' ->
  KeyComparator le (block u n r) (block u' n' r') = Some (ikey_cmp u n u' n').
Proof.
  intros. unfold KeyComparator. rewrite !LengthPrefixed_block by done. cbn [mbind option_bind].
  by apply InternalKey_Compare_ikey.
Qed.

Definition cmp_block (a b : list Z) : Z := default 0 (KeyComparator le a b).

Lemma cmp_block_eq u n r u' n' r' :
  zlen u + 8 < 2 ^ 32 -> zlen u' + 8 < 2 ^ 32 -> fits_unsigned 64 n -> fits_unsigned 64 n' ->
  cmp_block (block u n r) (block u' n' r') = ikey_cmp u n u' n'.
Proof. intros. unfold cmp_block. by rewrite KeyComparator_block. Qed.

#[export] Instance block_order : KeyOrder (KeyComparator le) valid_block cmp_block.
Proof.
  split.
  - intros a b (u & n & r & -> & ? & ?) (u' & n' & r' & -> & ? & ?).
    by rewrite KeyComparator_block, cmp_block_eq.
  - intros a b (u & n & r & -> & ? & ?) (u' & n' & r' & -> & ? & ?).
    rewrite !cmp_block_eq by done. apply ikey_cmp_antisym.
  - intros a b c (u & n & r & -> & ? & ?) (u' & n' & r' & -> & ? & ?) (u'' & n'' & r'' & -> & ? & ?).
    rewrite !cmp_block_eq by done. apply ikey_cmp_trans.
  - intros a b c (u & n & r & -> & ? & ?) (u' & n' & r' & -> & ? & ?) (u'' & n'' & r'' & -> & ? & ?).
    rewrite !cmp_block_eq by done. intros Hlt [-> ->]%ikey_cmp_zero. done.
Qed.
End order.

Lemma encode_version_block e :
  encode_version e = block (v_key e) (v_tag e) (EncodeVarint32 (zlen (v_value e)) ++ v_value e).
Proof. done. Qed.

Lemma v_type_range e : 0 <= v_type e <= 1.
Proof. unfold v_type, kTypeValue, kTypeDeletion. destruct e.2; lia. Qed.

Lemma v_tag_fits e : fits_version e -> fits_unsigned 64 (v_tag e).
Proof. intros (Hs & _). pose proof (v_type_range e). apply tag_fits; [done|lia]. Qed.

Lemma encode_version_valid e : fits_version e -> valid_block (encode_version e).
Proof.
  intros Hf. pose proof (v_tag_fits e Hf). destruct Hf as (_ & Hk & _).
  eexists _, _, _. split; [apply encode_version_block|]. done.
Qed.

(** [Add] stores exactly the encoded version. *)
Lemma Add_encode le junk uninit stack e table :
  fits_version e ->
  Add le junk uninit stack e.1 (v_type e) (v_key e) (v_value e) table
  = Insert (KeyComparator le) uninit stack table (encode_version e).
Proof.
  intros (Hs & Hk & Hv). pose proof (v_type_range e) as Ht.
  unfold Add. rewrite pack_tag, EncodeFixed64_eq by lia.
  set (u := v_key e) in *. set (v := v_value e) in *. fold (v_tag e).
  assert (fits_unsigned 32 (zlen u + 8)) as Hfk by (unfold fits_unsigned; lia).
  assert (fits_unsigned 32 (zlen v)) as Hfv by (unfold fits_unsigned; lia).
  rewrite !(wrap_fits 32) by done. unfold encode_version. fold u v.
  set (len := EncodeVarint32 (zlen u + 8)). set (vlen := EncodeVarint32 (zlen v)).
  rewrite (proj2 (length_EncodeVarint32 _ Hfk)), (proj2 (length_EncodeVarint32 _ Hfv)). fold len vlen.
  set (buf := realloc _ _ _). assert (length buf = Z.to_nat (zlen len + (zlen u + 8) + zlen vlen + zlen v)) as Hb
    by apply length_realloc. clearbody buf len vlen.
  destruct (split_at buf (length len)) as (b1 & r1 & -> & H1); [lia|]. rewrite length_app in Hb.
  destruct (split_at r1 (length u)) as (b2 & r2 & -> & H2); [lia|]. rewrite length_app in Hb.
  destruct (split_at r2 8) as (b3 & r3 & -> & H3); [lia|]. rewrite length_app in Hb.
  destruct (split_at r3 (length vlen)) as (b4 & b5 & -> & H4); [lia|]. rewrite length_app in Hb.
  rewrite wr_bytes_0 by done. cbn [mbind option_bind].
  rewrite (wr_bytes_app len b2 u) by done. cbn [mbind option_bind].
  rewrite (app_assoc len u), (wr_bytes_app (len ++ u) b3) by len_lia. cbn [mbind option_bind].
  rewrite (app_assoc (len ++ u)), (wr_bytes_app ((len ++ u) ++ _) b4 vlen) by len_lia. cbn [mbind option_bind].
  rewrite (app_assoc ((len ++ u) ++ _)), <-(app_nil_r b5), (wr_bytes_app (((len ++ u) ++ _) ++ vlen) b5 v) by len_lia.
  cbn [mbind option_bind]. rewrite (proj2 (Z.eqb_eq _ _)) by lia. cbn [passert mbind option_bind].
  unfold ikey. by rewrite app_nil_r, <-!app_assoc.
Qed.

(** ** The table as a list of versions, oldest first *)
Definition mem_rep (le : bool) (table : SkipList (list Z)) (es : list version) : Prop :=
  Forall fits_version es /\ StronglySorted (fun a b => a.1 < b.1) es /\
  exists ks, represents (valid := valid_block) (cmp := cmp_block le) [] table ks /\
    ks ≡ₚ encode_version <$> es.

Lemma visible_app u s es es' :
  visible u s (es ++ es') = foldl (see u s) (visible u s es) es'.
Proof. apply foldl_app. Qed.

Lemma see_none u s es acc :
  Forall (fun e => ~ (v_key e = u /\ e.1 <= s)) es -> foldl (see u s) acc es = acc.
Proof.
  induction 1 as [|e es He _ IH]; [done|]. simpl. unfold see at 2. by rewrite decide_False.
Qed.

Lemma visible_none u s es :
  (forall e, e ∈ es -> v_key e = u -> ~ e.1 <= s) -> visible u s es = None.
Proof. intros H. apply see_none, Forall_forall. intros e He [Hk Hs]. by apply (H e). Qed.

Lemma visible_max u s es e :
  StronglySorted (fun a b => a.1 < b.1) es -> e ∈ es -> v_key e = u -> e.1 <= s ->
  (forall e', e' ∈ es -> v_key e' = u -> e'.1 <= s -> e'.1 <= e.1) ->
  visible u s es = Some (v_result e).
Proof.
  intros Hs He Hk Hle Hmax. apply list_elem_of_split in He as (l1 & l2 & ->).
  rewrite visible_app. simpl. unfold see at 2. rewrite decide_True by done. apply see_none.
  apply Forall_forall. intros e' He' [Hk' Hs'].
  apply StronglySorted_app in Hs as (_ & _ & Hs). apply StronglySorted_inv in Hs as [_ Hgt].
  rewrite Forall_forall in Hgt. specialize (Hgt e' He'). simpl in Hgt.
  specialize (Hmax e' ltac:(set_solver) Hk' Hs'). lia.
Qed.

Section rep.
Context (le : bool) (junk : nat -> Z) (uninit : option nat) (stack : nat -> nat).
Implicit Types (table : SkipList (list Z)) (es : list version).

Lemma new_MemTable_rep : exists table, new_MemTable uninit = Some table /\ mem_rep le table [].
Proof.
  destruct (new_SkipList_spec (valid := valid_block) (cmp := cmp_block le) [] uninit) as (sl & E & Hrep).
  exists sl. split; [exact E|]. split; [done|]. split; [constructor|]. by exists [].
Qed.

Lemma cmp_versions e e' :
  fits_version e -> fits_version e' ->
  cmp_block le (encode_version e) (encode_version e') = ikey_cmp (v_key e) (v_tag e) (v_key e') (v_tag e').
Proof.
  intros Hf Hf'. pose proof (v_tag_fits _ Hf). pose proof (v_tag_fits _ Hf').
  destruct Hf as (_ & ? & _), Hf' as (_ & ? & _). rewrite !encode_version_block. by apply cmp_block_eq.
Qed.

Lemma v_tag_lt e e' : v_tag e < v_tag e' -> e.1 <= e'.1.
Proof. unfold v_tag, tag. pose proof (v_type_range e). pose proof (v_type_range e'). lia. Qed.

Lemma Add_rep table es e :
  mem_rep le table es -> fits_version e -> Forall (fun e' => e'.1 < e.1) es ->
  exists table', Add le junk uninit stack e.1 (v_type e) (v_key e) (v_value e) table = Some table' /\
    mem_rep le table' (es ++ [e]).
Proof.
  intros (Hfit & Hs & ks & Hrep & HP) He Hlt. rewrite Add_encode by done.
  destruct (represents_insert (compare := KeyComparator le) [] uninit stack table ks (encode_version e) Hrep)
    as (table' & ks1 & ks2 & E & -> & _ & _ & Hrep').
  - by apply encode_version_valid.
  - rewrite HP. apply Forall_fmap. rewrite Forall_forall in *. intros e' He'. simpl.
    rewrite cmp_versions by auto. rewrite ikey_cmp_zero. intros [_ Ht]. specialize (Hlt e' He').
    unfold v_tag, tag in Ht. pose proof (v_type_range e). pose proof (v_type_range e'). lia.
  - exists table'. split; [done|]. split; [by apply Forall_app; split; [|constructor]|]. split.
    + apply StronglySorted_app. split_and!; [|done|repeat constructor].
      intros a b Ha ->%list_elem_of_singleton. rewrite Forall_forall in Hlt. by apply Hlt.
    + exists (ks1 ++ encode_version e :: ks2). split; [done|].
      rewrite fmap_app. simpl. rewrite <-HP. solve_Permutation.
Qed.

(** What [Get] does with the entry it finds. *)
Definition read_entry (entry : list Z) (u value : list Z) (st : Code) : option (bool * list Z * Code) :=
  r ← GetVarint32Ptr entry 5;
  '(key_length, _, key_ptr) ← r;
  ukey ← rd_bytes key_ptr 0 (key_length - 8);
  if Bytewise_Compare ukey u =? 0 then
    num ← DecodeFixed64 le (drop (Z.to_nat (key_length - 8)) key_ptr);
    let type := Z.land num 255 in
    if type =? kTypeValue then
      v ← LengthPrefixed (drop (Z.to_nat key_length) key_ptr);
      Some (true, v, st)
    else if type =? kTypeDeletion then Some (true, value, kNotFound)
    else Some (false, value, st)
  else Some (false, value, st).

Lemma read_entry_spec e u value st :
  fits_version e -> read_entry (encode_version e) u value st =
    Some (if decide (v_key e = u) then
            match v_result e with Some v => (true, v, st) | None => (true, value, kNotFound) end
          else (false, value, st)).
Proof.
  intros Hf. pose proof (v_tag_fits e Hf) as Htag. destruct Hf as (Hs & Hk & Hv). unfold read_entry, encode_version.
  destruct (varint_ptr5 (zlen (v_key e) + 8) (ikey (v_key e) (v_tag e) ++ EncodeVarint32 (zlen (v_value e)) ++ v_value e))
    as [n ->]; [lia|]. cbn [mbind option_bind]. unfold ikey. rewrite <-app_assoc.
  rewrite rd_bytes_0 by lia. cbn [mbind option_bind]. unfold Bytewise_Compare. rewrite Slice_compare_lex.
  destruct (decide (v_key e = u)) as [<-|Hne].
  2:{ rewrite (proj2 (Z.eqb_neq _ _)) by (by rewrite lex_eq). done. }
  rewrite lex_refl. simpl Z.eqb. cbv iota.
  replace (Z.to_nat (zlen (v_key e) + 8 - 8)) with (length (v_key e)) by lia. rewrite drop_app_length.
  rewrite <-(EncodeFixed64_eq le (v_tag e)), DecodeFixed64_encode, wrap_fits by done. cbn [mbind option_bind].
  rewrite land_255. unfold v_tag, tag. replace ((e.1 * 256 + v_type e) mod 256) with (v_type e)
    by (pose proof (v_type_range e); zdiv_lia).
  unfold v_type, v_result, v_value in *. destruct e as [seq [k v|k]]; simpl in *; [|done].
  rewrite app_assoc, drop_app_length' by (rewrite length_app, EncodeFixed64_eq, length_le_enc; lia).
  rewrite <-(app_nil_r v) at 2. by rewrite LengthPrefixed_spec.
Qed.

Lemma Get_unfold lk value st table :
  Get le lk value st table =
  (iter ← iter_Seek (KeyComparator le) table (memtable_key lk);
   if iter_Valid iter then entry ← iter_key table iter; read_entry entry (lk_user_key lk) value st
   else Some (false, value, st)).
Proof. done. Qed.

Lemma encode_version_inj e e' :
  fits_version e -> fits_version e' -> encode_version e = encode_version e' ->
  e.1 = e'.1 /\ v_key e = v_key e'.
Proof.
  intros Hf Hf' E. assert (cmp_block le (encode_version e) (encode_version e') = 0) as Hz.
  { rewrite <-E, cmp_versions by done. apply ikey_cmp_refl. }
  rewrite cmp_versions in Hz by done. apply ikey_cmp_zero in Hz as [Hk Ht]. split; [|done].
  unfold v_tag, tag in Ht. pose proof (v_type_range e). pose proof (v_type_range e'). lia.
Qed.

Lemma seek_tag_fits s : 0 <= s < 2 ^ 56 -> fits_unsigned 64 (tag s kValueTypeForSeek).
Proof. intros. apply tag_fits; [done|]. unfold kValueTypeForSeek, kTypeValue. lia. Qed.

(** An entry for [u] is not before the lookup key exactly when it is visible. *)
Lemma cmp_lookup e u s r :
  fits_version e -> zlen u + 8 < 2 ^ 32 -> 0 <= s < 2 ^ 56 -> v_key e = u ->
  cmp_block le (encode_version e) (block u (tag s kValueTypeForSeek) r) < 0 <-> s < e.1.
Proof.
  intros Hf Hu Hs <-. pose proof (v_tag_fits e Hf). pose proof (v_type_range e).
  rewrite encode_version_block, cmp_block_eq by (done || by apply seek_tag_fits || by destruct Hf as (_ & ? & _)).
  rewrite ikey_cmp_lt, lex_refl. unfold v_tag, tag, kValueTypeForSeek, kTypeValue.
  split; [intros [|[_ ?]]; lia|]. intros. right. split; [done|lia].
Qed.

Lemma Get_rep table es u s lk value st :
  mem_rep le table es -> zlen u + 8 < 2 ^ 32 -> 0 <= s < 2 ^ 56 ->
  new_LookupKey le junk u s = Some lk ->
  Get le lk value st table =
    Some (match visible u s es with
          | None => (false, value, st)
          | Some None => (true, value, kNotFound)
          | Some (Some v) => (true, v, st)
          end).
Proof.
  intros (Hfit & Hsort & ks & Hrep & HP) Hu Hs Elk. rewrite Get_unfold.
  destruct (lk_parts le junk u s Hu Hs) as (lk' & Elk' & Hmk & _ & Huk). rewrite Elk in Elk'. injection Elk' as <-.
  rewrite Hmk, Huk. rewrite <-(app_nil_r (ikey u _)). fold (block u (tag s kValueTypeForSeek) []).
  set (b := block u (tag s kValueTypeForSeek) []).
  assert (valid_block b) as Hb by (eexists _, _, _; split; [done|]; split; [done|by apply seek_tag_fits]).
  destruct (represents_sorted [] table ks Hrep) as [Hks _].
  destruct (represents_seek (compare := KeyComparator le) [] table ks b Hrep Hb)
    as (ks1 & ks2 & node & -> & Hlt & Hge & -> & Hnode). cbn [mbind option_bind].
  rewrite Forall_forall in Hfit. rewrite Forall_forall in Hlt, Hge.
  (* a visible entry for u is among the keys not before the lookup key *)
  assert (forall e, e ∈ es -> v_key e = u -> e.1 <= s -> encode_version e ∈ ks2) as Hvis.
  { intros e He Hk Hle. assert (encode_version e ∈ ks1 ++ ks2) as [Hin|Hin]%elem_of_app; [|specialize (Hlt _ Hin)|done].
    - rewrite HP. by apply list_elem_of_fmap_2.
    - apply (cmp_lookup e u s []) in Hlt; [lia|auto|done..]. }
  destruct ks2 as [|y ks2].
  { rewrite Hnode, visible_none; [done|]. intros e He Hk Hle.
    by apply (not_elem_of_nil (encode_version e)), Hvis. }
  destruct Hnode as [-> ->]. cbn [mbind option_bind].
  assert (y ∈ encode_version <$> es) as (e0 & -> & He0)%list_elem_of_fmap by (rewrite <-HP; set_solver).
  rewrite read_entry_spec by auto.
  apply StronglySorted_app in Hks as (_ & _ & Hks). apply StronglySorted_inv in Hks as [_ Hafter].
  rewrite Forall_forall in Hafter.
  specialize (Hge _ ltac:(by left)).
  assert (forall e, e ∈ es -> v_key e = u -> e.1 <= s ->
    (e.1 = e0.1 /\ v_key e = v_key e0) \/ ikey_cmp (v_key e0) (v_tag e0) (v_key e) (v_tag e) < 0) as Hcase.
  { intros e He Hk Hle. destruct (proj1 (elem_of_cons _ _ _) (Hvis e He Hk Hle)) as [E|Hin].
    - left. apply encode_version_inj in E as [? ?]; auto.
    - right. rewrite <-cmp_versions by auto. by apply Hafter. }
  case_decide as Hk0.
  - rewrite (visible_max u s es e0 Hsort He0 Hk0); [by destruct (v_result e0)| |].
    + unfold b in Hge. rewrite (cmp_lookup e0 u s []) in Hge by auto. lia.
    + intros e He Hk Hle.
      destruct (Hcase e He Hk Hle) as [[? _]|Hc]; [lia|]. apply ikey_cmp_lt in Hc as [Hc|[_ Hc]].
      * rewrite Hk0, Hk, lex_refl in Hc. lia.
      * by apply v_tag_lt.
  - rewrite visible_none; [done|]. intros e He Hk Hle.
    destruct (Hcase e He Hk Hle) as [[_ E]|Hc]; [by rewrite <-E in Hk0|].
    apply Hge. rewrite encode_version_block. unfold b.
    rewrite cmp_block_eq by (by apply v_tag_fits, Hfit || by apply seek_tag_fits || done || by destruct (Hfit _ He0) as (_ & ? & _)).
    apply ikey_cmp_lt in Hc as [Hc|[Hc _]]; [|congruence]. rewrite Hk in Hc. apply ikey_cmp_lt. by left.
Qed.

(** ** Batches *)
Notation inserter_handler := (MemTableInserter le junk uninit stack).

(** The versions a batch adds, from sequence number [seq]. *)
Fixpoint versions (seq : Z) (us : list update) : list version :=
  match us with
  | [] => []
  | u :: us => (seq, u) :: versions (seq + 1) us
  end.

Lemma versions_app seq us us' :
  versions seq (us ++ us') = versions seq us ++ versions (seq + zlen us) us'.
Proof.
  revert seq. induction us as [|u us IH]; intros seq; simpl; [by rewrite Z.add_0_r|].
  rewrite IH. do 2 f_equal. f_equal. lia.
Qed.

Lemma versions_range seq us :
  Forall (fun e => seq <= e.1 < seq + zlen us) (versions seq us).
Proof.
  revert seq. induction us as [|u us IH]; intros seq; simpl; constructor; [simpl; lia|].
  eapply Forall_impl; [apply IH|]. simpl. intros. lia.
Qed.

Lemma versions_fit_updates seq us : Forall fits_version (versions seq us) -> Forall fits_update us.
Proof.
  revert seq. induction us as [|u us IH]; intros seq; simpl; [done|].
  intros [(_ & Hk & Hv) Hus]%Forall_cons. constructor; [|by eapply IH].
  unfold v_key, v_value in *. destruct u; simpl in *; lia.
Qed.

Lemma apply_updates_rep us : forall seq table es,
  mem_rep le table es -> StronglySorted (fun a b => a.1 < b.1) (es ++ versions seq us) ->
  0 <= seq -> seq + zlen us <= 2 ^ 56 -> Forall fits_version (versions seq us) ->
  exists table', @apply_updates _ inserter_handler us {| sequence_ := seq; mem_ := table |}
      = Some {| sequence_ := seq + zlen us; mem_ := table' |} /\
    mem_rep le table' (es ++ versions seq us).
Proof.
  induction us as [|u us IH]; intros seq table es Hrep Hlt H0 Hseq Hfit; cbn [apply_updates versions].
  - exists table. rewrite app_nil_r. split; [do 2 f_equal; simpl; lia|done].
  - rewrite length_cons in Hseq. apply Forall_cons in Hfit as [Hu Hus].
    cbn [versions] in Hlt.
    destruct (Add_rep table es (seq, u) Hrep Hu) as (table1 & E & Hrep1).
    { apply StronglySorted_app in Hlt as (Hlt & _ & _). apply Forall_forall. intros e He. apply Hlt; [done|by left]. }
    assert (@apply_update _ inserter_handler u {| sequence_ := seq; mem_ := table |}
      = Some {| sequence_ := seq + 1; mem_ := table1 |}) as ->.
    { destruct u as [k v|k]; simpl in E |- *; unfold v_key, v_value, v_type in E; simpl in E; rewrite E; simpl;
        rewrite wrap_fits by (unfold fits_unsigned; simpl in *; lia); done. }
    cbn [mbind option_bind].
    destruct (IH (seq + 1) table1 (es ++ [(seq, u)])) as (table' & E' & Hrep'); [done|by rewrite <-app_assoc|lia|lia|done|].
    exists table'. rewrite <-app_assoc in Hrep'. split; [|done].
    rewrite E', length_cons. do 2 f_equal. lia.
Qed.

Lemma InsertInto_rep seq us table es :
  mem_rep le table es -> StronglySorted (fun a b => a.1 < b.1) (es ++ versions seq us) ->
  0 <= seq -> seq + zlen us <= 2 ^ 56 -> zlen us < 2 ^ 31 -> Forall fits_version (versions seq us) ->
  exists table', InsertInto le junk uninit stack (encode_batch seq us) table = Some (kOk, table') /\
    mem_rep le table' (es ++ versions seq us).
Proof.
  intros Hrep Hlt H0 Hseq Hn Hfit.
  destruct (apply_updates_rep us seq table es) as (table' & E & Hrep'); [done..|].
  exists table'. split; [|done]. unfold InsertInto.
  rewrite Sequence_encode by (unfold fits_unsigned; simpl in *; lia). cbn [mbind option_bind].
  rewrite (Iterate_encode le seq us _ _ (versions_fit_updates seq us Hfit) Hn E). done.
Qed.
End rep.

(** ** The map the versions stand for *)
Definition apply_version (m : gmap (list Z) (list Z)) (e : version) : gmap (list Z) (list Z) :=
  match e.2 with UPut k v => <[k := v]> m | UDelete k => delete k m end.
Definition versions_map (es : list version) : gmap (list Z) (list Z) := foldl apply_version ∅ es.

Lemma versions_map_app es es' : versions_map (es ++ es') = foldl apply_version (versions_map es) es'.
Proof. apply foldl_app. Qed.

(** A reader at or after the last version sees the map. *)
Lemma visible_map u s es :
  Forall (fun e => e.1 <= s) es -> versions_map es !! u = match visible u s es with Some r => r | None => None end.
Proof.
  induction es as [|e es IH] using rev_ind; intros Hs; [done|].
  apply Forall_app in Hs as [Hs [He _]%Forall_cons]. rewrite versions_map_app, visible_app. simpl.
  specialize (IH Hs). unfold see, apply_version, v_result, v_key. destruct e as [seq [k v|k]]; simpl in *.
  - case_decide as Hd; destruct (decide (k = u)) as [->|].
    + by rewrite lookup_insert_eq.
    + naive_solver.
    + naive_solver.
    + by rewrite lookup_insert_ne.
  - case_decide as Hd; destruct (decide (k = u)) as [->|].
    + by rewrite lookup_delete_eq.
    + naive_solver.
    + naive_solver.
    + by rewrite lookup_delete_ne.
Qed.

(** Versions after the snapshot are invisible. *)
Lemma visible_later u s es es' :
  Forall (fun e => s < e.1) es' -> visible u s (es ++ es') = visible u s es.
Proof.
  intros H. rewrite visible_app. apply see_none. eapply Forall_impl; [exact H|]. simpl. intros e He [_ ?]. lia.
Qed.

(** ** Properties *)
Definition add_all (le : bool) (junk : nat -> Z) uninit stack :=
  fix go (es : list version) (table : SkipList (list Z)) : option (SkipList (list Z)) :=
  match es with
  | [] => Some table
  | e :: es =>
    table ← Add le junk uninit stack e.1 (v_type e) (v_key e) (v_value e) table; go es table
  end.

Lemma add_all_rep le junk uninit stack es : forall table es0,
  mem_rep le table es0 -> Forall fits_version es -> StronglySorted (fun a b => a.1 < b.1) (es0 ++ es) ->
  exists table', add_all le junk uninit stack es table = Some table' /\ mem_rep le table' (es0 ++ es).
Proof.
  induction es as [|e es IH]; intros table es0 Hrep Hfit Hs; cbn [add_all].
  - exists table. by rewrite app_nil_r.
  - apply Forall_cons in Hfit as [He Hfit].
    destruct (Add_rep le junk uninit stack table es0 e Hrep He) as (table1 & -> & Hrep1).
    { apply StronglySorted_app in Hs as (Hs & _ & _). apply Forall_forall. intros e' He'. apply Hs; [done|by left]. }
    cbn [mbind option_bind]. rewrite cons_middle, app_assoc in Hs |- *.
    by apply IH.
Qed.

(** C16 (memtable_snapshot_read) a memtable filled with versions of increasing
    sequence numbers, keys and values each of fewer than 2^32 octets, answers a lookup of any key at any snapshot with the last version of
    that key written at or before the snapshot: its value, NotFound for a
    deletion, and no entry when there is none.  All encodings, comparisons and
    skip-list traversals on the way stay inside their buffers, and the assertions
    of [Add] and of the skip list hold. *)
Theorem memtable_snapshot_read le junk uninit stack es :
  Forall fits_version es -> StronglySorted (fun a b => a.1 < b.1) es ->
  exists table0 table, new_MemTable uninit = Some table0 /\
    add_all le junk uninit stack es table0 = Some table /\
    forall u s value st, zlen u + 8 < 2 ^ 32 -> 0 <= s < 2 ^ 56 ->
      exists lk, new_LookupKey le junk u s = Some lk /\
        Get le lk value st table =
          Some (match visible u s es with
                | None => (false, value, st)
                | Some None => (true, value, kNotFound)
                | Some (Some v) => (true, v, st)
                end).
Proof.
  intros Hfit Hs. destruct (new_MemTable_rep le uninit) as (table0 & E0 & Hrep0).
  destruct (add_all_rep le junk uninit stack es table0 [] Hrep0 Hfit Hs) as (table & E & Hrep).
  exists table0, table. split_and!; [done|done|]. intros u s value st Hu Hsn.
  destruct (lk_parts le junk u s Hu Hsn) as (lk & Elk & _). exists lk. split; [done|].
  by apply (Get_rep le junk).
Qed.

Lemma memtable_snapshot_read_witness :
  exists table0 table lk, new_MemTable None = Some table0 /\
    add_all true (fun _ => 0) None id [(1, UPut [97] [1]); (2, UPut [97] [2]); (3, UDelete [97])] table0 = Some table /\
    new_LookupKey true (fun _ => 0) [97] 2 = Some lk /\
    Get true lk [] kOk table = Some (true, [2], kOk).
Proof.
  destruct (memtable_snapshot_read true (fun _ => 0) None id
    [(1, UPut [97] [1]); (2, UPut [97] [2]); (3, UDelete [97])]) as (table0 & table & H1 & H2 & H3).
  - repeat constructor; vm_compute; discriminate.
  - repeat constructor.
  - destruct (H3 [97] 2 [] kOk) as (lk & H4 & H5); [reflexivity|split; [discriminate|reflexivity]|].
    exists table0, table, lk. split; [exact H1|]. split; [exact H2|]. split; [exact H4|exact H5].
Defined.
