(* ===== verification/Iterator.v ===== *)
(** The interfaces the tables of LevelDB are written against: the order of the
    keys ([include/leveldb/comparator.h]) and the iterators
    ([include/leveldb/iterator.h], [table/iterator.cc]).

    An iterator that is right is a cursor over a list of entries ([is_cursor]):
    the block, two-level and merging iterators are proved against that contract
    of the iterators they are made of.  [None] is a failed assertion or a read
    outside of a buffer. *)
From S2P Require Import Prelude Coding Dbformat LdbBase.

(** ** The order of the keys ([include/leveldb/comparator.h])

    [Compare] may be undefined on octets that are not keys. *)
Class Comparator := {
  Compare : list Z -> list Z -> option Z;
  is_key : list Z -> Prop;
  Compare_total a b : is_key a -> is_key b -> is_Some (Compare a b);
  Compare_antisym a b c c' :
    is_key a -> is_key b -> Compare a b = Some c -> Compare b a = Some c' -> (c < 0 <-> 0 < c');
  Compare_eq a b : is_key a -> is_key b -> Compare a b = Some 0 <-> a = b;
  Compare_trans a b d c c' c'' :
    is_key a -> is_key b -> is_key d ->
    Compare a b = Some c -> Compare b d = Some c' -> Compare a d = Some c'' ->
    c < 0 -> c' < 0 -> c'' < 0;
}.

Section order.
Context {C : Comparator}.
Implicit Types es : list (list Z * list Z).

Definition klt (a b : list Z) : Prop := exists c, Compare a b = Some c /\ c < 0.

Definition increasing es : Prop := Forall is_key (fst <$> es) /\ StronglySorted klt (fst <$> es).

Lemma klt_flip a b : is_key a -> is_key b -> klt a b -> exists c, Compare b a = Some c /\ 0 < c.
Proof.
  intros Ha Hb (c & E & Hc). destruct (Compare_total b a Hb Ha) as [c' E']. exists c'. split; [done|].
  by apply (Compare_antisym a b c c').
Qed.

Lemma klt_trans a b c : is_key a -> is_key b -> is_key c -> klt a b -> klt b c -> klt a c.
Proof.
  intros Ha Hb Hc (x & E1 & H1) (y & E2 & H2). destruct (Compare_total a c Ha Hc) as [z E3].
  exists z. split; [done|]. by apply (Compare_trans a b c x y z).
Qed.

Lemma increasing_lookup es i j e e' :
  increasing es -> es !! i = Some e -> es !! j = Some e' -> (i < j)%nat -> klt e.1 e'.1.
Proof.
  intros [_ Hs] Hi Hj Hij. revert i j Hi Hj Hij. induction es as [|e0 es IH]; intros i j Hi Hj Hij; [done|].
  simpl in Hs. apply StronglySorted_inv in Hs as [Hs Hf].
  destruct i as [|i], j as [|j]; simpl in *; try lia.
  - injection Hi as ->. rewrite Forall_fmap, Forall_lookup in Hf. by apply (Hf j).
  - apply (IH Hs i j); [done|done|lia].
Qed.

Lemma increasing_key es i e : increasing es -> es !! i = Some e -> is_key e.1.
Proof. intros [Hk _] Hi. rewrite Forall_fmap, Forall_lookup in Hk. by apply (Hk i). Qed.

Lemma increasing_app es es' : increasing (es ++ es') -> increasing es.
Proof.
  unfold increasing. rewrite fmap_app, Forall_app. intros [[H1 _] H2]. split; [done|].
  clear H1. induction es as [|e es IH]; simpl in *; [constructor|].
  apply StronglySorted_inv in H2 as [? [? _]%Forall_app]. constructor; auto.
Qed.


Lemma increasing_app_r es es' : increasing (es ++ es') -> increasing es'.
Proof.
  unfold increasing. rewrite fmap_app, Forall_app. intros [[_ H1] H2]. split; [done|].
  clear H1. induction es as [|e es IH]; simpl in *; [done|]. apply StronglySorted_inv in H2 as [? _]. auto.
Qed.

Lemma increasing_intro es : (forall i e, es !! i = Some e -> is_key e.1) ->
  (forall i j e e', (i < j)%nat -> es !! i = Some e -> es !! j = Some e' -> klt e.1 e'.1) -> increasing es.
Proof.
  intros Hk Hs. split; [apply Forall_fmap, Forall_lookup; eauto|]. clear Hk.
  induction es as [|e es IH]; simpl; constructor.
  - apply IH. intros i j e1 e2 Hij. apply (Hs (S i) (S j)). lia.
  - apply Forall_fmap, Forall_lookup. intros i e' Hi. apply (Hs 0%nat (S i)); [lia|done|done].
Qed.

Lemma klt_cases a b : is_key a -> is_key b -> klt a b \/ a = b \/ klt b a.
Proof.
  intros Ha Hb. destruct (Compare_total a b Ha Hb) as [c E]. destruct (Z.lt_trichotomy c 0) as [Hc|[-> | Hc]].
  - left. by exists c.
  - right. left. by apply Compare_eq.
  - right. right. destruct (Compare_total b a Hb Ha) as [c' E']. exists c'. split; [done|].
    by apply (Compare_antisym b a c' c).
Qed.

Lemma klt_irrefl a : is_key a -> ~ klt a a.
Proof. intros Ha (c & E & Hc). rewrite (proj2 (Compare_eq a a Ha Ha) eq_refl) in E. injection E as <-. lia. Qed.

(** [~ klt c b] is [b <= c]. *)
Lemma klt_le_trans a b c : is_key a -> is_key b -> is_key c -> klt a b -> ~ klt c b -> klt a c.
Proof.
  intros Ha Hb Hc Hab Hcb. destruct (klt_cases b c Hb Hc) as [H|[<-|H]]; [|done..]. by apply (klt_trans a b c).
Qed.

Lemma le_klt_trans a b c : is_key a -> is_key b -> is_key c -> ~ klt b a -> klt b c -> klt a c.
Proof.
  intros Ha Hb Hc Hba Hbc. destruct (klt_cases a b Ha Hb) as [H|[-> | H]]; [|done..]. by apply (klt_trans a b c).
Qed.

Definition below (target k : list Z) : bool :=
  match Compare k target with Some c => c <? 0 | None => false end.

Lemma below_klt target k : below target k = true <-> klt k target.
Proof.
  unfold below, klt. destruct (Compare k target) as [c|]; split.
  - intros ?%Z.ltb_lt. eauto.
  - intros (? & [= <-] & ?). by apply Z.ltb_lt.
  - done.
  - by intros (? & ? & _).
Qed.

(** The index of the first entry that is not below the target. *)
Fixpoint seek_index (l : list (list Z * list Z)) (target : list Z) : nat :=
  match l with
  | [] => O
  | (k, _) :: l => if below target k then S (seek_index l target) else O
  end.

Lemma seek_index_le l target : (seek_index l target <= length l)%nat.
Proof. induction l as [|[k v] l IH]; simpl; [done|]. destruct (below target k); lia. Qed.

Lemma seek_index_below l target i e :
  (i < seek_index l target)%nat -> l !! i = Some e -> below target e.1 = true.
Proof.
  revert i. induction l as [|[k v] l IH]; intros i Hi He; simpl in *; [lia|].
  destruct (below target k) eqn:E; [|lia]. destruct i as [|i]; simpl in He; [by injection He as <-|].
  apply (IH i); [lia|done].
Qed.

Lemma seek_index_at l target e :
  l !! seek_index l target = Some e -> below target e.1 = false.
Proof.
  induction l as [|[k v] l IH]; simpl; [done|]. destruct (below target k) eqn:E; simpl; [done|].
  by intros [= <-].
Qed.

Lemma seek_index_gt es target i e :
  increasing es -> is_key target -> es !! i = Some e -> below target e.1 = true -> (i < seek_index es target)%nat.
Proof.
  intros Hinc Ht Hi Hb. destruct (decide (i < seek_index es target)%nat) as [|Hge]; [done|].
  pose proof (lookup_lt_Some _ _ _ Hi) as Hlt.
  destruct (lookup_lt_is_Some_2 es (seek_index es target)) as [e' He']; [lia|].
  pose proof (seek_index_at _ _ _ He') as Hf. rewrite <-not_true_iff_false in Hf. destruct Hf.
  destruct (decide (seek_index es target = i)) as [E|]; [by rewrite E, Hi in He'; injection He' as <-|].
  apply below_klt. apply below_klt in Hb. apply (klt_trans _ e.1); try done.
  - by eapply increasing_key.
  - by eapply increasing_key.
  - apply (increasing_lookup es _ _ _ _ Hinc He' Hi). lia.
Qed.

End order.

(** ** The comparators of LevelDB *)
#[export, refine] Instance Bytewise_Comparator : Comparator := {
  Compare a b := Some (Bytewise_Compare a b);
  is_key _ := True;
}.
Proof.
  all: unfold Bytewise_Compare; setoid_rewrite Slice_compare_lex || idtac.
  - intros. by eexists.
  - intros a b c c' _ _ [= <-] [= <-]. rewrite (lex_antisym b a). lia.
  - intros a b _ _. rewrite <-lex_eq. split; [by intros [= ->]|by intros ->].
  - intros a b d c c' c'' _ _ _ [= <-] [= <-] [= <-]. apply lex_trans.
Defined.

Definition is_ikey (k : list Z) : Prop := exists u num, k = ikey u num /\ fits_unsigned 64 num.

#[export, refine] Instance InternalKey_Comparator (le : bool) : Comparator := {
  Compare := InternalKey_Compare le;
  is_key := is_ikey;
}.
Proof.
  - intros a b (u & m & -> & Hm) (u' & m' & -> & Hm'). rewrite InternalKey_Compare_ikey by done. by eexists.
  - intros a b c c' (u & m & -> & Hm) (u' & m' & -> & Hm'). rewrite !InternalKey_Compare_ikey by done.
    intros [= <-] [= <-]. apply ikey_cmp_antisym.
  - intros a b (u & m & -> & Hm) (u' & m' & -> & Hm'). rewrite InternalKey_Compare_ikey by done. split.
    + intros [= [-> ->]%ikey_cmp_zero]. done.
    + intros E. f_equal. apply ikey_cmp_zero. unfold ikey in E. apply app_inj_2 in E as [-> E]; [|by rewrite !length_le_enc].
      split; [done|]. apply (f_equal le_dec) in E. rewrite !le_dec_enc in E.
      unfold fits_unsigned in *. rewrite !Z.mod_small in E by (simpl in *; lia). done.
  - intros a b d c c' c'' (u & m & -> & Hm) (u' & m' & -> & Hm') (u'' & m'' & -> & Hm'').
    rewrite !InternalKey_Compare_ikey by done. intros [= <-] [= <-] [= <-]. apply ikey_cmp_trans.
Defined.

(** ** Iterators *)
Class Iterator (I : Type) := {
  it_Valid : I -> bool;
  it_SeekToFirst : I -> option I;
  it_SeekToLast : I -> option I;
  it_Seek : I -> list Z -> option I;
  it_Next : I -> option I;
  it_Prev : I -> option I;
  it_key : I -> option (list Z);
  it_value : I -> option (list Z);
  it_status : I -> Code;
}.

(** Without entries; every access asserts false. *)
Record EmptyIterator := mkEmptyIterator { empty_status : Code }.

#[export] Instance EmptyIterator_Iterator : Iterator EmptyIterator := {
  it_Valid _ := false;
  it_SeekToFirst it := Some it;
  it_SeekToLast it := Some it;
  it_Seek it _ := Some it;
  it_Next _ := None;
  it_Prev _ := None;
  it_key _ := None;
  it_value _ := None;
  it_status := empty_status;
}.

Definition NewEmptyIterator : EmptyIterator := mkEmptyIterator kOk.
Definition NewErrorIterator (status : Code) : EmptyIterator := mkEmptyIterator status.

(** ** Cursors

    A cursor is an index in the list of entries, or the length of the list when
    there is no current entry. *)
Section cursor.
Context {C : Comparator} {I : Type} `{!Iterator I}.
Implicit Types es : list (list Z * list Z).

Record is_cursor es (at_ : I -> nat -> Prop) : Prop := {
  cur_get it i e : at_ it i -> es !! i = Some e -> it_Valid it = true /\ it_key it = Some e.1 /\ it_value it = Some e.2;
  cur_end it i : at_ it i -> es !! i = None -> it_Valid it = false;
  cur_ok it i : at_ it i -> it_status it = kOk;
  cur_first it i : at_ it i -> exists it', it_SeekToFirst it = Some it' /\ at_ it' O;
  cur_last it i : at_ it i -> exists it', it_SeekToLast it = Some it' /\ at_ it' (length es - 1)%nat;
  cur_seek it i t : is_key t -> at_ it i -> exists it', it_Seek it t = Some it' /\ at_ it' (seek_index es t);
  cur_next it i : at_ it i -> (i < length es)%nat -> exists it', it_Next it = Some it' /\ at_ it' (S i);
  cur_prev it i : at_ it i -> (i < length es)%nat ->
    exists it', it_Prev it = Some it' /\ at_ it' (match i with O => length es | S j => j end);
}.

Inductive iop := OFirst | OLast | ONext | OPrev | OSeek (target : list Z).

Definition istep (it : I) (o : iop) : option I :=
  match o with
  | OFirst => it_SeekToFirst it
  | OLast => it_SeekToLast it
  | ONext => it_Next it
  | OPrev => it_Prev it
  | OSeek t => it_Seek it t
  end.

(** What a caller sees. *)
Definition observe (it : I) : option (option (list Z * list Z)) :=
  if it_Valid it then k ← it_key it; v ← it_value it; Some (Some (k, v)) else Some None.

Fixpoint isteps (it : I) (os : list iop) : option (list (option (list Z * list Z)) * I) :=
  match os with
  | [] => Some ([], it)
  | o :: os =>
      it ← istep it o;
      v ← observe it;
      '(vs, it) ← isteps it os;
      Some (v :: vs, it)
  end.

Definition spec_istep es (i : nat) (o : iop) : option nat :=
  match o with
  | OFirst => Some O
  | OLast => Some (length es - 1)%nat
  | ONext => if (i <? length es)%nat then Some (S i) else None
  | OPrev => if (i <? length es)%nat then Some (match i with O => length es | S j => j end) else None
  | OSeek t => Some (seek_index es t)
  end.

Fixpoint spec_isteps es (i : nat) (os : list iop) : option (list (option (list Z * list Z))) :=
  match os with
  | [] => Some []
  | o :: os => i ← spec_istep es i o; vs ← spec_isteps es i os; Some (es !! i :: vs)
  end.

Definition targets_ok (os : list iop) : Prop :=
  Forall (fun o => match o with OSeek t => is_key t | _ => True end) os.

Lemma cursor_observe es at_ it i : is_cursor es at_ -> at_ it i -> observe it = Some (es !! i).
Proof.
  intros Hc Ha. unfold observe. destruct (es !! i) as [[k v]|] eqn:E.
  - destruct (cur_get _ _ Hc _ _ _ Ha E) as (-> & -> & ->). done.
  - by rewrite (cur_end _ _ Hc _ _ Ha E).
Qed.

Lemma cursor_istep es at_ it i o j : is_cursor es at_ -> at_ it i -> targets_ok [o] ->
  spec_istep es i o = Some j -> exists it', istep it o = Some it' /\ at_ it' j.
Proof.
  intros Hc Ha [Ht _]%Forall_cons E. destruct o as [| | | |t]; cbn [istep spec_istep] in *.
  - injection E as <-. by eapply cur_first.
  - injection E as <-. by eapply cur_last.
  - destruct (Nat.ltb_spec i (length es)); [|done]. injection E as <-. by eapply cur_next.
  - destruct (Nat.ltb_spec i (length es)); [|done]. injection E as <-. by eapply cur_prev.
  - injection E as <-. by eapply cur_seek.
Qed.

Lemma cursor_isteps es at_ os : is_cursor es at_ -> forall it i vs, at_ it i -> targets_ok os ->
  spec_isteps es i os = Some vs -> exists it' j, isteps it os = Some (vs, it') /\ at_ it' j /\ it_status it' = kOk.
Proof.
  intros Hc. induction os as [|o os IH]; intros it i vs Ha Ht E; cbn [spec_isteps isteps] in *.
  { injection E as <-. exists it, i. split; [done|]. split; [done|]. by eapply cur_ok. }
  apply Forall_cons in Ht as [Ht1 Ht].
  destruct (spec_istep es i o) as [j|] eqn:Ej; [|done]. cbn [mbind option_bind] in E.
  destruct (spec_isteps es j os) as [vs'|] eqn:Evs; [|done]. cbn [mbind option_bind] in E. injection E as <-.
  destruct (cursor_istep es at_ it i o j) as (it1 & -> & Ha1); [done..|by constructor|done|].
  cbn [mbind option_bind]. rewrite (cursor_observe es at_ it1 j) by done. cbn [mbind option_bind].
  destruct (IH it1 j vs') as (it2 & j2 & -> & Ha2 & Hst); [done..|]. cbn [mbind option_bind]. eauto.
Qed.
End cursor.
