(* ===== verification/Arena.v ===== *)
(** The allocator of the memtables: [src/leveldb/util/arena.cc] and [arena.h],
    and the memory use that [MemTable::ApproximateMemoryUsage] reports.

    An address is a number, and a block is its address with its length.  Where
    [new char[n]] puts a block is an argument, given the blocks that exist. *)
From S2P Require Import Prelude Dbformat LdbBase WriteBatch Skiplist Memtable Iterator.

Definition kBlockSize : Z := 4096.

Record Arena := mkArena {
  alloc_ptr_ : Z;
  alloc_bytes_remaining_ : Z;
  blocks_ : list (Z * Z);
  memory_usage_ : Z;
}.

Section arena.
Context (new_block : list (Z * Z) -> Z -> Z).
Implicit Types a : Arena.

Definition new_Arena : Arena := mkArena 0 0 [] 0.
Definition MemoryUsage a : Z := memory_usage_ a.

Definition AllocateNewBlock (block_bytes : Z) a : Z * Arena :=
  let result := new_block (blocks_ a) block_bytes in
  (result, mkArena (alloc_ptr_ a) (alloc_bytes_remaining_ a) (blocks_ a ++ [(result, block_bytes)])
             (wrap 64 (MemoryUsage a + block_bytes + 8))).

Definition AllocateFallback (bytes : Z) a : Z * Arena :=
  if kBlockSize / 4 <? bytes then AllocateNewBlock bytes a
  else
    let '(result, a) := AllocateNewBlock kBlockSize a in
    (result, mkArena (result + bytes) (kBlockSize - bytes) (blocks_ a) (memory_usage_ a)).

Definition Allocate (bytes : Z) a : option (Z * Arena) :=
  _ ← passert (0 <? bytes);
  Some (if bytes <=? alloc_bytes_remaining_ a
        then (alloc_ptr_ a, mkArena (alloc_ptr_ a + bytes) (alloc_bytes_remaining_ a - bytes) (blocks_ a) (memory_usage_ a))
        else AllocateFallback bytes a).

Definition AllocateAligned (bytes : Z) a : option (Z * Arena) :=
  let align := 8 in
  _ ← passert (Z.land align (align - 1) =? 0);
  let current_mod := Z.land (alloc_ptr_ a) (align - 1) in
  let slop := if current_mod =? 0 then 0 else align - current_mod in
  let needed := bytes + slop in
  let '(result, a) :=
    if needed <=? alloc_bytes_remaining_ a
    then (alloc_ptr_ a + slop, mkArena (alloc_ptr_ a + needed) (alloc_bytes_remaining_ a - needed) (blocks_ a) (memory_usage_ a))
    else AllocateFallback bytes a in
  _ ← passert (Z.land result (align - 1) =? 0);
  Some (result, a).

(** Calls one after the other: whether the memory is to be aligned, and its size. *)
Definition alloc (r : bool * Z) a : option (Z * Arena) := if r.1 then AllocateAligned r.2 a else Allocate r.2 a.

Fixpoint allocs (rs : list (bool * Z)) a : option (list Z * Arena) :=
  match rs with
  | [] => Some ([], a)
  | r :: rs => '(p, a) ← alloc r a; '(ps, a) ← allocs rs a; Some (p :: ps, a)
  end.

(** ** The memory of a memtable

    [MemTable::Add] takes the octets of the entry, then [SkipList::NewNode] the
    node with its links; the nodes are listed in the order they were made, the
    head first, for which there is no entry. *)
Definition node_bytes (height : nat) : Z := 16 + 8 * (Z.of_nat height - 1).

Definition node_allocs (nd : Node (list Z)) : list (bool * Z) := [(false, zlen (key nd)); (true, node_bytes (length (next_ nd)))].

Definition memtable_allocs (table : SkipList (list Z)) : list (bool * Z) :=
  match nodes table with
  | [] => []
  | h :: nds => (true, node_bytes (length (next_ h))) :: concat (node_allocs <$> nds)
  end.

Definition ApproximateMemoryUsage (table : SkipList (list Z)) : option Z :=
  '(_, a) ← allocs (memtable_allocs table) new_Arena;
  Some (MemoryUsage a).

(** ** Correctness *)

(** The octets of [x] and [y] are apart. *)
Definition disjoint_from (x y : Z * Z) : Prop := x.1 + x.2 <= y.1 \/ y.1 + y.2 <= x.1.
Definition inside (x y : Z * Z) : Prop := y.1 <= x.1 /\ x.1 + x.2 <= y.1 + y.2.

(** [operator new[]] returns memory that no other block has, aligned for any
    object. *)
Definition fresh_blocks : Prop := forall bs n, 0 < n ->
  0 < new_block bs n /\ new_block bs n mod 8 = 0 /\ Forall (disjoint_from (new_block bs n, n)) bs.

Context (Hnew : fresh_blocks).

Definition bytes_of (xs : list (Z * Z)) : Z := foldr (fun x n => x.2 + n) 0 xs.

Lemma bytes_of_app xs ys : bytes_of (xs ++ ys) = bytes_of xs + bytes_of ys.
Proof. induction xs as [|x xs IH]; [done|]. unfold bytes_of in *. cbn [app foldr]. rewrite IH. lia. Qed.

(** [xs] is the memory handed out. *)
Record arena_inv a (xs : list (Z * Z)) : Prop := {
  ar_blocks : Forall (fun b => 0 < b.2) (blocks_ a);
  ar_rest : 0 <= alloc_bytes_remaining_ a;
  ar_current : 0 < alloc_bytes_remaining_ a -> exists b, b ∈ blocks_ a /\ inside (alloc_ptr_ a, alloc_bytes_remaining_ a) b;
  ar_inside : Forall (fun x => 0 < x.2 /\ Exists (inside x) (blocks_ a)) xs;
  ar_free : 0 < alloc_bytes_remaining_ a -> Forall (disjoint_from (alloc_ptr_ a, alloc_bytes_remaining_ a)) xs;
  ar_apart : StronglySorted disjoint_from xs;
  ar_bytes : bytes_of xs + alloc_bytes_remaining_ a <= bytes_of (blocks_ a);
  ar_usage : memory_usage_ a = bytes_of (blocks_ a) + 8 * zlen (blocks_ a);
  ar_waste : memory_usage_ a <= bytes_of xs + (kBlockSize + 8) * zlen xs;
}.

Lemma new_Arena_inv : arena_inv new_Arena [].
Proof. constructor; cbn; try done; constructor. Qed.

Lemma disjoint_sym x y : disjoint_from x y -> disjoint_from y x.
Proof. unfold disjoint_from. lia. Qed.
Lemma disjoint_inside x y b : inside x b -> disjoint_from y b -> disjoint_from y x.
Proof. unfold inside, disjoint_from. lia. Qed.

(** Taking [n] octets at [p] from the rest of the current block. *)
Lemma take_current a xs p n : arena_inv a xs -> 0 < n -> alloc_ptr_ a <= p -> p + n <= alloc_ptr_ a + alloc_bytes_remaining_ a ->
  arena_inv (mkArena (p + n) (alloc_ptr_ a + alloc_bytes_remaining_ a - (p + n)) (blocks_ a) (memory_usage_ a)) ((p, n) :: xs).
Proof.
  intros [H1 H2 H3 H4 H5 H6 H7 H8 H9] Hn Hp Hz. assert (0 < alloc_bytes_remaining_ a) as Hr by lia.
  destruct (H3 Hr) as (b & Hb & Hin). specialize (H5 Hr). unfold inside in Hin. cbn [fst snd] in Hin.
  constructor; cbn [alloc_ptr_ alloc_bytes_remaining_ blocks_ memory_usage_ bytes_of foldr snd fst length]; try done; try lia.
  - intros _. exists b. split; [done|]. unfold inside. cbn. lia.
  - constructor; [|done]. split; [done|]. apply Exists_exists. exists b. split; [done|]. unfold inside. cbn. lia.
  - intros Hr'. constructor; [unfold disjoint_from; cbn; lia|]. eapply Forall_impl; [exact H5|]. unfold disjoint_from. cbn. intros x. lia.
  - constructor; [done|]. eapply Forall_impl; [exact H5|]. unfold disjoint_from. cbn. intros x. lia.
  - unfold bytes_of in *. lia.
  - unfold bytes_of, kBlockSize in *. lia.
Qed.

Lemma usage_fits a xs n : arena_inv a xs -> 0 < n <= Z.max n kBlockSize -> bytes_of xs + (kBlockSize + 8) * zlen xs + Z.max n kBlockSize + 8 < 2 ^ 64 ->
  wrap 64 (memory_usage_ a + n + 8) = memory_usage_ a + n + 8.
Proof.
  intros [H1 H2 H3 H4 H5 H6 H7 H8 H9] Hn Hz. apply wrap_fits. split; [|lia]. rewrite H8.
  assert (0 <= bytes_of (blocks_ a)) by (clear -H1; induction H1; cbn; [lia|]; unfold bytes_of in *; lia). lia.
Qed.

(** What a new block of [n] octets leaves unchanged. *)
Lemma block_facts a xs n p : arena_inv a xs -> 0 < n -> p = new_block (blocks_ a) n ->
  p mod 8 = 0 /\ Forall (fun b => 0 < b.2) (blocks_ a ++ [(p, n)]) /\
  Forall (fun x => 0 < x.2 /\ Exists (inside x) (blocks_ a ++ [(p, n)])) xs /\ Forall (disjoint_from (p, n)) xs /\ Forall (disjoint_from (p, n)) (blocks_ a).
Proof using Hnew.
  intros [H1 H2 H3 H4 H5 H6 H7 H8 H9] Hn ->. destruct (Hnew (blocks_ a) n Hn) as (Hp & Hmod & Hd). split_and!; [done| | | |done].
  - apply Forall_app. split; [done|]. by repeat constructor.
  - eapply Forall_impl; [exact H4|]. intros x [? Hx]. split; [done|]. apply Exists_app. by left.
  - rewrite Forall_forall in H4, Hd |- *. intros x Hx. destruct (H4 x Hx) as [_ (b & Hb & Hin)%Exists_exists]. eapply disjoint_inside; [done|auto].
Qed.

(** There is room for [n] more octets and a block in the counter. *)
Definition counter_ok (xs : list (Z * Z)) (n : Z) : Prop := bytes_of xs + (kBlockSize + 8) * zlen xs + Z.max n kBlockSize + 8 < 2 ^ 64.

Lemma fallback_spec a xs n : arena_inv a xs -> 0 < n -> alloc_bytes_remaining_ a < n + 8 -> counter_ok xs n ->
  exists p a', AllocateFallback n a = (p, a') /\ p mod 8 = 0 /\ arena_inv a' ((p, n) :: xs).
Proof using Hnew.
  intros Hi Hn Hr Hz. unfold AllocateFallback, AllocateNewBlock, MemoryUsage. destruct (Z.ltb_spec (kBlockSize / 4) n) as [Hbig|Hsmall].
  - pose proof (usage_fits a xs n Hi ltac:(lia) Hz) as Hw. rewrite Hw. set (p := new_block (blocks_ a) n).
    destruct (block_facts a xs n p Hi Hn eq_refl) as (Hmod & Hb & Hx & Hd & Hdb). eexists p, _. split; [done|]. split; [done|].
    destruct Hi as [H1 H2 H3 H4 H5 H6 H7 H8 H9].
    constructor; cbn [alloc_ptr_ alloc_bytes_remaining_ blocks_ memory_usage_]; rewrite ?bytes_of_app, ?length_app; cbn [bytes_of foldr snd fst length]; try done.
    + intros Hr'. destruct (H3 Hr') as (b & Hin & Hb'). exists b. split; [apply elem_of_app; by left|done].
    + constructor; [|done]. split; [done|]. apply Exists_app. right. constructor. unfold inside. cbn. lia.
    + intros Hr'. constructor; [|by apply H5]. destruct (H3 Hr') as (b & Hin & Hb'). rewrite Forall_forall in Hdb. specialize (Hdb b Hin).
      apply disjoint_sym. by eapply disjoint_inside.
    + by constructor.
    + unfold bytes_of in *. lia.
    + lia.
    + unfold bytes_of, kBlockSize in *. lia.
  - change (kBlockSize / 4) with 1024 in Hsmall. assert (0 < kBlockSize) as Hk by done.
    pose proof (usage_fits a xs kBlockSize Hi ltac:(lia) ltac:(unfold counter_ok, kBlockSize in *; lia)) as Hw. rewrite Hw. set (p := new_block (blocks_ a) kBlockSize).
    destruct (block_facts a xs kBlockSize p Hi Hk eq_refl) as (Hmod & Hb & Hx & Hd & Hdb). eexists p, _. split; [done|]. split; [done|].
    destruct Hi as [H1 H2 H3 H4 H5 H6 H7 H8 H9]. unfold kBlockSize in *.
    constructor; cbn [alloc_ptr_ alloc_bytes_remaining_ blocks_ memory_usage_]; rewrite ?bytes_of_app, ?length_app; cbn [bytes_of foldr snd fst length]; try done; try lia.
    + intros _. exists (p, 4096). split; [apply elem_of_app; right; by left|]. unfold inside. cbn. lia.
    + constructor; [|done]. split; [done|]. apply Exists_app. right. constructor. unfold inside. cbn. lia.
    + intros _. constructor; [unfold disjoint_from; cbn; lia|]. eapply Forall_impl; [exact Hd|]. unfold disjoint_from. cbn. lia.
    + constructor; [done|]. eapply Forall_impl; [exact Hd|]. unfold disjoint_from. cbn. lia.
    + unfold bytes_of in *. lia.
    + unfold bytes_of, kBlockSize in *.
      lia.
Qed.

Lemma land7 x : Z.land x 7 = x mod 8.
Proof. change 7 with (Z.ones 3). rewrite Z.land_ones by lia. done. Qed.

Lemma alloc_spec a xs r : arena_inv a xs -> 0 < r.2 -> counter_ok xs r.2 ->
  exists p a', alloc r a = Some (p, a') /\ (r.1 = true -> p mod 8 = 0) /\ arena_inv a' ((p, r.2) :: xs).
Proof using Hnew.
  intros Hi Hn Hz. destruct r as [[|] n]; cbn [fst snd] in *; unfold alloc; cbn [fst snd].
  - unfold AllocateAligned. change (Z.land 8 (8 - 1) =? 0) with true. cbn [passert mbind option_bind]. change (8 - 1) with 7. rewrite land7.
    set (slop := if alloc_ptr_ a mod 8 =? 0 then 0 else 8 - alloc_ptr_ a mod 8). pose proof (Z.mod_pos_bound (alloc_ptr_ a) 8 ltac:(lia)) as Hm.
    assert (0 <= slop < 8 /\ (alloc_ptr_ a + slop) mod 8 = 0) as [Hs Ha].
    { subst slop. pose proof (Z.div_mod (alloc_ptr_ a) 8). destruct (Z.eqb_spec (alloc_ptr_ a mod 8) 0); (split; [lia|]); apply Z.mod_divide; try lia.
      - exists (alloc_ptr_ a / 8). lia.
      - exists (alloc_ptr_ a / 8 + 1). lia. }
    destruct (Z.leb_spec (n + slop) (alloc_bytes_remaining_ a)) as [Hle|Hgt].
    + rewrite land7, Ha. cbn [passert mbind option_bind]. eexists _, _. split; [done|]. split; [done|].
      pose proof (take_current a xs (alloc_ptr_ a + slop) n Hi Hn ltac:(lia) ltac:(lia)) as Ht.
      replace (alloc_ptr_ a + (n + slop)) with (alloc_ptr_ a + slop + n) by lia.
      by replace (alloc_bytes_remaining_ a - (n + slop)) with (alloc_ptr_ a + alloc_bytes_remaining_ a - (alloc_ptr_ a + slop + n)) by lia.
    + destruct (fallback_spec a xs n Hi Hn ltac:(lia) Hz) as (p & a' & -> & Hp & Hi'). rewrite land7, Hp. cbn [passert mbind option_bind].
      eexists _, _. by split_and!.
  - unfold Allocate. rewrite (proj2 (Z.ltb_lt _ _)) by done. cbn [passert mbind option_bind].
    destruct (Z.leb_spec n (alloc_bytes_remaining_ a)) as [Hle|Hgt].
    + eexists _, _. split; [done|]. split; [done|]. pose proof (take_current a xs (alloc_ptr_ a) n Hi Hn ltac:(lia) ltac:(lia)) as Ht.
      by replace (alloc_bytes_remaining_ a - n) with (alloc_ptr_ a + alloc_bytes_remaining_ a - (alloc_ptr_ a + n)) by lia.
    + destruct (fallback_spec a xs n Hi Hn ltac:(lia) Hz) as (p & a' & -> & _ & Hi'). eexists _, _. by split_and!.
Qed.

Definition sizes (rs : list (bool * Z)) : Z := foldr (fun r n => r.2 + n) 0 rs.

Lemma allocs_spec rs : forall a xs, arena_inv a xs -> Forall (fun r => 0 < r.2) rs ->
  bytes_of xs + (kBlockSize + 8) * zlen xs + sizes rs + (kBlockSize + 8) * zlen rs < 2 ^ 64 ->
  exists ps a', allocs rs a = Some (ps, a') /\ arena_inv a' (reverse (zip ps rs.*2) ++ xs) /\
    Forall2 (fun r p => r.1 = true -> p mod 8 = 0) rs ps.
Proof using Hnew.
  induction rs as [|r rs IH]; intros a xs Hi Hn Hz; cbn [allocs]; [by exists [], a|].
  apply Forall_cons in Hn as [Hr Hn]. cbn [sizes foldr length] in Hz. fold (sizes rs) in Hz.
  assert (0 <= sizes rs) as H0 by (clear -Hn; induction Hn; cbn; [lia|]; unfold sizes in *; lia).
  destruct (alloc_spec a xs r Hi Hr) as (p & a1 & -> & Hp & Hi1); [unfold counter_ok, kBlockSize in *; lia|]. cbn [mbind option_bind].
  destruct (IH a1 ((p, r.2) :: xs) Hi1 Hn) as (ps & a2 & -> & Hi2 & Hps).
  { unfold bytes_of in *. cbn [foldr snd length]. unfold kBlockSize in *. lia. }
  cbn [mbind option_bind]. eexists _, _. split; [done|]. split; [|by constructor].
  cbn [fmap list_fmap zip zip_with]. rewrite reverse_cons, <-app_assoc. done.
Qed.

Lemma bytes_of_zip ps rs : length ps = length rs -> bytes_of (zip ps rs.*2) = sizes rs.
Proof.
  revert ps. induction rs as [|r rs IH]; intros [|p ps] Hl; try done. injection Hl as Hl. cbn. unfold bytes_of, sizes in IH. by rewrite IH.
Qed.

Lemma bytes_of_perm xs ys : xs ≡ₚ ys -> bytes_of xs = bytes_of ys.
Proof. induction 1; cbn; unfold bytes_of in *; lia. Qed.

(** The counter is at least what was asked for. *)
Lemma allocs_usage rs : Forall (fun r => 0 < r.2) rs -> sizes rs + (kBlockSize + 8) * zlen rs < 2 ^ 64 ->
  exists ps a, allocs rs new_Arena = Some (ps, a) /\ length ps = length rs /\ arena_inv a (reverse (zip ps rs.*2)) /\
    Forall2 (fun r p => r.1 = true -> p mod 8 = 0) rs ps /\ sizes rs <= MemoryUsage a <= sizes rs + (kBlockSize + 8) * zlen rs.
Proof using Hnew.
  intros Hn Hz. destruct (allocs_spec rs new_Arena [] new_Arena_inv Hn) as (ps & a & E & Hi & Hp); [cbn; lia|]. rewrite app_nil_r in Hi.
  pose proof (Forall2_length _ _ _ Hp) as Hl. exists ps, a. split; [done|]. split; [done|]. split; [done|]. split; [done|].
  destruct Hi as [H1 H2 H3 H4 H5 H6 H7 H8 H9]. rewrite (bytes_of_perm _ _ (reverse_Permutation _)), bytes_of_zip in H7, H9 by done.
  rewrite length_reverse, length_zip_with, length_fmap in H9. unfold MemoryUsage. lia.
Qed.
End arena.

(** ** The memory of a memtable *)
Section memtable_usage.
Context (new_block : list (Z * Z) -> Z -> Z) (Hnew : fresh_blocks new_block) (le : bool).

(** The octets of the entries, and their number. *)
Definition entry_bytes (es : list version) : Z := foldr (fun e n => zlen (encode_version e) + n) 0 es.

(** The nodes after the head hold the entries, in some order. *)
Lemma mem_rep_nodes table es : mem_rep le table es -> exists h nds, nodes table = h :: nds /\ length (next_ h) = kMaxHeight /\
  Forall (fun nd => (1 <= length (next_ nd) <= kMaxHeight)%nat) nds /\ key <$> nds ≡ₚ encode_version <$> es.
Proof.
  intros (_ & _ & ks & (L & [Hh Hm Hnd Hhs _ _ _ Hn] & <-) & Hp). destruct (nodes table) as [|h nds] eqn:E; [done|]. injection Hn as Hn.
  exists h, nds. split; [done|]. split; [done|]. assert (L ≡ₚ seq 1 (length nds)) as HL.
  { rewrite Hn. apply submseteq_length_Permutation; [|by rewrite length_seq]. apply NoDup_cons in Hnd as [H0 Hnd]. apply NoDup_submseteq; [done|].
    intros x Hx. apply elem_of_seq. rewrite Forall_forall in Hhs. specialize (Hhs x Hx). unfold height in Hhs.
    destruct ((h :: nds) !! x) eqn:Ex; [|lia]. apply lookup_lt_Some in Ex. cbn [length] in Ex. destruct x; [done|]. lia. }
  assert (forall i nd, nds !! i = Some nd -> (h :: nds) !! Datatypes.S i = Some nd) as Hi by done. split.
  - apply Forall_lookup. intros i nd Hnd'. rewrite Forall_forall in Hhs.
    assert (Datatypes.S i ∈ L) as Hin by (rewrite HL; apply elem_of_seq; apply lookup_lt_Some in Hnd'; lia).
    specialize (Hhs _ Hin). unfold height in Hhs. rewrite (Hi i nd Hnd') in Hhs. lia.
  - rewrite <-Hp. unfold elements. rewrite HL, E. rewrite <-fmap_S_seq, <-list_fmap_compose. replace (key <$> nds) with (key_at [] (h :: nds) ∘ Datatypes.S <$> seq 0 (length nds)); [done|].
    apply list_eq. intros i. rewrite !list_lookup_fmap. destruct (decide (i < length nds)%nat) as [Hlt|Hge].
    + rewrite lookup_seq_lt by done. destruct (lookup_lt_is_Some_2 nds i Hlt) as [nd Hnd']. rewrite Hnd'. cbn. unfold key_at. by rewrite (Hi i nd Hnd').
    + rewrite lookup_seq_ge, lookup_ge_None_2 by lia. done.
Qed.

Lemma sizes_app rs rs' : sizes (rs ++ rs') = sizes rs + sizes rs'.
Proof. induction rs as [|r rs IH]; [done|]. unfold sizes in *. cbn [app foldr]. rewrite IH. lia. Qed.

Lemma node_allocs_sizes nds es : Forall (fun nd : Node (list Z) => (1 <= length (next_ nd) <= kMaxHeight)%nat) nds -> key <$> nds ≡ₚ encode_version <$> es ->
  Forall (fun r => 0 < r.2) (concat (node_allocs <$> nds)) /\ zlen (concat (node_allocs <$> nds)) = 2 * zlen es /\
  entry_bytes es + 16 * zlen es <= sizes (concat (node_allocs <$> nds)) <= entry_bytes es + 104 * zlen es.
Proof.
  intros Hh Hp. assert (Forall (fun k => 0 < zlen k) (key <$> nds)) as Hk.
  { rewrite Hp. apply Forall_fmap, Forall_forall. intros e _. cbn beta. unfold compose, encode_version. rewrite !length_app, length_ikey. lia. }
  assert (entry_bytes es = foldr (fun k n => zlen k + n) 0 (key <$> nds)) as ->.
  { transitivity (foldr (fun k n => zlen k + n) 0 (encode_version <$> es)).
    - clear. unfold entry_bytes. induction es as [|e es IH]; [done|]. cbn [fmap list_fmap foldr]. by rewrite IH.
    - clear -Hp. induction Hp; cbn [foldr]; lia. }
  assert (length es = length nds) as -> by (apply Permutation_length in Hp; by rewrite !length_fmap in Hp).
  clear Hp. induction Hh as [|nd nds Hn Hh IH]; [done|]. cbn in Hk. apply Forall_cons in Hk as [Hk0 Hk]. destruct (IH Hk) as (I1 & I2 & I3).
  cbn [fmap list_fmap concat]. rewrite sizes_app, length_app, Forall_app. unfold node_allocs at 1 3 5 7. cbn [length foldr].
  change (sizes [(false, zlen (key nd)); (true, node_bytes (length (next_ nd)))]) with (zlen (key nd) + (node_bytes (length (next_ nd)) + 0)).
  unfold node_bytes, kMaxHeight in *. split_and!; [repeat constructor; cbn; lia|done|lia..].
Qed.

(** The memory use is at least the octets of the entries. *)
Lemma ApproximateMemoryUsage_spec table es : mem_rep le table es -> entry_bytes es + 8312 * zlen es < 2 ^ 63 ->
  exists n, ApproximateMemoryUsage new_block table = Some n /\ entry_bytes es + 16 * zlen es <= n /\ (es = [] -> n = 4104).
Proof using Hnew.
  intros Hm Hz. destruct (mem_rep_nodes table es Hm) as (h & nds & E & Hh & Hnds & Hp). unfold ApproximateMemoryUsage, memtable_allocs. rewrite E, Hh.
  change (node_bytes kMaxHeight) with 104. destruct (node_allocs_sizes nds es Hnds Hp) as (H1 & H2 & H3).
  destruct (allocs_usage new_block Hnew ((true, 104) :: concat (node_allocs <$> nds))) as (ps & a & Ea & _ & _ & _ & Hu).
  { by constructor. }
  { unfold sizes, kBlockSize in *. cbn [foldr snd length]. lia. }
  rewrite Ea. cbn [mbind option_bind]. exists (MemoryUsage a). split; [done|]. unfold sizes in Hu, H3. cbn [foldr snd] in Hu. split; [lia|].
  intros ->. apply Permutation_nil_r in Hp. destruct nds; [|done]. clear -Ea. revert Ea. cbn [concat fmap list_fmap allocs]. unfold alloc. cbn [fst snd].
  unfold AllocateAligned. change (Z.land 8 (8 - 1) =? 0) with true. cbn [passert mbind option_bind]. unfold alloc_ptr_, alloc_bytes_remaining_, new_Arena.
  change (104 + _ <=? 0) with false. cbv iota. unfold AllocateFallback. change (kBlockSize / 4 <? 104) with false. cbn [AllocateNewBlock].
  destruct (Z.land _ _ =? 0); [|done]. cbn [passert mbind option_bind]. intros [= _ <-]. done.
Qed.
End memtable_usage.

(** C30 (arena_correct) Any calls of [Allocate] and [AllocateAligned] on a new arena
    succeed, assertions included: the memory handed out lies in blocks of the
    arena, no two pieces overlap, aligned pieces are aligned, and [MemoryUsage]
    is at least what was handed out and at most 4104 octets more for each call. *)
Theorem arena_correct new_block rs : fresh_blocks new_block -> Forall (fun r => 0 < r.2) rs -> sizes rs + 4104 * zlen rs < 2 ^ 64 ->
  exists ps a, allocs new_block rs new_Arena = Some (ps, a) /\ length ps = length rs /\
    (forall i r p, rs !! i = Some r -> ps !! i = Some p -> (r.1 = true -> p mod 8 = 0) /\ exists b, b ∈ blocks_ a /\ inside (p, r.2) b) /\
    (forall i j r r' p p', i <> j -> rs !! i = Some r -> rs !! j = Some r' -> ps !! i = Some p -> ps !! j = Some p' -> disjoint_from (p, r.2) (p', r'.2)) /\
    sizes rs <= MemoryUsage a <= sizes rs + 4104 * zlen rs.
Proof.
  intros Hnew Hn Hz. destruct (allocs_usage new_block Hnew rs Hn Hz) as (ps & a & E & Hl & [_ _ _ Hin _ Hap _ _ _] & Hal & Hu).
  exists ps, a. split; [done|]. split; [done|]. set (xs := zip ps rs.*2) in *.
  assert (forall i r p, rs !! i = Some r -> ps !! i = Some p -> xs !! i = Some (p, r.2)) as Hxs.
  { intros i r p Hr Hp. unfold xs. rewrite lookup_zip_with, Hp, list_lookup_fmap, Hr. done. }
  assert (forall i j x y, (i < j)%nat -> xs !! i = Some x -> xs !! j = Some y -> disjoint_from x y) as Hap'.
  { intros i j x y Hij Hx Hy. pose proof (lookup_lt_Some _ _ _ Hx). pose proof (lookup_lt_Some _ _ _ Hy). apply disjoint_sym.
    apply (StronglySorted_lookup _ _ (length xs - Datatypes.S j) (length xs - Datatypes.S i) y x Hap); [lia|rewrite reverse_lookup by lia..].
    - by replace (length xs - Datatypes.S (length xs - Datatypes.S j))%nat with j by lia.
    - by replace (length xs - Datatypes.S (length xs - Datatypes.S i))%nat with i by lia. }
  unfold kBlockSize in Hu. split_and!; [| |lia|lia].
  - intros i r p Hr Hp. split; [by eapply (Forall2_lookup_lr _ _ _ _ _ _ Hal)|]. rewrite Forall_forall in Hin.
    destruct (Hin (p, r.2)) as [_ (b & Hb & Hi)%Exists_exists]; [|by exists b].
    rewrite elem_of_reverse. eapply list_elem_of_lookup_2, Hxs; done.
  - intros i j r r' p p' Hij Hr Hr' Hp Hp'. destruct (decide (i < j)%nat) as [Hlt|Hge].
    + eapply (Hap' i j); eauto.
    + apply disjoint_sym. eapply (Hap' j i); [lia|eauto..].
Qed.

(** A heap that only grows. *)
Definition bump_heap (bs : list (Z * Z)) (n : Z) : Z := 8 * (foldr (fun b m => Z.max (b.1 + b.2) m) 0 bs + 1).

Lemma bump_heap_fresh : fresh_blocks bump_heap.
Proof.
  intros bs n Hn. unfold bump_heap. set (M := foldr _ 0 bs). assert (0 <= M /\ Forall (fun b => b.1 + b.2 <= M) bs) as [H0 HM].
  { subst M. induction bs as [|b bs [IH1 IH2]]; [done|]. cbn [foldr]. split; [lia|]. constructor; [lia|]. eapply Forall_impl; [exact IH2|]. cbn. lia. }
  split; [lia|]. split; [rewrite Z.mul_comm; by apply Z.mod_mul|]. eapply Forall_impl; [exact HM|]. intros b Hb. right. cbn in *. lia.
Qed.

Lemma arena_correct_witness : exists ps a, allocs bump_heap [(false, 13); (true, 24); (false, 5000)] new_Arena = Some (ps, a) /\
  5037 <= MemoryUsage a /\ ps = [8; 24; 32840].
Proof.
  destruct (arena_correct bump_heap [(false, 13); (true, 24); (false, 5000)]) as (ps & a & E & _ & _ & _ & Hu);
    [exact bump_heap_fresh|repeat constructor|reflexivity|].
  exists ps, a. split; [exact E|]. split; [exact (proj1 Hu)|]. vm_compute in E. injection E as <- _. reflexivity.
Defined.
