(* ===== verification/DbImpl.v ===== *)
(** The write and read paths of leveldb::DBImpl (leveldb/db/db_impl.cc):
    group commit, the switch to a new memtable, the flush of the immutable one,
    snapshot reads, and the replay of a log.

    Sorted tables and the version set are used through the class
    [VersionSet].  What the environment decides (level-0 file counts, memory
    use, file-system results, background progress) is an argument of the
    operations.  The log is the list of the [AddRecord] calls on the current log
    file, with their statuses: a call that fails may still have written some or
    all of its record. *)
From S2P Require Import Prelude Coding Dbformat LdbBase WriteBatch Skiplist Memtable Iterator Arena.

(** The octets that a memtable of these versions takes at least. *)
Definition mem_weight (es : list version) : Z := entry_bytes es + 16 * zlen es.
Definition byte_version (e : version) : Prop := Forall is_byte (v_key e) /\ Forall is_byte (v_value e).

(** ** The version set: what flushed memtables become

    [V_rep v log es]: the tables hold the versions [es], oldest first, and [log]
    is the number of the current log file.  [V_room] bounds how many operations
    the numbers of files and identifiers last for, [V_max] how large a memtable
    may be.  A lookup changes the state: it fills caches and counts seeks.
    [V_flush v seq log collect table] writes a table; files that are no longer
    needed are collected if [collect] holds. *)
Class VersionSet (le : bool) (V : Type) := {
  V_rep : V -> Z -> list version -> Prop;
  V_room : V -> Z;
  V_max : Z;
  V_Get : V -> LookupKey -> list Z -> option (Code * list Z * V);
  V_flush : V -> Z -> Z -> bool -> SkipList (list Z) -> option (Code * V);
  V_NewFileNumber : V -> Z * V;
  V_ReuseFileNumber : Z -> V -> V;
  V_PrevLogNumber : V -> Z;
  V_max_bound : 0 <= V_max < 2 ^ 31;
  V_PrevLogNumber_spec v log es : V_rep v log es -> V_PrevLogNumber v = 0;
  V_Get_spec v log es junk u s lk value :
    V_rep v log es -> 0 < V_room v -> zlen u + 8 < 2 ^ 32 -> Forall is_byte u -> 0 <= s < 2 ^ 56 -> new_LookupKey le junk u s = Some lk ->
    exists c value' v', V_Get v lk value = Some (c, value', v') /\ V_rep v' log es /\ V_room v - 1 <= V_room v' /\
      (c = kOk -> visible u s es = Some (Some value')) /\
      (c = kNotFound -> (visible u s es = None \/ visible u s es = Some None) /\ value' = value);
  V_flush_spec v log es table em seq collect :
    V_rep v log es -> 0 < V_room v -> mem_rep le table em -> Forall byte_version em -> mem_weight em <= V_max ->
    StronglySorted (fun a b => a.1 < b.1) (es ++ em) -> 0 <= seq < 2 ^ 56 ->
    exists c v', V_flush v seq log collect table = Some (c, v') /\ V_rep v' log (if Status_ok c then es ++ em else es) /\ V_room v - 1 <= V_room v';
  V_NewFileNumber_spec v log es : V_rep v log es -> 0 < V_room v ->
    V_rep (V_NewFileNumber v).2 (V_NewFileNumber v).1 es /\ V_room v - 1 <= V_room (V_NewFileNumber v).2;
  V_ReuseFileNumber_spec v log es : V_rep v log es -> 0 < V_room v ->
    V_rep (V_ReuseFileNumber (V_NewFileNumber v).1 (V_NewFileNumber v).2) log es /\
    V_room v - 1 <= V_room (V_ReuseFileNumber (V_NewFileNumber v).1 (V_NewFileNumber v).2);
}.

Record DBImpl (V : Type) := {
  mem_ : SkipList (list Z);
  imm_ : option (SkipList (list Z));
  current : V;
  last_sequence : Z;
  bg_error_ : Code;
  logfile_number_ : Z;
  log_ : list (list Z * Code);
}.
Arguments Build_DBImpl {V} _ _ _ _ _ _ _.
Arguments mem_ {V} _.
Arguments imm_ {V} _.
Arguments current {V} _.
Arguments last_sequence {V} _.
Arguments bg_error_ {V} _.
Arguments logfile_number_ {V} _.
Arguments log_ {V} _.

(** A queued writer: its batch (NULL for a forced compaction) and its sync flag. *)
Record Writer := { w_batch : option (list Z); w_sync : bool }.

(** What one turn of the loop of [MakeRoomForWrite] observes: the number of
    level-0 files, the result of NewWritableFile, and whether the background
    thread flushes [imm_] while this one sleeps or waits. *)
Record Turn := { l0_files : Z; new_file : Code; bg_flush : bool }.

(** What happens to one [Write] call. *)
Record Outcome := { turns : list Turn; add_record : Code; sync_file : Code }.

Definition kL0_SlowdownWritesTrigger : Z := 8.
Definition kL0_StopWritesTrigger : Z := 12.

Section dbimpl.
Context (le : bool) (junk : nat -> Z) (uninit : option nat) (stack : nat -> nat).
Context (new_block : list (Z * Z) -> Z -> Z) (write_buffer_size : Z) (paranoid_checks : bool).
Context {V : Type} `{!VersionSet le V}.
Implicit Types (db : DBImpl V).

Definition RecordBackgroundError (s : Code) db : DBImpl V :=
  if Status_ok (bg_error_ db)
  then Build_DBImpl (mem_ db) (imm_ db) (current db) (last_sequence db) s (logfile_number_ db) (log_ db) else db.

Definition set_current (v : V) db : DBImpl V :=
  Build_DBImpl (mem_ db) (imm_ db) v (last_sequence db) (bg_error_ db) (logfile_number_ db) (log_ db).

(** The flush of [imm_], with the status of the table build and of LogAndApply. *)
Definition CompactMemTable db : option (DBImpl V) :=
  match imm_ db with
  | None => Some db
  | Some imm =>
    '(s, v) ← V_flush (current db) (last_sequence db) (logfile_number_ db) (Status_ok (bg_error_ db)) imm;
    let db := set_current v db in
    Some (if Status_ok s
          then Build_DBImpl (mem_ db) None (current db) (last_sequence db) (bg_error_ db) (logfile_number_ db) (log_ db)
          else RecordBackgroundError s db)
  end.

Definition background (t : Turn) db : option (DBImpl V) := if bg_flush t then CompactMemTable db else Some db.

(** A fresh log and an empty memtable; the old one becomes [imm_]. *)
Definition switch_memtable (n : Z) (v : V) db : option (DBImpl V) :=
  m ← new_MemTable uninit;
  Some (Build_DBImpl m (Some (mem_ db)) v (last_sequence db) (bg_error_ db) n []).

(** One turn of the loop: the result, or [force], [allow_delay] and the state
    that the next turn starts from. *)
Definition room_turn (t : Turn) (force allow_delay : bool) db : option (Code * DBImpl V + bool * bool * DBImpl V) :=
  if negb (Status_ok (bg_error_ db)) then Some (inl (bg_error_ db, db))
  else if allow_delay && (kL0_SlowdownWritesTrigger <=? l0_files t) then
    db ← background t db; Some (inr (force, false, db))
  else
    usage ← ApproximateMemoryUsage new_block (mem_ db);
    if negb force && (usage <=? write_buffer_size) then Some (inl (kOk, db))
    else
      match imm_ db with
      | Some _ => db ← background t db; Some (inr (force, allow_delay, db))
      | None =>
        if kL0_StopWritesTrigger <=? l0_files t then
          db ← background t db; Some (inr (force, allow_delay, db))
        else
          _ ← passert (V_PrevLogNumber (current db) =? 0);
          let '(n, v) := V_NewFileNumber (current db) in
          if negb (Status_ok (new_file t)) then Some (inl (new_file t, set_current (V_ReuseFileNumber n v) db))
          else db ← switch_memtable n v db; Some (inr (false, allow_delay, db))
      end.

(** [None]: the writer is still waiting after the turns given. *)
Fixpoint MakeRoomForWrite (ts : list Turn) (force allow_delay : bool) db : option (Code * DBImpl V) :=
  match ts with
  | [] => None
  | t :: ts =>
    r ← room_turn t force allow_delay db;
    match r with
    | inl r => Some r
    | inr (force, allow_delay, db) => MakeRoomForWrite ts force allow_delay db
    end
  end.

(** The loop over the writers behind the first; [result] is [None] while the
    group is still the first writer's own batch. *)
Fixpoint group_loop (first : list Z) (first_sync : bool) (max_size size : Z)
    (result : option (list Z)) (count : nat) (ws : list Writer) : option (list Z * nat) :=
  match ws with
  | [] => Some (default first result, count)
  | w :: ws =>
    if w_sync w && negb first_sync then Some (default first result, count)
    else
      match w_batch w with
      | None => group_loop first first_sync max_size size result (S count) ws
      | Some b =>
        let size := size + ByteSize b in
        if max_size <? size then Some (default first result, count)
        else
          r ← (match result with None => Append le Clear first | Some r => Some r end);
          r ← Append le r b;
          group_loop first first_sync max_size size (Some r) (S count) ws
      end
  end.

(** The batch to commit and the number of writers it serves. *)
Definition BuildBatchGroup (first : list Z) (first_sync : bool) (rest : list Writer)
    : option (list Z * nat) :=
  let size := ByteSize first in
  let max_size := if size <=? Z.shiftl 128 10 then size + Z.shiftl 128 10 else Z.shiftl 1 20 in
  group_loop first first_sync max_size size None 1 rest.

(** The commit itself, once there is room. *)
Definition commit (o : Outcome) (sync : bool) (updates : list Z) db : option (Code * DBImpl V) :=
  updates ← SetSequence le updates (last_sequence db + 1);
  n ← Count le updates;
  let last := wrap 64 (last_sequence db + n) in
  let status := add_record o in
  let log := log_ db ++ [(Contents updates, status)] in
  let '(status, sync_error) :=
    if Status_ok status && sync then (sync_file o, negb (Status_ok (sync_file o)))
    else (status, false) in
  '(status, m) ← (if Status_ok status
                  then InsertInto le junk uninit stack updates (mem_ db)
                  else Some (status, mem_ db));
  let db := Build_DBImpl m (imm_ db) (current db) (last_sequence db) (bg_error_ db) (logfile_number_ db) log in
  let db := if sync_error then RecordBackgroundError status db else db in
  Some (status, Build_DBImpl (mem_ db) (imm_ db) (current db) last (bg_error_ db) (logfile_number_ db) (log_ db)).

(** [Write] as run by the writer at the front of the queue: the status handed
    to the writers of its group, and how many they are. *)
Definition Write (o : Outcome) (w : Writer) (rest : list Writer) db
    : option (Code * nat * DBImpl V) :=
  let force := match w_batch w with None => true | Some _ => false end in
  '(status, db) ← MakeRoomForWrite (turns o) force (negb force) db;
  match w_batch w with
  | Some b =>
    if Status_ok status then
      '(updates, n) ← BuildBatchGroup b (w_sync w) rest;
      '(status, db) ← commit o (w_sync w) updates db;
      Some (status, n, db)
    else Some (status, 1%nat, db)
  | None => Some (status, 1%nat, db)
  end.

Definition DBImpl_Put (o : Outcome) (sync : bool) (key value : list Z) db : option (Code * DBImpl V) :=
  batch ← Put le Clear key value;
  '(s, _, db) ← Write o {| w_batch := Some batch; w_sync := sync |} [] db;
  Some (s, db).

Definition DBImpl_Delete (o : Outcome) (sync : bool) (key : list Z) db : option (Code * DBImpl V) :=
  batch ← Delete le Clear key;
  '(s, _, db) ← Write o {| w_batch := Some batch; w_sync := sync |} [] db;
  Some (s, db).

(** [snapshot] is the one of the ReadOptions, if any. *)
Definition DBImpl_Get (snapshot : option Z) (key value : list Z) db : option (Code * list Z * DBImpl V) :=
  let snapshot := default (last_sequence db) snapshot in
  lkey ← new_LookupKey le junk key snapshot;
  '(found, value, s) ← Memtable.Get le lkey value kOk (mem_ db);
  if found : bool then Some (s, value, db)
  else
    let from_tables value :=
      '(s, value, v) ← V_Get (current db) lkey value;
      Some (s, value, set_current v db) in
    match imm_ db with
    | None => from_tables value
    | Some imm =>
      '(found, value, s) ← Memtable.Get le lkey value s imm;
      if found : bool then Some (s, value, db) else from_tables value
    end.

End dbimpl.

(** ** RecoverLogFile: the loop over the records

    Recovery writes tables into an edit that is applied later.  [W_write] is
    [WriteLevel0Table(mem, edit, NULL)]. *)
Class TableWriter (le : bool) (W : Type) := W_write : W -> SkipList (list Z) -> option (Code * W).
Class TableSink (le : bool) (W : Type) `{!TableWriter le W} := {
  W_rep : W -> list version -> Prop;
  W_room : W -> Z;
  W_max : Z;
  W_max_bound : 0 <= W_max < 2 ^ 31;
  W_write_spec w es table em :
    W_rep w es -> 0 < W_room w -> mem_rep le table em -> Forall byte_version em -> mem_weight em <= W_max ->
    StronglySorted (fun a b => a.1 < b.1) (es ++ em) ->
    exists c w', W_write w table = Some (c, w') /\ W_rep w' (if Status_ok c then es ++ em else es) /\ W_room w - 1 <= W_room w';
}.

Section recover.
Context (le : bool) (junk : nat -> Z) (uninit : option nat) (stack : nat -> nat).
Context (new_block : list (Z * Z) -> Z -> Z) (write_buffer_size : Z) (paranoid_checks : bool).
Context {W : Type} `{!TableWriter le W}.

Definition MaybeIgnoreError (s : Code) : Code :=
  if Status_ok s || paranoid_checks then s else kOk.

(** The body of the loop: the status it leaves, the memtable being filled, the
    tables, [*max_sequence] and whether a table was written. *)
Definition recover_record (record : list Z) (mem : option (SkipList (list Z))) (w : W) (max_sequence : Z)
    : option (Code * option (SkipList (list Z)) * W * Z * bool) :=
  if zlen record <? 12 then
    Some (if paranoid_checks then kCorruption else kOk, mem, w, max_sequence, false)
  else
    batch ← SetContents record;
    m ← (match mem with None => new_MemTable uninit | Some m => Some m end);
    '(status, m) ← InsertInto le junk uninit stack batch m;
    let status := MaybeIgnoreError status in
    if negb (Status_ok status) then Some (status, Some m, w, max_sequence, false)
    else
      seq ← Sequence le batch; n ← Count le batch;
      let last_seq := wrap 64 (seq + n - 1) in
      let max_sequence := if max_sequence <? last_seq then last_seq else max_sequence in
      usage ← ApproximateMemoryUsage new_block m;
      if write_buffer_size <? usage then
        '(status, w) ← W_write w m; Some (status, None, w, max_sequence, true)
      else Some (kOk, Some m, w, max_sequence, false).

Fixpoint RecoverLogFile_loop (records : list (list Z)) (mem : option (SkipList (list Z))) (w : W) (max_sequence : Z)
    (compacted : bool) : option (Code * option (SkipList (list Z)) * W * Z * bool) :=
  match records with
  | [] => Some (kOk, mem, w, max_sequence, compacted)
  | record :: records =>
    '(status, mem, w, max_sequence, written) ← recover_record record mem w max_sequence;
    if negb (Status_ok status) then Some (status, mem, w, max_sequence, compacted || written)
    else RecoverLogFile_loop records mem w max_sequence (compacted || written)
  end.
End recover.

(** ** What the database stands for: the versions committed so far

    The tables, the immutable memtable and the memtable hold consecutive parts
    of the history; without a background error the memtable holds exactly the
    records that were added to the current log. *)
Definition acked (log : list (list Z * Code)) : list (list Z) :=
  omap (fun r => if Status_ok r.2 then Some r.1 else None) log.

Lemma acked_app log log' : acked (log ++ log') = acked log ++ acked log'.
Proof. apply omap_app. Qed.
Lemma acked_all records : acked ((fun r => (r, kOk)) <$> records) = records.
Proof. unfold acked. induction records as [|r records IH]; [done|]. cbn. by f_equal. Qed.

Definition log_versions (bs : list (Z * list update)) : list version :=
  concat ((fun b => versions b.1 b.2) <$> bs).

Record db_rep (le : bool) {V} `{!VersionSet le V} (db : DBImpl V) (es : list version) : Prop := {
  rep_last : 0 <= last_sequence db < 2 ^ 56;
  rep_sorted : StronglySorted (fun a b => a.1 < b.1) es;
  rep_seqs : Forall (fun e => e.1 <= last_sequence db) es;
  rep_bytes : Forall byte_version es;
  rep_parts : exists ev ei em bs, es = ev ++ ei ++ em /\
    V_rep (current db) (logfile_number_ db) ev /\
    match imm_ db with None => ei = [] | Some t => mem_rep le t ei end /\
    mem_rep le (mem_ db) em /\ mem_weight ei <= V_max /\ mem_weight em <= V_max /\
    acked (log_ db) = (fun b => encode_batch b.1 b.2) <$> bs /\
    Forall (fun b => 1 <= b.1 /\ zlen b.2 < 2 ^ 31 /\ b.1 + zlen b.2 <= 2 ^ 56) bs /\
    (bg_error_ db = kOk -> em = log_versions bs);
}.

Lemma visible_parts u s es es' :
  visible u s (es ++ es') = match visible u s es' with Some r => Some r | None => visible u s es end.
Proof.
  induction es' as [|e es' IH] using rev_ind; [by rewrite app_nil_r|].
  rewrite app_assoc, (visible_app u s (es ++ es')), (visible_app u s es'), IH. simpl.
  unfold see. by case_decide.
Qed.

Lemma entry_bytes_app es es' : entry_bytes (es ++ es') = entry_bytes es + entry_bytes es'.
Proof. unfold entry_bytes. induction es as [|e es IH]; [done|]. cbn [app foldr]. rewrite IH. lia. Qed.
Lemma entry_bytes_nonneg es : 0 <= entry_bytes es.
Proof. unfold entry_bytes. induction es as [|e es IH]; cbn [foldr]; lia. Qed.
Lemma mem_weight_app es es' : mem_weight (es ++ es') = mem_weight es + mem_weight es'.
Proof. unfold mem_weight. rewrite entry_bytes_app, length_app. lia. Qed.

Lemma Status_not_ok s : Status_ok s = false -> s <> kOk.
Proof. intros E ->. discriminate E. Qed.

(** A memtable of bounded weight has a memory use, which is at least the weight. *)
Lemma usage_spec (le : bool) new_block table em : fresh_blocks new_block -> mem_rep le table em -> mem_weight em < 2 ^ 31 ->
  exists n, ApproximateMemoryUsage new_block table = Some n /\ mem_weight em <= n /\ (em = [] -> n = 4104).
Proof.
  intros Hnew Hm Hw. unfold mem_weight in *. pose proof (entry_bytes_nonneg em). apply (ApproximateMemoryUsage_spec new_block Hnew le); [done|lia].
Qed.

Section proofs.
Context (le : bool) (junk : nat -> Z) (uninit : option nat) (stack : nat -> nat).
Context (new_block : list (Z * Z) -> Z -> Z) (Hnew : fresh_blocks new_block).
Context (write_buffer_size : Z) (Hwbs : 4104 <= write_buffer_size) (paranoid_checks : bool).
Context {V : Type} `{!VersionSet le V}.
Implicit Types (db : DBImpl V) (es : list version).
Notation db_rep := (db_rep le).
Notation room db := (V_room (le := le) (current db)).

Lemma RecordBackgroundError_rep s db es :
  db_rep db es -> s <> kOk -> db_rep (RecordBackgroundError s db) es.
Proof.
  intros [H1 H2 H3 H4 (ev & ei & em & bs & H5 & H6 & H7 & H8 & H9 & H10 & H11 & H12 & H13)] Hs. unfold RecordBackgroundError.
  destruct (Status_ok (bg_error_ db)); split; simpl; try done; exists ev, ei, em, bs; by split_and!.
Qed.

(** The flush of [imm_]: done, or refused for good. *)
Definition flushed_to db db' : Prop :=
  mem_ db' = mem_ db /\ last_sequence db' = last_sequence db /\ room db - 1 <= room db' /\
  (imm_ db' = None /\ bg_error_ db' = bg_error_ db \/ bg_error_ db' <> kOk).

Lemma CompactMemTable_rep db es : db_rep db es -> 0 < room db -> is_Some (imm_ db) ->
  exists db', CompactMemTable le db = Some db' /\ db_rep db' es /\ flushed_to db db'.
Proof.
  intros [H1 H2 H3 H4 (ev & ei & em & bs & -> & H6 & H7 & H8 & H9 & H10 & H11 & H12 & H13)] Hr [imm Himm].
  unfold CompactMemTable. rewrite Himm in H7 |- *. pose proof H2 as Hs. rewrite app_assoc in Hs. apply StronglySorted_app in Hs as (_ & Hs & _).
  rewrite !Forall_app in H4. destruct H4 as (B1 & B2 & B3).
  destruct (V_flush_spec _ _ ev imm ei (last_sequence db) (Status_ok (bg_error_ db)) H6 Hr H7 B2 H9 Hs H1) as (c & v & -> & Hv & Hroom). cbn [mbind option_bind].
  destruct (Status_ok c) eqn:Ec.
  - eexists. split; [done|]. split.
    + split; simpl; try done; [by rewrite !Forall_app|]. exists (ev ++ ei), [], em, bs. split_and!; try done; [by rewrite <-app_assoc|].
      unfold mem_weight. simpl. pose proof V_max_bound. lia.
    + split; [done|]. split; [done|]. split; [done|]. by left.
  - eexists. split; [done|]. apply Status_not_ok in Ec. split.
    + apply RecordBackgroundError_rep; [|done]. split; simpl; try done; [by rewrite !Forall_app|]. exists ev, ei, em, bs. simpl. rewrite Himm. by split_and!.
    + unfold flushed_to, RecordBackgroundError. cbn [set_current bg_error_]. destruct (Status_ok (bg_error_ db)) eqn:Eb; cbn; split_and!; try done; right; [done|]. by apply Status_not_ok.
Qed.

(** ** Room for a write

    The file numbers that a turn may still use up: one to flush [imm_], two to
    give the memtable a new log and to flush it. *)
Definition mem_usage db : Z := default 0 (ApproximateMemoryUsage new_block (mem_ db)).
Definition cost (force : bool) db : Z :=
  if Status_ok (bg_error_ db)
  then (match imm_ db with Some _ => 1 | None => 0 end) + (if force || (write_buffer_size <? mem_usage db) then 2 else 0)
  else 0.

Lemma cost_bounds force db : 0 <= cost force db <= 3.
Proof. unfold cost. repeat case_match; lia. Qed.

Lemma db_usage db es : db_rep db es ->
  ApproximateMemoryUsage new_block (mem_ db) = Some (mem_usage db) /\
  forall em, mem_rep le (mem_ db) em -> mem_weight em < 2 ^ 31 -> mem_weight em <= mem_usage db.
Proof using Hnew.
  intros [_ _ _ _ (ev & ei & em & bs & _ & _ & _ & Hm & _ & Hw & _)]. pose proof V_max_bound. unfold mem_usage. split.
  - destruct (usage_spec le new_block _ em Hnew Hm) as (n & -> & _); [lia|done].
  - intros em' Hm' Hw'. destruct (usage_spec le new_block _ em' Hnew Hm' Hw') as (n & -> & Hn & _). exact Hn.
Qed.

Lemma background_rep t force db es : db_rep db es -> Status_ok (bg_error_ db) = true -> cost force db <= room db ->
  exists db', background le t db = Some db' /\ db_rep db' es /\ mem_ db' = mem_ db /\ last_sequence db' = last_sequence db /\
    room db - cost force db <= room db' - cost force db' /\
    (bg_flush t = true -> bg_error_ db' <> kOk \/ imm_ db' = None).
Proof.
  intros Hrep Hbg Hc. unfold background. destruct (bg_flush t); [|exists db; split_and!; by auto using Z.le_refl].
  destruct (imm_ db) as [imm|] eqn:Eimm.
  2:{ exists db. unfold CompactMemTable. rewrite Eimm. split_and!; try done. intros _. by right. }
  assert (1 <= cost force db) as H1 by (unfold cost; rewrite Hbg, Eimm; destruct (_ || _); lia).
  destruct (CompactMemTable_rep db es Hrep) as (db' & -> & Hrep' & Em & El & Hr & Hcase); [lia|by eexists|].
  exists db'. split_and!; try done.
  - destruct Hcase as [[Ei Eb]|Hbad].
    + assert (cost force db' = cost force db - 1) as -> by (unfold cost, mem_usage; rewrite Ei, Eb, Em, Hbg, Eimm; lia). lia.
    + assert (cost force db' = 0) as -> by (unfold cost; destruct (Status_ok (bg_error_ db')) eqn:E; [apply Status_ok_eq in E; done|done]). lia.
  - intros _. destruct Hcase as [[Ei _]|Hbad]; auto.
Qed.

Lemma switch_memtable_rep db es : db_rep db es -> imm_ db = None -> 0 < room db ->
  let '(n, v) := V_NewFileNumber (current db) in
  exists db', switch_memtable uninit n v db = Some db' /\ db_rep db' es /\ last_sequence db' = last_sequence db /\
    bg_error_ db' = bg_error_ db /\ mem_usage db' = 4104 /\ is_Some (imm_ db') /\ room db - 1 <= room db'.
Proof using Hnew.
  intros [H1 H2 H3 H4 (ev & ei & em & bs & -> & H6 & H7 & H8 & H9 & H10 & H11 & H12 & H13)] Himm Hr. rewrite Himm in H7. subst ei.
  destruct (V_NewFileNumber_spec _ _ _ H6 Hr) as [Hv Hroom]. destruct (V_NewFileNumber (current db)) as [n v]. cbn [fst snd] in *.
  unfold switch_memtable. destruct (new_MemTable_rep le uninit) as (m & -> & Hm). cbn [mbind option_bind].
  eexists. split; [done|]. split; [|split_and!; try done].
  - split; simpl; try done. exists ev, em, [], []. rewrite app_nil_r. by split_and!.
  - unfold mem_usage. cbn. destruct (usage_spec le new_block m [] Hnew Hm) as (u & -> & _ & Hu); [done|]. by apply Hu.
Qed.

Lemma reuse_rep db es : db_rep db es -> 0 < room db ->
  let '(n, v) := V_NewFileNumber (current db) in
  db_rep (set_current (V_ReuseFileNumber n v) db) es /\ room db - 1 <= V_room (V_ReuseFileNumber n v).
Proof.
  intros [H1 H2 H3 H4 (ev & ei & em & bs & E & H6 & H7)] Hr.
  destruct (V_ReuseFileNumber_spec _ _ _ H6 Hr) as [Hv Hroom]. destruct (V_NewFileNumber (current db)) as [n v]. cbn [fst snd] in *.
  split; [|done]. split; simpl; try done. by exists ev, ei, em, bs.
Qed.

(** How many quiet turns a writer still needs: level 0 is small and the
    background thread does its work. *)
Definition calm (t : Turn) : Prop := l0_files t < kL0_SlowdownWritesTrigger /\ bg_flush t = true.
Definition needs (force : bool) db : nat :=
  if negb (Status_ok (bg_error_ db)) || negb (force || (write_buffer_size <? mem_usage db)) then 0
  else match imm_ db with Some _ => 2 | None => 1 end.

Lemma room_turn_spec t force allow_delay db es : db_rep db es -> cost force db <= room db ->
  exists r, room_turn le uninit new_block write_buffer_size t force allow_delay db = Some r /\
    match r with
    | inl (c, db') => db_rep db' es /\ last_sequence db' = last_sequence db /\ room db - cost force db <= room db' /\
        (c = kOk -> bg_error_ db' = kOk /\ mem_usage db' <= write_buffer_size)
    | inr (force', _, db') => db_rep db' es /\ last_sequence db' = last_sequence db /\
        room db - cost force db <= room db' - cost force' db' /\ cost force' db' <= room db' /\
        (calm t -> (needs force' db' < needs force db)%nat)
    end.
Proof using Hnew Hwbs.
  intros Hrep Hc. pose proof (cost_bounds force db) as Hcb. unfold room_turn.
  destruct (Status_ok (bg_error_ db)) eqn:Eb; cbn [negb].
  2:{ eexists. split; [done|]. split_and!; [done|done|lia|]. intros E. rewrite E in Eb. discriminate. }
  destruct (db_usage db es Hrep) as [-> _]. pose proof Eb as Eb'%Status_ok_eq.
  assert (forall a', exists r, (db ← background le t db; Some (inr (force, a' : bool, db) : Code * DBImpl V + bool * bool * DBImpl V)) = Some r /\
    match r with inl _ => False | inr (force', _, db') => db_rep db' es /\ last_sequence db' = last_sequence db /\
        room db - cost force db <= room db' - cost force' db' /\ cost force' db' <= room db' /\ force' = force /\ mem_ db' = mem_ db /\
        (bg_flush t = true -> bg_error_ db' <> kOk \/ imm_ db' = None) end) as Hwait.
  { intros a'. destruct (background_rep t force db es Hrep Eb Hc) as (db' & -> & Hrep' & Em & El & Hr & Hf). cbn [mbind option_bind].
    eexists. split; [done|]. split_and!; try done. lia. }
  assert (forall a', (needs force db = 2)%nat \/ kL0_SlowdownWritesTrigger <= l0_files t -> exists r, (db ← background le t db; Some (inr (force, a' : bool, db) : Code * DBImpl V + bool * bool * DBImpl V)) = Some r /\
    match r with
    | inl (c, db') => db_rep db' es /\ last_sequence db' = last_sequence db /\ room db - cost force db <= room db' /\
        (c = kOk -> bg_error_ db' = kOk /\ mem_usage db' <= write_buffer_size)
    | inr (force', _, db') => db_rep db' es /\ last_sequence db' = last_sequence db /\
        room db - cost force db <= room db' - cost force' db' /\ cost force' db' <= room db' /\
        (calm t -> (needs force' db' < needs force db)%nat)
    end) as Hgo.
  { intros a' Hwhy. destruct (Hwait a') as (r & -> & Hr). exists r. split; [done|]. destruct r as [|[[f' a''] db']]; [done|].
    destruct Hr as (R1 & R2 & R3 & R4 & -> & Em & Hf). split_and!; try done. intros [Hl0 Hbg]. destruct Hwhy as [Hn|Hn]; [|lia].
    rewrite Hn. destruct (Hf Hbg) as [Hbad|Hnone]; unfold needs; [destruct (Status_ok (bg_error_ db')) eqn:E; [by apply Status_ok_eq in E|]; cbn; lia|].
    rewrite Hnone. destruct (_ || _); lia. }
  destruct (allow_delay && (kL0_SlowdownWritesTrigger <=? l0_files t)) eqn:Edelay.
  { apply Hgo. right. by apply andb_prop in Edelay as [_ ?%Z.leb_le]. }
  cbn [mbind option_bind]. destruct (negb force && (mem_usage db <=? write_buffer_size)) eqn:Esmall.
  { apply andb_prop in Esmall as [_ Hs%Z.leb_le]. eexists. split; [done|]. split_and!; [done|done|lia|done]. }
  assert (force || (write_buffer_size <? mem_usage db) = true) as Ebig.
  { destruct force; [done|]. cbn in *. apply Z.leb_gt in Esmall. by apply Z.ltb_lt. }
  destruct (imm_ db) as [imm|] eqn:Eimm.
  { apply Hgo. left. unfold needs. by rewrite Eb, Ebig, Eimm. }
  destruct (Z.leb_spec kL0_StopWritesTrigger (l0_files t)) as [Hl0|Hl0].
  { apply Hgo. right. unfold kL0_StopWritesTrigger, kL0_SlowdownWritesTrigger in *. lia. }
  assert (cost force db = 2) as Ecost by (unfold cost; by rewrite Eb, Eimm, Ebig).
  assert (V_PrevLogNumber (current db) =? 0 = true) as ->.
  { apply Z.eqb_eq. destruct Hrep as [_ _ _ _ (ev & ei & em & bs & _ & Hv & _)]. by eapply V_PrevLogNumber_spec. }
  cbn [passert mbind option_bind].
  pose proof (switch_memtable_rep db es Hrep Eimm ltac:(lia)) as Hsw. pose proof (reuse_rep db es Hrep ltac:(lia)) as Hre.
  destruct (V_NewFileNumber (current db)) as [n v]. destruct (Status_ok (new_file t)) eqn:Ef; cbn [negb].
  - destruct Hsw as (db' & -> & R1 & R2 & R3 & R4 & [i Hi] & R5). cbn [mbind option_bind]. eexists. split; [done|].
    assert (write_buffer_size <? mem_usage db' = false) as Es by (rewrite R4; apply Z.ltb_ge; lia).
    assert (cost false db' = 1) as Ec' by (unfold cost; by rewrite R3, Eb, Hi, Es).
    split_and!; [done|done|lia|lia|]. intros _. unfold needs. rewrite R3, Eb, Es, Ebig, Eimm. cbn. lia.
  - eexists. split; [done|]. destruct Hre as [R1 R2]. split_and!; [done|done|cbn; lia|]. intros E. rewrite E in Ef. discriminate.
Qed.

Lemma MakeRoomForWrite_rep ts : forall force allow_delay db es,
  db_rep db es -> cost force db <= room db ->
  match MakeRoomForWrite le uninit new_block write_buffer_size ts force allow_delay db with
  | None => True
  | Some (c, db') => db_rep db' es /\ last_sequence db' = last_sequence db /\ room db - cost force db <= room db' /\
      (c = kOk -> bg_error_ db' = kOk /\ mem_usage db' <= write_buffer_size)
  end.
Proof using Hnew Hwbs.
  induction ts as [|t ts IH]; intros force allow_delay db es Hrep Hc; cbn [MakeRoomForWrite]; [done|].
  destruct (room_turn_spec t force allow_delay db es Hrep Hc) as (r & -> & Hr). cbn [mbind option_bind].
  destruct r as [[c db']|[[force' allow'] db']]; [done|]. destruct Hr as (R1 & R2 & R3 & R4 & _). specialize (IH force' allow' db' es R1 R4).
  destruct (MakeRoomForWrite _ _ _ _ _ _ _ _) as [[c db2]|]; [|done]. destruct IH as (I1 & I2 & I3 & I4). split_and!; [done|congruence|lia|done].
Qed.

(** The statuses that a writer without room can get: the background error, the
    status of a flush, or the status of creating a log file. *)
Definition flush_status (c : Code) : Prop :=
  exists (v : V) seq log collect table v', V_flush v seq log collect table = Some (c, v').
Definition bg_from db (c : Code) : Prop := c = bg_error_ db \/ flush_status c.
Definition room_error (ts : list Turn) db (c : Code) : Prop := bg_from db c \/ Exists (fun t => new_file t = c) ts.

Lemma background_errors t db db' : background le t db = Some db' -> bg_from db (bg_error_ db').
Proof.
  unfold background, CompactMemTable. destruct (bg_flush t); [|intros [= <-]; by left].
  destruct (imm_ db) as [imm|]; [|intros [= <-]; by left].
  destruct (V_flush _ _ _ _ _) as [[s v]|] eqn:E; [|done]. cbn [mbind option_bind]. intros [= <-]. destruct (Status_ok s); [by left|].
  unfold RecordBackgroundError. cbn. destruct (Status_ok (bg_error_ db)); [right; by eexists _, _, _, _, _, _|by left].
Qed.

Lemma room_turn_errors t force allow_delay db r :
  room_turn le uninit new_block write_buffer_size t force allow_delay db = Some r ->
  match r with
  | inl (c, db') => bg_error_ db' = bg_error_ db /\ (c = kOk \/ c = bg_error_ db \/ c = new_file t)
  | inr (_, _, db') => bg_from db (bg_error_ db')
  end.
Proof.
  unfold room_turn. assert (forall f a, (db ← background le t db; Some (inr (f : bool, a : bool, db) : Code * DBImpl V + bool * bool * DBImpl V)) = Some r ->
    match r with inl (c, db') => False | inr (_, _, db') => bg_from db (bg_error_ db') end) as Hwait.
  { intros f a. destruct (background le t db) as [db1|] eqn:E; [|done]. intros [= <-]. by eapply background_errors. }
  assert (forall f a, (db ← background le t db; Some (inr (f : bool, a : bool, db) : Code * DBImpl V + bool * bool * DBImpl V)) = Some r ->
    match r with
    | inl (c, db') => bg_error_ db' = bg_error_ db /\ (c = kOk \/ c = bg_error_ db \/ c = new_file t)
    | inr (_, _, db') => bg_from db (bg_error_ db') end) as Hgo by (intros f a H; apply Hwait in H; by destruct r as [[]|[[]]]).
  destruct (negb (Status_ok _)); [intros [= <-]; auto|]. destruct (allow_delay && _); [apply Hgo|].
  destruct (ApproximateMemoryUsage _ _) as [usage|]; [|done]. cbn [mbind option_bind]. destruct (negb force && _); [intros [= <-]; auto|].
  destruct (imm_ db); [apply Hgo|]. destruct (_ <=? _); [apply Hgo|]. destruct (passert _); [|done]. cbn [mbind option_bind].
  destruct (V_NewFileNumber _) as [n v]. destruct (negb _); [intros [= <-]; cbn; auto|].
  unfold switch_memtable. destruct (new_MemTable uninit); [|done]. intros [= <-]. by left.
Qed.

Lemma MakeRoomForWrite_errors ts : forall force allow_delay db c db',
  MakeRoomForWrite le uninit new_block write_buffer_size ts force allow_delay db = Some (c, db') ->
  bg_from db (bg_error_ db') /\ (c = kOk \/ room_error ts db c).
Proof.
  induction ts as [|t ts IH]; intros force allow_delay db c db'; cbn [MakeRoomForWrite]; [done|].
  destruct (room_turn _ _ _ _ _ _ _ _) as [r|] eqn:E; [|done]. apply room_turn_errors in E. cbn [mbind option_bind].
  destruct r as [[c1 db1]|[[f a] db1]].
  - intros [= <- <-]. destruct E as [E Hc]. split; [by left|]. destruct Hc as [?|[?|?]]; [by left|right; left; by left|right; right; by left].
  - intros H. apply IH in H as [Hbg Hc].
    assert (forall e, bg_from db1 e -> bg_from db e) as Hfrom by (intros e [->|?]; [done|by right]).
    split; [auto|]. destruct Hc as [?|[?|?]]; [by left|right; left; auto|right; right; by right].
Qed.

(** Three quiet turns in a row are enough. *)
Definition gives_room (ts : list Turn) : Prop :=
  exists pre t1 t2 t3 post, ts = pre ++ t1 :: t2 :: t3 :: post /\ calm t1 /\ calm t2 /\ calm t3.

Lemma MakeRoomForWrite_calm ts : forall post force allow_delay db es,
  db_rep db es -> cost force db <= room db -> Forall calm ts -> (needs force db < length ts)%nat ->
  is_Some (MakeRoomForWrite le uninit new_block write_buffer_size (ts ++ post) force allow_delay db).
Proof using Hnew Hwbs.
  induction ts as [|t ts IH]; intros post force allow_delay db es Hrep Hc Hcalm Hn; [cbn in Hn; lia|].
  apply Forall_cons in Hcalm as [Ht Hcalm]. cbn [app MakeRoomForWrite].
  destruct (room_turn_spec t force allow_delay db es Hrep Hc) as (r & -> & Hr). cbn [mbind option_bind].
  destruct r as [[c db']|[[force' allow'] db']]; [by eexists|]. destruct Hr as (R1 & R2 & R3 & R4 & R5).
  eapply IH; eauto. specialize (R5 Ht). cbn in Hn. lia.
Qed.

Lemma MakeRoomForWrite_live ts force allow_delay db es : db_rep db es -> cost force db <= room db -> gives_room ts ->
  is_Some (MakeRoomForWrite le uninit new_block write_buffer_size ts force allow_delay db).
Proof using Hnew Hwbs.
  intros Hrep Hc (pre & t1 & t2 & t3 & post & -> & H1 & H2 & H3). revert force allow_delay db Hrep Hc.
  induction pre as [|t pre IH]; intros force allow_delay db Hrep Hc.
  - apply (MakeRoomForWrite_calm [t1; t2; t3] post force allow_delay db es Hrep Hc); [by rewrite !Forall_cons|].
    unfold needs. cbn. destruct (_ || _); [lia|]. destruct (imm_ db); lia.
  - cbn [app MakeRoomForWrite]. destruct (room_turn_spec t force allow_delay db es Hrep Hc) as (r & -> & Hr). cbn [mbind option_bind].
    destruct r as [[c db']|[[force' allow'] db']]; [by eexists|]. destruct Hr as (R1 & R2 & R3 & R4 & _). by apply IH.
Qed.

(** ** Group commit *)

(** The updates a queued writer asks for. *)
Definition wants (w : Writer) (us : list update) : Prop :=
  match w_batch w with None => us = [] | Some b => exists seq, b = encode_batch seq us end.

Lemma group_loop_spec first us0 fsync max_size seq0 ws : forall size result count acc uss,
  first = encode_batch seq0 us0 ->
  match result with None => acc = us0 | Some r => exists seq, r = encode_batch seq acc end ->
  Forall2 wants ws uss -> zlen us0 + zlen acc + zlen (concat uss) < 2 ^ 31 ->
  exists seq m, group_loop le first fsync max_size size result count ws
    = Some (encode_batch seq (acc ++ concat (take m uss)), (count + m)%nat) /\ (m <= length ws)%nat /\
    (fsync = false -> Forall (fun w => w_sync w = false) (take m ws)).
Proof.
  induction ws as [|w ws IH]; intros size result count acc uss Hfirst Hres Hws Hn; cbn [group_loop];
    assert (exists seq, default first result = encode_batch seq acc) as [seqr Hr]
      by (destruct result; [destruct Hres as [seq ->]; by exists seq|subst; by exists seq0]).
  - exists seqr, 0%nat. rewrite Hr, take_0, Nat.add_0_r. simpl. rewrite app_nil_r. split_and!; done.
  - apply Forall2_cons_inv_l in Hws as (us & uss' & Hw & Hws & ->). simpl in Hn. rewrite length_app in Hn.
    assert (exists seq m, Some (default first result, count)
      = Some (encode_batch seq (acc ++ concat (take m (us :: uss'))), (count + m)%nat) /\ (m <= length (w :: ws))%nat /\
      (fsync = false -> Forall (fun w => w_sync w = false) (take m (w :: ws)))) as Hstop.
    { exists seqr, 0%nat. rewrite Hr, Nat.add_0_r. simpl. rewrite app_nil_r. split_and!; [done|lia|done]. }
    destruct (w_sync w && negb fsync) eqn:Hsync; [done|].
    assert (fsync = false -> w_sync w = false) as Hsame by (intros ->; by rewrite andb_true_r in Hsync). unfold wants in Hw. destruct (w_batch w) as [b|].
    + destruct Hw as [seqb ->]. destruct (max_size <? _); [done|]. clear Hstop.
      assert ((match result with None => Append le Clear first | Some r => Some r end)
        = Some (encode_batch (match result with None => 0 | Some _ => seqr end) acc)) as ->.
      { destruct result as [r|]; simpl in Hr; [by rewrite Hr|]. subst acc.
        rewrite Hfirst, encode_batch_0, Append_encode by (simpl; lia). done. }
      cbn [mbind option_bind]. rewrite Append_encode by lia. cbn [mbind option_bind].
      edestruct (IH) as (seq & m & -> & Hm & Hms); [done|by eexists|done|rewrite length_app; lia|].
      exists seq, (S m). simpl. rewrite <-app_assoc, Nat.add_succ_r. split_and!; [done|lia|auto].
    + subst us. destruct (IH size result (S count) acc uss') as (seq & m & -> & Hm & Hms); [done..|simpl in Hn; lia|].
      exists seq, (S m). simpl. rewrite Nat.add_succ_r. split_and!; [done|lia|auto].
Qed.

Lemma BuildBatchGroup_spec seq0 us0 fsync ws uss :
  Forall2 wants ws uss -> 2 * zlen us0 + zlen (concat uss) < 2 ^ 31 ->
  exists seq m, BuildBatchGroup le (encode_batch seq0 us0) fsync ws
    = Some (encode_batch seq (us0 ++ concat (take m uss)), S m) /\ (m <= length ws)%nat /\
    (fsync = false -> Forall (fun w => w_sync w = false) (take m ws)).
Proof.
  intros Hws Hn. unfold BuildBatchGroup. set (size := ByteSize _). set (max_size := if _ <=? _ then _ else _).
  destruct (group_loop_spec (encode_batch seq0 us0) us0 fsync max_size seq0 ws size None 1 us0 uss)
    as (seq & m & -> & Hm & Hms); [done|done|done|lia|]. by exists seq, m.
Qed.

Definition fits_updates (us : list update) : Prop :=
  Forall (fun u => zlen (v_key (0, u)) + 8 < 2 ^ 32 /\ zlen (v_value (0, u)) < 2 ^ 32 /\ byte_version (0, u)) us.

Lemma fits_versions seq us :
  fits_updates us -> 0 <= seq -> seq + zlen us <= 2 ^ 56 -> Forall fits_version (versions seq us).
Proof.
  intros Hfit. revert seq. induction Hfit as [|u us (Hk & Hv & _) _ IH]; intros seq H0 Hs; simpl; [done|].
  rewrite length_cons in Hs. constructor; [|apply IH; lia].
  unfold fits_version, v_key, v_value in *. simpl in *. lia.
Qed.

Lemma byte_versions seq us : fits_updates us -> Forall byte_version (versions seq us).
Proof. intros Hfit. revert seq. induction Hfit as [|u us (_ & _ & Hb) _ IH]; intros seq; simpl; by constructor. Qed.

(** The weight of updates does not depend on their sequence numbers. *)
Definition update_weight (us : list update) : Z := mem_weight (versions 0 us).
Lemma mem_weight_versions seq us : mem_weight (versions seq us) = update_weight us.
Proof.
  unfold update_weight. generalize 0. revert seq. induction us as [|u us IH]; intros seq seq'; [done|].
  change (versions seq (u :: us)) with ([(seq, u)] ++ versions (seq + 1) us). change (versions seq' (u :: us)) with ([(seq', u)] ++ versions (seq' + 1) us).
  rewrite !mem_weight_app, (IH (seq + 1) (seq' + 1)). f_equal. unfold mem_weight, entry_bytes. cbn [foldr length].
  unfold encode_version. rewrite !length_app, !length_ikey. done.
Qed.
Lemma update_weight_app us us' : update_weight (us ++ us') = update_weight us + update_weight us'.
Proof.
  unfold update_weight at 1. rewrite versions_app, mem_weight_app, !mem_weight_versions. done.
Qed.
Lemma update_weight_nonneg us : 0 <= update_weight us.
Proof. unfold update_weight, mem_weight. pose proof (entry_bytes_nonneg (versions 0 us)). lia. Qed.

Lemma versions_sorted seq us : StronglySorted (fun a b => a.1 < b.1) (versions seq us).
Proof.
  revert seq. induction us as [|u us IH]; intros seq; simpl; constructor; [done|].
  eapply Forall_impl; [apply versions_range|]. simpl. intros. lia.
Qed.

Lemma history_extend es seq us :
  StronglySorted (fun a b => a.1 < b.1) es -> Forall (fun e => e.1 < seq) es ->
  StronglySorted (fun a b => a.1 < b.1) (es ++ versions seq us).
Proof.
  intros Hs Hlt. apply StronglySorted_app. split_and!; [|done|apply versions_sorted].
  intros a b Ha Hb. rewrite Forall_forall in Hlt. specialize (Hlt a Ha).
  pose proof (versions_range seq us) as Hr. rewrite Forall_forall in Hr. specialize (Hr b Hb). lia.
Qed.

Lemma log_versions_snoc bs b : log_versions (bs ++ [b]) = log_versions bs ++ versions b.1 b.2.
Proof. unfold log_versions. rewrite fmap_app, concat_app. simpl. by rewrite app_nil_r. Qed.

(** The sequence numbers move on even when the commit fails. *)
Lemma db_rep_last db es last log :
  db_rep db es -> last_sequence db <= last < 2 ^ 56 -> acked log = acked (log_ db) ->
  db_rep (Build_DBImpl (mem_ db) (imm_ db) (current db) last (bg_error_ db) (logfile_number_ db) log) es.
Proof.
  intros [H1 H2 H3 H4 H5] Hl Hlog. split; simpl; [lia|done| |done|by rewrite Hlog].
  eapply Forall_impl; [exact H3|]. simpl. intros. lia.
Qed.

Lemma seqs_below db es : db_rep db es -> Forall (fun e => e.1 < last_sequence db + 1) es.
Proof. intros [_ _ H _ _]. eapply Forall_impl; [exact H|]. simpl. intros. lia. Qed.

(** A record that reached the log but not the memtable comes with a background error. *)
Lemma db_rep_log_only db es seq us s :
  db_rep db es -> 1 <= seq -> zlen us < 2 ^ 31 -> seq + zlen us <= 2 ^ 56 ->
  bg_error_ db = kOk -> s <> kOk ->
  db_rep (RecordBackgroundError s (Build_DBImpl (mem_ db) (imm_ db) (current db)
    (last_sequence db) (bg_error_ db) (logfile_number_ db) (log_ db ++ [(encode_batch seq us, kOk)]))) es.
Proof.
  intros [H1 H2 H3 H4 (ev & ei & em & bs & H5 & H6 & H7 & H8 & H9 & H10 & H11 & H12 & H13)] Hseq Hn Hle Hbg Hs.
  unfold RecordBackgroundError. simpl. rewrite Hbg. split; simpl; try done.
  exists ev, ei, em, (bs ++ [(seq, us)]). split_and!; try done.
  - by rewrite fmap_app, acked_app, H11.
  - apply Forall_app. by repeat constructor.
Qed.

(** A committed batch: in the log and in the memtable. *)
Lemma db_rep_commit db es us m seq last :
  db_rep db es -> seq = last_sequence db + 1 -> last = last_sequence db + zlen us -> last < 2 ^ 56 ->
  zlen us < 2 ^ 31 -> fits_updates us -> bg_error_ db = kOk ->
  (forall em, mem_rep le (mem_ db) em -> mem_weight em <= V_max -> Forall (fun e => e.1 < seq) em ->
    mem_rep le m (em ++ versions seq us) /\ mem_weight em + update_weight us <= V_max) ->
  db_rep (Build_DBImpl m (imm_ db) (current db) last (bg_error_ db) (logfile_number_ db) (log_ db ++ [(encode_batch seq us, kOk)]))
    (es ++ versions seq us).
Proof.
  intros Hrep -> -> Hl Hn Hfit Hbg Hm. pose proof (seqs_below db es Hrep) as Hlt.
  destruct Hrep as [H1 H2 H3 H4 (ev & ei & em & bs & -> & H6 & H7 & H8 & H9 & H10 & H11 & H12 & H13)].
  destruct (Hm em H8 H10) as [Hm1 Hm2]; [rewrite !Forall_app in Hlt; tauto|].
  split; simpl; [lia|by apply history_extend| | |].
  - apply Forall_app. split.
    + eapply Forall_impl; [exact H3|]. simpl. intros. lia.
    + eapply Forall_impl; [apply versions_range|]. simpl. intros. lia.
  - apply Forall_app. split; [done|by apply byte_versions].
  - exists ev, ei, (em ++ versions (last_sequence db + 1) us), (bs ++ [(last_sequence db + 1, us)]).
    split_and!; try done.
    + by rewrite <-!app_assoc.
    + by rewrite mem_weight_app, mem_weight_versions.
    + by rewrite fmap_app, acked_app, H11.
    + apply Forall_app. split; [done|]. constructor; [simpl; lia|done].
    + intros _. by rewrite log_versions_snoc, (H13 Hbg).
Qed.

(** The status of a commit that had room. *)
Definition commit_status (o : Outcome) (sync : bool) : Code :=
  if Status_ok (add_record o) && sync then sync_file o else add_record o.

Lemma commit_rep o sync seq us db es :
  db_rep db es -> bg_error_ db = kOk -> mem_usage db <= write_buffer_size -> fits_updates us ->
  last_sequence db + zlen us < 2 ^ 56 -> zlen us < 2 ^ 31 -> write_buffer_size + update_weight us <= V_max ->
  exists db', commit le junk uninit stack o sync (encode_batch seq us) db = Some (commit_status o sync, db') /\
    last_sequence db' = last_sequence db + zlen us /\ current db' = current db /\
    log_ db' = log_ db ++ [(encode_batch (last_sequence db + 1) us, add_record o)] /\
    bg_error_ db' = (if Status_ok (add_record o) && sync then sync_file o else kOk) /\
    db_rep db' (if Status_ok (commit_status o sync) then es ++ versions (last_sequence db + 1) us else es).
Proof using Hnew.
  intros Hrep Hbg Husage Hfit Hl Hn Hw. pose proof (rep_last _ _ _ Hrep) as H0. unfold commit, commit_status.
  rewrite SetSequence_encode. cbn [mbind option_bind]. rewrite Count_encode by done. cbn [mbind option_bind].
  rewrite wrap_fits by (unfold fits_unsigned; simpl in *; lia). unfold Contents.
  pose proof (fits_versions (last_sequence db + 1) us Hfit ltac:(lia) ltac:(lia)) as Hfv.
  destruct (Status_ok (add_record o)) eqn:Eadd; cbn [andb].
  - apply Status_ok_eq in Eadd. rewrite Eadd. destruct (sync && negb (Status_ok (sync_file o))) eqn:Esync.
    { apply andb_prop in Esync as [-> Ef%negb_true_iff]. rewrite Ef. cbn [mbind option_bind].
      eexists. split; [done|]. split; [done|]. unfold RecordBackgroundError; cbn; rewrite Hbg; cbn. split_and!; [done|done|done|].
      pose proof (db_rep_log_only db es (last_sequence db + 1) us (sync_file o) Hrep ltac:(lia) Hn ltac:(lia) Hbg (Status_not_ok _ Ef)) as Hlog.
      unfold RecordBackgroundError in Hlog. cbn in Hlog. rewrite Hbg in Hlog. cbn in Hlog. apply (db_rep_last _ _ _ _ Hlog); [cbn; lia|done]. }
    assert (exists c, (if sync then (sync_file o, negb (Status_ok (sync_file o))) else (kOk, false)) = (c, false) /\ c = kOk /\ (if sync then sync_file o else kOk) = kOk)
      as (c & -> & -> & Hc).
    { destruct sync; [|by eexists]. simpl in Esync. rewrite Esync. apply negb_false_iff, Status_ok_eq in Esync. by eexists. }
    rewrite Hc. change (Status_ok kOk) with true. cbv iota. pose proof Hrep as [_ _ _ _ (ev & ei & em & bs & -> & _ & _ & Hmem & _)].
    pose proof (seqs_below db _ Hrep) as Hlt. rewrite !Forall_app in Hlt. destruct Hlt as (_ & _ & Hlt).
    destruct (InsertInto_rep le junk uninit stack (last_sequence db + 1) us (mem_ db) em)
      as (m & E & _); [done|apply history_extend; [apply Hmem|done]|lia|lia|done|done|]. rewrite E. cbn [mbind option_bind].
    eexists. split; [done|]. cbn [last_sequence mem_ imm_ current bg_error_ log_ logfile_number_]. split_and!; [done|done|done|done|].
    apply db_rep_commit; try done.
    intros em' Hem' Hw' Hlt'. pose proof V_max_bound. destruct (db_usage db _ Hrep) as [_ Hu]. specialize (Hu em' Hem' ltac:(lia)). split; [|lia].
    destruct (InsertInto_rep le junk uninit stack (last_sequence db + 1) us (mem_ db) em')
      as (m' & E' & Hm'); [done|apply history_extend; [apply Hem'|done]|lia|lia|done|done|]. rewrite E in E'. by injection E' as <-.
  - rewrite Eadd. cbn [mbind option_bind]. eexists. split; [done|]. cbn [last_sequence mem_ imm_ current bg_error_ log_ logfile_number_].
    split_and!; [done|done|done|done|]. apply db_rep_last; [done|lia|]. rewrite acked_app. cbn. by rewrite Eadd, app_nil_r.
Qed.

(** ** Write, Put, Delete *)
Notation force_of w := (match w_batch w with None => true | Some _ => false end).

(** What the group [us ++ ...] of [n] writers gets: no room, room for a forced
    switch, or a commit. *)
Definition write_result (o : Outcome) (w : Writer) (us : list update) (c : Code) (n : nat) db (db' : DBImpl V) : Prop :=
  (c <> kOk /\ room_error (turns o) db c \/ c = kOk /\ w_batch w = None) /\ n = 1%nat /\
    last_sequence db' = last_sequence db /\ bg_from db (bg_error_ db') \/
  w_batch w <> None /\ c = commit_status o (w_sync w) /\ last_sequence db' = last_sequence db + zlen us /\
    last (log_ db') = Some (encode_batch (last_sequence db + 1) us, add_record o) /\
    bg_error_ db' = (if Status_ok (add_record o) && w_sync w then sync_file o else kOk).

Lemma Write_rep o w rest us uss db es :
  db_rep db es -> 3 <= room db -> wants w us -> Forall2 wants rest uss ->
  Forall fits_updates (us :: uss) -> 2 * zlen us + zlen (concat uss) < 2 ^ 31 ->
  last_sequence db + zlen us + zlen (concat uss) < 2 ^ 56 ->
  write_buffer_size + update_weight us + update_weight (concat uss) <= V_max ->
  match Write le junk uninit stack new_block write_buffer_size o w rest db with
  | None => MakeRoomForWrite le uninit new_block write_buffer_size (turns o) (force_of w) (negb (force_of w)) db = None
  | Some (c, n, db') => (1 <= n <= S (length rest))%nat /\ room db - 3 <= room db' /\
      (w_sync w = false -> Forall (fun w' => w_sync w' = false) (take (n - 1) rest)) /\
      write_result o w (us ++ concat (take (n - 1) uss)) c n db db' /\
      db_rep db' (if Status_ok c then es ++ versions (last_sequence db + 1) (us ++ concat (take (n - 1) uss)) else es)
  end.
Proof using Hnew Hwbs.
  intros Hrep Hr Hw Hrest Hfit Hn Hl Hwt. unfold Write. pose proof (cost_bounds (force_of w) db) as Hcb.
  pose proof (MakeRoomForWrite_rep (turns o) (force_of w) (negb (force_of w)) db es Hrep ltac:(lia)) as Hroom.
  destruct (MakeRoomForWrite _ _ _ _ _ _ _ _) as [[c db1]|] eqn:Emake; [|done]. cbn [mbind option_bind].
  apply MakeRoomForWrite_errors in Emake as [Hfrom Herr].
  destruct Hroom as (Hrep1 & Hlast & Hroom & Hok). unfold wants in Hw. destruct (w_batch w) as [b|] eqn:Eb.
  2:{ subst us. change (1 - 1)%nat with 0%nat. rewrite !take_0. cbn. rewrite app_nil_r. split_and!; [lia|lia|lia|done| |by destruct (Status_ok c)].
      left. split; [|done]. destruct (decide (c = kOk)); [by right|left]. destruct Herr; done. }
  destruct (Status_ok c) eqn:Ec.
  2:{ rewrite Ec. change (1 - 1)%nat with 0%nat. rewrite !take_0. split_and!; [lia|lia|lia|done| |done].
      apply Status_not_ok in Ec. left. split; [|done]. left. split; [done|]. destruct Herr; done. }
  apply Status_ok_eq in Ec. destruct Hw as [seq0 ->]. destruct (Hok Ec) as [Hbg Husage].
  destruct (BuildBatchGroup_spec seq0 us (w_sync w) rest uss Hrest Hn) as (seq & m & -> & Hm & Hsync).
  cbn [mbind option_bind].
  assert (concat uss = concat (take m uss) ++ concat (drop m uss)) as Esplit by (by rewrite <-concat_app, take_drop).
  rewrite Esplit, update_weight_app in Hwt. pose proof (update_weight_nonneg (concat (drop m uss))).
  assert (zlen (concat (take m uss)) <= zlen (concat uss)) as Hlen by (rewrite Esplit, length_app; lia).
  destruct (commit_rep o (w_sync w) seq (us ++ concat (take m uss)) db1 es Hrep1 Hbg Husage)
    as (db' & -> & Hlast' & Hcur & Hlog & Hbg' & Hrep').
  - unfold fits_updates. apply Forall_app. apply Forall_cons in Hfit as [Hus Huss]. split; [done|].
    apply Forall_concat. by apply Forall_take.
  - rewrite length_app. lia.
  - rewrite length_app. lia.
  - rewrite update_weight_app. lia.
  - cbn [mbind option_bind]. rewrite Hlast in *. replace (S m - 1)%nat with m by lia. rewrite Hcur.
    split_and!; [lia|lia|lia|done| |done]. right. rewrite Eb, Hlog, last_snoc. split_and!; done.
Qed.

(** ** Reads *)

(** A status (and value) that the lookup in the tables returned. *)
Definition get_status (u : list Z) (s : Z) (value : list Z) db (c : Code) (v : list Z) : Prop :=
  exists lk v', new_LookupKey le junk u s = Some lk /\ V_Get (current db) lk value = Some (c, v, v').
Lemma DBImpl_Get_rep snapshot u value db es :
  db_rep db es -> 0 < room db -> zlen u + 8 < 2 ^ 32 -> Forall is_byte u -> 0 <= default (last_sequence db) snapshot < 2 ^ 56 ->
  let s := default (last_sequence db) snapshot in
  exists c v db', DBImpl_Get le junk snapshot u value db = Some (c, v, db') /\
    db_rep db' es /\ last_sequence db' = last_sequence db /\ bg_error_ db' = bg_error_ db /\ room db - 1 <= room db' /\
    (c = kOk -> visible u s es = Some (Some v)) /\
    (c = kNotFound -> (visible u s es = None \/ visible u s es = Some None) /\ v = value) /\
    (c = kOk \/ c = kNotFound \/ get_status u s value db c v).
Proof.
  intros Hrep Hr Hu Hb Hs s. pose proof Hrep as [H1 H2 H3 H4 (ev & ei & em & bs & -> & Hv & Himm & Hmem & Hrest)].
  unfold DBImpl_Get. fold s. fold s in Hs.
  destruct (lk_parts le junk u s Hu Hs) as (lk & Elk & _). rewrite Elk. cbn [mbind option_bind].
  rewrite !visible_parts.
  rewrite (Memtable.Get_rep le junk (mem_ db) em u s lk value kOk Hmem Hu Hs Elk). cbn [mbind option_bind].
  set (r := match match visible u s em with Some r => Some r | None => visible u s ei end with Some r => Some r | None => visible u s ev end).
  assert (forall c0 v0, c0 = kOk /\ r = Some (Some v0) \/ c0 = kNotFound /\ v0 = value /\ r = Some None ->
    exists c v db', Some (c0, v0, db) = Some (c, v, db') /\
      db_rep db' (ev ++ ei ++ em) /\ last_sequence db' = last_sequence db /\ bg_error_ db' = bg_error_ db /\ room db - 1 <= room db' /\
      (c = kOk -> r = Some (Some v)) /\ (c = kNotFound -> (r = None \/ r = Some None) /\ v = value) /\
      (c = kOk \/ c = kNotFound \/ get_status u s value db c v)) as Hmemhit.
  { intros c0 v0 H0. eexists _, _, _. split; [done|]. destruct H0 as [[-> ->]|(-> & -> & ->)]; split_and!; (done || lia || auto). }
  assert (r = visible u s ev -> exists c v db',
    ('(s0, value0, v0) ← V_Get (current db) lk value; Some (s0, value0, set_current v0 db)) = Some (c, v, db') /\
    db_rep db' (ev ++ ei ++ em) /\ last_sequence db' = last_sequence db /\ bg_error_ db' = bg_error_ db /\ room db - 1 <= room db' /\
    (c = kOk -> r = Some (Some v)) /\ (c = kNotFound -> (r = None \/ r = Some None) /\ v = value) /\
    (c = kOk \/ c = kNotFound \/ get_status u s value db c v)) as Htables.
  { intros ->. destruct (V_Get_spec _ _ ev junk u s lk value Hv Hr Hu Hb Hs Elk) as (c & v' & vv & E & Hv' & Hr' & Hok & Hnf).
    rewrite E. cbn [mbind option_bind]. eexists _, _, _. split; [done|].
    split_and!; [|done|done|exact Hr'|done|done|right; right; by exists lk, vv].
    split; simpl; try done. exists ev, ei, em, bs. by split. }
  destruct (visible u s em) as [[v|]|].
  { apply Hmemhit. by left. }
  { apply Hmemhit. by right. }
  destruct (imm_ db) as [imm|].
  - rewrite (Memtable.Get_rep le junk imm ei u s lk value kOk Himm Hu Hs Elk). cbn [mbind option_bind].
    destruct (visible u s ei) as [[v'|]|].
    + apply Hmemhit. by left.
    + apply Hmemhit. by right.
    + by apply Htables.
  - subst ei. by apply Htables.
Qed.

(** ** One client: the queue holds a single writer *)
Notation alone u sync := {| w_batch := Some (encode_batch 0 [u]); w_sync := sync |}.

Lemma write_result_last o w us c n db db' :
  write_result o w us c n db db' -> last_sequence db <= last_sequence db' <= last_sequence db + zlen us.
Proof. intros [(_ & _ & -> & _)|(_ & _ & -> & _)]; lia. Qed.

Lemma single_write_rep o sync u db es :
  db_rep db es -> 3 <= room db -> fits_updates [u] -> last_sequence db + 1 < 2 ^ 56 ->
  write_buffer_size + update_weight [u] <= V_max -> gives_room (turns o) ->
  exists c db', Write le junk uninit stack new_block write_buffer_size o (alone u sync) [] db = Some (c, 1%nat, db') /\
    room db - 3 <= room db' /\ write_result o (alone u sync) [u] c 1 db db' /\
    db_rep db' (if Status_ok c then es ++ [(last_sequence db + 1, u)] else es).
Proof using Hnew Hwbs.
  intros Hrep Hr Hfit Hl Hw Hlive. pose proof (cost_bounds false db) as Hcb.
  destruct (MakeRoomForWrite_live (turns o) false true db es Hrep ltac:(lia) Hlive) as [r Hroom].
  pose proof (Write_rep o (alone u sync) [] [u] [] db es Hrep Hr) as HW.
  cbn [w_batch w_sync negb] in HW. rewrite Hroom in HW.
  assert (update_weight (concat []) = 0) as E0 by done.
  destruct (Write _ _ _ _ _ _ _ _ _ _) as [[[c n] db']|].
  - destruct HW as (Hn & Hr' & _ & Hres & Hrep'); [by eexists|done|by apply Forall_singleton|simpl; lia|simpl in *; lia|rewrite E0; lia|].
    assert (n = 1%nat) as -> by (simpl in Hn; lia). by exists c, db'.
  - discriminate HW; [by eexists|done|by apply Forall_singleton|simpl; lia|simpl in *; lia|rewrite E0; lia].
Qed.

Lemma DBImpl_Put_rep o sync k v db es :
  db_rep db es -> 3 <= room db -> fits_updates [UPut k v] -> last_sequence db + 1 < 2 ^ 56 ->
  write_buffer_size + update_weight [UPut k v] <= V_max -> gives_room (turns o) ->
  exists c db', DBImpl_Put le junk uninit stack new_block write_buffer_size o sync k v db = Some (c, db') /\
    room db - 3 <= room db' /\ write_result o (alone (UPut k v) sync) [UPut k v] c 1 db db' /\
    db_rep db' (if Status_ok c then es ++ [(last_sequence db + 1, UPut k v)] else es).
Proof using Hnew Hwbs.
  intros Hrep Hr Hf Hl Hw Hlive. unfold DBImpl_Put.
  rewrite encode_batch_0, Put_encode by (simpl; lia). cbn [mbind option_bind app].
  destruct (single_write_rep o sync (UPut k v) db es Hrep Hr Hf Hl Hw Hlive) as (c & db' & -> & H). by exists c, db'.
Qed.

Lemma DBImpl_Delete_rep o sync k db es :
  db_rep db es -> 3 <= room db -> fits_updates [UDelete k] -> last_sequence db + 1 < 2 ^ 56 ->
  write_buffer_size + update_weight [UDelete k] <= V_max -> gives_room (turns o) ->
  exists c db', DBImpl_Delete le junk uninit stack new_block write_buffer_size o sync k db = Some (c, db') /\
    room db - 3 <= room db' /\ write_result o (alone (UDelete k) sync) [UDelete k] c 1 db db' /\
    db_rep db' (if Status_ok c then es ++ [(last_sequence db + 1, UDelete k)] else es).
Proof using Hnew Hwbs.
  intros Hrep Hr Hf Hl Hw Hlive. unfold DBImpl_Delete.
  rewrite encode_batch_0, Delete_encode by (simpl; lia). cbn [mbind option_bind app].
  destruct (single_write_rep o sync (UDelete k) db es Hrep Hr Hf Hl Hw Hlive) as (c & db' & -> & H). by exists c, db'.
Qed.

(** Nothing fails: neither the files of the log nor the flushes. *)
Definition healthy (o : Outcome) : Prop :=
  Forall (fun t => new_file t = kOk) (turns o) /\ add_record o = kOk /\ sync_file o = kOk.

Lemma write_result_healthy o w us c n db db' :
  write_result o w us c n db db' -> healthy o -> (forall c, flush_status c -> c = kOk) -> bg_error_ db = kOk ->
  c = kOk /\ bg_error_ db' = kOk.
Proof.
  intros Hres (Hnew' & Hadd & Hsync) Hflush Hbg.
  assert (forall e, bg_from db e -> e = kOk) as Hfrom by (intros e [->|?]; auto).
  destruct Hres as [(Hc & _ & _ & He)|(_ & -> & _ & _ & ->)].
  - split; [|auto]. destruct Hc as [[Hne [?|Hex]]|[? _]]; [auto| |done].
    apply Exists_exists in Hex as (t & Ht & <-). rewrite Forall_forall in Hnew'. auto.
  - unfold commit_status. rewrite Hadd, Hsync. by destruct (_ && _).
Qed.

End proofs.

(** ** Recovery *)
Section recover_proofs.
Context (le : bool) (junk : nat -> Z) (uninit : option nat) (stack : nat -> nat).
Context (new_block : list (Z * Z) -> Z -> Z) (Hnew : fresh_blocks new_block) (write_buffer_size : Z) (paranoid_checks : bool).
Context {W : Type} `{!TableWriter le W} `{!TableSink le W}.
Implicit Types (mem : option (SkipList (list Z))) (em ew : list version) (w : W).

(** The memtable being filled is within its budget. *)
Definition opt_rep mem em : Prop :=
  match mem with None => em = [] | Some m => mem_rep le m em /\ mem_weight em <= write_buffer_size end.

Definition log_record (b : Z * list update) : Prop :=
  1 <= b.1 /\ zlen b.2 < 2 ^ 31 /\ b.1 + zlen b.2 <= 2 ^ 56 /\ Forall fits_version (versions b.1 b.2) /\
  Forall byte_version (versions b.1 b.2) /\ Z.max 0 write_buffer_size + update_weight b.2 <= W_max.

(** A status other than OK is the one of a table that could not be written. *)
Definition write_failed (c : Code) : Prop := exists w0 m0 w1, W_write w0 m0 = Some (c, w1).

(** A record of the log either goes into the memtable, or the table it should
    go to could not be written. *)
Lemma recover_record_rep seq us mem em w ew max_sequence :
  opt_rep mem em -> log_record (seq, us) -> W_rep w ew -> 0 < W_room w -> Forall byte_version em ->
  StronglySorted (fun a b => a.1 < b.1) (ew ++ em ++ versions seq us) ->
  exists c mem' w' max' wr, recover_record le junk uninit stack new_block write_buffer_size paranoid_checks
      (encode_batch seq us) mem w max_sequence = Some (c, mem', w', max', wr) /\
    max_sequence <= max' /\ (max_sequence < 2 ^ 56 -> max' < 2 ^ 56) /\ Forall (fun e => e.1 <= max') (versions seq us) /\ W_room w - 1 <= W_room w' /\
    (c = kOk -> exists em' ew', opt_rep mem' em' /\ Forall byte_version em' /\ W_rep w' ew' /\ ew' ++ em' = ew ++ em ++ versions seq us /\
       (wr = false -> em' = em ++ versions seq us)) /\
    (c <> kOk -> write_failed c).
Proof using Hnew.
  intros Hmem (Hseq & Hn & Hl & Hfit & Hbyte & Hw) Hv Hr Hb Hs. simpl in Hseq, Hn, Hl, Hfit, Hbyte, Hw. unfold recover_record.
  rewrite (proj2 (Z.ltb_ge _ 12)) by (unfold encode_batch; rewrite !length_app, !length_le_enc; lia).
  rewrite SetContents_encode. cbn [mbind option_bind].
  assert (exists m0, (match mem with None => new_MemTable uninit | Some m => Some m end) = Some m0 /\ mem_rep le m0 em /\ mem_weight em <= Z.max 0 write_buffer_size)
    as (m0 & -> & Hm0 & Hw0).
  { destruct mem as [m|]; [destruct Hmem; exists m; split_and!; done || lia|]. simpl in Hmem. subst em.
    destruct (new_MemTable_rep le uninit) as (m & E & Hm). exists m. split_and!; try done. unfold mem_weight. simpl. lia. }
  cbn [mbind option_bind]. pose proof Hs as Hs1. apply StronglySorted_app in Hs1 as (_ & _ & Hs1).
  destruct (InsertInto_rep le junk uninit stack seq us m0 em Hm0) as (m1 & -> & Hm1);
    [done|lia|done|done|done|].
  cbn [mbind option_bind]. change (MaybeIgnoreError paranoid_checks kOk) with kOk.
  change (negb (Status_ok kOk)) with false. cbv iota.
  rewrite Sequence_encode by (unfold fits_unsigned; simpl in *; lia). cbn [mbind option_bind].
  rewrite Count_encode by done. cbn [mbind option_bind].
  rewrite wrap_fits by (unfold fits_unsigned; simpl in *; lia).
  set (max1 := if _ <? _ then _ else _).
  assert (max_sequence <= max1 /\ (max_sequence < 2 ^ 56 -> max1 < 2 ^ 56) /\ seq + zlen us - 1 <= max1) as (Hm1a & Hm1c & Hm1b)
    by (subst max1; destruct (Z.ltb_spec max_sequence (seq + zlen us - 1)); lia).
  assert (Forall (fun e => e.1 <= max1) (versions seq us)) as Hmx.
  { eapply Forall_impl; [apply versions_range|]. simpl. intros. lia. }
  assert (mem_weight (em ++ versions seq us) <= W_max) as Hw1 by (rewrite mem_weight_app, mem_weight_versions; lia).
  assert (Forall byte_version (em ++ versions seq us)) as Hb1 by (by apply Forall_app).
  pose proof W_max_bound. destruct (usage_spec le new_block m1 _ Hnew Hm1) as (n & -> & Hu & _); [lia|]. cbn [mbind option_bind].
  destruct (Z.ltb_spec write_buffer_size n) as [Hbig|Hsmall].
  - destruct (W_write_spec w ew m1 _ Hv Hr Hm1 Hb1 Hw1 Hs) as (c & w' & E & Hv' & Hr'). rewrite E. cbn [mbind option_bind].
    eexists _, _, _, _, _. split; [done|]. split_and!; try done.
    + intros ->. exists [], (ew ++ em ++ versions seq us). by rewrite app_nil_r.
    + intros _. by eexists _, _, _.
  - eexists _, _, _, _, _. split; [done|]. split_and!; try done; [lia|]. intros _. exists (em ++ versions seq us), ew. split_and!; try done. split; [done|lia].
Qed.

Lemma RecoverLogFile_rep bs : forall mem em w ew max_sequence compacted,
  opt_rep mem em -> Forall log_record bs -> W_rep w ew -> zlen bs <= W_room w -> Forall byte_version em ->
  StronglySorted (fun a b => a.1 < b.1) (ew ++ em ++ log_versions bs) ->
  exists c mem' w' max' wr, RecoverLogFile_loop le junk uninit stack new_block write_buffer_size paranoid_checks
      ((fun b => encode_batch b.1 b.2) <$> bs) mem w max_sequence compacted = Some (c, mem', w', max', wr) /\
    W_room w - zlen bs <= W_room w' /\ (max_sequence < 2 ^ 56 -> max' < 2 ^ 56) /\
    (c = kOk -> exists em' ew', opt_rep mem' em' /\ Forall byte_version em' /\ W_rep w' ew' /\ ew' ++ em' = ew ++ em ++ log_versions bs /\
       max_sequence <= max' /\ Forall (fun e => e.1 <= max') (log_versions bs) /\ (wr = false -> compacted = false /\ em' = em ++ log_versions bs)) /\
    (c <> kOk -> write_failed c).
Proof using Hnew.
  induction bs as [|[seq us] bs IH]; intros mem em w ew max_sequence compacted Hmem Hlog Hv Hr Hb Hs.
  { eexists _, _, _, _, _. split; [done|]. split; [cbn; lia|]. split; [done|]. split; [|done]. intros _. exists em, ew. rewrite app_nil_r. by split_and!. }
  apply Forall_cons in Hlog as [Hrec Hlog]. cbn [fmap list_fmap RecoverLogFile_loop fst snd length] in *.
  change (log_versions ((seq, us) :: bs)) with (versions seq us ++ log_versions bs) in *.
  pose proof Hs as Hs'. rewrite !app_assoc in Hs'. apply StronglySorted_app in Hs' as (_ & Hs1 & Hs2). rewrite <-app_assoc in Hs1.
  destruct (recover_record_rep seq us mem em w ew max_sequence Hmem Hrec Hv ltac:(lia) Hb Hs1)
    as (c & mem1 & w1 & max1 & wr & -> & Hmax & Hm56 & Hall & Hr1 & Hok & Hbad).
  cbn [mbind option_bind]. destruct (Status_ok c) eqn:Ec; cbn [negb].
  2:{ eexists _, _, _, _, _. split; [done|]. split; [lia|]. split; [done|]. split; [by intros ->|done]. }
  apply Status_ok_eq in Ec as ->. destruct (Hok eq_refl) as (em1 & ew1 & Hm1 & Hb1 & Hv1 & Hent & Hkept).
  destruct (IH mem1 em1 w1 ew1 max1 (compacted || wr) Hm1 Hlog Hv1 ltac:(lia) Hb1) as (c & mem' & w' & max' & wr' & -> & Hr2 & Hm56' & Hc & Hbad').
  { rewrite app_assoc, Hent, <-!app_assoc. done. }
  eexists _, _, _, _, _. split; [done|]. split; [lia|]. split; [auto|]. split; [|done]. intros ->.
  destruct (Hc eq_refl) as (em' & ew' & H1 & H2 & H3 & H4 & H5 & H6 & H7). exists em', ew'. split_and!; try done; [|lia| |].
  - rewrite H4, app_assoc, Hent, <-!app_assoc. done.
  - apply Forall_app. split; [|done]. eapply Forall_impl; [exact Hall|]. simpl. intros. lia.
  - intros Hwr. destruct (H7 Hwr) as [[H8 H9]%orb_false_elim ->]. split; [done|]. by rewrite Hkept, <-app_assoc.
Qed.
End recover_proofs.

(** ** A version set that is the list of its versions

    The flush walks the memtable with an iterator, decodes the entries and
    orders them by sequence number. *)
Fixpoint mem_walk (fuel : nat) (table : SkipList (list Z)) (node : option nat) : list (list Z) :=
  match fuel, node with
  | S fuel, Some _ =>
    match iter_key table node, iter_Next table node with
    | Some k, Some node => k :: mem_walk fuel table node
    | _, _ => []
    end
  | _, _ => []
  end.

Definition decode_version (le : bool) (entry : list Z) : option version :=
  r ← GetVarint32Ptr entry 5;
  '(key_length, _, p) ← r;
  k ← rd_bytes p 0 key_length;
  r ← ParseInternalKey le k;
  pk ← r;
  v ← LengthPrefixed (drop (Z.to_nat key_length) p);
  Some (pk_sequence pk, if pk_type pk =? kTypeValue then UPut (pk_user_key pk) v else UDelete (pk_user_key pk)).

Definition seq_le (a b : version) : Prop := a.1 <= b.1.
#[export] Instance seq_le_dec a b : Decision (seq_le a b).
Proof. unfold seq_le; apply _. Defined.
#[export] Instance seq_le_total : Total seq_le.
Proof. intros a b. unfold seq_le. lia. Qed.
#[export] Instance seq_le_trans : Transitive seq_le.
Proof. intros a b c. unfold seq_le. lia. Qed.

Definition table_versions (le : bool) (table : SkipList (list Z)) : list version :=
  merge_sort seq_le (omap (decode_version le)
    (mem_walk (length (nodes table)) table (default None (iter_SeekToFirst table)))).

Lemma mem_walk_spec le table L fuel : forall i,
  inv valid_block (cmp_block le) [] table L -> (length L - i <= fuel)%nat ->
  mem_walk fuel table (L !! i) = drop i (elements [] table L).
Proof.
  induction fuel as [|fuel IH]; intros i Hinv Hf; cbn [mem_walk].
  - rewrite drop_ge; [done|]. unfold elements. rewrite length_fmap. lia.
  - destruct (L !! i) as [x|] eqn:Ei.
    + rewrite (iter_key_spec [] table L x Hinv) by (by eapply list_elem_of_lookup_2).
      rewrite (iter_Next_spec [] table L i x Hinv Ei). apply lookup_lt_Some in Ei as Hlt.
      rewrite IH by (done || lia). unfold elements. symmetry. apply drop_S.
      by rewrite list_lookup_fmap, Ei.
    + rewrite drop_ge; [done|]. unfold elements. rewrite length_fmap. by apply lookup_ge_None.
Qed.

Lemma decode_encode_version le e : fits_version e -> decode_version le (encode_version e) = Some e.
Proof.
  intros Hf. pose proof Hf as (Hs & Hk & Hv). unfold decode_version. rewrite encode_version_block. unfold block.
  destruct (varint_ptr5 (zlen (v_key e) + 8) (ikey (v_key e) (v_tag e) ++ EncodeVarint32 (zlen (v_value e)) ++ v_value e))
    as [n ->]; [lia|]. cbn [mbind option_bind].
  rewrite rd_bytes_0 by (rewrite length_ikey; lia). cbn [mbind option_bind].
  unfold v_tag. rewrite ParseInternalKey_ikey by (pose proof (v_type_range e); lia).
  pose proof (v_type_range e) as Ht. rewrite (proj2 (Z.leb_le _ _)) by (unfold kTypeValue; lia).
  cbn [mbind option_bind]. rewrite drop_app_length' by (rewrite length_ikey; lia).
  rewrite <-(app_nil_r (v_value e)) at 2. rewrite LengthPrefixed_spec by lia. cbn [mbind option_bind pk_sequence pk_type pk_user_key].
  destruct e as [seq [k v|k]]; done.
Qed.

Lemma table_versions_spec le table es : mem_rep le table es -> table_versions le table = es.
Proof.
  intros (Hfit & Hs & ks & (L & Hinv & <-) & HP). unfold table_versions.
  rewrite (SeekToFirst_spec [] table L Hinv).
  change (default None (Some (L !! 0%nat))) with (L !! 0%nat).
  rewrite (mem_walk_spec le table L) by (done || (rewrite (inv_size _ _ _ _ _ Hinv); lia)). rewrite drop_0.
  assert (omap (decode_version le) (elements [] table L) ≡ₚ es) as Hdec.
  { rewrite HP. clear -Hfit. induction Hfit as [|e es He _ IH]; [done|]. simpl.
    rewrite decode_encode_version by done. by constructor. }
  apply (StronglySorted_unique_strong seq_le).
  - intros a b Ha Hb Hab Hba. rewrite merge_sort_Permutation, Hdec in Ha.
    assert (a.1 = b.1) as E by (unfold seq_le in *; lia). clear -Hs Ha Hb E.
    apply list_elem_of_lookup in Ha as [i Hi], Hb as [j Hj].
    destruct (Nat.lt_total i j) as [Hij|[->|Hij]]; [exfalso|congruence|exfalso].
    + pose proof (StronglySorted_lookup _ _ _ _ _ _ Hs Hij Hi Hj). simpl in *. lia.
    + pose proof (StronglySorted_lookup _ _ _ _ _ _ Hs Hij Hj Hi). simpl in *. lia.
  - apply StronglySorted_merge_sort; apply _.
  - eapply StronglySorted_impl_in; [|exact Hs]. intros x y _ _. unfold seq_le. simpl. lia.
  - by rewrite merge_sort_Permutation.
Qed.

(** The versions, and the number of operations it is good for. *)
Definition list_Get (le : bool) (v : list version * Z) (lk : LookupKey) (value : list Z) : option (Code * list Z * (list version * Z)) :=
  r ← ParseInternalKey le (lk_internal_key lk);
  Some (match r with
        | Some pk =>
          match visible (pk_user_key pk) (pk_sequence pk) v.1 with
          | Some (Some x) => (kOk, x, v)
          | _ => (kNotFound, value, v)
          end
        | None => (kCorruption, value, v)
        end).

#[export] Instance list_versions (le : bool) : VersionSet le (list version * Z).
Proof.
  refine {| V_rep v _ es := v.1 = es; V_room v := v.2; V_max := 2 ^ 30; V_Get := list_Get le;
            V_flush v _ _ _ table := Some (kOk, (v.1 ++ table_versions le table, v.2 - 1));
            V_NewFileNumber v := (0, (v.1, v.2 - 1)); V_ReuseFileNumber _ v := v; V_PrevLogNumber _ := 0 |}.
  - lia.
  - done.
  - intros v log es junk u s lk value <- Hr Hu _ Hs Elk. unfold list_Get.
    destruct (lk_parts le junk u s Hu Hs) as (lk' & E & _ & Hik & _).
    rewrite Elk in E. injection E as <-. rewrite Hik, ParseInternalKey_ikey by (done || (unfold kValueTypeForSeek, kTypeValue; lia)).
    simpl. destruct (visible u s v.1) as [[x|]|]; eexists _, _, _; split_and!; auto; done || lia.
  - intros v log es table em seq collect <- Hr Hm _ _ _ _. eexists _, _. split; [done|]. simpl. by rewrite (table_versions_spec le table em).
  - intros v log es <- Hr. by split.
  - intros v log es <- Hr. by split.
Defined.

#[export] Instance list_writer (le : bool) : TableWriter le (list version * Z) :=
  fun w table => Some (kOk, (w.1 ++ table_versions le table, w.2 - 1)).
#[export] Instance list_sink (le : bool) : TableSink le (list version * Z).
Proof.
  refine {| W_rep w es := w.1 = es; W_room w := w.2; W_max := 2 ^ 31 - 1 |}.
  - lia.
  - intros w es table em <- Hr Hm _ _ _. eexists _, _. split; [done|]. simpl. by rewrite (table_versions_spec le table em).
Defined.

(** ** Properties *)

(** What can happen to a database: a group of writers is served, a reader looks
    a key up, or the background thread flushes the immutable memtable. *)
Inductive db_step (le : bool) (junk : nat -> Z) uninit stack new_block wbs {V} `{!VersionSet le V}
    : DBImpl V -> DBImpl V -> Prop :=
  | step_write o w rest us uss c n db db' :
      3 <= V_room (current db) -> wants w us -> Forall2 wants rest uss -> Forall fits_updates (us :: uss) ->
      2 * zlen us + zlen (concat uss) < 2 ^ 31 ->
      last_sequence db + zlen us + zlen (concat uss) < 2 ^ 56 ->
      wbs + update_weight us + update_weight (concat uss) <= V_max ->
      Write le junk uninit stack new_block wbs o w rest db = Some (c, n, db') ->
      db_step le junk uninit stack new_block wbs db db'
  | step_get snapshot u value c v db db' :
      0 < V_room (current db) -> zlen u + 8 < 2 ^ 32 -> Forall is_byte u -> 0 <= default (last_sequence db) snapshot < 2 ^ 56 ->
      DBImpl_Get le junk snapshot u value db = Some (c, v, db') ->
      db_step le junk uninit stack new_block wbs db db'
  | step_flush db db' :
      0 < V_room (current db) -> CompactMemTable le db = Some db' ->
      db_step le junk uninit stack new_block wbs db db'.

Section steps.
Context (le : bool) (junk : nat -> Z) (uninit : option nat) (stack : nat -> nat).
Context (new_block : list (Z * Z) -> Z -> Z) (Hnew : fresh_blocks new_block) (wbs : Z) (Hwbs : 4104 <= wbs).
Context {V : Type} `{!VersionSet le V}.
Implicit Types (db : DBImpl V).
Notation db_step := (db_step le junk uninit stack new_block wbs).

Lemma db_step_rep db db' es : db_step db db' -> db_rep le db es ->
  exists us, db_rep le db' (es ++ versions (last_sequence db + 1) us) /\ last_sequence db <= last_sequence db'.
Proof using Hnew Hwbs.
  intros [o w rest us uss c n db0 db1 Hr Hw Hrest Hfit Hn Hl Hwt E|snapshot u value c v db0 db1 Hr Hu Hb Hs E|db0 db1 Hr E] Hrep.
  - pose proof (Write_rep le junk uninit stack new_block Hnew wbs Hwbs o w rest us uss db0 es Hrep Hr Hw Hrest Hfit Hn Hl Hwt) as H.
    rewrite E in H. destruct H as (_ & _ & _ & Hres%write_result_last & Hrep').
    destruct (Status_ok c); [eexists|exists []; simpl; rewrite app_nil_r]; split; (done || lia).
  - destruct (DBImpl_Get_rep le junk snapshot u value db0 es Hrep Hr Hu Hb Hs) as (c' & v' & db2 & E' & Hrep' & Hlast & _).
    rewrite E in E'. injection E' as <- <- <-. exists []. simpl. rewrite app_nil_r. split; [done|lia].
  - exists []. simpl. rewrite app_nil_r. destruct (imm_ db0) as [imm|] eqn:Ei.
    + destruct (CompactMemTable_rep le db0 es Hrep Hr) as (db2 & E' & Hrep' & _ & Hlast & _); [by eexists|].
      rewrite E in E'. injection E' as <-. split; [done|lia].
    + unfold CompactMemTable in E. rewrite Ei in E. injection E as <-. split; [done|lia].
Qed.

Lemma db_steps_rep db db' es : rtc db_step db db' -> db_rep le db es ->
  exists es', db_rep le db' (es ++ es') /\ Forall (fun e => last_sequence db < e.1) es' /\
    last_sequence db <= last_sequence db'.
Proof using Hnew Hwbs.
  intros Hst. revert es. induction Hst as [db|db db1 db2 Hst _ IH]; intros es Hrep.
  - exists []. rewrite app_nil_r. split_and!; [done|done|lia].
  - destruct (db_step_rep db db1 es Hst Hrep) as (us & Hrep1 & Hl1).
    destruct (IH _ Hrep1) as (es' & Hrep2 & Hgt & Hl2).
    exists (versions (last_sequence db + 1) us ++ es'). rewrite app_assoc. split_and!; [done| |lia].
    apply Forall_app. split.
    + eapply Forall_impl; [apply versions_range|]. simpl. intros. lia.
    + eapply Forall_impl; [exact Hgt|]. simpl. intros. lia.
Qed.
End steps.

(** C3 (db_group_commit) Whatever the files do, a call of [Write] that gets
    three quiet turns returns, and serves a prefix of the queue, sync writers
    only if the first one is.  Either the status is OK, the record with the whole
    batches of that prefix, in queue order and under the next sequence numbers,
    is the last one added to the log, and exactly these versions are new; or the
    stored versions are as they were and the status is the error of the call that
    failed: the earlier background error, a flush, the creation of a log file,
    [AddRecord] or [Sync].  Switches to a new memtable and flushes on the way
    lose nothing. *)
Theorem db_group_commit le junk uninit stack new_block wbs {V} `{!VersionSet le V} o w rest us uss (db : DBImpl V) es :
  fresh_blocks new_block -> 4104 <= wbs -> db_rep le db es -> 3 <= V_room (current db) ->
  wants w us -> Forall2 wants rest uss -> Forall fits_updates (us :: uss) ->
  2 * zlen us + zlen (concat uss) < 2 ^ 31 ->
  last_sequence db + zlen us + zlen (concat uss) < 2 ^ 56 ->
  wbs + update_weight us + update_weight (concat uss) <= V_max -> gives_room (turns o) ->
  exists c n db', Write le junk uninit stack new_block wbs o w rest db = Some (c, n, db') /\
    (1 <= n <= S (length rest))%nat /\ V_room (current db) - 3 <= V_room (current db') /\
    (w_sync w = false -> Forall (fun w' => w_sync w' = false) (take (n - 1) rest)) /\
    write_result le o w (us ++ concat (take (n - 1) uss)) c n db db' /\
    db_rep le db' (if Status_ok c then es ++ versions (last_sequence db + 1) (us ++ concat (take (n - 1) uss)) else es).
Proof.
  intros Hnew Hwbs Hrep Hr Hw Hrest Hfit Hn Hl Hwt Hlive.
  pose proof (Write_rep le junk uninit stack new_block Hnew wbs Hwbs o w rest us uss db es Hrep Hr Hw Hrest Hfit Hn Hl Hwt) as H.
  destruct (MakeRoomForWrite_live le uninit new_block Hnew wbs Hwbs (turns o) (match w_batch w with None => true | Some _ => false end)
    (negb (match w_batch w with None => true | Some _ => false end)) db es Hrep) as [r Hroom];
    [pose proof (cost_bounds new_block wbs (match w_batch w with None => true | Some _ => false end) db); lia|done|].
  destruct (Write _ _ _ _ _ _ _ _ _ _) as [[[c n] db']|]; [by exists c, n, db'|]. by rewrite Hroom in H.
Qed.

Definition empty_db (table : SkipList (list Z)) : DBImpl (list version * Z) :=
  Build_DBImpl table None ([], 2 ^ 30) 0 kOk 0 [].

Lemma empty_db_rep le table : mem_rep le table [] -> db_rep le (empty_db table) [].
Proof.
  intros Hm. split; simpl; [lia|constructor|constructor|constructor|]. exists [], [], [], []. split_and!; done.
Qed.

Definition ok_outcome : Outcome :=
  let t := {| l0_files := 0; new_file := kOk; bg_flush := true |} in
  {| turns := [t; t; t]; add_record := kOk; sync_file := kOk |}.

(** A writer that wants its update synced, followed by one that does not. *)
Definition example_writer (sync : bool) (u : update) : Writer := {| w_batch := Some (encode_batch 0 [u]); w_sync := sync |}.

Lemma ok_outcome_room : gives_room (turns ok_outcome).
Proof. exists []. eexists _, _, _, []. by repeat split. Qed.

Lemma db_group_commit_witness :
  exists table c n db', new_MemTable None = Some table /\
    Write true (fun _ => 0) None id bump_heap 4104 ok_outcome (example_writer true (UPut [1] [2])) [example_writer false (UDelete [1])]
      (empty_db table) = Some (c, n, db') /\ c = kOk /\ n = 2%nat /\
    last (log_ db') = Some (encode_batch 1 [UPut [1] [2]; UDelete [1]], kOk) /\
    db_rep true db' [(1, UPut [1] [2]); (2, UDelete [1])].
Proof.
  destruct (new_MemTable_rep true None) as (table & E & Hm).
  destruct (db_group_commit true (fun _ => 0) None id bump_heap 4104 ok_outcome
      (example_writer true (UPut [1] [2])) [example_writer false (UDelete [1])] [UPut [1] [2]] [[UDelete [1]]] (empty_db table) [])
    as (c & n & db' & HW & _ & _ & _ & _ & Hrep); [apply bump_heap_fresh|lia|apply empty_db_rep, Hm|done|by eexists|by repeat econstructor|
      by repeat constructor|reflexivity|reflexivity|by vm_compute|apply ok_outcome_room|].
  exists table, c, n, db'. injection E as <-. vm_compute in HW. injection HW as <- <- <-.
  split_and!; [reflexivity..|exact Hrep].
Defined.

(** C4 (db_snapshot_isolation) A read at a snapshot taken now, done after any
    number of later commits, reads, memtable switches and flushes, returns and
    still sees exactly the versions stored now: a value only if it is the latest
    one at the snapshot, NotFound (and the caller's value untouched) only if
    there is none or it is deleted, and any other status only if the lookup in
    the tables returned it. *)
Theorem db_snapshot_isolation le junk uninit stack new_block wbs {V} `{!VersionSet le V} (db db' : DBImpl V) es u value :
  fresh_blocks new_block -> 4104 <= wbs -> db_rep le db es -> rtc (db_step le junk uninit stack new_block wbs) db db' ->
  0 < V_room (current db') -> zlen u + 8 < 2 ^ 32 -> Forall is_byte u ->
  exists c v db2, DBImpl_Get le junk (Some (last_sequence db)) u value db' = Some (c, v, db2) /\
    (c = kOk -> versions_map es !! u = Some v) /\ (c = kNotFound -> versions_map es !! u = None /\ v = value) /\
    (c = kOk \/ c = kNotFound \/ get_status le junk u (last_sequence db) value db' c v).
Proof.
  intros Hnew Hwbs Hrep Hst Hr Hu Hb. pose proof (rep_last _ _ _ Hrep) as Hlast.
  destruct (db_steps_rep le junk uninit stack new_block Hnew wbs Hwbs db db' es Hst Hrep) as (es' & Hrep' & Hgt & _).
  destruct (DBImpl_Get_rep le junk (Some (last_sequence db)) u value db' (es ++ es') Hrep' Hr Hu Hb Hlast)
    as (c & v & db2 & E & _ & _ & _ & _ & Hok & Hnf & Herr).
  exists c, v, db2. split; [exact E|]. simpl in Hok, Hnf, Herr.
  rewrite visible_later in Hok, Hnf by exact Hgt.
  rewrite (visible_map u (last_sequence db) es) by apply (rep_seqs _ _ _ Hrep). split_and!; [| |exact Herr].
  - intros Hc. by rewrite Hok.
  - intros Hc. by destruct (Hnf Hc) as [[-> | ->] ->].
Qed.

(** One step of each kind, from a database with one key: the key is overwritten,
    a switch of the memtable is forced, and the old memtable is flushed. *)
Lemma db_snapshot_isolation_witness :
  exists db db' v db2, rtc (db_step true (fun _ => 0) None id bump_heap 4104) db db' /\ mem_ db <> mem_ db' /\ (current db').1 <> [] /\
    DBImpl_Get true (fun _ => 0) (Some 1) [7] [] db' = Some (kOk, v, db2) /\ v = [1] /\
    versions_map [(1, UPut [7] [1])] !! [7] = Some v.
Proof.
  destruct (new_MemTable_rep true None) as (table & E & Hm).
  destruct (DBImpl_Put_rep true (fun _ => 0) None id bump_heap bump_heap_fresh 4104 ltac:(lia) ok_outcome true [7] [1] _ []
    (empty_db_rep true _ Hm)) as (c0 & db & Eput & _ & _ & Hrep);
    [done|by apply (bool_decide_unpack _)|simpl; lia|by vm_compute|apply ok_outcome_room|].
  injection E as <-. vm_compute in Eput. injection Eput as <- <-. cbn [Status_ok bool_decide decide_rel] in Hrep.
  match type of Hrep with db_rep _ ?db ?es =>
  assert (exists db1, db_step true (fun _ => 0) None id bump_heap 4104 db db1 /\
    Write true (fun _ => 0) None id bump_heap 4104 ok_outcome (example_writer true (UPut [7] [2])) [] db = Some (kOk, 1%nat, db1))
    as (db1 & S1 & E1) end.
  { eexists. split; [|vm_compute; reflexivity].
    eapply (step_write _ _ _ _ _ _ ok_outcome (example_writer true (UPut [7] [2])) [] [UPut [7] [2]] []);
      [done|by eexists|by constructor|by repeat constructor|reflexivity|reflexivity|by vm_compute|vm_compute; reflexivity]. }
  vm_compute in E1. injection E1 as <-.
  match type of S1 with db_step _ _ _ _ _ _ ?db ?db1 =>
  assert (exists db2, db_step true (fun _ => 0) None id bump_heap 4104 db1 db2 /\
    Write true (fun _ => 0) None id bump_heap 4104 ok_outcome {| w_batch := None; w_sync := false |} [] db1 = Some (kOk, 1%nat, db2))
    as (db2 & S2 & E2) end.
  { eexists. split; [|vm_compute; reflexivity].
    eapply (step_write _ _ _ _ _ _ ok_outcome {| w_batch := None; w_sync := false |} [] [] []);
      [done|done|by constructor|by repeat constructor|reflexivity|reflexivity|by vm_compute|vm_compute; reflexivity]. }
  vm_compute in E2. injection E2 as <-.
  match type of S2 with db_step _ _ _ _ _ _ ?db1 ?db2 =>
  assert (exists db3, db_step true (fun _ => 0) None id bump_heap 4104 db2 db3 /\ CompactMemTable true db2 = Some db3)
    as (db3 & S3 & E3) end.
  { eexists. split; [apply step_flush; [done|vm_compute; reflexivity]|vm_compute; reflexivity]. }
  vm_compute in E3. injection E3 as <-.
  match type of S3 with db_step _ _ _ _ _ _ _ ?db3 => match type of Hrep with db_rep _ ?db ?es =>
  destruct (db_snapshot_isolation true (fun _ => 0) None id bump_heap 4104 db db3 es [7] [] bump_heap_fresh ltac:(lia) Hrep)
    as (c & v & db4 & H1 & H2 & _); [eapply rtc_l; [exact S1|]; eapply rtc_l; [exact S2|]; by eapply rtc_once|done|done|by repeat constructor|];
  exists db, db3 end end.
  vm_compute in H1. injection H1 as <- <- <-. eexists _, _. split; [eapply rtc_l; [exact S1|]; eapply rtc_l; [exact S2|]; by eapply rtc_once|].
  split; [done|]. split; [done|]. split; [vm_compute; reflexivity|]. split; [reflexivity|]. by apply H2.
Defined.

Lemma log_records_ok le wbs {W} `{!TableWriter le W} `{!TableSink le W} bs :
  Forall (fun b : Z * list update => 1 <= b.1 /\ zlen b.2 < 2 ^ 31 /\ b.1 + zlen b.2 <= 2 ^ 56) bs ->
  Forall fits_version (log_versions bs) -> Forall byte_version (log_versions bs) ->
  Z.max 0 wbs + mem_weight (log_versions bs) <= W_max -> Forall (log_record le wbs) bs.
Proof.
  unfold log_versions. induction bs as [|[seq us] bs IH]; intros Hbs Hfit Hb Hw; [done|].
  apply Forall_cons in Hbs as [(H1 & H2 & H3) Hbs]. cbn [fmap list_fmap concat fst snd] in Hfit, Hb, Hw. apply Forall_app in Hfit as [Hf1 Hf2], Hb as [Hb1 Hb2].
  rewrite mem_weight_app, mem_weight_versions in Hw. pose proof (update_weight_nonneg us).
  pose proof (entry_bytes_nonneg (concat ((fun b => versions b.1 b.2) <$> bs))).
  constructor; [|apply IH; try done; lia]. unfold mem_weight in *. split_and!; try done. simpl. lia.
Qed.
