(* ===== verification/Engine.v ===== *)
(** The DBImpl model discharges the contract of leveldb::DB, and the service
    theorem holds on top of it: KVServer over LdbStore over DBImpl over
    WriteBatch, MemTable and SkipList.

    The environment of the engine is a stream of outcomes, one per write.
    Opening a database directory is an argument. *)
From S2P Require Import Prelude Coding Dbformat LdbBase WriteBatch Skiplist Memtable Arena DbImpl.
From S2P Require Import KvServer.

Record engine (V : Type) := { e_db : DBImpl V; e_env : nat -> Outcome }.
Arguments Build_engine {V} _ _.
Arguments e_db {V} _.
Arguments e_env {V} _.

Section engine.
Context (le : bool) (junk : nat -> Z) (uninit : option nat) (stack : nat -> nat) (new_block : list (Z * Z) -> Z -> Z) (wbs limit : Z).
Context {V : Type} `{!VersionSet le V}.
Context (open_dir : bool -> list Z -> Code * option (engine V)).

Definition later (e : engine V) (db : DBImpl V) : engine V :=
  Build_engine db (fun i => e_env e (S i)).

Definition engine_Put (sync : bool) (k v : list Z) (e : engine V) : option (Code * engine V) :=
  '(c, db) ← DBImpl_Put le junk uninit stack new_block wbs (e_env e 0%nat) sync k v (e_db e);
  Some (c, later e db).
Definition engine_Delete (sync : bool) (k : list Z) (e : engine V) : option (Code * engine V) :=
  '(c, db) ← DBImpl_Delete le junk uninit stack new_block wbs (e_env e 0%nat) sync k (e_db e);
  Some (c, later e db).
Definition engine_Get (k old : list Z) (e : engine V) : option (Code * list Z * engine V) :=
  '(c, v, db) ← DBImpl_Get le junk None k old (e_db e);
  Some (c, v, Build_engine db (e_env e)).

(** The writers eventually get room, and there are numbers left. *)
Definition engine_holds (e : engine V) (n : nat) (m : gmap (list Z) (list Z)) : Prop :=
  exists es, db_rep le (e_db e) es /\ m = versions_map es /\
    last_sequence (e_db e) + Z.of_nat n < 2 ^ 56 /\ 3 * Z.of_nat n <= V_room (le := le) (current (e_db e)) /\
    forall i, gives_room (turns (e_env e i)).

Lemma engine_write_holds e n m u w c db es :
  db_rep le (e_db e) es -> last_sequence (e_db e) + Z.of_nat (S n) < 2 ^ 56 -> 3 * Z.of_nat (S n) <= V_room (le := le) (current (e_db e)) ->
  (forall i, gives_room (turns (e_env e i))) -> m = versions_map es ->
  V_room (le := le) (current (e_db e)) - 3 <= V_room (le := le) (current db) -> write_result le (e_env e 0%nat) w [u] c 1 (e_db e) db ->
  db_rep le db (if Status_ok c then es ++ [(last_sequence (e_db e) + 1, u)] else es) ->
  exists m', engine_holds (later e db) n m' /\
    (m' = apply_version m (last_sequence (e_db e) + 1, u) \/ c <> kOk /\ m' = m).
Proof.
  intros Hrep Hn Hr Henv -> Hr' Hl%write_result_last Hrep'. eexists. split.
  - eexists. split; [exact Hrep'|]. split; [done|]. cbn [length] in Hl. split; [simpl; lia|]. split; [simpl; lia|]. intros i. apply Henv.
  - destruct (Status_ok c) eqn:Ec; [left; by rewrite versions_map_app|right]. split; [by apply Status_not_ok|done].
Qed.

(** Nothing fails: the log files, the flushes and the lookups in the tables. *)
Definition healthy_engine (e : engine V) : Prop := bg_error_ (e_db e) = kOk /\ forall i, healthy (e_env e i).
Definition healthy_tables : Prop :=
  (forall c, flush_status le (V := V) c -> c = kOk) /\
  forall v log es u s lk value c v' w, V_rep (le := le) v log es -> zlen u + 8 < 2 ^ 32 -> 0 <= s < 2 ^ 56 ->
    new_LookupKey le junk u s = Some lk -> V_Get v lk value = Some (c, v', w) -> c = kOk \/ c = kNotFound.

(** What DB::Open documents: a database and OK, or none and an error. *)
Definition open_contract : Prop :=
  forall create name, match open_dir create name with
  | (kOk, Some e) => exists m, engine_holds e 0 m
  | (kOk, None) => False
  | (_, None) => True
  | (_, Some _) => False end.

(** Keys and values up to [limit] octets fit into a memtable beside what
    [write_buffer_size] allows. *)
Record engine_params : Prop := {
  ep_heap : fresh_blocks new_block;
  ep_buffer : 4104 <= wbs;
  ep_limit : 0 <= limit /\ wbs + 2 * limit + 34 <= V_max (le := le) (V := V);
  ep_open : open_contract;
}.
Context (params : engine_params).

Lemma update_weight_fits u : zlen (v_key (0, u)) <= limit -> zlen (v_value (0, u)) <= limit -> wbs + update_weight [u] <= V_max (le := le) (V := V).
Proof using params.
  intros Hk Hv. destruct params as [_ Hbuf [H0 Hl] _]. unfold update_weight, mem_weight, entry_bytes. cbn [versions foldr length].
  assert (zlen (encode_version (0, u)) <= 2 * limit + 18); [|lia]. unfold encode_version. rewrite !length_app, length_ikey.
  pose proof (V_max_bound (le := le) (V := V)). unfold fits_unsigned in *.
  destruct (length_EncodeVarint32 (zlen (v_key (0, u)) + 8)) as [? _]; [split; [lia|]; simpl; lia|].
  destruct (length_EncodeVarint32 (zlen (v_value (0, u)))) as [? _]; [split; [lia|]; simpl; lia|]. lia.
Qed.

Lemma fits_one u : fits_slice limit (v_key (0, u)) -> fits_slice limit (v_value (0, u)) -> fits_updates [u].
Proof using params.
  intros [Hk Hkl] [Hv Hvl]. destruct params as [_ Hb [H0 Hl] _]. pose proof (V_max_bound (le := le) (V := V)).
  apply Forall_singleton. split_and!; [lia|lia|by split].
Qed.

Definition engine_LevelDB : LevelDB (engine V).
Proof using params le junk uninit stack new_block wbs limit V VersionSet0 open_dir.
  refine {| DB_Open := open_dir; DB_Put := engine_Put; DB_Delete := engine_Delete;
            DB_Get := engine_Get; DB_limit := limit; DB_holds := engine_holds |}.
  - intros e n m (es & H1 & H2 & H3 & H4 & H5). exists es. split_and!; [done|done|lia|lia|done].
  - apply params.
  - intros sync k v e n m (es & Hrep & Hm & Hn & Hr & Henv) Hk Hv.
    destruct (DBImpl_Put_rep le junk uninit stack new_block (ep_heap params) wbs (ep_buffer params) (e_env e 0%nat) sync k v (e_db e) es Hrep)
      as (c & db & E & Hr' & Hl & Hrep'); [lia|by apply (fits_one (UPut k v))|lia|apply update_weight_fits; [apply Hk|apply Hv]|done|].
    destruct (engine_write_holds e n m (UPut k v) _ c db es Hrep Hn Hr Henv Hm Hr' Hl Hrep') as (m' & Hh & Hm').
    exists c, (later e db), m'. unfold engine_Put. rewrite E. done.
  - intros sync k e n m (es & Hrep & Hm & Hn & Hr & Henv) Hk.
    assert (fits_slice limit []) as H0 by (split; [done|apply params]).
    destruct (DBImpl_Delete_rep le junk uninit stack new_block (ep_heap params) wbs (ep_buffer params) (e_env e 0%nat) sync k (e_db e) es Hrep)
      as (c & db & E & Hr' & Hl & Hrep'); [lia|by apply (fits_one (UDelete k))|lia|apply update_weight_fits; [apply Hk|apply H0]|done|].
    destruct (engine_write_holds e n m (UDelete k) _ c db es Hrep Hn Hr Henv Hm Hr' Hl Hrep') as (m' & Hh & Hm').
    exists c, (later e db), m'. unfold engine_Delete. rewrite E. done.
  - intros k old e n m (es & Hrep & -> & Hn & Hr & Henv) [Hkb Hkl]. pose proof (V_max_bound (le := le) (V := V)).
    destruct (DBImpl_Get_rep le junk None k old (e_db e) es Hrep)
      as (c & v & db & E & Hrep' & El & _ & Hr' & Hok & Hnf & _); [lia|destruct params as [_ ? [? ?] _]; lia|done|apply (rep_last _ _ _ Hrep)|]. simpl in Hok, Hnf.
    exists c, v, (Build_engine db (e_env e)). unfold engine_Get. rewrite E. split; [done|]. split.
    + exists es. cbn. split_and!; [done|done|lia|lia|done].
    + rewrite (visible_map k (last_sequence (e_db e)) es) by apply (rep_seqs _ _ _ Hrep).
      split; intros Hc; [by rewrite Hok|by destruct (Hnf Hc) as [[-> | ->] ->]].
Defined.

(** A healthy engine answers every call with OK, or a Get with NotFound. *)
Lemma healthy_call sync r e n m a e' : engine_holds e (S n) m -> healthy_engine e -> healthy_tables -> well_formed limit r ->
  @db_call _ engine_LevelDB sync r e = Some (a, e') -> answer_ok r a /\ healthy_engine e'.
Proof using params.
  intros (es & Hrep & Hm & Hn & Hr & Henv) [Hbg Hh] [Hflush Hget] Hwf. pose proof (V_max_bound (le := le) (V := V)) as HVmax.
  pose proof params as [Hnew Hbuf [H0 Hl] _].
  assert (forall c db' w u, write_result le (e_env e 0%nat) w [u] c 1 (e_db e) db' -> c = kOk /\ healthy_engine (later e db')) as Hwrite.
  { intros c db' w u Hres. destruct (write_result_healthy le _ _ _ _ _ _ _ Hres (Hh 0%nat) Hflush Hbg) as [-> Hbg']. split; [done|].
    split; [done|]. intros i. apply Hh. }
  destruct r as [key value|[block|] old|[block|]]; cbn [db_call].
  - destruct Hwf as [(k & -> & Hk) (v & -> & Hv)]. cbn [mbind option_bind DB_Put engine_LevelDB]. unfold engine_Put.
    destruct (DBImpl_Put_rep le junk uninit stack new_block Hnew wbs Hbuf (e_env e 0%nat) sync k v (e_db e) es Hrep)
      as (c & db & -> & _ & Hres & _); [lia|by apply (fits_one (UPut k v))|lia|apply update_weight_fits; [apply Hk|apply Hv]|done|].
    cbn [mbind option_bind]. intros [= <- <-]. destruct (Hwrite _ _ _ _ Hres) as [-> ?]. split; [by left|done].
  - destruct Hwf as [|(k & -> & Hkb & Hkl)]; [done|]. cbn [mbind option_bind DB_Get engine_LevelDB]. unfold engine_Get.
    pose proof Hrep as [Hlast _ _ _ (ev & ei & em & bs & _ & Hv & _)].
    destruct (DBImpl_Get_rep le junk None k old (e_db e) es Hrep) as (c & v & db & -> & _ & _ & Hbg' & _ & _ & _ & Hst); [lia|lia|done|done|].
    cbn [mbind option_bind]. intros [= <- <-]. split; [|split; [cbn; by rewrite Hbg'|done]].
    destruct Hst as [?|[?|(lk & w & Elk & E)]]; [by left|by right|]. cbn in Elk. eapply Hget; [exact Hv| |exact Hlast|exact Elk|exact E]. lia.
  - intros [= <- <-]. by split.
  - destruct Hwf as [|(k & -> & Hk)]; [done|]. assert (fits_slice limit []) as Hnil by (split; [done|apply H0]).
    cbn [mbind option_bind DB_Delete engine_LevelDB]. unfold engine_Delete.
    destruct (DBImpl_Delete_rep le junk uninit stack new_block Hnew wbs Hbuf (e_env e 0%nat) sync k (e_db e) es Hrep)
      as (c & db & -> & _ & Hres & _); [lia|by apply (fits_one (UDelete k))|lia|apply update_weight_fits; [apply Hk|apply Hnil]|done|].
    cbn [mbind option_bind]. intros [= <- <-]. destruct (Hwrite _ _ _ _ Hres) as [-> ?]. split; [by left|done].
  - intros [= <- <-]. by split.
Qed.

Lemma healthy_run sync rs : forall sv e m answers e', opened sync sv e -> engine_holds e (length rs) m -> healthy_engine e -> healthy_tables ->
  Forall (well_formed limit) rs -> @db_run _ engine_LevelDB sync rs e = Some (answers, e') -> Forall2 answer_ok rs answers.
Proof using params.
  induction rs as [|r rs IH]; intros sv e m answers e' Ho He Hh Ht Hwf; cbn [db_run]; [by intros [= <- <-]|].
  apply Forall_cons in Hwf as [Hr Hrs].
  destruct (@serve_refines _ engine_LevelDB sync r sv e (length rs) m Ho He Hr) as (a & rep & sv1 & e1 & m1 & _ & E & Ho1 & He1 & _).
  rewrite E. cbn [mbind option_bind]. destruct (healthy_call sync r e (length rs) m a e1 He Hh Ht Hr E) as [Ha Hh1].
  destruct (db_run sync rs e1) as [[answers' e2]|] eqn:E1; [|done]. cbn [mbind option_bind]. intros [= <- <-].
  constructor; [done|]. eapply (IH sv1 e1 m1 answers' e2); done.
Qed.
End engine.

(** ** Properties *)

(** C1 (kv_server_on_leveldb) A KVServer whose LdbStore is backed by the
    DBImpl model serves every well-formed session, as long as each write gets
    three quiet turns and there are numbers left for the session: every octet of
    the batches, memtable entries and lookup keys on the way is written and read
    inside its buffer.  The calls reach the engine one by one, each reply is the
    engine's answer, and answers and replies are those of the map that the stored
    versions stand for, which in the end is the map of the stored versions again.
    If moreover no file operation, flush or table lookup fails, the replies are
    exactly those of the executable map [map_serve_all]. *)
Theorem kv_server_on_leveldb le junk uninit stack new_block wbs limit {V} `{!VersionSet le V} open_dir
    (params : engine_params le new_block wbs limit open_dir) rs (e : engine V) es :
  let DB := engine_LevelDB le junk uninit stack new_block wbs limit open_dir params in
  db_rep le (e_db e) es -> (forall i, gives_room (turns (e_env e i))) ->
  last_sequence (e_db e) + zlen rs < 2 ^ 56 -> 3 * zlen rs <= V_room (le := le) (current (e_db e)) -> Forall (well_formed limit) rs ->
  exists answers reps sv' e' es',
    @serve_all _ (@LdbStore_KVStore _ DB) rs
      (Build_KVServer (Some (Build_LdbStore true true (Some e))) false) = Some (reps, sv') /\
    @db_run _ DB true rs e = Some (answers, e') /\ opened true sv' e' /\ db_rep le (e_db e') es' /\
    map_run (versions_map es) rs answers reps (versions_map es') /\
    (healthy_engine e -> healthy_tables le junk (V := V) -> map_serve_all rs (versions_map es) = (reps, versions_map es')).
Proof.
  intros DB Hrep Henv Hn Hr Hwf. set (sv := Build_KVServer (Some (Build_LdbStore true true (Some e))) false).
  assert (opened true sv e) as Ho by (by eexists).
  assert (engine_holds le e (length rs) (versions_map es)) as He by (by exists es).
  destruct (@serve_all_refines _ DB true rs sv e (versions_map es) Ho He Hwf) as (answers & reps & sv' & e' & m' & E & Er & Ho' & (es' & Hrep' & -> & _) & Hrun).
  exists answers, reps, sv', e', es'. split_and!; [done..|]. intros Hh Ht. eapply map_run_ok; [exact Hrun|].
  exact (healthy_run le junk uninit stack new_block wbs limit open_dir params true rs sv e _ answers e' Ho He Hh Ht Hwf Er).
Qed.

Definition no_open {V} (create : bool) (name : list Z) : Code * option (engine V) := (kIOError, None).

Lemma example_params : engine_params (V := list version * Z) true bump_heap 4104 1000 no_open.
Proof. split; [apply bump_heap_fresh|done|by vm_compute|done]. Qed.

Lemma list_tables_healthy le junk : healthy_tables le junk (V := list version * Z).
Proof.
  split; [intros c (v & seq & log & collect & table & v' & [= <- _]); done|].
  intros v log es u s lk value c v' w _ Hu Hs Elk. cbn. unfold list_Get.
  destruct (lk_parts le junk u s Hu Hs) as (lk' & E & _ & Hik & _). rewrite Elk in E. injection E as <-.
  rewrite Hik, ParseInternalKey_ikey by (done || (unfold kValueTypeForSeek, kTypeValue; lia)). cbn.
  destruct (visible u s v.1) as [[x|]|]; intros [= <- _ _]; auto.
Qed.

Lemma kv_server_on_leveldb_witness :
  exists table answers reps sv' e', new_MemTable None = Some table /\
    @serve_all _ (@LdbStore_KVStore _ (engine_LevelDB true (fun _ => 0) None id bump_heap 4104 1000 no_open example_params)) example_session
      (Build_KVServer (Some (Build_LdbStore true true
        (Some (Build_engine (empty_db table) (fun _ => ok_outcome))))) false) = Some (reps, sv') /\
    opened true sv' e' /\ reps = [(true, []); (true, [118]); (false, [5]); (true, []); (true, [])] /\
    exists es', map_run ∅ example_session answers reps (versions_map es').
Proof.
  destruct (new_MemTable_rep true None) as (table & E & Hm).
  destruct (kv_server_on_leveldb true (fun _ => 0) None id bump_heap 4104 1000 no_open example_params
    example_session (Build_engine (empty_db table) (fun _ => ok_outcome)) [] (empty_db_rep true table Hm))
    as (answers & reps & sv' & e' & es' & H1 & _ & H2 & _ & H3 & H4).
  - intros i. apply ok_outcome_room.
  - reflexivity.
  - by vm_compute.
  - by prove_well_formed.
  - exists table, answers, reps, sv', e'. split; [exact E|]. split; [exact H1|]. split; [exact H2|]. split; [|exists es'; exact H3].
    assert (map_serve_all example_session (versions_map []) = (reps, versions_map es')) as H5.
    { apply H4; [|apply list_tables_healthy]. split; [done|]. intros i. split; [by repeat constructor|done]. }
    apply (f_equal fst) in H5. cbn [fst] in H5. rewrite <-H5. reflexivity.
Defined.
