(* ===== verification/LogFormat.v ===== *)
(** The write-ahead log of LevelDB: [db/log_format.h], [db/log_writer.cc] and
    [db/log_reader.cc].

    A log file is a sequence of blocks of 32768 octets; a record is cut into
    fragments that do not cross blocks, each with a checksum, a length and a
    type.  The files are the classes [WritableFile] and [SequentialFile] of
    [LdbBase].  An [assert] that fails is
    [None], like an access outside of a buffer. *)
From S2P Require Import Prelude LdbBase Coding Crc32c.

Definition kZeroType : Z := 0.
Definition kFullType : Z := 1.
Definition kFirstType : Z := 2.
Definition kMiddleType : Z := 3.
Definition kLastType : Z := 4.
Definition kMaxRecordType : Z := kLastType.
Definition kBlockSize : Z := 32768.
Definition kHeaderSize : Z := 4 + 2 + 1.

(** The extra results of [ReadPhysicalRecord]. *)
Definition kEof : Z := kMaxRecordType + 1.
Definition kBadRecord : Z := kMaxRecordType + 2.

Section log.
Context (le : bool).
(** [ptr s] is the address at which the string [s] lies. *)
Context (ptr : list Z -> Z).

Definition assert (b : bool) : option () := if b then Some () else None.

(** ** Writer *)
Section writer.
Context {F : Type} `{!WritableFile F}.

Record Writer := { dest_ : F; block_offset_ : Z; type_crc_ : list Z }.

Definition InitTypeCrc : option (list Z) :=
  mapM (fun i => Value le (ptr [i]) [i]) [0; 1; 2; 3; 4].

Definition new_Writer (dest : F) : option Writer :=
  t ← InitTypeCrc; Some (Build_Writer dest 0 t).
Definition new_Writer_at (dest : F) (dest_length : Z) : option Writer :=
  t ← InitTypeCrc; Some (Build_Writer dest (dest_length mod kBlockSize) t).

Definition EmitPhysicalRecord (w : Writer) (t : Z) (data : list Z) : option (Code * Writer) :=
  let n := zlen data in
  assert (n <=? 0xffff);;
  assert (block_offset_ w + kHeaderSize + n <=? kBlockSize);;
  c ← rd (type_crc_ w) t;
  crc ← Extend le (ptr data) c data;
  let crc := Mask crc in
  let buf := EncodeFixed32 le crc ++
             [wrap 8 (Z.land n 255); wrap 8 (Z.shiftr n 8); wrap 8 t] in
  let '(s, dest) := Append buf (dest_ w) in
  let '(s, dest) :=
    if Status_ok s then
      let '(s, dest) := Append data dest in
      if Status_ok s then Flush dest else (s, dest)
    else (s, dest) in
  Some (s, Build_Writer dest (block_offset_ w + kHeaderSize + n) (type_crc_ w)).

(** The [do] loop of [AddRecord]. *)
Fixpoint AddRecord_loop (fuel : nat) (w : Writer) (data : list Z) (begin : bool)
    : option (Code * Writer) :=
  match fuel with
  | O => None
  | S fuel =>
    let leftover := kBlockSize - block_offset_ w in
    assert (0 <=? leftover);;
    let w :=
      if leftover <? kHeaderSize then
        let dest := if 0 <? leftover then (Append (replicate (Z.to_nat leftover) 0) (dest_ w)).2
                    else dest_ w in
        Build_Writer dest 0 (type_crc_ w)
      else w in
    assert (0 <=? kBlockSize - block_offset_ w - kHeaderSize);;
    let avail := kBlockSize - block_offset_ w - kHeaderSize in
    let left := zlen data in
    let fragment_length := if left <? avail then left else avail in
    let end_ := left =? fragment_length in
    let type := if begin && end_ then kFullType else if begin then kFirstType
                else if end_ then kLastType else kMiddleType in
    '(s, w) ← EmitPhysicalRecord w type (take (Z.to_nat fragment_length) data);
    let data := drop (Z.to_nat fragment_length) data in
    if Status_ok s && (0 <? zlen data) then AddRecord_loop fuel w data false
    else Some (s, w)
  end.

Definition AddRecord (w : Writer) (slice : list Z) : option (Code * Writer) :=
  AddRecord_loop (length slice + 2) w slice true.
End writer.

(** ** Reader

    [reports] is the list of calls of [reporter_->Corruption], [None] when
    there is no reporter. *)
Section reader.
Context {F : Type} `{!SequentialFile F}.

Record Reader := {
  file_ : F;
  reports : option (list (Z * Code));
  checksum_ : bool;
  buffer_ : list Z;
  eof_ : bool;
  last_record_offset_ : Z;
  end_of_buffer_offset_ : Z;
  initial_offset_ : Z;
  resyncing_ : bool;
}.
Implicit Types (r : Reader).

Definition new_Reader (file : F) (reporter checksum : bool) (initial_offset : Z) : Reader :=
  Build_Reader file (if reporter then Some [] else None) checksum [] false 0 0
    initial_offset (0 <? initial_offset).

Definition set_buffer (b : list Z) r : Reader :=
  Build_Reader (file_ r) (reports r) (checksum_ r) b (eof_ r) (last_record_offset_ r)
    (end_of_buffer_offset_ r) (initial_offset_ r) (resyncing_ r).
Definition set_eof r : Reader :=
  Build_Reader (file_ r) (reports r) (checksum_ r) (buffer_ r) true (last_record_offset_ r)
    (end_of_buffer_offset_ r) (initial_offset_ r) (resyncing_ r).
Definition set_resyncing (b : bool) r : Reader :=
  Build_Reader (file_ r) (reports r) (checksum_ r) (buffer_ r) (eof_ r) (last_record_offset_ r)
    (end_of_buffer_offset_ r) (initial_offset_ r) b.
Definition set_last_record (o : Z) r : Reader :=
  Build_Reader (file_ r) (reports r) (checksum_ r) (buffer_ r) (eof_ r) o
    (end_of_buffer_offset_ r) (initial_offset_ r) (resyncing_ r).
Definition set_file (f : F) (b : list Z) (e : Z) r : Reader :=
  Build_Reader f (reports r) (checksum_ r) b (eof_ r) (last_record_offset_ r)
    e (initial_offset_ r) (resyncing_ r).

Definition ReportDrop (bytes : Z) (reason : Code) r : Reader :=
  match reports r with
  | Some rs =>
    if initial_offset_ r <=? wrap 64 (end_of_buffer_offset_ r - zlen (buffer_ r) - bytes)
    then Build_Reader (file_ r) (Some (rs ++ [(bytes, reason)])) (checksum_ r) (buffer_ r)
           (eof_ r) (last_record_offset_ r) (end_of_buffer_offset_ r) (initial_offset_ r)
           (resyncing_ r)
    else r
  | None => r
  end.
Definition ReportCorruption (bytes : Z) r : Reader := ReportDrop bytes kCorruption r.

Definition SkipToInitialBlock r : bool * Reader :=
  let offset_in_block := initial_offset_ r mod kBlockSize in
  let block_start_location := wrap 64 (initial_offset_ r - offset_in_block) in
  let block_start_location :=
    if kBlockSize - 6 <? offset_in_block then wrap 64 (block_start_location + kBlockSize)
    else block_start_location in
  let r := set_file (file_ r) (buffer_ r) block_start_location r in
  if 0 <? block_start_location then
    let '(skip_status, f) := Skip block_start_location (file_ r) in
    let r := set_file f (buffer_ r) (end_of_buffer_offset_ r) r in
    if negb (Status_ok skip_status) then (false, ReportDrop block_start_location skip_status r)
    else (true, r)
  else (true, r).

(** The part of [ReadPhysicalRecord] after the header is in the buffer: the
    type, [*result], and the reader. *)
Definition parse_physical (result : list Z) r : option (Z * list Z * Reader) :=
  let header := buffer_ r in
  b4 ← rd header 4; b5 ← rd header 5; b6 ← rd header 6;
  let a := Z.land b4 255 in
  let b := Z.land b5 255 in
  let type := wrap 32 (swrap 8 b6) in
  let length := Z.lor a (Z.shiftl b 8) in
  if zlen (buffer_ r) <? kHeaderSize + length then
    let drop_size := zlen (buffer_ r) in
    let r := set_buffer [] r in
    if negb (eof_ r) then Some (kBadRecord, result, ReportCorruption drop_size r)
    else Some (kEof, result, r)
  else if (type =? kZeroType) && (length =? 0) then
    Some (kBadRecord, result, set_buffer [] r)
  else
    mismatch ← (if checksum_ r then
                  stored ← DecodeFixed32 le header;
                  payload ← rd_bytes header 6 (1 + length);
                  actual_crc ← Value le (ptr payload) payload;
                  Some (negb (actual_crc =? Unmask stored))
                else Some false);
    if (mismatch : bool) then
      let drop_size := zlen (buffer_ r) in
      let r := set_buffer [] r in
      Some (kBadRecord, result, ReportCorruption drop_size r)
    else
      let r := set_buffer (drop (Z.to_nat (kHeaderSize + length)) (buffer_ r)) r in
      if wrap 64 (end_of_buffer_offset_ r - zlen (buffer_ r) - kHeaderSize - length)
         <? initial_offset_ r
      then Some (kBadRecord, [], r)
      else
        data ← rd_bytes header kHeaderSize length;
        Some (type, data, r).

(** A turn of the loop either reads a block, after which the buffer has a
    header or the file is at its end, or returns. *)
Fixpoint ReadPhysicalRecord_loop (fuel : nat) (result : list Z) r : option (Z * list Z * Reader) :=
  match fuel with
  | O => None
  | S fuel =>
    if zlen (buffer_ r) <? kHeaderSize then
      if negb (eof_ r) then
        let '(status, b, f) := Read kBlockSize (file_ r) in
        let r := set_file f b (wrap 64 (end_of_buffer_offset_ r + zlen b)) r in
        if negb (Status_ok status) then
          Some (kEof, result, set_eof (ReportDrop kBlockSize status (set_buffer [] r)))
        else
          ReadPhysicalRecord_loop fuel result (if zlen b <? kBlockSize then set_eof r else r)
      else Some (kEof, result, set_buffer [] r)
    else parse_physical result r
  end.
Definition ReadPhysicalRecord (result : list Z) r : option (Z * list Z * Reader) :=
  ReadPhysicalRecord_loop 3 result r.

(** The loop of [ReadRecord]: whether a record was read, the record, and the
    reader. *)
Fixpoint ReadRecord_loop (fuel : nat) (scratch fragment : list Z) (in_fragmented_record : bool)
    (prospective_record_offset : Z) r : option (bool * list Z * Reader) :=
  match fuel with
  | O => None
  | S fuel =>
    let physical_record_offset := wrap 64 (end_of_buffer_offset_ r - zlen (buffer_ r)) in
    '(record_type, fragment, r) ← ReadPhysicalRecord fragment r;
    if resyncing_ r && (record_type =? kMiddleType) then
      ReadRecord_loop fuel scratch fragment in_fragmented_record prospective_record_offset r
    else if resyncing_ r && (record_type =? kLastType) then
      ReadRecord_loop fuel scratch fragment in_fragmented_record prospective_record_offset
        (set_resyncing false r)
    else
      let r := if resyncing_ r then set_resyncing false r else r in
      if record_type =? kFullType then
        let r := if in_fragmented_record && negb (zlen scratch =? 0)
                 then ReportCorruption (zlen scratch) r else r in
        Some (true, fragment, set_last_record physical_record_offset r)
      else if record_type =? kFirstType then
        let r := if in_fragmented_record && negb (zlen scratch =? 0)
                 then ReportCorruption (zlen scratch) r else r in
        ReadRecord_loop fuel fragment fragment true physical_record_offset r
      else if record_type =? kMiddleType then
        if negb in_fragmented_record then
          ReadRecord_loop fuel scratch fragment in_fragmented_record prospective_record_offset
            (ReportCorruption (zlen fragment) r)
        else
          ReadRecord_loop fuel (scratch ++ fragment) fragment in_fragmented_record
            prospective_record_offset r
      else if record_type =? kLastType then
        if negb in_fragmented_record then
          ReadRecord_loop fuel scratch fragment in_fragmented_record prospective_record_offset
            (ReportCorruption (zlen fragment) r)
        else
          Some (true, scratch ++ fragment, set_last_record prospective_record_offset r)
      else if record_type =? kEof then Some (false, [], r)
      else if record_type =? kBadRecord then
        if in_fragmented_record then
          ReadRecord_loop fuel [] fragment false prospective_record_offset
            (ReportCorruption (zlen scratch) r)
        else ReadRecord_loop fuel scratch fragment in_fragmented_record
               prospective_record_offset r
      else
        ReadRecord_loop fuel [] fragment false prospective_record_offset
          (ReportCorruption (zlen fragment + (if in_fragmented_record then zlen scratch else 0)) r)
  end.

Definition ReadRecord r : option (bool * list Z * Reader) :=
  let '(ok, r) := if last_record_offset_ r <? initial_offset_ r then SkipToInitialBlock r
                  else (true, r) in
  if negb ok then Some (false, [], r)
  else ReadRecord_loop (length (buffer_ r) + length (contents (file_ r)) + 2) [] [] false 0 r.

Definition LastRecordOffset r : Z := last_record_offset_ r.

(** [while (reader.ReadRecord(&record, &scratch))] as in [RecoverLogFile]: the
    records read and the reader at the end. *)
Fixpoint read_all (fuel : nat) r : option (list (list Z) * Reader) :=
  match fuel with
  | O => None
  | S fuel =>
    '(ok, record, r) ← ReadRecord r;
    if negb ok then Some ([], r)
    else '(records, r) ← read_all fuel r; Some (record :: records, r)
  end.
End reader.
End log.
#[global] Arguments Writer : clear implicits.
#[global] Arguments Reader : clear implicits.
#[global] Arguments Build_Writer {F}.
#[global] Arguments Build_Reader {F}.

(** ** The layout of a log *)
Definition padlen (pos : Z) : Z :=
  let leftover := kBlockSize - pos mod kBlockSize in
  if leftover <? kHeaderSize then leftover else 0.

Definition phys (t : Z) (d : list Z) : list Z :=
  le_enc 4 (Mask (crc32c 0 (t :: d))) ++ [zlen d mod 256; zlen d / 256; t] ++ d.

Fixpoint phys_stream (pos : Z) (ps : list (Z * list Z)) : list Z :=
  match ps with
  | [] => []
  | (t, d) :: ps =>
    replicate (Z.to_nat (padlen pos)) 0 ++ phys t d ++
    phys_stream (pos + padlen pos + 7 + zlen d) ps
  end.

Definition phys_fits (pos t : Z) (d : list Z) : Prop :=
  1 <= t <= 4 /\ Forall is_byte d /\ (pos + padlen pos) mod kBlockSize + 7 + zlen d <= kBlockSize.

Fixpoint stream_fits (pos : Z) (ps : list (Z * list Z)) : Prop :=
  match ps with
  | [] => True
  | (t, d) :: ps => phys_fits pos t d /\ stream_fits (pos + padlen pos + 7 + zlen d) ps
  end.

(** The fragments of a record; [b] tells that it starts with them. *)
Inductive frags : bool -> list Z -> list (Z * list Z) -> Prop :=
| frags_end b d : frags b d [(if b then kFullType else kLastType, d)]
| frags_more b d1 d2 ps :
    frags false d2 ps -> frags b (d1 ++ d2) ((if b then kFirstType else kMiddleType, d1) :: ps).

Lemma padlen_spec pos :
  0 <= pos -> 0 <= padlen pos < 7 /\
  (padlen pos = 0 /\ pos mod kBlockSize + 7 <= kBlockSize \/
   padlen pos = kBlockSize - pos mod kBlockSize /\ (pos + padlen pos) mod kBlockSize = 0).
Proof.
  intros Hp. unfold padlen, kHeaderSize. pose proof (Z.mod_pos_bound pos kBlockSize ltac:(done)).
  destruct (Z.ltb_spec (kBlockSize - pos mod kBlockSize) (4 + 2 + 1)); split; try lia.
  right. split; [done|]. unfold kBlockSize in *. zdiv_lia.
Qed.

Lemma length_phys t d : length (phys t d) = (7 + length d)%nat.
Proof. unfold phys. rewrite !length_app, length_le_enc. simpl. lia. Qed.
#[local] Opaque phys.

Lemma length_phys_stream_cons pos t d ps :
  0 <= pos ->
  zlen (phys_stream pos ((t, d) :: ps)) =
  padlen pos + 7 + zlen d + zlen (phys_stream (pos + padlen pos + 7 + zlen d) ps).
Proof.
  intros Hp. simpl. pose proof (padlen_spec pos Hp) as [? _].
  rewrite !length_app, length_replicate, length_phys. lia.
Qed.

Lemma frags_types b d ps : frags b d ps -> Forall (fun p => 1 <= p.1 <= 4) ps.
Proof.
  induction 1 as [b d|b d1 d2 ps H IH]; constructor; destruct b; simpl; try done;
    unfold kFullType, kLastType, kFirstType, kMiddleType; lia.
Qed.

Section roundtrip.
Context (le : bool) (ptr : list Z -> Z).
Hypothesis Hptr : forall s, 0 <= ptr s /\ ptr s + 3 < 2 ^ 64.

Lemma Value_spec s : Forall is_byte s -> Value le (ptr s) s = Some (crc32c 0 s).
Proof using Hptr.
  intros Hs. pose proof (Hptr s). apply Extend_spec; [done| |lia..]. unfold fits_unsigned. lia.
Qed.

(** ** The writer appends fragments *)
Definition winv (w : Writer (list Z)) (f : list Z) : Prop :=
  dest_ w = f /\ type_crc_ w = (fun t => crc32c 0 [t]) <$> [0; 1; 2; 3; 4] /\
  0 <= block_offset_ w <= kBlockSize /\ block_offset_ w mod kBlockSize = zlen f mod kBlockSize.

Lemma winv_dest w f : winv w f -> winv w (dest_ w).
Proof. intros Hw. by rewrite (proj1 Hw). Qed.

Lemma InitTypeCrc_spec :
  InitTypeCrc le ptr = Some ((fun t => crc32c 0 [t]) <$> [0; 1; 2; 3; 4]).
Proof using Hptr.
  unfold InitTypeCrc. apply mapM_Some_2. repeat constructor; apply Value_spec; repeat constructor; lia.
Qed.

Lemma EmitPhysicalRecord_spec (w : Writer (list Z)) f t d :
  winv w f -> block_offset_ w + 7 + zlen d <= kBlockSize -> 1 <= t <= 4 -> Forall is_byte d ->
  exists w', EmitPhysicalRecord le ptr w t d = Some (kOk, w') /\ winv w' (f ++ phys t d) /\
    block_offset_ w' = block_offset_ w + 7 + zlen d.
Proof using Hptr.
  intros (Hd & Hc & Ho & Hm) Hfit Ht Hb. unfold EmitPhysicalRecord, assert, kHeaderSize.
  assert (Hk : kBlockSize = 32768) by done.
  rewrite (proj2 (Z.leb_le _ _)) by lia. rewrite (proj2 (Z.leb_le _ _)) by lia. cbn [mbind option_bind].
  replace (rd (type_crc_ w) t) with (Some (crc32c 0 [t])).
  2:{ rewrite Hc. assert (t = 1 \/ t = 2 \/ t = 3 \/ t = 4) as [-> | [-> | [-> | ->]]] by lia; done. }
  cbn [mbind option_bind]. pose proof (Hptr d).
  assert (Hbt : Forall is_byte [t]) by (repeat constructor; lia).
  rewrite Extend_spec; [|done|apply crc32c_fits; [done|unfold fits_unsigned; lia]|lia..].
  cbn [mbind option_bind]. rewrite crc32c_app, EncodeFixed32_eq. simpl. eexists. split; [done|].
  split; [|done]. unfold winv. simpl. rewrite Hd, <-app_assoc. split_and!; [|done|lia|lia|].
  - Transparent phys. unfold phys. Opaque phys. rewrite land_255, shiftr_div by lia. unfold wrap.
    rewrite (Z.mod_small (zlen d mod 256)), (Z.mod_small (zlen d / 2 ^ 8)), (Z.mod_small t) by zdiv_lia.
    by rewrite <-?app_assoc.
  - rewrite length_app, length_phys.
    replace (Z.of_nat (length f + (7 + length d))) with (zlen f + (7 + zlen d)) by lia.
    by rewrite <-Z.add_assoc, Zplus_mod, Hm, <-Zplus_mod.
Qed.

(** Closing a block that has no room for a header. *)
Definition switch_block (w : Writer (list Z)) : Writer (list Z) :=
  let leftover := kBlockSize - block_offset_ w in
  if leftover <? kHeaderSize then
    Build_Writer (if 0 <? leftover then (Append (replicate (Z.to_nat leftover) 0) (dest_ w)).2
                  else dest_ w) 0 (type_crc_ w)
  else w.

Lemma switch_block_spec w f :
  winv w f ->
  winv (switch_block w) (f ++ replicate (Z.to_nat (padlen (zlen f))) 0) /\
  block_offset_ (switch_block w) + 7 <= kBlockSize /\
  (zlen f + padlen (zlen f)) mod kBlockSize = block_offset_ (switch_block w) mod kBlockSize /\
  (block_offset_ w < kBlockSize - 7 \/ block_offset_ w = kBlockSize ->
   block_offset_ (switch_block w) + 7 < kBlockSize).
Proof.
  intros (Hd & Hc & Ho & Hm). unfold switch_block, padlen, kHeaderSize in *.
  assert (Hk : kBlockSize = 32768) by done. rewrite <-Hm. simpl (4 + 2 + 1).
  destruct (Z.ltb_spec (kBlockSize - block_offset_ w) 7) as [Hlt|Hge]; simpl.
  - destruct (decide (block_offset_ w = kBlockSize)) as [E|Hne].
    + rewrite E, Z.sub_diag in *. rewrite Z.mod_same in * by lia. simpl.
      rewrite app_nil_r, Z.add_0_r. unfold winv. simpl. repeat split; try done; lia.
    + rewrite (Z.mod_small (block_offset_ w)) in * by lia.
      rewrite (proj2 (Z.ltb_lt _ _)) by lia. rewrite (proj2 (Z.ltb_lt _ _)) by lia.
      assert (E : (zlen f + (kBlockSize - block_offset_ w)) mod kBlockSize = 0).
      { rewrite Hm. rewrite Hk. zdiv_lia. }
      unfold winv. simpl. rewrite Hd, length_app, length_replicate, Nat2Z.inj_add, Z2Nat.id, E by lia.
      repeat split; try done; lia.
  - rewrite (Z.mod_small (block_offset_ w)) in * by lia. rewrite (proj2 (Z.ltb_ge _ _)) by lia.
    simpl. rewrite app_nil_r, Z.add_0_r. unfold winv. rewrite (Z.mod_small (block_offset_ w)) by lia.
    repeat split; try done; lia.
Qed.

(** What a call of the loop leaves behind. *)
Definition appended (w : Writer (list Z)) f begin data (r : option (Code * Writer (list Z))) : Prop :=
  exists w' ps, r = Some (kOk, w') /\ winv w' (f ++ phys_stream (zlen f) ps) /\
    stream_fits (zlen f) ps /\ frags begin data ps.

Lemma AddRecord_loop_S fuel w data begin :
  0 <= kBlockSize - block_offset_ w -> 0 <= kBlockSize - block_offset_ (switch_block w) - 7 ->
  let w1 := switch_block w in
  let avail := kBlockSize - block_offset_ w1 - 7 in
  let n := if zlen data <? avail then zlen data else avail in
  let end_ := zlen data =? n in
  AddRecord_loop le ptr (S fuel) w data begin =
  ('(s, w) ← EmitPhysicalRecord le ptr w1
               (if begin && end_ then kFullType else if begin then kFirstType
                else if end_ then kLastType else kMiddleType) (take (Z.to_nat n) data);
   if Status_ok s && (0 <? zlen (drop (Z.to_nat n) data))
   then AddRecord_loop le ptr fuel w (drop (Z.to_nat n) data) false
   else Some (s, w)).
Proof.
  intros H1 H2. change (AddRecord_loop le ptr (S fuel) w data begin) with
    (assert (0 <=? kBlockSize - block_offset_ w);;
     assert (0 <=? kBlockSize - block_offset_ (switch_block w) - 7);;
     let w1 := switch_block w in
     let avail := kBlockSize - block_offset_ w1 - 7 in
     let n := if zlen data <? avail then zlen data else avail in
     let end_ := zlen data =? n in
     '(s, w) ← EmitPhysicalRecord le ptr w1
               (if begin && end_ then kFullType else if begin then kFirstType
                else if end_ then kLastType else kMiddleType) (take (Z.to_nat n) data);
     if Status_ok s && (0 <? zlen (drop (Z.to_nat n) data))
     then AddRecord_loop le ptr fuel w (drop (Z.to_nat n) data) false
     else Some (s, w)).
  unfold assert. rewrite (proj2 (Z.leb_le 0 _) H1), (proj2 (Z.leb_le 0 _) H2). done.
Qed.

Lemma AddRecord_step fuel w f data begin :
  winv w f -> Forall is_byte data ->
  let w1 := switch_block w in
  let avail := Z.to_nat (kBlockSize - block_offset_ w1 - 7) in
  ((length data <= avail)%nat -> appended w f begin data (AddRecord_loop le ptr (S fuel) w data begin)) /\
  ((avail < length data)%nat ->
   (forall w2, winv w2 (f ++ replicate (Z.to_nat (padlen (zlen f))) 0 ++
                        phys (if begin then kFirstType else kMiddleType) (take avail data)) ->
      block_offset_ w2 = kBlockSize ->
      appended w2 (dest_ w2) false (drop avail data) (AddRecord_loop le ptr fuel w2 (drop avail data) false)) ->
   appended w f begin data (AddRecord_loop le ptr (S fuel) w data begin)).
Proof using Hptr.
  intros Hw Hb w1 avail.
  destruct (switch_block_spec w f Hw) as (Hw1 & Hfit & Hmod & _). fold w1 in Hw1, Hfit, Hmod.
  pose proof Hw as (_ & _ & Ho & _). pose proof Hw1 as (_ & _ & Ho1 & _).
  assert (Hav : Z.of_nat avail = kBlockSize - block_offset_ w1 - 7) by (unfold avail; lia).
  assert (Hpf : forall t d, 1 <= t <= 4 -> Forall is_byte d -> (length d <= avail)%nat ->
                phys_fits (zlen f) t d).
  { intros t d ? ? ?. split_and!; [lia|lia|done|]. rewrite Hmod.
    unfold kBlockSize in *. rewrite Z.mod_small by lia. lia. }
  split.
  - intros Hlen. rewrite AddRecord_loop_S by (fold w1; lia). fold w1. cbv zeta.
    replace (if zlen data <? _ then _ else _) with (zlen data).
    2:{ destruct (Z.ltb_spec (zlen data) (kBlockSize - block_offset_ w1 - 7)); lia. }
    rewrite Z.eqb_refl, andb_true_r, Nat2Z.id, take_ge, drop_ge by lia.
    replace (if begin then kFullType else if begin then _ else _)
      with (if begin then kFullType else kLastType) by (by destruct begin).
    assert (Ht : 1 <= (if begin then kFullType else kLastType) <= 4) by (by destruct begin).
    destruct (EmitPhysicalRecord_spec w1 _ (if begin then kFullType else kLastType) data Hw1)
      as (w' & -> & Hw' & _); [lia|done|done|].
    cbn [mbind option_bind]. simpl. exists w', [(if begin then kFullType else kLastType, data)].
    split_and!; [done| | |constructor].
    + simpl. by rewrite app_nil_r, app_assoc.
    + simpl. auto.
  - intros Hlen Hrec. rewrite AddRecord_loop_S by (fold w1; lia). fold w1. cbv zeta.
    rewrite (proj2 (Z.ltb_ge (zlen data) _)) by lia. rewrite <-Hav.
    rewrite (proj2 (Z.eqb_neq _ _)) by lia. rewrite andb_false_r, Nat2Z.id.
    set (t := if begin then kFirstType else _) in *.
    assert (Hbt : Forall is_byte (take avail data)) by (by apply Forall_take).
    assert (Hlt : length (take avail data) = avail) by (rewrite length_take; lia).
    assert (Ht : 1 <= t <= 4) by (by subst t; destruct begin).
    destruct (EmitPhysicalRecord_spec w1 _ t (take avail data) Hw1) as (w2 & -> & Hw2 & Ho2);
      [rewrite Hlt; lia|done|done|].
    cbn [mbind option_bind]. rewrite (proj2 (Z.ltb_lt 0 _)) by (rewrite length_drop; lia). simpl.
    rewrite <-app_assoc in Hw2.
    destruct (Hrec w2 Hw2) as (w' & ps & -> & Hw' & Hsf & Hfr); [rewrite Ho2, Hlt; lia|].
    pose proof Hw2 as [Hd2 _]. rewrite Hd2 in *.
    exists w', ((t, take avail data) :: ps).
    assert (Hp : zlen (f ++ replicate (Z.to_nat (padlen (zlen f))) 0 ++ phys t (take avail data))
                 = zlen f + padlen (zlen f) + 7 + zlen (take avail data)).
    { pose proof (padlen_spec (zlen f) ltac:(lia)) as [? _].
      rewrite !length_app, length_replicate, length_phys. lia. }
    rewrite Hp in *. split_and!; [done| | |].
    + simpl. by rewrite <-!app_assoc in Hw'.
    + simpl. split; [apply Hpf; [done|done|lia]|done].
    + rewrite <-(take_drop avail data) at 1. by apply frags_more.
Qed.

Lemma AddRecord_loop_spec fuel w f data begin :
  winv w f -> Forall is_byte data -> block_offset_ w < kBlockSize - 7 \/ block_offset_ w = kBlockSize ->
  (length data < fuel)%nat -> appended w f begin data (AddRecord_loop le ptr fuel w data begin).
Proof using Hptr.
  revert w f data begin. induction fuel as [|fuel IH]; intros w f data begin Hw Hb Ho Hf; [lia|].
  destruct (AddRecord_step fuel w f data begin Hw Hb) as [Hend Hmore].
  destruct (switch_block_spec w f Hw) as (_ & _ & _ & Hroom). specialize (Hroom Ho).
  destruct (decide (length data <= Z.to_nat (kBlockSize - block_offset_ (switch_block w) - 7))%nat); [auto|].
  apply Hmore; [lia|]. intros w2 Hw2 Ho2.
  apply IH; [by eapply winv_dest|by apply Forall_drop|auto|rewrite length_drop; lia].
Qed.

Lemma AddRecord_spec w f data :
  winv w f -> Forall is_byte data -> appended w f true data (AddRecord le ptr w data).
Proof using Hptr.
  intros Hw Hb. unfold AddRecord. replace (length data + 2)%nat with (S (length data + 1)) by lia.
  destruct (AddRecord_step (length data + 1) w f data true Hw Hb) as [Hend Hmore].
  destruct (decide (length data <= Z.to_nat (kBlockSize - block_offset_ (switch_block w) - 7))%nat); [auto|].
  apply Hmore; [lia|]. intros w2 Hw2 Ho2.
  apply AddRecord_loop_spec; [by eapply winv_dest|by apply Forall_drop|auto|rewrite length_drop; lia].
Qed.

(** ** The reader

    [rinv r pos rest]: the reader is at position [pos] of the file, with
    [rest] still to come. *)
Record rinv (r : Reader (list Z)) (pos : Z) (rest : list Z) : Prop := {
  rinv_rest : rest = buffer_ r ++ file_ r;
  rinv_end : end_of_buffer_offset_ r = pos + zlen (buffer_ r);
  rinv_eof : eof_ r = true -> file_ r = [];
  rinv_block : eof_ r = false -> (pos + zlen (buffer_ r)) mod kBlockSize = 0;
  rinv_in_block : pos mod kBlockSize + zlen (buffer_ r) <= kBlockSize;
  rinv_start : initial_offset_ r = 0 /\ resyncing_ r = false /\ 0 <= last_record_offset_ r;
  rinv_pos : 0 <= pos /\ pos + zlen rest < 2 ^ 64;
}.

Lemma phys_split t d :
  exists c, length c = 4%nat /\ Forall is_byte c /\ le_dec c = wrap 32 (Mask (crc32c 0 (t :: d))) /\
    phys t d = c ++ [zlen d mod 256; zlen d / 256; t] ++ d.
Proof.
  exists (le_enc 4 (Mask (crc32c 0 (t :: d)))).
  split_and!; [apply length_le_enc|apply le_enc_bytes|by rewrite le_dec_enc|done].
Qed.

Lemma Mask_wrap c : wrap 32 (Mask c) = Mask c.
Proof. unfold Mask, wrap. apply Z.mod_mod. lia. Qed.

Lemma header_length n : 0 <= n < 65536 -> Z.lor (Z.land (n mod 256) 255) (Z.shiftl (Z.land (n / 256) 255) 8) = n.
Proof.
  intros Hn. rewrite !land_255, !Z.mod_mod, (Z.mod_small (n / 256)) by zdiv_lia.
  rewrite lor_shiftl_add by zdiv_lia. zdiv_lia.
Qed.

Lemma parse_physical_full (r : Reader (list Z)) t d rest res :
  buffer_ r = phys t d ++ rest -> 1 <= t <= 4 -> Forall is_byte d -> zlen d < 65536 ->
  initial_offset_ r = 0 ->
  parse_physical le ptr res r = Some (t, d, set_buffer rest r).
Proof using Hptr.
  intros Hbuf Ht Hd Hl Hi. unfold parse_physical.
  destruct (phys_split t d) as (c & Hc & Hcb & Hdec & Hphys).
  destruct c as [|c0 [|c1 [|c2 [|c3 [|]]]]]; try done.
  assert (Hbuf' : buffer_ r = [c0; c1; c2; c3] ++ [zlen d mod 256; zlen d / 256; t] ++ d ++ rest).
  { by rewrite Hbuf, Hphys, <-!app_assoc. }
  assert (Hbl : zlen (buffer_ r) = 7 + zlen d + zlen rest).
  { rewrite Hbuf', !length_app. simpl. lia. }
  rewrite (rd_at _ [c0; c1; c2; c3] _ _ 4 Hbuf' eq_refl).
  rewrite (rd_at _ [c0; c1; c2; c3; zlen d mod 256] _ _ 5 Hbuf' eq_refl).
  rewrite (rd_at _ [c0; c1; c2; c3; zlen d mod 256; zlen d / 256] _ _ 6 Hbuf' eq_refl).
  cbn [mbind option_bind]. rewrite header_length by lia.
  rewrite (proj2 (Z.ltb_ge _ _)) by (unfold kHeaderSize; lia).
  replace (wrap 32 (swrap 8 t)) with t.
  2:{ rewrite swrap_fits by (unfold fits_signed; lia). unfold wrap. by rewrite Z.mod_small by lia. }
  rewrite (proj2 (Z.eqb_neq t _)) by (unfold kZeroType; lia). simpl andb.
  assert (Hm : (if checksum_ r then
                  stored ← DecodeFixed32 le (buffer_ r);
                  payload ← rd_bytes (buffer_ r) 6 (1 + zlen d);
                  actual_crc ← Value le (ptr payload) payload;
                  Some (negb (actual_crc =? Unmask stored))
                else Some false) = Some false).
  { destruct (checksum_ r); [|done]. rewrite Hbuf', DecodeFixed32_app by done.
    cbn [mbind option_bind].
    rewrite (rd_bytes_app [c0; c1; c2; c3; zlen d mod 256; zlen d / 256] (t :: d) rest)
      by (simpl; lia || done).
    assert (Hbt : Forall is_byte (t :: d)) by (constructor; [unfold is_byte; lia|done]).
    cbn [mbind option_bind]. rewrite Value_spec by done. cbn [mbind option_bind].
    rewrite Hdec, Mask_wrap, Unmask_Mask, Z.eqb_refl; [done|].
    apply crc32c_fits; [done|unfold fits_unsigned; lia]. }
  rewrite Hm. cbn [mbind option_bind].
  replace (drop _ (buffer_ r)) with rest.
  2:{ rewrite Hbuf. symmetry. apply drop_app_length'. rewrite length_phys. unfold kHeaderSize. lia. }
  simpl initial_offset_. rewrite Hi.
  rewrite (proj2 (Z.ltb_ge _ _)) by (apply Z.mod_pos_bound; lia).
  rewrite Hbuf', (rd_bytes_app [c0; c1; c2; c3; zlen d mod 256; zlen d / 256; t] d rest) by done.
  done.
Qed.

Lemma parse_physical_cut (r : Reader (list Z)) t d more res :
  buffer_ r ++ more = phys t d -> more <> [] -> 7 <= zlen (buffer_ r) -> zlen d < 65536 ->
  eof_ r = true -> parse_physical le ptr res r = Some (kEof, res, set_buffer [] r).
Proof.
  intros Hcut Hmore H7 Hl He. unfold parse_physical.
  destruct (phys_split t d) as (c & Hc & _ & _ & Hphys).
  destruct c as [|c0 [|c1 [|c2 [|c3 [|]]]]]; try done.
  assert (exists b', buffer_ r = [c0; c1; c2; c3] ++ [zlen d mod 256; zlen d / 256; t] ++ b' /\
                     zlen b' < zlen d) as (b' & Hbuf & Hb').
  { rewrite Hphys in Hcut. destruct (buffer_ r) as [|x0 [|x1 [|x2 [|x3 [|x4 [|x5 [|x6 b']]]]]]];
      simpl in H7; try lia. simplify_eq/=. exists b'. split; [done|].
    rewrite length_app. destruct more; [done|]. simpl. lia. }
  rewrite (rd_at _ [c0; c1; c2; c3] _ _ 4 Hbuf eq_refl).
  rewrite (rd_at _ [c0; c1; c2; c3; zlen d mod 256] _ _ 5 Hbuf eq_refl).
  rewrite (rd_at _ [c0; c1; c2; c3; zlen d mod 256; zlen d / 256] _ _ 6 Hbuf eq_refl).
  cbn [mbind option_bind]. rewrite header_length by lia.
  rewrite (proj2 (Z.ltb_lt _ _)) by (rewrite Hbuf; unfold kHeaderSize; simpl; lia).
  simpl eof_. by rewrite He.
Qed.

Lemma rinv_buffer_7 r pos rest : rinv r pos rest -> 7 <= zlen (buffer_ r) -> padlen pos = 0.
Proof.
  intros [_ _ _ _ Hb _ [Hp _]] H7. destruct (padlen_spec pos Hp) as [? [[? ?]|[? ?]]]; lia.
Qed.

Lemma refill r pos rest :
  rinv r pos rest -> zlen (buffer_ r) < 7 -> eof_ r = false ->
  zlen (buffer_ r) = padlen pos /\
  exists r1, rinv r1 (pos + padlen pos) (file_ r) /\
    buffer_ r1 = take (Z.to_nat kBlockSize) (file_ r) /\ reports r1 = reports r /\
    eof_ r1 = (zlen (buffer_ r1) <? kBlockSize) /\
    forall fuel res, ReadPhysicalRecord_loop le ptr (S fuel) res r = ReadPhysicalRecord_loop le ptr fuel res r1.
Proof.
  intros Hinv H7 He. pose proof Hinv as [Hrest Hend _ Hblk Hin (Hi & Hr & Hlast) [Hp Hmax]].
  specialize (Hblk He). assert (Hpad : zlen (buffer_ r) = padlen pos).
  { pose proof (padlen_spec pos Hp). unfold kBlockSize in *. zdiv_lia. }
  split; [done|]. set (b := take (Z.to_nat kBlockSize) (file_ r)).
  assert (Hlb : zlen b = kBlockSize \/ b = file_ r /\ zlen b < kBlockSize).
  { subst b. rewrite length_take. unfold kBlockSize. destruct (decide (zlen (file_ r) < 32768)).
    - right. split; [apply take_ge; lia|lia].
    - left. lia. }
  set (r0 := set_file (drop (Z.to_nat kBlockSize) (file_ r)) b (wrap 64 (end_of_buffer_offset_ r + zlen b)) r).
  exists (if zlen b <? kBlockSize then set_eof r0 else r0).
  assert (Hw : wrap 64 (end_of_buffer_offset_ r + zlen b) = pos + padlen pos + zlen b).
  { rewrite Hend, Hpad. apply Z.mod_small. rewrite Hrest, length_app in Hmax.
    assert (zlen b <= zlen (file_ r)) by (subst b; rewrite length_take; lia). lia. }
  rewrite <-Hpad in *. split_and!.
  - assert (Hm0 : (pos + zlen (buffer_ r)) mod kBlockSize = 0) by done.
    rewrite Hrest, length_app in Hmax.
    destruct (Z.ltb_spec (zlen b) kBlockSize); split; simpl; rewrite ?Hw, ?Hm0; try done; try lia.
    all: try (symmetry; apply take_drop).
    + intros _. destruct Hlb as [?|[E _]]; [lia|]. apply drop_ge.
      rewrite E in *. unfold kBlockSize in *. lia.
    + congruence.
    + intros _. destruct Hlb as [->|[_ ?]]; [|lia].
      rewrite <-Zplus_mod_idemp_l, Hm0. by rewrite Z.mod_same.
  - by destruct (zlen b <? kBlockSize).
  - by destruct (zlen b <? kBlockSize).
  - by destruct (zlen b <? kBlockSize) eqn:E; simpl; rewrite ?E, ?He.
  - intros fuel res. cbn [ReadPhysicalRecord_loop]. rewrite (proj2 (Z.ltb_lt _ _)) by done.
    rewrite He. done.
Qed.

Lemma app_split_le {A} (a b c d : list A) :
  a ++ b = c ++ d -> (length c <= length a)%nat -> exists e, a = c ++ e /\ d = e ++ b.
Proof.
  intros E Hl. destruct (split_at a (length c) Hl) as (a1 & e & -> & Ha).
  rewrite <-app_assoc in E. apply app_inj_1 in E as [-> <-]; [|done]. eauto.
Qed.

Lemma rinv_consume r pos t d rest b' :
  rinv r pos (phys t d ++ rest) -> buffer_ r = phys t d ++ b' ->
  pos mod kBlockSize + 7 + zlen d <= kBlockSize ->
  rinv (set_buffer b' r) (pos + 7 + zlen d) rest.
Proof.
  intros [Hrest Hend Heof Hblk Hin (Hi & Hr & Hlast) [Hp Hmax]] Hb Hfit.
  rewrite Hb, <-app_assoc in Hrest. apply app_inv_head in Hrest.
  rewrite Hb, !length_app, length_phys in *.
  split; simpl; try done; try lia.
  - intros He. rewrite <-(Hblk He). f_equal. lia.
  - unfold kBlockSize in *. zdiv_lia.
Qed.

Lemma ReadPhysicalRecord_full r pos t d rest res :
  rinv r pos (replicate (Z.to_nat (padlen pos)) 0 ++ phys t d ++ rest) -> phys_fits pos t d ->
  exists r', ReadPhysicalRecord le ptr res r = Some (t, d, r') /\
    rinv r' (pos + padlen pos + 7 + zlen d) rest /\ reports r' = reports r.
Proof using Hptr.
  intros Hinv (Ht & Hb & Hfit). pose proof Hinv as [Hrest _ _ _ _ _ [Hp _]].
  assert (Hd : zlen d < 65536) by (pose proof (Z.mod_pos_bound (pos + padlen pos) kBlockSize);
    unfold kBlockSize in *; lia).
  (* once the buffer holds a header *)
  assert (Hparse : forall fuel r1, rinv r1 (pos + padlen pos) (phys t d ++ rest) ->
    (7 + length d <= length (buffer_ r1))%nat -> reports r1 = reports r ->
    exists r', ReadPhysicalRecord_loop le ptr (S fuel) res r1 = Some (t, d, r') /\
      rinv r' (pos + padlen pos + 7 + zlen d) rest /\ reports r' = reports r).
  { intros fuel r1 Hinv1 Hlen Hrep. pose proof Hinv1 as [Hrest1 _ _ _ _ (Hi & _) _].
    symmetry in Hrest1. apply app_split_le in Hrest1 as (b' & Hbuf & Hrest'); [|by rewrite length_phys].
    exists (set_buffer b' r1). cbn [ReadPhysicalRecord_loop].
    rewrite (proj2 (Z.ltb_ge _ _)) by (unfold kHeaderSize; lia).
    rewrite (parse_physical_full r1 t d b') by (done || lia). split_and!; [done| |done].
    by eapply rinv_consume. }
  unfold ReadPhysicalRecord. destruct (Z.le_gt_cases 7 (zlen (buffer_ r))) as [H7|H7].
  - pose proof (rinv_buffer_7 _ _ _ Hinv H7) as Hpad. rewrite Hpad, Z.add_0_r in *. simpl in Hinv, Hrest.
    apply (Hparse 2%nat); [done| |done].
    destruct Hinv as [_ _ Heof Hblk Hin _ _]. destruct (eof_ r) eqn:He.
    + rewrite Heof, app_nil_r in Hrest by done. rewrite <-Hrest, length_app, length_phys. lia.
    + specialize (Hblk eq_refl). unfold kBlockSize in *. zdiv_lia.
  - destruct (eof_ r) eqn:He.
    { destruct Hinv as [_ _ Heof _ _ _ _]. rewrite Heof, app_nil_r in Hrest by done.
      rewrite <-Hrest, !length_app, length_phys in H7. lia. }
    destruct (refill r pos _ Hinv H7 He) as (Hpad & r1 & Hinv1 & Hb1 & Hrep & _ & Hloop).
    rewrite Hloop.
    apply app_inj_1 in Hrest as [_ Hfile]; [|rewrite length_replicate; lia].
    rewrite <-Hfile in Hinv1. apply Hparse; [done| |done].
    rewrite Hb1, length_take, <-Hfile, length_app, length_phys.
    pose proof (Z.mod_pos_bound (pos + padlen pos) kBlockSize). unfold kBlockSize in *. lia.
Qed.

Lemma ReadPhysicalRecord_cut r pos t d rest more res :
  rinv r pos rest -> rest ++ more = replicate (Z.to_nat (padlen pos)) 0 ++ phys t d -> more <> [] ->
  phys_fits pos t d ->
  exists r', ReadPhysicalRecord le ptr res r = Some (kEof, res, r') /\ reports r' = reports r.
Proof.
  intros Hinv Hcut Hmore (Ht & Hb & Hfit). pose proof Hinv as [Hrest _ _ _ _ _ [Hp _]].
  assert (Hml : 0 < zlen more) by (destruct more; simpl; [done|lia]).
  pose proof (Z.mod_pos_bound (pos + padlen pos) kBlockSize ltac:(done)) as Hmb.
  assert (Hd : zlen d < 65536) by (unfold kBlockSize in *; lia).
  (* the last block: the header is cut, or the payload is *)
  assert (Hlast : forall fuel r1, eof_ r1 = true -> reports r1 = reports r ->
    (7 <= zlen (buffer_ r1) -> buffer_ r1 ++ more = phys t d) ->
    exists r', ReadPhysicalRecord_loop le ptr (S fuel) res r1 = Some (kEof, res, r') /\
      reports r' = reports r).
  { intros fuel r1 He Hrep Hcut1. exists (set_buffer [] r1). split; [|done].
    cbn [ReadPhysicalRecord_loop]. destruct (Z.ltb_spec (zlen (buffer_ r1)) kHeaderSize) as [|H7].
    - by rewrite He.
    - unfold kHeaderSize in H7. rewrite (parse_physical_cut r1 t d more) by (done || lia || auto). done. }
  unfold ReadPhysicalRecord. destruct (eof_ r) eqn:He.
  { apply Hlast; [done|done|]. intros H7. pose proof (rinv_buffer_7 _ _ _ Hinv H7) as Hpad.
    destruct Hinv as [_ _ Heof _ _ _ _]. rewrite Heof, app_nil_r in Hrest by done.
    by rewrite Hpad, Hrest in Hcut. }
  destruct (Z.le_gt_cases 7 (zlen (buffer_ r))) as [H7|H7].
  { pose proof (rinv_buffer_7 _ _ _ Hinv H7) as Hpad. rewrite Hpad, Z.add_0_r in *.
    destruct Hinv as [_ _ _ Hblk Hin _ _]. specialize (Hblk He).
    apply (f_equal length) in Hcut. rewrite Hrest in Hcut. simpl in Hcut.
    rewrite !length_app, length_phys in Hcut. exfalso. unfold kBlockSize in *. zdiv_lia. }
  destruct (refill r pos _ Hinv H7 He) as (Hpad & r1 & Hinv1 & Hb1 & Hrep & He1 & Hloop).
  rewrite Hloop. rewrite Hrest, <-app_assoc in Hcut.
  apply app_inj_1 in Hcut as [_ Hfile]; [|rewrite length_replicate; lia].
  assert (Hlf : zlen (file_ r) < kBlockSize).
  { pose proof (f_equal length Hfile) as E. rewrite length_app, length_phys in E. lia. }
  rewrite take_ge in Hb1 by (unfold kBlockSize in *; lia).
  apply Hlast; [|done|by rewrite Hb1]. rewrite He1, Hb1. apply Z.ltb_lt. lia.
Qed.

(** ** Records *)
Lemma phys_stream_pos_split pos t d ps rest :
  phys_stream pos ((t, d) :: ps) ++ rest =
  replicate (Z.to_nat (padlen pos)) 0 ++ phys t d ++
  phys_stream (pos + padlen pos + 7 + zlen d) ps ++ rest.
Proof. simpl. by rewrite <-!app_assoc. Qed.

Lemma rinv_set_last r pos rest o : rinv r pos rest -> 0 <= o -> rinv (set_last_record o r) pos rest.
Proof. intros [? ? ? ? ? (? & ? & ?) ?] Ho. by split. Qed.

Lemma rinv_offset r pos rest :
  rinv r pos rest -> wrap 64 (end_of_buffer_offset_ r - zlen (buffer_ r)) = pos.
Proof. intros [? -> ? ? ? ? [? ?]]. rewrite Z.add_simpl_r. apply Z.mod_small. lia. Qed.

Lemma ReadRecord_loop_full b data ps :
  frags b data ps -> forall fuel r pos rest scratch fragment p,
  rinv r pos (phys_stream pos ps ++ rest) -> stream_fits pos ps -> (length ps <= fuel)%nat -> 0 <= p ->
  exists r', ReadRecord_loop le ptr fuel scratch fragment (negb b) p r =
      Some (true, (if b then [] else scratch) ++ data, r') /\
    rinv r' (pos + zlen (phys_stream pos ps)) rest /\ reports r' = reports r /\
    LastRecordOffset r' = if b then pos else p.
Proof using Hptr.
  induction 1 as [b d|b d1 d2 ps Hfr IH]; intros fuel r pos rest scratch fragment p Hinv Hfit Hfuel Hp0;
    (destruct fuel as [|fuel]; [simpl in Hfuel; lia|]); pose proof (rinv_pos _ _ _ Hinv) as [Hp _];
    pose proof (rinv_offset _ _ _ Hinv) as Hoff;
    rewrite phys_stream_pos_split in Hinv; destruct Hfit as [Hf1 Hf2];
    destruct (ReadPhysicalRecord_full r pos _ _ _ fragment Hinv Hf1) as (r1 & Hread & Hinv1 & Hrep);
    cbn [ReadRecord_loop]; rewrite Hread, Hoff; cbn [mbind option_bind];
    pose proof (rinv_start _ _ _ Hinv1) as (_ & -> & _); simpl andb; cbv iota;
    rewrite length_phys_stream_cons by done.
  - replace (pos + _) with (pos + padlen pos + 7 + zlen d) by (simpl; lia).
    destruct b; simpl; (eexists; split; [done|]); (split; [by apply rinv_set_last|done]).
  - replace (pos + (_ + _)) with (pos + padlen pos + 7 + zlen d1 +
      zlen (phys_stream (pos + padlen pos + 7 + zlen d1) ps)) by lia.
    assert (Hfuel' : (length ps <= fuel)%nat) by (simpl in Hfuel; lia).
    destruct b; simpl.
    + destruct (IH fuel r1 _ _ d1 d1 pos Hinv1 Hf2 Hfuel' Hp) as (r' & E & ? & ? & ?).
      simpl in E. rewrite E.       exists r'. split_and!; [done|done|congruence|done].
    + destruct (IH fuel r1 _ _ (scratch ++ d1) d1 p Hinv1 Hf2 Hfuel' Hp0) as (r' & E & ? & ? & ?).
      simpl in E. rewrite E.       exists r'. rewrite <-app_assoc. split_and!; [done|done|congruence|done].
Qed.

Lemma ReadRecord_loop_eof fuel r r1 scratch fragment f in_frag p :
  ReadPhysicalRecord le ptr fragment r = Some (kEof, f, r1) ->
  exists r', ReadRecord_loop le ptr (S fuel) scratch fragment in_frag p r = Some (false, [], r') /\
    reports r' = reports r1.
Proof.
  intros Hread. cbn [ReadRecord_loop]. rewrite Hread. cbn [mbind option_bind]. rewrite !andb_false_r.
  exists (if resyncing_ r1 then set_resyncing false r1 else r1). split; [done|by destruct (resyncing_ r1)].
Qed.

Lemma ReadRecord_loop_cut b data ps :
  frags b data ps -> forall fuel r pos rest more scratch fragment p,
  rinv r pos rest -> rest ++ more = phys_stream pos ps -> more <> [] ->
  stream_fits pos ps -> (length rest < fuel)%nat ->
  exists r', ReadRecord_loop le ptr fuel scratch fragment (negb b) p r = Some (false, [], r') /\
    reports r' = reports r.
Proof using Hptr.
  induction 1 as [b d|b d1 d2 ps Hfr IH]; intros fuel r pos rest more scratch fragment p Hinv Hcut Hmore Hfit Hfuel;
    (destruct fuel as [|fuel]; [lia|]); destruct Hfit as [Hf1 Hf2].
  - simpl in Hcut. rewrite app_nil_r in Hcut.
    destruct (ReadPhysicalRecord_cut r pos _ _ _ _ fragment Hinv Hcut Hmore Hf1) as (r1 & Hread & Hrep).
    rewrite <-Hrep. by eapply ReadRecord_loop_eof.
  - set (t := if b then kFirstType else kMiddleType) in *. simpl in Hcut. rewrite app_assoc in Hcut.
    set (unit := replicate _ 0 ++ phys t d1) in *.
    destruct (decide (length unit <= length rest)%nat) as [Hle|Hgt].
    + apply app_split_le in Hcut as (rest' & -> & Hcut); [|done]. unfold unit in Hinv.
      rewrite <-app_assoc in Hinv.
      destruct (ReadPhysicalRecord_full r pos _ _ _ fragment Hinv Hf1) as (r1 & Hread & Hinv1 & Hrep).
      assert (Hfuel' : (length rest' < fuel)%nat).
      { unfold unit in Hfuel. rewrite !length_app, length_phys in Hfuel. lia. }
      cbn [ReadRecord_loop]. rewrite Hread. cbn [mbind option_bind].
      pose proof (rinv_start _ _ _ Hinv1) as (_ & -> & _). simpl andb. cbv iota.
      rewrite <-Hrep. subst t. destruct b; simpl;
        apply (IH fuel r1 (pos + padlen pos + 7 + zlen d1) rest' more); done.
    + symmetry in Hcut. apply app_split_le in Hcut as (more1 & E1 & E2); [|lia].
      assert (Hm1 : more1 <> []).
      { intros ->. rewrite app_nil_r in E1. rewrite <-E1 in Hgt. lia. }
      destruct (ReadPhysicalRecord_cut r pos t d1 rest more1 fragment Hinv) as (r1 & Hread & Hrep);
        [done|done|done|].
      rewrite <-Hrep. by eapply ReadRecord_loop_eof.
Qed.

(** ** Whole logs

    An event of the life of a log: the process may restart, reopening the file
    at its end, before it adds a record. *)
Definition reopen (restart : bool) (w : Writer (list Z)) : option (Writer (list Z)) :=
  if restart then new_Writer_at le ptr (dest_ w) (zlen (dest_ w)) else Some w.

Fixpoint write_log (evs : list (bool * list Z)) (w : Writer (list Z)) : option (Code * Writer (list Z)) :=
  match evs with
  | [] => Some (kOk, w)
  | (restart, record) :: evs =>
    w ← reopen restart w;
    '(s, w) ← AddRecord le ptr w record;
    if Status_ok s then write_log evs w else Some (s, w)
  end.

Lemma new_Writer_at_spec f :
  exists w, new_Writer_at le ptr f (zlen f) = Some w /\ winv w f.
Proof using Hptr.
  unfold new_Writer_at. rewrite InitTypeCrc_spec. cbn [mbind option_bind]. eexists. split; [done|].
  assert (0 <= zlen f mod kBlockSize < kBlockSize) by (by apply Z.mod_pos_bound).
  unfold winv. simpl. split_and!; try done; try lia. by rewrite Z.mod_mod.
Qed.

Lemma reopen_spec restart w f : winv w f -> exists w', reopen restart w = Some w' /\ winv w' f.
Proof using Hptr.
  intros Hw. unfold reopen. destruct restart; [|eauto].
  rewrite (proj1 Hw). apply new_Writer_at_spec.
Qed.

Lemma write_log_grows evs w f :
  winv w f -> Forall (Forall is_byte) evs.*2 ->
  exists w' b, write_log evs w = Some (kOk, w') /\ winv w' (f ++ b).
Proof using Hptr.
  revert w f. induction evs as [|[restart d] evs IH]; intros w f Hw Hb; simpl.
  { exists w, []. by rewrite app_nil_r. }
  inversion Hb; subst. destruct (reopen_spec restart w f Hw) as (w0 & -> & Hw0). cbn [mbind option_bind].
  destruct (AddRecord_spec w0 f d Hw0) as (w1 & ps & -> & Hw1 & _); [done|]. cbn [mbind option_bind]. simpl.
  destruct (IH w1 _ Hw1) as (w' & b & -> & Hw'); [done|].
  exists w', (phys_stream (zlen f) ps ++ b). by rewrite app_assoc.
Qed.

Lemma ReadRecord_rinv r pos rest :
  rinv r pos rest -> ReadRecord le ptr r = ReadRecord_loop le ptr (length rest + 2) [] [] false 0 r.
Proof.
  intros [-> _ _ _ _ (Hi & _ & Hl) _]. unfold ReadRecord. rewrite Hi, (proj2 (Z.ltb_ge _ _)) by done.
  simpl. by rewrite length_app.
Qed.

Lemma phys_stream_length ps pos : (length ps <= length (phys_stream pos ps))%nat.
Proof.
  revert pos. induction ps as [|[t d] ps IH]; intros pos; simpl; [lia|].
  rewrite !length_app, length_phys. specialize (IH (pos + padlen pos + 7 + zlen d)). lia.
Qed.

Lemma ReadRecord_full r pos d ps rest :
  frags true d ps -> stream_fits pos ps -> rinv r pos (phys_stream pos ps ++ rest) ->
  exists r', ReadRecord le ptr r = Some (true, d, r') /\
    rinv r' (pos + zlen (phys_stream pos ps)) rest /\ reports r' = reports r /\ LastRecordOffset r' = pos.
Proof using Hptr.
  intros Hfr Hfit Hinv. rewrite (ReadRecord_rinv _ _ _ Hinv). pose proof (phys_stream_length ps pos).
  apply (ReadRecord_loop_full true d ps Hfr); [done|done| |done]. rewrite length_app. lia.
Qed.

Lemma ReadRecord_cut r pos d ps rest more :
  frags true d ps -> stream_fits pos ps -> rinv r pos rest -> rest ++ more = phys_stream pos ps ->
  more <> [] -> exists r', ReadRecord le ptr r = Some (false, [], r') /\ reports r' = reports r.
Proof using Hptr.
  intros Hfr Hfit Hinv Hcut Hmore. rewrite (ReadRecord_rinv _ _ _ Hinv).
  apply (ReadRecord_loop_cut true d ps Hfr _ _ pos rest more); try done. lia.
Qed.

Lemma ReadRecord_empty r pos :
  rinv r pos [] -> exists r', ReadRecord le ptr r = Some (false, [], r') /\ reports r' = reports r.
Proof using Hptr.
  intros Hinv. pose proof (rinv_pos _ _ _ Hinv) as [Hp _].
  apply (ReadRecord_cut r pos [] [(kFullType, [])] [] (phys_stream pos [(kFullType, [])]));
    [apply (frags_end true)| |done|done|].
  - split; [|done]. split_and!; [done|done|constructor|].
    pose proof (padlen_spec pos Hp) as [_ [[-> ?]|[_ ->]]]; rewrite ?Z.add_0_r; simpl; [lia|done].
  - intros E. apply (f_equal length) in E. simpl in E. rewrite !length_app, length_phys in E. simpl in E. lia.
Qed.

End roundtrip.

(** Writer and reader may run on hosts of different byte orders. *)
Section whole_log.
Context (le le' : bool) (ptr ptr' : list Z -> Z).
Hypothesis Hptr : forall s, 0 <= ptr s /\ ptr s + 3 < 2 ^ 64.
Hypothesis Hptr' : forall s, 0 <= ptr' s /\ ptr' s + 3 < 2 ^ 64.

(** The reader returns [records], reports nothing, and is at the end. *)
Fixpoint quiet_reads (records : list (list Z)) (r : Reader (list Z)) : Prop :=
  match records with
  | [] => exists r', ReadRecord le' ptr' r = Some (false, [], r') /\ reports r' = reports r
  | d :: records =>
    exists r', ReadRecord le' ptr' r = Some (true, d, r') /\ reports r' = reports r /\ quiet_reads records r'
  end.

Lemma quiet_reads_all records : forall fuel r,
  quiet_reads records r -> (length records < fuel)%nat ->
  exists r', read_all le' ptr' fuel r = Some (records, r') /\ reports r' = reports r.
Proof.
  induction records as [|d records IH]; intros [|fuel] r Hq Hf; simpl in Hf; try lia; simpl.
  - destruct Hq as (r' & -> & Hrep). exists r'. done.
  - destruct Hq as (r1 & -> & Hrep & Hq). cbn [mbind option_bind]. simpl.
    destruct (IH fuel r1 Hq) as (r' & -> & Hrep'); [lia|]. exists r'. split; [done|congruence].
Qed.

(** The reader of a log cut after [n] octets, from the place where the writer
    [w] started: it returns the records that end before the cut. *)
Lemma log_read_prefix evs w f :
  winv w f -> Forall (Forall is_byte) evs.*2 ->
  exists w' bytes, write_log le ptr evs w = Some (kOk, w') /\ winv w' (f ++ bytes) /\
  forall r n, rinv r (zlen f) (take n bytes) ->
  exists k, (k <= length evs)%nat /\ (k <= length (take n bytes))%nat /\ quiet_reads (take k (evs.*2)) r /\
    forall j, (j <= length evs)%nat -> exists wj, write_log le ptr (take j evs) w = Some (kOk, wj) /\
      ((length (dest_ wj) <= length f + n)%nat <-> (j <= k)%nat).
Proof using Hptr Hptr'.
  revert w f. induction evs as [|[restart d] evs IH]; intros w f Hw Hb.
  { exists w, []. rewrite app_nil_r. split_and!; [done|done|]. intros r n Hinv.
    rewrite take_nil in Hinv. exists 0%nat.
    split_and!; [lia|lia|by apply (ReadRecord_empty le' ptr' Hptr' r _ Hinv)|].
    intros j Hj. simpl in Hj. rewrite take_nil. exists w. split; [done|]. rewrite (proj1 Hw). lia. }
  inversion Hb; subst. destruct (reopen_spec le ptr Hptr restart w f Hw) as (w0 & Hre & Hw0).
  destruct (AddRecord_spec le ptr Hptr w0 f d Hw0) as (w1 & ps & Hadd & Hw1 & Hfit & Hfr); [done|].
  assert (Hstep : forall evs, write_log le ptr ((restart, d) :: evs) w = write_log le ptr evs w1).
  { intros evs'. simpl. rewrite Hre. cbn [mbind option_bind]. rewrite Hadd. done. }
  set (bs := phys_stream (zlen f) ps) in *.
  destruct (IH w1 _ Hw1) as (w' & bytes & Hwl & Hw' & Hrd); [done|].
  exists w', (bs ++ bytes). rewrite Hstep, app_assoc. split_and!; [done|done|].
  intros r n Hinv.
  rewrite length_app in Hrd.
  destruct (decide (n < length bs)%nat) as [Hlt|Hge].
  - rewrite take_app_le in Hinv by lia.
    destruct (ReadRecord_cut le' ptr' Hptr' r (zlen f) d ps (take n bs) (drop n bs)) as (r' & Hread & Hrep);
      [done|done|done|apply take_drop| |].
    { intros E. apply (f_equal length) in E. rewrite length_drop in E. simpl in E. lia. }
    exists 0%nat. split_and!; [lia|lia|by exists r'|]. intros [|j] Hj.
    + exists w. split; [done|]. rewrite (proj1 Hw). lia.
    + rewrite firstn_cons, Hstep.
      destruct (write_log_grows le ptr Hptr (take j evs) w1 _ Hw1) as (wj & b & -> & Hwj).
      { rewrite fmap_take. by apply Forall_take. }
      exists wj. split; [done|]. rewrite (proj1 Hwj), !length_app. lia.
  - rewrite take_app_ge in Hinv by lia.
    destruct (ReadRecord_full le' ptr' Hptr' r (zlen f) d ps _ Hfr Hfit Hinv) as (r1 & Hread & Hinv1 & Hrep & _).
    destruct (Hrd r1 (n - length bs)%nat) as (k & Hk & Hk' & Hq & Hj).
    { by rewrite Nat2Z.inj_add. }
    assert (Hbs1 : (1 <= length bs)%nat).
    { pose proof (phys_stream_length ps (zlen f)) as Hpl. fold bs in Hpl.
      assert (1 <= length ps)%nat by (destruct Hfr; simpl; lia). lia. }
    exists (S k). split_and!; [simpl; lia| |by exists r1|].
    { rewrite length_take in *. rewrite length_app. lia. }
    clear Hk'. intros [|j] Hjl.
    + exists w. split; [done|]. rewrite (proj1 Hw). lia.
    + destruct (Hj j) as (wj & Hwj & Hiff); [simpl in Hjl; lia|]. exists wj.
      rewrite firstn_cons, Hstep. split; [done|]. rewrite <-Nat.succ_le_mono, <-Hiff. lia.
Qed.
End whole_log.


Lemma new_Reader_rinv (f : list Z) checksum :
  zlen f < 2 ^ 64 -> rinv (new_Reader f true checksum 0) 0 f.
Proof. intros Hf. split; simpl; try done; lia. Qed.

Lemma new_Writer_spec le ptr : addresses ptr -> exists w, new_Writer le ptr [] = Some w /\ winv w [].
Proof. intros Hp. apply (new_Writer_at_spec le ptr Hp []). Qed.

(** C6 (log_crash_safe) Take any history of a log in which records are added
    and the file is reopened at its end, and cut the file after any number of
    octets, as a crash may.  Then the reader returns, in order and unchanged,
    exactly the records whose last octet is before the cut, and reports no
    corruption; with or without checksums, and on a host of either byte order. *)
Theorem log_crash_safe le le' ptr ptr' evs n checksum :
  addresses ptr -> addresses ptr' -> Forall (Forall is_byte) evs.*2 -> Z.of_nat n < 2 ^ 64 ->
  exists w w', new_Writer le ptr [] = Some w /\ write_log le ptr evs w = Some (kOk, w') /\
  exists k r, read_all le' ptr' (S (length evs)) (new_Reader (take n (dest_ w')) true checksum 0)
              = Some (take k (evs.*2), r) /\ (k <= length evs)%nat /\ reports r = Some [] /\
    forall j, (j <= length evs)%nat -> exists wj, write_log le ptr (take j evs) w = Some (kOk, wj) /\
      ((length (dest_ wj) <= n)%nat <-> (j <= k)%nat).
Proof.
  intros Hp Hp' Hb Hn. destruct (new_Writer_spec le ptr Hp) as (w & Hnew & Hw).
  destruct (log_read_prefix le le' ptr ptr' Hp Hp' evs w [] Hw Hb) as (w' & bytes & Hwl & Hw' & Hrd).
  exists w, w'. split_and!; [done|done|]. rewrite (proj1 Hw').
  destruct (Hrd (new_Reader (take n bytes) true checksum 0) n) as (k & Hk & _ & Hq & Hj).
  { apply new_Reader_rinv. rewrite length_take. lia. }
  destruct (quiet_reads_all le' ptr' _ (S (length evs)) _ Hq) as (r & Hr & Hrep).
  { rewrite length_take, length_fmap. lia. }
  exists k, r. done.
Qed.

Lemma log_crash_safe_witness :
  exists w w', new_Writer true (fun _ => 8) [] = Some w /\
    write_log true (fun _ => 8) [(false, [1; 2; 3]); (true, [4])] w = Some (kOk, w') /\
  exists k r, read_all false (fun _ => 9) 3 (new_Reader (take 12 (dest_ w')) true true 0)
              = Some (take k [[1; 2; 3]; [4]], r) /\ (k <= 2)%nat /\ reports r = Some [] /\
    forall j, (j <= 2)%nat -> exists wj,
      write_log true (fun _ => 8) (take j [(false, [1; 2; 3]); (true, [4])]) w = Some (kOk, wj) /\
      ((length (dest_ wj) <= 12)%nat <-> (j <= k)%nat).
Proof.
  apply (log_crash_safe true false (fun _ => 8) (fun _ => 9) [(false, [1; 2; 3]); (true, [4])] 12 true);
    [intros ?; lia|intros ?; lia| |lia].
  simpl. repeat constructor; lia.
Defined.

(** ** The reader on arbitrary files *)
Section safety.
Context (le : bool) (ptr : list Z -> Z) {F : Type} `{!SequentialFile F}.
Hypothesis Hptr : addresses ptr.
Implicit Types (r : Reader F).

Definition left_ r : nat := length (buffer_ r) + if eof_ r then 0 else length (contents (file_ r)).
Definition octets r : Prop :=
  Forall is_byte (buffer_ r) /\ (eof_ r = false -> Forall is_byte (contents (file_ r))).

(** What [ReadPhysicalRecord] promises. *)
Definition progress r (res : option (Z * list Z * Reader F)) : Prop :=
  exists t f r', res = Some (t, f, r') /\ octets r' /\ (left_ r' <= left_ r)%nat /\
    (t = kEof \/ (left_ r' < left_ r)%nat) /\
    (1 <= t <= 4 -> Forall is_byte f /\ (length f + left_ r' + 7 <= left_ r)%nat).

Lemma ReportDrop_frame n c r :
  let r' := ReportDrop n c r in
  file_ r' = file_ r /\ buffer_ r' = buffer_ r /\ eof_ r' = eof_ r /\
  initial_offset_ r' = initial_offset_ r /\ last_record_offset_ r' = last_record_offset_ r /\
  resyncing_ r' = resyncing_ r.
Proof. unfold ReportDrop. destruct (reports r); [|done]. by destruct (_ <=? _). Qed.

Lemma octets_eq r r' :
  file_ r' = file_ r -> buffer_ r' = buffer_ r -> eof_ r' = eof_ r -> octets r -> octets r'.
Proof. unfold octets. by intros -> -> ->. Qed.
Lemma left_eq r r' :
  file_ r' = file_ r -> buffer_ r' = buffer_ r -> eof_ r' = eof_ r -> left_ r' = left_ r.
Proof. unfold left_. by intros -> -> ->. Qed.

Lemma progress_special r r1 t f :
  t = kEof \/ t = kBadRecord -> octets r1 -> (left_ r1 < left_ r)%nat -> progress r (Some (t, f, r1)).
Proof.
  intros Ht Ho Hl. exists t, f, r1. split_and!; [done|done|lia|auto|].
  unfold kEof, kBadRecord, kMaxRecordType, kLastType in Ht. lia.
Qed.

Lemma progress_eof r r1 f : octets r1 -> (left_ r1 <= left_ r)%nat -> progress r (Some (kEof, f, r1)).
Proof.
  intros Ho Hl. exists kEof, f, r1. split_and!; [done..|by left|].
  unfold kEof, kMaxRecordType, kLastType. lia.
Qed.

Lemma octets_report n c r : octets r -> octets (ReportDrop n c r) /\ left_ (ReportDrop n c r) = left_ r.
Proof.
  intros Ho. destruct (ReportDrop_frame n c r) as (? & ? & ? & _).
  split; [by eapply octets_eq|by apply left_eq].
Qed.

Lemma checksum_safe r n :
  octets r -> 0 <= n -> 7 + n <= zlen (buffer_ r) ->
  exists mm, (if checksum_ r then
                stored ← DecodeFixed32 le (buffer_ r);
                payload ← rd_bytes (buffer_ r) 6 (1 + n);
                actual_crc ← Value le (ptr payload) payload;
                Some (negb (actual_crc =? Unmask stored))
              else Some false) = Some mm.
Proof using Hptr.
  intros [Hb _] Hn Hl. destruct (checksum_ r); [|eauto].
  destruct (DecodeFixed32_total le (buffer_ r)) as [st ->]; [lia|]. cbn [mbind option_bind].
  unfold rd_bytes. rewrite bool_decide_true by lia. cbn [mbind option_bind].
  rewrite Value_spec by (done || by apply Forall_take, Forall_drop). eauto.
Qed.

Lemma parse_physical_safe r res :
  octets r -> 7 <= zlen (buffer_ r) -> progress r (parse_physical le ptr res r).
Proof using Hptr.
  intros [Hb Hc] H7. unfold parse_physical.
  destruct (rd_Some (buffer_ r) 4) as [b4 E4]; [lia|]. destruct (rd_Some (buffer_ r) 5) as [b5 E5]; [lia|].
  destruct (rd_Some (buffer_ r) 6) as [b6 E6]; [lia|]. rewrite E4, E5, E6. cbn [mbind option_bind].
  set (n := Z.lor _ _). assert (Hn : 0 <= n).
  { subst n. apply Z.lor_nonneg. rewrite !land_255. split; [apply Z.mod_pos_bound; lia|].
    apply Z.shiftl_nonneg, Z.mod_pos_bound. lia. }
  clearbody n. set (t := wrap 32 _). clearbody t. change kHeaderSize with 7.
  assert (Hempty : octets (set_buffer [] r) /\ (left_ (set_buffer [] r) < left_ r)%nat).
  { split; [split; [constructor|done]|]. unfold left_. simpl. lia. }
  destruct Hempty as [Hoe Hle].
  assert (Hbad : forall k, progress r (Some (kBadRecord, res, ReportCorruption k (set_buffer [] r)))).
  { intros k. destruct (octets_report k kCorruption _ Hoe) as [? E].
    apply progress_special; [auto|done|]. unfold ReportCorruption. by rewrite E. }
  destruct (Z.ltb_spec (zlen (buffer_ r)) (7 + n)) as [Hshort|Hlong].
  { destruct (negb _); [apply Hbad|]. apply progress_special; auto. }
  destruct (_ && _); [apply progress_special; auto|].
  destruct (checksum_safe r n (conj Hb Hc) Hn Hlong) as [mm ->]. cbn [mbind option_bind].
  destruct mm; [apply Hbad|]. set (r1 := set_buffer (drop _ _) r).
  assert (Ho1 : octets r1) by (split; [by apply Forall_drop|done]).
  assert (Hl1 : (left_ r1 + 7 + Z.to_nat n = left_ r)%nat).
  { unfold left_, r1. simpl. rewrite length_drop. lia. }
  destruct (_ <? _); [apply progress_special; [auto|done|lia]|].
  unfold rd_bytes. rewrite bool_decide_true by lia. cbn [mbind option_bind].
  do 3 eexists. split; [done|]. split_and!; [apply Ho1|lia|right; lia|].
  intros _. split; [by apply Forall_take, Forall_drop|]. rewrite length_take. lia.
Qed.

Lemma ReadPhysicalRecord_safe r res : octets r -> progress r (ReadPhysicalRecord le ptr res r).
Proof using Hptr.
  intros Ho. unfold ReadPhysicalRecord.
  assert (Heof : forall fuel r1, octets r1 -> eof_ r1 = true -> (left_ r1 <= left_ r)%nat ->
            progress r (ReadPhysicalRecord_loop le ptr (S fuel) res r1)).
  { intros fuel r1 Ho1 He Hl. cbn [ReadPhysicalRecord_loop].
    destruct (Z.ltb_spec (zlen (buffer_ r1)) kHeaderSize) as [|H7].
    - rewrite He. destruct Ho1 as [? Hc1].
      apply progress_eof; [split; [by apply Forall_nil|done]|unfold left_ in *; simpl; lia].
    - destruct (parse_physical_safe r1 res Ho1 H7) as (t & f & r' & -> & ? & ? & Hd & Hf).
      exists t, f, r'. split_and!; [done|done|lia|destruct Hd; [by left|right; lia]|].
      intros Ht. destruct (Hf Ht). split; [done|lia]. }
  destruct (eof_ r) eqn:He; [by apply (Heof 2%nat)|]. set (m := 2%nat). cbn [ReadPhysicalRecord_loop].
  destruct (Z.ltb_spec (zlen (buffer_ r)) kHeaderSize) as [|H7]; [|by apply parse_physical_safe].
  rewrite He. simpl negb. cbv iota.
  destruct (Read kBlockSize (file_ r)) as [[s b] f] eqn:Hrd.
  destruct (Status_ok s) eqn:Hs; simpl negb; cbv iota.
  - destruct (Read_spec _ _ _ _ _ Hrd Hs) as [Hbs Hf]. destruct Ho as [Hb Hc]. specialize (Hc He).
    set (r1 := set_file f b _ r).
    assert (Ho1 : Forall is_byte b /\ Forall is_byte (contents f)).
    { rewrite Hbs, Hf. split; [by apply Forall_take|by apply Forall_drop]. }
    assert (Hl1 : (length b + length (contents f) = length (contents (file_ r)))%nat).
    { rewrite Hbs, Hf, length_take, length_drop. lia. }
    destruct (Z.ltb_spec (zlen b) kBlockSize) as [Hlt|Hge].
    + apply (Heof 1%nat); [split; [apply Ho1|intros _; apply Ho1]|done|]. unfold left_. simpl. rewrite He. lia.
    + unfold m. cbn [ReadPhysicalRecord_loop].
      rewrite (proj2 (Z.ltb_ge _ _)) by (unfold kBlockSize, kHeaderSize in *; simpl; lia).
      destruct (parse_physical_safe r1 res) as (t & g & r' & -> & ? & ? & Hd & Hg);
        [split; [apply Ho1|intros _; apply Ho1]|unfold kBlockSize in *; simpl; lia|].
      assert (left_ r1 <= left_ r)%nat by (unfold left_; simpl; rewrite He; lia).
      exists t, g, r'. split_and!; [done|done|lia|destruct Hd; [by left|right; lia]|].
      intros Ht. destruct (Hg Ht). split; [done|lia].
  - destruct (ReportDrop_frame kBlockSize s (set_buffer [] (set_file f b
      (wrap 64 (end_of_buffer_offset_ r + zlen b)) r))) as (_ & Hbuf & _).
    apply progress_eof; [|unfold left_; simpl; rewrite Hbuf; simpl; lia].
    split; [simpl; rewrite Hbuf; by apply Forall_nil|done].
Qed.

(** What [ReadRecord] promises, from a scratch string of [n] octets. *)
Definition read_post (n : nat) r (res : option (bool * list Z * Reader F)) : Prop :=
  exists ok rec r', res = Some (ok, rec, r') /\
    (ok = true -> octets r' /\ Forall is_byte rec /\ (length rec + 7 + left_ r' <= n + left_ r)%nat).

Lemma read_post_mono n1 r1 n r res :
  read_post n1 r1 res -> (n1 + left_ r1 <= n + left_ r)%nat -> read_post n r res.
Proof.
  intros (ok & rec & r' & -> & H) Hle. exists ok, rec, r'. split; [done|]. intros Hok.
  destruct (H Hok) as (? & ? & ?). split_and!; [done..|lia].
Qed.

(** Reports and the resynchronisation flag do not matter. *)
Definition same_place r r1 : Prop :=
  file_ r1 = file_ r /\ buffer_ r1 = buffer_ r /\ eof_ r1 = eof_ r.
Lemma same_report n c r : same_place r (ReportDrop n c r).
Proof. destruct (ReportDrop_frame n c r) as (? & ? & ? & _). done. Qed.
Lemma same_trans r r1 r2 : same_place r r1 -> same_place r1 r2 -> same_place r r2.
Proof. unfold same_place. intros (-> & -> & ->). done. Qed.

Lemma ReadRecord_loop_safe fuel r scratch fragment in_frag p :
  octets r -> Forall is_byte scratch -> (left_ r < fuel)%nat ->
  read_post (length scratch) r (ReadRecord_loop le ptr fuel scratch fragment in_frag p r).
Proof using Hptr.
  revert r scratch fragment in_frag p.
  induction fuel as [|fuel IH]; intros r scratch fragment in_frag p Ho Hs Hf; [lia|].
  destruct (ReadPhysicalRecord_safe r fragment Ho) as (t & f & r1 & Hread & Ho1 & Hle & Hdec & Hdata).
  cbn [ReadRecord_loop]. rewrite Hread. cbn [mbind option_bind].
  (* going around again from the same place with another scratch string *)
  assert (Hagain : forall r2 scratch' in_frag' p', same_place r1 r2 -> (left_ r1 < left_ r)%nat ->
    Forall is_byte scratch' -> (length scratch' + left_ r1 <= length scratch + left_ r)%nat ->
    read_post (length scratch) r (ReadRecord_loop le ptr fuel scratch' f in_frag' p' r2)).
  { intros r2 sc ifr p' (E1 & E2 & E3) Hlt Hsc Hb. pose proof (left_eq _ _ E1 E2 E3) as El.
    eapply read_post_mono; [apply IH|]; [by eapply octets_eq|done|lia|lia]. }
  assert (Hret : forall r2 rec, same_place r1 r2 -> Forall is_byte rec ->
    (length rec + 7 + left_ r1 <= length scratch + left_ r)%nat ->
    read_post (length scratch) r (Some (true, rec, r2))).
  { intros r2 rec (E1 & E2 & E3) Hrec Hb. pose proof (left_eq _ _ E1 E2 E3) as El.
    exists true, rec, r2. split; [done|]. intros _. split_and!; [by eapply octets_eq|done|lia]. }
  unfold kFullType, kFirstType, kMiddleType, kLastType in *.
  assert (Hlt : t <> kEof -> (left_ r1 < left_ r)%nat) by (by destruct Hdec).
  assert (Hk : kEof = 5) by done. rewrite Hk in Hlt. clear Hdec.
  destruct (resyncing_ r1 && (t =? 3)) eqn:E3.
  { apply andb_true_iff in E3 as [_ ->%Z.eqb_eq]. apply Hagain; [done|by apply Hlt|done|lia]. }
  destruct (resyncing_ r1 && (t =? 4)) eqn:E4.
  { apply andb_true_iff in E4 as [_ ->%Z.eqb_eq]. apply Hagain; [done|by apply Hlt|done|lia]. }
  set (r2 := if resyncing_ r1 then set_resyncing false r1 else r1).
  assert (H2 : same_place r1 r2) by (subst r2; by destruct (resyncing_ r1)). clearbody r2.
  set (r3 := if in_frag && _ then _ else r2).
  assert (H3 : same_place r1 r3).
  { subst r3. destruct (in_frag && _); [|done]. apply (same_trans _ _ _ H2), same_report. }
  assert (Hrep : forall n, same_place r1 (ReportCorruption n r2)).
  { intros n. apply (same_trans _ _ _ H2), same_report. }
  clearbody r3.
  destruct (Z.eqb_spec t 1) as [->|H1].
  { destruct Hdata as [? ?]; [lia|]. apply Hret; [|done|lia]. by destruct H3 as (? & ? & ?). }
  destruct (Z.eqb_spec t 2) as [->|Ht2].
  { destruct Hdata as [? ?]; [lia|]. apply Hagain; [done|lia|done|lia]. }
  destruct (Z.eqb_spec t 3) as [->|Ht3].
  { destruct Hdata as [? ?]; [lia|]. destruct (negb in_frag); apply Hagain; auto with lia.
    - by apply Forall_app.
    - rewrite length_app. lia. }
  destruct (Z.eqb_spec t 4) as [->|Ht4].
  { destruct Hdata as [? ?]; [lia|]. destruct (negb in_frag); [apply Hagain; auto with lia|].
    apply Hret; [|by apply Forall_app|rewrite length_app; lia]. by destruct H2 as (? & ? & ?). }
  rewrite Hk. destruct (Z.eqb_spec t 5) as [->|Ht5].
  { exists false, [], r2. split; [done|]. congruence. }
  assert (Hl0 : (left_ r1 < left_ r)%nat) by auto.
  destruct (t =? kBadRecord); [destruct in_frag|]; apply Hagain; auto with lia; simpl; lia.
Qed.

Lemma ReadRecord_safe r : octets r -> read_post 0 r (ReadRecord le ptr r).
Proof using Hptr.
  intros Ho. unfold ReadRecord.
  assert (Hgo : forall r1, octets r1 -> (left_ r1 <= left_ r)%nat ->
    read_post 0 r (ReadRecord_loop le ptr (length (buffer_ r1) + length (contents (file_ r1)) + 2)
                     [] [] false 0 r1)).
  { intros r1 Ho1 Hl. eapply read_post_mono; [apply ReadRecord_loop_safe; [done|constructor|]|simpl; lia].
    unfold left_. destruct (eof_ r1); lia. }
  destruct (_ <? _); [|simpl; by apply Hgo].
  unfold SkipToInitialBlock. set (loc := if kBlockSize - 6 <? _ then _ else _). clearbody loc.
  destruct (0 <? loc); [|by apply (Hgo (set_file (file_ r) (buffer_ r) loc r))].
  destruct (Skip loc _) as [s f] eqn:Hsk. destruct (Status_ok s) eqn:Hs; simpl.
  - pose proof (Skip_spec _ _ _ _ Hsk Hs) as Hc. simpl in Hc. destruct Ho as [Hb Hc0].
    apply (Hgo (set_file f (buffer_ r) loc _)); [split; [done|]|].
    + simpl. intros He. rewrite Hc. by apply Forall_drop, Hc0.
    + unfold left_. simpl. rewrite Hc, length_drop. destruct (eof_ r); lia.
  - do 3 eexists. split; [done|]. congruence.
Qed.

Lemma read_all_safe fuel r :
  octets r -> (left_ r < fuel)%nat ->
  exists records r', read_all le ptr fuel r = Some (records, r') /\ Forall (Forall is_byte) records /\
    zlen (concat records) + 7 * zlen records <= Z.of_nat (left_ r).
Proof using Hptr.
  revert r. induction fuel as [|fuel IH]; intros r Ho Hf; [lia|]. cbn [read_all].
  destruct (ReadRecord_safe r Ho) as ([|] & rec & r1 & -> & Hok); cbn [mbind option_bind]; simpl negb; cbv iota.
  - destruct (Hok eq_refl) as (Ho1 & Hb & Hl). destruct (IH r1) as (rs & r' & -> & ? & ?); [done|lia|].
    exists (rec :: rs), r'. split_and!; [done|by constructor|]. simpl. rewrite length_app. lia.
  - exists [], r1. split_and!; [done|constructor|simpl; lia].
Qed.
End safety.

(** C19 (log_reader_safe) On a file of arbitrary octets, with any starting
    offset, and whether reads and skips of the file succeed or fail, the
    reader terminates, stays inside its buffer and the checksum tables, and
    the records it returns are octets of the file: with a header for each they
    fit in it. *)
Theorem log_reader_safe le ptr {F} `{!SequentialFile F} (file : F) reporter checksum initial_offset :
  addresses ptr -> Forall is_byte (contents file) ->
  exists records r,
    read_all le ptr (S (length (contents file))) (new_Reader file reporter checksum initial_offset)
    = Some (records, r) /\ Forall (Forall is_byte) records /\
    zlen (concat records) + 7 * zlen records <= zlen (contents file).
Proof.
  intros Hp Hc.
  destruct (read_all_safe le ptr Hp (S (length (contents file)))
              (new_Reader file reporter checksum initial_offset)) as (rs & r & -> & ? & Hl);
    [split; [by apply Forall_nil|done]|unfold left_; simpl; lia|].
  exists rs, r. unfold left_ in Hl. simpl in Hl. done.
Qed.

Lemma log_reader_safe_witness :
  let file := [0; 0; 0; 0; 9; 9; 5; 1; 2] in
  exists records r,
    read_all true (fun _ => 0) (S (length (contents file))) (new_Reader file true false 3)
    = Some (records, r) /\ Forall (Forall is_byte) records /\
    zlen (concat records) + 7 * zlen records <= zlen (contents file).
Proof.
  apply (log_reader_safe true (fun _ => 0) [0; 0; 0; 0; 9; 9; 5; 1; 2] true false 3).
  - intros ?. lia.
  - simpl. repeat constructor; lia.
Defined.

(** ** Damage *)
Lemma parse_physical_damaged le ptr {F} (r : Reader F) c (d : list Z) body rest res :
  addresses ptr -> zlen d < 65536 -> length c = 4%nat -> Forall is_byte c -> Forall is_byte body ->
  length body = S (length d) -> Unmask (le_dec c) <> crc32c 0 body ->
  checksum_ r = true ->
  buffer_ r = c ++ [zlen d mod 256; zlen d / 256] ++ body ++ rest ->
  exists r', parse_physical le ptr res r = Some (kBadRecord, res, r') /\ buffer_ r' = [] /\
    (d <> [] -> r' = ReportDrop (zlen (buffer_ r)) kCorruption (set_buffer [] r)).
Proof.
  intros Hp Hd Hc Hcb Hbody Hlen Hcrc Hck Hbuf. unfold parse_physical.
  destruct c as [|c0 [|c1 [|c2 [|c3 [|]]]]]; try done. destruct body as [|b6 body]; [done|].
  assert (Hbl : zlen (buffer_ r) = 7 + zlen d + zlen rest).
  { rewrite Hbuf, !length_app. simpl in *. lia. }
  rewrite (rd_at _ [c0; c1; c2; c3] _ _ 4 Hbuf eq_refl).
  rewrite (rd_at _ [c0; c1; c2; c3; zlen d mod 256] _ _ 5 Hbuf eq_refl).
  rewrite (rd_at _ [c0; c1; c2; c3; zlen d mod 256; zlen d / 256] _ _ 6 Hbuf eq_refl).
  cbn [mbind option_bind]. rewrite header_length by lia. change kHeaderSize with 7.
  rewrite (proj2 (Z.ltb_ge _ _)) by lia.
  destruct (_ && _) eqn:Hz.
  { eexists. split_and!; [done|done|]. intros Hne. apply andb_true_iff in Hz as [_ Hz%Z.eqb_eq].
    destruct d; [done|]. simpl in Hz. lia. }
  rewrite Hck, Hbuf, DecodeFixed32_app by done. cbn [mbind option_bind].
  assert (Hpl : rd_bytes (buffer_ r) 6 (1 + zlen d) = Some (b6 :: body)).
  { rewrite Hbuf.
    apply (rd_bytes_app [c0; c1; c2; c3; zlen d mod 256; zlen d / 256] (b6 :: body) rest); [done|].
    rewrite Hlen. lia. }
  rewrite <-Hbuf, Hpl.
  cbn [mbind option_bind]. rewrite Value_spec by done. cbn [mbind option_bind].
  rewrite (proj2 (Z.eqb_neq _ _)) by auto. simpl. eexists. split_and!; [done|by apply ReportDrop_frame|].
  intros _. by rewrite Hbuf.
Qed.

(** C20 (log_damage_detected) Change up to four consecutive octets of a fragment
    in a log, within its type and its payload, not its checksum or length.  A
    call of [ReadPhysicalRecord] that finds it at the front of its buffer and
    verifies checksums does not return the fragment: it drops the rest of the
    block, and reports it if the payload is not empty (an empty fragment whose
    type was cleared looks like preallocated space). *)
Theorem log_damage_detected le le' ptr ptr' t d a b b' e :
  addresses ptr -> addresses ptr' -> 1 <= t <= 4 -> Forall is_byte d -> 7 + zlen d <= kBlockSize ->
  a ++ b ++ e = t :: d -> Forall is_byte b' -> length b = length b' -> (length b <= 4)%nat -> b <> b' ->
  exists w w' h, new_Writer le ptr [] = Some w /\ EmitPhysicalRecord le ptr w t d = Some (kOk, w') /\
    dest_ w' = h ++ a ++ b ++ e /\
    forall F (HF : SequentialFile F) (r : Reader F) rest res, checksum_ r = true ->
      buffer_ r = h ++ a ++ b' ++ e ++ rest ->
      exists r', ReadPhysicalRecord le' ptr' res r = Some (kBadRecord, res, r') /\ buffer_ r' = [] /\
        (d <> [] -> r' = ReportDrop (zlen (buffer_ r)) kCorruption (set_buffer [] r)).
Proof.
  intros Hp Hp' Ht Hd Hfit Hbody Hb' Hlen H4 Hne. destruct (new_Writer_spec le ptr Hp) as (w & Hnew & Hw).
  assert (Hbo : block_offset_ w = 0).
  { unfold new_Writer in Hnew. rewrite (InitTypeCrc_spec le ptr Hp) in Hnew. by simplify_eq/=. }
  destruct (EmitPhysicalRecord_spec le ptr Hp w [] t d Hw) as (w' & Hemit & Hw' & _);
    [rewrite Hbo; lia|done|done|].
  destruct (phys_split t d) as (c & Hc & Hcb & Hdec & Hphys).
  exists w, w', (c ++ [zlen d mod 256; zlen d / 256]). split_and!; [done|done| |].
  { rewrite (proj1 Hw'), Hbody, Hphys. by rewrite <-app_assoc. }
  intros F HF r rest res Hck Hbuf.
  assert (Hall : Forall is_byte (a ++ b ++ e)) by (rewrite Hbody; constructor; [unfold is_byte; lia|done]).
  assert (Hl : length (a ++ b' ++ e) = S (length d)).
  { apply (f_equal length) in Hbody. rewrite !length_app in *. simpl in Hbody. lia. }
  unfold ReadPhysicalRecord. cbn [ReadPhysicalRecord_loop].
  rewrite (proj2 (Z.ltb_ge _ _)).
  2:{ rewrite Hbuf. unfold kHeaderSize. rewrite !length_app in *. simpl. lia. }
  apply (parse_physical_damaged le' ptr' r c d (a ++ b' ++ e) rest res); try done.
  - unfold kBlockSize in Hfit. lia.
  - rewrite !Forall_app in *. naive_solver.
  - rewrite Hdec, Mask_wrap, <-Hbody, Unmask_Mask.
    + intros E. apply Hne. by apply crc32c_burst in E.
    + apply crc32c_fits; [done|unfold fits_unsigned; lia].
  - by rewrite Hbuf, <-!app_assoc.
Qed.

Lemma log_damage_detected_witness :
  exists w w' h, new_Writer true (fun _ => 8) [] = Some w /\
    EmitPhysicalRecord true (fun _ => 8) w 1 [7; 8; 9] = Some (kOk, w') /\ dest_ w' = h ++ [1; 7] ++ [8] ++ [9] /\
    forall F (HF : SequentialFile F) (r : Reader F) rest res, checksum_ r = true ->
      buffer_ r = h ++ [1; 7] ++ [0] ++ [9] ++ rest ->
      exists r', ReadPhysicalRecord true (fun _ => 8) res r = Some (kBadRecord, res, r') /\ buffer_ r' = [] /\
        ([7; 8; 9] <> [] -> r' = ReportDrop (zlen (buffer_ r)) kCorruption (set_buffer [] r)).
Proof.
  apply (log_damage_detected true true (fun _ => 8) (fun _ => 8) 1 [7; 8; 9] [1; 7] [8] [0] [9]);
    try (intros ?; lia); try (repeat constructor; lia); try lia; done.
Defined.

(** ** Positions of records *)
Lemma AddRecord_one le ptr w d :
  addresses ptr -> winv w [] -> block_offset_ w = 0 -> Forall is_byte d -> 7 + zlen d <= kBlockSize ->
  exists w', AddRecord le ptr w d = Some (kOk, w') /\ winv w' (phys kFullType d).
Proof.
  intros Hp Hw Ho Hd Hfit.
  assert (Hs : switch_block w = w) by (unfold switch_block; by rewrite Ho).
  unfold AddRecord. rewrite Nat.add_comm. simpl (2 + _)%nat.
  rewrite AddRecord_loop_S by (rewrite ?Hs, Ho; done). rewrite Hs, Ho. cbv zeta.
  replace (if zlen d <? _ then _ else _) with (zlen d).
  2:{ destruct (Z.ltb_spec (zlen d) (kBlockSize - 0 - 7)); lia. }
  rewrite Z.eqb_refl, Nat2Z.id, take_ge, drop_ge by lia. simpl andb. cbv iota.
  destruct (EmitPhysicalRecord_spec le ptr Hp w [] kFullType d Hw) as (w' & -> & Hw' & _);
    [lia|done|done|]. cbn [mbind option_bind]. simpl. eauto.
Qed.

Lemma padlen_end k : 0 < k < 7 -> padlen (kBlockSize - k) = k.
Proof.
  intros Hk. unfold padlen, kBlockSize, kHeaderSize. rewrite Z.mod_small by lia.
  rewrite (proj2 (Z.ltb_lt _ _)) by lia. lia.
Qed.

(** When a record starts a new block because
    the previous one has no room for a header, [LastRecordOffset] is the
    position of the trailer of that block, not the one of the record, which is
    what the comment in [log_reader.h] says it is. *)
Theorem log_last_offset_in_trailer le ptr d1 d2 k checksum :
  addresses ptr -> Forall is_byte d1 -> Forall is_byte d2 -> 0 < k < 7 -> zlen d1 = kBlockSize - 7 - k ->
  exists w w', new_Writer le ptr [] = Some w /\
    write_log le ptr [(false, d1); (false, d2)] w = Some (kOk, w') /\
    (exists ps, drop (Z.to_nat kBlockSize) (dest_ w') = phys_stream kBlockSize ps /\ frags true d2 ps) /\
    (zlen (dest_ w') < 2 ^ 64 ->
     exists r1 r2, ReadRecord le ptr (new_Reader (dest_ w') true checksum 0) = Some (true, d1, r1) /\
       ReadRecord le ptr r1 = Some (true, d2, r2) /\ LastRecordOffset r2 = kBlockSize - k).
Proof.
  intros Hp Hb1 Hb2 Hk Hl. destruct (new_Writer_spec le ptr Hp) as (w & Hnew & Hw).
  assert (Hbo : block_offset_ w = 0).
  { unfold new_Writer in Hnew. rewrite (InitTypeCrc_spec le ptr Hp) in Hnew. by simplify_eq/=. }
  destruct (AddRecord_one le ptr w d1 Hp Hw Hbo Hb1) as (w1 & Hadd1 & Hw1); [lia|].
  destruct (AddRecord_spec le ptr Hp w1 _ d2 Hw1 Hb2) as (w2 & ps & Hadd2 & Hw2 & Hfit & Hfr).
  assert (Hlen : zlen (phys kFullType d1) = kBlockSize - k) by (rewrite length_phys; lia).
  rewrite Hlen in *. exists w, w2. split_and!; [done| | |].
  - simpl. rewrite Hadd1. cbn [mbind option_bind]. simpl. rewrite Hadd2. done.
  - exists ps. split; [|done]. rewrite (proj1 Hw2). destruct ps as [|[t d] ps]; [inversion Hfr|].
    simpl. rewrite padlen_end by done. replace (kBlockSize - k + k) with kBlockSize by lia.
    rewrite app_assoc. change (padlen kBlockSize) with 0. rewrite Z.add_0_r. simpl.
    apply drop_app_length'. rewrite length_app, length_replicate. lia.
  - rewrite (proj1 Hw2). intros Hmax.
    destruct (ReadRecord_full le ptr Hp (new_Reader (phys kFullType d1 ++ phys_stream (kBlockSize - k) ps)
      true checksum 0) 0 d1 [(kFullType, d1)] (phys_stream (kBlockSize - k) ps))
      as (r1 & Hr1 & Hinv1 & _); [apply (frags_end true)| | |].
    + split; [|done]. split_and!; [done|done|done|].
      change ((0 + padlen 0) mod kBlockSize) with 0. lia.
    + simpl. rewrite app_nil_r. by apply new_Reader_rinv.
    + simpl in Hinv1. rewrite app_nil_r, Hlen in Hinv1.
      rewrite <-(app_nil_r (phys_stream (kBlockSize - k) ps)) in Hinv1.
      destruct (ReadRecord_full le ptr Hp r1 _ d2 ps [] Hfr Hfit Hinv1) as (r2 & Hr2 & _ & _ & Hoff).
      exists r1, r2. done.
Qed.

Lemma log_last_offset_in_trailer_witness :
  let d1 := replicate (Z.to_nat (kBlockSize - 10)) 5 in
  exists w w', new_Writer true (fun _ => 8) [] = Some w /\
    write_log true (fun _ => 8) [(false, d1); (false, [1; 2])] w = Some (kOk, w') /\
    (exists ps, drop (Z.to_nat kBlockSize) (dest_ w') = phys_stream kBlockSize ps /\ frags true [1; 2] ps) /\
    (zlen (dest_ w') < 2 ^ 64 ->
     exists r1 r2, ReadRecord true (fun _ => 8) (new_Reader (dest_ w') true true 0) = Some (true, d1, r1) /\
       ReadRecord true (fun _ => 8) r1 = Some (true, [1; 2], r2) /\ LastRecordOffset r2 = kBlockSize - 3).
Proof.
  apply (log_last_offset_in_trailer true (fun _ => 8) (replicate (Z.to_nat (kBlockSize - 10)) 5) [1; 2] 3 true).
  - intros ?. lia.
  - apply Forall_replicate. unfold is_byte. lia.
  - repeat constructor; lia.
  - lia.
  - rewrite length_replicate. unfold kBlockSize. lia.
Defined.
