(* ===== verification/Recovery.v ===== *)
(** Opening a database: [DBImpl::RecoverLogFile] of [db/db_impl.cc] over the
    log reader, and what is left of a database after a crash.

    [DbImpl] keeps the log as the list of the [AddRecord] calls; here the records
    are the octets of a file, written by [log::Writer] and cut at any point. *)
From S2P Require Import Prelude LdbBase Dbformat WriteBatch Skiplist Memtable Arena DbImpl Crc32c LogFormat.

Section recovery.
Context (le : bool) (junk : nat -> Z) (uninit : option nat) (stack : nat -> nat).
Context (new_block : list (Z * Z) -> Z -> Z) (write_buffer_size : Z) (paranoid_checks : bool) (ptr : list Z -> Z).
Context {W : Type} `{!TableWriter le W} {F : Type} `{!SequentialFile F}.
Implicit Types (r : Reader F) (mem : option (SkipList (list Z))) (w : W).

(** [LogReporter::Corruption], for each of the reports made since [r]. *)
Definition log_reports r (r' : Reader F) : list Code :=
  drop (length (default [] (reports r))) (default [] (reports r')).*2.
Definition Corruption (status s : Code) : Code :=
  if paranoid_checks && Status_ok status then s else status.

(** The loop over the records of the file; [compacted] tells that [compactions]
    is not zero. *)
Fixpoint RecoverLogFile_read (fuel : nat) r mem w (max_sequence : Z)
    (status : Code) (compacted : bool)
    : option (Code * option (SkipList (list Z)) * W * Z * bool) :=
  match fuel with
  | O => None
  | S fuel =>
    '(ok, record, r') ← ReadRecord le ptr r;
    let status := foldl Corruption status (log_reports r r') in
    if negb ok || negb (Status_ok status) then Some (status, mem, w, max_sequence, compacted)
    else
      if zlen record <? 12 then
        RecoverLogFile_read fuel r' mem w max_sequence (Corruption status kCorruption) compacted
      else
        '(status, mem, w, max_sequence, written) ←
          recover_record le junk uninit stack new_block write_buffer_size paranoid_checks record mem w max_sequence;
        if negb (Status_ok status) then Some (status, mem, w, max_sequence, compacted || written)
        else RecoverLogFile_read fuel r' mem w max_sequence status (compacted || written)
  end.

(** What the file system does for a log file, and whether it may be reused. *)
Record LogFile := {
  open_status : Code;          (** of [NewSequentialFile] *)
  reuse_log : bool;            (** [options_.reuse_logs && last_log] *)
  file_size : option Z;        (** of [GetFileSize] *)
  appendable : bool;           (** [NewAppendableFile] succeeds *)
}.

(** After the loop: the log and the memtable are reused, or the memtable is
    written to a table.  The status, the tables, and, if the log is reused, the
    memtable and the length the new [log::Writer] starts from. *)
Definition finish_log (lf : LogFile) (status : Code) mem w (compacted : bool)
    : option (Code * W * option (SkipList (list Z) * Z)) :=
  '(mem, reused) ←
    match file_size lf with
    | Some lfile_size =>
      if Status_ok status && reuse_log lf && negb compacted && appendable lf then
        m ← (match mem with Some m => Some m | None => new_MemTable uninit end);
        Some (None, Some (m, lfile_size))
      else Some (mem, None)
    | None => Some (mem, None)
    end;
  match mem with
  | Some m =>
    if Status_ok status then '(status, w) ← W_write w m; Some (status, w, reused)
    else Some (status, w, reused)
  | None => Some (status, w, reused)
  end.

Definition RecoverLogFile (lf : LogFile) (file : F) w (max_sequence : Z)
    : option (Code * W * Z * option (SkipList (list Z) * Z)) :=
  if negb (Status_ok (open_status lf)) then
    Some (MaybeIgnoreError paranoid_checks (open_status lf), w, max_sequence, None)
  else
    '(status, mem, w, max_sequence, compacted) ←
      RecoverLogFile_read (S (length (contents file))) (new_Reader file true true 0) None w max_sequence kOk false;
    '(status, w, reused) ← finish_log lf status mem w compacted;
    Some (status, w, max_sequence, reused).
End recovery.

(** ** Reading and replaying can be separated when nothing is reported *)
Section crash.
Context (le : bool) (junk : nat -> Z) (uninit : option nat) (stack : nat -> nat).
Context (new_block : list (Z * Z) -> Z -> Z) (write_buffer_size : Z).
Context (paranoid_checks : bool) (ptr : list Z -> Z) {W : Type} `{!TableWriter le W} `{!TableSink le W}.
Implicit Types (w : W) (ew em : list version).

Lemma RecoverLogFile_read_quiet records : forall fuel r mem w max_sequence compacted c mem' w' max' compacted',
  quiet_reads le ptr records r -> Forall (fun x => 12 <= zlen x) records -> (length records < fuel)%nat ->
  RecoverLogFile_loop le junk uninit stack new_block write_buffer_size paranoid_checks records mem w max_sequence compacted
  = Some (c, mem', w', max', compacted') ->
  RecoverLogFile_read le junk uninit stack new_block write_buffer_size paranoid_checks ptr
    fuel r mem w max_sequence kOk compacted = Some (c, mem', w', max', compacted').
Proof.
  induction records as [|d records IH];
    intros [|fuel] r mem w max_sequence compacted c mem' w' max' compacted' Hq H12 Hf Hloop; simpl in Hf; try lia;
    cbn [RecoverLogFile_read].
  - destruct Hq as (r' & -> & Hrep). cbn [mbind option_bind]. unfold log_reports. rewrite Hrep.
    rewrite drop_ge by (rewrite length_fmap; lia). simpl. by simplify_eq/=.
  - destruct Hq as (r1 & -> & Hrep & Hq). cbn [mbind option_bind]. unfold log_reports. rewrite Hrep.
    rewrite drop_ge by (rewrite length_fmap; lia). simpl. cbn [RecoverLogFile_loop] in Hloop.
    inversion H12; subst.
    rewrite (proj2 (Z.ltb_ge _ 12)) by done.
    destruct (recover_record _ _ _ _ _ _ _ d mem w max_sequence) as [[[[[c1 mem1] w1] max1] wr]|]; [|done].
    cbn [mbind option_bind] in *. destruct (Status_ok c1) eqn:Ec; simpl in *.
    + apply Status_ok_eq in Ec as ->. by eapply IH; [..|lia|].
    + by simplify_eq.
Qed.

(** What a recovered log ends in: tables with the versions [ew], and a memtable
    with [em] if the log is reused. *)
Definition recovered w (reused : option (SkipList (list Z) * Z)) (es : list version) : Prop :=
  exists ew em, W_rep w ew /\ match reused with Some (m, _) => mem_rep le m em | None => em = [] end /\ ew ++ em = es.

Lemma finish_log_cases lf status mem w compacted ew em :
  write_buffer_size <= W_max -> (status = kOk -> 0 < W_room w /\ StronglySorted (fun a b => a.1 < b.1) (ew ++ em) /\
    opt_rep le write_buffer_size mem em /\ Forall byte_version em /\ W_rep w ew) ->
  exists c w' reused, finish_log le uninit lf status mem w compacted = Some (c, w', reused) /\
    (c = kOk -> status = kOk /\ match reused with
       | Some (m, _) => w' = w /\ mem_rep le m em /\ compacted = false /\ reuse_log lf = true
       | None => W_rep w' (ew ++ em) /\ W_room w - 1 <= W_room w'
       end) /\
    (c <> kOk -> c = status \/ write_failed le c).
Proof.
  intros Hmax Hrep. unfold finish_log.
  assert (exists c w' reused, (match mem with
      | Some m => if Status_ok status then '(status, w) ← W_write w m; Some (status, w, None)
                  else Some (status, w, None)
      | None => Some (status, w, None) end) = Some (c, w', reused : option (SkipList (list Z) * Z)) /\
    (c = kOk -> status = kOk /\ reused = None /\ W_rep w' (ew ++ em) /\ W_room w - 1 <= W_room w') /\ (c <> kOk -> c = status \/ write_failed le c)) as Hflush.
  { destruct mem as [m|].
    - destruct (Status_ok status) eqn:Es.
      + apply Status_ok_eq in Es as ->. destruct (Hrep eq_refl) as (Hroom & Hs & [Hm Hw] & Hb & Hv).
        destruct (W_write_spec w ew m em Hv Hroom Hm Hb ltac:(lia) Hs) as (c & w1 & E & Hv' & Hr). rewrite E. cbn [mbind option_bind].
        exists c, w1, None. split_and!; [done|by intros ->|]. intros _. right. by eexists _, _, _.
      + exists status, w, None. split_and!; [done|by intros ->|by left].
    - exists status, w, None. split_and!; [done| |by left]. intros Hs. destruct (Hrep Hs) as (_ & _ & Hm & _ & Hv). cbn in Hm. subst em. rewrite app_nil_r. split_and!; done || lia. }
  assert (forall c w' (reused : option (SkipList (list Z) * Z)), (c = kOk -> status = kOk /\ reused = None /\ W_rep w' (ew ++ em) /\ W_room w - 1 <= W_room w') -> c = kOk -> status = kOk /\ match reused with
       | Some (m, _) => w' = w /\ mem_rep le m em /\ compacted = false /\ reuse_log lf = true
       | None => W_rep w' (ew ++ em) /\ W_room w - 1 <= W_room w'
       end) as Hnone by (intros c w' reused Hc E0; by destruct (Hc E0) as (? & -> & ?)).
  destruct (file_size lf) as [size|]; [|by destruct Hflush as (c & w' & reused & E & Hc & Hb); exists c, w', reused; split; [exact E|split; [eauto|done]]].
  destruct (_ && _) eqn:Hb; [|by destruct Hflush as (c & w' & reused & E & Hc & Hb'); exists c, w', reused; split; [exact E|split; [eauto|done]]].
  rewrite !andb_true_iff in Hb. destruct Hb as (((Hs%Status_ok_eq & Hr) & Hc%negb_true_iff) & _). subst status.
  destruct (Hrep eq_refl) as (_ & _ & Hm & _ & Hv).
  assert (exists m, (match mem with Some m => Some m | None => new_MemTable uninit end) = Some m /\ mem_rep le m em) as (m & -> & Hm').
  { destruct mem as [m|]; [destruct Hm; by eexists|]. simpl in Hm. subst em. apply new_MemTable_rep. }
  cbn [mbind option_bind]. do 3 eexists. split; [done|]. split_and!; [done|by left].
Qed.

Lemma finish_log_rep lf status mem w compacted es :
  write_buffer_size <= W_max -> (status = kOk -> 0 < W_room w) -> StronglySorted (fun a b => a.1 < b.1) es ->
  (status = kOk -> exists em ew, opt_rep le write_buffer_size mem em /\ Forall byte_version em /\ W_rep w ew /\ ew ++ em = es) ->
  exists c w' reused, finish_log le uninit lf status mem w compacted = Some (c, w', reused) /\
    (c = kOk -> recovered w' reused es) /\
    (c = kOk -> status = kOk) /\ (c <> kOk -> c = status \/ write_failed le c).
Proof.
  intros Hmax Hroom Hsort Hrep. destruct (decide (status = kOk)) as [Hs|Hs].
  - destruct (Hrep Hs) as (em & ew & Hm & Hb & Hv & He).
    destruct (finish_log_cases lf status mem w compacted ew em Hmax) as (c & w' & reused & E & Hc & Hbad); [by intros _; rewrite He; auto|].
    exists c, w', reused. split; [done|]. split; [|split; [by intros H; destruct (Hc H)|done]]. intros H. destruct (Hc H) as (_ & HR).
    destruct reused as [[m ?]|]; [destruct HR as (-> & ? & _); by exists ew, em|]. exists (ew ++ em), []. rewrite app_nil_r. split_and!; [apply HR|done|done].
  - destruct (finish_log_cases lf status mem w compacted [] [] Hmax) as (c & w' & reused & E & Hc & Hbad); [done|].
    exists c, w', reused. split; [done|]. split; [intros H; by destruct (Hc H)|]. split; [intros H; by destruct (Hc H)|done].
Qed.

Lemma encode_batches_12 (bs : list (Z * list update)) :
  Forall (fun x => 12 <= zlen x) ((fun b => encode_batch b.1 b.2) <$> bs).
Proof.
  apply Forall_fmap, Forall_true. intros b. unfold compose, encode_batch.
  rewrite !length_app, !length_le_enc. lia.
Qed.

(** Replaying the first [k] batches of a log. *)
Lemma recover_prefix bs k w ew max0 : fresh_blocks new_block ->
  Forall (log_record le write_buffer_size) bs -> W_rep w ew -> zlen bs <= W_room w ->
  StronglySorted (fun a b => a.1 < b.1) (ew ++ log_versions bs) ->
  exists c mem w' max compacted,
    RecoverLogFile_loop le junk uninit stack new_block write_buffer_size paranoid_checks
      ((fun b => encode_batch b.1 b.2) <$> take k bs) None w max0 false = Some (c, mem, w', max, compacted) /\
    W_room w - zlen bs <= W_room w' /\ (max0 < 2 ^ 56 -> max < 2 ^ 56) /\ StronglySorted (fun a b => a.1 < b.1) (ew ++ log_versions (take k bs)) /\
    (c = kOk -> exists em ew', opt_rep le write_buffer_size mem em /\ Forall byte_version em /\ W_rep w' ew' /\ ew' ++ em = ew ++ log_versions (take k bs) /\
       Forall (fun e => e.1 <= max) (log_versions (take k bs)) /\ max0 <= max /\ (compacted = false -> em = log_versions (take k bs))) /\
    (c <> kOk -> write_failed le c).
Proof.
  intros Hnew Hbs Hw Hroom Hsort.
  assert (Hsplit : log_versions bs = log_versions (take k bs) ++ log_versions (drop k bs)).
  { unfold log_versions. by rewrite <-concat_app, <-fmap_app, take_drop. }
  rewrite Hsplit, app_assoc in Hsort. apply StronglySorted_app in Hsort as (_ & Hsort & _).
  assert (zlen (take k bs) <= zlen bs) as Hlen by (rewrite length_take; lia).
  destruct (RecoverLogFile_rep le junk uninit stack new_block Hnew write_buffer_size paranoid_checks (take k bs) None [] w ew max0 false)
    as (c & mem & w' & max & compacted & Hloop & Hr & Hmx & Hok & Hbad); try done; [by apply Forall_take|lia|].
  exists c, mem, w', max, compacted. split_and!; [done|lia|done|done| |done]. intros Hc.
  destruct (Hok Hc) as (em & ew' & ? & ? & ? & ? & ? & ? & Hkept). exists em, ew'. split_and!; try done. intros Hf. by apply Hkept.
Qed.

(** C5 (db_crash_recovery) Take a database without background error, all of
    whose [AddRecord] calls on the current log succeeded, the file that
    [log::Writer] made of its log (reopened any number of times), and
    keep any prefix of the file.  Then [RecoverLogFile] on that prefix returns,
    and unless writing a table fails it succeeds: the tables and the memtable
    hold exactly the versions of the first batches of the log, each batch
    entirely or not at all, and every batch whose octets all are in the prefix
    is among them.  The recovered sequence number covers all of them. *)
Theorem db_crash_recovery {V} `{!VersionSet le V} lewr ptrwr (db : DBImpl V) es evs n lf w0 ew :
  fresh_blocks new_block -> addresses ptr -> addresses ptrwr -> db_rep le db es -> bg_error_ db = kOk ->
  log_ db = (fun record => (record, kOk)) <$> evs.*2 -> Forall (Forall is_byte) evs.*2 -> Z.of_nat n < 2 ^ 64 ->
  open_status lf = kOk -> Z.max 0 write_buffer_size + V_max (le := le) (V := V) <= W_max -> W_rep w0 ew -> zlen evs < W_room w0 ->
  (forall e e', e ∈ ew -> e' ∈ es -> e.1 < e'.1) -> StronglySorted (fun a b => a.1 < b.1) ew ->
  exists bs (w w' : Writer (list Z)), evs.*2 = (fun b => encode_batch b.1 b.2) <$> bs /\ mem_rep le (mem_ db) (log_versions bs) /\
    new_Writer lewr ptrwr [] = Some w /\ write_log lewr ptrwr evs w = Some (kOk, w') /\
  exists k c v' max reused,
    RecoverLogFile le junk uninit stack new_block write_buffer_size paranoid_checks ptr lf (take n (dest_ w')) w0 0
    = Some (c, v', max, reused) /\
    (c = kOk -> recovered v' reused (ew ++ log_versions (take k bs)) /\ Forall (fun e => e.1 <= max) (log_versions (take k bs))) /\
    (c <> kOk -> write_failed le c) /\
    forall j, (j <= length evs)%nat -> exists wj : Writer (list Z), write_log lewr ptrwr (take j evs) w = Some (kOk, wj) /\
      ((length (dest_ wj) <= n)%nat <-> (j <= k)%nat).
Proof.
  intros Hnew Hp Hpw Hrep Hbg Hev Hby Hn Hopen Hmax Hw0 Hroom Hlt Hsw.
  pose proof Hrep as [_ _ _ Hbv (ev & ei & em & bs & Hes & _ & _ & Hm & _ & Hwt & Hlog & Hbs & Hem)]. specialize (Hem Hbg). subst es.
  rewrite Hev, acked_all in Hlog. rewrite Hem in Hm, Hwt, Hbv. rewrite !Forall_app in Hbv. destruct Hbv as (_ & _ & Hbv). pose proof Hm as (Hfit & Hsort & _).
  destruct (new_Writer_spec lewr ptrwr Hpw) as (w & Hwn & Hw).
  destruct (log_read_prefix lewr le ptrwr ptr Hpw Hp evs w [] Hw) as (w' & bytes & Hwl & Hw' & Hrd); [done|].
  exists bs, w, w'. split_and!; [done|done|done|done|]. rewrite (proj1 Hw'). simpl app.
  destruct (Hrd (new_Reader (take n bytes) true true 0) n) as (k & Hk & Hkn & Hq & Hj).
  { apply new_Reader_rinv. rewrite length_take. lia. }
  rewrite Hlog, <-fmap_take in Hq. exists k. assert (length evs = length bs) as Hlen by (by rewrite <-(length_fmap snd evs), Hlog, length_fmap). rewrite Hlen in Hroom.
  destruct (recover_prefix bs k w0 ew 0 Hnew) as (c & mem & w1 & max & compacted & Hloop & Hr & _ & Hs & Hok & Hbad); [|done|lia| |].
  { apply log_records_ok; try done. lia. }
  { apply StronglySorted_app. split_and!; [|done|done]. intros a b Ha Hb. apply Hlt; [done|]. rewrite Hem, !elem_of_app. auto. }
  pose proof (RecoverLogFile_read_quiet _ (S (length (take n bytes))) _ None w0 0 false c mem w1 max compacted Hq) as Hread.
  specialize (Hread (encode_batches_12 _) ltac:(rewrite length_fmap, !length_take in *; lia) Hloop).
  unfold RecoverLogFile. rewrite Hopen. cbn [negb Status_ok]. simpl (contents _). rewrite Hread. cbn [mbind option_bind].
  destruct (finish_log_rep lf c mem w1 compacted (ew ++ log_versions (take k bs)))
    as (c' & v' & reused & -> & Hrep' & Hc & Hbad'); [pose proof (V_max_bound (le := le) (V := V)); lia|lia|done| |].
  { intros Hc. destruct (Hok Hc) as (em' & ew' & ? & ? & ? & ? & _). eauto 10. }
  exists c', v', max, reused. split_and!; [done| | |done].
  - intros Hc'. split; [by apply Hrep'|]. by destruct (Hok (Hc Hc')) as (_ & _ & _ & _ & _ & _ & ? & _).
  - intros Hne. destruct (Hbad' Hne) as [->|?]; auto.
Qed.
End crash.

Lemma db_crash_recovery_witness :
  exists table c0 db, new_MemTable None = Some table /\
    DBImpl_Put true (fun _ => 0) None id bump_heap 4104 ok_outcome true [1] [2] (empty_db table) = Some (c0, db) /\
  exists bs w w', [encode_batch 1 [UPut [1] [2]]] = (fun b => encode_batch b.1 b.2) <$> bs /\ mem_rep true (mem_ db) (log_versions bs) /\
    new_Writer false (fun _ => 4) [] = Some w /\
    write_log false (fun _ => 4) [(true, encode_batch 1 [UPut [1] [2]])] w = Some (kOk, w') /\
  exists k c v' max reused,
    RecoverLogFile true (fun _ => 0) None id bump_heap 4104 true (fun _ => 0)
      {| open_status := kOk; reuse_log := true; file_size := Some 0; appendable := true |}
      (take 100 (dest_ w')) (@nil version, 2) 0 = Some (c, v', max, reused) /\
    (c = kOk -> recovered true v' reused ([] ++ log_versions (take k bs)) /\ Forall (fun e => e.1 <= max) (log_versions (take k bs))).
Proof.
  destruct (new_MemTable_rep true None) as (table & E & Hm). injection E as <-.
  destruct (DBImpl_Put_rep true (fun _ => 0) None id bump_heap bump_heap_fresh 4104 ltac:(lia) ok_outcome true [1] [2] _ []
    (empty_db_rep true _ Hm)) as (c0 & db & Eput & _ & _ & Hrep);
    [done|by apply (bool_decide_unpack _)|simpl; lia|by vm_compute|apply ok_outcome_room|].
  eexists _, c0, db. split; [reflexivity|]. split; [exact Eput|].
  vm_compute in Eput. injection Eput as <- <-.
  match type of Hrep with db_rep _ ?db ?es =>
  destruct (db_crash_recovery true (fun _ => 0) None id bump_heap 4104 true (fun _ => 0) false (fun _ => 4) db es
    [(true, encode_batch 1 [UPut [1] [2]])] 100
    {| open_status := kOk; reuse_log := true; file_size := Some 0; appendable := true |} (@nil version, 2) [])
    as (bs & w & w' & H1 & H2 & H3 & H4 & k & c & v' & max & reused & H5 & H6 & _);
    [apply bump_heap_fresh|intros ?; lia|intros ?; lia|exact Hrep|reflexivity|vm_compute; reflexivity| |lia|reflexivity
    |by vm_compute|reflexivity|by vm_compute|intros e e' He; by apply elem_of_nil in He|constructor|] end.
  - by apply (bool_decide_unpack _).
  - exists bs, w, w'. split; [exact H1|]. split; [exact H2|]. split; [exact H3|]. split; [exact H4|].
    exists k, c, v', max, reused. split; [exact H5|exact H6].
Defined.
