(* ===== verification/MdbItem.v ===== *)
(** Items of the cache core ([src/memcached/src/item_manager.h]) in a heap, the
    macros that find the key, the suffix and the data of an item in the octets
    after its header, reference counts and CAS ids ([util.cpp]), and the hash
    function ([murmur3_hash.c]).

    An address is a [positive]; a null pointer is [None].  Every access to the
    heap is [None] when there is no item at the address. *)
From S2P Require Import Prelude.

Notation loc := positive.

Definition ITEM_LINKED : Z := 1.
Definition ITEM_CAS : Z := 2.
Definition ITEM_SLABBED : Z := 4.
Definition ITEM_FETCHED : Z := 8.
Definition ITEM_ACTIVE : Z := 16.

Definition HOT_LRU : Z := 0.
Definition WARM_LRU : Z := 64.
Definition COLD_LRU : Z := 128.
Definition NOEXP_LRU : Z := 192.
Definition LARGEST_ID : Z := 256.
Definition POWER_SMALLEST : Z := 1.
Definition MAX_NUMBER_OF_SLAB_CLASSES : Z := 63 + 1.
Definition ITEM_UPDATE_INTERVAL : Z := 60.
Definition KEY_MAX_LENGTH : Z := 250.
(** [sizeof(Item)] on a 64-bit host: three pointers, three 32-bit integers, the
    reference count and four octets, aligned to eight. *)
Definition sizeof_Item : Z := 48.

(** [data] are the octets of the chunk after the header. *)
Record Item := mkItem {
  next : option loc;
  prev : option loc;
  h_next : option loc;
  time : Z;
  exptime : Z;
  nbytes : Z;
  refcount : Z;
  nsuffix : Z;
  it_flags : Z;
  slabs_clsid : Z;
  nkey : Z;
  data : list Z;
}.

Notation heap := (gmap loc Item).

Definition set_next (p : option loc) (it : Item) : Item :=
  mkItem p (prev it) (h_next it) (time it) (exptime it) (nbytes it) (refcount it) (nsuffix it)
    (it_flags it) (slabs_clsid it) (nkey it) (data it).
Definition set_prev (p : option loc) (it : Item) : Item :=
  mkItem (next it) p (h_next it) (time it) (exptime it) (nbytes it) (refcount it) (nsuffix it)
    (it_flags it) (slabs_clsid it) (nkey it) (data it).
Definition set_h_next (p : option loc) (it : Item) : Item :=
  mkItem (next it) (prev it) p (time it) (exptime it) (nbytes it) (refcount it) (nsuffix it)
    (it_flags it) (slabs_clsid it) (nkey it) (data it).
Definition set_time (t : Z) (it : Item) : Item :=
  mkItem (next it) (prev it) (h_next it) t (exptime it) (nbytes it) (refcount it) (nsuffix it)
    (it_flags it) (slabs_clsid it) (nkey it) (data it).
Definition set_exptime (t : Z) (it : Item) : Item :=
  mkItem (next it) (prev it) (h_next it) (time it) t (nbytes it) (refcount it) (nsuffix it)
    (it_flags it) (slabs_clsid it) (nkey it) (data it).
Definition set_refcount (n : Z) (it : Item) : Item :=
  mkItem (next it) (prev it) (h_next it) (time it) (exptime it) (nbytes it) n (nsuffix it)
    (it_flags it) (slabs_clsid it) (nkey it) (data it).
Definition set_flags (f : Z) (it : Item) : Item :=
  mkItem (next it) (prev it) (h_next it) (time it) (exptime it) (nbytes it) (refcount it)
    (nsuffix it) f (slabs_clsid it) (nkey it) (data it).
Definition set_clsid (c : Z) (it : Item) : Item :=
  mkItem (next it) (prev it) (h_next it) (time it) (exptime it) (nbytes it) (refcount it)
    (nsuffix it) (it_flags it) c (nkey it) (data it).
Definition set_data (d : list Z) (it : Item) : Item :=
  mkItem (next it) (prev it) (h_next it) (time it) (exptime it) (nbytes it) (refcount it)
    (nsuffix it) (it_flags it) (slabs_clsid it) (nkey it) d.

(** [p->field = f (p->field)] *)
Definition upd (h : heap) (p : loc) (f : Item -> Item) : option heap :=
  it ← h !! p; Some (<[p := f it]> h).

(** ** The octets of an item *)
Definition has_flag (it : Item) (f : Z) : bool := negb (Z.land (it_flags it) f =? 0).

Definition cas_size (it : Item) : Z := if has_flag it ITEM_CAS then 8 else 0.
Definition ITEM_key (it : Item) : Z := cas_size it.
Definition ITEM_suffix (it : Item) : Z := nkey it + 1 + cas_size it.
Definition ITEM_data (it : Item) : Z := nkey it + 1 + nsuffix it + cas_size it.
Definition ITEM_ntotal (it : Item) : Z :=
  wrap 64 (sizeof_Item + nkey it + 1 + nsuffix it + nbytes it + cas_size it).
Definition ITEM_clsid (it : Item) : Z := Z.land (slabs_clsid it) 63.
Definition CLEAR_LRU (id : Z) : Z := Z.land id 63.

Section octets.
Context (le : bool).
(** [cas] is an object of the host's byte order. *)
Definition host_enc64 (v : Z) : list Z := if le then le_enc 8 v else rev (le_enc 8 v).
Definition host_dec (bs : list Z) : Z := if le then le_dec bs else le_dec (rev bs).

Definition ITEM_get_cas (it : Item) : option Z :=
  if has_flag it ITEM_CAS then bs ← rd_bytes (data it) 0 8; Some (host_dec bs) else Some 0.
Definition ITEM_set_cas (v : Z) (it : Item) : option Item :=
  if has_flag it ITEM_CAS then d ← wr_bytes (data it) 0 (host_enc64 v); Some (set_data d it)
  else Some it.
End octets.

(** The key of an item as the table sees it. *)
Definition item_key (it : Item) : option (list Z) := rd_bytes (data it) (ITEM_key it) (nkey it).

(** ** Reference counts ([util.cpp]) *)
Definition RefcountIncr (it : Item) : Z * Item :=
  let r := wrap 16 (refcount it + 1) in (r, set_refcount r it).
Definition RefcountDecr (it : Item) : Z * Item :=
  let r := wrap 16 (refcount it - 1) in (r, set_refcount r it).

(** [cas_id] of [GetCasId]: the new value is also the result. *)
Definition GetCasId (cas_id : Z) : Z := wrap 64 (cas_id + 1).

(** ** MurmurHash3 ([murmur3_hash.c]) *)
Definition rotl32 (x r : Z) : Z := Z.lor (wrap 32 (Z.shiftl x r)) (Z.shiftr x (32 - r)).

Definition fmix32 (h : Z) : Z :=
  let h := Z.lxor h (Z.shiftr h 16) in
  let h := wrap 32 (h * 0x85ebca6b) in
  let h := Z.lxor h (Z.shiftr h 13) in
  let h := wrap 32 (h * 0xc2b2ae35) in
  Z.lxor h (Z.shiftr h 16).

Definition murmur_c1 : Z := 0xcc9e2d51.
Definition murmur_c2 : Z := 0x1b873593.

Definition murmur_k (k1 : Z) : Z :=
  wrap 32 (rotl32 (wrap 32 (k1 * murmur_c1)) 15 * murmur_c2).

Section murmur.
Context (le : bool).

(** [blocks] points past the last block, so block [i] of the loop, which counts
    up from [-nblocks], is the block [nblocks + i] of the key. *)
Definition getblock32 (key : list Z) (i : Z) : option Z :=
  bs ← rd_bytes key (4 * i) 4; Some (host_dec le bs).

Fixpoint murmur_body (n : nat) (key : list Z) (i h1 : Z) : option Z :=
  match n with
  | O => Some h1
  | S n =>
      k1 ← getblock32 key i;
      let h1 := rotl32 (Z.lxor h1 (murmur_k k1)) 13 in
      murmur_body n key (i + 1) (wrap 32 (h1 * 5 + 0xe6546b64))
  end.

Definition murmur_tail (key : list Z) (nblocks h1 : Z) : option Z :=
  let tail := 4 * nblocks in
  let r := Z.land (zlen key) 3 in
  if r =? 0 then Some h1 else
  k1 ← (if 3 <=? r then t ← rd key (tail + 2); Some (Z.lxor 0 (Z.shiftl t 16)) else Some 0);
  k1 ← (if 2 <=? r then t ← rd key (tail + 1); Some (Z.lxor k1 (Z.shiftl t 8)) else Some k1);
  t ← rd key tail;
  Some (Z.lxor h1 (murmur_k (Z.lxor k1 t))).

Definition MurmurHash3_x86_32 (key : list Z) : option Z :=
  let nblocks := zlen key / 4 in
  h1 ← murmur_body (Z.to_nat nblocks) key 0 0;
  h1 ← murmur_tail key nblocks h1;
  Some (fmix32 (Z.lxor h1 (wrap 32 (zlen key)))).
End murmur.

(** ** The hash of a key is defined and has 32 bits *)
Lemma rotl32_fits x r : 0 <= r <= 32 -> fits_unsigned 32 x -> fits_unsigned 32 (rotl32 x r).
Proof.
  intros Hr Hx. apply lor_bound; [done|by apply wrap_unsigned|apply shiftr_bound; [lia|done]].
Qed.

Lemma murmur_k_fits k1 : fits_unsigned 32 (murmur_k k1).
Proof. by apply wrap_unsigned. Qed.

Lemma fmix32_fits h : fits_unsigned 32 h -> fits_unsigned 32 (fmix32 h).
Proof.
  intros. unfold fmix32. apply lxor_bound; [done| |].
  - by apply wrap_unsigned.
  - apply shiftr_bound; [done|by apply wrap_unsigned].
Qed.

Lemma rd_bytes_Some buf off n :
  0 <= off -> 0 <= n -> off + n <= zlen buf -> exists bs, rd_bytes buf off n = Some bs.
Proof. intros. unfold rd_bytes. rewrite bool_decide_true by lia. eauto. Qed.

Lemma murmur_body_total le n key i h1 :
  0 <= i -> 4 * (i + Z.of_nat n) <= zlen key -> fits_unsigned 32 h1 ->
  exists h, murmur_body le n key i h1 = Some h /\ fits_unsigned 32 h.
Proof.
  revert i h1. induction n as [|n IH]; intros i h1 Hi Hn Hh; [eauto|].
  cbn [murmur_body]. unfold getblock32.
  destruct (rd_bytes_Some key (4 * i) 4) as [bs ->]; [lia..|]. cbn [mbind option_bind].
  apply IH; [lia..|]. by apply wrap_unsigned.
Qed.

Lemma MurmurHash3_total le key :
  exists h, MurmurHash3_x86_32 le key = Some h /\ fits_unsigned 32 h.
Proof.
  unfold MurmurHash3_x86_32.
  assert (0 <= zlen key mod 4 < 4 /\ zlen key = 4 * (zlen key / 4) + zlen key mod 4) as [Hr Hk].
  { pose proof (Z.div_mod (zlen key) 4). pose proof (Z.mod_pos_bound (zlen key) 4). lia. }
  assert (Z.land (zlen key) 3 = zlen key mod 4) as Hl by (change 3 with (Z.ones 2); by rewrite Z.land_ones).
  destruct (murmur_body_total le (Z.to_nat (zlen key / 4)) key 0 0) as (h1 & -> & Hh1); [lia..|done|].
  cbn [mbind option_bind].
  assert (exists h, murmur_tail key (zlen key / 4) h1 = Some h /\ fits_unsigned 32 h) as (h & -> & Hh).
  { unfold murmur_tail. rewrite Hl. set (r := zlen key mod 4) in *. set (q := zlen key / 4) in *.
    destruct (Z.eqb_spec r 0); [eauto|].
    destruct (rd_Some key (4 * q)) as [t0 ->]; [lia|].
    destruct (Z.leb_spec 3 r); destruct (Z.leb_spec 2 r); try lia;
      try (destruct (rd_Some key (4 * q + 2)) as [t2 ->]; [lia|]);
      try (destruct (rd_Some key (4 * q + 1)) as [t1 ->]; [lia|]);
      cbn [mbind option_bind]; eexists; (split; [done|]);
      (apply lxor_bound; [done..|apply murmur_k_fits]). }
  cbn [mbind option_bind]. eexists; split; [done|].
  apply fmix32_fits, lxor_bound; [done..|by apply wrap_unsigned].
Qed.
