(* ===== verification/MdbAssoc.v ===== *)
(** The hash table of the cache core, [src/memcached/src/assoc_maintainer.cpp]:
    chained buckets in two tables, with buckets moved one at a time from the old
    table to one of twice the size by the maintainer thread.

    [None] is an invalid access or a failed assertion.  [Hash] is a parameter, as
    it is a function pointer in the source ([hash.h]); [MurmurHash3_x86_32] is
    the function the source installs. *)
From S2P Require Import Prelude MdbItem.

Notation table := (list (option loc)).

Definition hashsize (n : Z) : Z := wrap 64 (Z.shiftl 1 n).
Definition hashmask (n : Z) : Z := hashsize n - 1.

Record Assoc := mkAssoc {
  hashpower_ : Z;
  primary_hashtable_ : option table;
  old_hashtable_ : option table;
  hash_items_ : Z;
  expanding_ : bool;
  started_expanding_ : bool;
  expand_bucket_ : Z;
  hash_bulk_move_ : Z;
}.

Definition set_primary (t : option table) (s : Assoc) : Assoc :=
  mkAssoc (hashpower_ s) t (old_hashtable_ s) (hash_items_ s) (expanding_ s)
    (started_expanding_ s) (expand_bucket_ s) (hash_bulk_move_ s).
Definition set_old (t : option table) (s : Assoc) : Assoc :=
  mkAssoc (hashpower_ s) (primary_hashtable_ s) t (hash_items_ s) (expanding_ s)
    (started_expanding_ s) (expand_bucket_ s) (hash_bulk_move_ s).
Definition set_items (n : Z) (s : Assoc) : Assoc :=
  mkAssoc (hashpower_ s) (primary_hashtable_ s) (old_hashtable_ s) n (expanding_ s)
    (started_expanding_ s) (expand_bucket_ s) (hash_bulk_move_ s).
Definition set_started (b : bool) (s : Assoc) : Assoc :=
  mkAssoc (hashpower_ s) (primary_hashtable_ s) (old_hashtable_ s) (hash_items_ s) (expanding_ s)
    b (expand_bucket_ s) (hash_bulk_move_ s).

(** [new_table n]: [calloc] of [n] null pointers. *)
Definition new_table (n : Z) : table := replicate (Z.to_nat n) None.

Definition new_AssocMaintainer : Assoc := mkAssoc 16 None None 0 false false 0 1.

Inductive init_result := InitExit | InitDone (s : Assoc).

(** [ok] is whether [calloc] succeeds, [env] the integer in the environment
    variable, if it is set. *)
Definition InitAssoc (ok : bool) (env : option Z) (hashpower_init : Z) (s : Assoc) : init_result :=
  let hp := if hashpower_init =? 0 then hashpower_ s else wrap 32 hashpower_init in
  let t := if ok then Some (new_table (hashsize hp)) else None in
  match t with
  | Some _ => InitExit
  | None =>
      let bulk := match env with
                  | None => hash_bulk_move_ s
                  | Some v => if v =? 0 then 1 else v
                  end in
      InitDone (mkAssoc hp None (old_hashtable_ s) (hash_items_ s) (expanding_ s)
                  (started_expanding_ s) (expand_bucket_ s) bulk)
  end.

(** ** Slots: the places an [Item**] points to *)
Inductive slot := InOld (i : Z) | InPrimary (i : Z) | InItem (p : loc).
#[global] Instance slot_eq_dec : EqDecision slot.
Proof. solve_decision. Defined.

Definition tab_get (t : option table) (i : Z) : option (option loc) :=
  t ← t; if 0 <=? i then t !! Z.to_nat i else None.
Definition tab_set (t : option table) (i : Z) (p : option loc) : option (option table) :=
  t ← t; if (0 <=? i) && (i <? zlen t) then Some (Some (<[Z.to_nat i := p]> t)) else None.

Definition deref (h : heap) (s : Assoc) (pos : slot) : option (option loc) :=
  match pos with
  | InOld i => tab_get (old_hashtable_ s) i
  | InPrimary i => tab_get (primary_hashtable_ s) i
  | InItem p => it ← h !! p; Some (h_next it)
  end.

Definition assign (h : heap) (s : Assoc) (pos : slot) (p : option loc) : option (heap * Assoc) :=
  match pos with
  | InOld i => t ← tab_set (old_hashtable_ s) i p; Some (h, set_old t s)
  | InPrimary i => t ← tab_set (primary_hashtable_ s) i p; Some (h, set_primary t s)
  | InItem a => h ← upd h a (set_h_next p); Some (h, s)
  end.

(** The bucket of a hash value: the old table for the buckets that have not
    been moved yet. *)
Definition bucket_slot (s : Assoc) (hv : Z) : slot :=
  let oldbucket := wrap 32 (Z.land hv (hashmask (wrap 32 (hashpower_ s - 1)))) in
  if expanding_ s && (expand_bucket_ s <=? oldbucket) then InOld oldbucket
  else InPrimary (Z.land hv (hashmask (hashpower_ s))).

(** [nkey == it->nkey && memcmp(key, ITEM_key(it), nkey) == 0] *)
Definition key_matches (key : list Z) (it : Item) : option bool :=
  if zlen key =? nkey it then
    ks ← rd_bytes (data it) (ITEM_key it) (zlen key); Some (bool_decide (key = ks))
  else Some false.

Fixpoint AssocFind_loop (fuel : nat) (h : heap) (key : list Z) (p : option loc) : option (option loc) :=
  match fuel with
  | O => None
  | S fuel =>
      match p with
      | None => Some None
      | Some a =>
          it ← h !! a;
          m ← key_matches key it;
          if m : bool then Some (Some a) else AssocFind_loop fuel h key (h_next it)
      end
  end.

(** A chain visits an item once, so one more step than there are items. *)
Definition chain_fuel (h : heap) : nat := S (size h).

Definition AssocFind (h : heap) (s : Assoc) (key : list Z) (hv : Z) : option (option loc) :=
  it ← deref h s (bucket_slot s hv);
  AssocFind_loop (chain_fuel h) h key it.

(** [ok] is whether [calloc] succeeds. *)
Definition AssocExpand (ok : bool) (s : Assoc) : Assoc :=
  if ok then
    let hp := wrap 32 (hashpower_ s + 1) in
    mkAssoc hp (Some (new_table (hashsize hp))) (primary_hashtable_ s)
      (hash_items_ s) true (started_expanding_ s) 0 (hash_bulk_move_ s)
  else set_old (primary_hashtable_ s) s.

Definition AssocInsert (ok : bool) (h : heap) (s : Assoc) (it : loc) (hv : Z) : option (heap * Assoc) :=
  let pos := bucket_slot s hv in
  p ← deref h s pos;
  h ← upd h it (set_h_next p);
  '(h, s) ← assign h s pos (Some it);
  let s := set_items (wrap 32 (hash_items_ s + 1)) s in
  if negb (expanding_ s) && (hashsize (hashpower_ s) * 3 / 2 <? hash_items_ s)
  then Some (h, AssocExpand ok s) else Some (h, s).

Fixpoint HashitemBefore_loop (fuel : nat) (h : heap) (s : Assoc) (key : list Z) (pos : slot) :
  option slot :=
  match fuel with
  | O => None
  | S fuel =>
      p ← deref h s pos;
      match p with
      | None => Some pos
      | Some a =>
          it ← h !! a;
          m ← key_matches key it;
          if m : bool then Some pos else HashitemBefore_loop fuel h s key (InItem a)
      end
  end.

Definition HashitemBefore (h : heap) (s : Assoc) (key : list Z) (hv : Z) : option slot :=
  HashitemBefore_loop (chain_fuel h) h s key (bucket_slot s hv).

Definition AssocDelete (h : heap) (s : Assoc) (key : list Z) (hv : Z) : option (heap * Assoc) :=
  before ← HashitemBefore h s key hv;
  p ← deref h s before;
  a ← p;
  let s := set_items (wrap 32 (hash_items_ s - 1)) s in
  it ← h !! a;
  h ← upd h a (set_h_next None);
  assign h s before (h_next it).

Definition AssocStartExpand (s : Assoc) : Assoc := set_started true s.

Section maintainer.
Context (Hash : list Z -> Z).

(** The move of one bucket by [Run]: each item of the chain goes to the front of
    its bucket in the primary table. *)
Fixpoint move_loop (fuel : nat) (h : heap) (hp : Z) (t : option table) (p : option loc) :
  option (heap * option table) :=
  match fuel with
  | O => None
  | S fuel =>
      match p with
      | None => Some (h, t)
      | Some a =>
          it ← h !! a;
          k ← item_key it;
          let bucket := swrap 32 (Z.land (Hash k) (hashmask hp)) in
          q ← tab_get t bucket;
          h ← upd h a (set_h_next q);
          t ← tab_set t bucket (Some a);
          move_loop fuel h hp t (h_next it)
      end
  end.

Definition move_bucket (h : heap) (s : Assoc) : option (heap * Assoc) :=
  p ← tab_get (old_hashtable_ s) (expand_bucket_ s);
  '(h, t) ← move_loop (chain_fuel h) h (hashpower_ s) (primary_hashtable_ s) p;
  old ← tab_set (old_hashtable_ s) (expand_bucket_ s) None;
  let eb := wrap 32 (expand_bucket_ s + 1) in
  if eb =? hashsize (wrap 32 (hashpower_ s - 1))
  then Some (h, mkAssoc (hashpower_ s) t None (hash_items_ s) false (started_expanding_ s) eb
                  (hash_bulk_move_ s))
  else Some (h, mkAssoc (hashpower_ s) t old (hash_items_ s) (expanding_ s) (started_expanding_ s)
                  eb (hash_bulk_move_ s)).

(** ** The table with its maintainer thread

    [Run] either moves buckets or sleeps in [pthread_cond_wait].  Each worker
    operation and each iteration of the maintainer's loop is one step; a step of
    the thread where it cannot take it is [None]. *)
Record ATable := mkATable { items : heap; assoc : Assoc; waiting : bool }.

Inductive event :=
  | EFind (key : list Z)
  | EInsert (ok : bool) (it : loc)
  | EDelete (key : list Z)
  | EStartExpand
  | ERun (lock : bool)      (* an iteration of the moving loop; [lock] is [TryLock]'s result *)
  | EWait                   (* [expanding_] is false: sleep *)
  | EWake (ok : bool).      (* [pthread_cond_wait] returns: expand *)

Inductive output := Found (r : option loc) | Silent.

Definition step (x : ATable) (e : event) : option (output * ATable) :=
  let '(mkATable h s w) := x in
  match e with
  | EFind key => r ← AssocFind h s key (Hash key); Some (Found r, x)
  | EInsert ok it =>
      i ← h !! it;
      k ← item_key i;
      '(h, s) ← AssocInsert ok h s it (Hash k);
      Some (Silent, mkATable h s w)
  | EDelete key =>
      '(h, s) ← AssocDelete h s key (Hash key);
      Some (Silent, mkATable h s w)
  | EStartExpand => Some (Silent, mkATable h (AssocStartExpand s) w)
  | ERun lock =>
      if negb w && (0 <? hash_bulk_move_ s) && expanding_ s then
        if lock then '(h, s) ← move_bucket h s; Some (Silent, mkATable h s w) else Some (Silent, x)
      else None
  | EWait => if negb w && negb (expanding_ s) then Some (Silent, mkATable h (set_started false s) true)
             else None
  | EWake ok => if w then Some (Silent, mkATable h (AssocExpand ok s) false) else None
  end.

Fixpoint steps (x : ATable) (es : list event) : option (list output * ATable) :=
  match es with
  | [] => Some ([], x)
  | e :: es =>
      '(o, x) ← step x e;
      '(os, x) ← steps x es;
      Some (o :: os, x)
  end.
End maintainer.

#[global] Arguments tab_get : simpl never.
#[global] Arguments tab_set : simpl never.

(** ** Chains in the heap *)
Inductive chain (h : heap) : option loc -> list loc -> Prop :=
  | chain_nil : chain h None []
  | chain_cons a it l :
      h !! a = Some it -> chain h (h_next it) l -> chain h (Some a) (a :: l).

Definition key_at (h : heap) (a : loc) (k : list Z) : Prop :=
  exists it, h !! a = Some it /\ item_key it = Some k.

(** Two heaps that differ in the [h_next] of their items only. *)
Definition links_only (h h' : heap) : Prop :=
  forall a, set_h_next None <$> h !! a = set_h_next None <$> h' !! a.

Lemma links_only_refl h : links_only h h.
Proof. done. Qed.

Lemma links_only_trans h1 h2 h3 : links_only h1 h2 -> links_only h2 h3 -> links_only h1 h3.
Proof. intros H1 H2 a. by rewrite H1. Qed.

Lemma item_key_link p it : item_key (set_h_next p it) = item_key it.
Proof. done. Qed.

Lemma links_only_key h h' a k : links_only h h' -> key_at h a k -> key_at h' a k.
Proof.
  intros Hl (it & Hit & Hk). specialize (Hl a). rewrite Hit in Hl.
  destruct (h' !! a) as [it'|] eqn:E; [|done]. exists it'. split; [done|].
  rewrite <-(item_key_link None). injection Hl as Hl.
  assert (set_h_next None it = set_h_next None it') as <- by (unfold set_h_next; congruence).
  done.
Qed.

Lemma upd_links_only h a p h' : upd h a (set_h_next p) = Some h' -> links_only h h'.
Proof.
  unfold upd. destruct (h !! a) as [it|] eqn:E; [|done]. intros [= <-] b.
  destruct (decide (b = a)) as [->|]; [by rewrite lookup_insert, decide_True, E by done|].
  by rewrite lookup_insert_ne.
Qed.

Lemma upd_Some h a it f : h !! a = Some it -> upd h a f = Some (<[a := f it]> h).
Proof. unfold upd. by intros ->. Qed.

Lemma key_at_fun h a k k' : key_at h a k -> key_at h a k' -> k = k'.
Proof. intros (? & ? & ?) (? & ? & ?). congruence. Qed.

Lemma chain_frame h h' p l : chain h p l -> (forall c, c ∈ l -> h' !! c = h !! c) -> chain h' p l.
Proof.
  induction 1 as [|a it l Ha Hc IH]; intros Hf; [constructor|].
  econstructor; [rewrite Hf; [done|left]|]. apply IH. intros. apply Hf. by right.
Qed.

Lemma chain_lookup h p l a : chain h p l -> a ∈ l -> is_Some (h !! a).
Proof.
  induction 1 as [|b it l Hb Hc IH]; intros Ha; [by apply elem_of_nil in Ha|].
  apply elem_of_cons in Ha as [-> | Ha]; eauto.
Qed.

Lemma chain_length h p l : chain h p l -> NoDup l -> (length l < chain_fuel h)%nat.
Proof.
  intros Hc Hn. unfold chain_fuel. rewrite <-(size_dom h).
  rewrite <-(size_list_to_set (C := gset loc) l) by done.
  enough (size (list_to_set (C := gset loc) l) <= size (dom h))%nat by lia.
  apply subseteq_size. intros a Ha%elem_of_list_to_set.
  apply elem_of_dom. by eapply chain_lookup.
Qed.

Lemma key_matches_spec key it k :
  item_key it = Some k -> key_matches key it = Some (bool_decide (key = k)).
Proof.
  unfold key_matches, item_key. intros Hk.
  pose proof (rd_bytes_inv _ _ _ _ Hk) as (_ & _ & Hlen).
  destruct (Z.eqb_spec (zlen key) (nkey it)) as [->|Hne]; [by rewrite Hk|].
  rewrite bool_decide_false; [done|]. intros ->. lia.
Qed.

Lemma AssocFind_loop_spec h key l p fuel :
  chain h p l -> (forall a, a ∈ l -> exists k, key_at h a k) -> (length l < fuel)%nat ->
  exists r, AssocFind_loop fuel h key p = Some r /\
    match r with
    | Some a => a ∈ l /\ key_at h a key
    | None => forall a, a ∈ l -> ~ key_at h a key
    end.
Proof.
  intros Hc. revert fuel. induction Hc as [|a it l Ha Hc IH]; intros fuel Hk Hf;
    (destruct fuel as [|fuel]; [simpl in Hf; lia|]); cbn [AssocFind_loop].
  { exists None. split; [done|]. intros a Ha%elem_of_nil. done. }
  destruct (Hk a ltac:(left)) as [k Hka]. pose proof Hka as (it' & Hit & Hitk).
  rewrite Ha in Hit. injection Hit as <-. rewrite Ha. cbn [mbind option_bind].
  rewrite (key_matches_spec _ _ _ Hitk). cbn [mbind option_bind]. case_bool_decide as Hkey.
  { subst k. exists (Some a). split; [done|]. split; [left|done]. }
  destruct (IH fuel) as (r & -> & Hr); [intros; apply Hk; by right|simpl in Hf; lia|].
  exists r. split; [done|]. destruct r as [b|]; [destruct Hr; split; [by right|done]|].
  intros b Hb Hkb. apply elem_of_cons in Hb as [-> | Hb]; [|by eapply Hr].
  by apply Hkey, (key_at_fun h a).
Qed.

(** The slot that points to the element after [l1] in the chain at [pos]. *)
Definition last_slot (pos : slot) (l1 : list loc) : slot :=
  match last l1 with Some b => InItem b | None => pos end.

Lemma last_slot_cons pos b l : last_slot pos (b :: l) = last_slot (InItem b) l.
Proof. unfold last_slot. rewrite last_cons. by destruct (last l). Qed.

Lemma HashitemBefore_loop_spec h s key a l p pos fuel :
  chain h p l -> deref h s pos = Some p -> (forall b, b ∈ l -> exists k, key_at h b k) ->
  a ∈ l -> key_at h a key -> (forall b, b ∈ l -> key_at h b key -> b = a) -> (length l < fuel)%nat ->
  exists l1 l2, l = l1 ++ a :: l2 /\
    HashitemBefore_loop fuel h s key pos = Some (last_slot pos l1).
Proof.
  intros Hc. revert pos fuel.
  induction Hc as [|b it l Hb Hc IH]; intros pos fuel Hd Hk Ha Hka Hu Hf; [by apply elem_of_nil in Ha|].
  destruct fuel as [|fuel]; [simpl in Hf; lia|]. cbn [HashitemBefore_loop].
  rewrite Hd. cbn [mbind option_bind]. rewrite Hb. cbn [mbind option_bind].
  destruct (Hk b ltac:(left)) as [k Hkb]. pose proof Hkb as (it' & Hit & Hitk).
  rewrite Hb in Hit. injection Hit as <-. rewrite (key_matches_spec _ _ _ Hitk). cbn [mbind option_bind].
  case_bool_decide as Hkey.
  { subst k. rewrite (Hu b) by (done || left). by exists [], l. }
  apply elem_of_cons in Ha as [-> | Ha]; [by destruct Hkey; apply (key_at_fun h b)|].
  destruct (IH (InItem b) fuel) as (l1 & l2 & -> & ->); try done.
  - cbn [deref]. by rewrite Hb.
  - intros; apply Hk; by right.
  - intros; apply Hu; [by right|done].
  - simpl in Hf; lia.
  - exists (b :: l1), l2. by rewrite last_slot_cons.
Qed.

(** ** Buckets *)
Lemma tab_get_Some t P i : t = Some P -> 0 <= i < zlen P -> exists p, tab_get t i = Some p.
Proof.
  intros -> Hi. unfold tab_get. cbn [mbind option_bind]. rewrite (proj2 (Z.leb_le 0 i)) by lia.
  apply lookup_lt_is_Some. lia.
Qed.

Lemma tab_set_Some t P i p :
  t = Some P -> 0 <= i < zlen P -> tab_set t i p = Some (Some (<[Z.to_nat i := p]> P)).
Proof.
  intros -> Hi. unfold tab_set. cbn [mbind option_bind].
  by rewrite (proj2 (Z.leb_le 0 i)), (proj2 (Z.ltb_lt i (zlen P))) by lia.
Qed.

Lemma tab_get_range t P i p : t = Some P -> tab_get t i = Some p -> 0 <= i < zlen P.
Proof.
  intros -> Hi. unfold tab_get in Hi. cbn [mbind option_bind] in Hi.
  destruct (Z.leb_spec 0 i); [|done]. apply lookup_lt_Some in Hi. lia.
Qed.

Lemma tab_get_set P i j p :
  0 <= i < zlen P ->
  tab_get (Some (<[Z.to_nat i := p]> P)) j = if bool_decide (i = j) then Some p else tab_get (Some P) j.
Proof.
  intros Hi. unfold tab_get. cbn [mbind option_bind]. case_bool_decide as E.
  - subst j. rewrite (proj2 (Z.leb_le 0 i)) by lia. apply list_lookup_insert_eq. lia.
  - destruct (Z.leb_spec 0 j); [|done]. apply list_lookup_insert_ne. lia.
Qed.

Lemma tab_get_new n i : 0 <= i < n -> tab_get (Some (new_table n)) i = Some None.
Proof.
  intros. unfold tab_get, new_table. cbn [mbind option_bind]. rewrite (proj2 (Z.leb_le 0 i)) by lia.
  apply lookup_replicate_2. lia.
Qed.

Lemma length_new_table n : 0 <= n -> zlen (new_table n) = n.
Proof. intros. unfold new_table. rewrite length_replicate. lia. Qed.

Lemma hashsize_pow n : 0 <= n < 64 -> hashsize n = 2 ^ n.
Proof.
  intros. unfold hashsize. rewrite Z.shiftl_1_l. apply wrap_fits. split; [lia|].
  apply Z.pow_lt_mono_r; lia.
Qed.

Lemma land_hashmask hv n : 0 <= n < 64 -> Z.land hv (hashmask n) = hv mod 2 ^ n.
Proof.
  intros. unfold hashmask. rewrite hashsize_pow by done.
  rewrite <-Z.land_ones, Z.ones_equiv by lia. done.
Qed.

(** The shape of the tables: [MAX_POWER] keeps a bucket number in an [int]. *)
Definition MAX_POWER : Z := 31.
Definition MAX_ITEMS : Z := 3 * 2 ^ 30.

Record shape (s : Assoc) : Prop := {
  sh_power : 0 <= hashpower_ s <= MAX_POWER;
  sh_primary : exists P, primary_hashtable_ s = Some P /\ zlen P = 2 ^ hashpower_ s;
  sh_old : expanding_ s = true ->
    1 <= hashpower_ s /\ 0 <= expand_bucket_ s < 2 ^ (hashpower_ s - 1) /\
    exists O, old_hashtable_ s = Some O /\ zlen O = 2 ^ (hashpower_ s - 1);
}.

(** Where the source means an item with hash value [hv] to be. *)
Definition home (expanding : bool) (hp eb hv : Z) : slot :=
  if expanding && (eb <=? hv mod 2 ^ (hp - 1)) then InOld (hv mod 2 ^ (hp - 1))
  else InPrimary (hv mod 2 ^ hp).

Lemma bucket_slot_home s hv :
  shape s -> bucket_slot s hv = home (expanding_ s) (hashpower_ s) (expand_bucket_ s) hv.
Proof.
  intros [Hp _ Ho]. unfold bucket_slot, home, MAX_POWER in *. rewrite (land_hashmask hv (hashpower_ s)) by lia.
  destruct (expanding_ s); [|done]. specialize (Ho eq_refl) as (H1 & _).
  assert (wrap 32 (hashpower_ s - 1) = hashpower_ s - 1) as -> by (apply wrap_fits; split; lia).
  rewrite land_hashmask by lia.
  assert (0 <= hv mod 2 ^ (hashpower_ s - 1) < 2 ^ (hashpower_ s - 1)) by (apply Z.mod_pos_bound; lia).
  assert (2 ^ (hashpower_ s - 1) <= 2 ^ 32) by (apply Z.pow_le_mono_r; lia).
  rewrite wrap_fits by (split; lia). done.
Qed.

(** The slots of the live tables. *)
Definition table_slot (s : Assoc) (pos : slot) : Prop :=
  match pos with InPrimary _ => True | InOld _ => expanding_ s = true | InItem _ => False end.

Lemma bucket_slot_table s hv : table_slot s (bucket_slot s hv).
Proof. unfold bucket_slot. destruct (expanding_ s) eqn:E; simpl; [case_match|]; simpl; done. Qed.

Lemma bucket_slot_deref h s hv : shape s -> exists p, deref h s (bucket_slot s hv) = Some p.
Proof.
  intros Hs. rewrite bucket_slot_home by done. destruct Hs as [Hp (P & HP & HlP) Ho]. unfold home.
  assert (0 <= hv mod 2 ^ hashpower_ s < 2 ^ hashpower_ s) by (apply Z.mod_pos_bound; lia).
  destruct (expanding_ s); cbn [andb]; [|cbn [deref]; eapply tab_get_Some; [done|lia]].
  specialize (Ho eq_refl) as (H1 & Heb & O & HO & HlO).
  assert (0 <= hv mod 2 ^ (hashpower_ s - 1) < 2 ^ (hashpower_ s - 1)) by (apply Z.mod_pos_bound; lia).
  case_match; cbn [deref]; eapply tab_get_Some; eauto; lia.
Qed.

(** Assigning to a slot of a table changes that slot only. *)
Lemma assign_table h s pos p q :
  shape s -> table_slot s pos -> deref h s pos = Some p ->
  exists s', assign h s pos q = Some (h, s') /\ shape s' /\ deref h s' pos = Some q /\
    (forall h' pos', pos' <> pos -> table_slot s pos' -> deref h' s' pos' = deref h' s pos') /\
    hashpower_ s' = hashpower_ s /\ expanding_ s' = expanding_ s /\
    expand_bucket_ s' = expand_bucket_ s /\ hash_items_ s' = hash_items_ s /\
    hash_bulk_move_ s' = hash_bulk_move_ s.
Proof.
  intros [Hp (P & HP & HlP) Ho] Ht Hd. destruct pos as [i|i|b]; [| |done]; cbn [deref assign] in *.
  - specialize (Ho Ht) as (H1 & Heb & O & HO & HlO).
    pose proof (tab_get_range _ _ _ _ HO Hd) as Hi. rewrite (tab_set_Some _ _ _ _ HO Hi).
    cbn [mbind option_bind]. eexists; split; [done|]. split_and!; try done.
    + split; simpl; [done|eauto|]. intros _. split_and!; try lia.
      eexists; split; [done|]. by rewrite length_insert.
    + simpl. rewrite tab_get_set by done. by rewrite bool_decide_true.
    + intros h' [j|j|c] Hne Hs; simpl; [|done..]. rewrite tab_get_set by done.
      rewrite bool_decide_false by congruence. by rewrite HO.
  - pose proof (tab_get_range _ _ _ _ HP Hd) as Hi. rewrite (tab_set_Some _ _ _ _ HP Hi).
    cbn [mbind option_bind]. eexists; split; [done|]. split_and!; try done.
    + split; simpl; [done| |done]. eexists; split; [done|]. by rewrite length_insert.
    + simpl. rewrite tab_get_set by done. by rewrite bool_decide_true.
    + intros h' [j|j|c] Hne Hs; simpl; [done| |done]. rewrite tab_get_set by done.
      rewrite bool_decide_false by congruence. by rewrite HP.
Qed.

(** ** The invariant: the table holds the map [m] *)
Section correctness.
Context (Hash : list Z -> Z).
Implicit Types (m : gmap (list Z) loc).

Definition bucket_ok (h : heap) (s : Assoc) m (pos : slot) (p : option loc) : Prop :=
  exists l, chain h p l /\ NoDup l /\
    forall a, a ∈ l <-> exists k, m !! k = Some a /\ bucket_slot s (Hash k) = pos.

Record Inv (h : heap) (s : Assoc) m : Prop := {
  inv_shape : shape s;
  inv_items : hash_items_ s = Z.of_nat (size m);
  inv_max : Z.of_nat (size m) <= MAX_ITEMS;
  inv_keys : forall k a, m !! k = Some a -> key_at h a k;
  inv_slots : forall pos p, table_slot s pos -> deref h s pos = Some p -> bucket_ok h s m pos p;
}.

Lemma bucket_slot_same s s' hv :
  hashpower_ s' = hashpower_ s -> expanding_ s' = expanding_ s ->
  expand_bucket_ s' = expand_bucket_ s -> bucket_slot s' hv = bucket_slot s hv.
Proof. unfold bucket_slot. by intros -> -> ->. Qed.

Lemma bucket_keys h s m pos (l : list loc) :
  Inv h s m -> (forall a, a ∈ l <-> exists k, m !! k = Some a /\ bucket_slot s (Hash k) = pos) ->
  forall a, a ∈ l -> exists k, key_at h a k.
Proof. intros HI Hl a Ha. apply Hl in Ha as (k & Hk & _). exists k. by eapply inv_keys. Qed.

(** A key of the map is found at its address, another key is not found. *)
Lemma AssocFind_spec h s m key :
  Inv h s m -> AssocFind h s key (Hash key) = Some (m !! key).
Proof.
  intros HI. unfold AssocFind.
  destruct (bucket_slot_deref h s (Hash key)) as [p Hp]; [by eapply inv_shape|].
  rewrite Hp. cbn [mbind option_bind].
  destruct (inv_slots _ _ _ HI _ _ (bucket_slot_table s _) Hp) as (l & Hc & Hn & Hl).
  destruct (AssocFind_loop_spec h key l p (chain_fuel h)) as (r & -> & Hr);
    [done|by eapply bucket_keys|by eapply chain_length|]. f_equal.
  destruct r as [a|].
  - destruct Hr as [Ha Hk]. apply Hl in Ha as (k & Hk' & _).
    rewrite (key_at_fun h a key k); [done|done|by eapply inv_keys].
  - destruct (m !! key) as [a|] eqn:E; [|done]. destruct (Hr a).
    + apply Hl. eauto.
    + by eapply inv_keys.
Qed.

(** Heaps that agree on the links and keys of the map's items are as good. *)
Lemma bucket_frame h h' s s' m m' pos p :
  bucket_ok h s m pos p ->
  (forall k, bucket_slot s' (Hash k) = bucket_slot s (Hash k)) ->
  (forall k a, bucket_slot s (Hash k) = pos -> m' !! k = Some a <-> m !! k = Some a) ->
  (forall k a, m !! k = Some a -> bucket_slot s (Hash k) = pos -> h' !! a = h !! a) ->
  bucket_ok h' s' m' pos p.
Proof.
  intros (l & Hc & Hn & Hl) Hb Hm Hh. exists l. split_and!; [|done|].
  - apply (chain_frame h); [done|]. intros c (k & Hk & Hs)%Hl. by apply (Hh k).
  - intros a. rewrite Hl. split; intros (k & Hk & Hs); exists k; split; try (apply Hm; [|done]);
      congruence.
Qed.

(** The same for a bucket that keeps its items while others move. *)
Lemma bucket_stays h h' s s' m pos p :
  bucket_ok h s m pos p ->
  (forall k, bucket_slot s' (Hash k) = pos <-> bucket_slot s (Hash k) = pos) ->
  (forall k a, m !! k = Some a -> bucket_slot s (Hash k) = pos -> h' !! a = h !! a) ->
  bucket_ok h' s' m pos p.
Proof.
  intros (l & Hc & Hn & Hl) Hb Hh. exists l. split_and!; [|done|].
  - apply (chain_frame h); [done|]. intros c (k & Hk & Hs)%Hl. by apply (Hh k).
  - intros a. rewrite Hl. by setoid_rewrite Hb.
Qed.

Lemma shape_items n s : shape s -> shape (set_items n s).
Proof. by intros []. Qed.

Lemma deref_items h n s pos : deref h (set_items n s) pos = deref h s pos.
Proof. by destruct pos. Qed.

Lemma deref_heap h h' s pos : table_slot s pos -> deref h s pos = deref h' s pos.
Proof. by destruct pos. Qed.

Lemma table_slot_same s s' pos : expanding_ s' = expanding_ s -> table_slot s' pos <-> table_slot s pos.
Proof. by destruct pos; simpl; intros; [rewrite H| |]. Qed.

Lemma Inv_insert h s m a k p :
  Inv h s m -> key_at h a k -> m !! k = None -> Z.of_nat (size m) < MAX_ITEMS ->
  deref h s (bucket_slot s (Hash k)) = Some p ->
  exists h' s', upd h a (set_h_next p) = Some h' /\
    assign h' s (bucket_slot s (Hash k)) (Some a) = Some (h', s') /\
    Inv h' (set_items (wrap 32 (hash_items_ s' + 1)) s') (<[k := a]> m) /\
    links_only h h' /\ expanding_ s' = expanding_ s /\ hashpower_ s' = hashpower_ s /\
    hash_bulk_move_ s' = hash_bulk_move_ s.
Proof.
  intros HI Hka Hk Hmax Hp. pose proof Hka as (it & Hit & Hitk).
  assert (forall k', m !! k' <> Some a) as Hnew.
  { intros k' Hk'. pose proof (inv_keys _ _ _ HI _ _ Hk') as Hka'.
    rewrite (key_at_fun h a k k') in Hk by done. congruence. }
  rewrite (upd_Some _ _ _ _ Hit). set (h' := <[a := set_h_next p it]> h). exists h'.
  assert (links_only h h') as Hlo by (apply (upd_links_only h a p); by apply upd_Some).
  assert (deref h' s (bucket_slot s (Hash k)) = Some p) as Hp'.
  { pose proof (bucket_slot_table s (Hash k)). by destruct (bucket_slot s (Hash k)). }
  destruct (assign_table h' s _ p (Some a) (inv_shape _ _ _ HI) (bucket_slot_table s _) Hp')
    as (s' & Has & Hsh & Hd & Hoth & E1 & E2 & E3 & E4 & E5).
  exists s'. split_and!; try done.
  assert (forall k', bucket_slot (set_items (wrap 32 (hash_items_ s' + 1)) s') (Hash k')
                     = bucket_slot s (Hash k')) as Hbs by (intros; by apply bucket_slot_same).
  split.
  - by apply shape_items.
  - simpl. rewrite E4, (inv_items _ _ _ HI), map_size_insert_None by done.
    unfold MAX_ITEMS in *. rewrite wrap_fits by (split; lia). lia.
  - rewrite map_size_insert_None by done. lia.
  - intros k' b. rewrite lookup_insert_Some. intros [[<- <-] | [_ Hb]].
    + by eapply links_only_key.
    + eapply links_only_key; [done|]. by eapply inv_keys.
  - intros pos q Ht Hq. rewrite deref_items in Hq.
    apply (table_slot_same s) in Ht; [|done].
    destruct (decide (pos = bucket_slot s (Hash k))) as [->|Hne].
    + assert (q = Some a) as -> by congruence.
      destruct (inv_slots _ _ _ HI _ _ (bucket_slot_table s (Hash k)) Hp) as (l & Hc & Hn & Hl).
      assert (a ∉ l) by (intros (k' & Hk' & _)%Hl; by eapply Hnew).
      exists (a :: l). split_and!.
      * econstructor; [by apply lookup_insert_eq|]. apply (chain_frame h); [done|].
        intros c Hc'. apply lookup_insert_ne. congruence.
      * by constructor.
      * intros b. rewrite elem_of_cons, Hl. split.
        -- intros [-> | (k' & Hk' & Hs)]; [exists k; by rewrite lookup_insert_eq, Hbs|].
           exists k'. rewrite Hbs. split; [|done]. rewrite lookup_insert_ne by congruence. done.
        -- intros (k' & Hk' & Hs). rewrite Hbs in Hs.
           apply lookup_insert_Some in Hk' as [[<- <-] | [_ Hk']]; eauto.
    + apply (bucket_frame h _ s _ m); [|done| |].
      * eapply inv_slots; [done..|]. by rewrite (deref_heap _ h'), <-Hoth.
      * intros k' b Hs. rewrite lookup_insert_ne by congruence. done.
      * intros k' b Hb _. apply lookup_insert_ne. intros ->. by eapply Hnew.
Qed.

Lemma expand_home hp hv : 0 <= hp -> home true (hp + 1) 0 hv = InOld (hv mod 2 ^ hp).
Proof.
  intros. unfold home. rewrite Z.add_simpl_r. cbn [andb].
  rewrite (proj2 (Z.leb_le 0 _)); [done|]. apply Z.mod_pos_bound. lia.
Qed.

(** Growing the table keeps the map: the items are all in the old table. *)
Lemma Inv_expand h s m ok :
  Inv h s m -> expanding_ s = false -> hashpower_ s < MAX_POWER -> Inv h (AssocExpand ok s) m.
Proof.
  intros HI He Hp. pose proof (inv_shape _ _ _ HI) as Hs. pose proof Hs as [Hpow (P & HP & HlP) _].
  unfold MAX_POWER in *. unfold AssocExpand. destruct ok.
  - assert (wrap 32 (hashpower_ s + 1) = hashpower_ s + 1) as -> by (apply wrap_fits; split; lia).
    rewrite hashsize_pow by lia.
    set (s' := mkAssoc _ _ _ _ _ _ _ _).
    assert (shape s') as Hs'.
    { split; simpl; [unfold MAX_POWER; lia| |].
      - eexists; split; [done|]. apply length_new_table. lia.
      - intros _. rewrite Z.add_simpl_r. split_and!; [lia..|]. eauto. }
    assert (forall hv, bucket_slot s' hv = InOld (hv mod 2 ^ hashpower_ s)) as Hb'
      by (intros; rewrite bucket_slot_home by done; apply expand_home; lia).
    assert (forall hv, bucket_slot s hv = InPrimary (hv mod 2 ^ hashpower_ s)) as Hb
      by (intros; rewrite bucket_slot_home by done; unfold home; by rewrite He).
    split; [done|apply HI..|]. intros pos p Ht Hd. destruct pos as [i|i|b]; [| |done].
    + destruct (inv_slots _ _ _ HI (InPrimary i) p) as (l & Hc & Hn & Hl); [done..|].
      exists l. split_and!; [done..|]. intros a. rewrite Hl.
      split; intros (k & Hk & E); exists k; (split; [done|]); rewrite Hb, Hb' in *; congruence.
    + simpl in Hd. pose proof (tab_get_range _ _ _ _ eq_refl Hd) as Hi.
      rewrite length_new_table in Hi by lia. rewrite tab_get_new in Hd by done. injection Hd as <-.
      exists []. split_and!; [constructor..|]. intros a. rewrite elem_of_nil.
      split; [done|]. intros (k & Hk & E). by rewrite Hb' in E.
  - split; [|apply HI..|].
    + split; simpl; [unfold MAX_POWER; lia|eauto|congruence].
    + intros pos p Ht Hd. apply (bucket_frame h h s _ m); try done.
      destruct pos; simpl in Ht; [congruence| |done]. by apply (inv_slots _ _ _ HI).
Qed.

(** What every operation keeps besides the map. *)
Definition same_config (s s' : Assoc) : Prop :=
  hash_bulk_move_ s' = hash_bulk_move_ s /\ hashpower_ s <= hashpower_ s'.

Lemma AssocInsert_spec ok h s m a k :
  Inv h s m -> key_at h a k -> m !! k = None -> Z.of_nat (size m) < MAX_ITEMS ->
  exists h' s', AssocInsert ok h s a (Hash k) = Some (h', s') /\ Inv h' s' (<[k := a]> m) /\
    links_only h h' /\ same_config s s'.
Proof.
  intros HI Hka Hk Hmax. unfold AssocInsert.
  destruct (bucket_slot_deref h s (Hash k)) as [p Hp]; [apply HI|]. rewrite Hp. cbn [mbind option_bind].
  destruct (Inv_insert h s m a k p) as (h' & s' & -> & E & HI' & Hlo & E1 & E2 & E3); try done.
  cbn [mbind option_bind]. rewrite E. cbn [mbind option_bind].
  set (s1 := set_items _ s') in *.
  destruct (negb (expanding_ s1) && _) eqn:Eexp; eexists _, _; (split; [done|]).
  - apply andb_true_iff in Eexp as [Ee%negb_true_iff Hsz%Z.ltb_lt].
    assert (hashpower_ s1 < MAX_POWER).
    { pose proof (sh_power _ (inv_shape _ _ _ HI')). unfold MAX_POWER, MAX_ITEMS in *.
      rewrite hashsize_pow in Hsz by lia. pose proof (inv_items _ _ _ HI'). pose proof (inv_max _ _ _ HI').
      unfold MAX_ITEMS in *. destruct (decide (hashpower_ s1 = 31)) as [E31|]; [|lia].
      rewrite E31 in Hsz. change (2 ^ 31 * 3 / 2) with (3 * 2 ^ 30) in Hsz. lia. }
    split_and!; [by apply Inv_expand|done|].
    split; [by destruct ok|]. destruct ok; simpl; [|lia].
    unfold MAX_POWER in *. pose proof (sh_power _ (inv_shape _ _ _ HI)).
    rewrite wrap_fits; [lia|split; simpl in *; lia].
  - split_and!; [done..|]. split; simpl; [done|lia].
Qed.

(** ** Unlinking an item from its chain *)
Lemma chain_head h a l p : chain h p (a :: l) -> p = Some a /\ exists it, h !! a = Some it /\ chain h (h_next it) l.
Proof. inversion 1; subst. eauto. Qed.

Lemma chain_unlink h l0 b a l2 p ita :
  chain h p (l0 ++ b :: a :: l2) -> NoDup (l0 ++ b :: a :: l2) -> h !! a = Some ita ->
  exists itb, h !! b = Some itb /\ chain (<[b := set_h_next (h_next ita) itb]> (<[a := set_h_next None ita]> h)) p (l0 ++ b :: l2).
Proof.
  revert p. induction l0 as [|c l0 IH]; intros p Hc Hn Ha; simpl in *.
  - apply chain_head in Hc as [-> (itb & Hb & Hc)]. apply chain_head in Hc as [_ (ita' & Ha' & Hc)].
    rewrite Ha in Ha'. injection Ha' as <-. exists itb. split; [done|].
    rewrite !NoDup_cons, not_elem_of_cons in Hn. destruct Hn as [[Hba Hb2] [Ha2 _]].
    econstructor; [by apply lookup_insert_eq|]. apply (chain_frame h); [done|].
    intros c Hc2. rewrite !lookup_insert_ne by congruence. done.
  - apply chain_head in Hc as [-> (itc & Hcc & Hc)]. rewrite NoDup_cons in Hn. destruct Hn as [Hnc Hn].
    destruct (IH _ Hc Hn Ha) as (itb & Hb & Hc'). exists itb. split; [done|].
    econstructor; [|done]. rewrite elem_of_app, !elem_of_cons in Hnc.
    rewrite !lookup_insert_ne; [done|naive_solver..].
Qed.
Lemma elem_of_unlink (l1 l2 : list loc) a b :
  NoDup (l1 ++ a :: l2) -> b ∈ l1 ++ l2 <-> b ∈ l1 ++ a :: l2 /\ b <> a.
Proof.
  intros (_ & Hn1 & [Hn2 _]%NoDup_cons)%NoDup_app. rewrite !elem_of_app, elem_of_cons. split.
  - intros [Hb | Hb]; (split; [by auto|]); intros ->; [|done]. by apply (Hn1 a Hb); left.
  - intros [[Hb | [Hb | Hb]] Hne]; [by left|done|by right].
Qed.

Definition same_fields (s s' : Assoc) : Prop :=
  hashpower_ s' = hashpower_ s /\ expanding_ s' = expanding_ s /\
  expand_bucket_ s' = expand_bucket_ s /\ hash_items_ s' = hash_items_ s /\
  hash_bulk_move_ s' = hash_bulk_move_ s.

Lemma unlink_assign h s pos p l1 a l2 ita :
  shape s -> table_slot s pos -> deref h s pos = Some p ->
  chain h p (l1 ++ a :: l2) -> NoDup (l1 ++ a :: l2) -> h !! a = Some ita ->
  exists h2 s2 q,
    assign (<[a := set_h_next None ita]> h) s (last_slot pos l1) (h_next ita) = Some (h2, s2) /\
    shape s2 /\ deref h2 s2 pos = Some q /\ chain h2 q (l1 ++ l2) /\
    (forall c, c ∉ l1 ++ a :: l2 -> h2 !! c = h !! c) /\ links_only h h2 /\
    (forall pos', pos' <> pos -> table_slot s pos' -> deref h s2 pos' = deref h s pos') /\
    same_fields s s2.
Proof.
  intros Hs Ht Hd Hc Hn Ha. set (h1 := <[a := set_h_next None ita]> h).
  assert (links_only h h1) as Hlo by (by apply (upd_links_only h a None), upd_Some).
  destruct l1 as [|b l0 _] using rev_ind.
  - simpl in *. apply chain_head in Hc as [-> (it & Hit & Hc)]. rewrite Ha in Hit. injection Hit as <-.
    apply NoDup_cons in Hn as [Hn _].
    rewrite (deref_heap _ h1) in Hd by done.
    destruct (assign_table h1 s pos _ (h_next ita) Hs Ht Hd)
      as (s' & Has & Hsh & Hd' & Hoth & E1 & E2 & E3 & E4 & E5).
    exists h1, s', (h_next ita). split_and!; try done.
    + apply (chain_frame h); [done|]. intros c Hcl. apply lookup_insert_ne. congruence.
    + intros c Hcl. apply lookup_insert_ne. rewrite not_elem_of_cons in Hcl. naive_solver.
    + intros pos' Hne Ht'. by apply Hoth.
  - rewrite <-app_assoc in Hc, Hn. destruct (chain_unlink _ _ _ _ _ _ _ Hc Hn Ha) as (itb & Hb & Hc').
    assert (b <> a) as Hba.
    { apply NoDup_app in Hn as (_ & _ & Hn). apply NoDup_cons in Hn as [Hn _].
      rewrite not_elem_of_cons in Hn. naive_solver. }
    assert (h1 !! b = Some itb) as Hb1 by (unfold h1; by rewrite lookup_insert_ne).
    unfold last_slot. rewrite last_snoc. cbn [assign]. rewrite (upd_Some _ _ _ _ Hb1).
    cbn [mbind option_bind]. eexists _, s, p. split_and!; try done.
    + by rewrite (deref_heap _ h).
    + by rewrite <-app_assoc.
    + intros c Hcl. rewrite !elem_of_app, !elem_of_cons in Hcl. unfold h1.
      rewrite !lookup_insert_ne; [done|set_solver..].
    + eapply links_only_trans; [done|]. by eapply upd_links_only, upd_Some.
Qed.

Lemma deref_last_slot h s pos p l1 a l2 :
  chain h p (l1 ++ a :: l2) -> deref h s pos = Some p ->
  deref h s (last_slot pos l1) = Some (Some a).
Proof.
  revert p pos. induction l1 as [|b l1 IH]; intros p pos Hc Hp; simpl in Hc.
  - by apply chain_head in Hc as [-> _].
  - apply chain_head in Hc as [-> (it & Hit & Hc)]. rewrite last_slot_cons. eapply IH; [done|].
    cbn [deref]. by rewrite Hit.
Qed.

Lemma AssocDelete_spec h s m a k :
  Inv h s m -> m !! k = Some a ->
  exists h' s', AssocDelete h s k (Hash k) = Some (h', s') /\ Inv h' s' (delete k m) /\
    links_only h h' /\ same_config s s'.
Proof.
  intros HI Hk. unfold AssocDelete, HashitemBefore. pose proof (inv_keys _ _ _ HI _ _ Hk) as Hka.
  destruct (bucket_slot_deref h s (Hash k)) as [p Hp]; [apply HI|].
  pose proof (bucket_slot_table s (Hash k)) as Ht. set (pos := bucket_slot s (Hash k)) in *.
  destruct (inv_slots _ _ _ HI _ _ Ht Hp) as (l & Hc & Hn & Hl).
  assert (forall b k', m !! k' = Some b -> key_at h b k -> b = a) as Huniq.
  { intros b k' Hb Hkb. pose proof (inv_keys _ _ _ HI _ _ Hb). rewrite (key_at_fun h b k' k) in Hb by done.
    congruence. }
  destruct (HashitemBefore_loop_spec h s k a l p pos (chain_fuel h)) as (l1 & l2 & -> & ->); try done.
  { by eapply bucket_keys. }
  { apply Hl. eauto. }
  { intros b (k' & Hb & _)%Hl Hkb. by eapply Huniq. }
  { by eapply chain_length. }
  cbn [mbind option_bind].
  rewrite (deref_last_slot _ _ _ _ _ _ _ Hc Hp).
  destruct Hka as (ita & Hita & Hitk). cbn [mbind option_bind]. rewrite Hita. cbn [mbind option_bind].
  rewrite (upd_Some _ _ _ _ Hita). cbn [mbind option_bind].
  set (n := wrap 32 (hash_items_ s - 1)).
  destruct (unlink_assign h (set_items n s) pos p l1 a l2 ita)
    as (h2 & s2 & q & -> & Hsh & Hd & Hc2 & Hfr & Hlo & Hoth & E1 & E2 & E3 & E4 & E5); try done.
  { by apply shape_items, HI. }
  exists h2, s2. split; [done|]. split; [|split; [done|split; [done|simpl in E1; lia]]].
  assert (forall k', bucket_slot s2 (Hash k') = bucket_slot s (Hash k')) as Hbs
    by (intros; by apply bucket_slot_same).
  assert (size (delete k m) = pred (size m)) as Hsz by (apply map_size_delete_Some; eauto).
  assert (0 < size m)%nat.
  { destruct (decide (size m = 0%nat)) as [E0%map_size_empty_inv|]; [|lia]. subst m. by rewrite lookup_empty in Hk. }
  pose proof (inv_max _ _ _ HI) as Hmax. pose proof (inv_items _ _ _ HI) as Hit. unfold MAX_ITEMS in *.
  split; [done| | | |].
  - rewrite E4. simpl. unfold n. rewrite Hit, wrap_fits by (split; lia). lia.
  - unfold MAX_ITEMS. lia.
  - intros k' b [_ Hb]%lookup_delete_Some. eapply links_only_key; [done|]. by eapply inv_keys.
  - intros pos' q' Ht' Hq'. apply (table_slot_same s) in Ht'; [|done].
    destruct (decide (pos' = pos)) as [->|Hne].
    + assert (q' = q) as -> by congruence. exists (l1 ++ l2). split_and!; [done| |].
      { apply (sublist_NoDup _ (l1 ++ a :: l2)); [done|]. apply sublist_app; [done|]. by apply sublist_cons. }
      intros b. transitivity (b ∈ l1 ++ a :: l2 /\ b <> a).
      { by apply elem_of_unlink. }
      rewrite Hl. split.
      * intros [(k' & Hb & Hs) Hne]. exists k'. rewrite Hbs. split; [|done].
        rewrite lookup_delete_ne by congruence. done.
      * intros (k' & [Hkk Hb]%lookup_delete_Some & Hs). rewrite Hbs in Hs. split; [eauto|].
        intros ->. apply Hkk. eapply key_at_fun; by eapply inv_keys.
    + apply (bucket_frame h _ s _ m); [|done| |].
      * eapply inv_slots; [done..|]. rewrite <-(deref_items h n), <-Hoth by done.
        by rewrite (deref_heap _ h2) by (by apply (table_slot_same s)).
      * intros k' b Hs. rewrite lookup_delete_ne by (intros <-; by apply Hne). done.
      * intros k' b Hb Hs. apply Hfr. intros (k'' & Hb' & Hs')%Hl. apply Hne.
        rewrite <-Hs, <-Hs'. f_equal. f_equal. eapply key_at_fun; by eapply inv_keys.
Qed.
(** ** Moving a bucket *)
Definition heap_table (h : heap) (P : table) (D : Z -> loc -> Prop) : Prop :=
  forall j q, tab_get (Some P) j = Some q ->
    exists l, chain h q l /\ NoDup l /\ forall a, a ∈ l <-> D j a.

Lemma heap_table_push h P D a it j q :
  heap_table h P D -> h !! a = Some it -> (forall i, ~ D i a) -> 0 <= j < zlen P ->
  tab_get (Some P) j = Some q ->
  heap_table (<[a := set_h_next q it]> h) (<[Z.to_nat j := Some a]> P)
    (fun i c => D i c \/ (c = a /\ i = j)).
Proof.
  intros HT Ha HD Hj Hq i r. rewrite tab_get_set by done. case_bool_decide as E.
  - subst i. intros [= <-]. destruct (HT j q Hq) as (l & Hc & Hn & Hl).
    assert (a ∉ l) by (intros Hal%Hl; by eapply HD). exists (a :: l). split_and!.
    + econstructor; [by apply lookup_insert_eq|]. apply (chain_frame h); [done|].
      intros c Hcl. apply lookup_insert_ne. congruence.
    + by constructor.
    + intros c. rewrite elem_of_cons, Hl. naive_solver.
  - intros Hr. destruct (HT i r Hr) as (l & Hc & Hn & Hl). exists l. split_and!; [|done|].
    + apply (chain_frame h); [done|]. intros c Hcl. apply lookup_insert_ne. intros <-. by eapply HD, Hl.
    + intros c. rewrite Hl. naive_solver.
Qed.

Lemma move_loop_spec hp l :
  0 <= hp <= MAX_POWER -> forall fuel h P D p,
  chain h p l -> NoDup l -> (forall a, a ∈ l -> exists k, key_at h a k) -> (length l < fuel)%nat ->
  zlen P = 2 ^ hp -> heap_table h P D -> (forall i a, D i a -> a ∉ l) ->
  exists h' P', move_loop Hash fuel h hp (Some P) p = Some (h', Some P') /\ zlen P' = 2 ^ hp /\
    links_only h h' /\ (forall c, c ∉ l -> h' !! c = h !! c) /\
    heap_table h' P' (fun i a => D i a \/ (a ∈ l /\ exists k, key_at h a k /\ i = Hash k mod 2 ^ hp)).
Proof.
  unfold MAX_POWER. intros Hhp. induction l as [|a l IH]; intros fuel h P D p Hc Hn Hk Hf HlP HT HD;
    (destruct fuel as [|fuel]; [simpl in Hf; lia|]); cbn [move_loop].
  { inversion Hc; subst. exists h, P. split_and!; try done. intros j q Hq.
    destruct (HT j q Hq) as (l & Hc' & Hn' & Hl). exists l. split_and!; [done..|].
    intros a. rewrite Hl, elem_of_nil. naive_solver. }
  apply chain_head in Hc as [-> (it & Ha & Hc)]. apply NoDup_cons in Hn as [Hna Hn].
  destruct (Hk a ltac:(left)) as [k Hka]. pose proof Hka as (it' & E & Hitk).
  rewrite Ha in E. injection E as <-. rewrite Ha. cbn [mbind option_bind]. rewrite Hitk.
  cbn [mbind option_bind]. rewrite land_hashmask by lia.
  assert (0 <= Hash k mod 2 ^ hp < 2 ^ hp) by (apply Z.mod_pos_bound; lia).
  assert (2 ^ hp <= 2 ^ 31) by (apply Z.pow_le_mono_r; lia).
  rewrite swrap_fits by (unfold fits_signed; lia).
  set (j := Hash k mod 2 ^ hp) in *.
  destruct (tab_get_Some (Some P) P j) as [q Hq]; [done|lia|]. rewrite Hq. cbn [mbind option_bind].
  rewrite (upd_Some _ _ _ _ Ha). cbn [mbind option_bind].
  rewrite (tab_set_Some _ P) by (done || lia). cbn [mbind option_bind].
  set (h1 := <[a := set_h_next q it]> h).
  assert (links_only h h1) as Hlo by (by apply (upd_links_only h a q), upd_Some).
  assert (forall c, c <> a -> h1 !! c = h !! c) as Hfr by (intros; by apply lookup_insert_ne).
  destruct (IH fuel h1 (<[Z.to_nat j := Some a]> P) (fun i c => D i c \/ (c = a /\ i = j)) (h_next it))
    as (h' & P' & -> & HlP' & Hlo' & Hfr' & HT'); try done.
  - apply (chain_frame h); [done|]. intros c Hcl. apply Hfr. congruence.
  - intros c Hcl. destruct (Hk c) as [kc Hkc]; [by right|]. exists kc. by eapply links_only_key.
  - simpl in Hf. lia.
  - by rewrite length_insert.
  - apply heap_table_push; try done; [|lia]. intros i Hi. apply (HD i a Hi). left.
  - intros i c [Hi | [-> _]]; [|done]. intros Hcl. apply (HD i c Hi). by right.
  - exists h', P'. split_and!; [done|done|by eapply links_only_trans| |].
    + intros c Hcl. rewrite not_elem_of_cons in Hcl. destruct Hcl. rewrite Hfr', Hfr by done. done.
    + intros i r Hr. destruct (HT' i r Hr) as (l' & Hc' & Hn' & Hl'). exists l'. split_and!; [done..|].
      intros c. rewrite Hl', elem_of_cons.
      assert (forall kc, key_at h1 c kc <-> key_at h c kc) as Hkc.
      { intros kc. split; apply links_only_key; [|done]. intros x. symmetry. apply Hlo. }
      split.
      * intros [[Hi | [-> ->]] | [Hcl (kc & Hkc' & ->)]]; [by left|right|right].
        -- split; [by left|eauto].
        -- split; [by right|]. exists kc. split; [by apply Hkc|done].
      * intros [Hi | [[-> | Hcl] (kc & Hkc' & ->)]]; [by left; left|left; right|right].
        -- by rewrite (key_at_fun h a kc k).
        -- split; [done|]. exists kc. split; [by apply Hkc|done].
Qed.
(** The slot of a hash value once the bucket [expand_bucket_] is moved. *)
Lemma home_moved hp eb hv :
  1 <= hp -> 0 <= eb < 2 ^ (hp - 1) ->
  home (negb (eb + 1 =? 2 ^ (hp - 1))) hp (eb + 1) hv =
  if bool_decide (hv mod 2 ^ (hp - 1) = eb) then InPrimary (hv mod 2 ^ hp) else home true hp eb hv.
Proof.
  intros Hhp Heb. unfold home.
  assert (0 <= hv mod 2 ^ (hp - 1) < 2 ^ (hp - 1)) by (apply Z.mod_pos_bound; lia).
  set (b := hv mod 2 ^ (hp - 1)) in *.
  destruct (Z.eqb_spec (eb + 1) (2 ^ (hp - 1))); cbn [negb andb]; case_bool_decide; [done| | |].
  - destruct (Z.leb_spec eb b); [lia|done].
  - destruct (Z.leb_spec (eb + 1) b); [lia|done].
  - destruct (Z.leb_spec (eb + 1) b), (Z.leb_spec eb b); lia || done.
Qed.

Lemma home_InOld hp eb hv i :
  home true hp eb hv = InOld i -> eb <= i /\ i = hv mod 2 ^ (hp - 1).
Proof. unfold home. cbn [andb]. destruct (Z.leb_spec eb (hv mod 2 ^ (hp - 1))); naive_solver. Qed.

(** [s'] is [s] after the bucket [expand_bucket_ s], the chain [l], is moved to
    the primary table [P']. *)
Lemma moved_Inv h h' s s' m (l : list loc) O P' :
  Inv h s m -> expanding_ s = true -> old_hashtable_ s = Some O ->
  (forall a, a ∈ l <-> exists k, m !! k = Some a /\ bucket_slot s (Hash k) = InOld (expand_bucket_ s)) ->
  links_only h h' -> (forall c, c ∉ l -> h' !! c = h !! c) ->
  heap_table h' P' (fun i a => (exists k, m !! k = Some a /\ bucket_slot s (Hash k) = InPrimary i) \/
    (a ∈ l /\ exists k, key_at h a k /\ i = Hash k mod 2 ^ hashpower_ s)) ->
  shape s' -> hashpower_ s' = hashpower_ s -> expand_bucket_ s' = expand_bucket_ s + 1 ->
  expanding_ s' = negb (expand_bucket_ s + 1 =? 2 ^ (hashpower_ s - 1)) ->
  hash_items_ s' = hash_items_ s -> primary_hashtable_ s' = Some P' ->
  (expanding_ s' = true -> old_hashtable_ s' = Some (<[Z.to_nat (expand_bucket_ s) := None]> O)) ->
  Inv h' s' m.
Proof.
  intros HI He HO Hl Hlo Hfr HT Hs' E1 E2 E3 E4 E5 E6. pose proof (inv_shape _ _ _ HI) as Hs.
  destruct (sh_old _ Hs He) as (H1 & Heb & O' & HO' & HlO).
  rewrite HO in HO'. injection HO' as <-. assert (0 <= expand_bucket_ s < zlen O) as HebO by lia.
  assert (forall k, bucket_slot s' (Hash k) =
    if bool_decide (Hash k mod 2 ^ (hashpower_ s - 1) = expand_bucket_ s)
    then InPrimary (Hash k mod 2 ^ hashpower_ s) else bucket_slot s (Hash k)) as Hbs.
  { intros k. rewrite !bucket_slot_home, E1, E2, E3, He by done. by apply home_moved. }
  assert (forall k i, bucket_slot s (Hash k) = InOld i ->
    expand_bucket_ s <= i /\ i = Hash k mod 2 ^ (hashpower_ s - 1)) as Hold.
  { intros k i. rewrite bucket_slot_home, He by done. apply home_InOld. }
  split; [done|by rewrite E4; apply HI|apply HI| |].
  - intros k a Hk. eapply links_only_key; [done|]. by eapply inv_keys.
  - intros pos q Ht Hq. destruct pos as [i|i|b]; [| |done]; cbn [deref] in Hq.
    + rewrite (E6 Ht), tab_get_set in Hq by done. case_bool_decide as Ei.
      * subst i. injection Hq as <-. exists []. split_and!; [constructor..|]. intros a.
        rewrite elem_of_nil. split; [done|]. intros (k & Hk & Hb). rewrite Hbs in Hb.
        case_bool_decide as Em; [done|]. destruct (Hold _ _ Hb). lia.
      * apply (bucket_stays h h' s s' m (InOld i) q).
        -- apply (inv_slots _ _ _ HI (InOld i) q He). cbn [deref]. by rewrite HO.
        -- intros k. rewrite Hbs. case_bool_decide as Em; [|done]. split; [done|].
           intros Hb. destruct (Hold _ _ Hb). lia.
        -- intros k a Hk Hb. apply Hfr. intros (k' & Hk' & Hb')%Hl.
           rewrite (key_at_fun h a k k') in Hb by (by eapply inv_keys). congruence.
    + rewrite E5 in Hq. destruct (HT i q Hq) as (l' & Hc' & Hn' & Hl'). exists l'. split_and!; [done..|].
      intros a. rewrite Hl'. split.
      * intros [(k & Hk & Hb) | [(k & Hk & Hb)%Hl (k' & Hk' & ->)]]; exists k; (split; [done|]);
          rewrite Hbs.
        -- case_bool_decide as Em; [|done]. rewrite bucket_slot_home, He in Hb by done.
           unfold home in Hb. rewrite Em in Hb. rewrite (proj2 (Z.leb_le _ _)) in Hb by lia. done.
        -- rewrite (key_at_fun h a k' k) by (done || by eapply inv_keys).
           rewrite bool_decide_true; [done|]. destruct (Hold _ _ Hb). lia.
      * intros (k & Hk & Hb). rewrite Hbs in Hb. case_bool_decide as Em; [|left; eauto].
        right. split; [|exists k; split; [by eapply inv_keys|congruence]].
        apply Hl. exists k. split; [done|]. rewrite bucket_slot_home, He by done. unfold home.
        rewrite Em, (proj2 (Z.leb_le _ _)) by lia. done.
Qed.

Lemma move_bucket_spec h s m :
  Inv h s m -> expanding_ s = true ->
  exists h' s', move_bucket Hash h s = Some (h', s') /\ Inv h' s' m /\ links_only h h' /\
    hashpower_ s' = hashpower_ s /\ hash_bulk_move_ s' = hash_bulk_move_ s /\
    expand_bucket_ s' = expand_bucket_ s + 1 /\
    expanding_ s' = negb (expand_bucket_ s + 1 =? 2 ^ (hashpower_ s - 1)).
Proof.
  intros HI He. pose proof (inv_shape _ _ _ HI) as Hs.
  pose proof Hs as [Hpow (P & HP & HlP) Ho]. destruct (Ho He) as (H1 & Heb & O & HO & HlO).
  assert (2 ^ (hashpower_ s - 1) <= 2 ^ 31) as Hle by (apply Z.pow_le_mono_r; unfold MAX_POWER in *; lia).
  assert (0 <= expand_bucket_ s < zlen O) as HebO by lia.
  unfold move_bucket. destruct (tab_get_Some _ O (expand_bucket_ s) HO) as [p Hp]; [lia|].
  rewrite Hp. cbn [mbind option_bind].
  destruct (inv_slots _ _ _ HI (InOld (expand_bucket_ s)) p He Hp) as (l & Hc & Hn & Hl).
  destruct (move_loop_spec (hashpower_ s) l Hpow (chain_fuel h) h P
    (fun i a => exists k, m !! k = Some a /\ bucket_slot s (Hash k) = InPrimary i) p)
    as (h' & P' & Hmv & HlP' & Hlo & Hfr & HT); try done.
  { by eapply bucket_keys. }
  { by eapply chain_length. }
  { intros j q Hq. apply (inv_slots _ _ _ HI (InPrimary j) q); [done|]. cbn [deref]. by rewrite HP. }
  { intros i a (k & Hk & Hb) (k' & Hk' & Hb')%Hl.
    rewrite (key_at_fun h a k k') in Hb by (by eapply inv_keys). congruence. }
  rewrite HP, Hmv. cbn [mbind option_bind].
  rewrite (tab_set_Some _ O) by done. cbn [mbind option_bind].
  rewrite !(wrap_fits 32) by (unfold fits_unsigned, MAX_POWER in *; lia).
  rewrite hashsize_pow by (unfold MAX_POWER in *; lia).
  destruct (Z.eqb_spec (expand_bucket_ s + 1) (2 ^ (hashpower_ s - 1))) as [Ee|Ee];
    eexists h', _; (split; [done|]); (split; [eapply (moved_Inv h h' s _ m l O P')|]); try done.
  - split; simpl; [done|eauto|done].
  - simpl. by rewrite Ee, Z.eqb_refl.
  - split; simpl; [done|eauto|]. intros _. split_and!; [lia..|]. eexists; split; [done|].
    by rewrite length_insert.
  - simpl. by rewrite He, (proj2 (Z.eqb_neq _ _)).
Qed.
(** ** The table as a map *)
Definition spec_step (key_of : loc -> option (list Z)) m (e : event) : option (output * gmap (list Z) loc) :=
  match e with
  | EFind k => Some (Found (m !! k), m)
  | EInsert _ a =>
      k ← key_of a;
      if bool_decide (m !! k = None /\ Z.of_nat (size m) < MAX_ITEMS) then Some (Silent, <[k := a]> m) else None
  | EDelete k => if bool_decide (is_Some (m !! k)) then Some (Silent, delete k m) else None
  | _ => Some (Silent, m)
  end.

Fixpoint spec_steps (key_of : loc -> option (list Z)) m (es : list event) :
  option (list output * gmap (list Z) loc) :=
  match es with
  | [] => Some ([], m)
  | e :: es =>
      '(o, m) ← spec_step key_of m e;
      '(os, m) ← spec_steps key_of m es;
      Some (o :: os, m)
  end.

(** The steps of the maintainer are taken where the thread is, and
    [pthread_cond_wait] does not return while an expansion is under way. *)
Definition calm (x : ATable) (e : event) : bool :=
  let s := assoc x in
  match e with
  | ERun _ => negb (waiting x) && (0 <? hash_bulk_move_ s) && expanding_ s
  | EWait => negb (waiting x) && negb (expanding_ s)
  | EWake _ => waiting x && negb (expanding_ s) && (hashpower_ s <? MAX_POWER)
  | _ => true
  end.

Fixpoint calm_run (x : ATable) (es : list event) : bool :=
  match es with
  | [] => true
  | e :: es => calm x e && match step Hash x e with Some (_, x) => calm_run x es | None => true end
  end.

Lemma Inv_started h s m b : Inv h s m -> Inv h (set_started b s) m.
Proof.
  intros HI. split; [by destruct (inv_shape _ _ _ HI)|apply HI..|].
  intros pos p Ht Hd. apply (bucket_frame h h s _ m); try done. apply (inv_slots _ _ _ HI); by destruct pos.
Qed.

Lemma step_spec h0 x m e o m' :
  Inv (items x) (assoc x) m -> links_only h0 (items x) -> calm x e = true ->
  spec_step (fun a => h0 !! a ≫= item_key) m e = Some (o, m') ->
  exists x', step Hash x e = Some (o, x') /\ Inv (items x') (assoc x') m' /\ links_only h0 (items x').
Proof.
  destruct x as [h s w]. simpl. intros HI Hlo Hcalm Hspec.
  destruct e as [k|ok a|k| |lock| |ok]; cbn [spec_step calm step assoc items waiting] in *.
  - injection Hspec as <- <-. rewrite (AssocFind_spec _ _ _ _ HI). cbn [mbind option_bind]. eauto.
  - destruct (h0 !! a) as [it0|] eqn:Ea; [|done]. cbn [mbind option_bind] in Hspec.
    destruct (item_key it0) as [k|] eqn:Ek; [|done]. cbn [mbind option_bind] in Hspec.
    case_bool_decide as Hg; [|done]. injection Hspec as <- <-. destruct Hg as [Hg1 Hg2].
    assert (key_at h a k) as Hka by (apply (links_only_key h0); [done|exists it0; done]).
    pose proof Hka as (it & -> & Hitk). cbn [mbind option_bind]. rewrite Hitk. cbn [mbind option_bind].
    destruct (AssocInsert_spec ok h s m a k) as (h' & s' & -> & HI' & Hlo' & _); try done.
    cbn [mbind option_bind]. eexists; split; [done|]. split; [done|]. by eapply links_only_trans.
  - case_bool_decide as Hg; [|done]. injection Hspec as <- <-. destruct Hg as [a Ha].
    destruct (AssocDelete_spec h s m a k) as (h' & s' & -> & HI' & Hlo' & _); try done.
    cbn [mbind option_bind]. eexists; split; [done|]. split; [done|]. by eapply links_only_trans.
  - injection Hspec as <- <-. eexists; split; [done|]. split; [|done]. by apply Inv_started.
  - injection Hspec as <- <-. rewrite Hcalm. apply andb_true_iff in Hcalm as [_ He].
    destruct lock; [|eauto].
    destruct (move_bucket_spec h s m) as (h' & s' & -> & HI' & Hlo' & _); try done.
    cbn [mbind option_bind]. eexists; split; [done|]. split; [done|]. by eapply links_only_trans.
  - injection Hspec as <- <-. rewrite Hcalm. eexists; split; [done|]. split; [|done]. by apply Inv_started.
  - injection Hspec as <- <-. rewrite !andb_true_iff, negb_true_iff, Z.ltb_lt in Hcalm.
    destruct Hcalm as [[-> He] Hp]. eexists; split; [done|]. split; [|done]. by apply Inv_expand.
Qed.

Lemma steps_spec h0 es : forall x m os m',
  Inv (items x) (assoc x) m -> links_only h0 (items x) -> calm_run x es = true ->
  spec_steps (fun a => h0 !! a ≫= item_key) m es = Some (os, m') ->
  exists x', steps Hash x es = Some (os, x') /\ Inv (items x') (assoc x') m' /\ links_only h0 (items x').
Proof.
  induction es as [|e es IH]; intros x m os m' HI Hlo Hc Hs; cbn [spec_steps steps calm_run] in *.
  { injection Hs as <- <-. eauto. }
  apply andb_true_iff in Hc as [Hc1 Hc2].
  destruct (spec_step _ m e) as [[o m1]|] eqn:E1; [|done]. cbn [mbind option_bind] in Hs.
  destruct (spec_steps _ m1 es) as [[os' m2]|] eqn:E2; [|done]. cbn [mbind option_bind] in Hs.
  injection Hs as <- <-.
  destruct (step_spec h0 x m e o m1) as (x1 & E & HI1 & Hlo1); try done. rewrite E in Hc2 |- *.
  cbn [mbind option_bind]. destruct (IH x1 m1 os' m2) as (x2 & -> & HI2 & Hlo2); try done.
  cbn [mbind option_bind]. eauto.
Qed.

(** The table as [InitAssoc] means to leave it.  As written it exits when the
    allocation succeeds ([init_result]), so that no run of the code starts here:
    the theorems below are about the table once that test is put right. *)
Definition initial (h : heap) (hp bulk : Z) : ATable :=
  mkATable h (mkAssoc hp (Some (new_table (hashsize hp))) None 0 false false 0 bulk) false.

Lemma Inv_initial h hp bulk :
  0 <= hp <= MAX_POWER -> Inv h (assoc (initial h hp bulk)) ∅.
Proof.
  unfold MAX_POWER. intros Hp. split; simpl; try done.
  - split; simpl; [unfold MAX_POWER; lia| |done]. eexists; split; [done|].
    rewrite hashsize_pow by lia. apply length_new_table. lia.
  - intros [i|i|b] p; simpl; [done| |done]. intros _ Hd.
    pose proof (tab_get_range _ _ _ _ eq_refl Hd) as Hi. rewrite hashsize_pow in Hi, Hd by lia.
    rewrite length_new_table in Hi by lia. rewrite tab_get_new in Hd by done. injection Hd as <-.
    exists []. split_and!; [constructor..|]. intros a. rewrite elem_of_nil. split; [done|].
    by intros (k & Hk & _).
Qed.
(** ** Expansions end

    What can happen while an expansion is under way and the maintainer is awake:
    requests, and iterations of the maintainer's loop. *)
Definition busy_event (e : event) : bool := match e with EWait | EWake _ => false | _ => true end.
(** How often [TryLock] succeeds, so that a bucket is moved. *)
Fixpoint moves (es : list event) : Z :=
  match es with [] => 0 | ERun true :: es => 1 + moves es | _ :: es => moves es end.

Definition same_expansion (s s' : Assoc) : Prop :=
  expanding_ s' = expanding_ s /\ hashpower_ s' = hashpower_ s /\
  expand_bucket_ s' = expand_bucket_ s /\ hash_bulk_move_ s' = hash_bulk_move_ s.

Lemma assign_fields h s pos p h' s' : assign h s pos p = Some (h', s') -> same_expansion s s'.
Proof.
  destruct pos; cbn [assign].
  - destruct (tab_set (old_hashtable_ s) i p); [|done]. by intros [= _ <-].
  - destruct (tab_set (primary_hashtable_ s) i p); [|done]. by intros [= _ <-].
  - destruct (upd h p0 _); [|done]. by intros [= _ <-].
Qed.

(** A request, or a failed [TryLock], leaves the expansion as it is. *)
Lemma step_same_expansion x e o x' :
  step Hash x e = Some (o, x') -> busy_event e = true -> e <> ERun true -> expanding_ (assoc x) = true ->
  same_expansion (assoc x) (assoc x') /\ waiting x' = waiting x.
Proof.
  destruct x as [h s w]. intros E Hb Hne He. cbn [assoc waiting] in *. destruct e as [k|ok a|k| |lock| |ok]; cbn [step] in E; try done.
  - destruct (AssocFind h s k (Hash k)); [|done]. by injection E as _ <-.
  - destruct (h !! a) as [it|]; [|done]. cbn [mbind option_bind] in E. destruct (item_key it) as [k|]; [|done]. cbn [mbind option_bind] in E.
    unfold AssocInsert in E. destruct (deref h s _) as [p|]; [|done]. cbn [mbind option_bind] in E.
    destruct (upd h a _) as [h1|]; [|done]. cbn [mbind option_bind] in E.
    destruct (assign h1 s _ _) as [[h2 s2]|] eqn:Ea; [|done]. cbn [mbind option_bind] in E.
    apply assign_fields in Ea as (E1 & E2 & E3 & E4).
    cbn [set_items expanding_] in E. rewrite E1, He in E. cbn [negb andb] in E. by injection E as _ <-.
  - unfold AssocDelete in E. destruct (HashitemBefore h s k (Hash k)) as [bf|]; [|done]. cbn [mbind option_bind] in E.
    destruct (deref h s bf) as [[a|]|]; [|done..]. cbn [mbind option_bind] in E.
    destruct (h !! a) as [it|]; [|done]. cbn [mbind option_bind] in E. destruct (upd h a _) as [h1|]; [|done]. cbn [mbind option_bind] in E.
    destruct (assign h1 _ bf _) as [[h2 s2]|] eqn:Ea; [|done]. cbn [mbind option_bind] in E.
    apply assign_fields in Ea. by injection E as _ <-.
  - by injection E as _ <-.
  - destruct lock; [done|]. destruct (_ && _); [|done]. by injection E as _ <-.
Qed.

(** Whatever the schedule, an expansion ends once as many buckets were moved as
    it had left. *)
Lemma expansion_progress h0 es : forall x m os m',
  Inv (items x) (assoc x) m -> links_only h0 (items x) -> expanding_ (assoc x) = true -> waiting x = false ->
  0 < hash_bulk_move_ (assoc x) -> forallb busy_event es = true ->
  spec_steps (fun a => h0 !! a ≫= item_key) m es = Some (os, m') ->
  2 ^ (hashpower_ (assoc x) - 1) <= expand_bucket_ (assoc x) + moves es ->
  exists es1 es2 os1 m1 x1, es = es1 ++ es2 /\ steps Hash x es1 = Some (os1, x1) /\
    spec_steps (fun a => h0 !! a ≫= item_key) m es1 = Some (os1, m1) /\ Inv (items x1) (assoc x1) m1 /\
    expanding_ (assoc x1) = false /\ hashpower_ (assoc x1) = hashpower_ (assoc x).
Proof.
  induction es as [|e es IH]; intros x m os m' HI Hlo He Hw Hb Hbusy Hs Hn.
  { destruct (sh_old _ (inv_shape _ _ _ HI) He) as (_ & Heb & _). cbn in Hn. lia. }
  cbn [forallb spec_steps] in Hbusy, Hs. apply andb_true_iff in Hbusy as [Hbe Hbusy].
  destruct (spec_step _ m e) as [[o m1]|] eqn:E1; [|done]. cbn [mbind option_bind] in Hs.
  destruct (spec_steps _ m1 es) as [[os' m2]|] eqn:E2; [|done]. cbn [mbind option_bind] in Hs.
  assert (calm x e = true) as Hc by (destruct e; cbn; rewrite ?Hw, ?He; try done; by rewrite (proj2 (Z.ltb_lt _ _))).
  destruct (step_spec h0 x m e o m1 HI Hlo Hc E1) as (x1 & E & HI1 & Hlo1).
  assert (forall es1 os1 m3 x3, steps Hash x1 es1 = Some (os1, x3) -> spec_steps (fun a => h0 !! a ≫= item_key) m1 es1 = Some (os1, m3) ->
    steps Hash x (e :: es1) = Some (o :: os1, x3) /\ spec_steps (fun a => h0 !! a ≫= item_key) m (e :: es1) = Some (o :: os1, m3)) as Hcons.
  { intros es1 os1 m3 x3 F1 F2. cbn [steps spec_steps]. rewrite E, E1. cbn [mbind option_bind]. rewrite F1, F2. done. }
  assert (expanding_ (assoc x1) = true -> waiting x1 = false -> 0 < hash_bulk_move_ (assoc x1) -> hashpower_ (assoc x1) = hashpower_ (assoc x) ->
    2 ^ (hashpower_ (assoc x) - 1) <= expand_bucket_ (assoc x1) + moves es -> exists es1 es2 os1 m1 x1, e :: es = es1 ++ es2 /\ steps Hash x es1 = Some (os1, x1) /\
    spec_steps (fun a => h0 !! a ≫= item_key) m es1 = Some (os1, m1) /\ Inv (items x1) (assoc x1) m1 /\
    expanding_ (assoc x1) = false /\ hashpower_ (assoc x1) = hashpower_ (assoc x)) as Hrest.
  { intros G1 G2 G3 G4 G5. destruct (IH x1 m1 os' m2 HI1 Hlo1 G1 G2 G3 Hbusy E2) as (es1 & es2 & os1 & m3 & x3 & -> & F1 & F2 & F3 & F4 & F5); [by rewrite G4|].
    destruct (Hcons _ _ _ _ F1 F2) as [F1' F2']. exists (e :: es1), es2, (o :: os1), m3, x3. split_and!; try done. congruence. }
  assert (e = ERun true \/ e <> ERun true) as [-> |Hne] by (destruct e as [| | | |[]| |]; auto; by right).
  - cbn [moves] in Hn.
    destruct x as [h s w]. cbn [assoc items waiting] in *. subst w. cbn [step] in E. destruct (negb false && _ && _); [|done].
    destruct (move_bucket_spec h s m HI He) as (h1 & s1 & F & _ & _ & F1 & F2 & F3 & F4). rewrite F in E. cbn [mbind option_bind] in E.
    injection E as <- <-. cbn [assoc items waiting] in *. destruct (Z.eqb_spec (expand_bucket_ s + 1) (2 ^ (hashpower_ s - 1))) as [Ee|Ee]; cbn [negb] in F4.
    + destruct (Hcons [] [] m1 _ eq_refl eq_refl) as [F1' F2']. by exists [ERun true], es, [Silent], m1, (mkATable h1 s1 false).
    + apply Hrest; try done; [congruence|lia].
  - destruct (step_same_expansion x e o x1 E Hbe Hne He) as ((G1 & G2 & G3 & G4) & G5).
    apply Hrest; try congruence. destruct e as [| | | |[]| |]; cbn [moves] in Hn; congruence || lia.
Qed.

(** A lookup after an expansion that starts while one is under way. *)
Lemma lost_lookup h s key :
  0 <= hashpower_ s <= MAX_POWER -> primary_hashtable_ s = Some (new_table (2 ^ hashpower_ s)) ->
  AssocFind h (AssocExpand true s) key (Hash key) = Some None.
Proof.
  unfold MAX_POWER. intros Hp HP. unfold AssocFind, bucket_slot. cbn [AssocExpand hashpower_ expanding_ expand_bucket_].
  rewrite (wrap_fits 32 (hashpower_ s + 1)) by (split; lia). rewrite Z.add_simpl_r.
  rewrite (wrap_fits 32 (hashpower_ s)) by (split; lia). rewrite land_hashmask by lia.
  assert (0 <= Hash key mod 2 ^ hashpower_ s < 2 ^ hashpower_ s) by (apply Z.mod_pos_bound; lia).
  assert (2 ^ hashpower_ s <= 2 ^ 31) by (apply Z.pow_le_mono_r; lia).
  rewrite (wrap_fits 32) by (unfold fits_unsigned; lia). cbn [andb]. rewrite (proj2 (Z.leb_le 0 _)) by lia.
  cbn [deref old_hashtable_]. rewrite HP, tab_get_new by lia. done.
Qed.
End correctness.

(** A table, a hash function and a run for the examples below. *)
Definition example_item (k : Z) : Item := mkItem None None None 0 0 0 1 0 0 1 1 [k; 0].
Definition example_heap : heap :=
  list_to_map ((fun i => (Pos.of_nat i, example_item (Z.of_nat i))) <$> seq 1 5).
Definition example_hash (k : list Z) : Z := default 0 (MurmurHash3_x86_32 true k).
Definition example_run : list event :=
  [EInsert true 1%positive; EWait; EInsert true 2%positive; EWake true; ERun true;
   EInsert true 3%positive; EFind [1]; ERun false; ERun true; EDelete [2]; EFind [2]; EFind [3];
   EWait; EFind [1]].

(** C32 (assoc_refines_map) The hash table is a finite map.  For any hash
    function, any sequence of finds, inserts of new keys and deletes of present
    keys interleaved with the maintainer's work, in which the maintainer's wait
    does not return during an expansion, every operation succeeds without an
    invalid access or a failed assertion and every find, then and at the end,
    returns the item inserted under the key, including while buckets are being
    moved between the two tables. *)
Theorem assoc_refines_map Hash h hp bulk es os m :
  0 <= hp <= MAX_POWER ->
  calm_run Hash (initial h hp bulk) es = true ->
  spec_steps (fun a => h !! a ≫= item_key) ∅ es = Some (os, m) ->
  exists x, steps Hash (initial h hp bulk) es = Some (os, x) /\
    forall key, AssocFind (items x) (assoc x) key (Hash key) = Some (m !! key).
Proof.
  intros Hp Hc Hs.
  destruct (steps_spec Hash h es (initial h hp bulk) ∅ os m) as (x & E & HI & _); [|done..|].
  - by apply Inv_initial.
  - exists x. split; [done|]. intros key. by apply AssocFind_spec.
Qed.

Lemma assoc_refines_map_witness :
  exists os x, steps example_hash (initial example_heap 1 1) example_run = Some (os, x) /\
    AssocFind (items x) (assoc x) [3] (example_hash [3]) = Some (Some 3%positive) /\
    expanding_ (assoc x) = false.
Proof.
  destruct (spec_steps (fun a => example_heap !! a ≫= item_key) ∅ example_run) as [[os m]|] eqn:E;
    [|by vm_compute in E].
  destruct (assoc_refines_map example_hash example_heap 1 1 example_run os m) as (x & Hx & Hf);
    [vm_compute; done|vm_compute; reflexivity|exact E|].
  exists os, x. split; [exact Hx|]. rewrite Hf. split.
  - f_equal. vm_compute in E. by injection E as <- <-.
  - vm_compute in Hx. by injection Hx as <- <-.
Defined.

(** C33 (assoc_expansion_completes) Expansions end, and lookups stay right.  In any
    state the table can be in as above, with an expansion under way, the
    maintainer awake and [hash_bulk_move_] positive, take any schedule of
    requests and of iterations of the maintainer's loop, whose [TryLock] may
    fail, in which it succeeds at least as often as the old table has buckets.
    Then the expansion is finished at some point of the schedule, every answer
    up to there is that of the map, and so is every lookup then. *)
Theorem assoc_expansion_completes Hash h hp bulk es os m x es' os' m' :
  0 <= hp <= MAX_POWER ->
  calm_run Hash (initial h hp bulk) es = true ->
  spec_steps (fun a => h !! a ≫= item_key) ∅ es = Some (os, m) ->
  steps Hash (initial h hp bulk) es = Some (os, x) ->
  expanding_ (assoc x) = true -> waiting x = false -> 0 < hash_bulk_move_ (assoc x) ->
  forallb busy_event es' = true -> spec_steps (fun a => h !! a ≫= item_key) m es' = Some (os', m') ->
  2 ^ (hashpower_ (assoc x) - 1) <= moves es' ->
  exists es1 es2 os1 m1 x1, es' = es1 ++ es2 /\ steps Hash x es1 = Some (os1, x1) /\
    spec_steps (fun a => h !! a ≫= item_key) m es1 = Some (os1, m1) /\
    expanding_ (assoc x1) = false /\ hashpower_ (assoc x1) = hashpower_ (assoc x) /\
    forall key, AssocFind (items x1) (assoc x1) key (Hash key) = Some (m1 !! key).
Proof.
  intros Hp Hc Hs Hx He Hw Hb Hbusy Hs' Hn.
  destruct (steps_spec Hash h es (initial h hp bulk) ∅ os m) as (x' & E & HI & Hlo);
    [by apply Inv_initial|done..|].
  rewrite Hx in E. injection E as <-. destruct (sh_old _ (inv_shape _ _ _ _ HI) He) as (_ & Heb & _).
  destruct (expansion_progress Hash h es' x m os' m' HI Hlo He Hw Hb Hbusy Hs') as (es1 & es2 & os1 & m1 & x1 & E1 & E2 & E3 & E4 & E5 & E6); [lia|].
  exists es1, es2, os1, m1, x1. split_and!; try done. intros key. by apply AssocFind_spec.
Qed.

Lemma assoc_expansion_completes_witness :
  exists os x, steps example_hash (initial example_heap 1 1) (take 4 example_run) = Some (os, x) /\
    expanding_ (assoc x) = true /\
    exists es1 es2 os1 (m1 : gmap (list Z) loc) x1, [ERun false; ERun true; EInsert true 3%positive; EFind [3]; ERun true] = es1 ++ es2 /\
      steps example_hash x es1 = Some (os1, x1) /\ expanding_ (assoc x1) = false /\
      AssocFind (items x1) (assoc x1) [3] (example_hash [3]) = Some (m1 !! [3]).
Proof.
  destruct (steps example_hash (initial example_heap 1 1) (take 4 example_run)) as [[os x]|] eqn:E;
    [|by vm_compute in E].
  destruct (spec_steps (fun a => example_heap !! a ≫= item_key) ∅ (take 4 example_run)) as [[os' m]|] eqn:E';
    [|by vm_compute in E'].
  assert (os = os') as <-.
  { vm_compute in E. vm_compute in E'. injection E as <- _. injection E' as <- _. reflexivity. }
  destruct (spec_steps (fun a => example_heap !! a ≫= item_key) m [ERun false; ERun true; EInsert true 3%positive; EFind [3]; ERun true])
    as [[os2 m2]|] eqn:E2; [|vm_compute in E'; injection E' as _ <-; by vm_compute in E2].
  assert (expanding_ (assoc x) = true) as He by (vm_compute in E; injection E as _ <-; reflexivity).
  destruct (assoc_expansion_completes example_hash example_heap 1 1 (take 4 example_run) os m x
      [ERun false; ERun true; EInsert true 3%positive; EFind [3]; ERun true] os2 m2)
    as (es1 & es2 & os1 & m1 & x1 & H1 & H2 & _ & H3 & _ & H4);
    [unfold MAX_POWER; lia|vm_compute; reflexivity|exact E'|exact E|exact He|
     vm_compute in E; injection E as _ <-; reflexivity|vm_compute in E; injection E as _ <-; reflexivity|reflexivity|exact E2|
     vm_compute in E; injection E as _ <-; vm_compute; discriminate|].
  exists os, x. split; [reflexivity|]. split; [exact He|]. exists es1, es2, os1, m1, x1.
  split; [exact H1|]. split; [exact H2|]. split; [exact H3|]. apply H4.
Defined.

Lemma AssocInsert_starts h s a hv h' s' :
  0 <= hashpower_ s < MAX_POWER -> expanding_ s = false ->
  AssocInsert true h s a hv = Some (h', s') -> expanding_ s' = true ->
  hashpower_ s' = hashpower_ s + 1 /\ primary_hashtable_ s' = Some (new_table (2 ^ hashpower_ s')).
Proof.
  unfold AssocInsert, MAX_POWER. intros Hp He E He'.
  destruct (deref h s _) as [p|]; [|done]. cbn [mbind option_bind] in E.
  destruct (upd h a _) as [h1|]; [|done]. cbn [mbind option_bind] in E.
  destruct (assign h1 s _ _) as [[h2 s2]|] eqn:Ea; [|done]. cbn [mbind option_bind] in E.
  apply assign_fields in Ea as (Ee & Eh & _).
  destruct (negb _ && _); injection E as _ <-; [|simpl in He'; congruence].
  simpl. rewrite Eh, wrap_fits by (split; lia). rewrite hashsize_pow by lia. done.
Qed.

(** C36 (assoc_wakeup_loses_items) [AssocInsert] grows the table itself and does
    not wake the maintainer.  When the maintainer's wait returns later, because
    of [AssocStartExpand] or of itself, it grows the table a second time over the
    unfinished expansion: from then on no key at all is found. *)
Theorem assoc_wakeup_loses_items Hash x a o1 x1 o2 x2 :
  0 <= hashpower_ (assoc x) < MAX_POWER -> expanding_ (assoc x) = false ->
  step Hash x (EInsert true a) = Some (o1, x1) -> expanding_ (assoc x1) = true ->
  step Hash x1 (EWake true) = Some (o2, x2) ->
  forall key, step Hash x2 (EFind key) = Some (Found None, x2).
Proof.
  destruct x as [h s w]. cbn [assoc step]. intros Hp He E1 He1 E2 key.
  destruct (h !! a) as [it|]; [|done]. cbn [mbind option_bind] in E1.
  destruct (item_key it) as [k|]; [|done]. cbn [mbind option_bind] in E1.
  destruct (AssocInsert true h s a (Hash k)) as [[h1 s1]|] eqn:Ei; [|done].
  cbn [mbind option_bind] in E1. injection E1 as <- <-. cbn [assoc step] in *.
  destruct w; [|done]. assert (x2 = mkATable h1 (AssocExpand true s1) false) as -> by congruence. cbn [step].
  destruct (AssocInsert_starts _ _ _ _ _ _ Hp He Ei He1) as [Hp1 HP].
  rewrite lost_lookup; [done| |done]. unfold MAX_POWER in *. lia.
Qed.

Lemma assoc_wakeup_loses_items_witness :
  exists os x1 x2,
    steps example_hash (initial example_heap 1 1)
      [EWait; EInsert true 1%positive; EInsert true 2%positive; EInsert true 3%positive;
       EInsert true 4%positive; EFind [1]] = Some (os, x1) /\
    last os = Some (Found (Some 1%positive)) /\
    step example_hash x1 (EWake true) = Some (Silent, x2) /\
    step example_hash x2 (EFind [1]) = Some (Found None, x2).
Proof.
  destruct (steps example_hash (initial example_heap 1 1)
    [EWait; EInsert true 1%positive; EInsert true 2%positive; EInsert true 3%positive])
    as [[os0 x0]|] eqn:E0; [|by vm_compute in E0].
  destruct (step example_hash x0 (EInsert true 4%positive)) as [[o1 x1]|] eqn:E1;
    [|vm_compute in E0; injection E0 as <- <-; by vm_compute in E1].
  destruct (step example_hash x1 (EWake true)) as [[o2 x2]|] eqn:E2;
    [|vm_compute in E0; injection E0 as <- <-; vm_compute in E1; injection E1 as <- <-; by vm_compute in E2].
  assert (step example_hash x2 (EFind [1]) = Some (Found None, x2)) as H.
  { refine (assoc_wakeup_loses_items example_hash x0 4%positive o1 x1 o2 x2 _ _ E1 _ E2 [1]);
      vm_compute in E0; injection E0 as <- <-; [split; [discriminate|reflexivity]|reflexivity|].
    vm_compute in E1. injection E1 as <- <-. reflexivity. }
  eexists _, x1, x2. split; [|split; [|split; [|exact H]]].
  - vm_compute in E0. injection E0 as <- <-. vm_compute in E1. injection E1 as <- <-.
    vm_compute. reflexivity.
  - reflexivity.
  - rewrite E2. f_equal. f_equal. vm_compute in E0. injection E0 as <- <-. vm_compute in E1.
    injection E1 as <- <-. vm_compute in E2. injection E2 as <- <-. reflexivity.
Defined.

(** [InitAssoc] tests the allocation the wrong way
    round: it exits when the table is allocated and goes on without one when it
    is not, after which every lookup dereferences a null pointer. *)
Theorem InitAssoc_inverted ok env hashpower_init h key hv :
  match InitAssoc ok env hashpower_init new_AssocMaintainer with
  | InitExit => ok = true
  | InitDone s => ok = false /\ AssocFind h s key hv = None
  end.
Proof. unfold InitAssoc. by destruct ok, (hashpower_init =? 0). Qed.
