(* ===== verification/MdbQueue.v ===== *)
(** The LRU queues of the cache core, [src/memcached/src/item_manager.cpp]: the
    doubly linked lists behind [heads_] and [tails_], linking and unlinking of
    items, and the step of the crawler that swaps itself one place towards the
    head.

    [None] is an invalid access or a failed assertion: the build defines no
    NDEBUG. *)
From S2P Require Import Prelude MdbItem.













(** ** Doubly linked segments

    [dseg h pv p l nx]: from [p] the [next] links lead through [l] to [nx], with
    the [prev] links leading back to [pv]. *)
Fixpoint dseg (h : heap) (pv p : option loc) (l : list loc) (nx : option loc) : Prop :=
  match l with
  | [] => p = nx
  | a :: l => p = Some a /\ exists it, h !! a = Some it /\ prev it = pv /\ dseg h (Some a) (next it) l nx
  end.







Lemma dseg_elem h pv p l nx a : dseg h pv p l nx -> a ∈ l -> is_Some (h !! a).
Proof.
  revert pv p. induction l as [|b l IH]; intros pv p; simpl; [by intros _ ?%elem_of_nil|].
  intros (-> & it & Hb & Hp & Hl) [-> | Ha]%elem_of_cons; eauto.
Qed.
























































(** ** Properties *)




