(* ===== verification/Block.v ===== *)
(** Blocks of a table file: [src/leveldb/table/block_builder.cc], which writes
    sorted entries with prefix-compressed keys and restart points, and the
    iterator of [src/leveldb/table/block.cc], which reads them.

    A pointer into the block is an offset in the list of its octets.  [None] is a
    read outside of the block or a failed assertion. *)
From S2P Require Import Prelude Coding Dbformat LdbBase Iterator.

Section block.
Context {C : Comparator} (le : bool).

(** ** Building *)
Record BlockBuilder := mkBuilder {
  buffer_ : list Z;
  restarts_ : list Z;
  counter_ : Z;
  finished_ : bool;
  last_key_ : list Z;
}.

Definition new_BlockBuilder : BlockBuilder := mkBuilder [] [0] 0 false [].
Definition Reset (b : BlockBuilder) : BlockBuilder := mkBuilder [] [0] 0 false [].

Definition CurrentSizeEstimate (b : BlockBuilder) : Z :=
  zlen (buffer_ b) + zlen (restarts_ b) * 4 + 4.

Definition builder_empty (b : BlockBuilder) : bool := bool_decide (buffer_ b = []).

Definition Finish (b : BlockBuilder) : list Z * BlockBuilder :=
  let buffer := fold_left (PutFixed32 le) (restarts_ b) (buffer_ b) in
  let buffer := PutFixed32 le buffer (wrap 32 (zlen (restarts_ b))) in
  (buffer, mkBuilder buffer (restarts_ b) (counter_ b) true (last_key_ b)).

(** The loop that counts the octets two keys share. *)
Fixpoint shared_loop (a b : list Z) : nat :=
  match a, b with
  | x :: a, y :: b => if x =? y then S (shared_loop a b) else O
  | _, _ => O
  end.

Definition Add (block_restart_interval : Z) (b : BlockBuilder) (key value : list Z) : option BlockBuilder :=
  _ ← passert (negb (finished_ b));
  _ ← passert (counter_ b <=? block_restart_interval);
  _ ← (if builder_empty b then Some tt
       else c ← Compare key (last_key_ b); passert (0 <? c));
  let '(shared, restarts, counter) :=
    if counter_ b <? block_restart_interval
    then (shared_loop (last_key_ b) key, restarts_ b, counter_ b)
    else (O, restarts_ b ++ [wrap 32 (zlen (buffer_ b))], 0) in
  let non_shared := zlen key - Z.of_nat shared in
  let buffer := PutVarint32 (buffer_ b) (wrap 32 (Z.of_nat shared)) in
  let buffer := PutVarint32 buffer (wrap 32 non_shared) in
  let buffer := PutVarint32 buffer (wrap 32 (zlen value)) in
  let buffer := buffer ++ drop shared key ++ value in
  let last_key := take shared (last_key_ b) ++ drop shared key in
  _ ← passert (bool_decide (last_key = key));
  Some (mkBuilder buffer restarts (counter + 1) false last_key).

Fixpoint add_all (interval : Z) (b : BlockBuilder) (es : list (list Z * list Z)) : option BlockBuilder :=
  match es with
  | [] => Some b
  | (k, v) :: es => b ← Add interval b k v; add_all interval b es
  end.

(** ** Reading *)
Record Block := mkBlock { data_ : list Z; size_ : Z; restart_offset_ : Z }.

Definition NumRestarts (data : list Z) (size : Z) : option Z :=
  _ ← passert (4 <=? size);
  DecodeFixed32 le (drop (Z.to_nat (size - 4)) data).

(** [size_ = 0] marks an error; [restart_offset_] is then left unset. *)
Definition new_Block (uninit : Z) (contents : list Z) : option Block :=
  let size := zlen contents in
  if size <? 4 then Some (mkBlock contents 0 uninit)
  else
    n ← NumRestarts contents size;
    if (size - 4) / 4 <? n then Some (mkBlock contents 0 uninit)
    else Some (mkBlock contents size (wrap 32 (size - wrap 32 (1 + n) * 4))).

(** [Some None] is the NULL result, otherwise the offset of the key delta and
    the three lengths. *)
Definition DecodeEntry (data : list Z) (p limit : Z) : option (option (Z * Z * Z * Z)) :=
  if limit - p <? 3 then Some None
  else
    shared ← rd data p;
    non_shared ← rd data (p + 1);
    value_length ← rd data (p + 2);
    r ← (if Z.lor (Z.lor shared non_shared) value_length <? 128
         then Some (Some (p + 3, shared, non_shared, value_length))
         else
           r1 ← GetVarint32Ptr (drop (Z.to_nat p) data) (limit - p);
           match r1 with
           | None => Some None
           | Some (shared, n, q) =>
               r2 ← GetVarint32Ptr q n;
               match r2 with
               | None => Some None
               | Some (non_shared, n, q) =>
                   r3 ← GetVarint32Ptr q n;
                   match r3 with
                   | None => Some None
                   | Some (value_length, n, q) => Some (Some (limit - n, shared, non_shared, value_length))
                   end
               end
           end);
    match r with
    | None => Some None
    | Some (p, shared, non_shared, value_length) =>
        if wrap 32 (limit - p) <? wrap 32 (non_shared + value_length) then Some None
        else Some (Some (p, shared, non_shared, value_length))
    end.

(** [value_] is the offset and the length of the value in the block, or the
    empty Slice of its constructor. *)
Record Iter := mkIter {
  i_data : list Z;
  i_restarts : Z;
  num_restarts_ : Z;
  current_ : Z;
  restart_index_ : Z;
  key_ : list Z;
  value_ : option (Z * Z);
  status_ : Code;
}.

Definition new_Iter (data : list Z) (restarts num_restarts : Z) : option Iter :=
  _ ← passert (0 <? num_restarts);
  Some (mkIter data restarts num_restarts restarts num_restarts [] None kOk).

Inductive NewIter := EmptyIter (it : EmptyIterator) | BlockIter (it : Iter).

Definition NewIterator (b : Block) : option NewIter :=
  if size_ b <? 4 then Some (EmptyIter (NewErrorIterator kCorruption))
  else
    n ← NumRestarts (data_ b) (size_ b);
    if n =? 0 then Some (EmptyIter NewEmptyIterator)
    else it ← new_Iter (data_ b) (restart_offset_ b) n; Some (BlockIter it).

Definition Valid (it : Iter) : bool := current_ it <? i_restarts it.

Definition NextEntryOffset (it : Iter) : option Z :=
  '(off, len) ← value_ it; Some (wrap 32 (off + len)).

Definition GetRestartPoint (it : Iter) (index : Z) : option Z :=
  _ ← passert (index <? num_restarts_ it);
  DecodeFixed32 le (drop (Z.to_nat (i_restarts it + index * 4)) (i_data it)).

Definition SeekToRestartPoint (it : Iter) (index : Z) : option Iter :=
  offset ← GetRestartPoint it index;
  Some (mkIter (i_data it) (i_restarts it) (num_restarts_ it) (current_ it) index [] (Some (offset, 0)) (status_ it)).

Definition CorruptionError (it : Iter) : Iter :=
  mkIter (i_data it) (i_restarts it) (num_restarts_ it) (i_restarts it) (num_restarts_ it) [] None kCorruption.

(** [restart_index_] catches up with [current]. *)
Fixpoint advance_restart (fuel : nat) (it : Iter) (index current : Z) : option Z :=
  match fuel with
  | O => None
  | S fuel =>
      if index + 1 <? num_restarts_ it then
        p ← GetRestartPoint it (index + 1);
        if p <? current then advance_restart fuel it (index + 1) current else Some index
      else Some index
  end.

(** One iteration for each restart point, and one to stop. *)
Definition restart_fuel (it : Iter) : nat := S (Z.to_nat (num_restarts_ it)).

Definition ParseNextKey (it : Iter) : option (bool * Iter) :=
  current ← NextEntryOffset it;
  if i_restarts it <=? current then
    Some (false, mkIter (i_data it) (i_restarts it) (num_restarts_ it) (i_restarts it) (num_restarts_ it)
                   (key_ it) (value_ it) (status_ it))
  else
    r ← DecodeEntry (i_data it) current (i_restarts it);
    match r with
    | None => Some (false, CorruptionError it)
    | Some (p, shared, non_shared, value_length) =>
        if zlen (key_ it) <? shared then Some (false, CorruptionError it)
        else
          delta ← rd_bytes (i_data it) p non_shared;
          index ← advance_restart (restart_fuel it) it (restart_index_ it) current;
          Some (true, mkIter (i_data it) (i_restarts it) (num_restarts_ it) current index
                        (take (Z.to_nat shared) (key_ it) ++ delta)
                        (Some (p + non_shared, value_length)) (status_ it))
    end.

Definition iter_key (it : Iter) : option (list Z) := _ ← passert (Valid it); Some (key_ it).
Definition iter_value (it : Iter) : option (list Z) :=
  _ ← passert (Valid it);
  '(off, len) ← value_ it;
  rd_bytes (i_data it) off len.

Definition Next (it : Iter) : option Iter :=
  _ ← passert (Valid it);
  '(_, it) ← ParseNextKey it;
  Some it.

(** Entries have at least three octets, so the loops over them make fewer
    iterations than the block has octets. *)
Definition entry_fuel (it : Iter) : nat := S (length (i_data it)).

(** [do { } while (ParseNextKey() && NextEntryOffset() < original)] *)
Fixpoint skip_until (fuel : nat) (it : Iter) (original : Z) : option Iter :=
  match fuel with
  | O => None
  | S fuel =>
      '(ok, it) ← ParseNextKey it;
      if ok : bool then
        next ← NextEntryOffset it;
        if next <? original then skip_until fuel it original else Some it
      else Some it
  end.

(** The last restart point before [original], from [index] down. *)
Fixpoint scan_back (fuel : nat) (it : Iter) (index original : Z) : option (option Z) :=
  match fuel with
  | O => None
  | S fuel =>
      p ← GetRestartPoint it index;
      if original <=? p then if index =? 0 then Some None else scan_back fuel it (index - 1) original
      else Some (Some index)
  end.

Definition Prev (it : Iter) : option Iter :=
  _ ← passert (Valid it);
  let original := current_ it in
  r ← scan_back (restart_fuel it) it (restart_index_ it) original;
  match r with
  | None => Some (mkIter (i_data it) (i_restarts it) (num_restarts_ it) (i_restarts it) (num_restarts_ it)
                    (key_ it) (value_ it) (status_ it))
  | Some index => it ← SeekToRestartPoint it index; skip_until (entry_fuel it) it original
  end.

(** [None] inside is the corruption found on the way. *)
Fixpoint binary_search (fuel : nat) (it : Iter) (target : list Z) (left right : Z) : option (option Z) :=
  match fuel with
  | O => None
  | S fuel =>
      if left <? right then
        let mid := wrap 32 (left + right + 1) / 2 in
        region_offset ← GetRestartPoint it mid;
        r ← DecodeEntry (i_data it) region_offset (i_restarts it);
        match r with
        | None => Some None
        | Some (key_ptr, shared, non_shared, _) =>
            if negb (shared =? 0) then Some None
            else
              mid_key ← rd_bytes (i_data it) key_ptr non_shared;
              c ← Compare mid_key target;
              if c <? 0 then binary_search fuel it target mid right
              else binary_search fuel it target left (mid - 1)
        end
      else Some (Some left)
  end.

Fixpoint linear_search (fuel : nat) (it : Iter) (target : list Z) : option Iter :=
  match fuel with
  | O => None
  | S fuel =>
      '(ok, it) ← ParseNextKey it;
      if ok : bool then
        c ← Compare (key_ it) target;
        if 0 <=? c then Some it else linear_search fuel it target
      else Some it
  end.

Definition Seek (it : Iter) (target : list Z) : option Iter :=
  r ← binary_search (restart_fuel it) it target 0 (num_restarts_ it - 1);
  match r with
  | None => Some (CorruptionError it)
  | Some lo => it ← SeekToRestartPoint it lo; linear_search (entry_fuel it) it target
  end.

Definition SeekToFirst (it : Iter) : option Iter :=
  it ← SeekToRestartPoint it 0;
  '(_, it) ← ParseNextKey it;
  Some it.

Definition SeekToLast (it : Iter) : option Iter :=
  it ← SeekToRestartPoint it (num_restarts_ it - 1);
  skip_until (entry_fuel it) it (i_restarts it).
End block.

(** ** The octets of a block

    [es] are the entries; the entry [i] shares a prefix with the one before it
    unless it is at a restart point. *)
Section layout.
Context (N : nat).

Definition shared_of (i : nat) (prev k : list Z) : nat :=
  if (i mod N =? 0)%nat then O else shared_loop prev k.

Definition chunk (i : nat) (prev k v : list Z) : list Z :=
  let sh := shared_of i prev k in
  EncodeVarint32 (Z.of_nat sh) ++ EncodeVarint32 (zlen k - Z.of_nat sh) ++ EncodeVarint32 (zlen v) ++
  drop sh k ++ v.

Fixpoint chunks_from (i : nat) (prev : list Z) (es : list (list Z * list Z)) : list (list Z) :=
  match es with
  | [] => []
  | (k, v) :: es => chunk i prev k v :: chunks_from (S i) k es
  end.

Definition chunks (es : list (list Z * list Z)) : list (list Z) := chunks_from 0 [] es.

(** The key of the entry before [i]. *)
Definition prev_key (es : list (list Z * list Z)) (i : nat) : list Z :=
  match i with O => [] | S j => default [] (fst <$> es !! j) end.

Definition nrestarts (n : nat) : nat := match n with O => 1 | S n => S (n / N) end.
Definition rpoints (cs : list (list Z)) : list Z :=
  (fun r => off cs (r * N)) <$> seq 0 (nrestarts (length cs)).

Definition block_bytes (le : bool) (es : list (list Z * list Z)) : list Z :=
  concat (chunks es) ++ concat (EncodeFixed32 le <$> rpoints (chunks es)) ++
  EncodeFixed32 le (zlen (rpoints (chunks es))).

Lemma shared_loop_prefix a b :
  take (shared_loop a b) a = take (shared_loop a b) b /\
  (shared_loop a b <= length a)%nat /\ (shared_loop a b <= length b)%nat.
Proof.
  revert b. induction a as [|x a IH]; intros [|y b]; simpl; try (split; [done|lia]).
  destruct (Z.eqb_spec x y) as [-> | Hne]; simpl; [|split; [done|lia]].
  destruct (IH b) as (E & H1 & H2). rewrite E. split; [done|lia].
Qed.

Lemma shared_of_prefix i prev k :
  take (shared_of i prev k) prev = take (shared_of i prev k) k /\
  (shared_of i prev k <= length prev)%nat /\ (shared_of i prev k <= length k)%nat.
Proof.
  unfold shared_of. destruct (_ =? _)%nat; [|apply shared_loop_prefix]. split; [done|lia].
Qed.

Lemma chunks_from_snoc i prev es k v :
  chunks_from i prev (es ++ [(k, v)]) =
  chunks_from i prev es ++ [chunk (i + length es) (default prev (fst <$> last es)) k v].
Proof.
  revert i prev. induction es as [|[k' v'] es IH]; intros i prev; simpl.
  - by rewrite Nat.add_0_r.
  - rewrite IH, last_cons. replace (i + S (length es))%nat with (S i + length es)%nat by lia.
    by destruct (last es).
Qed.

Lemma chunks_snoc es k v :
  chunks (es ++ [(k, v)]) = chunks es ++ [chunk (length es) (default [] (fst <$> last es)) k v].
Proof. apply chunks_from_snoc. Qed.

Lemma length_chunks_from i prev es : length (chunks_from i prev es) = length es.
Proof. revert i prev. induction es as [|[k v] es IH]; intros i prev; simpl; auto. Qed.

Lemma length_chunks es : length (chunks es) = length es.
Proof. apply length_chunks_from. Qed.

Lemma chunks_lookup es i k v :
  es !! i = Some (k, v) -> chunks es !! i = Some (chunk i (prev_key es i) k v).
Proof.
  enough (forall j prev, es !! i = Some (k, v) ->
    chunks_from j prev es !! i = Some (chunk (j + i) (match i with O => prev | _ => prev_key es i end) k v)) as H.
  { intros Hi. unfold chunks. rewrite (H 0%nat [] Hi). by destruct i. }
  revert i. induction es as [|[k' v'] es IH]; intros i j prev Hi; [done|].
  destruct i as [|i]; simpl in *.
  - injection Hi as -> ->. by rewrite Nat.add_0_r.
  - rewrite (IH i (S j) k' Hi). replace (j + S i)%nat with (S j + i)%nat by lia. by destruct i.
Qed.

Lemma length_chunk i prev k v : 3 <= zlen (chunk i prev k v).
Proof.
  unfold chunk. rewrite !length_app. unfold EncodeVarint32. repeat case_match; simpl; lia.
Qed.

Lemma off_lt es i j :
  (i < j)%nat -> (i < length es)%nat -> off (chunks es) i < off (chunks es) j.
Proof.
  intros Hij Hi. destruct (lookup_lt_is_Some_2 es i Hi) as [[k v] E].
  pose proof (off_S _ _ _ (chunks_lookup _ _ _ _ E)) as H1.
  pose proof (length_chunk i (prev_key es i) k v). pose proof (off_le (chunks es) (S i) j). lia.
Qed.
End layout.

Section correct.
Context {C : Comparator} (N : nat) (HN : (1 <= N)%nat).
Implicit Types es : list (list Z * list Z).

(** The counter of entries since the last restart. *)
Definition cnt (n : nat) : Z := match n with O => 0 | S n => Z.of_nat (S (n mod N)) end.

Definition Built (b : BlockBuilder) es : Prop :=
  b = mkBuilder (concat (chunks N es)) (rpoints N (chunks N es)) (cnt (length es)) false
        (default [] (fst <$> last es)).

Lemma div_mod_S n : (n mod N < N)%nat /\ n = (N * (n / N) + n mod N)%nat.
Proof. split; [apply Nat.mod_upper_bound; lia|apply Nat.div_mod; lia]. Qed.

(** The next entry starts a restart exactly when its index is a positive
    multiple of the interval. *)
Lemma restart_step n :
  (cnt n <? Z.of_nat N) = negb ((n mod N =? 0)%nat && negb (n =? 0)%nat) /\
  (if (n mod N =? 0)%nat && negb (n =? 0)%nat
   then nrestarts N (S n) = S (nrestarts N n) /\ (nrestarts N n * N = n)%nat /\ cnt (S n) = 1
   else nrestarts N (S n) = nrestarts N n /\ cnt (S n) = cnt n + 1).
Proof.
  destruct n as [|n].
  { simpl. rewrite Nat.Div0.mod_0_l, Nat.Div0.div_0_l. simpl.
    rewrite (proj2 (Z.ltb_lt 0 (Z.of_nat N))) by lia. done. }
  unfold cnt, nrestarts. destruct (div_mod_S n) as [H1 H2].
  destruct (Nat.eqb_spec (n mod N) (N - 1)) as [E1|E1].
  - assert (S n = N * S (n / N) + 0)%nat as E by nia.
    rewrite <-(Nat.mod_unique (S n) N (S (n / N)) 0), <-(Nat.div_unique (S n) N (S (n / N)) 0) by lia.
    cbn [Nat.eqb negb andb]. split; [apply Z.ltb_ge; lia|]. split_and!; [done|nia|done].
  - assert (S n = N * (n / N) + S (n mod N))%nat as E by nia.
    rewrite <-(Nat.mod_unique (S n) N (n / N) (S (n mod N))),
      <-(Nat.div_unique (S n) N (n / N) (S (n mod N))) by lia.
    cbn [Nat.eqb negb andb]. split; [apply Z.ltb_lt; lia|]. split_and!; [done|lia].
Qed.

Lemma rpoints_snoc es k v :
  let n := length es in
  rpoints N (chunks N (es ++ [(k, v)])) =
  if (n mod N =? 0)%nat && negb (n =? 0)%nat
  then rpoints N (chunks N es) ++ [zlen (concat (chunks N es))] else rpoints N (chunks N es).
Proof.
  intros n. rewrite chunks_snoc. unfold rpoints. rewrite length_app, !length_chunks. simpl.
  rewrite Nat.add_1_r. destruct (restart_step n) as [_ H].
  assert (forall R, (forall r, (r < R)%nat -> (r * N <= n)%nat) ->
    (fun r => off (chunks N es ++ [chunk N (length es) (default [] (fst <$> last es)) k v]) (r * N)) <$> seq 0 R =
    (fun r => off (chunks N es) (r * N)) <$> seq 0 R) as Hoff.
  { intros R HR. apply list_fmap_ext. intros i r Hr. apply lookup_seq in Hr as [-> Hr]. simpl.
    apply off_app. rewrite length_chunks. by apply HR. }
  assert (forall r, (r < nrestarts N n)%nat -> (r * N <= n)%nat) as Hr.
  { intros r. unfold nrestarts. destruct n as [|n'] eqn:E; [intros; assert (r = 0)%nat by lia; subst; lia|].
    destruct (div_mod_S n'). intros. nia. }
  destruct (_ && _).
  - destruct H as (E1 & E2 & _). fold n. rewrite E1, seq_S, fmap_app, Hoff by done. simpl. f_equal. f_equal.
    rewrite off_app by (rewrite length_chunks; fold n; lia). apply off_all. rewrite length_chunks. fold n. lia.
  - destruct H as [E1 _]. fold n. rewrite E1. by apply Hoff.
Qed.

(** The sizes the format can represent. *)
Definition small es : Prop :=
  zlen (concat (chunks N es)) < 2 ^ 32 /\ Forall (fun e => zlen e.1 < 2 ^ 32) es.

Lemma small_app es es' : small (es ++ es') -> small es.
Proof.
  intros [H1 [H2 _]%Forall_app]. split; [|done].
  enough (exists cs, chunks N (es ++ es') = chunks N es ++ cs) as [cs E]
    by (rewrite E, concat_app, length_app in H1; lia).
  clear. induction es' as [|[k v] es' IH] using rev_ind; [exists []; by rewrite !app_nil_r|].
  destruct IH as [cs E]. rewrite app_assoc, chunks_snoc, E. eexists. by rewrite <-app_assoc.
Qed.

Lemma small_entry es i k v :
  small es -> es !! i = Some (k, v) ->
  zlen k < 2 ^ 32 /\ zlen v < 2 ^ 32 /\ off (chunks N es) (S i) < 2 ^ 32.
Proof.
  intros [H1 H2] Hi. rewrite Forall_lookup in H2. split_and!; [by apply (H2 i (k, v))| |].
  - assert (off (chunks N es) (S i) <= zlen (concat (chunks N es))) as H3.
    { rewrite <-(off_all (chunks N es) (length es + S i)) by (rewrite length_chunks; lia). apply off_le. lia. }
    rewrite (off_S _ _ _ (chunks_lookup N es i k v Hi)) in H3. unfold chunk in H3. rewrite !length_app in H3.
    unfold off in H3. lia.
  - rewrite <-(off_all (chunks N es) (length es + S i)) in H1 by (rewrite length_chunks; lia).
    pose proof (off_le (chunks N es) (S i) (length es + S i)). lia.
Qed.

Lemma Add_spec b es k v :
  Built b es -> increasing (es ++ [(k, v)]) -> small (es ++ [(k, v)]) ->
  exists b', Add (Z.of_nat N) b k v = Some b' /\ Built b' (es ++ [(k, v)]).
Proof.
  intros -> Hinc Hsm. set (n := length es).
  assert ((es ++ [(k, v)]) !! n = Some (k, v)) as Hn by (by apply list_lookup_middle).
  destruct (small_entry _ _ _ _ Hsm Hn) as (Hk & Hv & _).
  destruct (restart_step n) as [Hc Hr].
  unfold Add. cbn [finished_ counter_ last_key_ buffer_ restarts_ negb passert mbind option_bind].
  assert (cnt n <=? Z.of_nat N = true) as ->.
  { unfold cnt. destruct n as [|m] eqn:Em; [apply Z.leb_le; lia|]. destruct (div_mod_S m). apply Z.leb_le. lia. }
  cbn [passert mbind option_bind].
  assert ((if builder_empty (mkBuilder (concat (chunks N es)) (rpoints N (chunks N es)) (cnt n) false
             (default [] (fst <$> last es))) then Some tt
           else c ← Compare k (default [] (fst <$> last es)); passert (0 <? c)) = Some tt) as ->.
  { unfold builder_empty. cbn [buffer_]. case_bool_decide as Hb; [done|].
    destruct (last es) as [[k' v']|] eqn:El.
    - rewrite last_lookup in El. simpl.
      assert ((es ++ [(k, v)]) !! pred n = Some (k', v')) as Hl
        by (rewrite lookup_app_l; [done|]; apply lookup_lt_Some in El; lia).
      assert (pred n < n)%nat by (apply lookup_lt_Some in El; unfold n; lia).
      destruct (klt_flip k' k) as (c & -> & Hc').
      + by apply (increasing_key _ _ _ Hinc Hl).
      + by apply (increasing_key _ _ _ Hinc Hn).
      + by apply (increasing_lookup _ _ _ _ _ Hinc Hl Hn).
      + cbn [mbind option_bind]. by rewrite (proj2 (Z.ltb_lt 0 c)).
    - apply last_None in El as ->. done. }
  cbn [mbind option_bind]. set (prev := default [] (fst <$> last es)).
  set (restart := (n mod N =? 0)%nat && negb (n =? 0)%nat) in *. fold n. rewrite Hc.
  assert (shared_of N n prev k = if restart then O else shared_loop prev k) as Hsh.
  { unfold shared_of, restart. destruct (n mod N =? 0)%nat; [|done]. destruct (Nat.eqb_spec n 0) as [E|]; [|done].
    apply length_zero_iff_nil in E. unfold prev. by rewrite E. }
  assert (wrap 32 (zlen (concat (chunks N es))) = zlen (concat (chunks N es))) as Hw.
  { apply wrap_fits. split; [lia|]. apply small_app in Hsm as [? _]. done. }
  assert (fits_unsigned 32 (Z.of_nat (shared_of N n prev k)) /\
    fits_unsigned 32 (zlen k - Z.of_nat (shared_of N n prev k)) /\ fits_unsigned 32 (zlen v)) as (F1 & F2 & F3).
  { pose proof (shared_of_prefix N n prev k) as (_ & _ & ?). unfold fits_unsigned. lia. }
  assert (take (shared_of N n prev k) prev ++ drop (shared_of N n prev k) k = k) as Hkey
    by (rewrite (proj1 (shared_of_prefix N n prev k)); apply take_drop).
  assert (rpoints N (chunks N (es ++ [(k, v)])) =
    if restart then rpoints N (chunks N es) ++ [zlen (concat (chunks N es))] else rpoints N (chunks N es)) as Hrp
    by apply rpoints_snoc.
  unfold Built. rewrite Hrp, last_snoc, length_app, chunks_snoc, concat_app. fold n. simpl length.
  rewrite Nat.add_1_r. cbn [concat fmap option_fmap option_map default fst]. fold prev. rewrite app_nil_r.
  unfold chunk. rewrite Hsh in *. destruct restart; cbn [negb].
  - destruct Hr as (_ & _ & ->). rewrite Hw. rewrite !(wrap_fits 32) by done. rewrite bool_decide_true by done.
    eexists; split; [done|]. rewrite Hkey. unfold PutVarint32. by rewrite <-!app_assoc.
  - destruct Hr as (_ & ->). rewrite !(wrap_fits 32) by done. rewrite bool_decide_true by done.
    eexists; split; [done|]. rewrite Hkey. unfold PutVarint32. by rewrite <-!app_assoc.
Qed.

Lemma add_all_spec es : forall b es0,
  Built b es0 -> increasing (es0 ++ es) -> small (es0 ++ es) ->
  exists b', add_all (Z.of_nat N) b es = Some b' /\ Built b' (es0 ++ es).
Proof.
  induction es as [|[k v] es IH]; intros b es0 Hb Hi Hs; simpl.
  - rewrite app_nil_r. eauto.
  - rewrite (app_assoc es0 [(k, v)] es : es0 ++ (k, v) :: es = _) in *.
    destruct (Add_spec b es0 k v Hb) as (b1 & -> & Hb1);
      [by eapply increasing_app|by eapply small_app|]. cbn [mbind option_bind]. by apply IH.
Qed.

Lemma Finish_spec le b es : Built b es -> zlen (rpoints N (chunks N es)) < 2 ^ 32 -> (Finish le b).1 = block_bytes N le es.
Proof.
  intros -> Hr. unfold Finish, block_bytes. cbn [restarts_ buffer_ fst]. rewrite fold_PutFixed32.
  unfold PutFixed32. rewrite wrap_fits by (split; lia). by rewrite <-app_assoc.
Qed.
End correct.

(** ** Decoding an entry *)
Lemma byte_bit7 b : is_byte b -> Z.testbit b 7 = negb (b <? 128).
Proof.
  unfold is_byte. intros Hb. rewrite Z.testbit_eqb by lia. change (2 ^ 7) with 128.
  destruct (Z.ltb_spec b 128).
  - rewrite Z.div_small by lia. done.
  - replace (b / 128) with 1 by zdiv_lia. done.
Qed.

Lemma lor3_bound a b c :
  is_byte a -> is_byte b -> is_byte c ->
  (Z.lor (Z.lor a b) c <? 128) = (a <? 128) && (b <? 128) && (c <? 128).
Proof.
  intros Ha Hb Hc.
  assert (is_byte (Z.lor (Z.lor a b) c)) as Hl by (apply (lor_bound 8); [done|by apply (lor_bound 8)|done]).
  rewrite <-(negb_involutive (Z.lor _ _ <? 128)), <-(byte_bit7 _ Hl), !Z.lor_spec, !byte_bit7 by done.
  by destruct (a <? 128), (b <? 128), (c <? 128).
Qed.

Lemma varint32_head v :
  fits_unsigned 32 v -> exists b rest, EncodeVarint32 v = b :: rest /\ is_byte b /\
    (b < 128 -> rest = [] /\ b = v).
Proof.
  intros Hv. rewrite EncodeVarint32_eq by done. unfold fits_unsigned in Hv.
  change (varint 10 v) with (if v <? 128 then [v] else v mod 128 + 128 :: varint 9 (v / 128)).
  unfold is_byte. destruct (Z.ltb_spec v 128); eexists _, _; (split; [done|]).
  - split; [lia|done].
  - split; [zdiv_lia|]. intros. zdiv_lia.
Qed.

Lemma DecodeEntry_spec A s ns vl body B limit :
  fits_unsigned 32 s -> fits_unsigned 32 ns -> fits_unsigned 32 vl -> zlen body = ns + vl ->
  let e := EncodeVarint32 s ++ EncodeVarint32 ns ++ EncodeVarint32 vl in
  zlen A + zlen e + zlen body <= limit <= zlen (A ++ (e ++ body) ++ B) -> limit < 2 ^ 32 ->
  DecodeEntry (A ++ (e ++ body) ++ B) (zlen A) limit = Some (Some (zlen A + zlen e, s, ns, vl)).
Proof.
  intros Hs Hns Hvl Hbody e Hlim Hl32.
  assert (wrap 32 (limit - (zlen A + zlen e)) <? wrap 32 (ns + vl) = false) as Hfit.
  { unfold fits_unsigned in *. rewrite !wrap_fits by (split; lia). apply Z.ltb_ge. lia. }
  destruct (varint32_head s Hs) as (b0 & r0 & E0 & Hb0 & H0).
  destruct (varint32_head ns Hns) as (b1 & r1 & E1 & Hb1 & H1).
  destruct (varint32_head vl Hvl) as (b2 & r2 & E2 & Hb2 & H2).
  assert (3 <= zlen e) as He by (unfold e; rewrite E0, E1, E2, !length_app; simpl; lia).
  assert (exists c1 c2 w, e = b0 :: c1 :: c2 :: w /\
    (b0 < 128 -> c1 = b1 /\ (b1 < 128 -> c2 = b2 /\ (b2 < 128 -> w = [])))) as (c1 & c2 & w & Ew & Hc).
  { unfold e. rewrite E0, E1, E2. destruct r0 as [|x0 [|x1 r0]].
    - destruct r1 as [|x1 r1]; simpl; eexists _, _, _; (split; [done|]); intros _; (split; [done|]); intros Hb.
      + split; [done|]. intros Hb'. by destruct (H2 Hb') as [-> _].
      + by destruct (H1 Hb) as [? _].
    - simpl. eexists _, _, _. split; [done|]. intros Hb. by destruct (H0 Hb) as [? _].
    - simpl. eexists _, _, _. split; [done|]. intros Hb. by destruct (H0 Hb) as [? _]. }
  assert (Forall is_byte e) as Hbytes.
  { unfold e. rewrite !EncodeVarint32_eq, !Forall_app by done. unfold fits_unsigned in *.
    split_and!; apply varint_bytes; lia. }
  assert (A ++ (e ++ body) ++ B = A ++ b0 :: c1 :: c2 :: (w ++ body ++ B)) as Ed
    by (by rewrite Ew, <-app_assoc).
  unfold DecodeEntry. rewrite (proj2 (Z.ltb_ge _ 3)) by lia. rewrite Ed.
  rewrite (rd_app A _ b0 (zlen A) eq_refl). cbn [mbind option_bind].
  rewrite (rd_at _ (A ++ [b0]) (c2 :: w ++ body ++ B) c1 (zlen A + 1))
    by (rewrite <-?app_assoc, ?length_app; simpl; done || lia).
  cbn [mbind option_bind].
  rewrite (rd_at _ (A ++ [b0; c1]) (w ++ body ++ B) c2 (zlen A + 2))
    by (rewrite <-?app_assoc, ?length_app; simpl; done || lia).
  cbn [mbind option_bind].
  rewrite Ew in Hbytes. rewrite !Forall_cons in Hbytes. destruct Hbytes as (_ & Hbc1 & Hbc2 & _).
  rewrite lor3_bound by done.
  destruct (Z.ltb_spec b0 128) as [L0|_], (Z.ltb_spec c1 128) as [L1|_], (Z.ltb_spec c2 128) as [L2|_]; cbn [andb].
  1:{ destruct (Hc L0) as [-> Hc1]. destruct (Hc1 L1) as [-> Hw]. rewrite (Hw L2) in Ew.
      destruct (H0 L0) as [_ ->], (H1 L1) as [_ ->], (H2 L2) as [_ ->]. cbn [mbind option_bind].
      replace (zlen A + 3) with (zlen A + zlen e) by (rewrite Ew; simpl; lia). by rewrite Hfit. }
  all: rewrite <-Ed, Nat2Z.id, drop_app_length; unfold e; rewrite <-!app_assoc.
  all: assert (zlen e = zlen (EncodeVarint32 s) + zlen (EncodeVarint32 ns) + zlen (EncodeVarint32 vl)) as Hle
    by (unfold e; rewrite !length_app; lia).
  all: rewrite GetVarint32Ptr_encode by (done || lia); cbn [mbind option_bind].
  all: rewrite GetVarint32Ptr_encode by (done || lia); cbn [mbind option_bind].
  all: rewrite GetVarint32Ptr_encode by (done || lia); cbn [mbind option_bind].
  all: replace (limit - (limit - zlen A - zlen (EncodeVarint32 s) - zlen (EncodeVarint32 ns)
      - zlen (EncodeVarint32 vl))) with (zlen A + zlen e) by lia; fold e; by rewrite Hfit.
Qed.

(** ** The iterator on a built block

    [lw] is the byte order of the host that wrote the block, [le] of the one
    that reads it. *)
Section iterate.
Context {C : Comparator} (N : nat) (HN : (1 <= N)%nat) (lw le : bool) (es : list (list Z * list Z)).
Hypothesis Hinc : increasing es.
Hypothesis Hsmall : small N es.
Hypothesis Hsize : zlen (block_bytes N lw es) < 2 ^ 32.

Notation cs := (chunks N es).
Notation D := (concat cs).
Notation n := (length es).
Notation R := (rpoints N cs).

Lemma length_rpoints : length R = nrestarts N n.
Proof. unfold rpoints. by rewrite length_fmap, length_seq, length_chunks. Qed.

Lemma restart_lt r : (r < length R)%nat -> (r * N < n)%nat \/ (r = 0 /\ n = 0)%nat.
Proof.
  rewrite length_rpoints. unfold nrestarts. destruct n as [|m] eqn:E; [lia|].
  intros Hr. left. destruct (div_mod_S N HN m). nia.
Qed.

Lemma rpoints_lookup r : (r < length R)%nat -> R !! r = Some (off cs (r * N)).
Proof.
  intros Hr. unfold rpoints in *. rewrite length_fmap, length_seq in Hr.
  rewrite list_lookup_fmap, lookup_seq_lt by done. done.
Qed.

Lemma length_block_bytes : zlen (block_bytes N lw es) = zlen D + 4 * zlen R + 4.
Proof.
  unfold block_bytes. rewrite !length_app, EncodeFixed32_eq, length_le_enc.
  pose proof (length_fixed_concat lw R). lia.
Qed.

Definition base (it : Iter) : Prop :=
  i_data it = block_bytes N lw es /\ i_restarts it = zlen D /\ num_restarts_ it = zlen R /\ status_ it = kOk.

Lemma off_n i : (n <= i)%nat -> off cs i = zlen D.
Proof. intros. apply off_all. by rewrite length_chunks. Qed.

Lemma off_fits i : 0 <= off cs i < 2 ^ 32.
Proof.
  split; [unfold off; lia|]. destruct Hsmall as [H _].
  pose proof (off_le cs i (i + n)). rewrite (off_n (i + n)) in H0 by lia. lia.
Qed.

Lemma GetRestartPoint_spec it r :
  base it -> (r < length R)%nat -> GetRestartPoint le it (Z.of_nat r) = Some (off cs (r * N)).
Proof.
  intros (Ed & Er & En & _) Hr. unfold GetRestartPoint. rewrite En, (proj2 (Z.ltb_lt _ _)) by lia.
  cbn [passert mbind option_bind]. rewrite Ed, Er. unfold block_bytes.
  rewrite (DecodeFixed32_array le lw D R _ r _ (rpoints_lookup r Hr)). by rewrite wrap_fits by apply off_fits.
Qed.

(** Ready to read the entry [i]. *)
Definition positioned (it : Iter) (i : nat) : Prop :=
  base it /\ (exists o l, value_ it = Some (o, l) /\ o + l = off cs i) /\
  ((i mod N = 0)%nat \/ key_ it = prev_key es i) /\
  exists r, restart_index_ it = Z.of_nat r /\ (r < length R)%nat /\ (r * N <= i)%nat.

(** On the entry [i]. *)
Definition at_entry (it : Iter) (i : nat) : Prop :=
  base it /\ exists k v, es !! i = Some (k, v) /\ current_ it = off cs i /\ key_ it = k /\
  value_ it = Some (off cs (S i) - zlen v, zlen v) /\
  exists r, restart_index_ it = Z.of_nat r /\ (r < length R)%nat /\ (r * N <= i)%nat /\
    ((S r < length R)%nat -> (i <= S r * N)%nat).

Definition invalid (it : Iter) : Prop := base it /\ current_ it = zlen D.

(** Where the iterator is, for any index. *)
Definition at_index (it : Iter) (i : nat) : Prop :=
  if (i <? n)%nat then at_entry it i else invalid it.

Lemma advance_restart_spec fuel it r i :
  base it -> (i < n)%nat -> (r < length R)%nat -> (r * N <= i)%nat -> (length R <= fuel + r)%nat -> (0 < fuel)%nat ->
  exists r', advance_restart le fuel it (Z.of_nat r) (off cs i) = Some (Z.of_nat r') /\
    (r' < length R)%nat /\ (r' * N <= i)%nat /\ ((S r' < length R)%nat -> (i <= S r' * N)%nat).
Proof.
  intros Hb Hi. revert r. induction fuel as [|fuel IH]; intros r Hr Hri Hf Hf0; [lia|].
  cbn [advance_restart]. destruct Hb as (Ed & Er & En & Es). rewrite En.
  destruct (Z.ltb_spec (Z.of_nat r + 1) (zlen R)) as [Hlt|Hge].
  - replace (Z.of_nat r + 1) with (Z.of_nat (S r)) by lia.
    rewrite GetRestartPoint_spec by (done || lia). cbn [mbind option_bind].
    destruct (Z.ltb_spec (off cs (S r * N)) (off cs i)) as [Ho|Ho].
    + assert (S r * N < i)%nat.
      { destruct (decide (S r * N < i)%nat); [done|]. pose proof (off_le cs i (S r * N)). lia. }
      apply IH; lia.
    + exists r. split_and!; [done|done|done|]. intros _.
      destruct (decide (i <= S r * N)%nat); [done|].
      pose proof (off_lt N es (S r * N) i). lia.
  - exists r. split_and!; [done|done|done|lia].
Qed.

(** The entry [i] in the block: the three lengths, then the part of the key that
    is not shared and the value. *)
Lemma DecodeEntry_at i k v :
  es !! i = Some (k, v) ->
  let sh := shared_of N i (prev_key es i) k in
  exists p, DecodeEntry (block_bytes N lw es) (off cs i) (zlen D) =
      Some (Some (p, Z.of_nat sh, zlen k - Z.of_nat sh, zlen v)) /\
    rd_bytes (block_bytes N lw es) p (zlen k - Z.of_nat sh) = Some (drop sh k) /\
    rd_bytes (block_bytes N lw es) (off cs (S i) - zlen v) (zlen v) = Some v /\
    p + (zlen k - Z.of_nat sh) = off cs (S i) - zlen v.
Proof.
  intros Ei sh. pose proof (chunks_lookup N es i k v Ei) as Hch. pose proof (off_S _ _ _ Hch) as HoS.
  destruct (small_entry N HN es i k v Hsmall Ei) as (Hk & Hv & Hend).
  pose proof (shared_of_prefix N i (prev_key es i) k) as (_ & _ & Hsh2). fold sh in Hsh2.
  set (e := EncodeVarint32 (Z.of_nat sh) ++ EncodeVarint32 (zlen k - Z.of_nat sh) ++ EncodeVarint32 (zlen v)).
  assert (chunk N i (prev_key es i) k v = e ++ (drop sh k ++ v)) as Hce
    by (unfold chunk, e; fold sh; by rewrite <-!app_assoc).
  assert (exists T, block_bytes N lw es = concat (take i cs) ++ (e ++ (drop sh k ++ v)) ++ T /\
    zlen D <= zlen (block_bytes N lw es)) as (T & Edata & HDle).
  { eexists. split; [|rewrite length_block_bytes; lia].
    unfold block_bytes. rewrite (concat_split cs i _ Hch), Hce. by rewrite <-!app_assoc. }
  assert (zlen (concat (take i cs)) = off cs i) as HA by done.
  assert (off cs (S i) <= zlen D) as HSD by (rewrite <-(off_n (S i + n)) by lia; apply off_le; lia).
  assert (zlen (drop sh k) = zlen k - Z.of_nat sh) as Hdk by (rewrite length_drop; lia).
  assert (zlen (drop sh k ++ v) = zlen k - Z.of_nat sh + zlen v) as Hbody by (rewrite length_app; lia).
  assert (off cs (S i) = off cs i + zlen e + zlen (drop sh k ++ v)) as HoS'
    by (rewrite HoS, Hce, length_app; lia).
  pose proof (DecodeEntry_spec (concat (take i cs)) (Z.of_nat sh) (zlen k - Z.of_nat sh) (zlen v)
    (drop sh k ++ v) T (zlen D)) as Hdec.
  cbn zeta in Hdec. fold e in Hdec. rewrite <-Edata, HA in Hdec.
  exists (off cs i + zlen e). split_and!; [|rewrite Edata..|lia].
  - apply Hdec; [unfold fits_unsigned; lia..|done|lia|destruct Hsmall; lia].
  - rewrite <-!app_assoc, (app_assoc (concat _) e). apply rd_bytes_app; [|lia]. rewrite length_app. lia.
  - rewrite <-!app_assoc, (app_assoc (concat _) e), (app_assoc (concat _ ++ e)).
    apply rd_bytes_app; [|done]. rewrite !length_app in *. lia.
Qed.

Lemma ParseNextKey_spec it i :
  positioned it i ->
  exists it', ParseNextKey le it = Some ((i <? n)%nat, it') /\ at_index it' i.
Proof.
  intros (Hb & (o & l & Ev & Eo) & Hkey & r & Er & Hr & Hri).
  pose proof Hb as (Ed & Erest & En & Es). unfold ParseNextKey, NextEntryOffset. rewrite Ev.
  cbn [mbind option_bind]. rewrite Eo, wrap_fits by apply off_fits. rewrite Erest. unfold at_index.
  destruct (Nat.ltb_spec i n) as [Hi|Hi].
  2:{ rewrite (off_n i Hi), (proj2 (Z.leb_le _ _)) by lia. eexists; split; [done|]. done. }
  assert (off cs i < zlen D) as Hlt by (rewrite <-(off_n n) by done; by apply off_lt).
  rewrite (proj2 (Z.leb_gt _ _)) by done.
  destruct (lookup_lt_is_Some_2 es i Hi) as [[k v] Ei].
  destruct (DecodeEntry_at i k v Ei) as (p & Hdec & Hrd & _ & Hp).
  set (sh := shared_of N i (prev_key es i) k) in *.
  pose proof (shared_of_prefix N i (prev_key es i) k) as (Hpre & Hsh1 & Hsh2). fold sh in Hpre, Hsh1, Hsh2.
  rewrite Ed, Hdec. cbn [mbind option_bind].
  assert (Z.of_nat sh <= zlen (key_ it) /\ take sh (key_ it) = take sh k) as [Hkl Hkt].
  { destruct Hkey as [Hmod | ->]; [|by rewrite Hpre; split; [lia|]].
    unfold sh, shared_of. rewrite Hmod. simpl. split; [lia|done]. }
  rewrite (proj2 (Z.ltb_ge _ _)) by lia. rewrite Hrd. cbn [mbind option_bind]. rewrite Er.
  destruct (advance_restart_spec (restart_fuel it) it r i) as (r' & -> & Hr'); try done;
    [unfold restart_fuel; rewrite ?En; lia..|].
  cbn [mbind option_bind]. eexists; split; [done|]. split; [done|]. exists k, v. cbn.
  split_and!; [done|done| | |].
  - rewrite Nat2Z.id, Hkt. apply take_drop.
  - by rewrite Hp.
  - exists r'. by destruct Hr' as (? & ? & ?).
Qed.

Lemma at_entry_positioned it i : at_entry it i -> positioned it (S i).
Proof.
  intros (Hb & k & v & Ei & Ec & Ek & Ev & r & Er & Hr & Hri & _). split_and!; [done| | |].
  - eexists _, _. split; [done|]. lia.
  - right. simpl. by rewrite Ei.
  - exists r. split_and!; [done|done|lia].
Qed.

Lemma SeekToRestartPoint_spec it r :
  base it -> (r < length R)%nat ->
  exists it', SeekToRestartPoint le it (Z.of_nat r) = Some it' /\ positioned it' (r * N).
Proof.
  intros Hb Hr. unfold SeekToRestartPoint. rewrite GetRestartPoint_spec by done. cbn [mbind option_bind].
  eexists; split; [done|]. split_and!; [done| | |].
  - eexists _, _. split; [done|]. lia.
  - left. by rewrite Nat.Div0.mod_mul.
  - by exists r.
Qed.

Lemma at_entry_lt it i : at_entry it i -> (i < n)%nat.
Proof. intros (_ & k & v & Ei & _). by eapply lookup_lt_Some. Qed.

Lemma at_entry_index it i : at_entry it i -> at_index it i.
Proof. intros H. unfold at_index. by rewrite (proj2 (Nat.ltb_lt _ _) (at_entry_lt _ _ H)). Qed.

Lemma at_entry_Valid it i : at_entry it i -> Valid it = true.
Proof.
  intros H. pose proof (at_entry_lt _ _ H) as Hi. destruct H as ((_ & Er & _) & k & v & _ & Ec & _).
  unfold Valid. rewrite Ec, Er. apply Z.ltb_lt. rewrite <-(off_n n) by done. by apply off_lt.
Qed.

Lemma invalid_Valid it : invalid it -> Valid it = false.
Proof. intros [(_ & Er & _) Ec]. unfold Valid. rewrite Ec, Er. apply Z.ltb_ge. lia. Qed.

Lemma NextEntryOffset_at it i : at_entry it i -> NextEntryOffset it = Some (off cs (S i)).
Proof.
  intros (_ & k & v & _ & _ & _ & Ev & _). unfold NextEntryOffset. rewrite Ev. cbn [mbind option_bind].
  rewrite Z.sub_add, wrap_fits by apply off_fits. done.
Qed.

Lemma at_index_base it i : at_index it i -> base it.
Proof. unfold at_index. destruct (_ <? _)%nat; [by intros [? _]|by intros [? _]]. Qed.

Lemma n_le_data : (n <= length (block_bytes N lw es))%nat.
Proof.
  enough (forall i, (i <= n)%nat -> Z.of_nat i <= off cs i) as H.
  { specialize (H n (Nat.le_refl _)). rewrite off_n in H by done. pose proof length_block_bytes. lia. }
  intros i. induction i as [|i IH]; intros Hi; [unfold off; lia|].
  pose proof (off_lt N es i (S i)). lia.
Qed.

Lemma skip_until_spec j : (j <= n)%nat -> forall fuel it i,
  positioned it i -> (i < j)%nat -> (j - i <= fuel)%nat ->
  exists it', skip_until le fuel it (off cs j) = Some it' /\ at_entry it' (j - 1).
Proof.
  intros Hj. induction fuel as [|fuel IH]; intros it i Hp Hij Hf; [lia|]. cbn [skip_until].
  destruct (ParseNextKey_spec it i Hp) as (it1 & -> & Ha). cbn [mbind option_bind].
  unfold at_index in Ha. rewrite (proj2 (Nat.ltb_lt i n)) in * by lia.
  rewrite (NextEntryOffset_at _ _ Ha). cbn [mbind option_bind].
  destruct (decide (S i = j)) as [<- | Hne].
  - rewrite (proj2 (Z.ltb_ge _ _)) by lia. exists it1. split; [done|]. by replace (S i - 1)%nat with i by lia.
  - rewrite (proj2 (Z.ltb_lt _ _)) by (apply off_lt; lia).
    apply (IH it1 (S i)); [by apply at_entry_positioned|lia..].
Qed.

Lemma entry_fuel_enough it : base it -> (n < entry_fuel it)%nat.
Proof. intros (Ed & _). unfold entry_fuel. rewrite Ed. pose proof n_le_data. lia. Qed.

Lemma Iter_SeekToFirst_spec it : base it -> exists it', SeekToFirst le it = Some it' /\ at_index it' 0.
Proof.
  intros Hb. unfold SeekToFirst.
  destruct (SeekToRestartPoint_spec it 0 Hb) as (it1 & E & Hp); [rewrite length_rpoints; destruct n; simpl; lia|].
  change (Z.of_nat 0) with 0 in E. rewrite E. cbn [mbind option_bind].
  destruct (ParseNextKey_spec it1 0 Hp) as (it2 & -> & Ha). cbn [mbind option_bind]. eauto.
Qed.

Lemma Iter_SeekToLast_spec it : base it -> exists it', SeekToLast le it = Some it' /\ at_index it' (n - 1).
Proof.
  intros Hb. unfold SeekToLast. pose proof Hb as (_ & Er & En & _).
  assert (0 < length R)%nat as HR by (rewrite length_rpoints; destruct n; simpl; lia).
  rewrite En. replace (zlen R - 1) with (Z.of_nat (length R - 1)) by lia.
  destruct (SeekToRestartPoint_spec it (length R - 1) Hb) as (it1 & -> & Hp); [lia|]. cbn [mbind option_bind].
  pose proof (proj1 Hp) as Hb1. pose proof Hb1 as (_ & -> & _). rewrite <-(off_n n) by done.
  pose proof (entry_fuel_enough _ Hb1). destruct (restart_lt (length R - 1)) as [Hlt | [H0 Hn]]; [lia| |].
  - destruct (skip_until_spec n ltac:(lia) (entry_fuel it1) it1 _ Hp) as (it2 & -> & Ha); [lia..|].
    exists it2. split; [done|]. by apply at_entry_index.
  - rewrite H0 in Hp. simpl in Hp. destruct (entry_fuel it1) as [|f] eqn:Ef; [lia|]. cbn [skip_until].
    destruct (ParseNextKey_spec it1 0 Hp) as (it2 & -> & Ha). cbn [mbind option_bind].
    rewrite (proj2 (Nat.ltb_ge 0 n)) by lia. exists it2. split; [done|]. by rewrite Hn in *.
Qed.

Lemma Iter_Next_spec it i : at_entry it i -> exists it', Next le it = Some it' /\ at_index it' (S i).
Proof.
  intros Ha. unfold Next. rewrite (at_entry_Valid _ _ Ha). cbn [passert mbind option_bind].
  destruct (ParseNextKey_spec it (S i)) as (it' & -> & Ha'); [by apply at_entry_positioned|].
  cbn [mbind option_bind]. eauto.
Qed.

Lemma Iter_Prev_spec it i :
  at_entry it i -> exists it', Prev le it = Some it' /\
    match i with O => invalid it' | S j => at_entry it' j end.
Proof.
  intros Ha. pose proof (at_entry_lt _ _ Ha) as Hi. unfold Prev. rewrite (at_entry_Valid _ _ Ha).
  cbn [passert mbind option_bind]. destruct Ha as (Hb & k & v & Ei & Ec & Ek & Ev & r & Er & Hr & Hri & _).
  rewrite Ec, Er.
  assert (exists res, scan_back le (restart_fuel it) it (Z.of_nat r) (off cs i) = Some res /\
    match i with O => res = None | S _ => exists r', res = Some (Z.of_nat r') /\ (r' < length R)%nat /\ (r' * N < i)%nat end)
    as (res & -> & Hres).
  { unfold restart_fuel. rewrite (proj1 (proj2 (proj2 Hb))). destruct (Z.to_nat (zlen R)) as [|f] eqn:Ef; [lia|].
    cbn [scan_back]. rewrite GetRestartPoint_spec by done. cbn [mbind option_bind].
    destruct (decide (r * N < i)%nat) as [Hlt|Hge].
    - rewrite (proj2 (Z.leb_gt _ _)) by (apply off_lt; lia). eexists; split; [done|]. destruct i; [lia|]. eauto.
    - assert (r * N = i)%nat as E by lia. rewrite E, (proj2 (Z.leb_le _ _)) by lia.
      destruct (Z.eqb_spec (Z.of_nat r) 0) as [Er0|Er0].
      + assert (i = 0)%nat as -> by nia. eauto.
      + assert (0 < i)%nat by nia. destruct i as [|i]; [lia|].
        replace (Z.of_nat r - 1) with (Z.of_nat (r - 1)) by lia.
        rewrite GetRestartPoint_spec by (done || lia). cbn [mbind option_bind].
        rewrite (proj2 (Z.leb_gt _ _)) by (apply off_lt; nia).
        eexists; split; [done|]. exists (r - 1)%nat. split_and!; [done|lia|nia]. }
  cbn [mbind option_bind]. destruct i as [|j].
  - subst res. eexists; split; [done|]. split; [done|]. simpl. by destruct Hb as (_ & -> & _).
  - destruct Hres as (r' & -> & Hr' & Hlt).
    destruct (SeekToRestartPoint_spec it r' Hb Hr') as (it1 & -> & Hp). cbn [mbind option_bind].
    pose proof (entry_fuel_enough _ (proj1 Hp)).
    destruct (skip_until_spec (S j) ltac:(lia) (entry_fuel it1) it1 _ Hp) as (it2 & -> & Ha); [lia..|].
    exists it2. split; [done|]. by replace (S j - 1)%nat with j in Ha by lia.
Qed.

(** ** Seeking *)
Lemma linear_search_spec target : is_key target -> forall fuel it i,
  positioned it i -> (i <= seek_index es target)%nat -> (n < fuel + i)%nat ->
  exists it', linear_search le fuel it target = Some it' /\ at_index it' (seek_index es target).
Proof.
  intros Ht. pose proof (seek_index_le es target) as Hle.
  induction fuel as [|fuel IH]; intros it i Hp Hi Hf; [lia|]. cbn [linear_search].
  destruct (ParseNextKey_spec it i Hp) as (it1 & -> & Ha). cbn [mbind option_bind].
  unfold at_index in Ha. destruct (Nat.ltb_spec i n) as [Hin|Hin].
  - pose proof Ha as (_ & k & v & Ei & _ & Ek & _). rewrite Ek.
    destruct (Compare_total k target) as [c Ec]; [by eapply (increasing_key es i (k, v))|done|].
    rewrite Ec. cbn [mbind option_bind].
    assert (below target k = (c <? 0)) as Hbc by (unfold below; by rewrite Ec).
    destruct (Z.leb_spec 0 c) as [Hc|Hc].
    + exists it1. split; [done|]. replace (seek_index es target) with i; [by apply at_entry_index|].
      destruct (decide (i < seek_index es target)%nat) as [Hlt|]; [|lia].
      pose proof (seek_index_below _ _ _ _ Hlt Ei) as Hb. simpl in Hb. rewrite Hbc in Hb.
      apply Z.ltb_lt in Hb. lia.
    + apply (IH it1 (S i)); [by apply at_entry_positioned| |lia].
      apply (seek_index_gt es target i (k, v)); [done|done|done|]. simpl. rewrite Hbc. by apply Z.ltb_lt.
  - exists it1. split; [done|]. assert (seek_index es target = i) as -> by lia.
    unfold at_index. by rewrite (proj2 (Nat.ltb_ge i n)).
Qed.

(** The key of the restart point [r]. *)
Lemma restart_key r :
  (0 < n)%nat -> (r < length R)%nat -> exists k v p, es !! (r * N)%nat = Some (k, v) /\
    DecodeEntry (block_bytes N lw es) (off cs (r * N)) (zlen D) = Some (Some (p, 0, zlen k, zlen v)) /\
    rd_bytes (block_bytes N lw es) p (zlen k) = Some k.
Proof.
  intros Hn Hr. destruct (restart_lt r Hr) as [Hlt | ?]; [|lia].
  destruct (lookup_lt_is_Some_2 es (r * N) Hlt) as [[k v] Ei].
  destruct (DecodeEntry_at _ _ _ Ei) as (p & H1 & H2 & _).
  unfold shared_of in H1, H2. rewrite Nat.Div0.mod_mul in H1, H2. simpl in H1, H2.
  rewrite Z.sub_0_r in H1, H2. exists k, v, p. done.
Qed.

Lemma binary_search_spec it target : is_key target -> base it -> forall fuel lo hi,
  (lo <= hi)%nat -> (hi < length R)%nat -> (hi - lo < fuel)%nat -> (lo * N <= seek_index es target)%nat ->
  exists r, binary_search le fuel it target (Z.of_nat lo) (Z.of_nat hi) = Some (Some (Z.of_nat r)) /\
    (r < length R)%nat /\ (r * N <= seek_index es target)%nat.
Proof.
  intros Ht Hb. pose proof length_block_bytes as HlB.
  induction fuel as [|fuel IH]; intros lo hi Hlh Hhi Hf Hlo; [lia|]. cbn [binary_search].
  destruct (Z.ltb_spec (Z.of_nat lo) (Z.of_nat hi)) as [Hlt|Hge].
  2:{ exists lo. split_and!; [done|lia|done]. }
  set (mid := ((lo + hi + 1) / 2)%nat).
  assert (lo < mid <= hi)%nat as Hmid by (unfold mid; split; [apply Nat.div_le_lower_bound|apply Nat.div_le_upper_bound]; lia).
  rewrite wrap_fits by (split; lia).
  replace ((Z.of_nat lo + Z.of_nat hi + 1) / 2) with (Z.of_nat mid)
    by (unfold mid; rewrite Nat2Z.inj_div; f_equal; lia).
  rewrite GetRestartPoint_spec by (done || lia). cbn [mbind option_bind].
  assert (0 < n)%nat as Hn by (destruct (restart_lt mid); lia).
  destruct (restart_key mid Hn) as (k & v & p & Ei & Hd & Hrd); [lia|].
  destruct Hb as (Ed & Er & En & Es). rewrite Ed, Er, Hd. cbn [mbind option_bind].
  change (negb (0 =? 0)) with false. cbn iota. rewrite Hrd. cbn [mbind option_bind].
  destruct (Compare_total k target) as [c Ec]; [by eapply (increasing_key es _ (k, v))|done|].
  rewrite Ec. cbn [mbind option_bind].
  assert (below target k = (c <? 0)) as Hbc by (unfold below; by rewrite Ec).
  destruct (c <? 0) eqn:Hc.
  - apply IH; [lia..|]. pose proof (seek_index_gt es target _ (k, v) Hinc Ht Ei Hbc). lia.
  - replace (Z.of_nat mid - 1) with (Z.of_nat (mid - 1)) by lia. apply IH; lia.
Qed.

Lemma Iter_Seek_spec it target :
  is_key target -> base it -> exists it', Seek le it target = Some it' /\ at_index it' (seek_index es target).
Proof.
  intros Ht Hb. unfold Seek. pose proof Hb as (_ & _ & En & _).
  assert (0 < length R)%nat as HR by (rewrite length_rpoints; destruct n; simpl; lia).
  rewrite En. replace (zlen R - 1) with (Z.of_nat (length R - 1)) by lia.
  destruct (binary_search_spec it target Ht Hb (restart_fuel it) 0 (length R - 1)) as (r & E & Hr & Hri).
  { lia. } { lia. } { unfold restart_fuel. rewrite En. lia. } { lia. }
  change (Z.of_nat 0) with 0 in E. rewrite E. cbn [mbind option_bind].
  destruct (SeekToRestartPoint_spec it r Hb Hr) as (it1 & -> & Hp). cbn [mbind option_bind].
  apply (linear_search_spec target Ht _ _ _ Hp Hri).
  pose proof (entry_fuel_enough _ (proj1 Hp)). lia.
Qed.

Lemma at_entry_get it i e : at_entry it i -> es !! i = Some e ->
  iter_key it = Some e.1 /\ iter_value it = Some e.2.
Proof.
  intros Ha E. unfold iter_key, iter_value. rewrite (at_entry_Valid _ _ Ha).
  destruct Ha as ((Ed & _) & k & v & Ei & _ & Ek & Ev & _). rewrite E in Ei. injection Ei as ->.
  cbn [passert mbind option_bind]. rewrite Ev, Ek, Ed. cbn [mbind option_bind].
  by destruct (DecodeEntry_at _ _ _ E) as (p & _ & _ & -> & _).
Qed.

Lemma NumRestarts_spec : NumRestarts le (block_bytes N lw es) (zlen (block_bytes N lw es)) = Some (zlen R).
Proof.
  unfold NumRestarts. pose proof length_block_bytes as Hl.
  rewrite (proj2 (Z.leb_le _ _)) by lia. cbn [passert mbind option_bind].
  replace (Z.to_nat (zlen (block_bytes N lw es) - 4))
    with (length (concat cs ++ concat (EncodeFixed32 lw <$> R))) by (rewrite length_app; pose proof (length_fixed_concat lw R); lia).
  unfold block_bytes at 1. rewrite app_assoc, drop_app_length, <-(app_nil_r (EncodeFixed32 lw _)).
  rewrite DecodeFixed32_encode, wrap_fits by (split; lia). done.
Qed.

Lemma NewIterator_spec uninit :
  exists b it, new_Block le uninit (block_bytes N lw es) = Some b /\ size_ b = zlen (block_bytes N lw es) /\
    NewIterator le b = Some (BlockIter it) /\ base it /\ invalid it.
Proof.
  pose proof length_block_bytes as Hl.
  assert (0 < length R)%nat as HR by (rewrite length_rpoints; destruct n; simpl; lia).
  unfold new_Block. rewrite (proj2 (Z.ltb_ge _ 4)) by lia. rewrite NumRestarts_spec. cbn [mbind option_bind].
  rewrite (proj2 (Z.ltb_ge _ (zlen R))) by (rewrite Hl; zdiv_lia).
  eexists _, _. split; [done|]. split; [done|]. unfold NewIterator. cbn [size_ data_ restart_offset_].
  rewrite (proj2 (Z.ltb_ge _ 4)) by lia. rewrite NumRestarts_spec. cbn [mbind option_bind].
  rewrite (proj2 (Z.eqb_neq _ 0)) by lia. unfold new_Iter. rewrite (proj2 (Z.ltb_lt 0 _)) by lia.
  cbn [passert mbind option_bind].
  rewrite (wrap_fits 32 (1 + zlen R)) by (split; lia).
  rewrite wrap_fits by (split; lia).
  replace (zlen (block_bytes N lw es) - (1 + zlen R) * 4) with (zlen D) by lia.
  split; [done|]. split; [done|]. split; done.
Qed.
End iterate.

(** ** The iterator as a cursor *)
Section cursor.
Context {C : Comparator} (le : bool).

#[export] Instance NewIter_Iterator : Iterator NewIter := {
  it_Valid it := match it with EmptyIter it => it_Valid it | BlockIter it => Valid it end;
  it_SeekToFirst it := match it with
    | EmptyIter it => EmptyIter <$> it_SeekToFirst it | BlockIter it => BlockIter <$> SeekToFirst le it end;
  it_SeekToLast it := match it with
    | EmptyIter it => EmptyIter <$> it_SeekToLast it | BlockIter it => BlockIter <$> SeekToLast le it end;
  it_Seek it t := match it with
    | EmptyIter it => EmptyIter <$> it_Seek it t | BlockIter it => BlockIter <$> Seek le it t end;
  it_Next it := match it with
    | EmptyIter it => EmptyIter <$> it_Next it | BlockIter it => BlockIter <$> Next le it end;
  it_Prev it := match it with
    | EmptyIter it => EmptyIter <$> it_Prev it | BlockIter it => BlockIter <$> Prev le it end;
  it_key it := match it with EmptyIter it => it_key it | BlockIter it => iter_key it end;
  it_value it := match it with EmptyIter it => it_value it | BlockIter it => iter_value it end;
  it_status it := match it with EmptyIter it => it_status it | BlockIter it => status_ it end;
}.

Context (N : nat) (lw : bool) (es : list (list Z * list Z)).
Context (HN : (1 <= N)%nat) (Hinc : increasing es) (Hs : small N es) (Hz : zlen (block_bytes N lw es) < 2 ^ 32).

Definition at_block (nit : NewIter) (i : nat) : Prop :=
  exists it, nit = BlockIter it /\ at_index N lw es it i.

Lemma at_block_some (r : option Iter) i :
  (exists it, r = Some it /\ at_index N lw es it i) -> exists nit, BlockIter <$> r = Some nit /\ at_block nit i.
Proof. intros (it & -> & Ha). exists (BlockIter it). split; [done|]. by exists it. Qed.

Lemma block_is_cursor : is_cursor es at_block.
Proof.
  constructor; intros nit i; [intros e|..|intros t Ht| |]; intros (it & -> & Ha); unfold it_SeekToFirst; simpl.
  - intros E. pose proof (lookup_lt_Some _ _ _ E). unfold at_index in Ha. destruct (Nat.ltb_spec i (length es)); [|lia].
    split; [by eapply at_entry_Valid|by eapply at_entry_get].
  - intros E%lookup_ge_None. unfold at_index in Ha. destruct (Nat.ltb_spec i (length es)); [lia|].
    by eapply invalid_Valid.
  - by apply at_index_base in Ha as (_ & _ & _ & ?).
  - apply at_block_some, Iter_SeekToFirst_spec; eauto using at_index_base.
  - apply at_block_some, Iter_SeekToLast_spec; eauto using at_index_base.
  - apply at_block_some, Iter_Seek_spec; eauto using at_index_base.
  - intros Hi. apply at_block_some, Iter_Next_spec; try done. unfold at_index in Ha.
    by destruct (Nat.ltb_spec i (length es)); [|lia].
  - intros Hi. apply at_block_some. unfold at_index in Ha. destruct (Nat.ltb_spec i (length es)); [|lia].
    edestruct (Iter_Prev_spec N HN lw le es) as (it1 & E1 & H1); [done..|]. exists it1. split; [done|].
    destruct i as [|i]; [|by apply at_entry_index]. unfold at_index. by rewrite Nat.ltb_irrefl.
Qed.

(** Reading back what a builder wrote, through the constructors. *)
Lemma block_opens uninit : exists b it, new_Block le uninit (block_bytes N lw es) = Some b /\
  size_ b = zlen (block_bytes N lw es) /\ NewIterator le b = Some it /\ at_block it (length es).
Proof.
  edestruct (NewIterator_spec N HN lw le es) as (b & it & E1 & E2 & E3 & Hb & Hi); [done..|].
  exists b, (BlockIter it). split_and!; [done..|]. exists it. split; [done|]. unfold at_index.
  by rewrite Nat.ltb_irrefl.
Qed.
End cursor.

Lemma builder_writes {C : Comparator} N lw es :
  1 <= N -> increasing es -> small (Z.to_nat N) es -> zlen (block_bytes (Z.to_nat N) lw es) < 2 ^ 32 ->
  exists b, add_all N new_BlockBuilder es = Some b /\ (Finish lw b).1 = block_bytes (Z.to_nat N) lw es.
Proof.
  intros HN Hi Hs Hz. assert (1 <= Z.to_nat N)%nat as HN' by lia.
  destruct (add_all_spec (Z.to_nat N) HN' es new_BlockBuilder []) as (b & Eb & Hb); [|done..|].
  { unfold Built, rpoints, chunks, new_BlockBuilder. simpl. by rewrite ?Nat.mul_0_l. }
  rewrite Z2Nat.id in Eb by lia. exists b. split; [done|]. apply Finish_spec; [done..|].
  pose proof (length_block_bytes (Z.to_nat N) HN' lw es) as Hl. lia.
Qed.

(** ** Sizes

    [wt c es] counts [c] octets on top of the key and the value of an entry. *)
Fixpoint wt (c : Z) (es : list (list Z * list Z)) : Z :=
  match es with
  | [] => 0
  | (k, v) :: es => zlen k + zlen v + c + wt c es
  end.

Lemma wt_app c es es' : wt c (es ++ es') = wt c es + wt c es'.
Proof. induction es as [|[k v] es IH]; simpl; lia. Qed.

Lemma wt_add c d es : wt (c + d) es = wt c es + d * zlen es.
Proof. induction es as [|[k v] es IH]; simpl; lia. Qed.

Lemma wt_nonneg c es : 0 <= c -> 0 <= wt c es.
Proof. intros. induction es as [|[k v] es IH]; simpl; lia. Qed.

Lemma wt_in c es k v : 0 <= c -> (k, v) ∈ es -> zlen k + zlen v + c <= wt c es.
Proof.
  intros Hc. induction es as [|[k' v'] es IH]; [by intros ?%elem_of_nil|].
  intros [[= -> ->]|Hin]%elem_of_cons; simpl; [pose proof (wt_nonneg c es Hc); lia|specialize (IH Hin); lia].
Qed.

Definition octets_of (es : list (list Z * list Z)) : Prop := Forall (fun e => Forall is_byte e.1 /\ Forall is_byte e.2) es.

Section sizes.
Context (N : nat) (HN : (1 <= N)%nat).
Implicit Types es : list (list Z * list Z).

Lemma chunk_facts i prev k v : zlen k + zlen v < 2 ^ 32 ->
  zlen (chunk N i prev k v) <= zlen k + zlen v + 15 /\
  (Forall is_byte k -> Forall is_byte v -> Forall is_byte (chunk N i prev k v)).
Proof.
  intros Hkv. destruct (shared_of_prefix N i prev k) as (_ & _ & Hsh). unfold chunk. set (sh := shared_of N i prev k) in *.
  pose proof (length_EncodeVarint32 (Z.of_nat sh)) as [H1 _]; [split; lia|].
  pose proof (length_EncodeVarint32 (zlen k - Z.of_nat sh)) as [H2 _]; [split; lia|].
  pose proof (length_EncodeVarint32 (zlen v)) as [H3 _]; [split; lia|]. split.
  - rewrite !length_app, length_drop. lia.
  - intros Hk Hv. rewrite !Forall_app, !EncodeVarint32_eq by (split; lia). split_and!; [apply varint_bytes; lia..| |done].
    by apply Forall_drop.
Qed.

Lemma chunks_from_facts es : forall i prev, wt 15 es < 2 ^ 32 ->
  zlen (concat (chunks_from N i prev es)) <= wt 15 es /\
  (octets_of es -> Forall is_byte (concat (chunks_from N i prev es))).
Proof.
  induction es as [|[k v] es IH]; intros i prev Hw; cbn [chunks_from concat wt] in *; [by split|].
  pose proof (wt_nonneg 15 es ltac:(lia)) as Hn.
  destruct (chunk_facts i prev k v) as [H1 H2]; [lia|]. destruct (IH (S i) k) as [H3 H4]; [lia|]. split.
  - rewrite length_app. lia.
  - intros [[Hk Hv] Ho]%Forall_cons. apply Forall_app. split; [by apply H2|by apply H4].
Qed.

Lemma length_rpoints_le es : zlen (rpoints N (chunks N es)) <= zlen es + 1.
Proof using HN.
  unfold rpoints. rewrite length_fmap, length_seq, length_chunks. unfold nrestarts.
  destruct (length es) as [|n] eqn:E; [lia|]. pose proof (Nat.Div0.div_le_upper_bound n N n). nia.
Qed.

Lemma block_size lw es : wt 19 es + 8 < 2 ^ 32 ->
  zlen (block_bytes N lw es) <= wt 19 es + 8 /\ small N es /\
  (octets_of es -> Forall is_byte (block_bytes N lw es)).
Proof using HN.
  intros Hw. pose proof (wt_add 15 4 es) as Ha. change (15 + 4) with 19 in Ha.
  destruct (chunks_from_facts es 0 []) as [H1 H2]; [lia|]. change (chunks_from N 0 [] es) with (chunks N es) in *.
  pose proof (length_rpoints_le es) as Hr. pose proof (length_block_bytes N HN lw es) as Hl. split_and!.
  - rewrite Hl. lia.
  - split; [lia|]. apply Forall_forall. intros [k v] Hin. pose proof (wt_in 19 es k v ltac:(lia) Hin). simpl. lia.
  - intros Ho. unfold block_bytes. rewrite !Forall_app, EncodeFixed32_eq. split_and!; [by apply H2| |apply le_enc_bytes].
    apply Forall_concat, Forall_fmap, Forall_forall. intros x _. simpl. rewrite EncodeFixed32_eq. apply le_enc_bytes.
Qed.

(** The first entry of a block is not compared. *)
Lemma Add_first (C : Comparator) k v : wt 19 [(k, v)] + 8 < 2 ^ 32 ->
  exists b, Add (Z.of_nat N) new_BlockBuilder k v = Some b /\ Built N b [(k, v)].
Proof using HN.
  intros Hw. destruct (block_size true [(k, v)] Hw) as (_ & Hs & _).
  assert (@Add C (Z.of_nat N) new_BlockBuilder k v = @Add Bytewise_Comparator (Z.of_nat N) new_BlockBuilder k v) as -> by done.
  apply (Add_spec (C := Bytewise_Comparator) N HN new_BlockBuilder []); [|by repeat constructor|done].
  unfold Built, rpoints, chunks, new_BlockBuilder. simpl. by rewrite ?Nat.mul_0_l.
Qed.

Lemma Built_new : Built N new_BlockBuilder [].
Proof. unfold Built, rpoints, chunks, new_BlockBuilder. simpl. by rewrite ?Nat.mul_0_l. Qed.
End sizes.

(** ** Properties *)

(** C22 (block_iterator_correct) A block that [BlockBuilder] makes of entries
    with increasing keys, for any restart interval, comparator and byte orders
    of writer and reader, reads back as those entries: any sequence of
    SeekToFirst, SeekToLast, Seek, and Next and Prev at an entry, runs without
    a read outside of the block or a corruption status and shows, after each
    step, the entry of a cursor over the list, Seek stopping at the first key
    that is not below the target. *)
Theorem block_iterator_correct (C : Comparator) N lw le uninit es os vs :
  1 <= N -> increasing es -> small (Z.to_nat N) es -> zlen (block_bytes (Z.to_nat N) lw es) < 2 ^ 32 ->
  targets_ok os -> spec_isteps es (length es) os = Some vs ->
  exists b blk it it', add_all N new_BlockBuilder es = Some b /\
    new_Block le uninit (Finish lw b).1 = Some blk /\ NewIterator le blk = Some it /\
    isteps (I := NewIter) (Iterator0 := NewIter_Iterator le) it os = Some (vs, it') /\
    it_status (Iterator := NewIter_Iterator le) it' = kOk.
Proof.
  intros HN Hi Hs Hz Ht E. assert (1 <= Z.to_nat N)%nat as HN' by lia.
  destruct (builder_writes N lw es) as (b & Eb & EF); [done..|].
  edestruct (block_opens le (Z.to_nat N) lw es) as (blk & it & E1 & _ & E2 & Ha); [done..|].
  pose proof (block_is_cursor le (Z.to_nat N) lw es HN' Hi Hs Hz) as Hc.
  destruct (cursor_isteps es _ os Hc it (length es) vs Ha Ht E) as (it' & i & E3 & _ & Hst).
  exists b, blk, it, it'. by rewrite EF.
Qed.

Lemma block_iterator_correct_witness :
  let es := [([97; 97], [1]); ([97; 97; 98], []); ([97; 98; 99], [2; 3]); ([98], [4])] in
  let os := [OSeek [97; 98]; OPrev; OPrev; ONext; OLast; ONext; OFirst] in
  exists b blk it it', @add_all Bytewise_Comparator 2 new_BlockBuilder es = Some b /\
    new_Block false 0 (Finish true b).1 = Some blk /\ NewIterator false blk = Some it /\
    isteps (Iterator0 := @NewIter_Iterator Bytewise_Comparator false) it os =
      Some ([Some ([97; 98; 99], [2; 3]); Some ([97; 97; 98], []); Some ([97; 97], [1]);
             Some ([97; 97; 98], []); Some ([98], [4]); None; Some ([97; 97], [1])], it') /\
    it_status (Iterator := @NewIter_Iterator Bytewise_Comparator false) it' = kOk.
Proof.
  intros es os. apply (block_iterator_correct Bytewise_Comparator 2 true false 0 es os).
  - lia.
  - vm_compute. repeat constructor; by eexists.
  - split; [by vm_compute|by repeat (constructor; [by vm_compute|])].
  - by vm_compute.
  - repeat constructor.
  - vm_compute. reflexivity.
Defined.

(** ** A corrupt block *)

(** [DecodeEntry] compares the octets that are left
    with [non_shared + value_length] computed in 32 bits, so a corrupt entry
    whose two lengths sum to 2^32 or more passes the test: on this block, which
    the constructor of [Block] accepts, [SeekToFirst] copies a key from outside
    of the block instead of reporting a bad entry. *)
Theorem block_decode_overflow :
  let contents := [0; 255; 255; 255; 255; 15; 2; 7] ++ [0; 0; 0; 0; 1; 0; 0; 0] in
  exists blk it, new_Block true 0 contents = Some blk /\ size_ blk = zlen contents /\
    NewIterator true blk = Some (BlockIter it) /\ SeekToFirst true it = None.
Proof.
  intros contents. eexists _, _. split; [vm_compute; reflexivity|]. split; [reflexivity|].
  split; [vm_compute; reflexivity|]. vm_compute. reflexivity.
Qed.
