(* ===== verification/Filter.v ===== *)
(** Filters that say which keys a block may hold: the hash of
    [src/leveldb/util/hash.cc], the Bloom filter of [util/bloom.cc], the policy on
    internal keys of [db/dbformat.cc] and the filter block of
    [table/filter_block.cc].

    The filter block is proved against the contract that
    [include/leveldb/filter_policy.h] states for a policy ([FilterPolicy]). *)
From stdpp Require Import strings.
From S2P Require Import Prelude Coding Dbformat LdbBase Iterator.

Definition chars (s : string) : list Z := (fun a => Z.of_N (Ascii.N_of_ascii a)) <$> String.list_ascii_of_string s.

(** ** The hash function *)
Section hash.
Context (le : bool).

Definition hash_m : Z := 3332679571.

Definition Hash_tail (data : list Z) (n h : Z) : option Z :=
  let add i s h := b ← rd data i; Some (wrap 32 (h + Z.shiftl b s)) in
  let finish h := let h := wrap 32 (h * hash_m) in Z.lxor h (Z.shiftr h 24) in
  if n =? 3 then h ← add 2 16 h; h ← add 1 8 h; h ← add 0 0 h; Some (finish h)
  else if n =? 2 then h ← add 1 8 h; h ← add 0 0 h; Some (finish h)
  else if n =? 1 then h ← add 0 0 h; Some (finish h)
  else Some h.

(** Four octets at a time; [n] octets are left. *)
Fixpoint Hash_loop (fuel : nat) (data : list Z) (n h : Z) : option Z :=
  match fuel with
  | O => None
  | S fuel =>
      if 4 <=? n then
        w ← DecodeFixed32 le data;
        let h := wrap 32 (h + w) in
        let h := wrap 32 (h * hash_m) in
        Hash_loop fuel (drop 4 data) (n - 4) (Z.lxor h (Z.shiftr h 16))
      else Hash_tail data n h
  end.

Definition Hash (data : list Z) (seed : Z) : option Z :=
  let n := zlen data in
  Hash_loop (S (length data)) data n (wrap 32 (Z.lxor seed (wrap 64 (n * hash_m)))).

(** ** The Bloom filter *)
Definition BloomHash (key : list Z) : option Z := Hash key 3164544308.

Definition bloom_name : list Z := chars "leveldb.BuiltinBloomFilter2".

Record BloomFilterPolicy := mkBloom { bits_per_key_ : Z; k_ : Z }.

(** [bits_per_key * 0.69] in double precision and its whole part are exact below
    the bound of 30; the conversion of a negative one is undefined. *)
Definition new_BloomFilterPolicy (bits_per_key : Z) : option BloomFilterPolicy :=
  if bits_per_key <? -1 then None
  else
    let k := Z.quot (bits_per_key * 69) 100 in
    let k := if k <? 1 then 1 else k in
    let k := if 30 <? k then 30 else k in
    Some (mkBloom (wrap 64 bits_per_key) k).

Definition bloom_delta (h : Z) : Z := Z.lor (Z.shiftr h 17) (wrap 32 (Z.shiftl h 15)).

(** The probes of one key, [k] of them left; the filter starts at [base]. *)
Fixpoint set_probes (k : nat) (base bits h delta : Z) (dst : list Z) : option (list Z) :=
  match k with
  | O => Some dst
  | S k =>
      _ ← passert (negb (bits =? 0));
      let bitpos := wrap 32 (h mod bits) in
      b ← rd dst (base + bitpos / 8);
      dst ← wr dst (base + bitpos / 8) (wrap 8 (Z.lor b (Z.shiftl 1 (bitpos mod 8))));
      set_probes k base bits (wrap 32 (h + delta)) delta dst
  end.

Fixpoint add_probes (p : BloomFilterPolicy) (base bits : Z) (keys : list (list Z)) (dst : list Z) : option (list Z) :=
  match keys with
  | [] => Some dst
  | key :: keys =>
      h ← BloomHash key;
      dst ← set_probes (Z.to_nat (k_ p)) base bits h (bloom_delta h) dst;
      add_probes p base bits keys dst
  end.

Definition Bloom_CreateFilter (p : BloomFilterPolicy) (keys : list (list Z)) (dst : list Z) : option (list Z) :=
  let n := zlen keys in
  let bits := wrap 64 (n * bits_per_key_ p) in
  let bits := if bits <? 64 then 64 else bits in
  let bytes := wrap 64 (bits + 7) / 8 in
  let bits := bytes * 8 in
  let init_size := zlen dst in
  let dst := dst ++ replicate (Z.to_nat bytes) 0 in
  let dst := dst ++ [wrap 8 (k_ p)] in
  add_probes p init_size bits keys dst.

Fixpoint test_probes (k : nat) (bits h delta : Z) (array : list Z) : option bool :=
  match k with
  | O => Some true
  | S k =>
      _ ← passert (negb (bits =? 0));
      let bitpos := wrap 32 (h mod bits) in
      b ← rd array (bitpos / 8);
      if Z.land b (Z.shiftl 1 (bitpos mod 8)) =? 0 then Some false
      else test_probes k bits (wrap 32 (h + delta)) delta array
  end.

(** The number of probes is a [char] converted to [size_t]. *)
Definition Bloom_KeyMayMatch (key filter : list Z) : option bool :=
  let len := zlen filter in
  if len <? 2 then Some false
  else
    let bits := (len - 1) * 8 in
    c ← rd filter (len - 1);
    let k := wrap 64 (swrap 8 c) in
    if 30 <? k then Some true
    else
      h ← BloomHash key;
      test_probes (Z.to_nat k) bits h (bloom_delta h) filter.
End hash.

(** ** The contract of a policy ([include/leveldb/filter_policy.h])

    The header documents that [CreateFilter] appends a filter to [dst] and that
    [KeyMayMatch] answers true for the keys it was made of.  The class asks for
    three things more, which a policy has to have for the code around it to work
    and which the header leaves open: the keys on which the policy is defined
    ([filter_key]; their number is an [int]), a filter of up to [FP_per_key]
    octets a key, so that the offsets of a filter block stay within 32 bits, and
    a [KeyMayMatch] that returns on every filter.  The Bloom policy and the
    policy on internal keys below are proved to have them. *)
Class FilterPolicy := {
  FP_Name : list Z;
  FP_CreateFilter : list (list Z) -> list Z -> option (list Z);
  FP_KeyMayMatch : list Z -> list Z -> option bool;
  filter_key : list Z -> Prop;
  FP_per_key : Z;
  FP_per_key_nonneg : 0 <= FP_per_key;
  FP_Name_octets : Forall is_byte FP_Name;
  FP_CreateFilter_spec keys dst :
    Forall filter_key keys -> zlen keys < 2 ^ 31 ->
    exists f, FP_CreateFilter keys dst = Some (dst ++ f) /\
      Forall is_byte f /\ zlen f <= FP_per_key * zlen keys + 16 /\
      forall k, k ∈ keys -> FP_KeyMayMatch k f = Some true;
  FP_KeyMayMatch_total k f : filter_key k -> Forall is_byte f -> is_Some (FP_KeyMayMatch k f);
}.

(** ** Building a filter block *)
Definition kFilterBaseLg : Z := 11.
Definition kFilterBase : Z := Z.shiftl 1 kFilterBaseLg.

Section filter_block.
Context {P : FilterPolicy} (le : bool).

Record FilterBlockBuilder := mkFilterBuilder {
  fb_keys_ : list Z;
  fb_start_ : list Z;
  fb_result_ : list Z;
  filter_offsets_ : list Z;
}.

Definition new_FilterBlockBuilder : FilterBlockBuilder := mkFilterBuilder [] [] [] [].

(** The keys cut out of the flattened ones; [start] ends with their length. *)
Fixpoint tmp_keys (keys : list Z) (start : list Z) : option (list (list Z)) :=
  match start with
  | a :: (b :: _) as rest =>
      k ← rd_bytes keys a (b - a);
      ks ← tmp_keys keys rest;
      Some (k :: ks)
  | _ => Some []
  end.

Definition GenerateFilter (b : FilterBlockBuilder) : option FilterBlockBuilder :=
  let num_keys := zlen (fb_start_ b) in
  if num_keys =? 0 then
    Some (mkFilterBuilder (fb_keys_ b) (fb_start_ b) (fb_result_ b)
            (filter_offsets_ b ++ [wrap 32 (zlen (fb_result_ b))]))
  else
    tmp ← tmp_keys (fb_keys_ b) (fb_start_ b ++ [zlen (fb_keys_ b)]);
    result ← FP_CreateFilter tmp (fb_result_ b);
    Some (mkFilterBuilder [] [] result (filter_offsets_ b ++ [wrap 32 (zlen (fb_result_ b))])).

Fixpoint StartBlock_loop (fuel : nat) (filter_index : Z) (b : FilterBlockBuilder) : option FilterBlockBuilder :=
  match fuel with
  | O => None
  | S fuel =>
      if zlen (filter_offsets_ b) <? filter_index
      then b ← GenerateFilter b; StartBlock_loop fuel filter_index b
      else Some b
  end.

(** Every iteration appends an offset. *)
Definition StartBlock (block_offset : Z) (b : FilterBlockBuilder) : option FilterBlockBuilder :=
  let filter_index := block_offset / kFilterBase in
  _ ← passert (zlen (filter_offsets_ b) <=? filter_index);
  StartBlock_loop (S (Z.to_nat (filter_index - zlen (filter_offsets_ b)))) filter_index b.

Definition AddKey (key : list Z) (b : FilterBlockBuilder) : FilterBlockBuilder :=
  mkFilterBuilder (fb_keys_ b ++ key) (fb_start_ b ++ [zlen (fb_keys_ b)]) (fb_result_ b) (filter_offsets_ b).

Definition FilterBlock_Finish (b : FilterBlockBuilder) : option (list Z * FilterBlockBuilder) :=
  b ← (if bool_decide (fb_start_ b = []) then Some b else GenerateFilter b);
  let array_offset := wrap 32 (zlen (fb_result_ b)) in
  let result := fold_left (PutFixed32 le) (filter_offsets_ b) (fb_result_ b) in
  let result := PutFixed32 le result array_offset ++ [kFilterBaseLg] in
  Some (result, mkFilterBuilder (fb_keys_ b) (fb_start_ b) result (filter_offsets_ b)).

(** ** Reading a filter block *)
Record FilterBlockReader := mkFilterReader {
  fr_data_ : list Z;
  fr_offset_ : Z;
  fr_num_ : Z;
  fr_base_lg_ : Z;
}.

Definition new_FilterBlockReader (contents : list Z) : option FilterBlockReader :=
  let n := zlen contents in
  if n <? 5 then Some (mkFilterReader [] 0 0 0)
  else
    c ← rd contents (n - 1);
    let base_lg := wrap 64 (swrap 8 c) in
    last_word ← DecodeFixed32 le (drop (Z.to_nat (n - 5)) contents);
    if n - 5 <? last_word then Some (mkFilterReader [] 0 0 base_lg)
    else Some (mkFilterReader contents last_word ((n - 5 - last_word) / 4) base_lg).

(** A shift by 64 or more is undefined. *)
Definition Reader_KeyMayMatch (r : FilterBlockReader) (block_offset : Z) (key : list Z) : option bool :=
  _ ← passert (fr_base_lg_ r <? 64);
  let index := Z.shiftr block_offset (fr_base_lg_ r) in
  if index <? fr_num_ r then
    start ← DecodeFixed32 le (drop (Z.to_nat (fr_offset_ r + index * 4)) (fr_data_ r));
    limit ← DecodeFixed32 le (drop (Z.to_nat (fr_offset_ r + index * 4 + 4)) (fr_data_ r));
    if (start <=? limit) && (limit <=? fr_offset_ r) then
      filter ← rd_bytes (fr_data_ r) start (limit - start);
      FP_KeyMayMatch key filter
    else if start =? limit then Some false
    else Some true
  else Some true.

(** A table makes one filter block of its data blocks: their offsets and keys. *)
Fixpoint add_blocks (b : FilterBlockBuilder) (blocks : list (Z * list (list Z))) : option FilterBlockBuilder :=
  match blocks with
  | [] => Some b
  | (block_offset, keys) :: blocks =>
      b ← StartBlock block_offset b;
      add_blocks (fold_left (fun b k => AddKey k b) keys b) blocks
  end.
End filter_block.

(** ** The Bloom filter keeps the contract *)
Lemma Hash_tail_total data n h : n = zlen data -> n < 4 -> is_Some (Hash_tail data n h).
Proof.
  intros -> Hn. unfold Hash_tail. destruct data as [|b0 [|b1 [|b2 [|b3 data]]]]; simpl in Hn; try lia; by eexists.
Qed.

Lemma Hash_total le data seed : is_Some (Hash le data seed).
Proof.
  unfold Hash. generalize (wrap 32 (Z.lxor seed (wrap 64 (zlen data * hash_m)))).
  enough (forall fuel data h, (length data < fuel)%nat -> is_Some (Hash_loop le fuel data (zlen data) h)) as H.
  { intros h. apply H. lia. }
  clear. induction fuel as [|fuel IH]; intros data h Hf; [lia|]. cbn [Hash_loop].
  destruct (Z.leb_spec 4 (zlen data)) as [Hn|Hn]; [|by apply Hash_tail_total].
  destruct (DecodeFixed32_total le data Hn) as [w ->]. cbn [mbind option_bind].
  replace (zlen data - 4) with (zlen (drop 4 data)) by (rewrite length_drop; lia).
  apply IH. rewrite length_drop. lia.
Qed.

(** The octets of the array and the bits the probes of a key test. *)
Definition bit (arr : list Z) (pos : Z) : Prop :=
  exists b, arr !! Z.to_nat (pos / 8) = Some b /\ Z.testbit b (pos mod 8) = true.

Fixpoint probes_set (k : nat) (bits h delta : Z) (arr : list Z) : Prop :=
  match k with
  | O => True
  | S k => bit arr (wrap 32 (h mod bits)) /\ probes_set k bits (wrap 32 (h + delta)) delta arr
  end.

Lemma probes_mono k bits h delta arr arr' :
  (forall pos, bit arr pos -> bit arr' pos) -> probes_set k bits h delta arr -> probes_set k bits h delta arr'.
Proof. intros Hm. revert h. induction k as [|k IH]; intros h; [done|]. intros [H1 H2]. simpl. auto. Qed.

Lemma wrap_mod_bound h bits : 0 < bits -> 0 <= wrap 32 (h mod bits) < bits.
Proof.
  intros Hb. pose proof (Z.mod_pos_bound h bits Hb). unfold wrap.
  pose proof (Z.mod_pos_bound (h mod bits) (2 ^ 32) ltac:(done)).
  pose proof (Z.mod_le (h mod bits) (2 ^ 32) ltac:(lia) ltac:(done)). lia.
Qed.

Lemma land_bit b i : 0 <= i -> (Z.land b (Z.shiftl 1 i) =? 0) = negb (Z.testbit b i).
Proof.
  intros Hi. rewrite Z.shiftl_1_l. destruct (Z.testbit b i) eqn:E; simpl.
  - apply Z.eqb_neq. intros H. apply (f_equal (fun x => Z.testbit x i)) in H.
    rewrite Z.land_spec, E, Z.pow2_bits_true, Z.bits_0 in H by done. done.
  - apply Z.eqb_eq. apply Z.bits_inj'. intros j Hj. rewrite Z.land_spec, Z.bits_0.
    destruct (Z.eq_dec i j) as [<-|Hne]; [by rewrite E|]. by rewrite Z.pow2_bits_false, andb_false_r.
Qed.

Lemma probes_test k bits h delta arr post :
  0 < bits -> probes_set k bits h delta arr -> test_probes k bits h delta (arr ++ post) = Some true.
Proof.
  intros Hb. revert h. induction k as [|k IH]; intros h; [done|]. intros [(b & Ha & Ht) H2]. cbn [test_probes].
  rewrite (proj2 (Z.eqb_neq bits 0)) by lia. cbn [passert mbind option_bind negb].
  pose proof (wrap_mod_bound h bits Hb) as Hp. set (pos := wrap 32 (h mod bits)) in *.
  rewrite rd_lookup by (apply Z.div_pos; lia). rewrite lookup_app_l_Some with (x := b) by done.
  cbn [mbind option_bind]. rewrite land_bit, Ht by (apply Z.mod_pos_bound; lia). simpl. auto.
Qed.

Lemma byte_set_bit b i : is_byte b -> 0 <= i < 8 ->
  is_byte (wrap 8 (Z.lor b (Z.shiftl 1 i))) /\
  (forall j, 0 <= j < 8 -> Z.testbit (wrap 8 (Z.lor b (Z.shiftl 1 i))) j = Z.testbit b j || (i =? j)).
Proof.
  intros Hb Hi. split; [by apply Z.mod_pos_bound|]. intros j Hj. unfold wrap.
  rewrite Z.mod_pow2_bits_low, Z.lor_spec, Z.shiftl_1_l, Z.pow2_bits_eqb by lia. done.
Qed.

(** Setting one bit. *)
Lemma set_bit_spec pre arr post pos :
  Forall is_byte arr -> 0 <= pos < zlen arr * 8 ->
  exists b arr', rd (pre ++ arr ++ post) (zlen pre + pos / 8) = Some b /\
    wr (pre ++ arr ++ post) (zlen pre + pos / 8) (wrap 8 (Z.lor b (Z.shiftl 1 (pos mod 8)))) =
      Some (pre ++ arr' ++ post) /\
    length arr' = length arr /\ Forall is_byte arr' /\ bit arr' pos /\ (forall p, bit arr p -> bit arr' p).
Proof.
  intros Hb Hp. assert (0 <= pos / 8 < zlen arr) as Hq by (split; [apply Z.div_pos|apply Z.div_lt_upper_bound]; lia).
  assert (0 <= pos mod 8 < 8) as Hr by (apply Z.mod_pos_bound; lia).
  assert (exists a b c, arr = a ++ b :: c /\ zlen a = pos / 8) as (a & b & c & -> & Ha).
  { destruct (lookup_lt_is_Some_2 arr (Z.to_nat (pos / 8))) as [b E]; [lia|].
    eexists _, b, _. split; [by rewrite (take_drop_middle _ _ _ E)|]. rewrite length_take. lia. }
  assert (is_byte b) as Hbb by (apply Forall_app in Hb as [_ [? _]%Forall_cons]; done).
  destruct (byte_set_bit b (pos mod 8) Hbb Hr) as [H1 H2]. set (b' := wrap 8 _) in *.
  exists b, (a ++ b' :: c). rewrite <-!app_assoc. simpl.
  split; [rewrite app_assoc; apply rd_app; rewrite length_app; lia|].
  split; [rewrite !(app_assoc pre); apply wr_app; rewrite length_app; lia|].
  split; [by rewrite !length_app|]. split; [by apply Forall_app in Hb as [? [_ ?]%Forall_cons]; apply Forall_app; auto|].
  assert (Z.to_nat (pos / 8) = length a) as Hl by lia. split.
  - exists b'. rewrite Hl, list_lookup_middle by done. split; [done|]. rewrite H2, Z.eqb_refl by done. apply orb_true_r.
  - intros p (x & Hx & Ht). unfold bit. destruct (decide (Z.to_nat (p / 8) = length a)) as [E|Hne].
    + rewrite E in *. rewrite list_lookup_middle in Hx |- * by done. injection Hx as ->. exists b'. split; [done|].
      rewrite H2, Ht by (apply Z.mod_pos_bound; lia). done.
    + exists x. split; [|done]. rewrite <-Hx. destruct (decide (Z.to_nat (p / 8) < length a)%nat).
      * by rewrite !lookup_app_l by lia.
      * rewrite !lookup_app_r by lia. by rewrite !lookup_cons_ne_0 by lia.
Qed.

Lemma set_probes_spec k pre post bits delta : forall h arr,
  Forall is_byte arr -> bits = zlen arr * 8 -> 0 < bits ->
  exists arr', set_probes k (zlen pre) bits h delta (pre ++ arr ++ post) = Some (pre ++ arr' ++ post) /\
    length arr' = length arr /\ Forall is_byte arr' /\ probes_set k bits h delta arr' /\
    (forall p, bit arr p -> bit arr' p).
Proof.
  induction k as [|k IH]; intros h arr Hb Hbits Hpos; cbn [set_probes].
  { by exists arr. }
  rewrite (proj2 (Z.eqb_neq bits 0)) by lia. cbn [passert mbind option_bind negb].
  destruct (set_bit_spec pre arr post (wrap 32 (h mod bits)) Hb) as (b & arr1 & E1 & E2 & Hl & Hb1 & Hs & Hm).
  { rewrite <-Hbits. by apply wrap_mod_bound. }
  rewrite E1. cbn [mbind option_bind]. rewrite E2. cbn [mbind option_bind].
  destruct (IH (wrap 32 (h + delta)) arr1 Hb1) as (arr2 & -> & Hl2 & Hb2 & Hp2 & Hm2); [by rewrite Hl|done|].
  exists arr2. split_and!; [done|lia|done|split; auto|auto].
Qed.

Lemma add_probes_spec le p pre post bits keys : forall arr,
  Forall is_byte arr -> bits = zlen arr * 8 -> 0 < bits ->
  exists arr', add_probes le p (zlen pre) bits keys (pre ++ arr ++ post) = Some (pre ++ arr' ++ post) /\
    length arr' = length arr /\ Forall is_byte arr' /\ (forall q, bit arr q -> bit arr' q) /\
    (forall key h, key ∈ keys -> BloomHash le key = Some h ->
       probes_set (Z.to_nat (k_ p)) bits h (bloom_delta h) arr').
Proof.
  induction keys as [|key keys IH]; intros arr Hb Hbits Hpos; cbn [add_probes].
  { exists arr. split_and!; try done. by intros ? ? ?%elem_of_nil. }
  destruct (Hash_total le key 3164544308) as [h Eh]. fold (BloomHash le key) in Eh. rewrite Eh. cbn [mbind option_bind].
  destruct (set_probes_spec (Z.to_nat (k_ p)) pre post bits (bloom_delta h) h arr)
    as (arr1 & -> & Hl1 & Hb1 & Hp1 & Hm1); [done..|]. cbn [mbind option_bind].
  destruct (IH arr1 Hb1) as (arr2 & -> & Hl2 & Hb2 & Hm2 & Hk2); [by rewrite Hl1|done|].
  exists arr2. split_and!; [done|lia|done|auto|]. intros key' h' [-> | Hin]%elem_of_cons Eh'; [|eauto].
  rewrite Eh in Eh'. injection Eh' as <-. by eapply probes_mono.
Qed.

Lemma test_probes_total k bits h delta array :
  0 < bits -> bits <= zlen array * 8 -> is_Some (test_probes k bits h delta array).
Proof.
  intros Hb Hl. revert h. induction k as [|k IH]; intros h; [by eexists|]. cbn [test_probes].
  rewrite (proj2 (Z.eqb_neq bits 0)) by lia. cbn [passert mbind option_bind negb].
  pose proof (wrap_mod_bound h bits Hb) as Hp.
  destruct (rd_Some array (wrap 32 (h mod bits) / 8)) as [b ->].
  { split; [apply Z.div_pos|apply Z.div_lt_upper_bound]; lia. }
  cbn [mbind option_bind]. destruct (_ =? 0); [by eexists|apply IH].
Qed.

Lemma Bloom_KeyMayMatch_total le key f : is_Some (Bloom_KeyMayMatch le key f).
Proof.
  unfold Bloom_KeyMayMatch. destruct (Z.ltb_spec (zlen f) 2); [by eexists|].
  destruct (rd_Some f (zlen f - 1)) as [c ->]; [lia|]. cbn [mbind option_bind].
  destruct (30 <? _); [by eexists|]. unfold BloomHash.
  destruct (Hash_total le key 3164544308) as [h ->]. cbn [mbind option_bind]. apply test_probes_total; lia.
Qed.

Definition Bloom_ok (p : BloomFilterPolicy) : Prop := 0 <= bits_per_key_ p < 2 ^ 31 /\ 1 <= k_ p <= 30.

Lemma bloom_10_ok : Bloom_ok (mkBloom 10 6).
Proof. split; split; done. Qed.

Lemma new_Bloom_ok n : 0 <= n < 2 ^ 31 -> exists p, new_BloomFilterPolicy n = Some p /\ Bloom_ok p.
Proof.
  intros Hn. unfold new_BloomFilterPolicy. rewrite (proj2 (Z.ltb_ge n (-1))) by lia.
  eexists. split; [done|]. split; simpl; [by rewrite wrap_fits by (split; lia)|].
  destruct (Z.ltb_spec (Z.quot (n * 69) 100) 1), (Z.ltb_spec 30 1); try lia; case_match; lia.
Qed.

(** The appended filter answers true for every key it was made of. *)
Lemma Bloom_CreateFilter_spec le p keys dst : Bloom_ok p -> zlen keys < 2 ^ 31 ->
  exists f, Bloom_CreateFilter le p keys dst = Some (dst ++ f) /\
    Forall is_byte f /\ zlen f <= bits_per_key_ p * zlen keys + 16 /\
    forall k, k ∈ keys -> Bloom_KeyMayMatch le k f = Some true.
Proof.
  intros [Hbpk Hk] Hn. unfold Bloom_CreateFilter. cbv zeta.
  assert (0 <= zlen keys * bits_per_key_ p < 2 ^ 62) as Hm by nia.
  rewrite (wrap_fits 64 (_ * _)) by (split; lia).
  set (bits0 := if _ <? 64 then 64 else _).
  assert (64 <= bits0 < 2 ^ 62) as Hb0 by (unfold bits0; destruct (Z.ltb_spec (zlen keys * bits_per_key_ p) 64); lia).
  rewrite wrap_fits by (split; lia). set (bytes := (bits0 + 7) / 8).
  assert (8 <= bytes) as Hby by (apply Z.div_le_lower_bound; lia).
  destruct (add_probes_spec le p dst [wrap 8 (k_ p)] (bytes * 8) keys (replicate (Z.to_nat bytes) 0))
    as (arr & E & Hl & Hbb & _ & Hin).
  { by apply Forall_replicate. } { rewrite length_replicate. lia. } { lia. }
  rewrite app_assoc in E. rewrite E. rewrite length_replicate in Hl. exists (arr ++ [wrap 8 (k_ p)]). split; [done|].
  split. { apply Forall_app. split; [done|]. constructor; [by apply wrap_unsigned|done]. }
  split. { rewrite length_app. simpl length. assert (bytes <= (zlen keys * bits_per_key_ p + 71) / 8) as Hup.
    { apply Z.div_le_mono; [lia|]. unfold bits0. destruct (Z.ltb_spec (zlen keys * bits_per_key_ p) 64); lia. }
    zdiv_lia. }
  intros key Hkey. unfold Bloom_KeyMayMatch. rewrite length_app. simpl.
  rewrite (proj2 (Z.ltb_ge _ 2)) by lia. rewrite (rd_app arr [] (wrap 8 (k_ p))) by lia. cbn [mbind option_bind].
  rewrite (wrap_fits 8) by (split; lia). rewrite swrap_fits by (split; lia). rewrite wrap_fits by (split; lia).
  rewrite (proj2 (Z.ltb_ge 30 _)) by lia. destruct (Hash_total le key 3164544308) as [h Eh].
  fold (BloomHash le key) in Eh. rewrite Eh. cbn [mbind option_bind].
  replace ((Z.of_nat (length arr + 1) - 1) * 8) with (bytes * 8) by lia. apply probes_test; [lia|eauto].
Qed.

#[refine] Definition Bloom_FilterPolicy (le : bool) (p : BloomFilterPolicy) (Hp : Bloom_ok p) : FilterPolicy := {|
  FP_Name := bloom_name;
  FP_CreateFilter := Bloom_CreateFilter le p;
  FP_KeyMayMatch := Bloom_KeyMayMatch le;
  filter_key _ := True;
  FP_per_key := bits_per_key_ p;
|}.
Proof.
  - apply Hp.
  - apply (bool_decide_unpack (Forall is_byte bloom_name)). by vm_compute.
  - intros keys dst _. by apply Bloom_CreateFilter_spec.
  - intros k f _ _. apply Bloom_KeyMayMatch_total.
Defined.

(** ** The policy on internal keys *)
Section internal_policy.
Context (user_policy : FilterPolicy).

Definition InternalFilterPolicy_CreateFilter (keys : list (list Z)) (dst : list Z) : option (list Z) :=
  mkey ← mapM ExtractUserKey keys;
  FP_CreateFilter mkey dst.

Definition InternalFilterPolicy_KeyMayMatch (key f : list Z) : option bool :=
  u ← ExtractUserKey key;
  FP_KeyMayMatch u f.

#[refine] Definition InternalFilterPolicy : FilterPolicy := {|
  FP_Name := FP_Name;
  FP_CreateFilter := InternalFilterPolicy_CreateFilter;
  FP_KeyMayMatch := InternalFilterPolicy_KeyMayMatch;
  filter_key k := exists u, ExtractUserKey k = Some u /\ filter_key u;
  FP_per_key := FP_per_key;
|}.
Proof.
  - apply FP_per_key_nonneg.
  - apply FP_Name_octets.
  - intros keys dst Hk Hn. unfold InternalFilterPolicy_CreateFilter, InternalFilterPolicy_KeyMayMatch.
    assert (exists us, mapM ExtractUserKey keys = Some us /\ Forall filter_key us) as (us & E & Hu).
    { clear Hn. induction Hk as [|k ks (u & Eu & Hu) _ (us & E & IH)]; [by exists []|].
      exists (u :: us). cbn [mapM]. rewrite Eu. cbn [mbind option_bind]. rewrite E. split; [done|by constructor]. }
    rewrite E. cbn [mbind option_bind]. pose proof (length_mapM _ _ _ E) as Hl.
    destruct (FP_CreateFilter_spec us dst Hu) as (f & -> & Hfb & Hfl & Hf); [lia|]. exists f.
    split; [done|]. split; [done|]. split; [by rewrite <-Hl in Hfl|].
    intros k Hin. apply mapM_Some_1 in E. apply list_elem_of_lookup in Hin as [i Hi].
    destruct (Forall2_lookup_l _ _ _ _ _ E Hi) as (u & Hui & Eu). rewrite Eu. cbn [mbind option_bind].
    apply Hf. by eapply list_elem_of_lookup_2.
  - intros k f (u & Eu & Hu) Hb. unfold InternalFilterPolicy_KeyMayMatch. rewrite Eu. by apply FP_KeyMayMatch_total.
Defined.
End internal_policy.

(** ** The filter block *)
Section filter_correct.
Context {P : FilterPolicy}.

(** The finished filters with the keys they stand for, and the keys of the
    filter under way. *)
Record fb_rep (b : FilterBlockBuilder) (gs : list (list (list Z))) (cur : list (list Z)) (fs : list (list Z)) : Prop := {
  rep_result : fb_result_ b = concat fs;
  rep_offsets : filter_offsets_ b = (fun i => wrap 32 (off fs i)) <$> seq 0 (length fs);
  rep_keys : fb_keys_ b = concat cur;
  rep_start : fb_start_ b = off cur <$> seq 0 (length cur);
  rep_match : Forall2 (fun g f => forall k, k ∈ g -> FP_KeyMayMatch k f = Some true) gs fs;
  rep_ok : Forall filter_key cur /\ zlen cur < 2 ^ 31;
  rep_octets : Forall is_byte (concat fs);
  rep_size : zlen (concat fs) <= FP_per_key * zlen (concat gs) + 16 * zlen gs;
}.

Lemma tmp_keys_spec cur : tmp_keys (concat cur) (off cur <$> seq 0 (S (length cur))) = Some cur.
Proof.
  enough (forall i, (i <= length cur)%nat ->
    tmp_keys (concat cur) (off cur <$> seq i (S (length cur - i))) = Some (drop i cur)) as H.
  { specialize (H 0%nat ltac:(lia)). by rewrite Nat.sub_0_r in H. }
  intros i Hi. remember (length cur - i)%nat as n eqn:Hn. revert i Hi Hn. induction n as [|n IH]; intros i Hi Hn.
  - rewrite drop_ge by lia. done.
  - destruct (lookup_lt_is_Some_2 cur i) as [c Ec]; [lia|].
    specialize (IH (S i) ltac:(lia) ltac:(lia)). cbn [seq fmap list_fmap] in IH |- *. cbn [tmp_keys].
    replace (off cur (S i) - off cur i) with (zlen c) by (rewrite (off_S _ _ _ Ec); lia).
    rewrite (rd_off _ _ _ Ec). cbn [mbind option_bind]. cbn [tmp_keys] in IH. rewrite IH. cbn [mbind option_bind].
    by rewrite (drop_S _ _ _ Ec).
Qed.

Lemma seq_snoc_off fs f : (fun i => wrap 32 (off (fs ++ [f]) i)) <$> seq 0 (length (fs ++ [f])) =
  ((fun i => wrap 32 (off fs i)) <$> seq 0 (length fs)) ++ [wrap 32 (zlen (concat fs))].
Proof.
  rewrite length_app, Nat.add_1_r, seq_S, fmap_app. simpl. rewrite off_app, off_all by lia. f_equal.
  apply list_fmap_ext. intros ? i [-> ?]%lookup_seq. by rewrite off_app by lia.
Qed.

Lemma GenerateFilter_spec b gs cur fs :
  fb_rep b gs cur fs -> exists b' f, GenerateFilter b = Some b' /\ fb_rep b' (gs ++ [cur]) [] (fs ++ [f]).
Proof.
  intros [Hr Ho Hk Hs Hm [Hok Hn] Hb8 Hsz]. unfold GenerateFilter.
  assert (zlen (fb_start_ b) = zlen cur) as El by (by rewrite Hs, length_fmap, length_seq).
  destruct (Z.eqb_spec (zlen (fb_start_ b)) 0) as [E|E].
  - assert (cur = []) as -> by (apply nil_length_inv; lia).
    eexists _, []. split; [done|]. constructor; simpl; try done.
    + rewrite Hr, concat_app. simpl. by rewrite !app_nil_r.
    + by rewrite Ho, seq_snoc_off, Hr.
    + apply Forall2_app; [done|]. constructor; [by intros k ?%elem_of_nil|done].
    + rewrite concat_app. simpl. by rewrite app_nil_r.
    + rewrite !concat_app, !length_app. simpl. lia.
  - assert (fb_start_ b ++ [zlen (fb_keys_ b)] = off cur <$> seq 0 (S (length cur))) as ->.
    { rewrite Hs, Hk, seq_S, fmap_app. simpl. by rewrite off_all by lia. }
    rewrite Hk, tmp_keys_spec. cbn [mbind option_bind].
    destruct (FP_CreateFilter_spec cur (fb_result_ b) Hok Hn) as (f & -> & Hfb & Hfl & Hf). cbn [mbind option_bind].
    eexists _, f. split; [done|]. constructor; simpl; try done.
    + rewrite Hr, concat_app. simpl. by rewrite app_nil_r.
    + by rewrite Ho, seq_snoc_off, Hr.
    + apply Forall2_app; [done|]. by constructor.
    + rewrite concat_app. simpl. rewrite app_nil_r. by apply Forall_app.
    + rewrite !concat_app, !length_app. simpl. rewrite !app_nil_r. lia.
Qed.

Lemma rep_length b gs cur fs : fb_rep b gs cur fs -> length (filter_offsets_ b) = length gs.
Proof. intros H. rewrite (rep_offsets _ _ _ _ H), length_fmap, length_seq. symmetry. by eapply Forall2_length, rep_match. Qed.

(** The keys of filter [i]. *)
Definition keys_of (gs : list (list (list Z))) (cur : list (list Z)) (i : nat) : list (list Z) :=
  default [] ((gs ++ [cur]) !! i).

Definition nkeys (gs : list (list (list Z))) (cur : list (list Z)) : Z := zlen (concat gs) + zlen cur.

Lemma nkeys_close gs cur : nkeys (gs ++ [cur]) [] = nkeys gs cur.
Proof. unfold nkeys. rewrite concat_app, length_app. simpl. rewrite app_nil_r. lia. Qed.

Lemma StartBlock_loop_spec fuel : forall b gs cur fs idx,
  fb_rep b gs cur fs -> (length gs <= idx)%nat -> (idx - length gs < fuel)%nat ->
  exists b' gs' cur' fs', StartBlock_loop fuel (Z.of_nat idx) b = Some b' /\ fb_rep b' gs' cur' fs' /\
    length gs' = idx /\ nkeys gs' cur' = nkeys gs cur /\ (cur' = cur \/ cur' = []) /\
    (forall i k, k ∈ keys_of gs cur i -> k ∈ keys_of gs' cur' i).
Proof.
  induction fuel as [|fuel IH]; intros b gs cur fs idx Hb Hle Hf; [lia|]. cbn [StartBlock_loop].
  rewrite (rep_length _ _ _ _ Hb). destruct (Z.ltb_spec (zlen gs) (Z.of_nat idx)) as [Hlt|Hge].
  - destruct (GenerateFilter_spec _ _ _ _ Hb) as (b1 & f & -> & Hb1). cbn [mbind option_bind].
    destruct (IH b1 (gs ++ [cur]) [] (fs ++ [f]) idx Hb1) as (b2 & gs2 & cur2 & fs2 & -> & Hb2 & Hl & Hn & Hc & Hi).
    { rewrite length_app. simpl. lia. } { rewrite length_app. simpl. lia. }
    exists b2, gs2, cur2, fs2. split_and!; [done..| | |].
    + by rewrite Hn, nkeys_close.
    + destruct Hc; auto.
    + intros i k Hin. apply Hi. unfold keys_of in *. destruct ((gs ++ [cur]) !! i) as [g|] eqn:E; simpl in Hin.
      * by rewrite (lookup_app_l_Some _ _ _ _ E).
      * by apply elem_of_nil in Hin.
  - exists b, gs, cur, fs. split_and!; [done|done|lia|done|auto|auto].
Qed.

Lemma AddKey_spec b gs cur fs k : fb_rep b gs cur fs -> filter_key k -> zlen cur + 1 < 2 ^ 31 ->
  fb_rep (AddKey k b) gs (cur ++ [k]) fs.
Proof.
  intros [Hr Ho Hk Hs Hm [Hok Hn] Hb8 Hsz] Hkk Hl. constructor; simpl; try done.
  - rewrite Hk, concat_app. simpl. by rewrite app_nil_r.
  - rewrite Hs, Hk, length_app, Nat.add_1_r, seq_S, fmap_app. simpl. rewrite off_app, off_all by lia. f_equal.
    apply list_fmap_ext. intros ? i [-> ?]%lookup_seq. by rewrite off_app by lia.
  - split; [apply Forall_app; auto|]. rewrite length_app. simpl. lia.
Qed.

(** ** The octets of a filter block *)
Definition filter_bytes (le : bool) (fs : list (list Z)) : list Z :=
  concat fs ++ concat (EncodeFixed32 le <$> (off fs <$> seq 0 (S (length fs)))) ++ [kFilterBaseLg].

Lemma StartBlock_spec b gs cur fs block_offset :
  fb_rep b gs cur fs -> zlen gs <= block_offset / kFilterBase ->
  exists b' gs' cur' fs', StartBlock block_offset b = Some b' /\ fb_rep b' gs' cur' fs' /\
    zlen gs' = block_offset / kFilterBase /\ nkeys gs' cur' = nkeys gs cur /\ (cur' = cur \/ cur' = []) /\
    (forall i k, k ∈ keys_of gs cur i -> k ∈ keys_of gs' cur' i).
Proof.
  intros Hb Hl. unfold StartBlock. rewrite (rep_length _ _ _ _ Hb), (proj2 (Z.leb_le _ _)) by lia.
  cbn [passert mbind option_bind].
  destruct (StartBlock_loop_spec (S (Z.to_nat (block_offset / kFilterBase - zlen gs))) b gs cur fs
    (Z.to_nat (block_offset / kFilterBase)) Hb) as (b' & gs' & cur' & fs' & E & H); [lia..|].
  rewrite Z2Nat.id in E by lia. exists b', gs', cur', fs'. split; [done|].
  destruct H as (? & ? & ?). split; [done|]. split; [lia|done].
Qed.

Lemma EncodeFixed32_wrap le x : EncodeFixed32 le (wrap 32 x) = EncodeFixed32 le x.
Proof. rewrite !EncodeFixed32_eq. apply (le_enc_mod 4). Qed.

Lemma fold_wrap le l a : fold_left (PutFixed32 le) (wrap 32 <$> l) a = fold_left (PutFixed32 le) l a.
Proof.
  rewrite !fold_PutFixed32. do 2 f_equal. rewrite <-list_fmap_compose. apply list_fmap_ext. intros _ x _. apply EncodeFixed32_wrap.
Qed.

Lemma finish_bytes le fs :
  PutFixed32 le (fold_left (PutFixed32 le) ((fun i => wrap 32 (off fs i)) <$> seq 0 (length fs)) (concat fs))
    (wrap 32 (zlen (concat fs))) ++ [kFilterBaseLg] = filter_bytes le fs.
Proof.
  unfold filter_bytes. rewrite seq_S, fmap_app. change (fun i => wrap 32 (off fs i)) with (wrap 32 ∘ off fs).
  rewrite list_fmap_compose, fold_wrap, fold_PutFixed32. unfold PutFixed32.
  rewrite (fmap_app (EncodeFixed32 le)), concat_app. simpl. rewrite off_all, app_nil_r by done.
  by rewrite EncodeFixed32_wrap, <-!app_assoc.
Qed.

(** Finishing closes the filter under way, if there is one. *)
Lemma FilterBlock_Finish_spec le b gs cur fs : fb_rep b gs cur fs ->
  exists b' (gs' : list (list (list Z))) fs', FilterBlock_Finish le b = Some (filter_bytes le fs', b') /\
    (forall i k, k ∈ keys_of gs cur i -> exists g f, gs' !! i = Some g /\ fs' !! i = Some f /\ k ∈ g) /\
    Forall2 (fun g f => forall k, k ∈ g -> FP_KeyMayMatch k f = Some true) gs' fs' /\
    Forall is_byte (concat fs') /\ zlen fs' <= zlen gs + 1 /\
    zlen (concat fs') <= FP_per_key * nkeys gs cur + 16 * (zlen gs + 1).
Proof.
  intros Hb. unfold FilterBlock_Finish.
  assert (exists b1 gs1 cur1 fs1, (if bool_decide (fb_start_ b = []) then Some b else GenerateFilter b) = Some b1 /\
    fb_rep b1 gs1 cur1 fs1 /\ cur1 = [] /\ nkeys gs1 cur1 = nkeys gs cur /\ zlen gs1 <= zlen gs + 1 /\ (forall i k, k ∈ keys_of gs cur i -> k ∈ keys_of gs1 cur1 i))
    as (b1 & gs1 & cur1 & fs1 & E & Hb1 & -> & Hnk & Hlg & Hk).
  { destruct (bool_decide_reflect (fb_start_ b = [])) as [E|E].
    - exists b, gs, cur, fs. split_and!; [done|done| |done|lia|done].
      rewrite (rep_start _ _ _ _ Hb) in E. apply fmap_nil_inv in E. by destruct cur.
    - destruct (GenerateFilter_spec _ _ _ _ Hb) as (b1 & f & E1 & Hb1). exists b1, (gs ++ [cur]), [], (fs ++ [f]).
      split_and!; [done..|apply nkeys_close|rewrite length_app; simpl; lia|]. intros i k Hin. unfold keys_of in *.
      destruct ((gs ++ [cur]) !! i) eqn:Ei; simpl in Hin; [by rewrite (lookup_app_l_Some _ _ _ _ Ei)|by apply elem_of_nil in Hin]. }
  rewrite E. cbn [mbind option_bind]. eexists _, gs1, fs1. split_and!.
  - by rewrite (rep_result _ _ _ _ Hb1), (rep_offsets _ _ _ _ Hb1), finish_bytes.
  - intros i k Hin%Hk. unfold keys_of in Hin. destruct ((gs1 ++ [[]]) !! i) as [g|] eqn:Ei; simpl in Hin; [|by apply elem_of_nil in Hin].
    apply lookup_app_Some in Ei as [Ei|[_ Ei]].
    + destruct (Forall2_lookup_l _ _ _ _ _ (rep_match _ _ _ _ Hb1) Ei) as (f & Ef & _). eauto.
    + apply list_lookup_singleton_Some in Ei as [_ <-]. by apply elem_of_nil in Hin.
  - by eapply rep_match.
  - by eapply rep_octets.
  - by rewrite <-(Forall2_length _ _ _ (rep_match _ _ _ _ Hb1)).
  - pose proof (rep_size _ _ _ _ Hb1) as Hsz. unfold nkeys in *. simpl in Hnk. rewrite <-Hnk. lia.
Qed.

Lemma length_filter_bytes le fs : zlen (filter_bytes le fs) = zlen (concat fs) + 4 * (zlen fs + 1) + 1.
Proof.
  unfold filter_bytes. rewrite !length_app. pose proof (length_fixed_concat le (off fs <$> seq 0 (S (length fs)))) as H.
  rewrite length_fmap, length_seq in H. change (length [kFilterBaseLg]) with 1%nat. lia.
Qed.

Lemma filter_bytes_octets le fs : Forall is_byte (concat fs) -> Forall is_byte (filter_bytes le fs).
Proof.
  intros Hf. unfold filter_bytes. rewrite !Forall_app. split_and!; [done| |by repeat constructor].
  apply Forall_concat, Forall_fmap, Forall_forall. intros x _. simpl. rewrite EncodeFixed32_eq. apply le_enc_bytes.
Qed.

Lemma filter_word le lw fs i : (i <= length fs)%nat -> zlen (concat fs) < 2 ^ 32 ->
  DecodeFixed32 le (drop (Z.to_nat (zlen (concat fs) + Z.of_nat i * 4)) (filter_bytes lw fs)) = Some (off fs i).
Proof.
  intros Hi Hz. unfold filter_bytes. erewrite DecodeFixed32_array.
  2:{ rewrite list_lookup_fmap, lookup_seq_lt by lia. done. }
  rewrite wrap_fits; [done|]. pose proof (off_nonneg fs i). pose proof (off_le fs i (length fs) Hi) as Hoff.
  rewrite (off_all fs (length fs)) in Hoff by lia. split; simpl; lia.
Qed.

(** The reader gives the policy the filter that covers the offset. *)
Lemma new_FilterBlockReader_spec le lw fs : zlen (filter_bytes lw fs) < 2 ^ 32 ->
  new_FilterBlockReader le (filter_bytes lw fs) =
    Some (mkFilterReader (filter_bytes lw fs) (zlen (concat fs)) (zlen fs) kFilterBaseLg).
Proof.
  intros Hz. pose proof (length_filter_bytes lw fs) as Hl. unfold new_FilterBlockReader.
  rewrite (proj2 (Z.ltb_ge _ 5)) by lia.
  assert (rd (filter_bytes lw fs) (zlen (filter_bytes lw fs) - 1) = Some kFilterBaseLg) as ->.
  { unfold filter_bytes. rewrite app_assoc. apply rd_app. rewrite (length_app _ [_]). simpl. lia. }
  cbn [mbind option_bind].
  replace (zlen (filter_bytes lw fs) - 5) with (zlen (concat fs) + zlen fs * 4) by lia.
  rewrite filter_word by lia. cbn [mbind option_bind]. rewrite off_all by done.
  rewrite (proj2 (Z.ltb_ge _ _)) by lia. do 2 f_equal. rewrite Z.add_simpl_l. by rewrite Z.div_mul.
Qed.

Lemma Reader_KeyMayMatch_spec le lw fs block_offset key :
  zlen (filter_bytes lw fs) < 2 ^ 32 -> 0 <= block_offset ->
  Reader_KeyMayMatch le (mkFilterReader (filter_bytes lw fs) (zlen (concat fs)) (zlen fs) kFilterBaseLg) block_offset key =
    match fs !! Z.to_nat (block_offset / kFilterBase) with
    | Some f => FP_KeyMayMatch key f
    | None => Some true
    end.
Proof.
  intros Hz Ho. pose proof (length_filter_bytes lw fs) as Hl. unfold Reader_KeyMayMatch. cbn [fr_base_lg_ fr_num_ fr_offset_ fr_data_].
  change (kFilterBaseLg <? 64) with true. cbn [passert mbind option_bind].
  rewrite shiftr_div by done. change (2 ^ kFilterBaseLg) with kFilterBase.
  assert (0 <= block_offset / kFilterBase) as Hi by (apply Z.div_pos; [lia|done]).
  destruct (Z.ltb_spec (block_offset / kFilterBase) (zlen fs)) as [Hlt|Hge].
  2:{ by rewrite lookup_ge_None_2 by lia. }
  set (i := Z.to_nat (block_offset / kFilterBase)). replace (block_offset / kFilterBase) with (Z.of_nat i) by lia.
  destruct (lookup_lt_is_Some_2 fs i) as [f Ef]; [lia|].
  replace (zlen (concat fs) + Z.of_nat i * 4 + 4) with (zlen (concat fs) + Z.of_nat (S i) * 4) by lia.
  rewrite !filter_word by lia. cbn [mbind option_bind]. pose proof (off_S _ _ _ Ef) as HS.
  pose proof (off_le fs (S i) (length fs) ltac:(lia)) as Hle. rewrite (off_all fs (length fs)) in Hle by done.
  rewrite (proj2 (Z.leb_le (off fs i) _)), (proj2 (Z.leb_le _ (zlen (concat fs)))) by lia. simpl.
  replace (off fs (S i) - off fs i) with (zlen f) by lia. unfold filter_bytes at 1.
  rewrite (concat_split fs i f Ef), <-!app_assoc, rd_bytes_app by done. cbn [mbind option_bind]. by rewrite Ef.
Qed.

Lemma add_keys_spec ks : forall b gs cur fs, fb_rep b gs cur fs -> Forall filter_key ks ->
  zlen cur + zlen ks < 2 ^ 31 -> fb_rep (fold_left (fun b k => AddKey k b) ks b) gs (cur ++ ks) fs.
Proof.
  induction ks as [|k ks IH]; intros b gs cur fs Hb Hk Hl; cbn [fold_left]; [by rewrite app_nil_r|].
  apply Forall_cons in Hk as [Hk Hks]. cbn [length] in Hl. rewrite cons_middle, app_assoc.
  apply IH; [|done|rewrite length_app; cbn [length]; lia]. apply AddKey_spec; [done..|lia].
Qed.

Lemma keys_of_app gs cur ks i k : k ∈ keys_of gs cur i -> k ∈ keys_of gs (cur ++ ks) i.
Proof.
  unfold keys_of. destruct ((gs ++ [cur]) !! i) as [g|] eqn:E; simpl; [|by intros ?%elem_of_nil].
  intros Hin. apply lookup_app_Some in E as [E|[Hi E]].
  - by rewrite (lookup_app_l_Some _ _ _ _ E).
  - apply list_lookup_singleton_Some in E as [E <-]. rewrite lookup_app_r, E by done. simpl.
    apply elem_of_app. by left.
Qed.

Lemma keys_of_cur gs cur k : k ∈ cur -> k ∈ keys_of gs cur (length gs).
Proof. intros Hk. unfold keys_of. by rewrite list_lookup_middle. Qed.

Definition block_keys (blocks : list (Z * list (list Z))) : list (list Z) := concat (snd <$> blocks).

Lemma add_blocks_spec blocks : forall b gs cur fs lo, fb_rep b gs cur fs -> zlen gs = lo / kFilterBase ->
  StronglySorted Z.le (lo :: (fst <$> blocks)) -> Forall filter_key (block_keys blocks) ->
  zlen cur + zlen (block_keys blocks) < 2 ^ 31 ->
  exists b' gs' cur' fs', add_blocks b blocks = Some b' /\ fb_rep b' gs' cur' fs' /\
    (forall i k, k ∈ keys_of gs cur i -> k ∈ keys_of gs' cur' i) /\
    (forall o ks k, (o, ks) ∈ blocks -> k ∈ ks -> k ∈ keys_of gs' cur' (Z.to_nat (o / kFilterBase))).
Proof.
  induction blocks as [|[o ks] blocks IH]; intros b gs cur fs lo Hb Hlo Hs Hk Hl; cbn [add_blocks].
  { exists b, gs, cur, fs. split_and!; [done..|]. by intros ? ? ? ?%elem_of_nil. }
  unfold block_keys in *. rewrite fmap_cons in Hs. rewrite fmap_cons in Hk. rewrite fmap_cons in Hl. cbn [fst snd concat] in Hs, Hk, Hl.
  rewrite length_app in Hl. apply Forall_app in Hk as [Hk1 Hk2].
  apply StronglySorted_inv in Hs as [Hs [Hle _]%Forall_cons].
  destruct (StartBlock_spec b gs cur fs o Hb) as (b1 & gs1 & cur1 & fs1 & -> & Hb1 & Hg1 & _ & Hc & Hm1).
  { rewrite Hlo. by apply Z.div_le_mono. }
  cbn [mbind option_bind]. assert (zlen cur1 <= zlen cur) as Hcl by (destruct Hc as [-> | ->]; simpl; lia).
  pose proof (add_keys_spec ks b1 gs1 cur1 fs1 Hb1 Hk1 ltac:(lia)) as Hb2.
  destruct (IH _ gs1 (cur1 ++ ks) fs1 o Hb2 Hg1 Hs Hk2) as (b3 & gs3 & cur3 & fs3 & -> & Hb3 & Hm3 & Hin3).
  { rewrite length_app. lia. }
  exists b3, gs3, cur3, fs3. split_and!; [done..| |].
  - intros i k Hin. by apply Hm3, keys_of_app, Hm1.
  - intros o' ks' k [E|Hin]%elem_of_cons Hkk; [|by eapply Hin3]. injection E as -> ->.
    apply Hm3. rewrite <-Hg1, Nat2Z.id. apply keys_of_cur, elem_of_app. by right.
Qed.

Lemma new_FilterBlockBuilder_rep : fb_rep new_FilterBlockBuilder [] [] [].
Proof. constructor; done || (simpl; lia). Qed.

(** The reader looks at a key through the policy only. *)
Lemma Reader_KeyMayMatch_ext le r o k k' : (forall f, FP_KeyMayMatch k f = FP_KeyMayMatch k' f) ->
  Reader_KeyMayMatch le r o k = Reader_KeyMayMatch le r o k'.
Proof.
  intros E. unfold Reader_KeyMayMatch. destruct (passert _); [|done]. cbn [mbind option_bind]. case_match; [|done].
  destruct (DecodeFixed32 le _); [|done]. cbn [mbind option_bind]. destruct (DecodeFixed32 le _); [|done]. cbn [mbind option_bind].
  case_match; [|done]. destruct (rd_bytes _ _ _); [|done]. apply E.
Qed.

(** A filter block answers true for the keys of each of its blocks. *)
Lemma filter_block_reads lw le b gs cur fs : fb_rep b gs cur fs ->
  exists contents b', FilterBlock_Finish lw b = Some (contents, b') /\ Forall is_byte contents /\
    zlen contents <= FP_per_key * nkeys gs cur + 20 * (zlen gs + 1) + 5 /\
    (zlen contents < 2 ^ 32 -> exists r, new_FilterBlockReader le contents = Some r /\
      (forall o k, 0 <= o -> filter_key k -> is_Some (Reader_KeyMayMatch le r o k)) /\
      forall o k, 0 <= o -> k ∈ keys_of gs cur (Z.to_nat (o / kFilterBase)) -> Reader_KeyMayMatch le r o k = Some true).
Proof.
  intros Hb. destruct (FilterBlock_Finish_spec lw b gs cur fs Hb) as (b' & gs' & fs' & E & Hk & Hm & Hoct & Hn & Hz').
  eexists _, _. split; [done|]. split; [by apply filter_bytes_octets|].
  split; [rewrite length_filter_bytes; lia|]. intros Hz. eexists. split; [by apply new_FilterBlockReader_spec|]. split.
  { intros o k Ho Hfk. rewrite Reader_KeyMayMatch_spec by done. destruct (fs' !! _) as [f|] eqn:Ef; [|by eexists].
    apply FP_KeyMayMatch_total; [done|]. rewrite (concat_split fs' _ f Ef), !Forall_app in Hoct. by destruct Hoct as (_ & ? & _). }
  intros o k Ho Hin. rewrite Reader_KeyMayMatch_spec by done.
  destruct (Hk _ _ Hin) as (g & f & Eg & Ef & Hg). rewrite Ef.
  by apply (Forall2_lookup_lr _ _ _ _ _ _ Hm Eg Ef).
Qed.
End filter_correct.

(** ** Properties *)

(** C23 (filter_no_false_negatives) A filter block built for data blocks at
    nondecreasing offsets, with any policy that keeps the contract, never
    excludes a key of a block: the reader, on a host of either byte order,
    answers true for every key added for the block at that offset. *)
Theorem filter_no_false_negatives (P : FilterPolicy) lw le blocks :
  StronglySorted Z.le (0 :: (fst <$> blocks)) -> Forall filter_key (block_keys blocks) ->
  zlen (block_keys blocks) < 2 ^ 31 ->
  exists b contents b', add_blocks new_FilterBlockBuilder blocks = Some b /\
    FilterBlock_Finish lw b = Some (contents, b') /\
    (zlen contents < 2 ^ 32 -> exists r, new_FilterBlockReader le contents = Some r /\
      forall o ks k, (o, ks) ∈ blocks -> k ∈ ks -> Reader_KeyMayMatch le r o k = Some true).
Proof.
  intros Hs Hk Hl.
  destruct (add_blocks_spec blocks _ [] [] [] 0 new_FilterBlockBuilder_rep) as (b & gs & cur & fs & E & Hb & _ & Hin); [done..|].
  destruct (filter_block_reads lw le b gs cur fs Hb) as (contents & b' & EF & _ & _ & Hr).
  exists b, contents, b'. split_and!; [done..|]. intros Hz. destruct (Hr Hz) as (r & Er & _ & Hm). exists r. split; [done|].
  intros o ks k Hb' Hkk. apply Hm; [|by eapply Hin].
  apply StronglySorted_inv in Hs as [_ Hs]. rewrite Forall_fmap, Forall_forall in Hs. by apply (Hs (o, ks)).
Qed.

Lemma filter_no_false_negatives_witness :
  let P := Bloom_FilterPolicy true (mkBloom 10 6) bloom_10_ok in
  let blocks := [(0, [[97]; [98; 99]]); (5000, [[120; 121; 122; 1; 2]])] in
  exists b contents b', add_blocks new_FilterBlockBuilder blocks = Some b /\
    FilterBlock_Finish true b = Some (contents, b') /\
    (zlen contents < 2 ^ 32 -> exists r, new_FilterBlockReader false contents = Some r /\
      forall o ks k, (o, ks) ∈ blocks -> k ∈ ks -> Reader_KeyMayMatch false r o k = Some true).
Proof.
  intros P blocks. apply (filter_no_false_negatives P true false blocks).
  - repeat constructor; done.
  - repeat constructor.
  - by vm_compute.
Defined.

(** ** Arbitrary octets *)
Lemma DecodeFixed32_bytes le p : Forall is_byte p -> 4 <= zlen p ->
  exists v, DecodeFixed32 le p = Some v /\ 0 <= v.
Proof.
  intros Hb Hl. exists (le_dec (take 4 p)). rewrite <-(take_drop 4 p) at 1.
  rewrite DecodeFixed32_app; [|by apply Forall_take|rewrite length_take; lia]. split; [done|].
  by apply le_dec_bound, Forall_take.
Qed.

Lemma char_shift c : is_byte c -> wrap 64 (swrap 8 c) < 64 <-> c < 64.
Proof.
  unfold is_byte, swrap, wrap. intros Hc. rewrite (Z.mod_small c) by done.
  destruct (Z.ltb_spec c (2 ^ (8 - 1))) as [H|H]; [rewrite Z.mod_small by lia; done|].
  change (2 ^ 8) with 256 in *. rewrite <-(Z.mod_unique (c - 256) (2 ^ 64) (-1) (c - 256 + 2 ^ 64)); lia.
Qed.

(** C37 (filter_reader_safe) On arbitrary octets, a damaged filter block
    included, the reader is built and its lookups stay inside the block and
    return, for any policy that is total on octets, exactly when the shift it
    reads from the last octet is below 64: [KeyMayMatch] shifts by [base_lg_]
    without a test, which is undefined from 64 on. *)
Theorem filter_reader_safe (P : FilterPolicy) le contents :
  Forall is_byte contents ->
  exists r, new_FilterBlockReader le contents = Some r /\
    (forall o k, 0 <= o -> filter_key k -> is_Some (Reader_KeyMayMatch le r o k) <-> fr_base_lg_ r < 64) /\
    (forall a c, contents = a ++ [c] -> 4 <= zlen a -> fr_base_lg_ r < 64 <-> c < 64).
Proof.
  intros Hb. unfold new_FilterBlockReader. destruct (Z.ltb_spec (zlen contents) 5) as [Hn|Hn].
  { eexists. split; [done|]. split.
    - intros o k Ho _. unfold Reader_KeyMayMatch. simpl. rewrite Z.shiftr_0_r.
      destruct (Z.ltb_spec o 0); [lia|]. split; [done|by eexists].
    - intros a c -> Ha. rewrite length_app in Hn. simpl in Hn. lia. }
  destruct (rd_Some contents (zlen contents - 1)) as [c Ec]; [lia|]. rewrite Ec. cbn [mbind option_bind].
  destruct (DecodeFixed32_bytes le (drop (Z.to_nat (zlen contents - 5)) contents)) as (w & -> & Hw);
    [by apply Forall_drop|rewrite length_drop; lia|]. cbn [mbind option_bind].
  assert (forall a c', contents = a ++ [c'] -> wrap 64 (swrap 8 c) < 64 <-> c' < 64) as Hc.
  { intros a c' ->. rewrite (rd_app a [] c') in Ec by (rewrite length_app; simpl; lia). injection Ec as <-.
    apply char_shift. by apply Forall_app in Hb as [_ [? _]%Forall_cons]. }
  destruct (Z.ltb_spec (zlen contents - 5) w) as [Hlt|Hge]; eexists; (split; [done|]); (split; [|by eauto]).
  all: intros o k Ho Hk; unfold Reader_KeyMayMatch; cbn [fr_base_lg_ fr_num_ fr_offset_ fr_data_].
  all: destruct (Z.ltb_spec (wrap 64 (swrap 8 c)) 64) as [Hs|Hs]; cbn [passert mbind option_bind];
    [|split; [by intros [? ?]|lia]].
  all: assert (0 <= Z.shiftr o (wrap 64 (swrap 8 c))) as Hi by (by apply Z.shiftr_nonneg).
  - destruct (Z.ltb_spec (Z.shiftr o (wrap 64 (swrap 8 c))) 0); [lia|]. split; [done|by eexists].
  - split; [done|]. intros _. set (i := Z.shiftr o _) in *.
    destruct (Z.ltb_spec i ((zlen contents - 5 - w) / 4)) as [Hlt|]; [|by eexists].
    assert (4 * (i + 1) <= zlen contents - 5 - w) as Hi4 by zdiv_lia.
    destruct (DecodeFixed32_bytes le (drop (Z.to_nat (w + i * 4)) contents)) as (st & -> & Hst);
      [by apply Forall_drop|rewrite length_drop; lia|]. cbn [mbind option_bind].
    destruct (DecodeFixed32_bytes le (drop (Z.to_nat (w + i * 4 + 4)) contents)) as (li & -> & Hli);
      [by apply Forall_drop|rewrite length_drop; lia|]. cbn [mbind option_bind].
    destruct (Z.leb_spec st li), (Z.leb_spec li w); simpl; try (case_match; by eexists).
    unfold rd_bytes. rewrite bool_decide_true by lia. cbn [mbind option_bind].
    apply FP_KeyMayMatch_total; [done|]. by apply Forall_take, Forall_drop.
Qed.

Lemma filter_reader_safe_witness :
  let P := Bloom_FilterPolicy true (mkBloom 10 6) bloom_10_ok in
  exists r, new_FilterBlockReader true [0; 0; 0; 0; 64] = Some r /\
    (forall o k, 0 <= o -> filter_key k -> is_Some (Reader_KeyMayMatch true r o k) <-> fr_base_lg_ r < 64) /\
    (forall a c, [0; 0; 0; 0; 64] = a ++ [c] -> 4 <= zlen a -> fr_base_lg_ r < 64 <-> c < 64).
Proof.
  intros P. apply (filter_reader_safe P true [0; 0; 0; 0; 64]). repeat constructor; done.
Defined.
