(* ===== verification/Format.v ===== *)
(** The pieces of a table file: block handles, the footer and reading a block
    with its trailer, after [src/leveldb/table/format.h] and [table/format.cc].

    Snappy is behind [port/port.h]; its functions are arguments.  [None] is a
    failed assertion or an access outside of a buffer. *)
From S2P Require Import Prelude Coding LdbBase Crc32c Iterator.

(** ** Block handles *)
Definition kMaxEncodedLength : Z := 10 + 10.

Record BlockHandle := mkHandle { h_offset : Z; h_size : Z }.

Definition ones64 : Z := 2 ^ 64 - 1.
Definition new_BlockHandle : BlockHandle := mkHandle ones64 ones64.

Definition BlockHandle_EncodeTo (h : BlockHandle) (dst : list Z) : option (list Z) :=
  _ ← passert (negb (h_offset h =? ones64));
  _ ← passert (negb (h_size h =? ones64));
  Some (PutVarint64 (PutVarint64 dst (h_offset h)) (h_size h)).

(** The status, the handle and the input left. *)
Definition BlockHandle_DecodeFrom (h : BlockHandle) (input : list Z) : option (Code * BlockHandle * list Z) :=
  r ← GetVarint64 input;
  match r with
  | None => Some (kCorruption, h, input)
  | Some (offset, input) =>
      r ← GetVarint64 input;
      match r with
      | None => Some (kCorruption, mkHandle offset (h_size h), input)
      | Some (size, input) => Some (kOk, mkHandle offset size, input)
      end
  end.

(** ** The footer *)
Definition kEncodedLength : Z := 2 * kMaxEncodedLength + 8.
Definition kTableMagicNumber : Z := 0xdb4775248b80fb57.

Record Footer := mkFooter { metaindex_handle_ : BlockHandle; index_handle_ : BlockHandle }.

(** [std::string::resize] *)
Definition resize (s : list Z) (n : Z) : list Z :=
  take (Z.to_nat n) s ++ replicate (Z.to_nat n - length s) 0.

Definition Footer_EncodeTo (le : bool) (f : Footer) (dst : list Z) : option (list Z) :=
  let original_size := zlen dst in
  dst ← BlockHandle_EncodeTo (metaindex_handle_ f) dst;
  dst ← BlockHandle_EncodeTo (index_handle_ f) dst;
  let dst := resize dst (2 * kMaxEncodedLength) in
  let dst := PutFixed32 le dst (wrap 32 (Z.land kTableMagicNumber 0xffffffff)) in
  let dst := PutFixed32 le dst (wrap 32 (Z.shiftr kTableMagicNumber 32)) in
  _ ← passert (zlen dst =? original_size + kEncodedLength);
  Some dst.

(** The input left is cut to the octets after the footer only on success. *)
Definition Footer_DecodeFrom (le : bool) (f : Footer) (input : list Z) : option (Code * Footer * list Z) :=
  let magic_ptr := kEncodedLength - 8 in
  magic_lo ← DecodeFixed32 le (drop (Z.to_nat magic_ptr) input);
  magic_hi ← DecodeFixed32 le (drop (Z.to_nat (magic_ptr + 4)) input);
  let magic := Z.lor (Z.shiftl magic_hi 32) magic_lo in
  if negb (magic =? kTableMagicNumber) then Some (kCorruption, f, input)
  else
    '(s, h1, rest) ← BlockHandle_DecodeFrom (metaindex_handle_ f) input;
    let f := mkFooter h1 (index_handle_ f) in
    if negb (Status_ok s) then Some (s, f, rest)
    else
      '(s, h2, rest) ← BlockHandle_DecodeFrom (index_handle_ f) rest;
      let f := mkFooter h1 h2 in
      if negb (Status_ok s) then Some (s, f, rest)
      else Some (s, f, drop (Z.to_nat (magic_ptr + 8)) input).

(** ** Reading a block *)
Definition kBlockTrailerSize : Z := 5.
Definition kNoCompression : Z := 0.
Definition kSnappyCompression : Z := 1.

Record BlockContents := mkContents { bc_data : list Z; cachable : bool; heap_allocated : bool }.

Record ReadOptions := mkReadOptions { verify_checksums : bool; fill_cache : bool }.
Definition default_ReadOptions : ReadOptions := mkReadOptions false true.

(** [port::Snappy_*]: [None] is the result false. *)
Record Snappy := mkSnappy {
  Snappy_Compress : list Z -> option (list Z);
  Snappy_GetUncompressedLength : list Z -> option Z;
  Snappy_Uncompress : list Z -> option (list Z);
}.

Section read_block.
Context (le : bool) (ptr : list Z -> Z) (snappy : Snappy).
Context {F : Type} `{!RandomAccessFile F}.

Definition ReadBlock (file : F) (options : ReadOptions) (handle : BlockHandle) : option (Code * BlockContents) :=
  let result := mkContents [] false false in
  let n := h_size handle in
  let total := wrap 64 (n + kBlockTrailerSize) in
  let '(s, data, scratch) := Read_at (h_offset handle) total file in
  if negb (Status_ok s) then Some (s, result)
  else if negb (zlen data =? total) then Some (kCorruption, result)
  else
    mismatch ← (if verify_checksums options then
                  stored ← DecodeFixed32 le (drop (Z.to_nat (wrap 64 (n + 1))) data);
                  payload ← rd_bytes data 0 (wrap 64 (n + 1));
                  actual ← Value le (ptr payload) payload;
                  Some (negb (actual =? Unmask stored))
                else Some false);
    if mismatch : bool then Some (kCorruption, result)
    else
      type ← rd data n;
      if type =? kNoCompression then
        contents ← rd_bytes data 0 n;
        if negb scratch then Some (kOk, mkContents contents false false)
        else Some (kOk, mkContents contents true true)
      else if type =? kSnappyCompression then
        contents ← rd_bytes data 0 n;
        match Snappy_GetUncompressedLength snappy contents with
        | None => Some (kCorruption, result)
        | Some ulength =>
            match Snappy_Uncompress snappy contents with
            | None => Some (kCorruption, result)
            | Some u => u ← rd_bytes u 0 ulength; Some (kOk, mkContents u true true)
            end
        end
      else Some (kCorruption, result).
End read_block.

(** ** Round trips *)
Definition handle_ok (h : BlockHandle) : Prop := 0 <= h_offset h < ones64 /\ 0 <= h_size h < ones64.

Definition handle_bytes (h : BlockHandle) : list Z := EncodeVarint64 (h_offset h) ++ EncodeVarint64 (h_size h).

Lemma BlockHandle_EncodeTo_spec h dst : handle_ok h -> BlockHandle_EncodeTo h dst = Some (dst ++ handle_bytes h).
Proof.
  intros [H1 H2]. unfold BlockHandle_EncodeTo. rewrite !(proj2 (Z.eqb_neq _ ones64)) by lia.
  cbn [passert mbind option_bind negb]. unfold PutVarint64, handle_bytes. by rewrite app_assoc.
Qed.

Lemma handle_fits h : handle_ok h -> fits_unsigned 64 (h_offset h) /\ fits_unsigned 64 (h_size h).
Proof. unfold handle_ok, fits_unsigned, ones64. lia. Qed.

Lemma BlockHandle_DecodeFrom_spec h h0 rest : handle_ok h ->
  BlockHandle_DecodeFrom h0 (handle_bytes h ++ rest) = Some (kOk, h, rest).
Proof.
  intros [H1 H2]%handle_fits. unfold BlockHandle_DecodeFrom, handle_bytes. rewrite <-app_assoc.
  rewrite GetVarint64_encode by done. cbn [mbind option_bind]. rewrite GetVarint64_encode by done. by destruct h.
Qed.

Lemma length_varint fuel v : (length (varint fuel v) <= fuel)%nat.
Proof. revert v. induction fuel as [|fuel IH]; intros v; simpl; [lia|]. case_match; simpl; [lia|]. specialize (IH (v / 128)). lia. Qed.

Lemma length_handle_bytes h : handle_ok h -> zlen (handle_bytes h) <= kMaxEncodedLength.
Proof.
  intros [H1 H2]. unfold handle_bytes. rewrite length_app, !EncodeVarint64_eq by lia.
  pose proof (length_varint 10 (h_offset h)). pose proof (length_varint 10 (h_size h)). unfold kMaxEncodedLength. lia.
Qed.

Lemma handle_bytes_octets h : handle_ok h -> Forall is_byte (handle_bytes h).
Proof.
  intros [H1 H2]. unfold handle_bytes. rewrite !EncodeVarint64_eq by lia. apply Forall_app. split; apply varint_bytes; lia.
Qed.

Definition footer_bytes (f : Footer) : list Z :=
  let hs := handle_bytes (metaindex_handle_ f) ++ handle_bytes (index_handle_ f) in
  hs ++ replicate (40 - length hs) 0 ++ le_enc 8 kTableMagicNumber.

Definition footer_ok (f : Footer) : Prop := handle_ok (metaindex_handle_ f) /\ handle_ok (index_handle_ f).

Lemma length_handles f : footer_ok f ->
  (length (handle_bytes (metaindex_handle_ f) ++ handle_bytes (index_handle_ f)) <= 40)%nat.
Proof.
  intros [H1%length_handle_bytes H2%length_handle_bytes]. rewrite length_app. unfold kMaxEncodedLength in *. lia.
Qed.

Lemma length_footer_bytes f : footer_ok f -> zlen (footer_bytes f) = kEncodedLength.
Proof.
  intros Hf%length_handles. unfold footer_bytes. cbv zeta. rewrite (length_app (_ ++ _)), (length_app (replicate _ _)), length_replicate, length_le_enc.
  unfold kEncodedLength, kMaxEncodedLength. lia.
Qed.

Lemma magic_split : le_enc 8 kTableMagicNumber =
  le_enc 4 (wrap 32 (Z.land kTableMagicNumber 0xffffffff)) ++ le_enc 4 (wrap 32 (Z.shiftr kTableMagicNumber 32)).
Proof. by vm_compute. Qed.

Lemma Footer_EncodeTo_spec le f : footer_ok f -> Footer_EncodeTo le f [] = Some (footer_bytes f).
Proof.
  intros Hf. pose proof (length_handles f Hf) as Hl. unfold Footer_EncodeTo.
  rewrite BlockHandle_EncodeTo_spec by apply Hf. cbn [mbind option_bind app].
  rewrite BlockHandle_EncodeTo_spec by apply Hf. cbn [mbind option_bind].
  set (hs := _ ++ _) in *. unfold resize. change (Z.to_nat (2 * kMaxEncodedLength)) with 40%nat.
  rewrite take_ge by done. unfold PutFixed32. rewrite !EncodeFixed32_eq, <-app_assoc, <-magic_split.
  assert ((hs ++ replicate (40 - length hs) 0) ++ le_enc 8 kTableMagicNumber = footer_bytes f) as -> by (by rewrite <-app_assoc).
  rewrite (length_footer_bytes f Hf). by rewrite Z.eqb_refl.
Qed.

(** [resize] cuts what was in the string before: with anything there the
    assertion fails. *)
Lemma Footer_EncodeTo_nonempty le f dst : dst <> [] -> Footer_EncodeTo le f dst = None.
Proof.
  intros Hd. unfold Footer_EncodeTo. destruct (BlockHandle_EncodeTo (metaindex_handle_ f) dst) as [d1|]; [|done].
  cbn [mbind option_bind]. destruct (BlockHandle_EncodeTo (index_handle_ f) d1) as [d2|]; [|done]. cbn [mbind option_bind].
  unfold PutFixed32. rewrite !EncodeFixed32_eq, !length_app, !length_le_enc. unfold resize.
  rewrite length_app, length_take, length_replicate. change (Z.to_nat (2 * kMaxEncodedLength)) with 40%nat.
  destruct dst as [|x dst]; [done|]. cbn [length]. unfold kEncodedLength, kMaxEncodedLength.
  rewrite (proj2 (Z.eqb_neq _ _)) by lia. done.
Qed.

Lemma Footer_DecodeFrom_spec le f f0 rest : footer_ok f ->
  Footer_DecodeFrom le f0 (footer_bytes f ++ rest) = Some (kOk, f, rest).
Proof.
  intros Hf. pose proof (length_handles f Hf) as Hl. unfold Footer_DecodeFrom.
  change (kEncodedLength - 8) with 40.
  assert (drop 40 (footer_bytes f ++ rest) = le_enc 8 kTableMagicNumber ++ rest) as E.
  { unfold footer_bytes. cbv zeta. rewrite app_assoc, <-app_assoc. apply drop_app_length'.
    rewrite length_app, length_replicate. lia. }
  change (Z.to_nat 40) with 40%nat. change (Z.to_nat (40 + 4)) with (40 + 4)%nat. change (Z.to_nat (40 + 8)) with (40 + 8)%nat.
  rewrite <-!drop_drop, E, magic_split, <-!app_assoc.
  rewrite (drop_app_length' (le_enc 4 (wrap 32 (Z.land kTableMagicNumber 4294967295))) _ 4) by done.
  replace (drop 8 _) with rest by (by rewrite app_assoc, drop_app_length').
  rewrite !(DecodeFixed32_app le (le_enc 4 _)) by (apply le_enc_bytes || done). cbn [mbind option_bind].
  replace (negb _) with false by (by vm_compute).
  unfold footer_bytes. cbv zeta. rewrite <-!app_assoc.
  rewrite BlockHandle_DecodeFrom_spec by apply Hf. cbn [mbind option_bind]. change (Status_ok kOk) with true. cbn [negb].
  rewrite BlockHandle_DecodeFrom_spec by apply Hf. cbn [mbind option_bind]. change (Status_ok kOk) with true. cbn [negb].
  by destruct f.
Qed.

(** ** A block and its trailer in the file *)
Definition stored_block (le : bool) (contents : list Z) (type : Z) : list Z :=
  contents ++ [type] ++ EncodeFixed32 le (Mask (crc32c 0 (contents ++ [type]))).

Lemma length_stored le contents type : zlen (stored_block le contents type) = zlen contents + kBlockTrailerSize.
Proof. unfold stored_block, kBlockTrailerSize. rewrite EncodeFixed32_eq, !length_app, length_le_enc. simpl. lia. Qed.

Section read_spec.
Context (le : bool) (ptr : list Z -> Z) (snappy : Snappy).
Context {F : Type} `{!RandomAccessFile F}.
Hypothesis Hptr : addresses ptr.

(** What the block stands for. *)
Definition decompress (contents : list Z) (type : Z) : option (list Z) :=
  if type =? kNoCompression then Some contents
  else if type =? kSnappyCompression then
    n ← Snappy_GetUncompressedLength snappy contents;
    u ← Snappy_Uncompress snappy contents;
    rd_bytes u 0 n
  else None.

Lemma Mask_fits crc : fits_unsigned 32 (Mask crc).
Proof. by apply wrap_unsigned. Qed.

Lemma checksum_matches lw contents type : Forall is_byte contents -> is_byte type ->
  DecodeFixed32 le (EncodeFixed32 lw (Mask (crc32c 0 (contents ++ [type])))) = Some (Mask (crc32c 0 (contents ++ [type]))) /\
  Value le (ptr (contents ++ [type])) (contents ++ [type]) = Some (crc32c 0 (contents ++ [type])) /\
  Unmask (Mask (crc32c 0 (contents ++ [type]))) = crc32c 0 (contents ++ [type]).
Proof.
  intros Hc Ht. assert (Forall is_byte (contents ++ [type])) as Hct by (apply Forall_app; auto).
  split_and!.
  - rewrite <-(app_nil_r (EncodeFixed32 _ _)), DecodeFixed32_encode. by rewrite wrap_fits by apply Mask_fits.
  - by apply Value_crc.
  - apply Unmask_Mask, crc32c_fits; [done|]. unfold fits_unsigned. lia.
Qed.

Lemma stored_parts lw contents type (st := stored_block lw contents type) (n := zlen contents) :
  rd_bytes st 0 (n + 1) = Some (contents ++ [type]) /\
  drop (Z.to_nat (n + 1)) st = EncodeFixed32 lw (Mask (crc32c 0 (contents ++ [type]))) /\
  rd st n = Some type /\ rd_bytes st 0 n = Some contents.
Proof.
  subst st n. unfold stored_block. split_and!.
  - rewrite app_assoc. apply rd_bytes_0. rewrite length_app. simpl. lia.
  - rewrite app_assoc. apply drop_app_length'. rewrite length_app. simpl. lia.
  - by apply rd_app.
  - by apply rd_bytes_0.
Qed.

Lemma ReadBlock_spec file options lw bytes a contents type c h u :
  serves file bytes -> bytes = a ++ stored_block lw contents type ++ c ->
  h = mkHandle (zlen a) (zlen contents) -> zlen bytes < 2 ^ 64 ->
  Forall is_byte contents -> is_byte type -> decompress contents type = Some u ->
  exists cach heap, ReadBlock le ptr snappy file options h = Some (kOk, mkContents u cach heap).
Proof using Hptr.
  intros Hf -> -> Hz Hc Ht Hu. unfold ReadBlock. cbn [h_size h_offset].
  pose proof (length_stored lw contents type) as Hl. rewrite !length_app in Hz. unfold kBlockTrailerSize in *.
  rewrite (wrap_fits 64 (_ + 5)) by (split; lia). rewrite (wrap_fits 64 (_ + 1)) by (split; lia).
  destruct (Hf (zlen a) (zlen contents + 5)) as [scratch E]; [lia..|]. rewrite E.
  replace (take _ (drop _ _)) with (stored_block lw contents type)
    by (rewrite Nat2Z.id, drop_app_length, take_app_length'; [done|lia]).
  change (Status_ok kOk) with true. rewrite Hl, Z.eqb_refl. cbn [negb].
  destruct (stored_parts lw contents type) as (P1 & P2 & P3 & P4). rewrite P1, P2, P3.
  destruct (checksum_matches lw contents type Hc Ht) as (E1 & E2 & E3).
  replace (if verify_checksums options then _ else _) with (Some false).
  2:{ destruct (verify_checksums options); [|done]. rewrite E1. cbn [mbind option_bind]. rewrite E2. cbn [mbind option_bind].
      by rewrite E3, Z.eqb_refl. }
  cbn [mbind option_bind]. rewrite P4. unfold decompress in Hu. cbn [mbind option_bind].
  destruct (type =? kNoCompression); [injection Hu as ->; destruct scratch; by eexists _, _|].
  destruct (type =? kSnappyCompression); [|done].
  destruct (Snappy_GetUncompressedLength snappy contents) as [n|]; [|done]. cbn [mbind option_bind] in Hu.
  destruct (Snappy_Uncompress snappy contents) as [v|]; [|done]. cbn [mbind option_bind] in Hu. rewrite Hu. by eexists _, _.
Qed.

(** What [Snappy_Uncompress] writes is as long as announced. *)
Definition snappy_sized : Prop := forall c u,
  Snappy_Uncompress snappy c = Some u -> Snappy_GetUncompressedLength snappy c = Some (zlen u).

Definition octet_file (file : F) : Prop := forall off n s d b, Read_at off n file = (s, d, b) -> Forall is_byte d.

Lemma ReadBlock_total file options h : octet_file file -> snappy_sized ->
  0 <= h_size h < 2 ^ 64 - kBlockTrailerSize -> is_Some (ReadBlock le ptr snappy file options h).
Proof using Hptr.
  intros Ho Hs Hh. unfold ReadBlock. unfold kBlockTrailerSize in *.
  rewrite (wrap_fits 64 (_ + 5)) by (split; lia). rewrite (wrap_fits 64 (_ + 1)) by (split; lia).
  destruct (Read_at _ _ _) as [[s d] b] eqn:E. pose proof (Ho _ _ _ _ _ E) as Hd.
  destruct (negb (Status_ok s)); [by eexists|]. destruct (Z.eqb_spec (zlen d) (h_size h + 5)) as [Hl|]; [|by eexists].
  cbn [negb]. assert (forall n, 0 <= n <= zlen d -> rd_bytes d 0 n = Some (take (Z.to_nat n) d)) as Hr.
  { intros n Hn. unfold rd_bytes. by rewrite bool_decide_true by lia. }
  rewrite !Hr by lia. cbn [mbind option_bind]. rewrite Value_crc by (done || by apply Forall_take).
  destruct (DecodeFixed32_total le (drop (Z.to_nat (h_size h + 1)) d)) as [v ->]; [rewrite length_drop; lia|].
  destruct (verify_checksums options); cbn [mbind option_bind]; [destruct (negb _); [by eexists|]|].
  all: destruct (rd_Some d (h_size h)) as [ty ->]; [lia|]; cbn [mbind option_bind].
  all: destruct (ty =? kNoCompression); [destruct b; by eexists|]; destruct (ty =? kSnappyCompression); [|by eexists].
  all: destruct (Snappy_GetUncompressedLength snappy _) as [n|] eqn:En; [|by eexists].
  all: destruct (Snappy_Uncompress snappy _) as [u|] eqn:Eu; [|by eexists].
  all: rewrite (Hs _ _ Eu) in En; injection En as <-; unfold rd_bytes; rewrite bool_decide_true by lia; by eexists.
Qed.
End read_spec.

(** ** Properties *)

(** C38 (read_block_bounds) [ReadBlock] on any handle and any file, reads that
    fail or return arbitrary octets included, stays inside its buffers and
    returns, for sizes below 2^64 - 5.  From there on the sum of the size and the
    trailer wraps: a handle of a corrupt index then makes it allocate and read
    fewer than five octets, and, when checksums are not verified, take the type
    of the block from outside of them. *)
Theorem read_block_bounds le ptr snappy {F} `{!RandomAccessFile F} (file : F) options h :
  addresses ptr -> snappy_sized snappy -> octet_file file -> 0 <= h_size h < 2 ^ 64 -> 0 <= h_offset h ->
  (h_size h < 2 ^ 64 - 5 -> is_Some (ReadBlock le ptr snappy file options h)) /\
  (2 ^ 64 - 5 <= h_size h -> verify_checksums options = false ->
     forall bytes, serves file bytes -> h_offset h + (h_size h + 5 - 2 ^ 64) <= zlen bytes ->
     ReadBlock le ptr snappy file options h = None).
Proof.
  intros Hp Hs Ho Hh Hoff. split; [intros Hlt; apply ReadBlock_total; [done..|unfold kBlockTrailerSize; lia]|].
  intros Hge Hv bytes Hf Hl. unfold ReadBlock. rewrite Hv.
  assert (wrap 64 (h_size h + kBlockTrailerSize) = h_size h + 5 - 2 ^ 64) as ->.
  { unfold wrap, kBlockTrailerSize. symmetry. apply (Z.mod_unique _ _ 1); lia. }
  destruct (Hf (h_offset h) (h_size h + 5 - 2 ^ 64)) as [b ->]; [lia..|]. change (Status_ok kOk) with true.
  set (d := take _ _). assert (zlen d = h_size h + 5 - 2 ^ 64) as Hd by (subst d; rewrite length_take, length_drop; lia).
  rewrite Hd, Z.eqb_refl. cbn [negb mbind option_bind]. rewrite rd_lookup by lia. by rewrite lookup_ge_None_2 by lia.
Qed.

Lemma read_block_bounds_witness :
  ReadBlock true (fun _ => 0) (mkSnappy (fun _ => None) (fun _ => None) (fun _ => None)) [0; 1; 2]
    default_ReadOptions (mkHandle 1 (2 ^ 64 - 4)) = None.
Proof.
  refine (proj2 (read_block_bounds true (fun _ => 0) (mkSnappy (fun _ => None) (fun _ => None) (fun _ => None)) [0; 1; 2]
    default_ReadOptions (mkHandle 1 (2 ^ 64 - 4)) _ _ _ _ _) _ _ [0; 1; 2] _ _).
  - intros s. lia.
  - intros c u [=].
  - intros off n s d b [= <- <- <-]. apply Forall_take, Forall_drop. repeat constructor; done.
  - vm_compute. done.
  - done.
  - vm_compute. done.
  - done.
  - intros off n _ _. by eexists.
  - vm_compute. done.
Defined.

(** C24 (block_damage_detected) With checksums verified, a block whose contents
    or type were changed within four consecutive octets is reported as
    corrupt. *)
Theorem block_damage_detected le lw ptr snappy {F} `{!RandomAccessFile F} (file : F) options contents type a p w w' s c :
  addresses ptr -> verify_checksums options = true -> Forall is_byte (contents ++ [type]) -> Forall is_byte w' ->
  contents ++ [type] = p ++ w ++ s -> length w = length w' -> (length w <= 4)%nat -> w <> w' ->
  zlen a + zlen contents + 5 + zlen c < 2 ^ 64 ->
  serves file (a ++ (p ++ w' ++ s ++ EncodeFixed32 lw (Mask (crc32c 0 (contents ++ [type])))) ++ c) ->
  ReadBlock le ptr snappy file options (mkHandle (zlen a) (zlen contents)) = Some (kCorruption, mkContents [] false false).
Proof.
  intros Hp Hv Hb Hw' E Hlen H4 Hne Hz Hf. unfold ReadBlock. cbn [h_size h_offset]. unfold kBlockTrailerSize.
  rewrite (wrap_fits 64 (_ + 5)) by (split; lia). rewrite (wrap_fits 64 (_ + 1)) by (split; lia).
  assert (length p + length w' + length s = length contents + 1)%nat as Hl.
  { apply (f_equal length) in E. rewrite !length_app in E. simpl in E. lia. }
  destruct (Hf (zlen a) (zlen contents + 5)) as [b Er]; [lia..|]. rewrite Er.
  set (bad := p ++ w' ++ s). set (crc := EncodeFixed32 lw _) in *.
  assert (zlen crc = 4) as Hc by (subst crc; by rewrite EncodeFixed32_eq, length_le_enc).
  assert (zlen bad = zlen contents + 1) as Hbad by (subst bad; rewrite !length_app; lia).
  replace (take _ (drop _ _)) with (bad ++ crc)
    by (rewrite Nat2Z.id, drop_app_length; replace (p ++ w' ++ s ++ crc) with (bad ++ crc) by (by subst bad; rewrite <-!app_assoc);
        rewrite take_app_length'; [done|rewrite length_app; lia]).
  change (Status_ok kOk) with true. rewrite length_app, (proj2 (Z.eqb_eq _ (zlen contents + 5))) by lia. cbn [negb]. rewrite Hv.
  rewrite (drop_app_length' bad) by lia. rewrite (rd_bytes_0 bad _ (zlen contents + 1)) by lia.
  subst crc. rewrite <-(app_nil_r (EncodeFixed32 _ _)), DecodeFixed32_encode, wrap_fits by apply Mask_fits. cbn [mbind option_bind].
  assert (Forall is_byte bad) as Hbb by (subst bad; rewrite E, !Forall_app in Hb; rewrite !Forall_app; naive_solver).
  rewrite Value_crc by done. cbn [mbind option_bind].
  rewrite Unmask_Mask by (apply crc32c_fits; [done|unfold fits_unsigned; lia]).
  rewrite (proj2 (Z.eqb_neq _ _)); [done|]. intros Ec. rewrite E in Ec, Hb. symmetry in Ec.
  apply crc32c_burst in Ec; [done..|unfold fits_unsigned; lia|done|done].
Qed.

Lemma block_damage_detected_witness :
  ReadBlock false (fun _ => 0) (mkSnappy (fun _ => None) (fun _ => None) (fun _ => None))
    ([9; 9] ++ ([1] ++ [7; 8] ++ [0] ++ EncodeFixed32 true (Mask (crc32c 0 ([1; 2; 3] ++ [0])))) ++ [])
    (mkReadOptions true true) (mkHandle 2 3) = Some (kCorruption, mkContents [] false false).
Proof.
  apply (block_damage_detected false true (fun _ => 0) (mkSnappy (fun _ => None) (fun _ => None) (fun _ => None))
    ([9; 9] ++ ([1] ++ [7; 8] ++ [0] ++ EncodeFixed32 true (Mask (crc32c 0 ([1; 2; 3] ++ [0])))) ++ [])
    (mkReadOptions true true) [1; 2; 3] 0 [9; 9] [1] [2; 3] [7; 8] [0] []).
  - intros s. lia.
  - done.
  - repeat constructor; done.
  - repeat constructor; done.
  - done.
  - done.
  - simpl. lia.
  - done.
  - simpl. lia.
  - intros off n _ _. by eexists.
Defined.
