(* ===== verification/TwoLevel.v ===== *)
(** Two-level iterators: [src/leveldb/table/two_level_iterator.cc] with the
    wrapper of [table/iterator_wrapper.h].

    An index iterator yields the handles of blocks, a block function makes an
    iterator of a handle.  The theorem is stated for any index iterator and any
    block function that keep the contract of a cursor: the two-level iterator is
    a cursor over the concatenation of the blocks.  The block function may
    change the state [K] it shares with its other users, a cache; what it
    registers to be given back when its iterator is destroyed, a handle [H] of
    the cache, is given back when the two-level iterator moves on to another
    block or is destroyed itself. *)
From S2P Require Import Prelude Coding Dbformat LdbBase Iterator.

(** ** The wrapper *)
Record IteratorWrapper (I : Type) := mkWrapper { w_iter : option I; w_valid : bool; w_key : list Z }.
#[global] Arguments mkWrapper {I}.
#[global] Arguments w_iter {I}.
#[global] Arguments w_valid {I}.
#[global] Arguments w_key {I}.

Section wrapper.
Context {I : Type} `{!Iterator I}.
Implicit Types w : IteratorWrapper I.

Definition Update w : option (IteratorWrapper I) :=
  it ← w_iter w;
  if it_Valid it then k ← it_key it; Some (mkWrapper (Some it) true k)
  else Some (mkWrapper (Some it) false (w_key w)).

Definition Set_ (iter : option I) w : option (IteratorWrapper I) :=
  match iter with
  | None => Some (mkWrapper None false (w_key w))
  | Some it => Update (mkWrapper (Some it) (w_valid w) (w_key w))
  end.

Definition new_IteratorWrapper (iter : option I) : option (IteratorWrapper I) := Set_ iter (mkWrapper None false []).

(** [assert(iter_)], the call and [Update()]. *)
Definition w_call (f : I -> option I) w : option (IteratorWrapper I) :=
  it ← w_iter w;
  it ← f it;
  Update (mkWrapper (Some it) (w_valid w) (w_key w)).

#[export] Instance Wrapper_Iterator : Iterator (IteratorWrapper I) := {
  it_Valid := w_valid;
  it_SeekToFirst := w_call it_SeekToFirst;
  it_SeekToLast := w_call it_SeekToLast;
  it_Seek w t := w_call (fun it => it_Seek it t) w;
  it_Next := w_call it_Next;
  it_Prev := w_call it_Prev;
  it_key w := _ ← passert (w_valid w); Some (w_key w);
  it_value w := _ ← passert (w_valid w); it ← w_iter w; it_value it;
  it_status w := match w_iter w with Some it => it_status it | None => kOk end;
}.
End wrapper.

(** ** The two-level iterator *)
Record TwoLevelIterator (I1 I2 H K : Type) := mkTwoLevel {
  tl_status_ : Code;
  index_iter_ : IteratorWrapper I1;
  data_iter_ : IteratorWrapper I2;
  (** The cleanup that is registered at the iterator in [data_iter_]. *)
  data_cleanup_ : option H;
  data_block_handle_ : list Z;
  tl_arg_ : K;
}.
#[global] Arguments mkTwoLevel {I1 I2 H K}.
#[global] Arguments tl_status_ {I1 I2 H K}.
#[global] Arguments index_iter_ {I1 I2 H K}.
#[global] Arguments data_iter_ {I1 I2 H K}.
#[global] Arguments data_cleanup_ {I1 I2 H K}.
#[global] Arguments data_block_handle_ {I1 I2 H K}.
#[global] Arguments tl_arg_ {I1 I2 H K}.

Section two_level.
Context {I1 I2 H K : Type} `{!Iterator I1} `{!Iterator I2}.
Context (block_function : K -> list Z -> option (I2 * H * K)) (cleanup : H -> K -> option K).
(** A bound on the number of entries of the index. *)
Context (fuel : nat).
Implicit Types tl : TwoLevelIterator I1 I2 H K.

Definition NewTwoLevelIterator (index_iter : I1) (arg : K) : option (TwoLevelIterator I1 I2 H K) :=
  w1 ← new_IteratorWrapper (Some index_iter);
  w2 ← new_IteratorWrapper None;
  Some (mkTwoLevel kOk w1 w2 None [] arg).

Definition set_index (w : IteratorWrapper I1) tl :=
  mkTwoLevel (tl_status_ tl) w (data_iter_ tl) (data_cleanup_ tl) (data_block_handle_ tl) (tl_arg_ tl).
Definition set_data (w : IteratorWrapper I2) tl :=
  mkTwoLevel (tl_status_ tl) (index_iter_ tl) w (data_cleanup_ tl) (data_block_handle_ tl) (tl_arg_ tl).

Definition SaveError (s : Code) tl :=
  if Status_ok (tl_status_ tl) && negb (Status_ok s)
  then mkTwoLevel s (index_iter_ tl) (data_iter_ tl) (data_cleanup_ tl) (data_block_handle_ tl) (tl_arg_ tl) else tl.

(** [delete iter_] of the data iterator. *)
Definition delete_data tl : option K :=
  match data_cleanup_ tl with Some h => cleanup h (tl_arg_ tl) | None => Some (tl_arg_ tl) end.

(** [data_iter_.Set] deletes the iterator it replaces. *)
Definition SetDataIterator (data_iter : option (I2 * H)) tl : option (TwoLevelIterator I1 I2 H K) :=
  let tl := match w_iter (data_iter_ tl) with Some _ => SaveError (it_status (data_iter_ tl)) tl | None => tl end in
  arg ← delete_data tl;
  w ← Set_ (fst <$> data_iter) (data_iter_ tl);
  Some (mkTwoLevel (tl_status_ tl) (index_iter_ tl) w (snd <$> data_iter) (data_block_handle_ tl) arg).

(** The destructor, which destroys the two wrappers. *)
Definition delete_TwoLevelIterator tl : option K := delete_data tl.

Definition is_NULL {I} (w : IteratorWrapper I) : bool := match w_iter w with None => true | Some _ => false end.

Definition InitDataBlock tl : option (TwoLevelIterator I1 I2 H K) :=
  if negb (it_Valid (index_iter_ tl)) then SetDataIterator None tl
  else
    handle ← it_value (index_iter_ tl);
    if negb (is_NULL (data_iter_ tl)) && (Slice_compare handle (data_block_handle_ tl) =? 0) then Some tl
    else
      '(iter, h, arg) ← block_function (tl_arg_ tl) handle;
      SetDataIterator (Some (iter, h)) (mkTwoLevel (tl_status_ tl) (index_iter_ tl) (data_iter_ tl) (data_cleanup_ tl) handle arg).

(** [if (data_iter_.iter() != NULL) data_iter_.f()] *)
Definition on_data (f : IteratorWrapper I2 -> option (IteratorWrapper I2)) tl : option (TwoLevelIterator I1 I2 H K) :=
  if is_NULL (data_iter_ tl) then Some tl else w ← f (data_iter_ tl); Some (set_data w tl).

Fixpoint SkipEmptyDataBlocksForward (fuel : nat) tl : option (TwoLevelIterator I1 I2 H K) :=
  match fuel with
  | O => None
  | S fuel =>
      if is_NULL (data_iter_ tl) || negb (it_Valid (data_iter_ tl)) then
        if negb (it_Valid (index_iter_ tl)) then SetDataIterator None tl
        else
          w ← it_Next (index_iter_ tl);
          tl ← InitDataBlock (set_index w tl);
          tl ← on_data it_SeekToFirst tl;
          SkipEmptyDataBlocksForward fuel tl
      else Some tl
  end.

Fixpoint SkipEmptyDataBlocksBackward (fuel : nat) tl : option (TwoLevelIterator I1 I2 H K) :=
  match fuel with
  | O => None
  | S fuel =>
      if is_NULL (data_iter_ tl) || negb (it_Valid (data_iter_ tl)) then
        if negb (it_Valid (index_iter_ tl)) then SetDataIterator None tl
        else
          w ← it_Prev (index_iter_ tl);
          tl ← InitDataBlock (set_index w tl);
          tl ← on_data it_SeekToLast tl;
          SkipEmptyDataBlocksBackward fuel tl
      else Some tl
  end.

Definition tl_Seek tl (target : list Z) : option (TwoLevelIterator I1 I2 H K) :=
  w ← it_Seek (index_iter_ tl) target;
  tl ← InitDataBlock (set_index w tl);
  tl ← on_data (fun w => it_Seek w target) tl;
  SkipEmptyDataBlocksForward fuel tl.

Definition tl_SeekToFirst tl : option (TwoLevelIterator I1 I2 H K) :=
  w ← it_SeekToFirst (index_iter_ tl);
  tl ← InitDataBlock (set_index w tl);
  tl ← on_data it_SeekToFirst tl;
  SkipEmptyDataBlocksForward fuel tl.

Definition tl_SeekToLast tl : option (TwoLevelIterator I1 I2 H K) :=
  w ← it_SeekToLast (index_iter_ tl);
  tl ← InitDataBlock (set_index w tl);
  tl ← on_data it_SeekToLast tl;
  SkipEmptyDataBlocksBackward fuel tl.

Definition tl_Next tl : option (TwoLevelIterator I1 I2 H K) :=
  _ ← passert (it_Valid (data_iter_ tl));
  w ← it_Next (data_iter_ tl);
  SkipEmptyDataBlocksForward fuel (set_data w tl).

Definition tl_Prev tl : option (TwoLevelIterator I1 I2 H K) :=
  _ ← passert (it_Valid (data_iter_ tl));
  w ← it_Prev (data_iter_ tl);
  SkipEmptyDataBlocksBackward fuel (set_data w tl).

Definition tl_status tl : Code :=
  if negb (Status_ok (it_status (index_iter_ tl))) then it_status (index_iter_ tl)
  else if negb (is_NULL (data_iter_ tl)) && negb (Status_ok (it_status (data_iter_ tl))) then it_status (data_iter_ tl)
  else tl_status_ tl.

#[export] Instance TwoLevel_Iterator : Iterator (TwoLevelIterator I1 I2 H K) := {
  it_Valid tl := it_Valid (data_iter_ tl);
  it_SeekToFirst := tl_SeekToFirst;
  it_SeekToLast := tl_SeekToLast;
  it_Seek := tl_Seek;
  it_Next := tl_Next;
  it_Prev := tl_Prev;
  it_key tl := _ ← passert (it_Valid (data_iter_ tl)); it_key (data_iter_ tl);
  it_value tl := _ ← passert (it_Valid (data_iter_ tl)); it_value (data_iter_ tl);
  it_status := tl_status;
}.
End two_level.

(** ** The wrapper keeps the contract *)
Section wrapper_cursor.
Context {C : Comparator} {I : Type} `{!Iterator I}.

Definition at_w (at_ : I -> nat -> Prop) (w : IteratorWrapper I) (i : nat) : Prop :=
  exists it, w_iter w = Some it /\ at_ it i /\ w_valid w = it_Valid it /\
    (it_Valid it = true -> it_key it = Some (w_key w)).

Context (es : list (list Z * list Z)) (at_ : I -> nat -> Prop) (Hc : is_cursor es at_).

Lemma Update_at it i v k : at_ it i -> exists w, Update (mkWrapper (Some it) v k) = Some w /\ at_w at_ w i.
Proof.
  intros Ha. unfold Update. cbn [w_iter w_key mbind option_bind]. destruct (es !! i) as [e|] eqn:E.
  - destruct (cur_get _ _ Hc _ _ _ Ha E) as (Hv & Hk & _). rewrite Hv, Hk. cbn [mbind option_bind].
    eexists. split; [done|]. exists it. by rewrite Hv.
  - rewrite (cur_end _ _ Hc _ _ Ha E). eexists. split; [done|]. exists it.
    by rewrite (cur_end _ _ Hc _ _ Ha E).
Qed.

Lemma w_call_at (f : I -> option I) w i j : at_w at_ w i ->
  (forall it, at_ it i -> exists it', f it = Some it' /\ at_ it' j) -> exists w', w_call f w = Some w' /\ at_w at_ w' j.
Proof.
  intros (it & E & Ha & _) Hf. unfold w_call. rewrite E. cbn [mbind option_bind].
  destruct (Hf it Ha) as (it' & -> & Ha'). cbn [mbind option_bind]. by apply Update_at.
Qed.

Lemma wrapper_is_cursor : is_cursor es (at_w at_).
Proof.
  constructor.
  - intros w i e (it & E & Ha & Hv & Hk) He. destruct (cur_get _ _ Hc _ _ _ Ha He) as (V & Ek & Ev).
    cbn. rewrite Hv, V, E. cbn. rewrite Ek in Hk. split_and!; [done| |done]. by injection (Hk V) as ->.
  - intros w i (it & E & Ha & Hv & _) He. cbn. rewrite Hv. by eapply cur_end.
  - intros w i (it & E & Ha & _) . cbn. rewrite E. by eapply cur_ok.
  - intros w i Hw. apply (w_call_at _ _ i); [done|]. intros. by eapply cur_first.
  - intros w i Hw. apply (w_call_at _ _ i); [done|]. intros. by eapply cur_last.
  - intros w i t Ht Hw. apply (w_call_at _ _ i); [done|]. intros. by eapply cur_seek.
  - intros w i Hw Hi. apply (w_call_at _ _ i); [done|]. intros. by eapply cur_next.
  - intros w i Hw Hi. apply (w_call_at _ _ i); [done|]. intros. by eapply cur_prev.
Qed.
End wrapper_cursor.

(** ** Positions in the blocks *)
Section start.
Context (gs : list (list (list Z * list Z))).

Definition start (j : nat) : nat := length (concat (take j gs)).

Lemma start_S j g : gs !! j = Some g -> start (S j) = (start j + length g)%nat.
Proof. intros Hj. unfold start. rewrite (take_S_r _ _ _ Hj), concat_app, length_app. simpl. by rewrite app_nil_r. Qed.

Lemma start_all j : (length gs <= j)%nat -> start j = length (concat gs).
Proof. intros Hj. unfold start. by rewrite take_ge. Qed.

Lemma concat_at j g : gs !! j = Some g -> concat gs = concat (take j gs) ++ g ++ concat (drop (S j) gs).
Proof. intros H. rewrite <-(take_drop_middle gs j g H) at 1. by rewrite concat_app. Qed.

Lemma lookup_start j g p : gs !! j = Some g -> (p < length g)%nat -> concat gs !! (start j + p)%nat = g !! p.
Proof.
  intros Hj Hp. rewrite (concat_at j g Hj). unfold start. rewrite lookup_app_r, Nat.add_comm, Nat.add_sub by lia.
  by rewrite lookup_app_l.
Qed.

Lemma start_le j g : gs !! j = Some g -> (start j + length g <= length (concat gs))%nat.
Proof. intros Hj. rewrite (concat_at j g Hj), !length_app. unfold start. lia. Qed.
End start.

(** ** The two-level iterator is a cursor over the blocks *)
Section two_level_cursor.
Context {C : Comparator} {I1 I2 H K : Type} `{!Iterator I1} `{!Iterator I2}.
Context (block_function : K -> list Z -> option (I2 * H * K)) (cleanup : H -> K -> option K) (fuel : nat).
Context (idx : list (list Z * list Z)) (gs : list (list (list Z * list Z))).
Context (at1 : I1 -> nat -> Prop) (at2 : nat -> I2 -> nat -> Prop) (Kinv : list H -> K -> Prop).

(** The contract of the index, of the blocks and of the function that opens
    them.  A separator lies between its block and the blocks after it.
    [Kinv hs k]: the cleanups [hs] are still to be run on [k]. *)
Record two_level_ok : Prop := {
  ok_index : is_cursor idx at1;
  ok_data j g : gs !! j = Some g -> is_cursor g (at2 j);
  ok_length : length gs = length idx;
  ok_open hs k j e g : Kinv hs k -> (length hs <= 1)%nat -> idx !! j = Some e -> gs !! j = Some g ->
    exists it h k', block_function k e.2 = Some (it, h, k') /\ Kinv (h :: hs) k' /\ at2 j it (length g);
  ok_cleanup hs h hs' k : Kinv (hs ++ h :: hs') k -> exists k', cleanup h k = Some k' /\ Kinv (hs ++ hs') k';
  ok_handles : NoDup (snd <$> idx);
  ok_fuel : (length idx + 1 < fuel)%nat;
  ok_upper j e g t : is_key t -> idx !! j = Some e -> gs !! j = Some g -> below t e.1 = true ->
    Forall (fun x => below t x.1 = true) g;
  ok_lower j e t : is_key t -> idx !! j = Some e -> below t e.1 = false ->
    Forall (fun x => below t x.1 = false) (concat (drop (S j) gs));
}.
Hypothesis Hok : two_level_ok.

Implicit Types tl : TwoLevelIterator I1 I2 H K.
Notation n := (length idx).
Notation total := (length (concat gs)).

Definition good tl : Prop := tl_status_ tl = kOk /\ Kinv (option_list (data_cleanup_ tl)) (tl_arg_ tl).
Definition null tl : Prop := w_iter (data_iter_ tl) = None /\ w_valid (data_iter_ tl) = false.
Definition in_block tl (j p : nat) : Prop :=
  exists g e, gs !! j = Some g /\ idx !! j = Some e /\ data_block_handle_ tl = e.2 /\
    (p <= length g)%nat /\ at_w (at2 j) (data_iter_ tl) p.
Definition any_data tl : Prop := null tl \/ exists j p, in_block tl j p.
Definition ix tl (j : nat) : Prop := at_w at1 (index_iter_ tl) j /\ (j <= n)%nat.

Definition at_tl tl (i : nat) : Prop :=
  good tl /\ (exists j, ix tl j /\
    (null tl /\ i = total \/
     exists p g, gs !! j = Some g /\ (p < length g)%nat /\ i = (start gs j + p)%nat /\ in_block tl j p)).

Lemma index_cursor : is_cursor idx (at_w at1).
Proof using Hok. apply wrapper_is_cursor, Hok. Qed.

Lemma data_cursor j g : gs !! j = Some g -> is_cursor g (at_w (at2 j)).
Proof using Hok. intros Hj. by eapply wrapper_is_cursor, ok_data. Qed.

Lemma data_status tl j p : in_block tl j p -> it_status (data_iter_ tl) = kOk.
Proof using Hok. intros (g & e & Hg & _ & _ & _ & Ha). by eapply cur_ok; [eapply data_cursor|]. Qed.

(** While the next block is open the iterator over the last one still is. *)
Definition held tl (hs : list H) : Prop := tl_status_ tl = kOk /\ Kinv (hs ++ option_list (data_cleanup_ tl)) (tl_arg_ tl).

Lemma delete_data_spec tl hs : held tl hs -> exists k, delete_data cleanup tl = Some k /\ Kinv hs k.
Proof using Hok.
  intros [_ Hk]. unfold delete_data. destruct (data_cleanup_ tl) as [h|]; cbn [option_list] in Hk.
  - destruct (ok_cleanup Hok hs h [] _ Hk) as (k & E & Hk'). exists k. by rewrite app_nil_r in Hk'.
  - rewrite app_nil_r in Hk. by eexists.
Qed.

Lemma SaveError_ok tl : w_iter (data_iter_ tl) = None \/ it_status (data_iter_ tl) = kOk ->
  match w_iter (data_iter_ tl) with Some _ => SaveError (it_status (data_iter_ tl)) tl | None => tl end = tl.
Proof.
  intros [-> | ->]; [done|]. unfold SaveError. change (Status_ok kOk) with true. rewrite andb_false_r. by destruct (w_iter _).
Qed.

Lemma any_status tl : any_data tl -> w_iter (data_iter_ tl) = None \/ it_status (data_iter_ tl) = kOk.
Proof using Hok. intros [[? _]|(j & p & Hb)]; [by left|right; by eapply data_status]. Qed.

Lemma SetDataIterator_None tl : good tl -> any_data tl ->
  exists tl', SetDataIterator cleanup None tl = Some tl' /\ good tl' /\ null tl' /\ index_iter_ tl' = index_iter_ tl.
Proof using Hok.
  intros Hg Hd. unfold SetDataIterator. cbv zeta. rewrite SaveError_ok by (by apply any_status).
  destruct (delete_data_spec tl [] Hg) as (k & -> & Hk). cbn [Set_ fmap option_fmap option_map mbind option_bind].
  eexists. split; [done|]. split; [by split; [apply Hg|]|]. by split.
Qed.

Lemma SetDataIterator_Some tl it h j p g e :
  held tl [h] -> w_iter (data_iter_ tl) = None \/ it_status (data_iter_ tl) = kOk ->
  gs !! j = Some g -> idx !! j = Some e -> data_block_handle_ tl = e.2 -> (p <= length g)%nat -> at2 j it p ->
  exists tl', SetDataIterator cleanup (Some (it, h)) tl = Some tl' /\ good tl' /\ in_block tl' j p /\ index_iter_ tl' = index_iter_ tl.
Proof using Hok.
  intros Hgd Hst Hg He Hh Hp Ha. unfold SetDataIterator. cbv zeta. rewrite SaveError_ok by done.
  destruct (delete_data_spec tl [h] Hgd) as (k & -> & Hk). cbn [Set_ fmap option_fmap option_map mbind option_bind fst snd].
  destruct (Update_at g (at2 j) (ok_data Hok j g Hg) it p (w_valid (data_iter_ tl)) (w_key (data_iter_ tl)) Ha)
    as (w & -> & Hw). cbn [mbind option_bind].
  eexists. split; [done|]. split; [by split; [apply Hgd|]|]. split; [|done]. by exists g, e.
Qed.

Lemma InitDataBlock_spec tl j : good tl -> any_data tl -> ix tl j ->
  exists tl', InitDataBlock block_function cleanup tl = Some tl' /\ good tl' /\ ix tl' j /\
    ((j < n)%nat /\ (exists p, in_block tl' j p) \/ j = n /\ null tl').
Proof using Hok.
  intros Hg Hd [Hi Hj]. unfold InitDataBlock. destruct (idx !! j) as [e|] eqn:E.
  - pose proof (lookup_lt_Some _ _ _ E) as Hlt.
    destruct (cur_get _ _ index_cursor _ _ _ Hi E) as (-> & _ & ->). cbn [negb mbind option_bind].
    destruct (lookup_lt_is_Some_2 gs j) as [g Eg]; [rewrite (ok_length Hok); lia|].
    destruct (negb _ && _) eqn:Eq.
    + apply andb_true_iff in Eq as [Hn Hh]. exists tl. split; [done|]. split; [done|]. split; [done|]. left. split; [done|].
      destruct Hd as [[Hn' _]|(j' & p & g' & e' & Hg' & He' & Hh' & Hp & Ha)].
      { unfold is_NULL in Hn. by rewrite Hn' in Hn. }
      assert (j' = j) as ->; [|by exists p, g', e'].
      rewrite Slice_compare_lex in Hh. apply Z.eqb_eq, lex_eq in Hh.
      apply (NoDup_lookup (snd <$> idx) _ _ e.2 (ok_handles Hok)); rewrite list_lookup_fmap;
        [rewrite He'|rewrite E]; cbn [fmap option_fmap option_map]; congruence.
    + destruct (ok_open Hok (option_list (data_cleanup_ tl)) (tl_arg_ tl) j e g) as (it & h & k' & -> & Hk & Ha2); [apply Hg|destruct (data_cleanup_ tl); cbn; lia|done..|].
      cbn [mbind option_bind].
      destruct (SetDataIterator_Some (mkTwoLevel (tl_status_ tl) (index_iter_ tl) (data_iter_ tl) (data_cleanup_ tl) e.2 k') it h j (length g) g e)
        as (tl' & -> & Hg' & Hb & Hix); try done.
      { split; [apply Hg|done]. }
      { exact (any_status tl Hd). }
      exists tl'. split; [done|]. split; [done|]. split; [by split; [rewrite Hix|]|]. left. eauto.
  - rewrite (cur_end _ _ index_cursor _ _ Hi E). cbn [negb].
    destruct (SetDataIterator_None tl Hg Hd) as (tl' & -> & Hg' & Hn & Hix). exists tl'.
    split; [done|]. split; [done|]. split; [by split; [rewrite Hix|]|]. right. apply lookup_ge_None in E. split; [lia|done].
Qed.

Lemma on_data_null f tl : null tl -> on_data f tl = Some tl.
Proof. intros [Hn _]. unfold on_data, is_NULL. by rewrite Hn. Qed.

Lemma on_data_block f tl j p q g : gs !! j = Some g -> good tl -> in_block tl j p -> (q <= length g)%nat ->
  (forall w, at_w (at2 j) w p -> exists w', f w = Some w' /\ at_w (at2 j) w' q) ->
  exists tl', on_data f tl = Some tl' /\ good tl' /\ in_block tl' j q /\ index_iter_ tl' = index_iter_ tl.
Proof.
  intros Hg Hgd (g' & e & Hg' & He & Hh & Hp & Ha) Hq Hf. rewrite Hg in Hg'. injection Hg' as <-.
  destruct (Hf _ Ha) as (w' & E & Ha'). unfold on_data, is_NULL. destruct Ha as (it & -> & _). rewrite E. cbn [mbind option_bind].
  eexists. split; [done|]. split; [done|]. split; [|done]. by exists g, e.
Qed.

Lemma data_valid tl j p g : gs !! j = Some g -> in_block tl j p ->
  is_NULL (data_iter_ tl) || negb (it_Valid (data_iter_ tl)) = negb (p <? length g)%nat.
Proof using Hok.
  intros Hg (g' & e & Hg' & He & Hh & Hp & Ha). rewrite Hg in Hg'. injection Hg' as <-.
  pose proof (data_cursor j g Hg) as Hc. assert (is_NULL (data_iter_ tl) = false) as ->.
  { unfold is_NULL. by destruct Ha as (it & -> & _). }
  simpl orb. f_equal. destruct (Nat.ltb_spec p (length g)).
  - destruct (lookup_lt_is_Some_2 g p) as [x Hx]; [done|]. by destruct (cur_get _ _ Hc _ _ _ Ha Hx).
  - eapply (cur_end _ _ Hc _ _ Ha). by apply lookup_ge_None_2.
Qed.

Lemma null_end tl j : good tl -> null tl -> ix tl j ->
  exists tl', SetDataIterator cleanup None tl = Some tl' /\ at_tl tl' total.
Proof using Hok.
  intros Hg Hn [Hi Hj]. destruct (SetDataIterator_None tl Hg) as (tl' & E & Hg' & Hn' & Hix); [by left|].
  exists tl'. split; [done|]. split; [done|]. exists j. split; [by split; [rewrite Hix|]|]. by left.
Qed.

Lemma null_stops tl : null tl -> is_NULL (data_iter_ tl) || negb (it_Valid (data_iter_ tl)) = true.
Proof. intros [Hn _]. unfold is_NULL. by rewrite Hn. Qed.

Lemma index_valid tl j : ix tl j -> it_Valid (index_iter_ tl) = (j <? n)%nat.
Proof using Hok.
  intros [Hi _]. destruct (Nat.ltb_spec j n).
  - destruct (lookup_lt_is_Some_2 idx j) as [x Hx]; [done|]. by destruct (cur_get _ _ index_cursor _ _ _ Hi Hx).
  - eapply (cur_end _ _ index_cursor _ _ Hi). by apply lookup_ge_None_2.
Qed.

(** What a loop starts from: a block, or nothing past the end of the index. *)
Definition at_pos tl (j p : nat) : Prop :=
  good tl /\ ix tl j /\ ((j < n)%nat /\ in_block tl j p \/ j = n /\ null tl).

Lemma at_pos_any tl j p : at_pos tl j p -> any_data tl.
Proof. intros (_ & _ & [[_ Hx]|[_ Hx]]); [right; eauto|by left]. Qed.

(** One turn of a loop: move the index, open the block, place the data. *)
Lemma move_block tl j j' (step : IteratorWrapper I1 -> option (IteratorWrapper I1))
    (seek : IteratorWrapper I2 -> option (IteratorWrapper I2)) q :
  good tl -> any_data tl -> at_w at1 (index_iter_ tl) j -> (j' <= n)%nat ->
  (forall w, at_w at1 w j -> exists w', step w = Some w' /\ at_w at1 w' j') ->
  (forall g w r, gs !! j' = Some g -> at_w (at2 j') w r ->
     (q <= length g)%nat /\ exists w', seek w = Some w' /\ at_w (at2 j') w' q) ->
  exists w tl1 tl2, step (index_iter_ tl) = Some w /\ InitDataBlock block_function cleanup (set_index w tl) = Some tl1 /\
    on_data seek tl1 = Some tl2 /\ at_pos tl2 j' q.
Proof using Hok.
  intros Hg Hd Hi Hj' Hstep Hseek.
  destruct (Hstep _ Hi) as (w & -> & Hw). exists w.
  destruct (InitDataBlock_spec (set_index w tl) j') as (tl1 & -> & Hg1 & [Hi1 _] & H1).
  { done. } { destruct Hd as [?|(jj & pp & ?)]; [by left|right; by exists jj, pp]. } { by split. }
  destruct H1 as [[Hlt (r & Hb)]|[-> Hn]].
  - pose proof Hb as (g & e & Hgj & _ & _ & _ & Hr). destruct (Hseek g _ r Hgj Hr) as [Hq _].
    destruct (on_data_block seek tl1 j' r q g Hgj Hg1 Hb Hq) as (tl2 & E2 & Hg2 & Hb2 & Hix2).
    { intros w' Hw'. by destruct (Hseek g w' r Hgj Hw'). }
    exists tl1, tl2. split; [done|]. split; [done|]. split; [done|]. split; [done|]. split; [split; [by rewrite Hix2|lia]|]. by left.
  - exists tl1, tl1. split; [done|]. split; [done|]. split; [by apply on_data_null|]. split; [done|]. split; [split; [done|lia]|]. by right.
Qed.

Lemma skip_forward f : forall tl j p, at_pos tl j p -> (n - j < f)%nat ->
  exists tl', SkipEmptyDataBlocksForward block_function cleanup f tl = Some tl' /\
    at_tl tl' (if (j <? n)%nat then start gs j + p else total)%nat.
Proof using Hok.
  induction f as [|f IH]; intros tl j p Hp Hf; [lia|]. cbn [SkipEmptyDataBlocksForward].
  pose proof Hp as (Hg & Hix & Hpos). rewrite (index_valid _ _ Hix).
  destruct Hpos as [[Hlt Hb]|[-> Hn]].
  - rewrite (proj2 (Nat.ltb_lt j n) Hlt). pose proof Hb as (g & e & Hgj & He & _ & Hpl & _).
    rewrite (data_valid _ _ _ _ Hgj Hb). destruct (Nat.ltb_spec p (length g)) as [Hin|Hout]; cbn [negb].
    + exists tl. split; [done|]. split; [done|]. exists j. split; [done|]. right. by exists p, g.
    + destruct (move_block tl j (S j) it_Next it_SeekToFirst 0) as (w & tl1 & tl2 & -> & E1 & E2 & Hp2);
        [done|by eapply at_pos_any|apply Hix|lia|..].
      { intros w Hw. by apply (cur_next _ _ index_cursor). }
      { intros g' w r Hg' Hw. split; [lia|]. by apply (cur_first _ _ (data_cursor _ _ Hg') w r). }
      cbn [mbind option_bind]. rewrite E1. cbn [mbind option_bind]. rewrite E2. cbn [mbind option_bind].
      destruct (IH tl2 (S j) 0%nat Hp2) as (tl3 & -> & H3); [lia|]. exists tl3. split; [done|].
      assert (p = length g) as -> by lia. pose proof (start_S gs j g Hgj) as HS.
      destruct (Nat.ltb_spec (S j) n); [by rewrite HS, Nat.add_0_r in H3|].
      rewrite <-HS. rewrite start_all by (rewrite (ok_length Hok); lia). done.
  - rewrite Nat.ltb_irrefl, (null_stops _ Hn). cbn [negb]. by eapply null_end.
Qed.

(** Going backward, a data iterator before its block stands for the last entry
    before the block. *)
Definition before (i : nat) : nat := match i with O => total | S x => x end.

Lemma skip_backward f : forall tl j p, at_pos tl j p -> (j + 1 < f)%nat \/ j = n /\ (0 < f)%nat ->
  exists tl', SkipEmptyDataBlocksBackward block_function cleanup f tl = Some tl' /\
    at_tl tl' (match gs !! j with
               | Some g => if (p <? length g)%nat then start gs j + p else before (start gs j)
               | None => total end)%nat.
Proof using Hok.
  induction f as [|f IH]; intros tl j p Hp Hf; [lia|]. cbn [SkipEmptyDataBlocksBackward].
  pose proof Hp as (Hg & Hix & Hpos). rewrite (index_valid _ _ Hix).
  destruct Hpos as [[Hlt Hb]|[-> Hn]].
  - rewrite (proj2 (Nat.ltb_lt j n) Hlt). pose proof Hb as (g & e & Hgj & He & _ & Hpl & _). rewrite Hgj.
    rewrite (data_valid _ _ _ _ Hgj Hb). destruct (Nat.ltb_spec p (length g)) as [Hin|Hout]; cbn [negb].
    + exists tl. split; [done|]. split; [done|]. exists j. split; [done|]. right. by exists p, g.
    + set (j' := match j with O => n | S x => x end).
      destruct (move_block tl j j' it_Prev it_SeekToLast (length (default [] (gs !! j')) - 1))
        as (w & tl1 & tl2 & -> & E1 & E2 & Hp2).
      { done. } { by eapply at_pos_any. } { apply Hix. } { subst j'. destruct j; lia. }
      { intros w Hw. by apply (cur_prev _ _ index_cursor). }
      { intros g' w r Hg' Hw. rewrite Hg'. simpl default. split; [lia|]. by apply (cur_last _ _ (data_cursor _ _ Hg') w r). }
      cbn [mbind option_bind]. rewrite E1. cbn [mbind option_bind]. rewrite E2. cbn [mbind option_bind].
      destruct (IH tl2 j' _ Hp2) as (tl3 & -> & H3).
      { subst j'. destruct j; [right|left]; lia. }
      exists tl3. split; [done|]. subst j'. destruct j as [|j].
      * rewrite (proj2 (lookup_ge_None gs n)) in H3 by (rewrite (ok_length Hok); lia). done.
      * destruct (lookup_lt_is_Some_2 gs j) as [g' Hg']; [apply lookup_lt_Some in Hgj; lia|].
        rewrite Hg' in H3. simpl in H3. rewrite (start_S gs j g' Hg').
        destruct g' as [|x g']; simpl in H3 |- *; [by rewrite Nat.add_0_r|].
        rewrite Nat.sub_0_r, (proj2 (Nat.ltb_lt _ _)) in H3 by lia. by rewrite Nat.add_succ_r.
  - rewrite Nat.ltb_irrefl, (null_stops _ Hn). cbn [negb].
    rewrite (proj2 (lookup_ge_None gs n)) by (rewrite (ok_length Hok); lia). by eapply null_end.
Qed.

Lemma at_tl_any tl i : at_tl tl i -> good tl /\ any_data tl /\ exists j, at_w at1 (index_iter_ tl) j.
Proof.
  intros (Hg & j & [Hi _] & [[Hn _]|(p & g & _ & _ & _ & Hb)]); split; [done| |done|].
  - split; [by left|eauto].
  - split; [right|]; eauto.
Qed.

Lemma at_tl_get tl i e : at_tl tl i -> concat gs !! i = Some e -> exists j p g,
  gs !! j = Some g /\ g !! p = Some e /\ (p < length g)%nat /\ i = (start gs j + p)%nat /\ ix tl j /\ in_block tl j p.
Proof.
  intros (_ & j & Hi & [[_ ->]|(p & g & Hgj & Hp & -> & Hb)]) He; [apply lookup_lt_Some in He; lia|].
  exists j, p, g. rewrite (lookup_start gs j g p Hgj Hp) in He. done.
Qed.

Lemma tl_SeekToFirst_spec tl i : at_tl tl i -> exists tl', tl_SeekToFirst block_function cleanup fuel tl = Some tl' /\ at_tl tl' 0.
Proof using Hok.
  intros (Hg & Hd & j & Hi)%at_tl_any. pose proof (ok_fuel Hok). unfold tl_SeekToFirst.
  destruct (move_block tl j 0 it_SeekToFirst it_SeekToFirst 0) as (w & tl1 & tl2 & -> & E1 & E2 & Hp2); [done..|lia| | |].
  { intros w Hw. by apply (cur_first _ _ index_cursor w j). }
  { intros g w r Hgj Hw. split; [lia|]. by apply (cur_first _ _ (data_cursor _ _ Hgj) w r). }
  cbn [mbind option_bind]. rewrite E1. cbn [mbind option_bind]. rewrite E2. cbn [mbind option_bind].
  destruct (skip_forward fuel tl2 0 0 Hp2) as (tl3 & -> & H3); [lia|]. exists tl3. split; [done|].
  destruct (Nat.ltb_spec 0 n); [done|]. replace total with 0%nat in H3; [done|].
  pose proof (ok_length Hok). destruct gs; [done|simpl in *; lia].
Qed.

Lemma tl_SeekToLast_spec tl i :
  at_tl tl i -> exists tl', tl_SeekToLast block_function cleanup fuel tl = Some tl' /\ at_tl tl' (total - 1)%nat.
Proof using Hok.
  intros (Hg & Hd & j & Hi)%at_tl_any. pose proof (ok_fuel Hok). pose proof (ok_length Hok) as Hl. unfold tl_SeekToLast.
  destruct (move_block tl j (n - 1) it_SeekToLast it_SeekToLast (length (default [] (gs !! (n - 1)%nat)) - 1))
    as (w & tl1 & tl2 & -> & E1 & E2 & Hp2); [done..|lia| | |].
  { intros w Hw. by apply (cur_last _ _ index_cursor w j). }
  { intros g w r Hgj Hw. rewrite Hgj. simpl default. split; [lia|]. by apply (cur_last _ _ (data_cursor _ _ Hgj) w r). }
  cbn [mbind option_bind]. rewrite E1. cbn [mbind option_bind]. rewrite E2. cbn [mbind option_bind].
  destruct (skip_backward fuel tl2 (n - 1) _ Hp2) as (tl3 & -> & H3); [lia|]. exists tl3. split; [done|].
  destruct (gs !! (n - 1)%nat) as [g|] eqn:Hgj; cbn [default from_option] in H3.
  - pose proof (start_S gs _ g Hgj) as HS. rewrite start_all in HS by (apply lookup_lt_Some in Hgj; lia).
    destruct g as [|x g]; cbn [length] in *; simpl Nat.ltb in H3.
    + rewrite Nat.add_0_r in HS. rewrite <-HS in H3.
      by replace (before total) with (total - 1)%nat in H3 by (unfold before; destruct total; lia).
    + rewrite ?Nat.sub_0_r in H3. rewrite (proj2 (Nat.ltb_lt _ _)) in H3 by lia.
      cbn [id length] in H3. by replace (total - 1)%nat with (start gs (n - 1) + (S (length g) - 1))%nat by lia.
  - apply lookup_ge_None in Hgj. replace (total - 1)%nat with total; [done|]. destruct gs; [done|simpl in *; lia].
Qed.

Lemma tl_Next_spec tl i : at_tl tl i -> (i < total)%nat ->
  exists tl', tl_Next block_function cleanup fuel tl = Some tl' /\ at_tl tl' (S i).
Proof using Hok.
  intros Ha Hi. destruct (lookup_lt_is_Some_2 _ _ Hi) as [e He]. pose proof (ok_fuel Hok).
  destruct (at_tl_get _ _ _ Ha He) as (j & p & g & Hgj & Hgp & Hp & -> & Hix & Hb).
  pose proof Hb as (g' & e' & Hg' & He' & Hh & _ & Hw). rewrite Hgj in Hg'. injection Hg' as <-.
  pose proof (data_cursor j g Hgj) as Hc. destruct (cur_get _ _ Hc _ _ _ Hw Hgp) as (Hv & _).
  unfold tl_Next. rewrite Hv. cbn [passert mbind option_bind].
  destruct (cur_next _ _ Hc _ _ Hw Hp) as (w' & -> & Hw'). cbn [mbind option_bind].
  destruct (skip_forward fuel (set_data w' tl) j (S p)) as (tl3 & -> & H3).
  { destruct Ha as (Hg & _). split; [done|]. split; [done|]. left. split; [by eapply lookup_lt_Some|]. exists g, e'. split_and!; done || lia. }
  { lia. }
  exists tl3. split; [done|]. apply lookup_lt_Some in He'. rewrite (proj2 (Nat.ltb_lt _ _)) in H3 by lia.
  by rewrite Nat.add_succ_r in H3.
Qed.

Lemma tl_Prev_spec tl i : at_tl tl i -> (i < total)%nat ->
  exists tl', tl_Prev block_function cleanup fuel tl = Some tl' /\ at_tl tl' (before i).
Proof using Hok.
  intros Ha Hi. destruct (lookup_lt_is_Some_2 _ _ Hi) as [e He]. pose proof (ok_fuel Hok).
  destruct (at_tl_get _ _ _ Ha He) as (j & p & g & Hgj & Hgp & Hp & -> & Hix & Hb).
  pose proof Hb as (g' & e' & Hg' & He' & Hh & _ & Hw). rewrite Hgj in Hg'. injection Hg' as <-.
  pose proof (data_cursor j g Hgj) as Hc. destruct (cur_get _ _ Hc _ _ _ Hw Hgp) as (Hv & _).
  unfold tl_Prev. rewrite Hv. cbn [passert mbind option_bind].
  destruct (cur_prev _ _ Hc _ _ Hw Hp) as (w' & -> & Hw'). cbn [mbind option_bind].
  pose proof (lookup_lt_Some _ _ _ He') as Hj.
  destruct (skip_backward fuel (set_data w' tl) j (match p with O => length g | S x => x end)) as (tl3 & -> & H3).
  { destruct Ha as (Hg & _). split; [done|]. split; [done|]. left. split; [done|].
    exists g, e'. split_and!; [done..| |done]. destruct p; lia. }
  { left. lia. }
  exists tl3. split; [done|]. rewrite Hgj in H3. destruct p as [|p].
  - rewrite Nat.ltb_irrefl in H3. by rewrite Nat.add_0_r.
  - rewrite (proj2 (Nat.ltb_lt _ _)) in H3 by lia. by rewrite Nat.add_succ_r.
Qed.

Lemma seek_index_app a b t : Forall (fun x => below t x.1 = true) a ->
  seek_index (a ++ b) t = (length a + seek_index b t)%nat.
Proof. induction 1 as [|[k v] a Hx _ IH]; [done|]. simpl in *. by rewrite Hx, IH. Qed.

Lemma seek_index_app_l a b t : Forall (fun x => below t x.1 = false) b -> seek_index (a ++ b) t = seek_index a t.
Proof.
  intros Hb. induction a as [|[k v] a IH]; simpl; [|by rewrite IH].
  destruct Hb as [|[k v] b Hx _]; [done|]. simpl in *. by rewrite Hx.
Qed.

(** The block the index points to holds the first entry at or past the
    target, or the blocks after it do. *)
Lemma seek_split t (j := seek_index idx t) : is_key t ->
  seek_index (concat gs) t = match gs !! j with Some g => start gs j + seek_index g t | None => total end%nat.
Proof using Hok.
  intros Ht. assert (Forall (fun x => below t x.1 = true) (concat (take j gs))) as Hlow.
  { apply Forall_concat, Forall_lookup. intros i g [Hi Hij]%lookup_take_Some.
    destruct (lookup_lt_is_Some_2 idx i) as [e He]; [apply lookup_lt_Some in Hi; by rewrite <-(ok_length Hok)|].
    eapply (ok_upper Hok i e g); [done..|]. by eapply seek_index_below. }
  destruct (gs !! j) as [g|] eqn:Hg.
  - rewrite (concat_at gs j g Hg), seek_index_app by done. unfold start. f_equal.
    destruct (lookup_lt_is_Some_2 idx j) as [e He]; [apply lookup_lt_Some in Hg; by rewrite <-(ok_length Hok)|].
    apply seek_index_app_l. apply (ok_lower Hok j e t Ht He). by apply (seek_index_at idx).
  - apply lookup_ge_None in Hg. rewrite take_ge in Hlow by done.
    rewrite <-(app_nil_r (concat gs)) at 1. rewrite seek_index_app by done. simpl. lia.
Qed.

Lemma tl_Seek_spec tl i t : is_key t -> at_tl tl i ->
  exists tl', tl_Seek block_function cleanup fuel tl t = Some tl' /\ at_tl tl' (seek_index (concat gs) t).
Proof using Hok.
  intros Ht (Hg & Hd & j & Hi)%at_tl_any. pose proof (ok_fuel Hok). unfold tl_Seek.
  pose proof (seek_index_le idx t) as Hle. set (j' := seek_index idx t) in *.
  destruct (move_block tl j j' (fun w => it_Seek w t) (fun w => it_Seek w t) (seek_index (default [] (gs !! j')) t))
    as (w & tl1 & tl2 & -> & E1 & E2 & Hp2); [done..| | |].
  { intros w Hw. by apply (cur_seek _ _ index_cursor w j). }
  { intros g w r Hgj Hw. rewrite Hgj. cbn [default from_option id]. split; [apply seek_index_le|].
    by apply (cur_seek _ _ (data_cursor _ _ Hgj) w r). }
  cbn [mbind option_bind]. rewrite E1. cbn [mbind option_bind]. rewrite E2. cbn [mbind option_bind].
  destruct (skip_forward fuel tl2 j' _ Hp2) as (tl3 & -> & H3); [lia|]. exists tl3. split; [done|].
  rewrite (seek_split t Ht). fold j'. destruct (Nat.ltb_spec j' n) as [Hlt|Hge].
  - destruct (lookup_lt_is_Some_2 gs j') as [g Hgj]; [by rewrite (ok_length Hok)|]. by rewrite Hgj in H3 |- *.
  - by rewrite (proj2 (lookup_ge_None gs j')) by (by rewrite (ok_length Hok)).
Qed.

Lemma two_level_is_cursor :
  is_cursor (Iterator0 := TwoLevel_Iterator block_function cleanup fuel) (concat gs) at_tl.
Proof using Hok.
  constructor.
  - intros tl i e Ha He. destruct (at_tl_get _ _ _ Ha He) as (j & p & g & Hgj & Hgp & Hp & -> & Hix & Hb).
    pose proof Hb as (g' & e' & Hg' & _ & _ & _ & Hw). rewrite Hgj in Hg'. injection Hg' as <-.
    destruct (cur_get _ _ (data_cursor j g Hgj) _ _ _ Hw Hgp) as (Hv & Hk & Hvl).
    cbn [it_Valid it_key it_value TwoLevel_Iterator]. by rewrite Hv, Hk, Hvl.
  - intros tl i (_ & j & _ & [[[_ Hn] ->]|(p & g & Hgj & Hp & -> & _)]) He; [done|].
    rewrite (lookup_start gs j g p Hgj Hp) in He. apply lookup_ge_None in He. lia.
  - intros tl i (Hg & j & [Hi _] & Hd). cbn [it_status TwoLevel_Iterator]. unfold tl_status.
    rewrite (cur_ok _ _ index_cursor _ _ Hi). change (Status_ok kOk) with true. cbn [negb].
    destruct Hd as [[[Hn _] _]|(p & g & _ & _ & _ & Hb)].
    + unfold is_NULL. rewrite Hn. apply Hg.
    + rewrite (data_status _ _ _ Hb). change (Status_ok kOk) with true. rewrite andb_false_r. apply Hg.
  - intros tl i. apply tl_SeekToFirst_spec.
  - intros tl i. apply tl_SeekToLast_spec.
  - intros tl i t. apply tl_Seek_spec.
  - intros tl i. apply tl_Next_spec.
  - intros tl i. apply tl_Prev_spec.
Qed.

Lemma NewTwoLevelIterator_spec it k : at1 it n -> Kinv [] k ->
  exists tl, NewTwoLevelIterator (I2 := I2) it k = Some tl /\ at_tl tl total.
Proof using Hok.
  intros Ha Hk. unfold NewTwoLevelIterator, new_IteratorWrapper. cbn [Set_ w_valid w_key].
  destruct (Update_at idx at1 (ok_index Hok) it n false [] Ha) as (w & -> & Hw). cbn [mbind option_bind].
  eexists. split; [done|]. split; [done|]. exists n. split; [by split|]. left. by split.
Qed.

(** Destroying the iterator runs the cleanup that is left. *)
Lemma delete_TwoLevelIterator_spec tl i : at_tl tl i -> exists k, delete_TwoLevelIterator cleanup tl = Some k /\ Kinv [] k.
Proof using Hok. intros (Hg & _). exact (delete_data_spec tl [] Hg). Qed.
End two_level_cursor.
