(* ===== verification/Table.v ===== *)
(** Writing a table file: [src/leveldb/table/table_builder.cc].

    The comparator with its separators, the filter policy, the compression
    functions and the file are behind interfaces.  [None] is a failed assertion
    or an access outside of a buffer; [ptr] gives the addresses the checksum
    code aligns by. *)
From stdpp Require Import strings.
From S2P Require Import Prelude Coding Dbformat LdbBase Crc32c Iterator Block Filter Format.

(** The other half of [include/leveldb/comparator.h]: a separator of two keys
    lies between them, the first one included, and a successor is not below its
    key; neither is longer than the key it replaces.

    [same] says which keys answer a lookup: equal keys, or internal keys of one
    user key.  A separator does not come between a lookup and its answer. *)
Class Separators (C : Comparator) := {
  FindShortestSeparator : list Z -> list Z -> option (list Z);
  FindShortSuccessor : list Z -> option (list Z);
  same : list Z -> list Z -> Prop;
  same_refl k : is_key k -> same k k;
  same_convex k x y : is_key k -> is_key x -> is_key y -> same k x -> klt k y -> klt y x -> same k y;
  FindShortestSeparator_spec a b : is_key a -> is_key b -> klt a b ->
    exists s, FindShortestSeparator a b = Some s /\ is_key s /\ ~ klt s a /\ klt s b /\ zlen s <= zlen a /\
      (Forall is_byte a -> Forall is_byte b -> Forall is_byte s) /\
      (forall k, is_key k -> klt a k -> ~ klt s k -> ~ same k b);
  FindShortSuccessor_spec a : is_key a -> Forall is_byte a ->
    exists s, FindShortSuccessor a = Some s /\ is_key s /\ ~ klt s a /\ zlen s <= zlen a /\ Forall is_byte s;
}.

Record Options := mkOptions {
  o_compression : Z;
  o_block_size : Z;
  o_block_restart_interval : Z;
  o_paranoid_checks : bool;
}.

Definition filter_prefix : list Z := chars "filter.".

Record TBRep (F : Type) := mkTB {
  tb_options : Options;
  tb_file : F;
  tb_offset : Z;
  tb_status : Code;
  data_block : BlockBuilder;
  index_block : BlockBuilder;
  tb_last_key : list Z;
  num_entries : Z;
  closed : bool;
  filter_block : option FilterBlockBuilder;
  pending_index_entry : bool;
  pending_handle : BlockHandle;
}.
#[global] Arguments mkTB {F}.
#[global] Arguments tb_options {F}.
#[global] Arguments tb_file {F}.
#[global] Arguments tb_offset {F}.
#[global] Arguments tb_status {F}.
#[global] Arguments data_block {F}.
#[global] Arguments index_block {F}.
#[global] Arguments tb_last_key {F}.
#[global] Arguments num_entries {F}.
#[global] Arguments closed {F}.
#[global] Arguments filter_block {F}.
#[global] Arguments pending_index_entry {F}.
#[global] Arguments pending_handle {F}.

Section table_builder.
Context (le : bool) (ptr : list Z -> Z) (snappy : Snappy).
Context {C : Comparator} {S : Separators C} (policy : option FilterPolicy).
Context {F : Type} `{!WritableFile F}.
Notation Rep := (TBRep F).
Implicit Types r : Rep.

(** ** Assignments to the fields *)
Definition set_tb_file f o s r : Rep :=
  mkTB (tb_options r) f o s (data_block r) (index_block r) (tb_last_key r) (num_entries r) (closed r)
    (filter_block r) (pending_index_entry r) (pending_handle r).
Definition set_data_block b r : Rep :=
  mkTB (tb_options r) (tb_file r) (tb_offset r) (tb_status r) b (index_block r) (tb_last_key r) (num_entries r)
    (closed r) (filter_block r) (pending_index_entry r) (pending_handle r).
Definition set_index_block b r : Rep :=
  mkTB (tb_options r) (tb_file r) (tb_offset r) (tb_status r) (data_block r) b (tb_last_key r) (num_entries r)
    (closed r) (filter_block r) (pending_index_entry r) (pending_handle r).
Definition set_last_key k n r : Rep :=
  mkTB (tb_options r) (tb_file r) (tb_offset r) (tb_status r) (data_block r) (index_block r) k n
    (closed r) (filter_block r) (pending_index_entry r) (pending_handle r).
Definition set_closed r : Rep :=
  mkTB (tb_options r) (tb_file r) (tb_offset r) (tb_status r) (data_block r) (index_block r) (tb_last_key r)
    (num_entries r) true (filter_block r) (pending_index_entry r) (pending_handle r).
Definition set_filter b r : Rep :=
  mkTB (tb_options r) (tb_file r) (tb_offset r) (tb_status r) (data_block r) (index_block r) (tb_last_key r)
    (num_entries r) (closed r) b (pending_index_entry r) (pending_handle r).
Definition set_pending p h r : Rep :=
  mkTB (tb_options r) (tb_file r) (tb_offset r) (tb_status r) (data_block r) (index_block r) (tb_last_key r)
    (num_entries r) (closed r) (filter_block r) p h.

Definition ok r : bool := Status_ok (tb_status r).

(** [if (r->filter_block != NULL) r->filter_block->f()] *)
Definition on_filter (f : FilterPolicy -> FilterBlockBuilder -> option FilterBlockBuilder) r : option Rep :=
  match policy, filter_block r with
  | Some P, Some b => b ← f P b; Some (set_filter (Some b) r)
  | _, _ => Some r
  end.

Definition new_TableBuilder (options : Options) (file : F) : option Rep :=
  let filter := match policy with Some _ => Some new_FilterBlockBuilder | None => None end in
  let r := mkTB options file 0 kOk new_BlockBuilder new_BlockBuilder [] 0 false filter false new_BlockHandle in
  on_filter (fun P => StartBlock 0) r.

(** ** Writing blocks *)
Definition WriteRawBlock (block_contents : list Z) (type : Z) r : option (BlockHandle * Rep) :=
  let handle := mkHandle (tb_offset r) (zlen block_contents) in
  let '(s, file) := Append block_contents (tb_file r) in
  let r := set_tb_file file (tb_offset r) s r in
  if Status_ok s then
    crc ← Value le (ptr block_contents) block_contents;
    crc ← Extend le (ptr [type]) crc [type];
    let trailer := [type] ++ EncodeFixed32 le (Mask crc) in
    let '(s, file) := Append trailer file in
    let offset := if Status_ok s then wrap 64 (tb_offset r + zlen block_contents + kBlockTrailerSize) else tb_offset r in
    Some (handle, set_tb_file file offset s r)
  else Some (handle, r).

(** What a block is stored as, and its type. *)
Definition compress_block (compression : Z) (raw : list Z) : list Z * Z :=
  if compression =? kNoCompression then (raw, kNoCompression)
  else if compression =? kSnappyCompression then
    match Snappy_Compress snappy raw with
    | Some compressed =>
        if zlen compressed <? zlen raw - zlen raw / 8 then (compressed, kSnappyCompression) else (raw, kNoCompression)
    | None => (raw, kNoCompression)
    end
  else ([], compression).

Definition WriteBlock (block : BlockBuilder) r : option (BlockHandle * BlockBuilder * Rep) :=
  _ ← passert (ok r);
  let '(raw, block) := Finish le block in
  let '(block_contents, type) := compress_block (o_compression (tb_options r)) raw in
  '(handle, r) ← WriteRawBlock block_contents type r;
  Some (handle, Reset block, r).

Definition TableBuilder_Flush r : option Rep :=
  _ ← passert (negb (closed r));
  if negb (ok r) then Some r
  else if builder_empty (data_block r) then Some r
  else
    _ ← passert (negb (pending_index_entry r));
    '(handle, block, r) ← WriteBlock (data_block r) r;
    let r := set_pending (pending_index_entry r) handle (set_data_block block r) in
    let r := if ok r then
               let r := set_pending true (pending_handle r) r in
               let '(s, file) := LdbBase.Flush (tb_file r) in
               set_tb_file file (tb_offset r) s r
             else r in
    on_filter (fun P => StartBlock (tb_offset r)) r.

(** The index entry of the block that was written last, under the given key. *)
Definition add_index_entry (key : list Z) r : option Rep :=
  handle_encoding ← BlockHandle_EncodeTo (pending_handle r) [];
  b ← Add 1 (index_block r) key handle_encoding;
  Some (set_pending false (pending_handle r) (set_index_block b (set_last_key key (num_entries r) r))).

Definition TableBuilder_Add (key value : list Z) r : option Rep :=
  _ ← passert (negb (closed r));
  if negb (ok r) then Some r
  else
    _ ← (if 0 <? num_entries r then c ← Compare key (tb_last_key r); passert (0 <? c) else Some tt);
    r ← (if pending_index_entry r then
           _ ← passert (builder_empty (data_block r));
           sep ← FindShortestSeparator (tb_last_key r) key;
           add_index_entry sep r
         else Some r);
    r ← on_filter (fun P b => Some (AddKey key b)) r;
    let r := set_last_key key (num_entries r + 1) r in
    b ← Add (o_block_restart_interval (tb_options r)) (data_block r) key value;
    let r := set_data_block b r in
    if o_block_size (tb_options r) <=? CurrentSizeEstimate b then TableBuilder_Flush r else Some r.

(** ** Closing the file *)
Definition write_filter r : option (BlockHandle * Rep) :=
  match policy, filter_block r with
  | Some P, Some b =>
      if ok r then
        '(contents, b) ← FilterBlock_Finish le b;
        WriteRawBlock contents kNoCompression (set_filter (Some b) r)
      else Some (new_BlockHandle, r)
  | _, _ => Some (new_BlockHandle, r)
  end.

Definition write_metaindex (filter_block_handle : BlockHandle) r : option (BlockHandle * Rep) :=
  if ok r then
    meta ← (match policy, filter_block r with
            | Some P, Some _ =>
                handle_encoding ← BlockHandle_EncodeTo filter_block_handle [];
                Add (o_block_restart_interval (tb_options r)) new_BlockBuilder (filter_prefix ++ FP_Name) handle_encoding
            | _, _ => Some new_BlockBuilder
            end);
    '(handle, _, r) ← WriteBlock meta r;
    Some (handle, r)
  else Some (new_BlockHandle, r).

Definition write_index r : option (BlockHandle * Rep) :=
  if ok r then
    r ← (if pending_index_entry r then
           succ ← FindShortSuccessor (tb_last_key r);
           add_index_entry succ r
         else Some r);
    '(handle, block, r) ← WriteBlock (index_block r) r;
    Some (handle, set_index_block block r)
  else Some (new_BlockHandle, r).

Definition write_footer (metaindex_block_handle index_block_handle : BlockHandle) r : option Rep :=
  if ok r then
    footer_encoding ← Footer_EncodeTo le (mkFooter metaindex_block_handle index_block_handle) [];
    let '(s, file) := Append footer_encoding (tb_file r) in
    let offset := if Status_ok s then wrap 64 (tb_offset r + zlen footer_encoding) else tb_offset r in
    Some (set_tb_file file offset s r)
  else Some r.

Definition TableBuilder_Finish r : option (Code * Rep) :=
  r ← TableBuilder_Flush r;
  _ ← passert (negb (closed r));
  let r := set_closed r in
  '(filter_block_handle, r) ← write_filter r;
  '(metaindex_block_handle, r) ← write_metaindex filter_block_handle r;
  '(index_block_handle, r) ← write_index r;
  r ← write_footer metaindex_block_handle index_block_handle r;
  Some (tb_status r, r).

Definition Abandon r : option Rep :=
  _ ← passert (negb (closed r));
  Some (set_closed r).

Definition NumEntries r : Z := num_entries r.
Definition FileSize r : Z := tb_offset r.

Fixpoint TableBuilder_add_all (es : list (list Z * list Z)) r : option Rep :=
  match es with
  | [] => Some r
  | (k, v) :: es => r ← TableBuilder_Add k v r; TableBuilder_add_all es r
  end.
End table_builder.

(** ** The layout of a table file *)
Definition Snappy_inverse (snappy : Snappy) : Prop := forall raw c, Forall is_byte raw ->
  Snappy_Compress snappy raw = Some c -> Forall is_byte c /\ decompress snappy c kSnappyCompression = Some raw.

Section layout.
Context (le : bool) (snappy : Snappy) (policy : option FilterPolicy) (opts : Options).
Notation N := (Z.to_nat (o_block_restart_interval opts)).

Definition pack (raw : list Z) : list Z * Z := compress_block snappy (o_compression opts) raw.
Definition stored_of (raw : list Z) : list Z := stored_block le (pack raw).1 (pack raw).2.

(** The data blocks; block [j] lies at [block_handle gs j]. *)
Definition stored_data (gs : list (list (list Z * list Z))) : list (list Z) :=
  (fun g => stored_of (block_bytes N le g)) <$> gs.
Definition block_handle (gs : list (list (list Z * list Z))) (j : nat) : BlockHandle :=
  mkHandle (off (stored_data gs) j) (zlen (pack (block_bytes N le (default [] (gs !! j)))).1).

Definition stored_filter (fc : option (list Z)) : list Z :=
  match fc with Some c => stored_block le c kNoCompression | None => [] end.

Definition policy_name : list Z := match policy with Some P => FP_Name | None => [] end.

Definition meta_entries (offset : Z) (fc : option (list Z)) : list (list Z * list Z) :=
  match fc with
  | Some c => [(filter_prefix ++ policy_name, handle_bytes (mkHandle offset (zlen c)))]
  | None => []
  end.

Definition table_footer (gs : list (list (list Z * list Z))) (idx : list (list Z * list Z)) (fc : option (list Z)) : Footer :=
  let d := concat (stored_data gs) in
  let meta := block_bytes N le (meta_entries (zlen d) fc) in
  let off_meta := zlen (d ++ stored_filter fc) in
  mkFooter (mkHandle off_meta (zlen (pack meta).1))
           (mkHandle (off_meta + zlen (stored_of meta)) (zlen (pack (block_bytes 1 le idx)).1)).

Definition table_bytes (gs : list (list (list Z * list Z))) (idx : list (list Z * list Z)) (fc : option (list Z)) : list Z :=
  let d := concat (stored_data gs) in
  d ++ stored_filter fc ++ stored_of (block_bytes N le (meta_entries (zlen d) fc)) ++
  stored_of (block_bytes 1 le idx) ++ footer_bytes (table_footer gs idx fc).

Context (Hsnappy : Snappy_inverse snappy) (Hcomp : o_compression opts = kNoCompression \/ o_compression opts = kSnappyCompression).

Lemma pack_facts raw : Forall is_byte raw ->
  Forall is_byte (pack raw).1 /\ is_byte (pack raw).2 /\ decompress snappy (pack raw).1 (pack raw).2 = Some raw /\
  zlen (pack raw).1 <= zlen raw.
Proof using Hsnappy Hcomp.
  intros Hr. unfold pack, compress_block.
  assert (Forall is_byte raw /\ is_byte kNoCompression /\ decompress snappy raw kNoCompression = Some raw /\ zlen raw <= zlen raw) as Hn
    by (split_and!; [done|done|done|lia]).
  destruct Hcomp as [-> | ->]; [done|].
  change (kSnappyCompression =? kNoCompression) with false. change (kSnappyCompression =? kSnappyCompression) with true.
  destruct (Snappy_Compress snappy raw) as [c|] eqn:E; [|done].
  destruct (Z.ltb_spec (zlen c) (zlen raw - zlen raw / 8)) as [Hlt|]; [|done].
  destruct (Hsnappy raw c Hr E) as [Hc Hd]. split_and!; [done|done|done|]. simpl. zdiv_lia.
Qed.

Lemma length_stored_of raw : Forall is_byte raw -> zlen (stored_of raw) <= zlen raw + 5.
Proof using Hsnappy Hcomp.
  intros Hr. destruct (pack_facts raw Hr) as (_ & _ & _ & Hl). unfold stored_of. rewrite length_stored.
  unfold kBlockTrailerSize. lia.
Qed.
End layout.

(** ** Writing *)
Section write.
Context (le : bool) (ptr : list Z -> Z) (snappy : Snappy) (opts : Options).
Context (Hptr : addresses ptr).
Implicit Types r : TBRep (list Z).

Lemma WriteRawBlock_spec contents type r : Forall is_byte contents -> is_byte type ->
  0 <= tb_offset r -> tb_offset r + zlen contents + 5 < 2 ^ 64 ->
  WriteRawBlock le ptr contents type r = Some (mkHandle (tb_offset r) (zlen contents),
    set_tb_file (tb_file r ++ stored_block le contents type) (tb_offset r + zlen (stored_block le contents type)) kOk r).
Proof using Hptr.
  intros Hc Ht H0 Hz. unfold WriteRawBlock. cbn [Append mem_WritableFile]. change (Status_ok kOk) with true.
  rewrite Value_crc by done. cbn [mbind option_bind].
  assert (fits_unsigned 32 (crc32c 0 contents)) by (apply crc32c_fits; [done|unfold fits_unsigned; lia]).
  rewrite Extend_crc by (done || by constructor). cbn [mbind option_bind]. rewrite crc32c_app.
  cbn [set_tb_file tb_offset tb_options]. rewrite length_stored. unfold kBlockTrailerSize in *.
  rewrite wrap_fits by (split; lia). unfold stored_block. by rewrite <-!app_assoc, Z.add_assoc.
Qed.

Lemma WriteBlock_spec block raw r : (Finish le block).1 = raw -> tb_options r = opts -> tb_status r = kOk ->
  Forall is_byte (pack snappy opts raw).1 -> is_byte (pack snappy opts raw).2 ->
  0 <= tb_offset r -> tb_offset r + zlen (pack snappy opts raw).1 + 5 < 2 ^ 64 ->
  WriteBlock le ptr snappy block r = Some (mkHandle (tb_offset r) (zlen (pack snappy opts raw).1), new_BlockBuilder,
    set_tb_file (tb_file r ++ stored_of le snappy opts raw) (tb_offset r + zlen (stored_of le snappy opts raw)) kOk r).
Proof using Hptr.
  intros Hr Ho Hs Hc Ht H0 Hz. unfold WriteBlock, ok. rewrite Hs. change (Status_ok kOk) with true.
  cbn [passert mbind option_bind]. destruct (Finish le block) as [raw' block']. simpl in Hr. subst raw'.
  rewrite Ho. fold (pack snappy opts raw). destruct (pack snappy opts raw) as [bc ty] eqn:E.
  rewrite WriteRawBlock_spec by done. cbn [mbind option_bind]. unfold stored_of. by rewrite E.
Qed.
End write.

(** Reads through the assignments to the fields. *)
Ltac tb_simpl :=
  cbn [set_pending set_data_block set_index_block set_last_key set_closed set_filter set_tb_file tb_options tb_file tb_offset
       tb_status data_block index_block tb_last_key num_entries closed filter_block pending_index_entry pending_handle].
Ltac tb_simpl_in H :=
  cbn [set_pending set_data_block set_index_block set_last_key set_closed set_filter set_tb_file tb_options tb_file tb_offset
       tb_status data_block index_block tb_last_key num_entries closed filter_block pending_index_entry pending_handle] in H.

(** ** Building *)
Section build.
Context (le : bool) (ptr : list Z -> Z) (snappy : Snappy).
Context {C : Comparator} {S : Separators C} (policy : option FilterPolicy) (opts : Options).
Context (Hptr : addresses ptr) (Hsnappy : Snappy_inverse snappy).
Context (Hcomp : o_compression opts = kNoCompression \/ o_compression opts = kSnappyCompression).
Context (Hint : 1 <= o_block_restart_interval opts).
Notation N := (Z.to_nat (o_block_restart_interval opts)).
Notation sd gs := (stored_data le snappy opts gs).
Notation handle_at := (block_handle le snappy opts).
Implicit Types (r : TBRep (list Z)) (gs : list (list (list Z * list Z))) (cur idx es : list (list Z * list Z)).

Definition fkey (k : list Z) : Prop := match policy with Some P => filter_key k | None => True end.
Definition per_key : Z := match policy with Some P => FP_per_key | None => 0 end.

(** What may be put in a table: increasing keys, up to about 2 GB. *)
Record entries_ok es : Prop := {
  eo_increasing : increasing es;
  eo_octets : octets_of es;
  eo_filter : Forall (fun e => fkey e.1) es;
  eo_size : wt (64 + per_key) es + 2 * zlen (policy_name policy) < 2 ^ 31;
}.

Lemma per_key_nonneg : 0 <= per_key.
Proof. unfold per_key. destruct policy; [apply FP_per_key_nonneg|done]. Qed.

Lemma entries_ok_app es es' : entries_ok (es ++ es') -> entries_ok es.
Proof.
  intros [H1 H2 H3 H4]. rewrite wt_app in H4. pose proof per_key_nonneg. pose proof (wt_nonneg (64 + per_key) es' ltac:(lia)).
  constructor; [by eapply increasing_app|by apply Forall_app in H2 as []|by apply Forall_app in H3 as []|lia].
Qed.

(** A key of the index is a separator of its block and the entries after it. *)
Record index_entry gs cur (j : nat) (sep h : list Z) : Prop := {
  ie_group : exists g e, gs !! j = Some g /\ last g = Some e /\ ~ klt sep e.1 /\ zlen sep <= zlen e.1 /\
    (forall k x, is_key k -> x ∈ concat (drop (Datatypes.S j) gs) ++ cur -> klt e.1 k -> ~ klt sep k -> ~ same k x.1);
  ie_handle : h = handle_bytes (handle_at gs j);
  ie_key : is_key sep;
  ie_below : Forall (fun x => klt sep x.1) (concat (drop (Datatypes.S j) gs) ++ cur);
  ie_octets : Forall is_byte sep;
}.
Definition index_ok gs cur idx : Prop := forall j e, idx !! j = Some e -> index_entry gs cur j e.1 e.2.

Definition filter_ok r gs cur : Prop :=
  match policy, filter_block r with
  | None, None => True
  | Some P, Some b => exists fgs fcur fs, fb_rep b fgs fcur fs /\ zlen fgs = tb_offset r / kFilterBase /\
      nkeys fgs fcur = zlen (concat gs ++ cur) /\
      (forall j g e, gs !! j = Some g -> e ∈ g -> e.1 ∈ keys_of fgs fcur (Z.to_nat (off (sd gs) j / kFilterBase))) /\
      (forall e, e ∈ cur -> e.1 ∈ keys_of fgs fcur (length fgs))
  | _, _ => False
  end.

Record TB_inv r gs cur idx : Prop := {
  ti_options : tb_options r = opts;
  ti_file : tb_file r = concat (sd gs);
  ti_offset : tb_offset r = zlen (concat (sd gs));
  ti_status : tb_status r = kOk;
  ti_closed : closed r = false;
  ti_data : Built N (data_block r) cur;
  ti_index : Built 1 (index_block r) idx;
  ti_last : tb_last_key r = default [] (fst <$> last (concat gs ++ cur));
  ti_num : num_entries r = zlen (concat gs ++ cur);
  ti_groups : Forall (fun g => g <> []) gs;
  ti_index_ok : index_ok gs cur idx;
  ti_filter : filter_ok r gs cur;
  ti_pending : if pending_index_entry r
    then cur = [] /\ length gs = Datatypes.S (length idx) /\ pending_handle r = handle_at gs (length idx)
    else length gs = length idx /\ (cur = [] -> gs = []);
}.

Lemma HN1 : (1 <= N)%nat.
Proof using Hint. lia. Qed.

Lemma Built_empty b es : Built N b es -> builder_empty b = bool_decide (es = []).
Proof.
  intros ->. unfold builder_empty. cbn [buffer_]. apply bool_decide_ext. split; [|by intros ->].
  destruct es as [|[k v] es]; [done|]. unfold chunks. cbn [chunks_from concat]. intros [E _]%app_eq_nil.
  pose proof (length_chunk N 0 [] k v) as H. rewrite E in H. simpl in H. lia.
Qed.

Lemma wt_le c d es : c <= d -> wt c es <= wt d es.
Proof. intros Hcd. replace d with (c + (d - c)) by lia. rewrite wt_add. nia. Qed.

(** Any part of the entries makes a block that fits. *)
Lemma group_size es g a b : entries_ok es -> es = a ++ g ++ b ->
  zlen (block_bytes N le g) <= wt 19 g + 8 /\ wt 19 g + 8 < 2 ^ 32 /\ small N g /\ Forall is_byte (block_bytes N le g).
Proof using Hint.
  intros [_ Ho _ Hz] ->. rewrite !wt_app in Hz. pose proof per_key_nonneg.
  pose proof (wt_nonneg (64 + per_key) a ltac:(lia)). pose proof (wt_nonneg (64 + per_key) b ltac:(lia)).
  pose proof (wt_le 19 (64 + per_key) g ltac:(lia)).
  assert (wt 19 g + 8 < 2 ^ 32) as Hw by lia. destruct (block_size N HN1 le g Hw) as (A1 & A2 & A3).
  split_and!; [done..|]. apply A3. by apply Forall_app in Ho as [_ [? _]%Forall_app].
Qed.

Lemma data_size gs cur : entries_ok (concat gs ++ cur) -> Forall (fun g => g <> []) gs ->
  zlen (concat (sd gs)) <= wt 32 (concat gs).
Proof using Hsnappy Hcomp Hint.
  intros He Hne. enough (forall n, (n <= length gs)%nat -> zlen (concat (take n (sd gs))) <= wt 32 (concat (take n gs))) as H.
  { specialize (H (length gs) ltac:(lia)). rewrite !take_ge in H; [done|lia|unfold stored_data; rewrite length_fmap; lia]. }
  induction n as [|n IH]; intros Hn; [done|]. destruct (lookup_lt_is_Some_2 gs n) as [g Hg]; [lia|].
  assert (sd gs !! n = Some (stored_of le snappy opts (block_bytes N le g))) as Hs by (unfold stored_data; by rewrite list_lookup_fmap, Hg).
  rewrite (take_S_r _ _ _ Hs), (take_S_r _ _ _ Hg), !concat_app, length_app, wt_app. simpl. rewrite !app_nil_r.
  destruct (group_size _ g (concat (take n gs)) (concat (drop (Datatypes.S n) gs) ++ cur) He) as (H1 & _ & _ & H2).
  { rewrite <-(take_drop_middle gs n g Hg) at 1. rewrite concat_app. simpl. by rewrite <-!app_assoc. }
  pose proof (length_stored_of le snappy opts Hsnappy Hcomp _ H2). specialize (IH ltac:(lia)).
  rewrite Forall_lookup in Hne. specialize (Hne n g Hg).
  pose proof (wt_add 19 13 g) as Hw. change (19 + 13) with 32 in Hw. destruct g as [|x g]; [done|]. simpl length in Hw. lia.
Qed.

Lemma group_split gs cur j g : gs !! j = Some g ->
  concat gs ++ cur = concat (take j gs) ++ g ++ concat (drop (Datatypes.S j) gs) ++ cur.
Proof.
  intros Hg. rewrite <-(take_drop_middle gs j g Hg) at 1. rewrite concat_app. simpl. by rewrite <-!app_assoc.
Qed.

Lemma handle_at_ok gs cur j g : entries_ok (concat gs ++ cur) -> Forall (fun g => g <> []) gs -> gs !! j = Some g ->
  handle_ok (handle_at gs j).
Proof using Hsnappy Hcomp Hint.
  intros He Hne Hg. pose proof (data_size gs cur He Hne) as Hd.
  destruct (group_size _ g _ _ He (group_split gs cur j g Hg)) as (H1 & H2 & _ & H3).
  destruct (pack_facts snappy opts Hsnappy Hcomp _ H3) as (_ & _ & _ & Hl).
  pose proof (off_nonneg (sd gs) j). pose proof (off_le (sd gs) j (j + length (sd gs)) ltac:(lia)) as Ho.
  rewrite (off_all (sd gs) (j + _)) in Ho by lia.
  destruct He as [_ _ _ Hz]. rewrite wt_app in Hz. pose proof per_key_nonneg.
  pose proof (wt_nonneg (64 + per_key) cur ltac:(lia)). pose proof (wt_le 32 (64 + per_key) (concat gs) ltac:(lia)).
  unfold handle_ok, block_handle. rewrite Hg. cbn [h_offset h_size default from_option id]. unfold ones64. lia.
Qed.

Lemma index_size gs cur idx : entries_ok (concat gs ++ cur) -> Forall (fun g => g <> []) gs -> index_ok gs cur idx ->
  wt 19 idx <= wt 64 (concat gs) /\ octets_of idx.
Proof using Hsnappy Hcomp Hint.
  intros He Hne Hi. split.
  - enough (forall n, (n <= length idx)%nat -> wt 19 (take n idx) <= wt 64 (concat (take n gs))) as H.
    { specialize (H (length idx) ltac:(lia)). rewrite take_ge in H by done. pose proof (wt_nonneg 64 (concat (drop (length idx) gs)) ltac:(lia)).
      rewrite <-(take_drop (length idx) gs), concat_app, wt_app. lia. }
    induction n as [|n IH]; intros Hn; [done|]. destruct (lookup_lt_is_Some_2 idx n) as [[sep h] Hx]; [lia|].
    destruct (Hi n _ Hx) as [(g & e & Hg & Hl & _ & Hsz & _) Eh _ _ _]. simpl in Eh, Hsz. subst h.
    rewrite (take_S_r _ _ _ Hx), (take_S_r _ _ _ Hg), concat_app, !wt_app. simpl. rewrite app_nil_r. specialize (IH ltac:(lia)).
    pose proof (length_handle_bytes _ (handle_at_ok gs cur n g He Hne Hg)) as Hh. unfold kMaxEncodedLength in Hh.
    destruct e as [k v]. pose proof (wt_in 64 g k v ltac:(lia)) as Hw. apply last_Some in Hl as [g' ->].
    rewrite elem_of_app in Hw. specialize (Hw ltac:(right; by apply list_elem_of_singleton)). simpl in *. lia.
  - apply Forall_lookup. intros j e Hx. destruct (Hi j e Hx) as [(g & e' & Hg & _) Eh _ _ Ho]. split; [done|].
    rewrite Eh. by apply handle_bytes_octets, (handle_at_ok gs cur j g).
Qed.

Lemma last_key gs cur j g e : entries_ok (concat gs ++ cur) -> gs !! j = Some g -> last g = Some e -> is_key e.1.
Proof.
  intros [Hinc _ _ _] Hg Hl. rewrite (group_split gs cur j g Hg) in Hinc.
  apply increasing_app_r, increasing_app in Hinc. rewrite last_lookup in Hl. by eapply increasing_key.
Qed.

Lemma index_increasing gs cur idx : entries_ok (concat gs ++ cur) -> index_ok gs cur idx -> increasing idx.
Proof.
  intros He Hi. apply increasing_intro.
  - intros i e Hx. by destruct (Hi i e Hx).
  - intros i j e e' Hij Hx Hy. destruct (Hi i e Hx) as [_ _ Hk Hb _]. destruct (Hi j e' Hy) as [(g & x & Hg & Hl & Hnl & _) _ Hk' _ _].
    pose proof (last_key gs cur j g x He Hg Hl) as Hxk. apply (klt_le_trans _ x.1); try done.
    rewrite Forall_forall in Hb. apply Hb, elem_of_app. left. apply list_elem_of_lookup. rewrite last_lookup in Hl.
    apply list_elem_of_lookup, list_elem_of_In, in_concat. exists g. split.
    + apply list_elem_of_In, list_elem_of_lookup. exists (j - Datatypes.S i)%nat. rewrite lookup_drop.
      by replace (Datatypes.S i + (j - Datatypes.S i))%nat with j by lia.
    + apply list_elem_of_In. by eapply list_elem_of_lookup_2.
Qed.

Lemma index_small gs cur idx : entries_ok (concat gs ++ cur) -> Forall (fun g => g <> []) gs -> index_ok gs cur idx ->
  wt 19 idx + 8 < 2 ^ 32.
Proof using Hsnappy Hcomp Hint.
  intros He Hne Hi. destruct (index_size gs cur idx He Hne Hi) as [Hw _]. destruct He as [_ _ _ Hz].
  rewrite wt_app in Hz. pose proof per_key_nonneg.
  pose proof (wt_nonneg (64 + per_key) cur ltac:(lia)). pose proof (wt_le 64 (64 + per_key) (concat gs) ltac:(lia)). lia.
Qed.

Lemma sd_app gs g : sd (gs ++ [g]) = sd gs ++ [stored_of le snappy opts (block_bytes N le g)].
Proof. unfold stored_data. by rewrite fmap_app. Qed.

Lemma length_sd gs : length (sd gs) = length gs.
Proof. unfold stored_data. by rewrite length_fmap. Qed.

Lemma off_sd_app gs g j : (j <= length gs)%nat -> off (sd (gs ++ [g])) j = off (sd gs) j.
Proof. intros Hj. rewrite sd_app. apply off_app. by rewrite length_sd. Qed.

Lemma handle_at_app gs g j : (j < length gs)%nat -> handle_at (gs ++ [g]) j = handle_at gs j.
Proof. intros Hj. unfold block_handle. by rewrite off_sd_app, lookup_app_l by lia. Qed.

Lemma handle_at_last gs g : handle_at (gs ++ [g]) (length gs) =
  mkHandle (zlen (concat (sd gs))) (zlen (pack snappy opts (block_bytes N le g)).1).
Proof.
  unfold block_handle. rewrite off_sd_app, off_all by (rewrite ?length_sd; lia). by rewrite list_lookup_middle.
Qed.

(** The filter moves on to the offset of the next block. *)
Lemma filter_start r r1 gs cur : filter_ok r gs cur -> filter_block r1 = filter_block r ->
  tb_offset r = zlen (concat (sd gs)) -> tb_offset r1 = zlen (concat (sd (gs ++ [cur]))) ->
  exists b, on_filter policy (fun P => StartBlock (tb_offset r1)) r1 = Some (set_filter b r1) /\
    filter_ok (set_filter b r1) (gs ++ [cur]) [].
Proof.
  intros Hf Hb Ho Ho1. unfold on_filter, filter_ok in *. rewrite Hb.
  destruct policy as [P|], (filter_block r) as [b|] eqn:Eb; try done.
  2:{ exists None. split; [|done]. destruct r1; simpl in *. by subst. }
  destruct Hf as (fgs & fcur & fs & Hrep & Hn & Hk & Hg & Hc).
  assert (tb_offset r <= tb_offset r1) as Hle by (rewrite Ho, Ho1, sd_app, concat_app, length_app; lia).
  destruct (StartBlock_spec b fgs fcur fs (tb_offset r1) Hrep) as (b' & fgs' & fcur' & fs' & -> & Hrep' & Hn' & Hk' & _ & Hm).
  { rewrite Hn. by apply Z.div_le_mono. }
  cbn [mbind option_bind]. exists (Some b'). split; [done|]. cbn [filter_block set_filter tb_offset].
  exists fgs', fcur', fs'. split; [done|]. split; [done|]. split; [|split; [|by intros ? ?%elem_of_nil]].
  - rewrite Hk', Hk, concat_app. simpl. by rewrite !app_nil_r.
  - intros j g e Hj He. apply Hm. apply lookup_app_Some in Hj as [Hj|[Hlen Hj]].
    + rewrite off_sd_app by (apply lookup_lt_Some in Hj; lia). by apply (Hg j g).
    + apply list_lookup_singleton_Some in Hj as [Hj <-]. replace j with (length gs) by lia.
      rewrite off_sd_app, off_all by (rewrite ?length_sd; lia). rewrite <-Ho, <-Hn, Nat2Z.id. by apply Hc.
Qed.

Lemma index_ok_flush gs cur idx : (length idx <= length gs)%nat -> index_ok gs cur idx -> index_ok (gs ++ [cur]) [] idx.
Proof.
  intros Hl Hi j e Hx. apply lookup_lt_Some in Hx as Hj. destruct (Hi j e Hx) as [(g & x & Hg & Hr) Hh Hk Hb Ho]. constructor; try done.
  - exists g, x. rewrite lookup_app_l, drop_app_le, concat_app by lia. simpl. by rewrite !app_nil_r.
  - by rewrite handle_at_app by lia.
  - rewrite drop_app_le, concat_app by lia. simpl. by rewrite !app_nil_r.
Qed.

Lemma total_size gs cur : entries_ok (concat gs ++ cur) -> Forall (fun g => g <> []) gs ->
  0 <= zlen (concat (sd gs)) < 2 ^ 31.
Proof using Hsnappy Hcomp Hint.
  intros He Hne. pose proof (data_size gs cur He Hne) as Hd. destruct He as [_ _ _ Hz].
  rewrite wt_app in Hz. pose proof per_key_nonneg.
  pose proof (wt_nonneg (64 + per_key) cur ltac:(lia)). pose proof (wt_le 32 (64 + per_key) (concat gs) ltac:(lia)). lia.
Qed.

Lemma Flush_spec r gs cur idx : entries_ok (concat gs ++ cur) -> TB_inv r gs cur idx -> cur <> [] ->
  exists r', TableBuilder_Flush le ptr snappy policy r = Some r' /\ TB_inv r' (gs ++ [cur]) [] idx.
Proof using Hptr Hsnappy Hcomp Hint.
  intros He [I1 I2 I3 I4 I5 I6 I7 I8 I9 I10 I11 I12 I13] Hne. unfold TableBuilder_Flush, ok. rewrite I5, I4.
  change (Status_ok kOk) with true. cbn [negb passert mbind option_bind].
  rewrite (Built_empty _ _ I6), bool_decide_false by done.
  destruct (pending_index_entry r) eqn:Ep; [by destruct I13 as [-> _]|]. destruct I13 as [Hlen _]. cbn [negb passert mbind option_bind].
  destruct (group_size _ cur (concat gs) [] He) as (S1 & S2 & S3 & S4); [by rewrite app_nil_r|].
  pose proof (total_size gs cur He I10) as Hd. destruct (pack_facts snappy opts Hsnappy Hcomp _ S4) as (P1 & P2 & _ & P4).
  rewrite (WriteBlock_spec le ptr snappy opts Hptr (data_block r) (block_bytes N le cur) r); try done; try lia.
  2:{ pose proof HN1 as HN'. apply Finish_spec; [done..|]. pose proof (length_rpoints_le N HN1 cur). pose proof (wt_add 18 1 cur) as Hw.
      change (18 + 1) with 19 in Hw. pose proof (wt_nonneg 18 cur ltac:(lia)). lia. }
  cbn [mbind option_bind]. tb_simpl. change (Status_ok kOk) with true. cbn [LdbBase.Flush mem_WritableFile]. tb_simpl.
  match goal with |- exists r', on_filter _ _ ?r1 = _ /\ _ =>
    destruct (filter_start r r1 gs cur I12 eq_refl I3) as (b & E & Hf) end.
  { tb_simpl. rewrite I3, sd_app, concat_app, length_app. simpl. rewrite app_nil_r. lia. }
  tb_simpl_in E. rewrite E. eexists. split; [done|]. constructor; tb_simpl; try done.
  - rewrite I2, sd_app, concat_app. simpl. by rewrite app_nil_r.
  - rewrite I3, sd_app, concat_app, length_app. simpl. rewrite app_nil_r. lia.
  - rewrite concat_app. simpl. by rewrite !app_nil_r.
  - rewrite concat_app. simpl. by rewrite !app_nil_r.
  - apply Forall_app. auto.
  - apply index_ok_flush; [lia|done].
  - split; [done|]. rewrite length_app. simpl. split; [lia|]. by rewrite <-Hlen, handle_at_last, I3.
Qed.

Lemma last_below es k v e : increasing (es ++ [(k, v)]) -> last es = Some e -> klt e.1 k /\ is_key e.1 /\ is_key k.
Proof.
  intros Hi Hl. apply last_Some in Hl as [es' ->].
  assert (((es' ++ [e]) ++ [(k, v)]) !! length es' = Some e) as E1 by (rewrite <-app_assoc; by apply list_lookup_middle).
  assert (((es' ++ [e]) ++ [(k, v)]) !! length (es' ++ [e]) = Some (k, v)) as E2 by (by apply list_lookup_middle).
  split_and!; [|by apply (increasing_key _ _ _ Hi E1)|by apply (increasing_key _ _ _ Hi E2)].
  apply (increasing_lookup _ _ _ _ _ Hi E1 E2). rewrite length_app. simpl. lia.
Qed.

Lemma concat_nonempty gs : Forall (fun g => g <> []) gs -> concat gs = [] -> gs = [].
Proof. intros Hg. destruct Hg as [|g gs H _]; [done|]. simpl. by intros [? _]%app_eq_nil. Qed.

(** Another entry comes after the separators that are there. *)
Lemma index_ok_extend gs cur idx k v : entries_ok (concat gs ++ cur ++ [(k, v)]) -> Forall (fun g => g <> []) gs ->
  index_ok gs cur idx -> (length idx < length gs)%nat \/ cur <> [] \/ idx = [] -> index_ok gs (cur ++ [(k, v)]) idx.
Proof.
  intros He Hne Hi Hc j e Hx. destruct (Hi j e Hx) as [(g & el & Hg & Hle & Hn & Hsz & Hsame) Hh Hk Hb Ho].
  set (rest := concat (drop (Datatypes.S j) gs) ++ cur) in *.
  assert (concat gs ++ cur = concat (take (Datatypes.S j) gs) ++ rest) as Er.
  { subst rest. by rewrite app_assoc, <-concat_app, take_drop. }
  assert (rest <> []) as Hr.
  { intros E. subst rest. apply app_eq_nil in E as [E ->]. destruct Hc as [Hlt|[? | ->]]; [|done..].
    apply concat_nonempty in E; [|by apply Forall_drop]. apply lookup_lt_Some in Hx.
    apply (f_equal length) in E. rewrite length_drop in E. simpl in E. lia. }
  destruct (last rest) as [x|] eqn:Hl; [|by apply last_None in Hl].
  destruct He as [Hinc _ _ _]. rewrite app_assoc, Er in Hinc.
  destruct (last_below (concat (take (Datatypes.S j) gs) ++ rest) k v x) as (H1 & H2 & H3); [done|by rewrite last_app, Hl|].
  assert (x ∈ rest) as Hin by (rewrite last_lookup in Hl; by eapply list_elem_of_lookup_2).
  assert (klt e.1 x.1) as Hex by (rewrite Forall_forall in Hb; by apply Hb).
  constructor; try done.
  - exists g, el. split_and!; [done..|]. rewrite app_assoc. fold rest. intros q y Hq [Hy|Hy]%elem_of_app Hlt Hns; [by eapply Hsame|].
    apply list_elem_of_singleton in Hy as ->. simpl. intros Hs. apply (Hsame q x Hq Hin Hlt Hns).
    apply (same_convex q k x.1); [done..| |done]. by apply (le_klt_trans q e.1 x.1).
  - rewrite app_assoc. apply Forall_app. split; [done|]. constructor; [|done]. by apply (klt_trans _ x.1).
Qed.

(** The index entry of the last block. *)
Lemma add_index_entry_spec r gs cur' idx sep e g : entries_ok (concat gs ++ cur') -> Forall (fun g => g <> []) gs ->
  Built 1 (index_block r) idx -> index_ok gs cur' idx -> length gs = Datatypes.S (length idx) ->
  pending_handle r = handle_at gs (length idx) -> gs !! length idx = Some g -> last g = Some e ->
  is_key sep -> ~ klt sep e.1 -> zlen sep <= zlen e.1 -> Forall (fun x => klt sep x.1) cur' -> Forall is_byte sep ->
  (forall k x, is_key k -> x ∈ cur' -> klt e.1 k -> ~ klt sep k -> ~ same k x.1) ->
  let idx' := idx ++ [(sep, handle_bytes (handle_at gs (length idx)))] in
  exists b, add_index_entry sep r = Some (set_pending false (pending_handle r) (set_index_block b (set_last_key sep (num_entries r) r))) /\
    Built 1 b idx' /\ index_ok gs cur' idx'.
Proof using Hsnappy Hcomp Hint.
  intros He Hne Hb Hi Hl Hp Hg Hlast Hk Hnk Hsz Hbel Ho Hsame idx'.
  assert (index_ok gs cur' idx') as Hi'.
  { intros j x Hx. subst idx'. apply lookup_app_Some in Hx as [Hx|[Hlen Hx]]; [by apply Hi|].
    apply list_lookup_singleton_Some in Hx as [Hj <-]. replace j with (length idx) by lia. constructor; simpl; try done.
    - exists g, e. rewrite drop_ge by lia. done.
    - by rewrite drop_ge by lia. }
  unfold add_index_entry. rewrite Hp, BlockHandle_EncodeTo_spec by (by eapply handle_at_ok). cbn [mbind option_bind app].
  destruct (block_size 1 ltac:(lia) le idx' (index_small gs cur' idx' He Hne Hi')) as (_ & Hsm & _).
  destruct (Add_spec 1 ltac:(lia) (index_block r) idx sep (handle_bytes (handle_at gs (length idx))) Hb) as (b & E & Hb').
  { by eapply index_increasing. } { done. }
  change (Z.of_nat 1) with 1 in E. rewrite E. cbn [mbind option_bind]. exists b. done.
Qed.

Lemma filter_add r gs cur k v r1 : entries_ok (concat gs ++ cur ++ [(k, v)]) -> filter_ok r gs cur ->
  filter_block r1 = filter_block r -> tb_offset r1 = tb_offset r ->
  exists b, on_filter policy (fun P b => Some (AddKey k b)) r1 = Some (set_filter b r1) /\
    (forall r2, filter_block r2 = b -> tb_offset r2 = tb_offset r -> filter_ok r2 gs (cur ++ [(k, v)])).
Proof.
  intros [_ _ Hfk Hz] Hf Hb Ho. unfold on_filter, filter_ok in *. rewrite Hb.
  destruct policy as [P|] eqn:EP, (filter_block r) as [b|] eqn:Eb; try done.
  2:{ exists None. split; [|by intros r2 ->]. destruct r1; simpl in *. by subst. }
  destruct Hf as (fgs & fcur & fs & Hrep & Hn & Hk & Hg & Hc). cbn [mbind option_bind].
  exists (Some (AddKey k b)). split; [done|]. intros r2 -> ->. exists fgs, (fcur ++ [k]), fs.
  unfold fkey in Hfk. rewrite EP in Hfk. rewrite app_assoc in Hfk, Hz.
  assert (nkeys fgs fcur * 64 < 2 ^ 31) as Hnk.
  { rewrite wt_app in Hz. pose proof per_key_nonneg as Hp. pose proof (wt_add (64 + per_key - 64) 64 (concat gs ++ cur)) as Hw.
    replace (64 + per_key - 64 + 64) with (64 + per_key) in Hw by lia. pose proof (wt_nonneg (64 + per_key - 64) (concat gs ++ cur) ltac:(lia)).
    pose proof (wt_nonneg (64 + per_key) [(k, v)] ltac:(lia)). lia. }
  split_and!; [|done| | |].
  - apply AddKey_spec; [done| |unfold nkeys in Hnk; lia]. by apply Forall_app in Hfk as [_ [? _]%Forall_cons].
  - unfold nkeys in *. rewrite (length_app fcur), app_assoc, length_app. simpl. lia.
  - intros j g e Hj He. by apply keys_of_app, (Hg j g).
  - intros e [He|He]%elem_of_app; [by apply keys_of_app, Hc|]. apply list_elem_of_singleton in He as ->.
    apply keys_of_cur, elem_of_app. right. by apply list_elem_of_singleton.
Qed.

(** The pending index entry, if there is one, is written before the key. *)
Lemma add_pending r gs cur idx k v : entries_ok (concat gs ++ cur ++ [(k, v)]) -> TB_inv r gs cur idx ->
  exists b1 lk1 idx1, (if pending_index_entry r then
      _ ← passert (builder_empty (data_block r));
      sep ← FindShortestSeparator (tb_last_key r) k;
      add_index_entry sep r
    else Some r) =
      Some (set_pending false (pending_handle r) (set_index_block b1 (set_last_key lk1 (num_entries r) r))) /\
    Built 1 b1 idx1 /\ index_ok gs (cur ++ [(k, v)]) idx1 /\ length gs = length idx1.
Proof using Hsnappy Hcomp Hint.
  intros He [I1 I2 I3 I4 I5 I6 I7 I8 I9 I10 I11 I12 I13]. destruct (pending_index_entry r) eqn:Ep.
  - destruct I13 as (-> & Hl & Hp). rewrite (Built_empty _ _ I6), bool_decide_true by done. cbn [passert mbind option_bind].
    destruct (lookup_lt_is_Some_2 gs (length idx)) as [g Hg]; [lia|]. pose proof I10 as Hne. rewrite Forall_lookup in Hne.
    destruct (last g) as [e|] eqn:Hlast; [|apply last_None in Hlast; by destruct (Hne _ _ Hg)].
    assert (last (concat gs) = Some e) as Hle.
    { rewrite <-(app_nil_r (concat gs)), (group_split gs [] _ g Hg), drop_ge by lia. simpl. by rewrite app_nil_r, last_app, Hlast. }
    rewrite app_nil_r in I8. rewrite Hle in I8. simpl in I8. destruct e as [ek ev]. simpl in *.
    destruct (last_below (concat gs) k v (ek, ev)) as (H1 & H2 & H3); [by apply He|done|]. simpl in *.
    rewrite I8. destruct (FindShortestSeparator_spec ek k H2 H3 H1) as (sep & -> & Hk & Hn & Hb & Hz & Ho & Hsame). cbn [mbind option_bind].
    assert (Forall is_byte ek /\ Forall is_byte k) as [Hoe Hok].
    { destruct He as [_ Hoct _ _]. apply Forall_app in Hoct as [Ho1 [[Hkv _] _]%Forall_cons]. split; [|done].
      apply last_Some in Hle as [l E]. rewrite E in Ho1. by apply Forall_app in Ho1 as [_ [[? _] _]%Forall_cons]. }
    destruct (add_index_entry_spec r gs [(k, v)] idx sep (ek, ev) g) as (b & -> & Hbi & Hio); try done.
    { apply (index_ok_extend gs [] idx k v); [done..|]. left. lia. } { by constructor. } { by apply Ho. }
    { intros q x Hq Hx. apply list_elem_of_singleton in Hx as ->. by apply Hsame. }
    eexists b, sep, _. split; [done|]. split_and!; [done|done|rewrite length_app; simpl; lia].
  - destruct I13 as [Hl Hc]. exists (index_block r), (tb_last_key r), idx. split; [|split_and!; [done| |done]].
    + destruct r; simpl in *. by rewrite Ep.
    + apply index_ok_extend; [done..|]. destruct cur; [|by right; left]. right. right. apply nil_length_inv.
      rewrite <-Hl. by rewrite Hc.
Qed.

Lemma TableBuilder_Add_spec r gs cur idx k v : entries_ok (concat gs ++ cur ++ [(k, v)]) -> TB_inv r gs cur idx ->
  exists r' gs' cur' idx', TableBuilder_Add le ptr snappy policy k v r = Some r' /\ TB_inv r' gs' cur' idx' /\
    concat gs' ++ cur' = concat gs ++ cur ++ [(k, v)].
Proof using Hptr Hsnappy Hcomp Hint.
  intros He Hinv. destruct (add_pending r gs cur idx k v He Hinv) as (b1 & lk1 & idx1 & E1 & Hb1 & Hi1 & Hl1).
  destruct Hinv as [I1 I2 I3 I4 I5 I6 I7 I8 I9 I10 I11 I12 I13].
  unfold TableBuilder_Add, ok. rewrite I5, I4. change (Status_ok kOk) with true. cbn [negb passert mbind option_bind].
  assert ((if 0 <? num_entries r then c ← Compare k (tb_last_key r); passert (0 <? c) else Some tt) = Some tt) as ->.
  { rewrite I9. destruct (Z.ltb_spec 0 (zlen (concat gs ++ cur))) as [Hpos|]; [|done].
    destruct (last (concat gs ++ cur)) as [e|] eqn:Hl; [|apply last_None in Hl; rewrite Hl in Hpos; simpl in Hpos; lia].
    destruct He as [Hinc _ _ _]. rewrite app_assoc in Hinc. destruct (last_below _ k v e Hinc Hl) as (H1 & H2 & H3).
    destruct (klt_flip _ _ H2 H3 H1) as (c & Ec & Hc). rewrite I8. simpl. rewrite Ec. cbn [mbind option_bind].
    by rewrite (proj2 (Z.ltb_lt 0 c)). }
  cbn [mbind option_bind]. rewrite E1. cbn [mbind option_bind].
  match goal with |- context [on_filter _ _ ?x] => destruct (filter_add r gs cur k v x He I12 eq_refl eq_refl) as (b & -> & Hf) end.
  cbn [mbind option_bind].
  destruct (group_size _ (cur ++ [(k, v)]) (concat gs) [] He) as (_ & _ & Hsm & _); [by rewrite app_nil_r|].
  destruct (Add_spec N HN1 (data_block r) cur k v I6) as (bb & Ebb & Hbb);
    [by destruct He as [Hinc%increasing_app_r _ _ _]|done|].
  rewrite Z2Nat.id in Ebb by lia. tb_simpl. rewrite I1, Ebb. cbn [mbind option_bind].
  match goal with |- context [TableBuilder_Flush _ _ _ _ ?x] => set (r2 := x) end.
  assert (TB_inv r2 gs (cur ++ [(k, v)]) idx1) as Hinv2.
  { subst r2. constructor; tb_simpl; try done.
    - rewrite app_assoc, last_snoc. done.
    - rewrite I9, app_assoc, (length_app (concat gs ++ cur)). simpl. lia.
    - by apply Hf.
    - split; [done|]. by destruct cur. }
  destruct (_ <=? _).
  - destruct (Flush_spec r2 gs (cur ++ [(k, v)]) idx1 He Hinv2) as (r3 & E3 & Hinv3); [by destruct cur|].
    exists r3, (gs ++ [cur ++ [(k, v)]]), [], idx1. split; [done|]. split; [done|].
    rewrite concat_app. simpl. by rewrite !app_nil_r.
  - exists r2, gs, (cur ++ [(k, v)]), idx1. done.
Qed.

Lemma new_TableBuilder_spec : exists r, new_TableBuilder policy opts [] = Some r /\ TB_inv r [] [] [].
Proof using Hint.
  unfold new_TableBuilder, on_filter. destruct policy as [P|] eqn:EP; tb_simpl.
  - destruct (StartBlock_spec new_FilterBlockBuilder [] [] [] 0 new_FilterBlockBuilder_rep)
      as (b & fgs & fcur & fs & -> & Hrep & Hn & Hk & _); [done|]. cbn [mbind option_bind].
    eexists. split; [done|]. constructor; tb_simpl; try done. unfold filter_ok. rewrite EP. tb_simpl.
    exists fgs, fcur, fs. split_and!; [done|done|done| |]; [by intros ? ? ? ?|by intros ? ?%elem_of_nil].
  - eexists. split; [done|]. constructor; tb_simpl; try done. unfold filter_ok. by rewrite EP.
Qed.

Lemma TableBuilder_add_all_spec es : forall r gs cur idx, entries_ok (concat gs ++ cur ++ es) -> TB_inv r gs cur idx ->
  exists r' gs' cur' idx', TableBuilder_add_all le ptr snappy policy es r = Some r' /\ TB_inv r' gs' cur' idx' /\
    concat gs' ++ cur' = concat gs ++ cur ++ es.
Proof using Hptr Hsnappy Hcomp Hint.
  induction es as [|[k v] es IH]; intros r gs cur idx He Hinv; cbn [TableBuilder_add_all].
  - exists r, gs, cur, idx. by rewrite app_nil_r.
  - assert (concat gs ++ cur ++ (k, v) :: es = (concat gs ++ cur ++ [(k, v)]) ++ es) as E by (by rewrite <-!app_assoc).
    rewrite E in He |- *. destruct (TableBuilder_Add_spec r gs cur idx k v) as (r1 & gs1 & cur1 & idx1 & -> & Hinv1 & E1);
      [by eapply entries_ok_app|done|]. cbn [mbind option_bind]. rewrite <-E1, <-app_assoc in He |- *. by eapply IH.
Qed.

(** A table file and what its index and filter promise. *)
Record table_ok gs idx (fc : option (list Z)) : Prop := {
  to_entries : entries_ok (concat gs);
  to_groups : Forall (fun g => g <> []) gs;
  to_index : index_ok gs [] idx;
  to_length : length idx = length gs;
  to_filter : match policy, fc with
    | None, None => True
    | Some P, Some c => Forall is_byte c /\ zlen c < 2 ^ 32 /\
        (forall le', exists fr, new_FilterBlockReader le' c = Some fr /\
          (forall o k, 0 <= o -> filter_key k -> is_Some (Reader_KeyMayMatch le' fr o k)) /\
          forall j g e, gs !! j = Some g -> e ∈ g -> Reader_KeyMayMatch le' fr (off (sd gs) j) e.1 = Some true)
    | _, _ => False
    end;
}.

Lemma entries_total es : entries_ok es -> 0 <= wt 64 es + per_key * zlen es /\ wt 64 es + per_key * zlen es < 2 ^ 31 /\
  zlen (policy_name policy) < 2 ^ 30.
Proof.
  intros [_ _ _ Hz]. rewrite wt_add in Hz. pose proof per_key_nonneg. pose proof (wt_nonneg 64 es ltac:(lia)). nia.
Qed.

Lemma write_filter_spec r gs idx : entries_ok (concat gs) -> TB_inv r gs [] idx ->
  exists fc b h, write_filter le ptr policy (set_closed r) =
      Some (h, set_tb_file (concat (sd gs) ++ stored_filter le fc) (zlen (concat (sd gs) ++ stored_filter le fc)) kOk
                 (set_filter b (set_closed r))) /\
    (forall c, fc = Some c -> h = mkHandle (zlen (concat (sd gs))) (zlen c)) /\
    match policy with Some _ => is_Some b /\ is_Some fc | None => b = None /\ fc = None end /\
    match policy, fc with
    | None, None => True
    | Some P, Some c => Forall is_byte c /\ zlen c < 2 ^ 32 /\
        (forall le', exists fr, new_FilterBlockReader le' c = Some fr /\
          (forall o k, 0 <= o -> filter_key k -> is_Some (Reader_KeyMayMatch le' fr o k)) /\
          forall j g e, gs !! j = Some g -> e ∈ g -> Reader_KeyMayMatch le' fr (off (sd gs) j) e.1 = Some true)
    | _, _ => False
    end.
Proof using Hptr Hsnappy Hcomp Hint.
  intros He [I1 I2 I3 I4 I5 I6 I7 I8 I9 I10 I11 I12 I13]. pose proof (data_size gs [] ltac:(by rewrite app_nil_r) I10) as Hd.
  pose proof (entries_total _ He) as (He1 & He2 & _). unfold write_filter, filter_ok, per_key in *. tb_simpl.
  destruct policy as [P|] eqn:EP, (filter_block r) as [b|] eqn:Eb; try done.
  - destruct I12 as (fgs & fcur & fs & Hrep & Hn & Hk & Hg & _). unfold ok. tb_simpl. rewrite I4. change (Status_ok kOk) with true.
    rewrite app_nil_r in Hk. destruct (filter_block_reads le le b fgs fcur fs Hrep) as (c & b' & Ec & Hoc & Hlc & _).
    rewrite Ec. cbn [mbind option_bind]. rewrite Hk, Hn, I3 in Hlc.
    pose proof (wt_le 32 64 (concat gs) ltac:(lia)) as Hwl. pose proof FP_per_key_nonneg as Hpk.
    assert (0 <= FP_per_key * zlen (concat gs)) as Hpn by nia.
    assert (zlen c < 2 ^ 32) as Hlc'.
    { change kFilterBase with 2048 in Hlc. zdiv_lia. }
    rewrite WriteRawBlock_spec; [|done|done|done|tb_simpl; rewrite I3; lia|tb_simpl; rewrite I3; lia].
    exists (Some c), (Some b'). eexists. split; [|split; [|split; [by split; eexists|]]].
    + tb_simpl. rewrite I2, I3, length_app, Nat2Z.inj_add. done.
    + by intros c' [= <-].
    + split; [done|]. split; [done|]. intros le'.
      destruct (filter_block_reads le le' b fgs fcur fs Hrep) as (c' & b'' & Ec' & _ & _ & Hr). rewrite Ec in Ec'. injection Ec' as <- <-.
      destruct (Hr Hlc') as (fr & Efr & Ht & Hm). exists fr. split; [done|]. split; [done|]. intros j g e Hj Hin. apply Hm; [apply off_nonneg|]. by apply (Hg j g).
  - exists None, None, new_BlockHandle. split_and!; [|done|done|done|done]. unfold stored_filter. rewrite app_nil_r, <-I2, <-I4.
    rewrite I2, <-I3, <-I2. destruct r; simpl in *. by subst.
Qed.

Lemma write_built M b es r f : (1 <= M)%nat -> Built M b es -> wt 19 es + 8 < 2 ^ 32 -> octets_of es ->
  tb_file r = f -> tb_offset r = zlen f -> zlen f < 2 ^ 40 -> tb_options r = opts -> tb_status r = kOk ->
  let raw := block_bytes M le es in
  WriteBlock le ptr snappy b r = Some (mkHandle (zlen f) (zlen (pack snappy opts raw).1), new_BlockBuilder,
    set_tb_file (f ++ stored_of le snappy opts raw) (zlen (f ++ stored_of le snappy opts raw)) kOk r) /\
  zlen (stored_of le snappy opts raw) <= 2 ^ 32 + 5 /\ zlen (pack snappy opts raw).1 <= 2 ^ 32.
Proof using Hptr Hsnappy Hcomp.
  intros HM Hb Hw Ho Hf Hoff Hz Hopt Hst raw. destruct (block_size M HM le es Hw) as (H1 & _ & H3). specialize (H3 Ho).
  destruct (pack_facts snappy opts Hsnappy Hcomp raw H3) as (P1 & P2 & _ & P4).
  pose proof (length_stored_of le snappy opts Hsnappy Hcomp raw H3). unfold raw in *. split; [|lia].
  rewrite (WriteBlock_spec le ptr snappy opts Hptr b (block_bytes M le es) r); try done; try lia.
  - rewrite Hf, Hoff, length_app, Nat2Z.inj_add. done.
  - apply Finish_spec; [done..|]. pose proof (length_rpoints_le M HM es). pose proof (wt_add 18 1 es) as Hw'.
    change (18 + 1) with 19 in Hw'. pose proof (wt_nonneg 18 es ltac:(lia)). lia.
Qed.

Lemma meta_entries_size offset fc : zlen (policy_name policy) < 2 ^ 30 -> 0 <= offset < 2 ^ 41 ->
  (forall c, fc = Some c -> zlen c < 2 ^ 32) ->
  wt 19 (meta_entries policy offset fc) + 8 < 2 ^ 32 /\ octets_of (meta_entries policy offset fc).
Proof.
  intros Hn Ho Hfc. unfold meta_entries. destruct fc as [c|]; [|by split; [|constructor]]. specialize (Hfc c eq_refl).
  assert (handle_ok (mkHandle offset (zlen c))) as Hok by (unfold handle_ok, ones64; simpl; lia). split.
  - pose proof (length_handle_bytes _ Hok) as Hl. unfold kMaxEncodedLength in Hl. cbn [wt]. rewrite length_app.
    change (length filter_prefix) with 7%nat. lia.
  - constructor; [|done]. split; [|by apply handle_bytes_octets]. apply Forall_app. split.
    + apply (bool_decide_unpack (Forall is_byte filter_prefix)). by vm_compute.
    + unfold policy_name. destruct policy; [apply FP_Name_octets|done].
Qed.

Lemma meta_built r offset fc h : zlen (policy_name policy) < 2 ^ 30 -> 0 <= offset < 2 ^ 40 ->
  (forall c, fc = Some c -> h = mkHandle offset (zlen c) /\ zlen c < 2 ^ 32) -> tb_options r = opts ->
  match policy with Some _ => is_Some (filter_block r) /\ is_Some fc | None => filter_block r = None /\ fc = None end ->
  exists meta, (match policy, filter_block r with
      | Some P, Some _ =>
          handle_encoding ← BlockHandle_EncodeTo h [];
          Add (o_block_restart_interval (tb_options r)) new_BlockBuilder (filter_prefix ++ FP_Name) handle_encoding
      | _, _ => Some new_BlockBuilder end) = Some meta /\
    Built N meta (meta_entries policy offset fc) /\
    wt 19 (meta_entries policy offset fc) + 8 < 2 ^ 32 /\ octets_of (meta_entries policy offset fc).
Proof using Hint.
  intros Hn Ho Hh Hopt Hf. destruct (meta_entries_size offset fc Hn ltac:(lia)) as [Hw Hoct]; [by intros c [_ ?]%Hh|].
  unfold meta_entries, policy_name in *. destruct policy as [P|].
  - destruct Hf as [[b ->] [c ->]]. destruct (Hh c eq_refl) as [-> Hc].
    rewrite BlockHandle_EncodeTo_spec by (unfold handle_ok, ones64; simpl; lia). cbn [mbind option_bind app].
    destruct (Add_first N HN1 C _ _ Hw) as (meta & E & Hb). rewrite Z2Nat.id in E by lia.
    exists meta. rewrite Hopt. done.
  - destruct Hf as [_ ->]. exists new_BlockBuilder. split_and!; [done|apply Built_new|done|constructor].
Qed.

Lemma write_index_spec r gs idx f : entries_ok (concat gs) -> Forall (fun g => g <> []) gs ->
  tb_file r = f -> tb_offset r = zlen f -> zlen f < 2 ^ 40 -> tb_options r = opts -> tb_status r = kOk ->
  Built 1 (index_block r) idx -> index_ok gs [] idx ->
  tb_last_key r = default [] (fst <$> last (concat gs)) ->
  (if pending_index_entry r then length gs = Datatypes.S (length idx) /\ pending_handle r = handle_at gs (length idx)
   else length gs = length idx) ->
  exists idx' r', let raw := block_bytes 1 le idx' in
    write_index le ptr snappy r = Some (mkHandle (zlen f) (zlen (pack snappy opts raw).1), r') /\
    tb_file r' = f ++ stored_of le snappy opts raw /\ tb_offset r' = zlen (f ++ stored_of le snappy opts raw) /\
    tb_status r' = kOk /\ num_entries r' = num_entries r /\ index_ok gs [] idx' /\ length idx' = length gs.
Proof using Hptr Hsnappy Hcomp Hint.
  intros He Hne Hf Hoff Hz Hopt Hst Hb Hi Hlk Hp. unfold write_index, ok. rewrite Hst. change (Status_ok kOk) with true.
  assert (entries_ok (concat gs ++ [])) as He' by (by rewrite app_nil_r).
  assert (exists idx' b' lk', (if pending_index_entry r then succ ← FindShortSuccessor (tb_last_key r); add_index_entry succ r else Some r) =
      Some (set_pending false (pending_handle r) (set_index_block b' (set_last_key lk' (num_entries r) r))) /\
    Built 1 b' idx' /\ index_ok gs [] idx' /\ length idx' = length gs) as (idx' & b' & lk' & -> & Hb' & Hi' & Hl').
  { destruct (pending_index_entry r) eqn:Ep.
    - destruct Hp as [Hl Hph]. destruct (lookup_lt_is_Some_2 gs (length idx)) as [g Hg]; [lia|].
      destruct (last g) as [e|] eqn:Hlast; [|apply last_None in Hlast; rewrite Forall_lookup in Hne; by destruct (Hne _ _ Hg)].
      assert (last (concat gs) = Some e) as Hle.
      { rewrite <-(app_nil_r (concat gs)), (group_split gs [] _ g Hg), drop_ge by lia. simpl. by rewrite app_nil_r, last_app, Hlast. }
      rewrite Hlk, Hle. simpl. pose proof (last_key gs [] _ g e He' Hg Hlast) as Hke.
      assert (Forall is_byte e.1) as Hoe.
      { destruct He as [_ Hoct _ _]. apply last_Some in Hle as [l E]. rewrite E in Hoct. by apply Forall_app in Hoct as [_ [[? _] _]%Forall_cons]. }
      destruct (FindShortSuccessor_spec e.1 Hke Hoe) as (sep & -> & Hk & Hn & Hzs & Ho). cbn [mbind option_bind].
      destruct (add_index_entry_spec r gs [] idx sep e g) as (b & -> & Hbi & Hio); try done; [by intros ? ? _ ?%elem_of_nil|].
      eexists _, b, sep. split; [done|]. split; [done|]. split; [done|]. rewrite length_app. simpl. lia.
    - exists idx, (index_block r), (tb_last_key r). split; [|by split_and!]. destruct r; simpl in *. by rewrite Ep. }
  cbn [mbind option_bind]. tb_simpl. destruct (index_size gs [] idx' He' Hne Hi') as [_ Hoi].
  match goal with |- context [WriteBlock _ _ _ _ ?x] => destruct (write_built 1 b' idx' x f) as (-> & _) end; try done.
  { by eapply index_small. }
  cbn [mbind option_bind]. eexists idx', _. split; [done|]. tb_simpl. done.
Qed.

Lemma Finish_flush r gs cur idx : entries_ok (concat gs ++ cur) -> TB_inv r gs cur idx ->
  exists r' gs', TableBuilder_Flush le ptr snappy policy r = Some r' /\ TB_inv r' gs' [] idx /\ concat gs' = concat gs ++ cur.
Proof using Hptr Hsnappy Hcomp Hint.
  intros He Hinv. destruct (decide (cur = [])) as [-> | Hne].
  - exists r, gs. rewrite app_nil_r. split_and!; [|done..]. destruct Hinv. unfold TableBuilder_Flush, ok.
    rewrite ti_closed0, ti_status0. change (Status_ok kOk) with true. cbn [negb passert mbind option_bind].
    by rewrite (Built_empty _ _ ti_data0), bool_decide_true.
  - destruct (Flush_spec r gs cur idx He Hinv Hne) as (r' & E & Hinv'). exists r', (gs ++ [cur]). split_and!; [done..|].
    rewrite concat_app. simpl. by rewrite app_nil_r.
Qed.

Lemma index_packed gs idx : entries_ok (concat gs) -> Forall (fun g => g <> []) gs -> index_ok gs [] idx ->
  zlen (pack snappy opts (block_bytes 1 le idx)).1 <= 2 ^ 32 /\ zlen (stored_of le snappy opts (block_bytes 1 le idx)) <= 2 ^ 32 + 5.
Proof using Hsnappy Hcomp Hint.
  intros He Hne Hi. rewrite <-(app_nil_r (concat gs)) in He. destruct (index_size gs [] idx He Hne Hi) as [_ Ho].
  pose proof (index_small gs [] idx He Hne Hi) as Hs. destruct (block_size 1 ltac:(lia) le idx Hs) as (B1 & _ & B3). specialize (B3 Ho).
  destruct (pack_facts snappy opts Hsnappy Hcomp _ B3) as (_ & _ & _ & P4).
  pose proof (length_stored_of le snappy opts Hsnappy Hcomp _ B3). lia.
Qed.

Lemma TableBuilder_Finish_spec r gs cur idx : entries_ok (concat gs ++ cur) -> TB_inv r gs cur idx ->
  exists r' gs' idx' fc, TableBuilder_Finish le ptr snappy policy r = Some (kOk, r') /\
    tb_file r' = table_bytes le snappy policy opts gs' idx' fc /\ tb_offset r' = zlen (tb_file r') /\
    num_entries r' = zlen (concat gs') /\ concat gs' = concat gs ++ cur /\ table_ok gs' idx' fc /\ zlen (tb_file r') < 2 ^ 41.
Proof using Hptr Hsnappy Hcomp Hint.
  intros He Hinv. destruct (Finish_flush r gs cur idx He Hinv) as (r0 & gs0 & Ef & Hinv0 & Ec). rewrite <-Ec in He |- *.
  clear Hinv gs cur Ec. unfold TableBuilder_Finish. rewrite Ef. cbn [mbind option_bind]. clear r Ef.
  destruct (write_filter_spec r0 gs0 idx He Hinv0) as (fc & fb & h & E1 & Hh & Hsome & Hfilter).
  destruct Hinv0 as [I1 I2 I3 I4 I5 I6 I7 I8 I9 I10 I11 I12 I13]. rewrite I5. cbn [negb passert mbind option_bind].
  rewrite E1. cbn [mbind option_bind]. clear E1.
  destruct (entries_total _ He) as (He1 & He2 & Hname). pose proof per_key_nonneg as Hpk.
  pose proof (data_size gs0 [] ltac:(by rewrite app_nil_r) I10) as Hd. pose proof (wt_le 32 64 (concat gs0) ltac:(lia)) as Hw.
  set (d := concat (sd gs0)) in *. set (df := d ++ stored_filter le fc) in *.
  assert (0 <= per_key * zlen (concat gs0)) as Hpn by nia.
  assert (forall c, fc = Some c -> zlen c < 2 ^ 32) as Hfc.
  { intros c ->. destruct policy; [|done]. by destruct Hfilter as (_ & ? & _). }
  assert (zlen df < 2 ^ 34) as Hdf.
  { subst df. rewrite length_app. unfold stored_filter. destruct fc as [c|]; [|simpl; lia]. pose proof (Hfc c eq_refl).
    pose proof (length_stored le c kNoCompression). unfold kBlockTrailerSize in *. lia. }
  unfold write_metaindex, ok. tb_simpl. change (Status_ok kOk) with true.
  match goal with |- context [WriteBlock _ _ _ _ ?x] => set (r1 := x) end.
  destruct (meta_built r1 (zlen d) fc h) as (meta & Em & Hbm & Hwm & Hom); [done|lia|by intros c Hc; split; [apply Hh|apply Hfc]|done| |].
  { subst r1. tb_simpl. destruct policy; [done|]. by destruct Hsome as [-> ->]. }
  subst r1. tb_simpl_in Em. rewrite Em. cbn [mbind option_bind].
  match goal with |- context [WriteBlock _ _ _ _ ?x] => destruct (write_built N meta (meta_entries policy (zlen d) fc) x df) as (-> & Hm1 & Hm2) end;
    try done; [apply HN1|lia|]. cbn [mbind option_bind].
  set (rawm := block_bytes N le (meta_entries policy (zlen d) fc)) in *. set (dfm := df ++ stored_of le snappy opts rawm).
  assert (zlen dfm < 2 ^ 35) as Hdfm by (subst dfm; rewrite length_app; lia).
  match goal with |- context [write_index _ _ _ ?x] => destruct (write_index_spec x gs0 idx dfm) as (idx' & r2 & E2 & F2 & O2 & S2 & N2 & Hi2 & Hl2) end;
    try done; tb_simpl.
  { lia. } { by rewrite app_nil_r in I8. }
  { destruct (pending_index_entry r0); [by destruct I13 as (_ & ? & ?)|by destruct I13]. }
  tb_simpl_in E2. rewrite E2. cbn [mbind option_bind]. clear E2. unfold write_footer, ok. rewrite S2. change (Status_ok kOk) with true.
  destruct (index_packed gs0 idx' He I10 Hi2) as [Hpi Hpj].
  set (rawi := block_bytes 1 le idx') in *.
  assert (tb_file r2 ++ footer_bytes (table_footer le snappy policy opts gs0 idx' fc) = table_bytes le snappy policy opts gs0 idx' fc) as Eb
    by (rewrite F2; subst dfm df; unfold table_bytes; cbv zeta; by rewrite <-!app_assoc).
  assert (mkFooter (mkHandle (zlen df) (zlen (pack snappy opts rawm).1)) (mkHandle (zlen dfm) (zlen (pack snappy opts rawi).1)) =
    table_footer le snappy policy opts gs0 idx' fc) as ->.
  { unfold table_footer. cbv zeta. subst dfm. by rewrite (length_app df), Nat2Z.inj_add. }
  assert (footer_ok (table_footer le snappy policy opts gs0 idx' fc)) as Hfo.
  { unfold footer_ok, handle_ok, table_footer, ones64. cbv zeta. fold d; fold rawm; fold df; fold rawi. cbn [metaindex_handle_ index_handle_ h_offset h_size]. lia. }
  rewrite Footer_EncodeTo_spec by done. cbn [mbind option_bind Append mem_WritableFile]. change (Status_ok kOk) with true. tb_simpl.
  pose proof (length_footer_bytes _ Hfo) as Hlf. unfold kEncodedLength, kMaxEncodedLength in Hlf.
  assert (zlen (tb_file r2) < 2 ^ 36) as Hz2 by (rewrite F2, length_app; lia).
  eexists _, gs0, idx', fc. split; [done|]. tb_simpl. rewrite Eb. split; [done|].
  assert (tb_offset r2 = zlen (tb_file r2)) as -> by (by rewrite F2).
  rewrite wrap_fits by (split; lia). rewrite <-Eb, (length_app (tb_file r2)), Nat2Z.inj_add. split; [done|].
  split; [by rewrite N2; tb_simpl; rewrite I9, app_nil_r|]. split; [done|]. split; [by constructor|lia].
Qed.
Lemma stored_octets contents type : Forall is_byte contents -> is_byte type -> Forall is_byte (stored_block le contents type).
Proof.
  intros Hc Ht. unfold stored_block. rewrite !Forall_app, EncodeFixed32_eq. split_and!; [done|by constructor|apply le_enc_bytes].
Qed.

Lemma stored_of_octets raw : Forall is_byte raw -> Forall is_byte (stored_of le snappy opts raw).
Proof using Hsnappy Hcomp.
  intros Hr. destruct (pack_facts snappy opts Hsnappy Hcomp raw Hr) as (? & ? & _). by apply stored_octets.
Qed.

Lemma footer_octets f : footer_ok f -> Forall is_byte (footer_bytes f).
Proof.
  intros [H1 H2]. unfold footer_bytes. cbv zeta. rewrite !Forall_app. split_and!; [by apply handle_bytes_octets..| |apply le_enc_bytes].
  by apply Forall_replicate.
Qed.

Lemma table_octets gs idx fc : table_ok gs idx fc -> zlen (table_bytes le snappy policy opts gs idx fc) < 2 ^ 41 ->
  footer_ok (table_footer le snappy policy opts gs idx fc) -> Forall is_byte (table_bytes le snappy policy opts gs idx fc).
Proof using Hsnappy Hcomp Hint.
  intros [He Hne Hi _ Hf] Hz Hfo. pose proof He as He'. rewrite <-(app_nil_r (concat gs)) in He'.
  assert (forall c, fc = Some c -> Forall is_byte c /\ zlen c < 2 ^ 32) as Hfc.
  { intros c ->. destruct policy; [|done]. by destruct Hf as (? & ? & _). }
  unfold table_bytes in *. cbv zeta in *. rewrite length_app in Hz. rewrite !Forall_app. split_and!.
  - apply Forall_concat, Forall_fmap, Forall_lookup. intros j g Hg. simpl. apply stored_of_octets.
    by destruct (group_size _ g _ _ He' (group_split gs [] j g Hg)) as (_ & _ & _ & ?).
  - unfold stored_filter. destruct fc as [c|]; [|done]. apply stored_octets; [by apply Hfc|done].
  - apply stored_of_octets. destruct (entries_total _ He) as (_ & _ & Hn).
    destruct (meta_entries_size (zlen (concat (sd gs))) fc Hn) as [Hw Ho]; [lia|by intros c [_ ?]%Hfc|].
    destruct (block_size N HN1 le _ Hw) as (_ & _ & H). by apply H.
  - apply stored_of_octets. destruct (index_size gs [] idx He' Hne Hi) as [_ Ho].
    destruct (block_size 1 ltac:(lia) le idx (index_small gs [] idx He' Hne Hi)) as (_ & _ & H). by apply H.
  - by apply footer_octets.
Qed.
End build.

(** ** The separators of LevelDB *)
Lemma klt_bytewise a b : klt (C := Bytewise_Comparator) a b <-> lex a b < 0.
Proof.
  unfold klt. simpl. unfold Bytewise_Compare. setoid_rewrite Slice_compare_lex. split; [by intros (c & [= <-] & ?)|eauto].
Qed.

#[export, refine] Instance Bytewise_Separators : Separators Bytewise_Comparator := {
  FindShortestSeparator := Bytewise_FindShortestSeparator;
  FindShortSuccessor a := Some (Bytewise_FindShortSuccessor a);
  same a b := a = b;
}.
Proof.
  - done.
  - intros k x y _ _ _ -> H1 H2. rewrite klt_bytewise in H1, H2. rewrite lex_antisym in H2. lia.
  - intros a b _ _ Hab%klt_bytewise. destruct (Bytewise_FindShortestSeparator_spec a b) as (r & -> & H3 & Ho & _ & H).
    destruct (H Hab) as [H1 H2].
    eexists. split; [done|]. rewrite !klt_bytewise. split; [done|]. split; [rewrite lex_antisym; lia|]. split; [done|]. split; [done|].
    split; [auto|].
    intros k _ _ Hk ->. by rewrite klt_bytewise in Hk.
  - intros a _ Ha. destruct (short_successor_spec a [] Ha) as (r & E & Hr & Hl). eexists. split; [done|].
    rewrite klt_bytewise. unfold Bytewise_FindShortSuccessor. split; [done|]. rewrite E. simpl. split; [rewrite lex_antisym; lia|].
    split; [done|]. change r with ([] ++ r). rewrite <-E. by apply short_successor_octets.
Defined.

Section internal.
Context (le : bool).

Lemma klt_internal u m u' m' : fits_unsigned 64 m -> fits_unsigned 64 m' ->
  klt (C := InternalKey_Comparator le) (ikey u m) (ikey u' m') <-> ikey_cmp u m u' m' < 0.
Proof.
  intros Hm Hm'. unfold klt. simpl. rewrite InternalKey_Compare_ikey by done. split; [by intros (c & [= <-] & ?)|eauto].
Qed.

Definition same_user (a b : list Z) : Prop := ExtractUserKey a = ExtractUserKey b.

#[export, refine] Instance InternalKey_Separators : Separators (InternalKey_Comparator le) := {
  FindShortestSeparator := InternalKey_FindShortestSeparator le;
  FindShortSuccessor := InternalKey_FindShortSuccessor le;
  same := same_user;
}.
Proof.
  - done.
  - intros k x y (u & m & -> & Hm) (u' & m' & -> & Hm') (v & n & -> & Hn) Hs H1 H2. unfold same_user in *.
    rewrite !ExtractUserKey_ikey in *. injection Hs as <-. rewrite klt_internal, ikey_cmp_lt in H1, H2 by done.
    destruct H1 as [H1|[-> _]]; [|done]. destruct H2 as [H2|[-> _]]; [|done]. rewrite lex_antisym in H2. lia.
  - intros a b (u & m & -> & Hm) (u' & m' & -> & Hm') Hab. rewrite klt_internal in Hab by done.
    destruct (InternalKey_FindShortestSeparator_cases le u m u' m' Hab) as [-> | (ur & -> & H1 & H2 & H3 & H4)]; eexists; (split; [done|]).
    + split; [by exists u, m|]. split; [rewrite klt_internal, ikey_cmp_refl by done; lia|]. split; [by rewrite klt_internal|].
      split; [done|]. split; [done|]. intros k Hk Hlt Hn. done.
    + assert (fits_unsigned 64 (2 ^ 64 - 255)) as Hf by (unfold fits_unsigned; lia). split; [by exists ur, (2 ^ 64 - 255)|].
      rewrite !klt_internal by done. rewrite !ikey_cmp_lt. split; [rewrite lex_antisym; intros [?|[<- _]]; [lia|rewrite lex_refl in H1; lia]|].
      split; [by left|]. split; [rewrite !length_ikey; lia|].
      split; [intros Ha _; unfold ikey in *; rewrite Forall_app in *; destruct Ha; split; [auto|apply le_enc_bytes]|].
      intros k (v & n & -> & Hn) Hlt Hns Hs. unfold same_user in Hs. rewrite !ExtractUserKey_ikey in Hs. injection Hs as ->.
      rewrite klt_internal, ikey_cmp_lt in Hns by done. apply Hns. by left.
  - intros a (u & m & -> & Hm) Ha. unfold ikey in Ha. apply Forall_app in Ha as [Hu _].
    pose proof (short_successor_octets u [] ltac:(constructor) Hu) as Ho.
    unfold InternalKey_FindShortSuccessor. rewrite ExtractUserKey_ikey. cbn [mbind option_bind]. unfold Bytewise_Compare, Bytewise_FindShortSuccessor.
    rewrite Slice_compare_lex. destruct ((_ <? _) && _) eqn:Hc.
    + apply andb_prop in Hc as [Hl%Z.ltb_lt Hlex%Z.ltb_lt]. unfold PutFixed64. rewrite seek_tag. cbn [mbind option_bind]. rewrite EncodeFixed64_eq.
      assert (fits_unsigned 64 (2 ^ 64 - 255)) as Hf by (unfold fits_unsigned; lia).
      change (short_successor [] u ++ le_enc 8 (2 ^ 64 - 255)) with (ikey (short_successor [] u) (2 ^ 64 - 255)).
      rewrite InternalKey_Compare_user by lia. cbn [mbind option_bind]. rewrite (proj2 (Z.ltb_lt _ _)) by lia. eexists. split; [done|].
      split; [by eexists _, _|]. rewrite klt_internal, ikey_cmp_lt by done.
      split; [rewrite lex_antisym; intros [?|[E _]]; [lia|rewrite E, lex_refl in Hlex; lia]|]. split; [rewrite !length_ikey; lia|].
      unfold ikey. apply Forall_app. split; [done|apply le_enc_bytes].
    + eexists. split; [done|]. split; [by exists u, m|]. split; [rewrite klt_internal, ikey_cmp_refl by done; lia|]. split; [done|].
      unfold ikey. apply Forall_app. split; [done|apply le_enc_bytes].
Defined.
End internal.
