(* ===== verification/TableRead.v ===== *)
(** Reading a table file: [src/leveldb/table/table.cc].

    The block cache is behind an interface ([BlockCache], after
    [include/leveldb/cache.h]): a block that comes from the cache or goes into it
    is held by a handle, which is released when the iterator over the block is
    destroyed.  A table opened on a file that [Table] describes answers lookups
    and iterates as the list of entries it was built of, and gives back every
    handle it takes. *)
From stdpp Require Import strings.
From S2P Require Import Prelude Coding Dbformat LdbBase Crc32c Iterator Block Filter Format Table TwoLevel.

(** A cache may forget entries; [cached] bounds what it can return, [next_id] is
    the next identifier, and [cache_out c hs] says that [c] is a state of the
    cache where [hs] are the handles its users have to release.  With no more
    handles out than a counter takes and charges of 32 bits no operation fails. *)
Class BlockCache (K : Type) := {
  cache_handle : Type;
  cache_NewId : K -> Z * K;
  cache_Lookup : list Z -> K -> option (option cache_handle * K);
  cache_Value : cache_handle -> K -> option Block;
  cache_Insert : list Z -> Block -> Z -> K -> option (cache_handle * K);
  cache_Release : cache_handle -> K -> option K;
  cached : K -> list Z -> Block -> Prop;
  next_id : K -> Z;
  cache_out : K -> list cache_handle -> Prop;
  cache_out_perm c hs hs' : hs ≡ₚ hs' -> cache_out c hs -> cache_out c hs';
  cache_NewId_next c : 0 < next_id c < 2 ^ 64 -> (cache_NewId c).1 = next_id c /\ next_id (cache_NewId c).2 = next_id c + 1;
  cache_NewId_out c hs : cache_out c hs -> cache_out (cache_NewId c).2 hs;
  cache_NewId_spec c key b : cached (cache_NewId c).2 key b -> cached c key b;
  cache_Lookup_spec key c hs : cache_out c hs -> zlen hs < 2 ^ 20 ->
    exists r c', cache_Lookup key c = Some (r, c') /\ next_id c' = next_id c /\ (forall key' b, cached c' key' b -> cached c key' b) /\
      match r with
      | Some h => cache_out c' (h :: hs) /\ exists b, cache_Value h c' = Some b /\ cached c key b
      | None => cache_out c' hs
      end;
  cache_Insert_spec key b n c hs : cache_out c hs -> zlen hs < 2 ^ 20 -> 1 <= n < 2 ^ 32 ->
    exists h c', cache_Insert key b n c = Some (h, c') /\ next_id c' = next_id c /\ cache_out c' (h :: hs) /\
      forall key' b', cached c' key' b' -> key' = key /\ b' = b \/ cached c key' b';
  cache_Release_spec h c hs : cache_out c (h :: hs) ->
    exists c', cache_Release h c = Some c' /\ next_id c' = next_id c /\ cache_out c' hs /\ forall key b, cached c' key b -> cached c key b;
}.
#[global] Arguments cache_handle K {_}.

Section table.
Context (le : bool) (ptr : list Z -> Z) (snappy : Snappy).
Context {C : Comparator} (policy : option FilterPolicy) (paranoid_checks : bool).
(** What an uninitialised [restart_offset_] holds. *)
Context (uninit : Z).
Context {F : Type} `{!RandomAccessFile F} {K : Type} `{!BlockCache K}.

Record Table := mkTable {
  t_file : F;
  t_cache_id : Z;
  t_filter : option FilterBlockReader;
  t_metaindex_handle : BlockHandle;
  t_index_block : Block;
}.

Definition set_t_filter (f : FilterBlockReader) (t : Table) : Table :=
  mkTable (t_file t) (t_cache_id t) (Some f) (t_metaindex_handle t) (t_index_block t).

Definition open_options : ReadOptions := mkReadOptions paranoid_checks true.

(** The iterators of the meta index and of the other blocks. *)
#[local] Notation m_Seek := (it_Seek (Iterator := @NewIter_Iterator Bytewise_Comparator le)).
#[local] Notation m_Valid := (it_Valid (Iterator := @NewIter_Iterator Bytewise_Comparator le)).
#[local] Notation m_key := (it_key (Iterator := @NewIter_Iterator Bytewise_Comparator le)).
#[local] Notation m_value := (it_value (Iterator := @NewIter_Iterator Bytewise_Comparator le)).
#[local] Notation b_Seek := (it_Seek (Iterator := @NewIter_Iterator C le)).
#[local] Notation b_Valid := (it_Valid (Iterator := @NewIter_Iterator C le)).
#[local] Notation b_key := (it_key (Iterator := @NewIter_Iterator C le)).
#[local] Notation b_value := (it_value (Iterator := @NewIter_Iterator C le)).
#[local] Notation b_status := (it_status (Iterator := @NewIter_Iterator C le)).

(** ** Opening *)
Definition ReadFilter (filter_handle_value : list Z) (t : Table) : option Table :=
  '(s, filter_handle, _) ← BlockHandle_DecodeFrom new_BlockHandle filter_handle_value;
  if negb (Status_ok s) then Some t
  else
    '(s, block) ← ReadBlock le ptr snappy (t_file t) open_options filter_handle;
    if negb (Status_ok s) then Some t
    else fr ← new_FilterBlockReader le (bc_data block); Some (set_t_filter fr t).

Definition ReadMeta (footer : Footer) (t : Table) : option Table :=
  match policy with
  | None => Some t
  | Some _ =>
      '(s, contents) ← ReadBlock le ptr snappy (t_file t) open_options (metaindex_handle_ footer);
      if negb (Status_ok s) then Some t
      else
        meta ← new_Block le uninit (bc_data contents);
        iter ← NewIterator le meta;
        let key := filter_prefix ++ FP_Name in
        iter ← m_Seek iter key;
        if m_Valid iter then
          k ← m_key iter;
          if bool_decide (k = key) then
            v ← m_value iter;
            ReadFilter v t
          else Some t
        else Some t
  end.

(** The status, the table and the cache. *)
Definition Open (file : F) (size : Z) (cache : option K) : option (Code * option Table * option K) :=
  if size <? kEncodedLength then Some (kCorruption, None, cache)
  else
    let '(s, footer_input, _) := Read_at (size - kEncodedLength) kEncodedLength file in
    if negb (Status_ok s) then Some (s, None, cache)
    else
      '(s, footer, _) ← Footer_DecodeFrom le (mkFooter new_BlockHandle new_BlockHandle) footer_input;
      if negb (Status_ok s) then Some (s, None, cache)
      else
        '(s, contents) ← ReadBlock le ptr snappy file open_options (index_handle_ footer);
        if negb (Status_ok s) then Some (s, None, cache)
        else
          index_block ← new_Block le uninit (bc_data contents);
          let '(cache_id, cache) := match cache with
            | Some c => let '(id, c) := cache_NewId c in (id, Some c)
            | None => (0, None)
            end in
          t ← ReadMeta footer (mkTable file cache_id None (metaindex_handle_ footer) index_block);
          Some (s, Some t, cache).

(** ** Blocks through the cache *)
Definition cache_key (id offset : Z) : list Z := EncodeFixed64 le id ++ EncodeFixed64 le offset.

(** A block read from the file, or the error status. *)
Definition read_block_at (t : Table) (options : ReadOptions) (handle : BlockHandle) : option (Code * option (Block * bool)) :=
  '(s, contents) ← ReadBlock le ptr snappy (t_file t) options handle;
  if Status_ok s then b ← new_Block le uninit (bc_data contents); Some (s, Some (b, cachable contents))
  else Some (s, None).

(** The block of a handle, from the cache or from the file, with the handle of
    the cache if there is one. *)
Definition find_block (t : Table) (options : ReadOptions) (cache : option K) (handle : BlockHandle) :
  option (Code * option (Block * option (cache_handle K)) * option K) :=
  match cache with
  | Some c =>
      let key := cache_key (t_cache_id t) (h_offset handle) in
      '(found, c) ← cache_Lookup key c;
      match found with
      | Some h => b ← cache_Value h c; Some (kOk, Some (b, Some h), Some c)
      | None =>
          '(s, r) ← read_block_at t options handle;
          match r with
          | Some (b, cachable) =>
              if cachable && fill_cache options then
                '(h, c) ← cache_Insert key b (size_ b) c;
                Some (s, Some (b, Some h), Some c)
              else Some (s, Some (b, None), Some c)
          | None => Some (s, None, Some c)
          end
      end
  | None =>
      '(s, r) ← read_block_at t options handle;
      match r with Some (b, _) => Some (s, Some (b, None), None) | None => Some (s, None, None) end
  end.

(** The iterator and the cleanup that is registered at it: [ReleaseBlock] of a
    handle, or [DeleteBlock]. *)
Definition BlockReader (t : Table) (options : ReadOptions) (cache : option K) (index_value : list Z) :
  option (NewIter * option (cache_handle K) * option K) :=
  '(s, handle, _) ← BlockHandle_DecodeFrom new_BlockHandle index_value;
  '(s, block, cache) ← (if Status_ok s then find_block t options cache handle else Some (s, None, cache));
  match block with
  | Some (b, h) => iter ← NewIterator le b; Some (iter, h, cache)
  | None => Some (EmptyIter (NewErrorIterator s), None, cache)
  end.

(** [delete] of the iterator: the cleanup runs. *)
Definition ReleaseBlock (h : option (cache_handle K)) (cache : option K) : option (option K) :=
  match h with
  | Some h => c ← cache; c ← cache_Release h c; Some (Some c)
  | None => Some cache
  end.

(** ** Lookups and iteration *)
(** The entry passed to the saver, if it is called. *)
Definition InternalGet (t : Table) (options : ReadOptions) (cache : option K) (k : list Z) :
  option (Code * option (list Z * list Z) * option K) :=
  iiter ← NewIterator le (t_index_block t);
  iiter ← b_Seek iiter k;
  '(s, saved, cache) ←
    (if b_Valid iiter then
       handle_value ← b_value iiter;
       excluded ← (match policy, t_filter t with
                   | Some P, Some filter =>
                       '(s, handle, _) ← BlockHandle_DecodeFrom new_BlockHandle handle_value;
                       if Status_ok s then b ← Reader_KeyMayMatch le filter (h_offset handle) k; Some (negb b)
                       else Some false
                   | _, _ => Some false
                   end);
       if excluded : bool then Some (kOk, None, cache)
       else
         '(block_iter, h, cache) ← BlockReader t options cache handle_value;
         block_iter ← b_Seek block_iter k;
         saved ← (if b_Valid block_iter then
                    k' ← b_key block_iter;
                    v' ← b_value block_iter;
                    Some (Some (k', v'))
                  else Some None);
         let s := b_status block_iter in
         cache ← ReleaseBlock h cache;
         Some (s, saved, cache)
     else Some (kOk, None, cache));
  Some (if Status_ok s then b_status iiter else s, saved, cache).

Definition Table_NewIterator (t : Table) (cache : option K) : option (TwoLevelIterator NewIter NewIter (option (cache_handle K)) (option K)) :=
  index_iter ← NewIterator le (t_index_block t);
  NewTwoLevelIterator (Iterator0 := NewIter_Iterator le) (Iterator1 := NewIter_Iterator le) index_iter cache.

(** An index entry has at least three octets. *)
Definition table_fuel (t : Table) : nat := S (S (length (data_ (t_index_block t)))).

Definition Table_Iterator (t : Table) (options : ReadOptions) : Iterator (TwoLevelIterator NewIter NewIter (option (cache_handle K)) (option K)) :=
  TwoLevel_Iterator (Iterator0 := NewIter_Iterator le) (Iterator1 := NewIter_Iterator le)
    (BlockReader t options) ReleaseBlock (table_fuel t).

Definition ApproximateOffsetOf (t : Table) (key : list Z) : option Z :=
  index_iter ← NewIterator le (t_index_block t);
  index_iter ← b_Seek index_iter key;
  if b_Valid index_iter then
    v ← b_value index_iter;
    '(s, handle, _) ← BlockHandle_DecodeFrom new_BlockHandle v;
    Some (if Status_ok s then h_offset handle else h_offset (t_metaindex_handle t))
  else Some (h_offset (t_metaindex_handle t)).
End table.

#[global] Arguments Table F : clear implicits.
#[global] Arguments mkTable {F}.
#[global] Arguments t_file {F}.
#[global] Arguments t_cache_id {F}.
#[global] Arguments t_filter {F}.
#[global] Arguments t_metaindex_handle {F}.
#[global] Arguments t_index_block {F}.

(** ** Reading back a table *)
Section read_back.
Context (le lw : bool) (ptr : list Z -> Z) (snappy : Snappy).
Context {C : Comparator} {S : Separators C} (policy : option FilterPolicy) (opts : Options) (uninit : Z).
Context (Hptr : addresses ptr) (Hsnappy : Snappy_inverse snappy).
Context (Hcomp : o_compression opts = kNoCompression \/ o_compression opts = kSnappyCompression).
Context (Hint : 1 <= o_block_restart_interval opts).
Context {F : Type} `{!RandomAccessFile F} {K : Type} `{!BlockCache K}.
Context (gs : list (list (list Z * list Z))) (idx : list (list Z * list Z)) (fc : option (list Z)) (file : F).
Context (Htab : table_ok lw snappy policy opts gs idx fc).
Context (Hserve : serves file (table_bytes lw snappy policy opts gs idx fc)).
Context (Hlen : zlen (table_bytes lw snappy policy opts gs idx fc) < 2 ^ 41).
Notation N := (Z.to_nat (o_block_restart_interval opts)).
Notation sd := (stored_data lw snappy opts gs).
Notation handle_at := (block_handle lw snappy opts gs).
Notation bytes := (table_bytes lw snappy policy opts gs idx fc).
Notation read options h := (ReadBlock le ptr snappy file options h).

Lemma read_packed options raw a c : Forall is_byte raw -> bytes = a ++ stored_of lw snappy opts raw ++ c ->
  exists cach heap, read options (mkHandle (zlen a) (zlen (pack snappy opts raw).1)) = Some (kOk, mkContents raw cach heap).
Proof using Hptr Hsnappy Hcomp Hserve Hlen.
  intros Hr Hb. destruct (pack_facts snappy opts Hsnappy Hcomp raw Hr) as (P1 & P2 & P3 & _).
  eapply (ReadBlock_spec le ptr snappy Hptr file options lw); [done|exact Hb|done|lia|done..].
Qed.

Lemma read_data options j g : gs !! j = Some g ->
  exists cach heap, read options (handle_at j) = Some (kOk, mkContents (block_bytes N lw g) cach heap).
Proof.
  intros Hg. assert (sd !! j = Some (stored_of lw snappy opts (block_bytes N lw g))) as Hs
    by (unfold stored_data; by rewrite list_lookup_fmap, Hg).
  unfold block_handle. rewrite Hg. cbn [default from_option id]. unfold off. eapply read_packed.
  - destruct Htab as [He _ _ _ _]. rewrite <-(app_nil_r (concat gs)) in He.
    by destruct (group_size lw policy opts Hint _ g _ _ He (group_split gs [] j g Hg)) as (_ & _ & _ & ?).
  - unfold table_bytes. cbv zeta. rewrite <-(take_drop_middle _ _ _ Hs) at 1. rewrite concat_app. cbn [concat].
    by rewrite <-!app_assoc.
Qed.

Lemma entries_nil : entries_ok policy (concat gs ++ []).
Proof using Htab. rewrite app_nil_r. apply Htab. Qed.

Lemma data_block_facts j g : gs !! j = Some g ->
  increasing g /\ small N g /\ zlen (block_bytes N lw g) < 2 ^ 32.
Proof using Hint Htab.
  intros Hg. destruct (group_size lw policy opts Hint _ g _ _ entries_nil (group_split gs [] j g Hg)) as (H1 & H2 & H3 & _).
  split_and!; [|done|lia]. pose proof (eo_increasing _ _ entries_nil) as Hi. rewrite (group_split gs [] j g Hg) in Hi.
  apply increasing_app_r, increasing_app in Hi. done.
Qed.

Lemma index_block_facts : increasing idx /\ small 1 idx /\ zlen (block_bytes 1 lw idx) < 2 ^ 32 /\
  Forall is_byte (block_bytes 1 lw idx).
Proof using Hsnappy Hcomp Hint Htab.
  destruct Htab as [_ Hne Hi _ _]. pose proof (index_small lw snappy policy opts Hsnappy Hcomp Hint gs [] idx entries_nil Hne Hi) as Hw.
  destruct (index_size lw snappy policy opts Hsnappy Hcomp Hint gs [] idx entries_nil Hne Hi) as [_ Ho].
  destruct (block_size 1 ltac:(lia) lw idx Hw) as (B1 & B2 & B3). split_and!; [|done|lia|by apply B3].
  by eapply index_increasing; [apply entries_nil|].
Qed.

Lemma read_index options : exists cach heap,
  read options (index_handle_ (table_footer lw snappy policy opts gs idx fc)) = Some (kOk, mkContents (block_bytes 1 lw idx) cach heap).
Proof using Hptr Hsnappy Hcomp Hint Htab Hserve Hlen.
  destruct index_block_facts as (_ & _ & _ & Ho). unfold table_footer. cbv zeta. cbn [index_handle_].
  rewrite <-Nat2Z.inj_add, <-length_app. eapply read_packed; [done|].
  unfold table_bytes. cbv zeta. by rewrite <-!app_assoc.
Qed.

Lemma sd_off_lt i j : (i < j)%nat -> (j <= length gs)%nat -> off sd i < off sd j.
Proof.
  intros Hij Hj. destruct (lookup_lt_is_Some_2 gs i) as [g Hg]; [lia|].
  pose proof (off_S sd i (stored_of lw snappy opts (block_bytes N lw g))) as E.
  unfold stored_data in E. rewrite list_lookup_fmap, Hg in E. specialize (E eq_refl). fold sd in E.
  unfold stored_of in E. rewrite length_stored in E. unfold kBlockTrailerSize in E.
  pose proof (off_le sd (Datatypes.S i) j ltac:(lia)). lia.
Qed.

Lemma sd_off_inj i j : (i <= length gs)%nat -> (j <= length gs)%nat -> off sd i = off sd j -> i = j.
Proof.
  intros Hi Hj E. destruct (Nat.lt_trichotomy i j) as [H|[H|H]]; [|done|];
    [pose proof (sd_off_lt i j H)|pose proof (sd_off_lt j i H)]; lia.
Qed.

Lemma handle_ok_at j g : gs !! j = Some g -> handle_ok (handle_at j).
Proof using Hsnappy Hcomp Hint Htab.
  intros Hg. eapply (handle_at_ok lw snappy policy opts Hsnappy Hcomp Hint gs []); [apply entries_nil|apply Htab|done].
Qed.

(** ** Data blocks, through the cache *)
Definition data_block_of (g : list (list Z * list Z)) (b : Block) : Prop :=
  new_Block le uninit (block_bytes N lw g) = Some b.

(** Under the identifier of the table the cache has its blocks only. *)
Definition cache_ok (id : Z) (cache : option K) : Prop :=
  match cache with
  | None => True
  | Some c => forall o b, fits_unsigned 64 o -> cached c (cache_key le id o) b ->
      exists j g, gs !! j = Some g /\ o = off sd j /\ data_block_of g b
  end.

(** The handles of the cache that its users have to release. *)
Definition handles_out (cache : option K) (hs : list (cache_handle K)) : Prop :=
  match cache with Some c => cache_out c hs | None => hs = [] end.

(** New entries are under the identifier of the table. *)
Definition adds (id : Z) (cache cache' : option K) : Prop :=
  match cache, cache' with
  | Some c, Some c' => next_id c' = next_id c /\ forall key b, cached c' key b -> cached c key b \/ exists o, key = cache_key le id o
  | None, None => True
  | _, _ => False
  end.

Definition open_on (t : Table F) : Prop :=
  t_file t = file /\ new_Block le uninit (block_bytes 1 lw idx) = Some (t_index_block t).

Lemma cache_key_inj id o o' : fits_unsigned 64 o -> fits_unsigned 64 o' -> cache_key le id o = cache_key le id o' -> o = o'.
Proof.
  intros Ho Ho' E. unfold cache_key in E. apply app_inv_head in E. rewrite !EncodeFixed64_eq in E.
  apply (f_equal le_dec) in E. rewrite !le_dec_enc in E. unfold fits_unsigned in *. by rewrite !Z.mod_small in E by (simpl in *; lia).
Qed.

Lemma new_data_block j g : gs !! j = Some g ->
  exists b it, data_block_of g b /\ 1 <= size_ b < 2 ^ 32 /\ NewIterator le b = Some it /\ at_block N lw g it (length g).
Proof using Hint Htab.
  intros Hg. destruct (data_block_facts j g Hg) as (H1 & H2 & H3). unfold data_block_of.
  edestruct (block_opens le N lw g) as (b & it & E1 & Esz & E2 & Ha); [lia|done..|]. exists b, it. rewrite Esz.
  pose proof (length_block_bytes N ltac:(lia) lw g). split_and!; [done|lia|lia|done|done].
Qed.

Lemma read_block_at_spec t options j g : open_on t -> gs !! j = Some g ->
  exists b cach, read_block_at le ptr snappy uninit t options (handle_at j) = Some (kOk, Some (b, cach)) /\ data_block_of g b /\ 1 <= size_ b < 2 ^ 32.
Proof using Hptr Hsnappy Hcomp Hint Htab Hserve Hlen.
  intros [Hf _] Hg. unfold read_block_at. rewrite Hf. destruct (read_data options j g Hg) as (cach & heap & ->).
  cbn [mbind option_bind]. change (Status_ok kOk) with true. destruct (new_data_block j g Hg) as (b & _ & Hb & Hsz & _).
  unfold data_block_of in *. cbn [bc_data cachable]. rewrite Hb. cbn [mbind option_bind]. eauto.
Qed.

Lemma offset_fits j g : gs !! j = Some g -> fits_unsigned 64 (off sd j).
Proof using Hsnappy Hcomp Hint Htab. intros Hg. by apply (handle_fits (handle_at j)), (handle_ok_at j g). Qed.

(** Reads of the table that started on the cache [cache0] have left it as
    [cache]; besides the handles of others, [out], those in [hs] are to be
    released. *)
Section handles.
Context (out : list (cache_handle K)) (Hout : zlen out + 2 <= 2 ^ 20).
Implicit Types (cache : option K) (hs : list (option (cache_handle K))).

Definition reads cache0 (id : Z) hs cache : Prop :=
  cache_ok id cache /\ handles_out cache (omap (fun h => h) hs ++ out) /\ adds id cache0 cache.

Lemma reads_start id cache : cache_ok id cache -> handles_out cache out -> reads cache id [] cache.
Proof. intros Hc Ho. split; [done|]. split; [done|]. destruct cache; [|done]. split; [done|]. by left. Qed.

Lemma reads_less cache0 id hs c c' : reads cache0 id hs (Some c) -> next_id c' = next_id c -> (forall key b, cached c' key b -> cached c key b) ->
  cache_ok id (Some c') /\ adds id cache0 (Some c').
Proof.
  intros (Hc & _ & Ha) Hn Hl. split; [intros o b Ho Hin; by apply Hc; [|apply Hl]|]. destruct cache0 as [c0|]; [|done].
  destruct Ha as [Ha1 Ha2]. split; [congruence|]. intros key b Hin. by apply Ha2, Hl.
Qed.

Lemma ReleaseBlock_spec cache0 id hs h hs' cache : reads cache0 id (hs ++ h :: hs') cache ->
  exists cache', ReleaseBlock h cache = Some cache' /\ reads cache0 id (hs ++ hs') cache'.
Proof.
  intros Hr. assert (reads cache0 id (h :: hs ++ hs') cache) as (Hc & Ho & Ha).
  { destruct Hr as (? & Ho & ?). split; [done|]. split; [|done]. unfold handles_out in *. destruct cache as [c|]; [eapply cache_out_perm; [|exact Ho]; by rewrite <-Permutation_middle|].
    apply Permutation_nil. rewrite <-Ho. by rewrite <-Permutation_middle. }
  destruct h as [h|]; cbn [ReleaseBlock]; [|by exists cache]. destruct cache as [c|]; [|done]. cbn [mbind option_bind].
  destruct (cache_Release_spec h c _ Ho) as (c' & -> & Hn & Ho' & Hl). cbn [mbind option_bind]. eexists. split; [done|].
  destruct (reads_less cache0 id _ c c' Hr Hn Hl). by split_and!.
Qed.

Lemma handles_few hs : (length hs <= 1)%nat -> zlen (omap (fun h : option (cache_handle K) => h) hs ++ out) < 2 ^ 20.
Proof using Hout. destruct hs as [|[h|] [|h' hs]]; cbn [length omap list_omap app]; intros Hhs; clear -Hout Hhs; lia. Qed.

Lemma insert_reads cache0 id hs c c1 h j g b : gs !! j = Some g -> data_block_of g b -> reads cache0 id hs (Some c) -> next_id c1 = next_id c ->
  cache_out c1 (h :: omap (fun h => h) hs ++ out) -> (forall key' b', cached c1 key' b' -> key' = cache_key le id (off sd j) /\ b' = b \/ cached c key' b') ->
  reads cache0 id (Some h :: hs) (Some c1).
Proof using Hsnappy Hcomp Hint Htab.
  intros Hg Hb (Hc & _ & Ha) Hn Ho Hins. split; [|split; [done|]].
  - intros o b' Hfo [[E ->]|Hin]%Hins; [|by apply Hc]. apply cache_key_inj in E; [|done|by eapply offset_fits]. subst o. eauto.
  - destruct cache0 as [c0|]; [|done]. destruct Ha as [Ha1 Ha2]. split; [congruence|]. intros key b' [[-> _]|Hin]%Hins; [right; by eexists|by apply Ha2].
Qed.

Lemma find_block_spec t options cache0 hs cache j g : open_on t -> reads cache0 (t_cache_id t) hs cache -> (length hs <= 1)%nat -> gs !! j = Some g ->
  exists b h cache', find_block le ptr snappy uninit t options cache (handle_at j) = Some (kOk, Some (b, h), cache') /\
    data_block_of g b /\ reads cache0 (t_cache_id t) (h :: hs) cache'.
Proof using Hptr Hsnappy Hcomp Hint Htab Hserve Hlen Hout.
  intros Ho Hr Hhs Hg. unfold find_block. destruct (read_block_at_spec t options j g Ho Hg) as (b & cach & Er & Hb & Hsz).
  destruct cache as [c|]; [|rewrite Er; cbn [mbind option_bind]; exists b, None, None; split; [done|]; split; [exact Hb|exact Hr]].
  pose proof (offset_fits j g Hg) as Hj. change (h_offset (handle_at j)) with (off sd j).
  set (key := cache_key le (t_cache_id t) (off sd j)). pose proof Hr as (Hc & Hco & Ha).
  destruct (cache_Lookup_spec key c _ Hco (handles_few hs Hhs)) as (r & c1 & -> & Hn1 & Hl1 & Hr1). cbn [mbind option_bind].
  destruct (reads_less cache0 _ _ c c1 Hr Hn1 Hl1) as [Hc1 Ha1]. destruct r as [h|].
  - destruct Hr1 as (Hco1 & b' & -> & Hb'). cbn [mbind option_bind]. exists b', (Some h), (Some c1). split; [done|]. split; [|by split_and!].
    destruct (Hc (off sd j) b' Hj Hb') as (j' & g' & Hg' & E & Hb2).
    apply sd_off_inj in E; [|apply lookup_lt_Some in Hg, Hg'; clear -Hg Hg'; lia..]. subst j'. rewrite Hg in Hg'. by injection Hg' as <-.
  - rewrite Er. cbn [mbind option_bind]. destruct (cach && fill_cache options); [|exists b, None, (Some c1); split; [done|]; by split_and!].
    destruct (cache_Insert_spec key b (size_ b) c1 _ Hr1 (handles_few hs Hhs) Hsz) as (h & c2 & -> & Hn2 & Hco2 & Hins). cbn [mbind option_bind].
    exists b, (Some h), (Some c2). split; [done|]. split; [done|]. exact (insert_reads cache0 _ hs c1 c2 h j g b Hg Hb (conj Hc1 (conj Hr1 Ha1)) Hn2 Hco2 Hins).
Qed.

Lemma BlockReader_spec t options cache0 hs cache j g : open_on t -> reads cache0 (t_cache_id t) hs cache -> (length hs <= 1)%nat -> gs !! j = Some g ->
  exists it h cache', BlockReader le ptr snappy uninit t options cache (handle_bytes (handle_at j)) = Some (it, h, cache') /\
    reads cache0 (t_cache_id t) (h :: hs) cache' /\ at_block N lw g it (length g).
Proof using Hptr Hsnappy Hcomp Hint Htab Hserve Hlen Hout.
  intros Ho Hc Hhs Hg. unfold BlockReader. rewrite <-(app_nil_r (handle_bytes _)), BlockHandle_DecodeFrom_spec by (by eapply handle_ok_at).
  cbn [mbind option_bind]. change (Status_ok kOk) with true. cbn match.
  destruct (find_block_spec t options cache0 hs cache j g Ho Hc Hhs Hg) as (b & h & cache' & -> & Hb & Hc'). cbn [mbind option_bind].
  destruct (new_data_block j g Hg) as (b1 & it & Hb1 & _ & E & Ha). unfold data_block_of in *. rewrite Hb in Hb1. injection Hb1 as <-.
  rewrite E. cbn [mbind option_bind]. eexists _, _, _. split; [done|]. by split.
Qed.
End handles.

(** ** The index *)
Lemma index_lookup j e : idx !! j = Some e -> exists g x, gs !! j = Some g /\ last g = Some x /\ ~ klt e.1 x.1 /\
  (forall k y, is_key k -> y ∈ concat (drop (Datatypes.S j) gs) -> klt x.1 k -> ~ klt e.1 k -> ~ same k y.1) /\
  e.2 = handle_bytes (handle_at j) /\ is_key e.1 /\ Forall (fun y => klt e.1 y.1) (concat (drop (Datatypes.S j) gs)).
Proof using Htab.
  intros He. destruct (to_index _ _ _ _ _ _ _ Htab j e He) as [(g & x & H1 & H2 & H3 & _ & H4) H5 H6 H7 _].
  rewrite app_nil_r in *. exists g, x. done.
Qed.

Lemma group_key j g x : gs !! j = Some g -> x ∈ g -> is_key x.1.
Proof using Hint Htab.
  intros Hg [i Hi]%list_elem_of_lookup. destruct (data_block_facts j g Hg) as (Hinc & _). by eapply increasing_key.
Qed.

Lemma group_last j g x y : gs !! j = Some g -> last g = Some y -> x ∈ g -> ~ klt y.1 x.1.
Proof using Hint Htab.
  intros Hg Hl [i Hi]%list_elem_of_lookup Hlt. destruct (data_block_facts j g Hg) as (Hinc & _). rewrite last_lookup in Hl.
  assert (is_key x.1) as Hx by (by eapply increasing_key). pose proof (lookup_lt_Some _ _ _ Hi) as Hlen'.
  destruct (decide (i = pred (length g))) as [-> | Hne].
  - rewrite Hi in Hl. injection Hl as ->. by eapply klt_irrefl.
  - assert (is_key y.1) as Hy by (by eapply increasing_key).
    assert (klt x.1 y.1) as Hxy by (eapply increasing_lookup; [done..|lia]).
    eapply (klt_irrefl x.1); [done|]. by eapply (klt_trans x.1 y.1 x.1).
Qed.

Lemma later_key j x : x ∈ concat (drop j gs) -> is_key x.1.
Proof using Htab.
  intros Hx. pose proof (eo_increasing _ _ (to_entries _ _ _ _ _ _ _ Htab)) as Hi.
  rewrite <-(take_drop j gs), concat_app in Hi. apply increasing_app_r in Hi.
  apply list_elem_of_lookup in Hx as [i Hi']. by eapply increasing_key.
Qed.

Lemma index_fuel t : open_on t -> (length idx + 1 < table_fuel t)%nat.
Proof.
  intros [_ Hb]. pose proof (length_block_bytes 1 ltac:(lia) lw idx) as Hl. unfold table_fuel.
  assert (data_ (t_index_block t) = block_bytes 1 lw idx) as ->.
  { unfold new_Block in Hb. destruct (_ <? 4); [by injection Hb as <-|]. destruct (NumRestarts _ _ _); [|done].
    cbn [mbind option_bind] in Hb. destruct (_ <? _); by injection Hb as <-. }
  unfold rpoints in Hl. rewrite length_fmap, length_seq, length_chunks in Hl. unfold nrestarts in Hl.
  destruct (length idx) as [|n]; [lia|]. rewrite Nat.div_1_r in Hl. lia.
Qed.

Lemma index_handles : NoDup (snd <$> idx).
Proof using Hsnappy Hcomp Hint Htab.
  apply NoDup_alt. intros i j h Hi Hj. rewrite list_lookup_fmap in Hi. rewrite list_lookup_fmap in Hj.
  destruct (idx !! i) as [e|] eqn:Ei; [|done]. destruct (idx !! j) as [e'|] eqn:Ej; [|done]. simpl in *.
  injection Hi as Hi. injection Hj as Hj.
  destruct (index_lookup i e Ei) as (g & _ & Hg & _ & _ & _ & E1 & _).
  destruct (index_lookup j e' Ej) as (g' & _ & Hg' & _ & _ & _ & E2 & _).
  pose proof (BlockHandle_DecodeFrom_spec _ new_BlockHandle [] (handle_ok_at i g Hg)) as D1.
  pose proof (BlockHandle_DecodeFrom_spec _ new_BlockHandle [] (handle_ok_at j g' Hg')) as D2.
  rewrite <-E1, Hi in D1. rewrite <-E2, Hj, D1 in D2. injection D2 as D2 _.
  apply lookup_lt_Some in Hg, Hg'. apply sd_off_inj; [lia..|done].
Qed.

Definition group (j : nat) : list (list Z * list Z) := default [] (gs !! j).

Lemma table_two_level out cache0 t options : zlen out + 2 <= 2 ^ 20 -> open_on t ->
  two_level_ok (Iterator0 := NewIter_Iterator le) (Iterator1 := NewIter_Iterator le)
    (BlockReader le ptr snappy uninit t options) ReleaseBlock (table_fuel t) idx gs
    (at_block 1 lw idx) (fun j => at_block N lw (group j)) (reads out cache0 (t_cache_id t)).
Proof using Hptr Hsnappy Hcomp Hint Htab Hserve Hlen.
  intros Hout Ho. destruct index_block_facts as (I1 & I2 & I3 & _). unfold group. constructor.
  - by apply block_is_cursor.
  - intros j g Hg. rewrite Hg. destruct (data_block_facts j g Hg) as (H1 & H2 & H3). apply block_is_cursor; [lia|done..].
  - symmetry. apply Htab.
  - intros hs k j e g Hk Hhs He Hg. destruct (index_lookup j e He) as (_ & _ & _ & _ & _ & _ & -> & _).
    rewrite Hg. destruct (BlockReader_spec out Hout t options cache0 hs k j g Ho Hk Hhs Hg) as (it & h & k' & ? & ? & ?). eexists _, _, _. split; [done|]. by split.
  - intros hs h hs' k. apply ReleaseBlock_spec.
  - apply index_handles.
  - by apply index_fuel.
  - intros j e g k Hk He Hg Hb%below_klt. destruct (index_lookup j e He) as (g' & x & Hg' & Hl & Hx & _ & _ & Hek & _).
    rewrite Hg in Hg'. injection Hg' as <-. apply Forall_forall. intros y Hy. apply below_klt.
    assert (is_key y.1) by (by eapply group_key). assert (is_key x.1) by (eapply group_key; [done|by apply last_Some_elem_of]).
    eapply (le_klt_trans y.1 x.1 k); [done..|by eapply group_last|]. by eapply (le_klt_trans x.1 e.1 k).
  - intros j e k Hk He Hb. destruct (index_lookup j e He) as (g & x & Hg & _ & _ & _ & _ & Hek & Hf).
    rewrite Forall_forall in Hf |- *. intros y Hy. apply not_true_iff_false. rewrite below_klt. intros Hyk.
    apply not_true_iff_false in Hb. apply Hb, below_klt. assert (is_key y.1) by (by eapply later_key).
    eapply (klt_trans e.1 y.1 k); [done..|by apply Hf|done].
Qed.

Lemma index_iterator t : open_on t -> exists it, NewIterator le (t_index_block t) = Some it /\ at_block 1 lw idx it (length idx).
Proof using Hsnappy Hcomp Hint Htab.
  intros [_ Hb]. destruct index_block_facts as (I1 & I2 & I3 & _).
  edestruct (block_opens le 1 lw idx) as (b & it & E1 & _ & E2 & Ha); [lia|done..|]. rewrite Hb in E1. injection E1 as <-. eauto.
Qed.

Lemma seek_table k (j := seek_index idx k) : is_key k ->
  seek_index (concat gs) k = match gs !! j with Some g => start gs j + seek_index g k | None => length (concat gs) end%nat.
Proof using uninit le BlockCache0 Hptr Hsnappy Hcomp Hint Htab Hserve Hlen.
  intros Hk. destruct index_block_facts as (I1 & I2 & I3 & _).
  edestruct (block_opens le 1 lw idx) as (b & it & E1 & _ & E2 & Ha); [lia|done..|].
  pose proof (table_two_level [] None (mkTable file 0 None new_BlockHandle b) default_ReadOptions ltac:(done) (conj eq_refl E1)) as H2.
  exact (seek_split _ _ _ _ _ _ _ _ H2 k Hk).
Qed.

(** ** Lookups *)
Definition filter_of (t : Table F) : Prop :=
  match policy, fc with
  | Some P, Some c => new_FilterBlockReader le c = t_filter t /\ is_Some (t_filter t)
  | _, _ => t_filter t = None
  end.

(** The first entry at or past [k]; it may be left out if it is no answer. *)
Definition answers (es : list (list Z * list Z)) (k : list Z) (saved : option (list Z * list Z)) : Prop :=
  let found := es !! seek_index es k in
  saved = found \/ saved = None /\ forall e, found = Some e -> ~ same k e.1.

Lemma answers_block k j e g : is_key k -> j = seek_index idx k -> idx !! j = Some e -> gs !! j = Some g ->
  answers (concat gs) k (g !! seek_index g k).
Proof using uninit le BlockCache0 Hptr Hsnappy Hcomp Hint Htab Hserve Hlen.
  intros Hk -> He Hg. unfold answers. rewrite (seek_table k Hk), Hg. pose proof (seek_index_le g k) as Hle.
  set (j := seek_index idx k) in *. destruct (decide (seek_index g k < length g)%nat) as [Hlt|Hge].
  { left. by rewrite (lookup_start gs j g). }
  assert (seek_index g k = length g) as E by lia. rewrite E, (proj2 (lookup_ge_None g (length g))) by lia.
  right. split; [done|]. intros y Hy. destruct (index_lookup j e He) as (g' & x & Hg' & Hl & _ & Hs & _).
  rewrite Hg in Hg'. injection Hg' as <-. apply Hs; [done| | |].
  - rewrite (concat_at gs j g Hg) in Hy. rewrite app_assoc, lookup_app_r in Hy by (rewrite length_app; unfold start; lia).
    by eapply list_elem_of_lookup_2.
  - apply below_klt. rewrite last_lookup in Hl. eapply seek_index_below; [|done]. apply lookup_lt_Some in Hl. lia.
  - rewrite <-below_klt. intros Hb. pose proof (seek_index_at idx k e He) as Hf. by rewrite Hb in Hf.
Qed.

Lemma excluded_spec t k j e g : filter_of t -> idx !! j = Some e -> gs !! j = Some g -> fkey policy k ->
  (forall P x y f, policy = Some P -> same x y -> FP_KeyMayMatch x f = FP_KeyMayMatch y f) ->
  exists ex : bool, (match policy, t_filter t with
    | Some P, Some filter =>
        '(s, handle, _) ← BlockHandle_DecodeFrom new_BlockHandle e.2;
        if Status_ok s then b ← Reader_KeyMayMatch le filter (h_offset handle) k; Some (negb b) else Some false
    | _, _ => Some false
    end) = Some ex /\ (ex = true -> forall x, x ∈ g -> ~ same k x.1).
Proof using Hsnappy Hcomp Hint Htab.
  intros Hf He Hg Hk Hs. pose proof (to_filter _ _ _ _ _ _ _ Htab) as Ht. unfold filter_of in Hf. unfold fkey in Hk.
  destruct (index_lookup j e He) as (_ & _ & _ & _ & _ & _ & -> & _). pose proof (handle_ok_at j g Hg) as Hh. clear Htab Hserve Hlen.
  destruct policy as [P|] eqn:EP; [|by exists false]. destruct fc as [c|]; [|done]. destruct Hf as [Hf [fr Efr]].
  rewrite Efr in Hf |- *. destruct Ht as (_ & _ & Ht). destruct (Ht le) as (fr' & E & Htot & Hpos). rewrite E in Hf. injection Hf as ->.
  rewrite <-(app_nil_r (handle_bytes _)), BlockHandle_DecodeFrom_spec by done. cbn [mbind option_bind].
  change (Status_ok kOk) with true. cbn match. change (h_offset (handle_at j)) with (off sd j).
  destruct (Htot (off sd j) k (off_nonneg _ _) Hk) as [b Eb]. rewrite Eb. cbn [mbind option_bind]. exists (negb b). split; [done|].
  intros Hb x Hx Hsame. specialize (Hpos j g x Hg Hx).
  rewrite (Reader_KeyMayMatch_ext le fr _ x.1 k) in Hpos by (intros f; symmetry; by apply (Hs P)).
  rewrite Eb in Hpos. injection Hpos as ->. done.
Qed.

Lemma ApproximateOffsetOf_spec t k : open_on t -> is_key k ->
  ApproximateOffsetOf le t k = Some (match idx !! seek_index idx k with Some _ => off sd (seek_index idx k) | None => h_offset (t_metaindex_handle t) end).
Proof using Hsnappy Hcomp Hint Htab.
  intros Ho Hk. unfold ApproximateOffsetOf. destruct (index_iterator t Ho) as (it & -> & Ha). cbn [mbind option_bind].
  destruct index_block_facts as (I1 & I2 & I3 & _). pose proof (block_is_cursor le 1 lw idx ltac:(lia) I1 I2 I3) as Hcur.
  destruct (cur_seek _ _ Hcur it _ k Hk Ha) as (it1 & -> & Ha1). cbn [mbind option_bind]. set (j := seek_index idx k) in *.
  destruct (idx !! j) as [e|] eqn:He; [|by rewrite (cur_end _ _ Hcur _ _ Ha1 He)].
  destruct (cur_get _ _ Hcur _ _ _ Ha1 He) as (-> & _ & ->). cbn [mbind option_bind].
  destruct (index_lookup j e He) as (g & _ & Hg & _ & _ & _ & -> & _).
  rewrite <-(app_nil_r (handle_bytes _)), BlockHandle_DecodeFrom_spec by (by eapply handle_ok_at). done.
Qed.

(** ** Opening *)
Notation footer := (table_footer lw snappy policy opts gs idx fc).

Lemma footer_fits : footer_ok footer.
Proof using Hlen.
  unfold table_bytes in Hlen. cbv zeta in Hlen. rewrite !length_app in Hlen. unfold stored_of in Hlen.
  pose proof (length_stored lw (pack snappy opts (block_bytes 1 lw idx)).1 (pack snappy opts (block_bytes 1 lw idx)).2) as L1.
  set (meta := block_bytes N lw (meta_entries policy (zlen (concat sd)) fc)) in *.
  pose proof (length_stored lw (pack snappy opts meta).1 (pack snappy opts meta).2) as L2. unfold kBlockTrailerSize in *.
  unfold footer_ok, handle_ok, table_footer, ones64, stored_of. cbv zeta. fold meta. cbn [metaindex_handle_ index_handle_ h_offset h_size].
  rewrite !length_app. lia.
Qed.

Lemma footer_at : drop (Z.to_nat (zlen bytes - kEncodedLength)) bytes = footer_bytes footer.
Proof using Hlen.
  pose proof (length_footer_bytes _ footer_fits) as Hl. unfold table_bytes. cbv zeta.
  rewrite !app_assoc, (length_app _ (footer_bytes _)), Nat2Z.inj_add, Hl. rewrite Z.add_simpl_r, Nat2Z.id. by rewrite drop_app_length.
Qed.

Definition meta_list : list (list Z * list Z) := meta_entries policy (zlen (concat sd)) fc.

Lemma filter_contents c : fc = Some c -> Forall is_byte c /\ zlen c < 2 ^ 32.
Proof using Htab.
  intros Hc. pose proof (to_filter _ _ _ _ _ _ _ Htab) as Hf. rewrite Hc in Hf. clear -Hf. destruct policy; [|done].
  by destruct Hf as (? & ? & _).
Qed.

Lemma meta_facts : fits_unsigned 64 (zlen (concat sd)) /\ small N meta_list /\ zlen (block_bytes N lw meta_list) < 2 ^ 32 /\
  Forall is_byte (block_bytes N lw meta_list).
Proof using Hint Htab Hlen.
  assert (zlen (concat sd) < 2 ^ 41) as Hd by (unfold table_bytes in Hlen; cbv zeta in Hlen; rewrite length_app in Hlen; lia).
  split; [unfold fits_unsigned; lia|].
  destruct (entries_total policy _ (to_entries _ _ _ _ _ _ _ Htab)) as (_ & _ & Hname).
  destruct (meta_entries_size policy (zlen (concat sd)) fc) as [Hw Ho]; [done|lia| |].
  { intros c Hc. by apply filter_contents. }
  fold meta_list in Hw, Ho.
  destruct (block_size N ltac:(lia) lw meta_list Hw) as (B1 & B2 & B3). split_and!; [done|lia|by apply B3].
Qed.
Lemma read_meta options : exists cach heap,
  read options (metaindex_handle_ footer) = Some (kOk, mkContents (block_bytes N lw meta_list) cach heap).
Proof using Hptr Hsnappy Hcomp Hint Htab Hserve Hlen.
  destruct meta_facts as (_ & _ & _ & Ho). unfold table_footer. cbv zeta. cbn [metaindex_handle_].
  eapply read_packed; [done|]. unfold table_bytes. cbv zeta. by rewrite <-!app_assoc.
Qed.

Lemma read_filter options c : fc = Some c -> exists cach heap,
  read options (mkHandle (zlen (concat sd)) (zlen c)) = Some (kOk, mkContents c cach heap).
Proof using Hptr Htab Hserve Hlen.
  intros Hc. destruct (filter_contents c Hc) as [Ho Hz].
  eapply (ReadBlock_spec le ptr snappy Hptr file options lw); [done| |done|lia|done|done|done].
  unfold table_bytes, stored_filter. cbv zeta. rewrite Hc at 1. done.
Qed.

Lemma ReadFilter_spec paranoid (t : Table F) c fr : fc = Some c -> new_FilterBlockReader le c = Some fr -> t_file t = file ->
  ReadFilter le ptr snappy paranoid (handle_bytes (mkHandle (zlen (concat sd)) (zlen c))) t = Some (set_t_filter fr t).
Proof using Hptr Htab Hserve Hlen.
  intros Hc Hfr Ht. destruct (filter_contents c Hc) as [_ Hz]. unfold ReadFilter.
  rewrite <-(app_nil_r (handle_bytes _)), BlockHandle_DecodeFrom_spec.
  2:{ unfold handle_ok, ones64. cbn [h_offset h_size]. unfold table_bytes in Hlen; cbv zeta in Hlen; rewrite length_app in Hlen; lia. }
  cbn [mbind option_bind]. change (Status_ok kOk) with true. cbn [negb]. rewrite Ht.
  destruct (read_filter (open_options paranoid) c Hc) as (cach & heap & ->). cbn [mbind option_bind].
  change (Status_ok kOk) with true. cbn [negb bc_data]. by rewrite Hfr.
Qed.

Lemma meta_seek P c : policy = Some P -> fc = Some c -> exists b it it',
  new_Block le uninit (block_bytes N lw meta_list) = Some b /\ NewIterator le b = Some it /\
  it_Seek (Iterator := @NewIter_Iterator Bytewise_Comparator le) it (filter_prefix ++ FP_Name) = Some it' /\
  it_Valid (Iterator := @NewIter_Iterator Bytewise_Comparator le) it' = true /\
  it_key (Iterator := @NewIter_Iterator Bytewise_Comparator le) it' = Some (filter_prefix ++ FP_Name) /\
  it_value (Iterator := @NewIter_Iterator Bytewise_Comparator le) it' = Some (handle_bytes (mkHandle (zlen (concat sd)) (zlen c))).
Proof using Hint Htab Hlen.
  intros HP Hc. destruct meta_facts as (_ & M2 & M3 & _).
  assert (meta_list = [(filter_prefix ++ FP_Name, handle_bytes (mkHandle (zlen (concat sd)) (zlen c)))]) as Em
    by (unfold meta_list, meta_entries, policy_name; by rewrite Hc, HP).
  assert (increasing (C := Bytewise_Comparator) meta_list) as Hi by (rewrite Em; repeat constructor).
  edestruct (block_opens le N lw meta_list) as (b & it & E1 & _ & E2 & Ha); [lia|done..|].
  pose proof (block_is_cursor (C := Bytewise_Comparator) le N lw meta_list ltac:(lia) Hi M2 M3) as Hcur.
  destruct (cur_seek _ _ Hcur it _ (filter_prefix ++ FP_Name) I Ha) as (it1 & E3 & Ha1). exists b, it, it1. split_and!; [done..| | |].
  all: rewrite Em in Ha1 at 2; cbn [seek_index] in Ha1; replace (below _ _) with false in Ha1
    by (symmetry; apply not_true_iff_false; rewrite below_klt; by apply klt_irrefl).
  all: edestruct (cur_get _ _ Hcur it1 0%nat) as (G1 & G2 & G3); [done|by rewrite Em|done].
Qed.

Lemma ReadMeta_spec paranoid (t : Table F) : t_file t = file -> t_filter t = None -> exists t',
  ReadMeta le ptr snappy policy paranoid uninit footer t = Some t' /\ t_file t' = file /\ t_cache_id t' = t_cache_id t /\
  t_metaindex_handle t' = t_metaindex_handle t /\ t_index_block t' = t_index_block t /\ filter_of t'.
Proof using Hptr Hsnappy Hcomp Hint Htab Hserve Hlen.
  intros Ht Hn. unfold ReadMeta, filter_of. pose proof (to_filter _ _ _ _ _ _ _ Htab) as Hf.
  pose proof (read_meta (open_options paranoid)) as (cach & heap & Er). pose proof meta_seek as Hms.
  pose proof (fun c fr => ReadFilter_spec paranoid t c fr) as Hrf. rewrite Ht. rewrite Er. clear Er.
  destruct policy as [P|] eqn:EP; [|exists t; by split_and!]. destruct fc as [c|] eqn:Ec; [|done].
  cbn [mbind option_bind]. change (Status_ok kOk) with true. cbn [negb bc_data].
  destruct (Hms P c eq_refl eq_refl) as (b & it & it' & -> & E2 & E3 & E4 & E5 & E6). cbn [mbind option_bind]. rewrite E2.
  cbn [mbind option_bind]. rewrite E3. cbn [mbind option_bind]. rewrite E4, E5. cbn [mbind option_bind]. rewrite bool_decide_true by done.
  rewrite E6. cbn [mbind option_bind]. destruct Hf as (_ & _ & Hf). destruct (Hf le) as (fr & Efr & _).
  rewrite (Hrf c fr) by done. eexists. split; [done|]. cbn [set_t_filter t_file t_cache_id t_metaindex_handle t_index_block t_filter].
  by split_and!.
Qed.

(** Nothing is cached under an identifier that was just handed out. *)
Definition fresh_id (cache : option K) : Prop :=
  match cache with
  | None => True
  | Some c => forall o b, fits_unsigned 64 o -> ~ cached c (cache_key le (cache_NewId c).1 o) b
  end.

(** The identifier comes from the cache, if there is one. *)
Definition took_id (cache : option K) (id : Z) (cache' : option K) : Prop :=
  match cache with Some c => cache' = Some (cache_NewId c).2 /\ id = (cache_NewId c).1 | None => cache' = None end.

Lemma table_long : kEncodedLength <= zlen bytes.
Proof using Hptr Hsnappy Hcomp Hint Htab Hlen.
  rewrite <-(length_footer_bytes _ footer_fits). unfold table_bytes. cbv zeta. rewrite !app_assoc, (length_app _ (footer_bytes _)). lia.
Qed.

Lemma Open_spec paranoid cache : fresh_id cache -> exists t cache',
  Open le ptr snappy policy paranoid uninit file (zlen bytes) cache = Some (kOk, Some t, cache') /\
  open_on t /\ filter_of t /\ cache_ok (t_cache_id t) cache' /\ t_metaindex_handle t = metaindex_handle_ footer /\
  took_id cache (t_cache_id t) cache'.
Proof using Hptr Hsnappy Hcomp Hint Htab Hserve Hlen.
  intros Hfresh. unfold Open. pose proof (length_footer_bytes _ footer_fits) as Hl. pose proof footer_at as Hat. pose proof table_long as Hge.
  rewrite (proj2 (Z.ltb_ge _ _)) by done. destruct (Hserve (zlen bytes - kEncodedLength) kEncodedLength) as [scratch E]; [lia|done|].
  rewrite E, Hat, take_ge by lia. change (Status_ok kOk) with true. cbn [negb].
  rewrite <-(app_nil_r (footer_bytes _)), Footer_DecodeFrom_spec by apply footer_fits.
  cbn [mbind option_bind]. change (Status_ok kOk) with true. cbn [negb].
  destruct (read_index (open_options paranoid)) as (cach & heap & ->). cbn [mbind option_bind]. change (Status_ok kOk) with true.
  cbn [negb bc_data]. destruct index_block_facts as (I1 & I2 & I3 & _).
  edestruct (block_opens le 1 lw idx) as (b & it & Eb & _ & _ & _); [lia|done..|]. rewrite Eb. cbn [mbind option_bind].
  assert (exists id cache', (match cache with Some c => let '(id, c) := cache_NewId c in (id, Some c) | None => (0, None) end) = (id, cache') /\
    cache_ok id cache' /\ took_id cache id cache') as (id & cache' & -> & Hc & Hid).
  { destruct cache as [c|]; [|by exists 0, None]. unfold took_id. unfold fresh_id in Hfresh. pose proof (cache_NewId_spec c) as Hn.
    destruct (cache_NewId c) as [id c']. exists id, (Some c'). split; [done|]. split; [|done]. intros o b' Ho Hin. destruct (Hfresh o b' Ho). by apply Hn. }
  destruct (ReadMeta_spec paranoid (mkTable file id None (metaindex_handle_ footer) b)) as (t & -> & T1 & T2 & T3 & T4 & T5); [done..|].
  cbn [mbind option_bind]. exists t, cache'. split; [done|]. rewrite T2. unfold open_on. by rewrite T4.
Qed.
(** ** A lookup *)
Hypothesis same_match : forall P x y f, policy = Some P -> same x y -> FP_KeyMayMatch x f = FP_KeyMayMatch y f.

Lemma InternalGet_spec out t options cache k : zlen out + 2 <= 2 ^ 20 -> open_on t -> filter_of t -> cache_ok (t_cache_id t) cache -> handles_out cache out ->
  is_key k -> fkey policy k ->
  exists saved cache', InternalGet le ptr snappy policy uninit t options cache k = Some (kOk, saved, cache') /\
    answers (concat gs) k saved /\ cache_ok (t_cache_id t) cache' /\ handles_out cache' out /\ adds (t_cache_id t) cache cache'.
Proof using Hptr Hsnappy Hcomp Hint Htab Hserve Hlen same_match.
  intros Hout Ho Hfo Hc Hco Hk Hfk. pose proof (table_two_level out cache t options Hout Ho) as Hok. pose proof (reads_start out _ _ Hc Hco) as Hst0. unfold InternalGet.
  destruct (index_iterator t Ho) as (it & -> & Ha). cbn [mbind option_bind].
  destruct (cur_seek _ _ (ok_index _ _ _ _ _ _ _ _ Hok) it _ k Hk Ha) as (it1 & -> & Ha1). cbn [mbind option_bind].
  pose proof (cur_ok _ _ (ok_index _ _ _ _ _ _ _ _ Hok) _ _ Ha1) as Hst. set (j := seek_index idx k) in *.
  destruct (idx !! j) as [e|] eqn:He.
  - destruct (cur_get _ _ (ok_index _ _ _ _ _ _ _ _ Hok) _ _ _ Ha1 He) as (-> & _ & ->). cbn [mbind option_bind].
    destruct (index_lookup j e He) as (g & _ & Hg & _ & _ & _ & Hh & _).
    destruct (excluded_spec t k j e g) as (ex & -> & Hex); [done..|]. cbn [mbind option_bind].
    pose proof (answers_block k j e g Hk eq_refl He Hg) as Hans. destruct ex.
    + cbn [mbind option_bind]. change (Status_ok kOk) with true. rewrite Hst. eexists None, cache. split; [done|]. split; [|exact Hst0].
      right. split; [done|]. intros x Hx Hs. destruct Hans as [E|[_ Hn]]; [|by eapply Hn].
      rewrite Hx in E. eapply Hex; [done|by eapply list_elem_of_lookup_2|done].
    + destruct (ok_open _ _ _ _ _ _ _ _ Hok [] cache j e g Hst0 (Nat.le_0_l 1) He Hg) as (bit & h & c1 & -> & Hc1 & Hb). cbn [mbind option_bind].
      pose proof (ok_data _ _ _ _ _ _ _ _ Hok j g Hg) as Hcur. destruct (cur_seek _ _ Hcur bit _ k Hk Hb) as (bit1 & -> & Hb1). cbn [mbind option_bind].
      pose proof (cursor_observe _ _ _ _ Hcur Hb1) as Hobs. unfold observe in Hobs. rewrite Hobs. cbn [mbind option_bind].
      rewrite (cur_ok _ _ Hcur _ _ Hb1). destruct (ReleaseBlock_spec out cache _ [] h [] c1 Hc1) as (c2 & -> & Hc2). cbn [mbind option_bind].
      change (Status_ok kOk) with true. rewrite Hst. eexists _, _. split; [done|]. by split.
  - rewrite (cur_end _ _ (ok_index _ _ _ _ _ _ _ _ Hok) _ _ Ha1 He). cbn [mbind option_bind]. change (Status_ok kOk) with true. rewrite Hst.
    eexists None, cache. split; [done|]. split; [|exact Hst0]. left. rewrite (seek_table k Hk). fold j.
    apply lookup_ge_None in He. rewrite (to_length _ _ _ _ _ _ _ Htab) in He. rewrite (proj2 (lookup_ge_None gs j)) by done.
    symmetry. by apply lookup_ge_None.
Qed.

End read_back.

(** ** Tables, written and read back *)
Definition build_table (le : bool) (ptr : list Z -> Z) (snappy : Snappy) {C : Comparator} {S : Separators C}
  (policy : option FilterPolicy) (opts : Options) (es : list (list Z * list Z)) : option (Code * TBRep (list Z)) :=
  r ← new_TableBuilder policy opts [];
  r ← TableBuilder_add_all le ptr snappy policy es r;
  TableBuilder_Finish le ptr snappy policy r.

Section gets.
Context (le : bool) (ptr : list Z -> Z) (snappy : Snappy) {C : Comparator} (policy : option FilterPolicy) (uninit : Z).
Context {F : Type} `{!RandomAccessFile F} {K : Type} `{!BlockCache K}.

(** Lookups one after the other, through one cache. *)
Fixpoint InternalGets (t : Table F) (cache : option K) (ks : list (ReadOptions * list Z)) :
  option (list (Code * option (list Z * list Z)) * option K) :=
  match ks with
  | [] => Some ([], cache)
  | (options, k) :: ks =>
      '(s, saved, cache) ← InternalGet le ptr snappy policy uninit t options cache k;
      '(rs, cache) ← InternalGets t cache ks;
      Some ((s, saved) :: rs, cache)
  end.
End gets.

Lemma table_built lw ptr snappy {C : Comparator} {S : Separators C} policy opts es :
  addresses ptr -> Snappy_inverse snappy -> o_compression opts = kNoCompression \/ o_compression opts = kSnappyCompression ->
  1 <= o_block_restart_interval opts -> entries_ok policy es ->
  exists r gs idx fc, build_table lw ptr snappy policy opts es = Some (kOk, r) /\
    tb_file r = table_bytes lw snappy policy opts gs idx fc /\ tb_offset r = zlen (tb_file r) /\ num_entries r = zlen es /\ concat gs = es /\
    table_ok lw snappy policy opts gs idx fc /\ zlen (tb_file r) < 2 ^ 41.
Proof.
  intros Hptr Hsn Hcomp Hint He. unfold build_table.
  destruct (new_TableBuilder_spec lw snappy policy opts Hint) as (r0 & -> & Hi0). cbn [mbind option_bind].
  destruct (TableBuilder_add_all_spec lw ptr snappy policy opts Hptr Hsn Hcomp Hint es r0 [] [] []) as (r1 & gs & cur & idx & -> & Hi1 & Ec); [done..|].
  cbn [mbind option_bind concat app] in *. rewrite <-Ec in He.
  destruct (TableBuilder_Finish_spec lw ptr snappy policy opts Hptr Hsn Hcomp Hint r1 gs cur idx He Hi1)
    as (r & gs' & idx' & fc & E & H1 & H2 & H3 & H4 & H5 & H6).
  exists r, gs', idx', fc. rewrite H4 in H3. by rewrite <-Ec.
Qed.

Section gets_spec.
Context (le lw : bool) (ptr : list Z -> Z) (snappy : Snappy).
Context {C : Comparator} {S : Separators C} (policy : option FilterPolicy) (opts : Options) (uninit : Z).
Context (Hptr : addresses ptr) (Hsnappy : Snappy_inverse snappy).
Context (Hcomp : o_compression opts = kNoCompression \/ o_compression opts = kSnappyCompression).
Context (Hint : 1 <= o_block_restart_interval opts).
Context {F : Type} `{!RandomAccessFile F} {K : Type} `{!BlockCache K}.
Context (gs : list (list (list Z * list Z))) (idx : list (list Z * list Z)) (fc : option (list Z)) (file : F).
Context (Htab : table_ok lw snappy policy opts gs idx fc).
Context (Hserve : serves file (table_bytes lw snappy policy opts gs idx fc)).
Context (Hlen : zlen (table_bytes lw snappy policy opts gs idx fc) < 2 ^ 41).
Context (same_match : forall P x y f, policy = Some P -> same x y -> FP_KeyMayMatch x f = FP_KeyMayMatch y f).

Lemma InternalGets_spec out t ks : zlen out + 2 <= 2 ^ 20 -> open_on le lw uninit idx file t -> filter_of le policy fc t ->
  Forall (fun q => is_key q.2 /\ fkey policy q.2) ks -> forall cache, cache_ok le lw snappy opts uninit gs (t_cache_id t) cache -> handles_out cache out ->
  exists rs cache', InternalGets le ptr snappy policy uninit t cache ks = Some (rs, cache') /\ handles_out cache' out /\
    Forall2 (fun q r => r.1 = kOk /\ answers (concat gs) q.2 r.2) ks rs.
Proof using Hptr Hsnappy Hcomp Hint Htab Hserve Hlen same_match.
  intros Hout Ho Hf. induction 1 as [|[options k] ks [Hk Hfk] _ IH]; intros cache Hc Hco; cbn [InternalGets]; [by exists [], cache|].
  cbn [snd] in *. destruct (InternalGet_spec le lw ptr snappy policy opts uninit Hptr Hsnappy Hcomp Hint gs idx fc file Htab Hserve Hlen
    same_match out t options cache k Hout Ho Hf Hc Hco Hk Hfk) as (saved & c1 & -> & Ha & Hc1 & Hco1 & _).
  cbn [mbind option_bind]. destruct (IH c1 Hc1 Hco1) as (rs & c2 & -> & Hco2 & Hrs). cbn [mbind option_bind].
  eexists _, _. split; [done|]. split; [done|]. by constructor.
Qed.
End gets_spec.

Lemma took_out {K : Type} `{!BlockCache K} (cache : option K) id cache' hs : took_id cache id cache' -> handles_out cache hs -> handles_out cache' hs.
Proof. destruct cache as [c|]; [|by intros ->]. intros [-> _] Ho. by apply cache_NewId_out. Qed.

(** ** Properties *)

(** C9 (table_iterator_correct) The file that the builder writes for increasing
    entries opens, and its two-level iterator is a cursor over the entries:
    whatever seeks and steps a caller makes, what it sees is what the same
    moves on the list of entries show, and the status stays ok.  The byte orders
    of the writer and the reader, compression, the filter policy, the cache and
    how the file serves reads are arbitrary.  Other users of the cache may hold
    handles, [out]; once the iterator is destroyed the handles that are out are
    these again. *)
Theorem table_iterator_correct (lw le : bool) ptr snappy {C : Comparator} {S : Separators C} policy opts uninit es
  {F : Type} `{!RandomAccessFile F} {K : Type} `{!BlockCache K} (file : F) (cache : option K) out options os vs :
  addresses ptr -> Snappy_inverse snappy -> o_compression opts = kNoCompression \/ o_compression opts = kSnappyCompression ->
  1 <= o_block_restart_interval opts -> entries_ok policy es -> fresh_id le cache -> handles_out cache out -> zlen out + 2 <= 2 ^ 20 ->
  targets_ok os -> spec_isteps es (length es) os = Some vs ->
  exists r, build_table lw ptr snappy policy opts es = Some (kOk, r) /\
    (serves file (tb_file r) ->
     exists t cache' it it' cache2, Open le ptr snappy policy (o_paranoid_checks opts) uninit file (tb_offset r) cache = Some (kOk, Some t, cache') /\
       Table_NewIterator le t cache' = Some it /\
       isteps (Iterator0 := Table_Iterator le ptr snappy uninit t options) it os = Some (vs, it') /\
       it_status (Iterator := Table_Iterator le ptr snappy uninit t options) it' = kOk /\
       delete_TwoLevelIterator ReleaseBlock it' = Some cache2 /\ handles_out cache2 out).
Proof.
  intros Hptr Hsn Hcomp Hint He Hfresh Hco Hout Ht Hvs.
  destruct (table_built lw ptr snappy policy opts es) as (r & gs & idx & fc & Eb & Hf & Hz & _ & Ec & Hok & Hlen); [done..|].
  exists r. split; [done|]. rewrite Hz, Hf in *. intros Hs.
  destruct (Open_spec le lw ptr snappy policy opts uninit Hptr Hsn Hcomp Hint gs idx fc file Hok Hs Hlen (o_paranoid_checks opts) cache Hfresh)
    as (t & cache' & E & Ho & _ & Hc & _ & Htook).
  pose proof (reads_start le lw snappy opts uninit gs out _ _ Hc (took_out _ _ _ _ Htook Hco)) as Hr.
  pose proof (table_two_level le lw ptr snappy policy opts uninit Hptr Hsn Hcomp Hint gs idx fc file Hok Hs Hlen out cache' t options Hout Ho) as H2.
  destruct (index_iterator le lw snappy policy opts uninit Hsn Hcomp Hint gs idx fc file Hok t Ho) as (iit & Ei & Hi).
  destruct (NewTwoLevelIterator_spec _ _ _ _ _ _ _ _ H2 iit cache' Hi Hr) as (tl & Etl & Hat).
  rewrite <-Ec in Hvs. destruct (cursor_isteps _ _ os (two_level_is_cursor _ _ _ _ _ _ _ _ H2) tl _ vs Hat Ht Hvs) as (it' & i & E1 & Ha' & E2).
  destruct (delete_TwoLevelIterator_spec _ _ _ _ _ _ _ _ H2 it' i Ha') as (cache2 & E3 & _ & Hco2 & _).
  exists t, cache', tl, it', cache2. split_and!; try done. unfold Table_NewIterator. rewrite Ei. done.
Qed.

#[export] Instance Block_eq_dec : EqDecision Block.
Proof. solve_decision. Defined.

(** A cache that forgets nothing, for the examples: the last identifier, the
    entries, and the blocks that are held. *)
Definition list_release (b : Block) (c : Z * list (list Z * Block) * list Block) : option (Z * list (list Z * Block) * list Block) :=
  '(i, _) ← list_find (fun x => x = b) c.2; Some (c.1, delete i c.2).

#[refine] Definition list_cache : BlockCache (Z * list (list Z * Block) * list Block) := {|
  cache_handle := Block;
  cache_NewId c := (c.1.1 + 1, (c.1.1 + 1, c.1.2, c.2));
  cache_Lookup key c :=
    match list_find (fun e => e.1 = key) c.1.2 with
    | Some (_, e) => Some (Some e.2, (c.1, e.2 :: c.2))
    | None => Some (None, c)
    end;
  cache_Value b c := if bool_decide (b ∈ c.2) then Some b else None;
  cache_Insert key b _ c := Some (b, (c.1.1, (key, b) :: c.1.2, b :: c.2));
  cache_Release := list_release;
  cached c key b := (key, b) ∈ c.1.2;
  next_id c := c.1.1 + 1;
  cache_out c hs := c.2 ≡ₚ hs;
|}.
Proof.
  - intros c hs hs' Hp H. by rewrite H.
  - done.
  - done.
  - done.
  - intros key [[n es] held] hs Ho _. cbn in *. destruct (list_find _ _) as [[i [k' b]]|] eqn:E; eexists _, _; (split; [done|]); cbn; [|done].
    split; [done|]. split; [done|]. split; [by rewrite Ho|]. exists b. rewrite bool_decide_true by (by left). split; [done|].
    apply list_find_Some in E as (E & Ek & _). simpl in *. subst. by eapply list_elem_of_lookup_2.
  - intros key b n [[m es] held] hs Ho _ _. cbn in *. eexists _, _. split; [done|]. cbn. split; [done|]. split; [by rewrite Ho|].
    intros key' b' [[= -> ->]|H]%elem_of_cons; [by left|by right].
  - intros b [[n es] held] hs Ho. cbn in *. unfold list_release. cbn.
    destruct (list_find_elem_of (fun x => x = b) held b) as [[i x] E]; [rewrite Ho; by left|done|]. rewrite E. cbn. eexists. split; [done|]. cbn.
    split; [done|]. split; [|done]. apply list_find_Some in E as (E & -> & _). apply delete_Permutation in E. apply (Permutation_cons_inv (a := b)). by etrans; [symmetry; exact E|].
Defined.

Definition example_options : Options := mkOptions kNoCompression 1 16 true.
Definition no_snappy : Snappy := mkSnappy (fun _ => None) (fun _ => None) (fun _ => None).
Definition example_bloom : FilterPolicy := Bloom_FilterPolicy true (mkBloom 10 6) bloom_10_ok.

Lemma serves_itself (f : list Z) : serves f f.
Proof. intros off n _ _. by exists true. Qed.

Lemma table_iterator_correct_witness :
  let es := [([97; 97], [1]); ([97; 97; 98], []); ([97; 98; 99], [2; 3]); ([98], [4])] in
  let os := [OSeek [97; 98]; OPrev; OPrev; ONext; OLast; ONext; OFirst] in
  let build := build_table true (fun _ => 1) no_snappy (S := Bytewise_Separators) (Some example_bloom) example_options es in
  let I t := Table_Iterator (C := Bytewise_Comparator) (BlockCache0 := list_cache) false (fun _ => 1) no_snappy 0 t default_ReadOptions in
  exists r t cache' it it' cache2, build = Some (kOk, r) /\
    Open (BlockCache0 := list_cache) false (fun _ => 1) no_snappy (Some example_bloom) true 0 (tb_file r) (tb_offset r) (Some (0, [], [])) =
      Some (kOk, Some t, cache') /\
    Table_NewIterator (C := Bytewise_Comparator) false t cache' = Some it /\
    isteps (Iterator0 := I t) it os =
      Some ([Some ([97; 98; 99], [2; 3]); Some ([97; 97; 98], []); Some ([97; 97], [1]);
             Some ([97; 97; 98], []); Some ([98], [4]); None; Some ([97; 97], [1])], it') /\
    it_status (Iterator := I t) it' = kOk /\
    delete_TwoLevelIterator (ReleaseBlock (BlockCache0 := list_cache)) it' = Some cache2 /\ handles_out (BlockCache0 := list_cache) cache2 [].
Proof.
  intros es os build I.
  destruct (table_iterator_correct true false (fun _ => 1) no_snappy (S := Bytewise_Separators) (Some example_bloom) example_options 0 es
    (F := list Z) (BlockCache0 := list_cache) (match build with Some (_, r) => tb_file r | None => [] end) (Some (0, [], [])) [] default_ReadOptions os
    [Some ([97; 98; 99], [2; 3]); Some ([97; 97; 98], []); Some ([97; 97], [1]);
     Some ([97; 97; 98], []); Some ([98], [4]); None; Some ([97; 97], [1])]) as (r & E & H).
  - done.
  - by intros raw c _ ?.
  - by left.
  - done.
  - constructor.
    + vm_compute. repeat constructor; by eexists.
    + repeat constructor; done.
    + repeat constructor.
    + by vm_compute.
  - intros o b _ Hin. by apply elem_of_nil in Hin.
  - apply perm_nil.
  - done.
  - repeat constructor.
  - vm_compute. reflexivity.
  - subst build. rewrite E in H. destruct (H (serves_itself _)) as (t & cache' & it & it' & cache2 & H1 & H2 & H3 & H4).
    exists r, t, cache', it, it', cache2. exact (conj E (conj H1 (conj H2 (conj H3 H4)))).
Defined.

(** C8 (table_get_correct) Lookups on a table that the builder wrote, any
    number of them through one cache: each succeeds, and hands to its callback
    nothing or the first entry at or past the key.  When that entry answers the
    lookup (it has the same key, or for internal keys the same user key) it is
    handed over: neither the filter nor a shortened separator of the index loses
    it.  Every handle of the cache that a lookup takes is released: the handles
    that are out at the end are those of the other users, [out]. *)
Theorem table_get_correct (lw le : bool) ptr snappy {C : Comparator} {S : Separators C} policy opts uninit es
  {F : Type} `{!RandomAccessFile F} {K : Type} `{!BlockCache K} (file : F) (cache : option K) out ks :
  addresses ptr -> Snappy_inverse snappy -> o_compression opts = kNoCompression \/ o_compression opts = kSnappyCompression ->
  1 <= o_block_restart_interval opts -> entries_ok policy es -> fresh_id le cache -> handles_out cache out -> zlen out + 2 <= 2 ^ 20 ->
  (forall P x y f, policy = Some P -> same x y -> FP_KeyMayMatch x f = FP_KeyMayMatch y f) ->
  Forall (fun q => is_key q.2 /\ fkey policy q.2) ks ->
  exists r, build_table lw ptr snappy policy opts es = Some (kOk, r) /\
    (serves file (tb_file r) ->
     exists t cache' rs cache2, Open le ptr snappy policy (o_paranoid_checks opts) uninit file (tb_offset r) cache = Some (kOk, Some t, cache') /\
       InternalGets le ptr snappy policy uninit t cache' ks = Some (rs, cache2) /\ handles_out cache2 out /\
       Forall2 (fun q r => r.1 = kOk /\ answers es q.2 r.2) ks rs).
Proof.
  intros Hptr Hsn Hcomp Hint He Hfresh Hco Hout Hsame Hks.
  destruct (table_built lw ptr snappy policy opts es) as (r & gs & idx & fc & Eb & Hf & Hz & _ & Ec & Hok & Hlen); [done..|].
  exists r. split; [done|]. rewrite Hz, Hf in *. intros Hs.
  destruct (Open_spec le lw ptr snappy policy opts uninit Hptr Hsn Hcomp Hint gs idx fc file Hok Hs Hlen (o_paranoid_checks opts) cache Hfresh)
    as (t & cache' & E & Ho & Hfo & Hc & _ & Htook). pose proof (took_out _ _ _ _ Htook Hco) as Hco'.
  edestruct (InternalGets_spec le lw ptr snappy policy opts uninit) as (rs & cache2 & E2 & Hco2 & Hrs); [done..|].
  rewrite Ec in Hrs. by exists t, cache', rs, cache2.
Qed.

Lemma table_get_correct_witness :
  let es := [(ikey [97] 1281, [1]); (ikey [97] 769, [2]); (ikey [97; 98; 99] 1025, [3]); (ikey [98] 256, [])] in
  let P := Some (InternalFilterPolicy example_bloom) in
  let build := build_table true (fun _ => 1) no_snappy (S := InternalKey_Separators true) P example_options es in
  let ks := [(default_ReadOptions, ikey [97] 1023); (mkReadOptions true false, ikey [97; 98] 511); (default_ReadOptions, ikey [98] 511)] in
  exists r t cache' rs cache2, build = Some (kOk, r) /\
    Open (BlockCache0 := list_cache) true (fun _ => 1) no_snappy P true 0 (tb_file r) (tb_offset r) (Some (0, [], [])) =
      Some (kOk, Some t, cache') /\
    InternalGets (C := InternalKey_Comparator true) (BlockCache0 := list_cache) true (fun _ => 1) no_snappy P 0 t cache' ks = Some (rs, cache2) /\ handles_out (BlockCache0 := list_cache) cache2 [] /\
    Forall2 (fun q r => r.1 = kOk /\ answers (S := InternalKey_Separators true) es q.2 r.2) ks rs.
Proof.
  intros es P build ks.
  assert (forall u n, fits_unsigned 64 n -> is_ikey (ikey u n)) as Hik by (intros u n Hn; by exists u, n).
  destruct (table_get_correct true true (fun _ => 1) no_snappy (S := InternalKey_Separators true) P example_options 0 es
    (F := list Z) (BlockCache0 := list_cache) (match build with Some (_, r) => tb_file r | None => [] end) (Some (0, [], [])) [] ks) as (r & E & H).
  - done.
  - by intros raw c _ ?.
  - by left.
  - done.
  - constructor.
    + split; [repeat constructor; apply Hik; done|]. vm_compute; repeat constructor; by eexists.
    + repeat constructor; done.
    + vm_compute. repeat constructor; by eexists.
    + by vm_compute.
  - intros o b _ Hin. by apply elem_of_nil in Hin.
  - apply perm_nil.
  - done.
  - intros P' x y f [= <-] Hxy. cbn [FP_KeyMayMatch InternalFilterPolicy]. unfold InternalFilterPolicy_KeyMayMatch.
    change (ExtractUserKey x = ExtractUserKey y) in Hxy. by rewrite Hxy.
  - subst ks. repeat apply Forall_cons_2; [..|constructor]; (split; [by apply Hik|vm_compute; by eexists]).
  - subst build. rewrite E in H. destruct (H (serves_itself _)) as (t & cache' & rs & cache2 & H1 & H2 & H3).
    exists r, t, cache', rs, cache2. exact (conj E (conj H1 (conj H2 H3))).
Defined.

(** What the builder leaves behind is well formed: the
    file is a string of octets with the footer's magic number at its end,
    [FileSize] is its length, within 64 bits, and [NumEntries] counts the
    entries. *)
Theorem table_file_typed lw ptr snappy {C : Comparator} {S : Separators C} policy opts es :
  addresses ptr -> Snappy_inverse snappy -> o_compression opts = kNoCompression \/ o_compression opts = kSnappyCompression ->
  1 <= o_block_restart_interval opts -> entries_ok policy es ->
  exists r, build_table lw ptr snappy policy opts es = Some (kOk, r) /\ Forall is_byte (tb_file r) /\
    FileSize r = zlen (tb_file r) /\ FileSize r < 2 ^ 41 /\ NumEntries r = zlen es /\
    exists a, tb_file r = a ++ le_enc 8 kTableMagicNumber.
Proof.
  intros Hptr Hsn Hcomp Hint He. unfold FileSize, NumEntries.
  destruct (table_built lw ptr snappy policy opts es) as (r & gs & idx & fc & Eb & Hf & Hz & Hn & Ec & Hok & Hlen); [done..|].
  exists r. split; [done|]. rewrite Hz. rewrite Hf in *. split; [|split; [done|split; [done|split; [done|]]]].
  - eapply table_octets; [done..|]. by eapply footer_fits.
  - unfold table_bytes, footer_bytes. cbv zeta. rewrite !app_assoc. by eexists.
Qed.

Lemma table_file_typed_witness :
  let es := [([97; 97], [1]); ([97; 97; 98], []); ([97; 98; 99], [2; 3]); ([98], [4])] in
  exists r, build_table false (fun _ => 1) no_snappy (S := Bytewise_Separators) (Some example_bloom) example_options es = Some (kOk, r) /\
    Forall is_byte (tb_file r) /\ FileSize r = zlen (tb_file r) /\ FileSize r < 2 ^ 41 /\ NumEntries r = 4 /\
    exists a, tb_file r = a ++ le_enc 8 kTableMagicNumber.
Proof.
  intros es. apply (table_file_typed false (fun _ => 1) no_snappy (S := Bytewise_Separators) (Some example_bloom) example_options es).
  - done.
  - by intros raw c _ ?.
  - by left.
  - done.
  - constructor.
    + vm_compute. repeat constructor; by eexists.
    + repeat constructor; done.
    + repeat constructor.
    + by vm_compute.
Defined.

(** C39 (table_open_short_read) [Table::Open] does not look at how much of the
    footer it got: when the file is shorter than the caller says, so that the
    read succeeds with fewer than 48 octets, [Footer::DecodeFrom] reads the magic
    number from outside of them. *)
Theorem table_open_short_read le ptr snappy policy paranoid uninit {F : Type} `{!RandomAccessFile F} {K : Type} `{!BlockCache K}
  (file : F) (cache : option K) size footer scratch :
  kEncodedLength <= size -> Read_at (size - kEncodedLength) kEncodedLength file = (kOk, footer, scratch) ->
  zlen footer < kEncodedLength ->
  Open le ptr snappy policy paranoid uninit file size cache = None.
Proof.
  intros Hs Er Hl. unfold Open. rewrite (proj2 (Z.ltb_ge _ _)) by done. rewrite Er. change (Status_ok kOk) with true. cbn [negb].
  unfold Footer_DecodeFrom. destruct (DecodeFixed32 le (drop (Z.to_nat (kEncodedLength - 8)) footer)) as [lo|]; [|done].
  cbn [mbind option_bind]. rewrite DecodeFixed32_short; [done|]. rewrite length_drop.
  unfold kEncodedLength, kMaxEncodedLength in *. lia.
Qed.

Lemma table_open_short_read_witness :
  Open (BlockCache0 := list_cache) true (fun _ => 1) no_snappy None true 0 (replicate 47 0) 48 None = None.
Proof.
  apply (table_open_short_read true (fun _ => 1) no_snappy None true 0 (BlockCache0 := list_cache) (replicate 47 0) None 48 (replicate 47 0) true); done.
Defined.
