(* ===== verification/Cache.v ===== *)
(** The LRU cache: [src/leveldb/util/cache.cc].

    A handle is a number; [heap] has the handles that are allocated, so that
    the use of a freed one is [None], like a failed assertion.  The chains of
    the hash table and the list in order of access are lists of handles: a slot
    of a chain is a position in it, and taking a handle out of a list that it is
    not in is [None].  [deleted] is the trace of the calls of the deleters.

    The cache refines a list of entries, oldest first, and keeps the contract
    that the table reader relies on ([BlockCache]). *)
From S2P Require Import Prelude Coding Iterator Block Filter TableRead.

Section lru_cache.
Context {V : Type}.

Record LRUHandle := mkLRUHandle { lh_value : V; charge : Z; refs : Z; hash : Z; lh_key : list Z }.
Implicit Types (hp : gmap nat LRUHandle) (h : nat).

(** ** The hash table *)
Record HandleTable := mkHandleTable { length_ : Z; elems_ : Z; list_ : list (list nat) }.

(** The slot of the entry that matches, or the one that ends the chain. *)
Fixpoint find_slot hp (key : list Z) (hash_ : Z) (chain : list nat) : option nat :=
  match chain with
  | [] => Some O
  | h :: chain =>
      e ← hp !! h;
      if negb (hash e =? hash_) || negb (bool_decide (key = lh_key e)) then S <$> find_slot hp key hash_ chain
      else Some O
  end.

Definition FindPointer hp (key : list Z) (hash_ : Z) (t : HandleTable) : option (nat * list nat * nat) :=
  let i := Z.to_nat (Z.land hash_ (wrap 32 (length_ t - 1))) in
  chain ← list_ t !! i;
  p ← find_slot hp key hash_ chain;
  Some (i, chain, p).

Definition HT_Lookup hp (key : list Z) (hash_ : Z) (t : HandleTable) : option (option nat) :=
  '(_, chain, p) ← FindPointer hp key hash_ t;
  Some (chain !! p).

Fixpoint new_length (fuel : nat) (n elems : Z) : option Z :=
  match fuel with
  | O => None
  | S fuel => if n <? elems then new_length fuel (wrap 32 (n * 2)) elems else Some n
  end.

(** Each entry goes to the front of its new chain. *)
Fixpoint rehash_chain hp (len : Z) (chain : list nat) (new_list : list (list nat)) (count : Z) : option (list (list nat) * Z) :=
  match chain with
  | [] => Some (new_list, count)
  | h :: chain =>
      e ← hp !! h;
      let i := Z.to_nat (Z.land (hash e) (wrap 32 (len - 1))) in
      c ← new_list !! i;
      rehash_chain hp len chain (<[i := h :: c]> new_list) (wrap 32 (count + 1))
  end.

Fixpoint rehash_all hp (len : Z) (chains : list (list nat)) (new_list : list (list nat)) (count : Z) : option (list (list nat) * Z) :=
  match chains with
  | [] => Some (new_list, count)
  | chain :: chains =>
      '(new_list, count) ← rehash_chain hp len chain new_list count;
      rehash_all hp len chains new_list count
  end.

Definition Resize hp (t : HandleTable) : option HandleTable :=
  len ← new_length 40 4 (elems_ t);
  '(new_list, count) ← rehash_all hp len (list_ t) (replicate (Z.to_nat len) []) 0;
  _ ← passert (elems_ t =? count);
  Some (mkHandleTable len (elems_ t) new_list).

Definition new_HandleTable : option HandleTable := Resize ∅ (mkHandleTable 0 0 []).

(** The entry that was replaced, and the table. *)
Definition HT_Insert hp h (t : HandleTable) : option (option nat * HandleTable) :=
  e ← hp !! h;
  '(i, chain, p) ← FindPointer hp (lh_key e) (hash e) t;
  let old := chain !! p in
  let list := <[i := take p chain ++ h :: drop (S p) chain]> (list_ t) in
  match old with
  | Some _ => Some (old, mkHandleTable (length_ t) (elems_ t) list)
  | None =>
      let t := mkHandleTable (length_ t) (wrap 32 (elems_ t + 1)) list in
      t ← (if length_ t <? elems_ t then Resize hp t else Some t);
      Some (None, t)
  end.

Definition HT_Remove hp (key : list Z) (hash_ : Z) (t : HandleTable) : option (option nat * HandleTable) :=
  '(i, chain, p) ← FindPointer hp key hash_ t;
  match chain !! p with
  | Some h => Some (Some h, mkHandleTable (length_ t) (wrap 32 (elems_ t - 1)) (<[i := take p chain ++ drop (S p) chain]> (list_ t)))
  | None => Some (None, t)
  end.

(** ** One shard *)
Record LRUCache := mkLRUCache {
  capacity_ : Z;
  usage_ : Z;
  lru_ : list nat;
  table_ : HandleTable;
  heap : gmap nat LRUHandle;
  next_handle : nat;
  deleted : list (list Z * V);
}.
Implicit Types c : LRUCache.

Definition set_lru l c : LRUCache := mkLRUCache (capacity_ c) (usage_ c) l (table_ c) (heap c) (next_handle c) (deleted c).
Definition set_table t c : LRUCache := mkLRUCache (capacity_ c) (usage_ c) (lru_ c) t (heap c) (next_handle c) (deleted c).
Definition set_heap hp u d c : LRUCache := mkLRUCache (capacity_ c) u (lru_ c) (table_ c) hp (next_handle c) d.
Definition set_refs (n : Z) (e : LRUHandle) : LRUHandle := mkLRUHandle (lh_value e) (charge e) n (hash e) (lh_key e).

Definition new_LRUCache (capacity : Z) : option LRUCache :=
  t ← new_HandleTable;
  Some (mkLRUCache capacity 0 [] t ∅ O []).

Definition Unref h c : option LRUCache :=
  e ← heap c !! h;
  _ ← passert (0 <? refs e);
  let n := refs e - 1 in
  Some (if n <=? 0 then set_heap (delete h (heap c)) (wrap 64 (usage_ c - charge e)) (deleted c ++ [(lh_key e, lh_value e)]) c
        else set_heap (<[h := set_refs n e]> (heap c)) (usage_ c) (deleted c) c).

Definition LRU_Remove h c : option LRUCache :=
  _ ← passert (bool_decide (h ∈ lru_ c));
  Some (set_lru (filter (fun x => x <> h) (lru_ c)) c).
Definition LRU_Append h c : LRUCache := set_lru (lru_ c ++ [h]) c.

Definition LRU_Lookup (key : list Z) (hash_ : Z) c : option (option nat * LRUCache) :=
  r ← HT_Lookup (heap c) key hash_ (table_ c);
  match r with
  | None => Some (None, c)
  | Some h =>
      e ← heap c !! h;
      let c := set_heap (<[h := set_refs (wrap 32 (refs e + 1)) e]> (heap c)) (usage_ c) (deleted c) c in
      c ← LRU_Remove h c;
      Some (Some h, LRU_Append h c)
  end.

Definition LRU_Release h c : option LRUCache := Unref h c.

Fixpoint evict (fuel : nat) c : option LRUCache :=
  match fuel with
  | O => None
  | S fuel =>
      if capacity_ c <? usage_ c then
        match lru_ c with
        | [] => Some c
        | old :: _ =>
            c ← LRU_Remove old c;
            e ← heap c !! old;
            '(_, t) ← HT_Remove (heap c) (lh_key e) (hash e) (table_ c);
            c ← Unref old (set_table t c);
            evict fuel c
        end
      else Some c
  end.

(** Takes a handle that left the table out of the cache. *)
Definition drop_handle (old : option nat) c : option LRUCache :=
  match old with
  | Some h => c ← LRU_Remove h c; Unref h c
  | None => Some c
  end.

Definition LRU_Insert (key : list Z) (hash_ : Z) (value : V) (charge_ : Z) c : option (nat * LRUCache) :=
  let h := next_handle c in
  let e := mkLRUHandle value charge_ 2 hash_ key in
  let c := mkLRUCache (capacity_ c) (usage_ c) (lru_ c) (table_ c) (<[h := e]> (heap c)) (S h) (deleted c) in
  let c := LRU_Append h c in
  let c := set_heap (heap c) (wrap 64 (usage_ c + charge_)) (deleted c) c in
  '(old, t) ← HT_Insert (heap c) h (table_ c);
  c ← drop_handle old (set_table t c);
  c ← evict (S (length (lru_ c))) c;
  Some (h, c).

Definition LRU_Erase (key : list Z) (hash_ : Z) c : option LRUCache :=
  '(r, t) ← HT_Remove (heap c) key hash_ (table_ c);
  drop_handle r (set_table t c).

(** [l] are the handles that the loop has yet to pass. *)
Fixpoint prune_loop (l : list nat) c : option LRUCache :=
  match l with
  | [] => Some c
  | h :: l =>
      e ← heap c !! h;
      c ← (if refs e =? 1 then
             '(_, t) ← HT_Remove (heap c) (lh_key e) (hash e) (table_ c);
             c ← LRU_Remove h (set_table t c);
             Unref h c
           else Some c);
      prune_loop l c
  end.
Definition LRU_Prune c : option LRUCache := prune_loop (lru_ c) c.

(** The destructor. *)
Fixpoint delete_loop (l : list nat) c : option LRUCache :=
  match l with
  | [] => Some c
  | h :: l =>
      e ← heap c !! h;
      _ ← passert (refs e =? 1);
      c ← Unref h c;
      delete_loop l c
  end.
Definition LRU_delete c : option LRUCache := delete_loop (lru_ c) c.
End lru_cache.
#[global] Arguments LRUHandle V : clear implicits.
#[global] Arguments LRUCache V : clear implicits.

(** ** The shards *)
Definition kNumShardBits : Z := 4.
Definition kNumShards : Z := Z.shiftl 1 kNumShardBits.

Section sharded.
Context {V : Type} (le : bool).

Record ShardedLRUCache := mkSharded { shard_ : list (LRUCache V); last_id_ : Z }.
Implicit Types s : ShardedLRUCache.

Definition HashSlice (key : list Z) : option Z := Hash le key 0.
Definition Shard (hash_ : Z) : Z := Z.shiftr hash_ (32 - kNumShardBits).

Definition NewLRUCache (capacity : Z) : option ShardedLRUCache :=
  let per_shard := wrap 64 (capacity + (kNumShards - 1)) / kNumShards in
  c ← new_LRUCache per_shard;
  Some (mkSharded (replicate (Z.to_nat kNumShards) c) 0).

(** An operation on the shard of a key. *)
Definition on_shard {A} (hash_ : Z) (f : LRUCache V -> option (A * LRUCache V)) s : option (A * ShardedLRUCache) :=
  let i := Z.to_nat (Shard hash_) in
  c ← shard_ s !! i;
  '(r, c) ← f c;
  Some (r, mkSharded (<[i := c]> (shard_ s)) (last_id_ s)).

Definition Cache_Insert (key : list Z) (value : V) (charge_ : Z) s : option (nat * ShardedLRUCache) :=
  hash_ ← HashSlice key;
  on_shard hash_ (LRU_Insert key hash_ value charge_) s.

Definition Cache_Lookup (key : list Z) s : option (option nat * ShardedLRUCache) :=
  hash_ ← HashSlice key;
  on_shard hash_ (LRU_Lookup key hash_) s.

(** The handle is a pointer into its shard. *)
Definition Cache_Release (shard : Z) (h : nat) s : option ShardedLRUCache :=
  c ← shard_ s !! Z.to_nat shard;
  e ← heap c !! h;
  '(_, s) ← on_shard (hash e) (fun c => c ← LRU_Release h c; Some (tt, c)) s;
  Some s.

Definition Cache_Erase (key : list Z) s : option ShardedLRUCache :=
  hash_ ← HashSlice key;
  '(_, s) ← on_shard hash_ (fun c => c ← LRU_Erase key hash_ c; Some (tt, c)) s;
  Some s.

Definition Cache_Value (shard : Z) (h : nat) s : option V :=
  c ← shard_ s !! Z.to_nat shard;
  e ← heap c !! h;
  Some (lh_value e).

Definition Cache_NewId s : Z * ShardedLRUCache :=
  let id := wrap 64 (last_id_ s + 1) in
  (id, mkSharded (shard_ s) id).

Definition Cache_Prune s : option ShardedLRUCache :=
  cs ← mapM LRU_Prune (shard_ s);
  Some (mkSharded cs (last_id_ s)).

Definition TotalCharge s : Z := fold_left (fun total c => wrap 64 (total + usage_ c)) (shard_ s) 0.
End sharded.
#[global] Arguments ShardedLRUCache V : clear implicits.

(** ** The hash table is a set of handles with different keys *)
Section table_rep.
Context {V : Type} (hf : list Z -> Z) (Hhf : forall k, fits_unsigned 32 (hf k)).
Implicit Types (hp : gmap nat (LRUHandle V)) (h : nat) (ids : list nat) (t : HandleTable).

(** Every handle of the table is allocated, with the hash of its key. *)
Definition keyed hp ids (f : nat -> list Z) : Prop :=
  forall h, h ∈ ids -> exists e, hp !! h = Some e /\ lh_key e = f h /\ hash e = hf (f h).

Definition bucket_of (len : Z) (k : list Z) : nat := Z.to_nat (hf k mod len).

Record table_rep t ids (f : nat -> list Z) : Prop := {
  tr_size : exists k : Z, 2 <= k <= 31 /\ length_ t = 2 ^ k;
  tr_length : zlen (list_ t) = length_ t;
  tr_perm : concat (list_ t) ≡ₚ ids;
  tr_elems : elems_ t = zlen ids;
  tr_bucket i chain h : list_ t !! i = Some chain -> h ∈ chain -> bucket_of (length_ t) (f h) = i;
}.

Lemma land_bucket len k x : (exists j : Z, 2 <= j <= 31 /\ len = 2 ^ j) -> fits_unsigned 32 x -> x = hf k ->
  Z.to_nat (Z.land x (wrap 32 (len - 1))) = bucket_of len k.
Proof.
  intros (j & Hj & ->) Hx ->. unfold bucket_of. rewrite wrap_fits.
  - replace (2 ^ j - 1) with (Z.ones j) by (rewrite Z.ones_equiv; lia). by rewrite Z.land_ones by lia.
  - pose proof (Z.pow_le_mono_r 2 j 31). pose proof (Z.pow_pos_nonneg 2 j). split; lia.
Qed.

Lemma bucket_lt t ids f k : table_rep t ids f -> (bucket_of (length_ t) k < length (list_ t))%nat.
Proof using Hhf.
  intros [(j & Hj & E) Hl _ _ _]. unfold bucket_of. rewrite E in *. pose proof (Z.pow_pos_nonneg 2 j).
  pose proof (Z.mod_pos_bound (hf k) (2 ^ j)). lia.
Qed.

Lemma find_slot_spec hp chain f k : keyed hp chain f -> exists p, find_slot hp k (hf k) chain = Some p /\
  (p <= length chain)%nat /\
  (forall h, chain !! p = Some h -> f h = k) /\ (forall h, h ∈ take p chain -> f h <> k).
Proof.
  induction chain as [|h chain IH]; intros Hk; cbn [find_slot]; [exists O; split_and!; [done|simpl; lia|done|by intros ? ?%elem_of_nil]|].
  destruct (Hk h) as (e & -> & E1 & E2); [by left|]. cbn [mbind option_bind]. rewrite E1, E2.
  destruct (decide (f h = k)) as [<-|Hne].
  - rewrite Z.eqb_refl, bool_decide_true by done. exists O. split; [done|]. split; [simpl; lia|]. split; [by intros ? [= <-]|].
    by intros ? ?%elem_of_nil.
  - rewrite (bool_decide_false (k = f h)) by congruence. rewrite orb_true_r.
    destruct IH as (p & -> & H1 & H2 & H3); [intros x Hx; apply Hk; by right|]. exists (S p). split; [done|].
    split; [simpl; lia|]. split; [done|]. intros x [-> |Hx]%elem_of_cons; [done|by apply H3].
Qed.

Lemma keyed_app hp ids ids' f : keyed hp ids f -> (forall h, h ∈ ids' -> h ∈ ids) -> keyed hp ids' f.
Proof. intros H Hs h Hh. by apply H, Hs. Qed.

Lemma chain_in t ids f i chain h : table_rep t ids f -> list_ t !! i = Some chain -> h ∈ chain -> h ∈ ids.
Proof. intros [_ _ <- _ _] Hi Hh. apply elem_of_concat. eauto using list_elem_of_lookup_2. Qed.

Lemma FindPointer_spec hp t ids f k : table_rep t ids f -> keyed hp ids f -> exists chain p (i := bucket_of (length_ t) k),
  FindPointer hp k (hf k) t = Some (i, chain, p) /\ list_ t !! i = Some chain /\ (p <= length chain)%nat /\
  (forall h, chain !! p = Some h -> f h = k) /\ (chain !! p = None -> forall h, h ∈ ids -> f h <> k).
Proof using Hhf.
  intros Ht Hk. unfold FindPointer. rewrite (land_bucket _ k) by (apply Ht || done).
  destruct (lookup_lt_is_Some_2 (list_ t) (bucket_of (length_ t) k)) as [chain Hc]; [by eapply bucket_lt|].
  rewrite Hc. cbn [mbind option_bind].
  destruct (find_slot_spec hp chain f k) as (p & -> & H1 & H2 & H3); [eapply keyed_app; [done|intros; by eapply chain_in]|].
  cbn [mbind option_bind]. exists chain, p. split_and!; [done..|]. intros Hn h Hh Hf.
  apply lookup_ge_None in Hn. rewrite take_ge in H3 by done. rewrite <-(tr_perm _ _ _ Ht) in Hh.
  apply elem_of_concat in Hh as (chain' & Hh & [i Hi]%list_elem_of_lookup).
  pose proof (tr_bucket _ _ _ Ht i chain' h Hi Hh) as E. rewrite Hf in E. rewrite E in Hc. rewrite Hc in Hi. injection Hi as <-.
  by eapply H3.
Qed.

Lemma HT_Lookup_spec hp t ids f k : table_rep t ids f -> keyed hp ids f -> exists r, HT_Lookup hp k (hf k) t = Some r /\
  match r with Some h => h ∈ ids /\ f h = k | None => forall h, h ∈ ids -> f h <> k end.
Proof using Hhf.
  intros Ht Hk. destruct (FindPointer_spec hp t ids f k Ht Hk) as (chain & p & E & Hc & _ & H1 & H2).
  unfold HT_Lookup. rewrite E. cbn [mbind option_bind]. eexists. split; [done|].
  destruct (chain !! p) as [h|] eqn:Hp; [|by apply H2]. split; [|by apply H1].
  eapply chain_in; [done..|by eapply list_elem_of_lookup_2].
Qed.

(** The parts of the representation that a resize keeps: the chains are a
    partition of the handles by their hash. *)
Record chains_rep (len : Z) (ls : list (list nat)) ids (f : nat -> list Z) : Prop := {
  cr_length : zlen ls = len;
  cr_perm : concat ls ≡ₚ ids;
  cr_bucket i chain h : ls !! i = Some chain -> h ∈ chain -> bucket_of len (f h) = i;
}.

Lemma chains_update len ls ids ids' f i chain chain' : chains_rep len ls ids f -> ls !! i = Some chain ->
  chain' ++ ids ≡ₚ chain ++ ids' -> (forall h, h ∈ chain' -> bucket_of len (f h) = i) ->
  chains_rep len (<[i := chain']> ls) ids' f.
Proof.
  intros [H1 H2 H3] Hi Hp Hb. constructor.
  - by rewrite length_insert.
  - apply (Permutation_app_inv_l chain). rewrite <-Hp, <-H2. symmetry. by apply concat_insert.
  - intros j c h Hj Hh. destruct (decide (j = i)) as [-> | Hne].
    + rewrite list_lookup_insert_eq in Hj by (by eapply lookup_lt_Some). injection Hj as <-. by apply Hb.
    + rewrite list_lookup_insert_ne in Hj by done. by eapply H3.
Qed.

Lemma new_length_spec fuel j elems : 2 <= j <= 31 -> (Z.to_nat (31 - j) < fuel)%nat -> elems <= 2 ^ 31 ->
  exists k, new_length fuel (2 ^ j) elems = Some (2 ^ k) /\ 2 <= k <= 31 /\ elems <= 2 ^ k.
Proof.
  revert j. induction fuel as [|fuel IH]; intros j Hj Hf He; [lia|]. cbn [new_length].
  destruct (Z.ltb_spec (2 ^ j) elems) as [Hlt|]; [|exists j; split_and!; [done|lia|lia|lia]].
  assert (j < 31) by (destruct (decide (j = 31)) as [-> |]; lia).
  replace (2 ^ j * 2) with (2 ^ (j + 1)) by (rewrite Z.pow_add_r by lia; lia). rewrite wrap_fits.
  - apply IH; lia.
  - pose proof (Z.pow_le_mono_r 2 (j + 1) 31). pose proof (Z.pow_pos_nonneg 2 (j + 1)). split; lia.
Qed.

Lemma rehash_chain_spec hp len chain f : (exists j : Z, 2 <= j <= 31 /\ len = 2 ^ j) -> keyed hp chain f ->
  forall ls ids n, chains_rep len ls ids f -> 0 <= n -> n + zlen chain < 2 ^ 32 ->
  exists ls', rehash_chain hp len chain ls n = Some (ls', n + zlen chain) /\ chains_rep len ls' (chain ++ ids) f.
Proof using Hhf.
  intros Hlen. induction chain as [|h chain IH]; intros Hk ls ids n Hr Hn Hz; cbn [rehash_chain]; [rewrite Z.add_0_r; eauto|].
  destruct (Hk h) as (e & -> & E1 & E2); [by left|]. cbn [mbind option_bind]. rewrite (land_bucket len (f h)) by (done || by rewrite E2).
  assert (bucket_of len (f h) < length ls)%nat as Hlt.
  { unfold bucket_of. destruct Hr as [Hl _ _]. destruct Hlen as (j & Hj & ->). pose proof (Z.pow_pos_nonneg 2 j).
    pose proof (Z.mod_pos_bound (hf (f h)) (2 ^ j)). lia. }
  destruct (lookup_lt_is_Some_2 _ _ Hlt) as [c Hc]. rewrite Hc. cbn [mbind option_bind]. cbn [length] in Hz. rewrite wrap_fits by (split; lia).
  destruct (IH ltac:(intros x Hx; apply Hk; by right) (<[bucket_of len (f h) := h :: c]> ls) (h :: ids) (n + 1)) as (ls' & E & Hr'); [|lia..|].
  - eapply chains_update; [done..| |].
    + by rewrite <-app_comm_cons, Permutation_middle.
    + intros x [-> |Hx]%elem_of_cons; [done|]. by eapply cr_bucket.
  - exists ls'. rewrite E. split; [f_equal; f_equal; cbn [length]; lia|]. destruct Hr' as [A1 A2 A3]. constructor; [done| |done].
    rewrite A2. by rewrite <-Permutation_middle.
Qed.

Lemma rehash_all_spec hp len chains f : (exists j : Z, 2 <= j <= 31 /\ len = 2 ^ j) -> keyed hp (concat chains) f ->
  forall ls ids n, chains_rep len ls ids f -> 0 <= n -> n + zlen (concat chains) < 2 ^ 32 ->
  exists ls', rehash_all hp len chains ls n = Some (ls', n + zlen (concat chains)) /\ chains_rep len ls' (concat chains ++ ids) f.
Proof using Hhf.
  intros Hlen. induction chains as [|c chains IH]; intros Hk ls ids n Hr Hn Hz; cbn [rehash_all concat] in *; [rewrite Z.add_0_r; eauto|].
  rewrite length_app in Hz. destruct (rehash_chain_spec hp len c f Hlen) with ls ids n as (l1 & -> & H1); [|done|done|lia|].
  { intros x Hx. apply Hk, elem_of_app. by left. }
  cbn [mbind option_bind]. destruct (IH ltac:(intros x Hx; apply Hk, elem_of_app; by right) l1 (c ++ ids) (n + zlen c)) as (l2 & -> & [A1 A2 A3]);
    [done|lia..|].
  exists l2. rewrite length_app. split; [f_equal; f_equal; lia|]. constructor; [done| |done].
  rewrite A2. rewrite <-app_assoc. apply Permutation_app_swap_app.
Qed.

Lemma Resize_spec hp t ids f : keyed hp ids f -> concat (list_ t) ≡ₚ ids -> elems_ t = zlen ids -> zlen ids <= 2 ^ 31 ->
  exists t', Resize hp t = Some t' /\ table_rep t' ids f.
Proof using Hhf.
  intros Hk Hp He Hz. unfold Resize. change 4 with (2 ^ 2). rewrite He.
  destruct (new_length_spec 40 2 (zlen ids)) as (k & -> & Hk1 & Hk2); [lia..|]. cbn [mbind option_bind].
  assert (exists j : Z, 2 <= j <= 31 /\ 2 ^ k = 2 ^ j) as Hj by eauto. pose proof (Z.pow_pos_nonneg 2 k).
  assert (zlen (concat (list_ t)) = zlen ids) as El by (by rewrite Hp).
  destruct (rehash_all_spec hp (2 ^ k) (list_ t) f Hj) with (replicate (Z.to_nat (2 ^ k)) ([] : list nat)) ([] : list nat) 0
    as (ls & -> & [A1 A2 A3]).
  - intros x Hx. apply Hk. by rewrite <-Hp.
  - constructor; [rewrite length_replicate; lia| |].
    + by induction (Z.to_nat (2 ^ k)).
    + intros i c h [-> _]%lookup_replicate. by intros ?%elem_of_nil.
  - done.
  - lia.
  - cbn [mbind option_bind]. rewrite El, Z.eqb_refl. cbn [passert mbind option_bind]. eexists. split; [done|].
    constructor; cbn [length_ list_ elems_]; [by exists k|done|by rewrite A2, app_nil_r|done|done].
Qed.

Lemma table_chains t ids f : table_rep t ids f -> chains_rep (length_ t) (list_ t) ids f.
Proof. intros []. by constructor. Qed.

Lemma table_of_chains t ids f : (exists k : Z, 2 <= k <= 31 /\ length_ t = 2 ^ k) -> elems_ t = zlen ids ->
  chains_rep (length_ t) (list_ t) ids f -> table_rep t ids f.
Proof. intros Hs He []. by constructor. Qed.

Lemma HT_Remove_spec hp t ids f k : table_rep t ids f -> keyed hp ids f -> zlen ids <= 2 ^ 31 ->
  exists r t', HT_Remove hp k (hf k) t = Some (r, t') /\
  match r with
  | Some h => h ∈ ids /\ f h = k /\ forall ids', ids ≡ₚ h :: ids' -> table_rep t' ids' f
  | None => (forall h, h ∈ ids -> f h <> k) /\ t' = t
  end.
Proof using Hhf.
  intros Ht Hk Hz. destruct (FindPointer_spec hp t ids f k Ht Hk) as (chain & p & E & Hc & _ & H1 & H2).
  unfold HT_Remove. rewrite E. cbn [mbind option_bind]. destruct (chain !! p) as [h|] eqn:Hp; [|eexists _, _; split; [done|split; [by apply H2|done]]].
  eexists _, _. split; [done|]. split; [eapply chain_in; [done..|by eapply list_elem_of_lookup_2]|]. split; [by apply H1|].
  intros ids' Hids. apply table_of_chains; cbn [length_ elems_ list_]; [apply Ht| |].
  - rewrite (tr_elems _ _ _ Ht), Hids. cbn [length].
    assert (zlen ids = zlen ids' + 1) as Hl by (rewrite Hids; cbn [length]; lia). rewrite wrap_fits by (split; lia). lia.
  - eapply chains_update; [by apply table_chains|done| |].
    + rewrite Hids. transitivity ((take p chain ++ h :: drop (S p) chain) ++ ids'); [|by rewrite take_drop_middle].
      by rewrite <-!app_assoc, <-app_comm_cons, <-!Permutation_middle.
    + intros x Hx. eapply (tr_bucket _ _ _ Ht); [done|]. apply elem_of_app in Hx as [Hx|Hx]; [by eapply take_incl|by eapply drop_incl].
Qed.

Lemma HT_Insert_spec hp t ids f h : table_rep t ids f -> keyed hp (h :: ids) f -> zlen ids < 2 ^ 31 ->
  exists old t', HT_Insert hp h t = Some (old, t') /\
  match old with
  | Some o => o ∈ ids /\ f o = f h /\ forall ids', ids ≡ₚ o :: ids' -> table_rep t' (h :: ids') f
  | None => (forall x, x ∈ ids -> f x <> f h) /\ table_rep t' (h :: ids) f
  end.
Proof using Hhf.
  intros Ht Hk Hz. assert (keyed hp ids f) as Hk' by (intros x Hx; apply Hk; by right).
  destruct (Hk h) as (e & He & E1 & E2); [by left|]. unfold HT_Insert. rewrite He. cbn [mbind option_bind]. rewrite E1, E2.
  destruct (FindPointer_spec hp t ids f (f h) Ht Hk') as (chain & p & E & Hc & Hle & H1 & H2). rewrite E. cbn [mbind option_bind].
  assert (forall x, x ∈ take p chain ++ h :: drop (S p) chain -> bucket_of (length_ t) (f x) = bucket_of (length_ t) (f h)) as Hb.
  { intros x [Hx|[-> |Hx]%elem_of_cons]%elem_of_app; [|done|]; (eapply (tr_bucket _ _ _ Ht); [done|]);
      [by eapply take_incl|by eapply drop_incl]. }
  destruct (chain !! p) as [o|] eqn:Hp.
  - eexists _, _. split; [done|]. split; [eapply chain_in; [done..|by eapply list_elem_of_lookup_2]|]. split; [by apply H1|].
    intros ids' Hids. apply table_of_chains; cbn [length_ elems_ list_]; [apply Ht|rewrite (tr_elems _ _ _ Ht), Hids; done|].
    eapply chains_update; [by apply table_chains|done| |done].
    rewrite Hids. transitivity ((take p chain ++ o :: drop (S p) chain) ++ h :: ids'); [|by rewrite take_drop_middle].
    rewrite <-!app_assoc, <-!app_comm_cons, <-!Permutation_middle.
    apply Permutation_swap.
  - assert (chains_rep (length_ t) (<[bucket_of (length_ t) (f h) := take p chain ++ h :: drop (S p) chain]> (list_ t)) (h :: ids) f) as Hr.
    { eapply chains_update; [by apply table_chains|done| |done]. apply lookup_ge_None in Hp.
      rewrite take_ge, drop_ge by lia. by rewrite <-app_assoc. }
    cbn [length_ elems_]. rewrite (tr_elems _ _ _ Ht). rewrite wrap_fits by (split; lia).
    set (t1 := mkHandleTable _ _ _).
    assert (exists t', (if length_ t <? zlen ids + 1 then Resize hp t1 else Some t1) = Some t' /\ table_rep t' (h :: ids) f) as (t' & -> & Ht').
    { destruct (_ <? _).
      - apply Resize_spec; [done|apply Hr|subst t1; cbn [elems_ length]; lia|cbn [length]; lia].
      - eexists. split; [done|]. apply table_of_chains; [apply Ht|subst t1; cbn [elems_ length]; lia|done]. }
    cbn [mbind option_bind]. eexists _, _. split; [done|]. split; [by apply H2|done].
Qed.

Lemma table_rep_perm t ids ids' f : ids ≡ₚ ids' -> table_rep t ids f -> table_rep t ids' f.
Proof. intros Hp [H1 H2 H3 H4 H5]. constructor; [done|done|by rewrite H3|by rewrite H4, Hp|done]. Qed.
End table_rep.

(** ** What the cache promises

    The entries in the cache, oldest first, and the references that callers
    hold.  A value is deleted when its entry is in neither. *)
Section spec.
Context {V : Type}.

Record entry := mkEntry { ce_id : nat; ce_key : list Z; ce_value : V; ce_charge : Z }.
Implicit Types (e : entry) (all cached held : list entry).

Record acache := mkACache { a_cached : list entry; a_held : list entry; a_deleted : list (list Z * V); a_next : nat }.
Implicit Types s : acache.

Definition ids all : list nat := ce_id <$> all.
Definition live all (h : nat) : bool := bool_decide (h ∈ ids all).

Fixpoint live_charge all : Z :=
  match all with
  | [] => 0
  | e :: all => (if live all (ce_id e) then 0 else ce_charge e) + live_charge all
  end.

(** The trace after a reference to [e] is given up; [all] are those left. *)
Definition unref e all (d : list (list Z * V)) : list (list Z * V) :=
  if live all (ce_id e) then d else d ++ [(ce_key e, ce_value e)].

Definition find_key (k : list Z) cached : option entry := snd <$> list_find (fun e => ce_key e = k) cached.
Definition without (k : list Z) cached : list entry := filter (fun e => ce_key e <> k) cached.

Fixpoint spec_evict (capacity : Z) cached held d : list entry * list (list Z * V) :=
  match cached with
  | [] => ([], d)
  | o :: cached' =>
      if capacity <? live_charge (cached ++ held) then spec_evict capacity cached' held (unref o (cached' ++ held) d)
      else (cached, d)
  end.

Definition spec_Insert (capacity : Z) (k : list Z) (v : V) (c : Z) s : nat * acache :=
  let e := mkEntry (a_next s) k v c in
  let cached := without k (a_cached s) ++ [e] in
  let held := e :: a_held s in
  let d := match find_key k (a_cached s) with Some o => unref o (cached ++ held) (a_deleted s) | None => a_deleted s end in
  let '(cached, d) := spec_evict capacity cached held d in
  (a_next s, mkACache cached held d (S (a_next s))).

Definition spec_Lookup (k : list Z) s : option nat * acache :=
  match find_key k (a_cached s) with
  | Some e => (Some (ce_id e), mkACache (without k (a_cached s) ++ [e]) (e :: a_held s) (a_deleted s) (a_next s))
  | None => (None, s)
  end.

(** Only a handle that was returned and not given back may be released. *)
Definition spec_Release (h : nat) s : option acache :=
  '(i, e) ← list_find (fun e => ce_id e = h) (a_held s);
  let held := delete i (a_held s) in
  Some (mkACache (a_cached s) held (unref e (a_cached s ++ held) (a_deleted s)) (a_next s)).

Definition spec_Erase (k : list Z) s : acache :=
  match find_key k (a_cached s) with
  | Some e => mkACache (without k (a_cached s)) (a_held s) (unref e (without k (a_cached s) ++ a_held s) (a_deleted s)) (a_next s)
  | None => s
  end.

(** What nobody holds goes. *)
Definition spec_Prune s : acache :=
  mkACache (filter (fun e => ce_id e ∈ ids (a_held s)) (a_cached s)) (a_held s)
    (a_deleted s ++ ((fun e => (ce_key e, ce_value e)) <$> filter (fun e => ce_id e ∉ ids (a_held s)) (a_cached s))) (a_next s).

Inductive cache_op := CInsert (k : list Z) (v : V) (c : Z) | CLookup (k : list Z) | CRelease (h : nat) | CErase (k : list Z) | CPrune.

(** The handle that is returned, if any. *)
Definition spec_cache_op (capacity : Z) s (o : cache_op) : option (option nat * acache) :=
  match o with
  | CInsert k v c => let '(h, s) := spec_Insert capacity k v c s in Some (Some h, s)
  | CLookup k => Some (spec_Lookup k s)
  | CRelease h => s ← spec_Release h s; Some (None, s)
  | CErase k => Some (None, spec_Erase k s)
  | CPrune => Some (None, spec_Prune s)
  end.
End spec.
#[global] Arguments entry V : clear implicits.
#[global] Arguments acache V : clear implicits.
#[global] Arguments cache_op V : clear implicits.

Definition lru_cache_op {V} (hf : list Z -> Z) (c : LRUCache V) (o : cache_op V) : option (option nat * LRUCache V) :=
  match o with
  | CInsert k v ch => '(h, c) ← LRU_Insert k (hf k) v ch c; Some (Some h, c)
  | CLookup k => LRU_Lookup k (hf k) c
  | CRelease h => c ← LRU_Release h c; Some (None, c)
  | CErase k => c ← LRU_Erase k (hf k) c; Some (None, c)
  | CPrune => c ← LRU_Prune c; Some (None, c)
  end.

(** Any operations, one after the other. *)
Fixpoint run_ops {S O R} (step : S -> O -> option (R * S)) (s : S) (os : list O) : option (list R * S) :=
  match os with
  | [] => Some ([], s)
  | o :: os =>
      '(r, s) ← step s o;
      '(rs, s) ← run_ops step s os;
      Some (r :: rs, s)
  end.

(** ** References *)
Section references.
Context {V : Type} (hf : list Z -> Z).
Implicit Types (e o : entry V) (all cached held : list (entry V)) (hp : gmap nat (LRUHandle V)) (c : LRUCache V).

Definition count all (h : nat) : nat := length (filter (fun e => ce_id e = h) all).

Definition handle_of e (n : nat) : LRUHandle V := mkLRUHandle (ce_value e) (ce_charge e) (Z.of_nat n) (hf (ce_key e)) (ce_key e).

Record heap_rep hp all : Prop := {
  hr_in e : e ∈ all -> hp !! ce_id e = Some (handle_of e (count all (ce_id e)));
  hr_out h : h ∉ ids all -> hp !! h = None;
}.

Lemma live_spec all h : live all h = true <-> h ∈ ids all.
Proof. apply bool_decide_eq_true. Qed.

Lemma count_live all h : live all h = (0 <? Z.of_nat (count all h)).
Proof.
  unfold live, count. induction all as [|e all IH]; [done|]. unfold ids in *. cbn [fmap list_fmap]. rewrite filter_cons.
  destruct (decide (ce_id e = h)) as [<-|Hne].
  - rewrite bool_decide_true by (by left). symmetry. apply Z.ltb_lt. cbn [length]. lia.
  - rewrite <-IH. apply bool_decide_ext. rewrite elem_of_cons. naive_solver.
Qed.

Lemma count_cons e all h : count (e :: all) h = ((if decide (ce_id e = h) then 1 else 0) + count all h)%nat.
Proof. unfold count. rewrite filter_cons. by destruct (decide _). Qed.

Lemma count_le all h : (count all h <= length all)%nat.
Proof. induction all as [|e all IH]; [done|]. rewrite count_cons. destruct (decide _); cbn [length]; lia. Qed.

Lemma filter_le (P : entry V -> Prop) `{!forall x, Decision (P x)} all : (length (filter P all) <= length all)%nat.
Proof. induction all as [|e all IH]; [done|]. rewrite filter_cons. destruct (decide _); cbn [length]; lia. Qed.

Lemma ids_perm all all' : all ≡ₚ all' -> ids all ≡ₚ ids all'.
Proof. unfold ids. by intros ->. Qed.

Lemma count_perm all all' h : all ≡ₚ all' -> count all h = count all' h.
Proof. unfold count. by intros ->. Qed.

Lemma live_perm all all' h : all ≡ₚ all' -> live all h = live all' h.
Proof. intros Hp. rewrite !count_live. by rewrite (count_perm _ _ h Hp). Qed.

Lemma heap_perm hp all all' : all ≡ₚ all' -> heap_rep hp all -> heap_rep hp all'.
Proof.
  intros Hp [H1 H2]. constructor.
  - intros e He. rewrite <-(count_perm _ _ _ Hp). apply H1. by rewrite Hp.
  - intros h Hh. apply H2. by rewrite (ids_perm _ _ Hp).
Qed.

Lemma heap_same hp all e e' : heap_rep hp all -> e ∈ all -> e' ∈ all -> ce_id e = ce_id e' -> e = e'.
Proof.
  intros [H1 _] He He' E. pose proof (H1 e He) as A1. pose proof (H1 e' He') as A2. rewrite E, A2 in A1.
  destruct e, e'. cbn in *. unfold handle_of in A1. cbn in A1. injection A1. congruence.
Qed.

Lemma live_charge_perm all all' : (forall e e', e ∈ all -> e' ∈ all -> ce_id e = ce_id e' -> e = e') -> all ≡ₚ all' ->
  live_charge all = live_charge all'.
Proof.
  intros Hs. induction 1 as [|e l l' Hp IH|e e' l|l l' l'' Hp IH Hp' IH']; cbn [live_charge]; [done| | |].
  - rewrite (live_perm _ _ _ Hp), IH; [done|]. intros; apply Hs; [by right..|done].
  - unfold live, ids. cbn [fmap list_fmap]. destruct (decide (ce_id e = ce_id e')) as [E|Hne].
    + rewrite (Hs e e') by (set_solver || done). done.
    + rewrite (bool_decide_ext (ce_id e' ∈ ce_id e :: _) (ce_id e' ∈ ce_id <$> l)) by (rewrite elem_of_cons; naive_solver).
      rewrite (bool_decide_ext (ce_id e ∈ ce_id e' :: _) (ce_id e ∈ ce_id <$> l)) by (rewrite elem_of_cons; naive_solver). lia.
  - rewrite IH, IH'; [done| |done]. intros e e'. rewrite <-Hp. apply Hs.
Qed.

Lemma live_charge_nonneg all : Forall (fun e => 0 <= ce_charge e) all -> 0 <= live_charge all.
Proof. induction 1 as [|e all He _ IH]; cbn [live_charge]; [done|]. destruct (live _ _); lia. Qed.

Lemma Unref_spec c e all : heap_rep (heap c) (e :: all) -> usage_ c = live_charge (e :: all) ->
  Forall (fun e => 0 <= ce_charge e) (e :: all) -> live_charge (e :: all) < 2 ^ 64 ->
  exists hp', Unref (ce_id e) c = Some (set_heap hp' (live_charge all) (unref e all (deleted c)) c) /\ heap_rep hp' all.
Proof.
  intros Hr Hu Hn Hz. unfold Unref. rewrite (hr_in _ _ Hr e) by (by left). cbn [mbind option_bind handle_of refs].
  rewrite count_cons, decide_True by done. rewrite (proj2 (Z.ltb_lt 0 _)) by lia. cbn [passert mbind option_bind].
  replace (Z.of_nat (1 + count all (ce_id e)) - 1) with (Z.of_nat (count all (ce_id e))) by lia.
  unfold unref. cbn [live_charge] in *. rewrite count_live in *. apply Forall_cons in Hn as [He Hn%live_charge_nonneg].
  destruct (Z.ltb_spec 0 (Z.of_nat (count all (ce_id e)))) as [Hlt|Hle].
  - rewrite (proj2 (Z.leb_gt _ _)) by done. rewrite Hu. eexists. split; [done|]. constructor.
    + intros x Hx. destruct (decide (ce_id x = ce_id e)) as [E|Hne].
      * assert (x = e) as -> by (eapply heap_same; [done|by right|by left|done]). by rewrite lookup_insert_eq.
      * rewrite lookup_insert_ne by done. rewrite (hr_in _ _ Hr x) by (by right). by rewrite count_cons, decide_False by done.
    + intros h Hh. rewrite lookup_insert_ne.
      * apply Hr. unfold ids. cbn [fmap list_fmap]. rewrite elem_of_cons. intros [-> |?]; [|done].
        apply Hh, live_spec. rewrite count_live. by apply Z.ltb_lt.
      * intros <-. apply Hh, live_spec. rewrite count_live. by apply Z.ltb_lt.
  - rewrite (proj2 (Z.leb_le _ _)) by done. cbn [handle_of charge lh_key lh_value]. rewrite Hu.
    replace (ce_charge e + live_charge all - ce_charge e) with (live_charge all) by lia.
    rewrite wrap_fits by (split; lia). eexists. split; [done|].
    assert (ce_id e ∉ ids all) as Hout by (rewrite <-live_spec, count_live, Z.ltb_lt; lia). constructor.
    + intros x Hx. assert (ce_id x <> ce_id e) as Hne by (intros E; apply Hout; rewrite <-E; by apply list_elem_of_fmap_2).
      rewrite lookup_delete_ne by done. rewrite (hr_in _ _ Hr x) by (by right). by rewrite count_cons, decide_False by done.
    + intros h Hh. destruct (decide (h = ce_id e)) as [-> |Hne]; [by rewrite lookup_delete_eq|].
      rewrite lookup_delete_ne by done. apply Hr. unfold ids. cbn [fmap list_fmap]. by rewrite elem_of_cons; intros [?|?].
Qed.

Lemma heap_alloc hp e all : heap_rep hp all -> ce_id e ∉ ids all ->
  heap_rep (<[ce_id e := handle_of e 2]> hp) (e :: e :: all).
Proof.
  intros [H1 H2] Hout. constructor.
  - intros x [-> |[-> |Hx]%elem_of_cons]%elem_of_cons; [| |].
    1, 2: rewrite lookup_insert_eq, !count_cons, !decide_True by done; do 2 f_equal.
    1, 2: enough (live all (ce_id e) = false) as Hl by (rewrite count_live in Hl; apply Z.ltb_ge in Hl; lia).
    1, 2: apply not_true_iff_false; by rewrite live_spec.
    assert (ce_id x <> ce_id e) as Hne by (intros E; apply Hout; rewrite <-E; by apply list_elem_of_fmap_2).
    rewrite lookup_insert_ne by done. rewrite H1 by done. by rewrite !count_cons, !decide_False by done.
  - intros h Hh. unfold ids in *. cbn [fmap list_fmap] in Hh. rewrite !elem_of_cons in Hh.
    rewrite lookup_insert_ne by naive_solver. apply H2. naive_solver.
Qed.

Lemma heap_ref hp e all : heap_rep hp all -> e ∈ all ->
  heap_rep (<[ce_id e := handle_of e (S (count all (ce_id e)))]> hp) (e :: all).
Proof.
  intros Hr He. constructor.
  - intros x Hx. assert (x ∈ all) as Hx' by (apply elem_of_cons in Hx as [-> |?]; done). destruct (decide (ce_id x = ce_id e)) as [E|Hne].
    + assert (x = e) as -> by (by eapply heap_same). by rewrite lookup_insert_eq, count_cons, decide_True by done.
    + rewrite lookup_insert_ne by done. rewrite (hr_in _ _ Hr) by done. by rewrite count_cons, decide_False by done.
  - intros h Hh. unfold ids in *. cbn [fmap list_fmap] in Hh. rewrite elem_of_cons in Hh. rewrite lookup_insert_ne by naive_solver.
    apply Hr. unfold ids. naive_solver.
Qed.

Lemma live_charge_dup e all : e ∈ all -> live_charge (e :: all) = live_charge all.
Proof. intros He. cbn [live_charge]. rewrite (proj2 (live_spec all (ce_id e))); [done|]. by apply list_elem_of_fmap_2. Qed.

Lemma live_charge_fresh e all : ce_id e ∉ ids all -> live_charge (e :: e :: all) = ce_charge e + live_charge all.
Proof.
  intros He. rewrite live_charge_dup by (by left). cbn [live_charge].
  destruct (live all (ce_id e)) eqn:E; [|done]. by apply live_spec in E.
Qed.

(** ** Entries of the cache *)
Definition distinct cached : Prop := NoDup (ce_key <$> cached) /\ NoDup (ids cached).

Lemma distinct_key cached e o : distinct cached -> e ∈ cached -> o ∈ cached -> ce_key e = ce_key o -> e = o.
Proof.
  intros [Hk _] [i Hi]%list_elem_of_lookup [j Hj]%list_elem_of_lookup E.
  assert (i = j) as ->; [|congruence]. eapply (NoDup_lookup _ _ _ (ce_key o) Hk); rewrite list_lookup_fmap; [by rewrite Hi, <-E|by rewrite Hj].
Qed.

Lemma distinct_id cached e o : distinct cached -> e ∈ cached -> o ∈ cached -> ce_id e = ce_id o -> e = o.
Proof.
  intros [_ Hk] [i Hi]%list_elem_of_lookup [j Hj]%list_elem_of_lookup E.
  assert (i = j) as ->; [|congruence]. eapply (NoDup_lookup _ _ _ (ce_id o) Hk); unfold ids; rewrite list_lookup_fmap; [by rewrite Hi, <-E|by rewrite Hj].
Qed.

Lemma without_ids cached o : distinct cached -> o ∈ cached ->
  filter (fun x => x <> ce_id o) (ids cached) = ids (without (ce_key o) cached).
Proof.
  intros Hd Ho. unfold ids, without. rewrite filter_fmap. f_equal. apply filter_ext_in.
  intros e He. split; intros Hne E; apply Hne.
  - by rewrite (distinct_key cached e o).
  - by rewrite (distinct_id cached e o).
Qed.

Lemma without_none k cached : (forall e, e ∈ cached -> ce_key e <> k) -> without k cached = cached.
Proof. apply filter_all. Qed.

Lemma without_perm cached o : distinct cached -> o ∈ cached -> cached ≡ₚ o :: without (ce_key o) cached.
Proof.
  intros [Hk _] Ho. induction cached as [|e cached IH]; [by apply elem_of_nil in Ho|].
  cbn [fmap list_fmap] in Hk. apply NoDup_cons in Hk as [Hout Hk]. apply elem_of_cons in Ho as [-> |Ho].
  - f_equiv. unfold without. rewrite filter_cons_False by naive_solver. fold (without (ce_key e) cached). rewrite without_none; [done|].
    intros x Hx E. apply Hout. rewrite <-E. by apply list_elem_of_fmap_2.
  - unfold without in *. rewrite filter_cons_True.
    + rewrite Permutation_swap. f_equiv. by apply IH.
    + intros E. apply Hout. rewrite E. by apply list_elem_of_fmap_2.
Qed.

Lemma distinct_perm cached cached' : cached ≡ₚ cached' -> distinct cached -> distinct cached'.
Proof. unfold distinct, ids. by intros ->. Qed.

Lemma distinct_without k cached : distinct cached -> distinct (without k cached).
Proof.
  intros [H1 H2]. split; by apply NoDup_fmap_filter.
Qed.

Lemma find_key_spec k cached : match find_key k cached with
  | Some e => e ∈ cached /\ ce_key e = k
  | None => forall e, e ∈ cached -> ce_key e <> k
  end.
Proof.
  unfold find_key. destruct (list_find _ cached) as [[i e]|] eqn:E; cbn [fmap option_fmap option_map snd].
  - apply list_find_Some in E as (Hi & Hk & _). split; [by eapply list_elem_of_lookup_2|done].
  - apply list_find_None in E. rewrite Forall_forall in E. done.
Qed.

Lemma find_key_distinct k cached e : distinct cached -> e ∈ cached -> ce_key e = k -> find_key k cached = Some e.
Proof.
  intros Hd He Hk. pose proof (find_key_spec k cached) as H. destruct (find_key k cached) as [o|].
  - destruct H as [Ho Hok]. f_equal. eapply distinct_key; [done..|congruence].
  - by destruct (H e He).
Qed.
End references.

(** ** The shard keeps the promise *)
Section shard.
Context {V : Type} (hf : list Z -> Z) (Hhf : forall k, fits_unsigned 32 (hf k)) (capacity : Z).
Implicit Types (e o : entry V) (all cached held : list (entry V)) (c : LRUCache V) (s : acache V).

Record rep c s : Prop := {
  r_cap : capacity_ c = capacity;
  r_lru : lru_ c = ids (a_cached s);
  r_heap : heap_rep hf (heap c) (a_cached s ++ a_held s);
  r_usage : usage_ c = live_charge (a_cached s ++ a_held s);
  r_table : exists f, table_rep hf (table_ c) (ids (a_cached s)) f /\ forall e, e ∈ a_cached s -> f (ce_id e) = ce_key e;
  r_deleted : deleted c = a_deleted s;
  r_next : next_handle c = a_next s;
  r_ids : Forall (fun e => ce_id e < a_next s)%nat (a_cached s ++ a_held s);
  r_distinct : distinct (a_cached s);
  r_charge : Forall (fun e => 0 <= ce_charge e) (a_cached s ++ a_held s);
}.

(** Within the counters of the code. *)
Definition fits s : Prop := zlen (a_cached s ++ a_held s) + 2 < 2 ^ 31 /\ live_charge (a_cached s ++ a_held s) < 2 ^ 64.

Lemma keyed_cached hp all cached f : heap_rep hf hp all -> (forall e, e ∈ cached -> e ∈ all) ->
  (forall e, e ∈ cached -> f (ce_id e) = ce_key e) -> keyed hf hp (ids cached) f.
Proof.
  intros Hr Hs Hf h (e & -> & He)%list_elem_of_fmap. eexists. split; [by apply Hr, Hs|]. by rewrite Hf.
Qed.

Lemma table_ext t l f g : table_rep hf t l f -> (forall h, h ∈ l -> f h = g h) -> table_rep hf t l g.
Proof.
  intros [H1 H2 H3 H4 H5] Hfg. constructor; [done..|]. intros i chain h Hi Hh. rewrite <-Hfg; [by eapply H5|].
  rewrite <-H3. apply elem_of_concat. eauto using list_elem_of_lookup_2.
Qed.

Lemma LRU_Remove_spec c cached o : lru_ c = ids cached -> distinct cached -> o ∈ cached ->
  LRU_Remove (ce_id o) c = Some (set_lru (ids (without (ce_key o) cached)) c).
Proof.
  intros Hl Hd Ho. unfold LRU_Remove. rewrite Hl, bool_decide_true by (by apply list_elem_of_fmap_2).
  cbn [passert mbind option_bind]. by rewrite without_ids.
Qed.

Lemma Unref_perm c o rest all : heap_rep hf (heap c) all -> usage_ c = live_charge all -> all ≡ₚ o :: rest ->
  Forall (fun e => 0 <= ce_charge e) all -> live_charge all < 2 ^ 64 ->
  exists hp', Unref (ce_id o) c = Some (set_heap hp' (live_charge rest) (unref o rest (deleted c)) c) /\ heap_rep hf hp' rest.
Proof.
  intros Hr Hu Hp Hn Hz. rewrite (live_charge_perm all (o :: rest)) in Hu, Hz by (done || by intros; eapply heap_same).
  apply Unref_spec; [by eapply heap_perm|done|by rewrite <-Hp|done].
Qed.

Lemma LRU_Release_spec c s h s' : rep c s -> fits s -> spec_Release h s = Some s' ->
  exists c', LRU_Release h c = Some c' /\ rep c' s'.
Proof.
  intros [R1 R2 R3 R4 R5 R6 R7 R8 R9 R10] [_ Hz] Hs. unfold spec_Release in Hs. destruct (list_find _ _) as [[i e]|] eqn:E; [|done].
  cbn [mbind option_bind] in Hs. injection Hs as <-. apply list_find_Some in E as (Hi & <- & _). unfold LRU_Release.
  assert (a_cached s ++ a_held s ≡ₚ e :: a_cached s ++ delete i (a_held s)) as Hp.
  { rewrite (delete_Permutation _ _ _ Hi) at 1. by rewrite Permutation_middle. }
  destruct (Unref_perm c e _ _ R3 R4 Hp R10 Hz) as (hp' & -> & Hr'). eexists. split; [done|].
  rewrite Hp in R8. rewrite Hp in R10. apply Forall_cons in R8 as [_ R8]. apply Forall_cons in R10 as [_ R10].
  constructor; cbn; try done. by rewrite R6.
Qed.

Lemma in_cached s e : e ∈ a_cached s -> e ∈ a_cached s ++ a_held s.
Proof. intros. apply elem_of_app. by left. Qed.

Lemma LRU_Lookup_spec c s k : rep c s -> fits s ->
  exists c', LRU_Lookup k (hf k) c = Some ((spec_Lookup k s).1, c') /\ rep c' (spec_Lookup k s).2.
Proof using Hhf.
  intros [R1 R2 R3 R4 (f & R5 & Hf) R6 R7 R8 R9 R10] [Hn Hz]. unfold LRU_Lookup, spec_Lookup.
  assert (keyed hf (heap c) (ids (a_cached s)) f) as Hk by (eapply keyed_cached; [done|apply in_cached|done]).
  destruct (HT_Lookup_spec hf Hhf _ _ _ f k R5 Hk) as (r & -> & Hr). cbn [mbind option_bind].
  pose proof (find_key_spec k (a_cached s)) as Hfk. destruct (find_key k (a_cached s)) as [e|].
  - destruct Hfk as [He Hek]. destruct r as [h|]; [|by destruct (Hr (ce_id e)); [by apply list_elem_of_fmap_2|rewrite Hf by done]].
    destruct Hr as [(e' & -> & He')%list_elem_of_fmap Hh]. rewrite Hf in Hh by done.
    assert (e' = e) as -> by (eapply distinct_key; [done..|congruence]). rewrite (hr_in _ _ _ R3 e) by (by apply in_cached).
    cbn [mbind option_bind handle_of refs]. rewrite wrap_fits.
    2:{ pose proof (count_le (a_cached s ++ a_held s) (ce_id e)). split; lia. }
    replace (set_refs _ _) with (handle_of hf e (S (count (a_cached s ++ a_held s) (ce_id e))))
      by (unfold handle_of, set_refs; cbn; f_equal; lia).
    rewrite (LRU_Remove_spec _ (a_cached s)) by done. cbn [mbind option_bind fst snd]. eexists. split; [done|]. rewrite Hek.
    assert (a_cached s ≡ₚ without k (a_cached s) ++ [e]) as Hp.
    { rewrite (without_perm _ e R9 He) at 1. rewrite Hek. by rewrite Permutation_app_comm. }
    assert (e :: a_cached s ++ a_held s ≡ₚ (without k (a_cached s) ++ [e]) ++ e :: a_held s) as Hp2.
    { rewrite <-Hp. by rewrite Permutation_middle. }
    pose proof (heap_ref hf _ e _ R3 (in_cached _ _ He)) as Hr'.
    constructor; cbn [a_cached a_held a_deleted a_next capacity_ lru_ heap usage_ table_ deleted next_handle LRU_Append set_lru set_heap]; try done.
    + unfold ids. by rewrite fmap_app.
    + by eapply heap_perm.
    + rewrite R4, <-(live_charge_perm _ _ ltac:(by intros; eapply heap_same) Hp2). by rewrite live_charge_dup by (by apply in_cached).
    + exists f. split; [eapply table_rep_perm; [|done]; by apply ids_perm|]. intros x Hx. apply Hf. by rewrite Hp.
    + rewrite <-Hp2. constructor; [|done]. rewrite Forall_forall in R8. by apply R8, in_cached.
    + by eapply distinct_perm.
    + rewrite <-Hp2. constructor; [|done]. rewrite Forall_forall in R10. by apply R10, in_cached.
  - destruct r as [h|].
    + destruct Hr as [(e' & -> & He')%list_elem_of_fmap Hh]. rewrite Hf in Hh by done. by destruct (Hfk e' He').
    + eexists. split; [done|]. constructor; try done. by exists f.
Qed.

(** The state after the reference that the cache has to [o] is given up. *)
Definition dropped o s : acache V :=
  let cached := without (ce_key o) (a_cached s) in
  mkACache cached (a_held s) (unref o (cached ++ a_held s) (a_deleted s)) (a_next s).

Lemma drop_spec c s o : rep c s -> zlen (a_cached s) <= 2 ^ 31 -> live_charge (a_cached s ++ a_held s) < 2 ^ 64 -> o ∈ a_cached s ->
  LRU_Remove (ce_id o) c = Some (set_lru (ids (without (ce_key o) (a_cached s))) c) /\
  heap c !! ce_id o = Some (handle_of hf o (count (a_cached s ++ a_held s) (ce_id o))) /\
  exists t, HT_Remove (heap c) (ce_key o) (hf (ce_key o)) (table_ c) = Some (Some (ce_id o), t) /\
  exists c', Unref (ce_id o) (set_table t (set_lru (ids (without (ce_key o) (a_cached s))) c)) = Some c' /\ rep c' (dropped o s).
Proof using Hhf.
  intros [R1 R2 R3 R4 (f & R5 & Hf) R6 R7 R8 R9 R10] Hn Hz Ho. split; [by apply LRU_Remove_spec|]. split; [by apply R3, in_cached|].
  assert (keyed hf (heap c) (ids (a_cached s)) f) as Hk by (eapply keyed_cached; [done|apply in_cached|done]).
  destruct (HT_Remove_spec hf Hhf _ _ _ f (ce_key o) R5 Hk) as (r & t & E & Hr); [unfold ids; by rewrite length_fmap|].
  destruct r as [h|]; [|by destruct Hr as [Hr _]; destruct (Hr (ce_id o)); [by apply list_elem_of_fmap_2|rewrite Hf by done]].
  destruct Hr as ((e' & -> & He')%list_elem_of_fmap & Hh & Ht). rewrite Hf in Hh by done.
  assert (e' = o) as -> by (by eapply distinct_key). exists t. split; [done|].
  pose proof (without_perm _ o R9 Ho) as Hp. assert (a_cached s ++ a_held s ≡ₚ o :: without (ce_key o) (a_cached s) ++ a_held s) as Hp2
    by (by rewrite Hp at 1).
  destruct (Unref_perm (set_table t (set_lru (ids (without (ce_key o) (a_cached s))) c)) o _ _ R3 R4 Hp2 R10 Hz) as (hp' & -> & Hr').
  eexists. split; [done|]. rewrite Hp2 in R8. rewrite Hp2 in R10. apply Forall_cons in R8 as [_ R8]. apply Forall_cons in R10 as [_ R10].
  unfold dropped. constructor; cbn; try done.
  - exists f. split; [apply Ht; rewrite <-(ids_perm _ _ Hp); done|]. intros x Hx. apply Hf. rewrite Hp. by right.
  - by rewrite R6.
  - by apply distinct_without.
Qed.

Lemma LRU_Erase_spec c s k : rep c s -> fits s -> exists c', LRU_Erase k (hf k) c = Some c' /\ rep c' (spec_Erase k s).
Proof using Hhf.
  intros Hr [Hn Hz]. rewrite length_app in Hn. unfold LRU_Erase, spec_Erase.
  pose proof (find_key_spec k (a_cached s)) as Hfk. destruct (find_key k (a_cached s)) as [o|].
  - destruct Hfk as [Ho <-]. destruct (drop_spec c s o Hr) as (El & _ & t & -> & c' & Eu & Hr'); [lia|done|done|].
    cbn [mbind option_bind drop_handle]. destruct Hr. rewrite (LRU_Remove_spec _ (a_cached s)) by done. cbn [mbind option_bind]. eauto.
  - pose proof Hr as [R1 R2 R3 R4 (f & R5 & Hf) R6 R7 R8 R9 R10].
    destruct (HT_Remove_spec hf Hhf (heap c) _ _ f k R5) as (r & t & -> & Hrt);
      [eapply keyed_cached; [done|apply in_cached|done]|unfold ids; rewrite length_fmap; lia|].
    cbn [mbind option_bind drop_handle]. destruct r as [h|].
    + destruct Hrt as ((e' & -> & He')%list_elem_of_fmap & Hh & _). rewrite Hf in Hh by done. by destruct (Hfk e' He').
    + destruct Hrt as [_ ->]. eexists. split; [done|]. by destruct c.
Qed.

Lemma without_head o cached : distinct (o :: cached) -> without (ce_key o) (o :: cached) = cached.
Proof.
  intros [[Hk _]%NoDup_cons _]. unfold without. rewrite filter_cons_False by naive_solver. apply without_none.
  intros x Hx E. apply Hk. rewrite <-E. by apply list_elem_of_fmap_2.
Qed.

Lemma live_charge_tail o rest : 0 <= ce_charge o -> live_charge rest <= live_charge (o :: rest).
Proof. intros. cbn [live_charge]. destruct (live _ _); lia. Qed.

Definition evicted s : acache V :=
  let '(cached, d) := spec_evict capacity (a_cached s) (a_held s) (a_deleted s) in mkACache cached (a_held s) d (a_next s).

Lemma evict_spec fuel : forall c s, rep c s -> zlen (a_cached s) <= 2 ^ 31 -> live_charge (a_cached s ++ a_held s) < 2 ^ 64 ->
  (length (a_cached s) < fuel)%nat -> exists c', evict fuel c = Some c' /\ rep c' (evicted s).
Proof using Hhf.
  induction fuel as [|fuel IH]; intros c s Hr Hn Hz Hf; [lia|]. cbn [evict]. pose proof Hr as Hrep.
  destruct Hr as [R1 R2 R3 R4 _ R6 R7 R8 R9 R10]. rewrite R1, R4, R2. unfold evicted.
  destruct s as [cached held d nx]. cbn [a_cached a_held a_deleted a_next] in *.
  destruct cached as [|o cached]; cbn [spec_evict]; [destruct (_ <? _); eauto|].
  destruct (Z.ltb_spec capacity (live_charge ((o :: cached) ++ held))) as [Hlt|]; [|eauto]. cbn [ids fmap list_fmap].
  destruct (drop_spec c _ o Hrep Hn Hz) as (-> & Eh & t & Et & c' & Eu & Hr'); [by left|]. cbn [mbind option_bind].
  cbn [heap table_ set_lru]. rewrite Eh. cbn [mbind option_bind handle_of lh_key hash]. rewrite Et. cbn [mbind option_bind].
  rewrite Eu. cbn [mbind option_bind]. unfold dropped in Hr'. cbn [a_cached a_held a_deleted a_next] in Hr'. rewrite without_head in Hr' by done.
  apply Forall_cons in R10 as [Ho _]. pose proof (live_charge_tail o (cached ++ held) Ho) as Ht.
  change ((o :: cached) ++ held) with (o :: cached ++ held) in Hz. cbn [length] in *.
  destruct (IH c' _ Hr') as (c2 & -> & Hr2); cbn [a_cached a_held]; [lia|lia|lia|]. eauto.
Qed.

Lemma count_app all all' h : count (all ++ all') h = (count all h + count all' h)%nat.
Proof. unfold count. by rewrite filter_app, length_app. Qed.

Lemma count_distinct cached o : distinct cached -> o ∈ cached -> count cached (ce_id o) = 1%nat.
Proof.
  intros Hd Ho. rewrite (count_perm _ _ _ (without_perm _ o Hd Ho)), count_cons, decide_True by done.
  enough (live (without (ce_key o) cached) (ce_id o) = false) as Hl by (rewrite count_live in Hl; apply Z.ltb_ge in Hl; lia).
  apply not_true_iff_false. rewrite live_spec, <-without_ids by done. by intros [? _]%list_elem_of_filter.
Qed.

Lemma without_mid pre o l : distinct (pre ++ o :: l) -> without (ce_key o) (pre ++ o :: l) = pre ++ l.
Proof.
  intros Hd. assert (distinct (o :: pre ++ l)) as Hd' by (eapply distinct_perm; [|done]; by rewrite Permutation_middle).
  apply without_head in Hd' as E. unfold without in *. rewrite filter_cons_False in E by naive_solver.
  rewrite filter_app in *. by rewrite filter_cons_False by naive_solver.
Qed.

Definition pruned l held : list (entry V) := filter (fun e => ce_id e ∈ ids held) l.
Definition unheld l held : list (list Z * V) := (fun e => (ce_key e, ce_value e)) <$> filter (fun e => ce_id e ∉ ids held) l.

Lemma prune_loop_spec held nx l : forall pre d c, rep c (mkACache (pre ++ l) held d nx) ->
  zlen (pre ++ l) <= 2 ^ 31 -> live_charge ((pre ++ l) ++ held) < 2 ^ 64 ->
  exists c', prune_loop (ids l) c = Some c' /\ rep c' (mkACache (pre ++ pruned l held) held (d ++ unheld l held) nx).
Proof using Hhf.
  induction l as [|o l IH]; intros pre d c Hr Hn Hz.
  { eexists. split; [done|]. unfold unheld, pruned. rewrite !filter_nil. cbn [fmap list_fmap]. by rewrite (app_nil_r d). }
  change (ids (o :: l)) with (ce_id o :: ids l). cbn [prune_loop].
  pose proof Hr as [_ R2 R3 _ _ _ _ _ R9 R10]. cbn [a_cached a_held] in *. assert (o ∈ pre ++ o :: l) as Ho by set_solver.
  destruct (drop_spec c _ o Hr) as (_ & Eh & t & Et & c1 & Eu & Hr1); [done..|]. rewrite Eh. cbn [mbind option_bind handle_of refs lh_key hash].
  rewrite count_app, count_distinct by done. cbn [a_held]. pose proof (count_live held (ce_id o)) as Hl. unfold unheld, pruned in *.
  rewrite !filter_cons. destruct (decide (ce_id o ∈ ids held)) as [Hin|Hout].
  - rewrite (proj2 (live_spec held _) Hin) in Hl. symmetry in Hl. apply Z.ltb_lt in Hl.
    rewrite (proj2 (Z.eqb_neq _ 1)) by lia. cbn [mbind option_bind]. rewrite decide_False by naive_solver.
    assert (pre ++ o :: l = (pre ++ [o]) ++ l) as E by (by rewrite <-app_assoc). rewrite E in *.
    destruct (IH _ _ _ Hr Hn Hz) as (c' & -> & Hr'). exists c'. split; [done|]. by rewrite <-app_assoc in Hr'.
  - assert (live held (ce_id o) = false) as Hl0 by (apply not_true_iff_false; by rewrite live_spec). rewrite Hl0 in Hl. symmetry in Hl.
    apply Z.ltb_ge in Hl. rewrite (proj2 (Z.eqb_eq _ 1)) by lia. rewrite Et. cbn [mbind option_bind].
    rewrite (LRU_Remove_spec _ (pre ++ o :: l)) by done. cbn [mbind option_bind].
    replace (Unref _ _) with (Some c1) by (symmetry; exact Eu). cbn [mbind option_bind].
    rewrite decide_True by done. unfold dropped in Hr1. cbn [a_cached a_held a_deleted a_next] in Hr1. rewrite without_mid in Hr1 by done.
    unfold unref in Hr1. assert (live ((pre ++ l) ++ held) (ce_id o) = false) as Hl1.
    { apply not_true_iff_false. rewrite live_spec. unfold ids in *. rewrite fmap_app, elem_of_app. intros [Hi|]; [|done].
      pose proof (count_distinct _ o R9 Ho) as Hc. rewrite (count_perm _ (o :: pre ++ l)), count_cons, decide_True in Hc
        by (done || by rewrite Permutation_middle).
      assert (live (pre ++ l) (ce_id o) = true) as Hl1 by (by apply live_spec). rewrite count_live in Hl1. apply Z.ltb_lt in Hl1. lia. }
    rewrite Hl1 in Hr1. destruct (IH _ _ _ Hr1) as (c' & -> & Hr').
    + rewrite length_app in *. cbn [length] in *. lia.
    + pose proof (live_charge_tail o ((pre ++ l) ++ held)) as Ht. rewrite (live_charge_perm _ (o :: (pre ++ l) ++ held)) in Hz.
      * cbn [a_cached a_held]. rewrite Forall_forall in R10. pose proof (Ht (R10 o ltac:(set_solver))). lia.
      * intros; by eapply heap_same.
      * by rewrite <-Permutation_middle.
    + exists c'. split; [done|]. cbn [fmap list_fmap]. by rewrite <-app_assoc in Hr'.
Qed.

Lemma LRU_Prune_spec c s : rep c s -> fits s -> exists c', LRU_Prune c = Some c' /\ rep c' (spec_Prune s).
Proof using Hhf.
  intros Hr [Hn Hz]. rewrite length_app in Hn. unfold LRU_Prune. rewrite (r_lru _ _ Hr).
  destruct (prune_loop_spec (a_held s) (a_next s) (a_cached s) [] (a_deleted s) c) as (c' & -> & Hr'); [by destruct s|cbn [app]; lia|done|].
  eexists. split; [done|]. done.
Qed.
Lemma insert_old c l h o cached : lru_ c = ids cached ++ [h] -> distinct cached -> o ∈ cached -> h ∉ ids cached -> l = ids (without (ce_key o) cached) ++ [h] ->
  LRU_Remove (ce_id o) c = Some (set_lru l c).
Proof.
  intros Hl Hd Ho Hh ->. unfold LRU_Remove. assert (ce_id o ∈ ids cached) as Hin by (by apply list_elem_of_fmap_2).
  rewrite Hl, bool_decide_true by (apply elem_of_app; by left). cbn [passert mbind option_bind].
  rewrite filter_app, without_ids by done. rewrite filter_cons_True by (by intros ->). done.
Qed.

Lemma inserted_ids k e s : ids (without k (a_cached s) ++ [e]) = ids (without k (a_cached s)) ++ [ce_id e].
Proof. unfold ids. by rewrite fmap_app. Qed.

(** The cache after the new entry [e] was allocated and appended. *)
Record rep_parts c s e : Prop := {
  p_cap : capacity_ c = capacity;
  p_lru : lru_ c = ids (a_cached s) ++ [ce_id e];
  p_heap : heap_rep hf (heap c) (e :: e :: a_cached s ++ a_held s);
  p_usage : usage_ c = live_charge (e :: e :: a_cached s ++ a_held s);
  p_deleted : deleted c = a_deleted s;
  p_next : next_handle c = S (a_next s);
  p_ids : Forall (fun e => ce_id e < S (a_next s))%nat (e :: e :: a_cached s ++ a_held s);
  p_charge : Forall (fun e => 0 <= ce_charge e) (e :: e :: a_cached s ++ a_held s);
  p_small : live_charge (e :: e :: a_cached s ++ a_held s) < 2 ^ 64;
}.

(** The state after the new entry replaced the one of its key. *)
Definition inserted e s : acache V :=
  let cached := without (ce_key e) (a_cached s) ++ [e] in
  mkACache cached (e :: a_held s)
    (match find_key (ce_key e) (a_cached s) with Some o => unref o (cached ++ e :: a_held s) (a_deleted s) | None => a_deleted s end)
    (S (a_next s)).

Lemma distinct_snoc e cached : distinct cached -> ce_id e ∉ ids cached -> distinct (without (ce_key e) cached ++ [e]).
Proof.
  intros Hd Hout. eapply distinct_perm; [apply Permutation_app_comm|]. destruct (distinct_without (ce_key e) _ Hd) as [H1 H2].
  split; unfold ids in *; cbn [fmap list_fmap app]; apply NoDup_cons; (split; [|done]); intros (x & E & [Hk Hx]%list_elem_of_filter)%list_elem_of_fmap.
  - by apply Hk.
  - apply Hout. rewrite E. by apply list_elem_of_fmap_2.
Qed.

Lemma inserted_all e s : distinct (a_cached s) -> match find_key (ce_key e) (a_cached s) with
  | Some o => e :: e :: a_cached s ++ a_held s ≡ₚ o :: a_cached (inserted e s) ++ a_held (inserted e s)
  | None => e :: e :: a_cached s ++ a_held s ≡ₚ a_cached (inserted e s) ++ a_held (inserted e s)
  end.
Proof.
  intros Hd. unfold inserted. pose proof (find_key_spec (ce_key e) (a_cached s)) as Hfk. cbn [a_cached a_held].
  destruct (find_key (ce_key e) (a_cached s)) as [o|].
  - destruct Hfk as [Ho Hk]. rewrite (without_perm _ o Hd Ho) at 1. rewrite Hk, <-!app_assoc.
    cbn [app]. rewrite <-!Permutation_middle. rewrite (Permutation_swap e o). by rewrite (Permutation_swap e o).
  - rewrite without_none by done. rewrite <-!app_assoc. cbn [app]. by rewrite <-!Permutation_middle.
Qed.

Lemma inserted_spec c0 s e old f : rep_parts c0 s e -> distinct (a_cached s) -> ce_id e ∉ ids (a_cached s) ->
  (forall x, x ∈ a_cached s -> f (ce_id x) = ce_key x) -> f (ce_id e) = ce_key e ->
  match old with
  | Some h => h ∈ ids (a_cached s) /\ f h = ce_key e /\ forall l, ids (a_cached s) ≡ₚ h :: l -> table_rep hf (table_ c0) (ce_id e :: l) f
  | None => (forall x, x ∈ ids (a_cached s) -> f x <> ce_key e) /\ table_rep hf (table_ c0) (ce_id e :: ids (a_cached s)) f
  end ->
  exists c1, drop_handle old c0 = Some c1 /\ rep c1 (inserted e s).
Proof.
  intros [P1 P2 P3 P4 P5 P6 P7 P8 P9] Hd Hout Hf Hfe Hold. pose proof (inserted_all e s Hd) as Hall.
  pose proof (find_key_spec (ce_key e) (a_cached s)) as Hfk. pose proof (distinct_snoc e _ Hd Hout) as Hd'.
  assert (forall x, x ∈ a_cached (inserted e s) -> f (ce_id x) = ce_key x) as Hf'.
  { intros x [[_ Hx]%list_elem_of_filter|Hx]%elem_of_app; [by apply Hf|]. by apply list_elem_of_singleton in Hx as ->. }
  destruct old as [h|]; cbn [drop_handle].
  - destruct Hold as ((o & -> & Ho)%list_elem_of_fmap & Hk & Ht). rewrite Hf in Hk by done.
    rewrite (find_key_distinct _ _ o) in Hall by done. rewrite (insert_old c0 (ids (a_cached (inserted e s))) (ce_id e) o (a_cached s))
      by (done || rewrite Hk; apply inserted_ids). cbn [mbind option_bind].
    destruct (Unref_perm (set_lru (ids (a_cached (inserted e s))) c0) o _ _ P3 P4 Hall P8 P9) as (hp' & -> & Hr').
    eexists. split; [done|]. rewrite Hall in P7. rewrite Hall in P8. apply Forall_cons in P7 as [_ P7]. apply Forall_cons in P8 as [_ P8].
    constructor; cbn [capacity_ usage_ lru_ table_ heap next_handle deleted set_lru set_heap]; try done.
    + exists f. split; [|done]. eapply table_rep_perm; [|apply (Ht (ids (without (ce_key o) (a_cached s)))), (ids_perm _ (o :: without (ce_key o) (a_cached s))); by apply without_perm].
      rewrite Hk. unfold inserted. cbn [a_cached]. rewrite inserted_ids. by rewrite Permutation_app_comm.
    + unfold inserted. rewrite (find_key_distinct _ _ o) by done. by rewrite P5.
  - destruct Hold as [Hno Ht]. destruct (find_key (ce_key e) (a_cached s)) as [o|] eqn:Efk.
    { destruct Hfk as [Ho Hk]. destruct (Hno (ce_id o)); [by apply list_elem_of_fmap_2|]. by rewrite Hf. }
    eexists. split; [done|]. rewrite Hall in P7. rewrite Hall in P8. constructor; try done.
    + rewrite P2. unfold inserted. cbn [a_cached]. rewrite inserted_ids, without_none by done. done.
    + by eapply heap_perm.
    + rewrite P4. apply live_charge_perm; [|done]. by intros; eapply heap_same.
    + exists f. split; [|done]. eapply table_rep_perm; [|done]. unfold inserted. cbn [a_cached]. rewrite inserted_ids, without_none by done.
      by rewrite Permutation_app_comm.
    + unfold inserted. by rewrite Efk, P5.
Qed.

Lemma LRU_Insert_spec c s k v ch : rep c s -> fits s -> 0 <= ch -> live_charge (a_cached s ++ a_held s) + ch < 2 ^ 64 ->
  exists c', LRU_Insert k (hf k) v ch c = Some ((spec_Insert capacity k v ch s).1, c') /\ rep c' (spec_Insert capacity k v ch s).2.
Proof using Hhf.
  intros [R1 R2 R3 R4 (f & R5 & Hf) R6 R7 R8 R9 R10] [Hn Hz] Hch Hzc. unfold LRU_Insert, spec_Insert.
  set (e := mkEntry (a_next s) k v ch). rewrite R7. set (h := a_next s) in *. change h with (ce_id e).
  assert (ce_id e ∉ ids (a_cached s ++ a_held s)) as Hout.
  { intros (x & E & Hx)%list_elem_of_fmap. rewrite Forall_forall in R8. specialize (R8 x Hx). cbn in *. lia. }
  assert (ce_id e ∉ ids (a_cached s)) as Hout' by (intros Hi; apply Hout; unfold ids; rewrite fmap_app; apply elem_of_app; by left).
  pose proof (heap_alloc hf _ e _ R3 Hout) as Hheap. pose proof (live_charge_fresh e _ Hout) as Hlc. pose proof (live_charge_nonneg _ R10) as H0.
  change (mkLRUHandle v ch 2 (hf k) k) with (handle_of hf e 2). set (hp := <[ce_id e := handle_of hf e 2]> (heap c)) in *.
  cbn [LRU_Append set_lru set_heap set_table heap usage_ deleted table_ lru_ capacity_ next_handle].
  rewrite R4. rewrite wrap_fits by (split; lia). rewrite Z.add_comm. change ch with (ce_charge e) at 1. rewrite <-Hlc.
  set (f' := fun x => if decide (x = ce_id e) then k else f x).
  assert (forall x, x ∈ a_cached s -> f' (ce_id x) = ce_key x) as Hf'.
  { intros x Hx. unfold f'. rewrite decide_False; [by apply Hf|]. intros E. apply Hout'. rewrite <-E. by apply list_elem_of_fmap_2. }
  assert (f' (ce_id e) = k) as Hfe by (unfold f'; by rewrite decide_True).
  assert (keyed hf hp (ids (e :: a_cached s)) f') as Hk.
  { eapply keyed_cached; [done| |].
    - intros x [-> |Hx]%elem_of_cons; [by left|]. right; right. by apply in_cached.
    - intros x [-> |Hx]%elem_of_cons; [done|by apply Hf']. }
  assert (table_rep hf (table_ c) (ids (a_cached s)) f') as R5'.
  { eapply table_ext; [done|]. intros x (y & -> & Hy)%list_elem_of_fmap. by rewrite Hf, Hf'. }
  rewrite length_app in Hn.
  destruct (HT_Insert_spec hf Hhf hp _ _ f' (ce_id e) R5' Hk) as (old & t & -> & Hold); [unfold ids; rewrite length_fmap; lia|].
  cbn [mbind option_bind]. rewrite Hfe in Hold. set (cached1 := without k (a_cached s) ++ [e]).
  change (match find_key k (a_cached s) with Some o => _ | None => _ end) with (a_deleted (inserted e s)).
  change cached1 with (a_cached (inserted e s)). change (e :: a_held s) with (a_held (inserted e s)).
  match goal with |- context [drop_handle old ?x] => set (c0 := x) end. clear cached1.
  assert (rep_parts c0 s e) as Hp.
  { subst c0. constructor; cbn [LRU_Append set_table set_lru set_heap capacity_ lru_ heap usage_ deleted next_handle].
    - done.
    - by rewrite R2.
    - done.
    - done.
    - done.
    - done.
    - assert (ce_id e < S (a_next s))%nat by (cbn; subst h; lia). do 2 (constructor; [done|]). eapply Forall_impl; [exact R8|]. intros x Hx. cbn beta in *. fold h. lia.
    - by do 2 (constructor; [done|]).
    - rewrite Hlc. cbn [ce_charge e]. lia. }
  destruct (inserted_spec c0 s e old f' Hp R9 Hout' Hf' Hfe Hold) as (c1 & -> & Hr1).
  cbn [mbind option_bind]. rewrite (r_lru _ _ Hr1).
  destruct (evict_spec (S (length (ids (a_cached (inserted e s))))) c1 _ Hr1) as (c2 & -> & Hr2).
  { pose proof (filter_le (fun x => ce_key x <> k) (a_cached s)) as Hfl. cbn [inserted a_cached]. rewrite length_app. cbn [length e ce_key]. unfold without. lia. }
  { pose proof (inserted_all e s R9) as Hall. pose proof (p_small _ _ _ Hp) as Hsm. pose proof (p_charge _ _ _ Hp) as Hcs.
    destruct (find_key (ce_key e) (a_cached s)) as [o|]; rewrite (live_charge_perm _ _ ltac:(by intros; eapply heap_same; [apply Hp|..]) Hall) in Hsm; [|done].
    rewrite Hall in Hcs. apply Forall_cons in Hcs as [Ho _]. pose proof (live_charge_tail o (a_cached (inserted e s) ++ a_held (inserted e s)) Ho). lia. }
  { unfold ids. rewrite length_fmap. lia. }
  cbn [mbind option_bind]. unfold evicted in Hr2.
  destruct (spec_evict capacity _ _ _) as [cached2 d2]. cbn [fst snd]. eauto.
Qed.

(** ** What is alive

    One entry per handle that is allocated. *)
Fixpoint alive all : list (entry V) :=
  match all with
  | [] => []
  | e :: all => if live all (ce_id e) then alive all else e :: alive all
  end.
Definition kv e : list Z * V := (ce_key e, ce_value e).
Fixpoint total all : Z := match all with [] => 0 | e :: all => ce_charge e + total all end.

Lemma live_charge_alive all : live_charge all = total (alive all).
Proof. induction all as [|e all IH]; [done|]. cbn [live_charge alive]. destruct (live _ _); cbn [total]; lia. Qed.

Lemma total_app l l' : total (l ++ l') = total l + total l'.
Proof. induction l as [|e l IH]; [done|]. cbn [total app]. lia. Qed.

Lemma total_filter (P Q : entry V -> Prop) `{!forall x, Decision (P x)} `{!forall x, Decision (Q x)} l :
  Forall (fun e => 0 <= ce_charge e) l -> total (filter Q (filter P l)) <= total (filter Q l).
Proof.
  induction 1 as [|e l He _ IH]; [done|]. rewrite !filter_cons. destruct (decide (P e)); [rewrite !filter_cons|];
    destruct (decide (Q e)); cbn [total]; lia.
Qed.

Lemma alive_perm all all' : (forall e e', e ∈ all -> e' ∈ all -> ce_id e = ce_id e' -> e = e') -> all ≡ₚ all' -> alive all ≡ₚ alive all'.
Proof.
  intros Hs. induction 1 as [|e l l' Hp IH|e e' l|l l' l'' Hp IH Hp' IH']; cbn [alive]; [done| | |].
  - rewrite (live_perm _ _ _ Hp). assert (alive l ≡ₚ alive l') as IH' by (apply IH; intros; apply Hs; [by right..|done]).
    destruct (live _ _); [done|by f_equiv].
  - unfold live, ids. cbn [fmap list_fmap]. destruct (decide (ce_id e = ce_id e')) as [E|Hne].
    + rewrite (Hs e e') by (set_solver || done). done.
    + rewrite (bool_decide_ext (ce_id e' ∈ ce_id e :: _) (ce_id e' ∈ ce_id <$> l)) by (rewrite elem_of_cons; naive_solver).
      rewrite (bool_decide_ext (ce_id e ∈ ce_id e' :: _) (ce_id e ∈ ce_id <$> l)) by (rewrite elem_of_cons; naive_solver).
      do 2 destruct (bool_decide _); try done. apply Permutation_swap.
  - rewrite IH by done. apply IH'. intros e e'. rewrite <-Hp. apply Hs.
Qed.

Lemma alive_app l held : NoDup (ids l) -> alive (l ++ held) = filter (fun e => ce_id e ∉ ids held) l ++ alive held.
Proof.
  induction l as [|e l IH]; [done|]. unfold ids in *. cbn [fmap list_fmap app alive]. intros [Hx Hl]%NoDup_cons. rewrite filter_cons, IH by done.
  unfold live, ids. rewrite fmap_app. destruct (decide (ce_id e ∉ ce_id <$> held)) as [Ho|Hi].
  - by rewrite bool_decide_false by (rewrite elem_of_app; naive_solver).
  - apply dec_stable in Hi. by rewrite bool_decide_true by (rewrite elem_of_app; naive_solver).
Qed.

Lemma unref_alive o rest d : unref o rest d ++ (kv <$> alive rest) ≡ₚ d ++ (kv <$> alive (o :: rest)).
Proof. unfold unref. cbn [alive]. destruct (live _ _); [done|]. cbn [fmap list_fmap]. by rewrite <-app_assoc. Qed.

(** What was put in is alive or deleted. *)
Definition accounts (ins : list (list Z * V)) s : Prop :=
  ins ≡ₚ a_deleted s ++ (kv <$> alive (a_cached s ++ a_held s)).

Lemma evicted_facts held nx cached : forall d ins, accounts ins (mkACache cached held d nx) ->
  Forall (fun e => 0 <= ce_charge e) cached ->
  let s := evicted (mkACache cached held d nx) in
  accounts ins s /\ a_held s = held /\ a_next s = nx /\ (length (a_cached s) <= length cached)%nat /\
  live_charge (a_cached s ++ held) <= live_charge (cached ++ held) /\
  (live_charge (a_cached s ++ held) <= capacity \/ a_cached s = []) /\ exists n, a_cached s = drop n cached.
Proof.
  unfold evicted. cbn [a_cached a_held a_deleted a_next]. induction cached as [|o cached IH]; intros d ins Ha Hc; cbn [spec_evict].
  - cbn [a_cached a_held a_deleted a_next app]. split_and!; [done..|lia|lia|by right|by exists O].
  - apply Forall_cons in Hc as [Ho Hc]. destruct (Z.ltb_spec capacity (live_charge ((o :: cached) ++ held))) as [Hlt|Hle].
    + assert (accounts ins (mkACache cached held (unref o (cached ++ held) d) nx)) as Ha'.
      { unfold accounts in *. cbn [a_cached a_held a_deleted] in *. rewrite Ha. symmetry. apply unref_alive. }
      specialize (IH _ _ Ha' Hc). destruct (spec_evict capacity cached held _) as [cached' d'] eqn:E. cbn [a_cached a_held a_deleted a_next] in *.
      destruct IH as (H1 & H2 & H3 & H4 & H5 & H6 & n & H7). pose proof (live_charge_tail o (cached ++ held) Ho).
      change ((o :: cached) ++ held) with (o :: cached ++ held). split_and!; [done..|cbn [length]; lia|lia|done|by exists (S n)].
    + cbn [a_cached a_held a_deleted a_next]. split_and!; [done..|lia|by left|by exists O].
Qed.

Definition op_charge (o : cache_op V) : Z := match o with CInsert _ _ ch => ch | _ => 0 end.
Definition op_entry (o : cache_op V) : list (list Z * V) := match o with CInsert k v _ => [(k, v)] | _ => [] end.

(** Room for [n] more operations that insert [w] octets. *)
Definition room (n : nat) (w : Z) s : Prop :=
  zlen (a_cached s ++ a_held s) + 2 * Z.of_nat n + 2 < 2 ^ 31 /\ live_charge (a_cached s ++ a_held s) + w < 2 ^ 64.

Lemma room_less n w s n' w' s' : room n w s ->
  zlen (a_cached s' ++ a_held s') + 2 * Z.of_nat n' <= zlen (a_cached s ++ a_held s) + 2 * Z.of_nat n ->
  live_charge (a_cached s' ++ a_held s') + w' <= live_charge (a_cached s ++ a_held s) + w -> room n' w' s'.
Proof. unfold room. lia. Qed.

Lemma room_fits n w s : 0 <= w -> room n w s -> fits s.
Proof. unfold room, fits. lia. Qed.

Lemma filter_charge (P : entry V -> Prop) `{!forall x, Decision (P x)} s : NoDup (ids (a_cached s)) ->
  Forall (fun e => 0 <= ce_charge e) (a_cached s ++ a_held s) ->
  live_charge (filter P (a_cached s) ++ a_held s) <= live_charge (a_cached s ++ a_held s).
Proof.
  intros Hd [Hc _]%Forall_app. rewrite !live_charge_alive, !alive_app, !total_app by (done || by apply NoDup_fmap_filter).
  pose proof (total_filter P (fun e => ce_id e ∉ ids (a_held s)) _ Hc). lia.
Qed.
Lemma release_step n w ins s h s' : (forall e e', e ∈ a_cached s ++ a_held s -> e' ∈ a_cached s ++ a_held s -> ce_id e = ce_id e' -> e = e') ->
  Forall (fun e => 0 <= ce_charge e) (a_cached s ++ a_held s) -> room (S n) w s -> accounts ins s -> spec_Release h s = Some s' ->
  room n w s' /\ accounts ins s'.
Proof.
  intros Hs Hc Hr Ha E. unfold spec_Release in E. destruct (list_find _ _) as [[j x]|] eqn:Ef; [|done].
  cbn [mbind option_bind] in E. injection E as <-. apply list_find_Some in Ef as (Hj & _ & _).
  assert (a_cached s ++ a_held s ≡ₚ x :: a_cached s ++ delete j (a_held s)) as Hp.
  { rewrite (delete_Permutation _ _ _ Hj) at 1. by rewrite Permutation_middle. }
  pose proof (live_charge_perm _ _ Hs Hp) as El. pose proof (alive_perm _ _ Hs Hp) as Eal. rewrite Hp in Hc. apply Forall_cons in Hc as [Hx _].
  pose proof (live_charge_tail x (a_cached s ++ delete j (a_held s)) Hx). split.
  - eapply room_less; [done|cbn [a_cached a_held]|cbn [a_cached a_held]; lia]. apply Permutation_length in Hp. cbn [length] in Hp. lia.
  - unfold accounts in *. cbn [a_cached a_held a_deleted]. rewrite unref_alive, <-Eal. done.
Qed.
Definition one_entry s : Prop :=
  forall e e', e ∈ a_cached s ++ a_held s -> e' ∈ a_cached s ++ a_held s -> ce_id e = ce_id e' -> e = e'.

Lemma rep_one c s : rep c s -> one_entry s.
Proof. intros Hr e e'. apply (heap_same hf (heap c)), Hr. Qed.

Lemma lookup_step n w ins s k : one_entry s -> distinct (a_cached s) -> room (S n) w s -> accounts ins s ->
  room n w (spec_Lookup k s).2 /\ accounts ins (spec_Lookup k s).2.
Proof.
  intros Hs Hd Hr Ha. unfold spec_Lookup. pose proof (find_key_spec k (a_cached s)) as Hfk.
  destruct (find_key k (a_cached s)) as [e|]; cbn [snd]; [|split; [|done]; eapply room_less; [done|lia..]].
  destruct Hfk as [He <-].
  assert (e :: a_cached s ++ a_held s ≡ₚ (without (ce_key e) (a_cached s) ++ [e]) ++ e :: a_held s) as Hp.
  { rewrite (without_perm _ e Hd He) at 1. rewrite <-!app_assoc. cbn [app]. by rewrite <-!Permutation_middle. }
  assert (forall x y, x ∈ e :: a_cached s ++ a_held s -> y ∈ e :: a_cached s ++ a_held s -> ce_id x = ce_id y -> x = y) as Hs'.
  { intros x y Hx Hy. apply Hs; [apply elem_of_cons in Hx as [-> |?]|apply elem_of_cons in Hy as [-> |?]]; (done || by apply in_cached). }
  pose proof (live_charge_perm _ _ Hs' Hp) as El. pose proof (alive_perm _ _ Hs' Hp) as Eal. rewrite live_charge_dup in El by (by apply in_cached).
  cbn [alive] in Eal. rewrite (proj2 (live_spec _ (ce_id e))) in Eal by (by apply list_elem_of_fmap_2, in_cached). split.
  - eapply room_less; [done|cbn [a_cached a_held]|cbn [a_cached a_held]; lia]. apply Permutation_length in Hp. cbn [length] in Hp. lia.
  - unfold accounts in *. cbn [a_cached a_held a_deleted]. by rewrite <-Eal.
Qed.

Lemma erase_step n w ins s k : one_entry s -> distinct (a_cached s) -> Forall (fun e => 0 <= ce_charge e) (a_cached s ++ a_held s) ->
  room (S n) w s -> accounts ins s -> room n w (spec_Erase k s) /\ accounts ins (spec_Erase k s).
Proof.
  intros Hs Hd Hc Hr Ha. unfold spec_Erase. pose proof (find_key_spec k (a_cached s)) as Hfk.
  destruct (find_key k (a_cached s)) as [e|]; [|split; [|done]; eapply room_less; [done|lia..]].
  destruct Hfk as [He <-]. assert (a_cached s ++ a_held s ≡ₚ e :: without (ce_key e) (a_cached s) ++ a_held s) as Hp
    by (by rewrite (without_perm _ e Hd He) at 1).
  split.
  - pose proof (filter_charge (fun x => ce_key x <> ce_key e) s (proj2 Hd) Hc).
    eapply room_less; [done|cbn [a_cached a_held]|cbn [a_cached a_held]; unfold without; lia]. apply Permutation_length in Hp. cbn [length] in Hp. lia.
  - unfold accounts in *. cbn [a_cached a_held a_deleted]. rewrite unref_alive. by rewrite <-(alive_perm _ _ Hs Hp).
Qed.

Lemma prune_step n w ins s : distinct (a_cached s) -> Forall (fun e => 0 <= ce_charge e) (a_cached s ++ a_held s) ->
  room (S n) w s -> accounts ins s -> room n w (spec_Prune s) /\ accounts ins (spec_Prune s).
Proof.
  intros [_ Hd] Hc Hr Ha. unfold spec_Prune. split.
  - pose proof (filter_charge (fun x => ce_id x ∈ ids (a_held s)) s Hd Hc). pose proof (filter_le (fun x => ce_id x ∈ ids (a_held s)) (a_cached s)).
    eapply room_less; [done|cbn [a_cached a_held]; rewrite !length_app; lia|cbn [a_cached a_held]; lia].
  - unfold accounts in *. cbn [a_cached a_held a_deleted]. rewrite Ha, !alive_app, !fmap_app by (done || by apply NoDup_fmap_filter).
    assert (filter (fun e => ce_id e ∉ ids (a_held s)) (filter (fun e => ce_id e ∈ ids (a_held s)) (a_cached s)) = []) as ->.
    { clear. induction (a_cached s) as [|e l IH]; [done|]. rewrite filter_cons.
      destruct (decide _); [rewrite filter_cons_False by naive_solver|]; done. }
    by rewrite <-app_assoc.
Qed.
Lemma insert_step n w ins s k v ch : one_entry s -> distinct (a_cached s) -> Forall (fun e => ce_id e < a_next s)%nat (a_cached s ++ a_held s) ->
  Forall (fun e => 0 <= ce_charge e) (a_cached s ++ a_held s) -> 0 <= ch ->
  room (S n) (ch + w) s -> accounts ins s ->
  room n w (spec_Insert capacity k v ch s).2 /\ accounts (ins ++ [(k, v)]) (spec_Insert capacity k v ch s).2.
Proof.
  intros Hs Hd Hid Hc Hch Hr Ha. set (e := mkEntry (a_next s) k v ch).
  assert (ce_id e ∉ ids (a_cached s ++ a_held s)) as Hout.
  { intros (x & E & Hx)%list_elem_of_fmap. rewrite Forall_forall in Hid. specialize (Hid x Hx). cbn in *. lia. }
  assert ((spec_Insert capacity k v ch s).2 = evicted (inserted e s)) as ->.
  { unfold spec_Insert, evicted, inserted. cbn [a_cached a_held a_deleted a_next]. by destruct (spec_evict _ _ _ _). }
  assert (forall x y, x ∈ e :: e :: a_cached s ++ a_held s -> y ∈ e :: e :: a_cached s ++ a_held s -> ce_id x = ce_id y -> x = y) as Hs'.
  { assert (forall y, y ∈ a_cached s ++ a_held s -> ce_id e <> ce_id y) as Hne by (intros y Hy E; apply Hout; rewrite E; by apply list_elem_of_fmap_2).
    intros x y. rewrite !elem_of_cons. intros [-> |[-> |Hx]] [-> |[-> |Hy]] E; try done; [by destruct (Hne y)..|by destruct (Hne x)|by destruct (Hne x)|by apply Hs]. }
  pose proof (inserted_all e s Hd) as Hall. pose proof (live_charge_fresh e _ Hout) as Hlc.
  assert (alive (e :: e :: a_cached s ++ a_held s) = e :: alive (a_cached s ++ a_held s)) as Hal.
  { cbn [alive]. rewrite (proj2 (live_spec (e :: _) (ce_id e))) by (by left).
    destruct (live (a_cached s ++ a_held s) (ce_id e)) eqn:E; [by apply live_spec in E|done]. }
  assert (Forall (fun e => 0 <= ce_charge e) (e :: e :: a_cached s ++ a_held s)) as Hce by (by do 2 (constructor; [done|])).
  assert (accounts (ins ++ [(k, v)]) (inserted e s) /\ live_charge (a_cached (inserted e s) ++ a_held (inserted e s)) <= ch + live_charge (a_cached s ++ a_held s) /\
    (length (a_cached (inserted e s) ++ a_held (inserted e s)) <= 2 + length (a_cached s ++ a_held s))%nat /\
    Forall (fun e => 0 <= ce_charge e) (a_cached (inserted e s))) as (Hai & Hli & Hni & Hci).
  { unfold accounts in *. unfold inserted at 1. cbn [a_deleted]. destruct (find_key (ce_key e) (a_cached s)) as [o|];
      pose proof (live_charge_perm _ _ Hs' Hall) as El; pose proof (alive_perm _ _ Hs' Hall) as Eal; pose proof (Permutation_length Hall) as Epl;
      rewrite Hall in Hce; cbn [length] in Epl.
    - change (without (ce_key e) (a_cached s) ++ [e]) with (a_cached (inserted e s)). change (e :: a_held s) with (a_held (inserted e s)).
      rewrite unref_alive, <-Eal, Hal, Ha. apply Forall_cons in Hce as [Ho [Hce _]%Forall_app].
      pose proof (live_charge_tail o (a_cached (inserted e s) ++ a_held (inserted e s)) Ho). cbn [ce_charge e] in Hlc. split_and!; [|lia|lia|done].
      rewrite <-app_assoc. apply Permutation_app_head, (Permutation_app_comm _ [_]).
    - rewrite <-Eal, Hal, Ha. apply Forall_app in Hce as [Hce _]. cbn [ce_charge e] in Hlc. split_and!; [|lia|lia|done].
      rewrite <-app_assoc. apply Permutation_app_head, (Permutation_app_comm _ [_]). }
  destruct (evicted_facts (a_held (inserted e s)) (a_next (inserted e s)) (a_cached (inserted e s)) (a_deleted (inserted e s)) _ Hai Hci) as (E1 & E2 & _ & E4 & E5 & _).
  change (mkACache (a_cached (inserted e s)) _ _ _) with (inserted e s) in *. split; [|done].
  rewrite length_app in Hni. eapply room_less; [done|rewrite E2, length_app; lia|rewrite E2; lia].
Qed.

Lemma op_spec c s (o : cache_op V) r s' n w ins : rep c s -> 0 <= op_charge o -> 0 <= w -> room (S n) (op_charge o + w) s -> accounts ins s ->
  spec_cache_op capacity s o = Some (r, s') ->
  exists c', lru_cache_op hf c o = Some (r, c') /\ rep c' s' /\ room n w s' /\ accounts (ins ++ op_entry o) s'.
Proof using Hhf.
  intros Hrep Ho Hw Hr Ha E. assert (fits s) as Hf by (eapply room_fits; [|done]; lia). pose proof (rep_one _ _ Hrep) as H1.
  pose proof (r_distinct _ _ Hrep) as Hd. pose proof (r_charge _ _ Hrep) as Hc.
  destruct o as [k v ch|k|h|k|]; cbn [spec_cache_op lru_cache_op op_charge op_entry] in *; rewrite ?app_nil_r, ?Z.add_0_l in *.
  - destruct (spec_Insert capacity k v ch s) as [h s1] eqn:Es. injection E as <- <-.
    destruct (LRU_Insert_spec c s k v ch) as (c' & -> & Hr'); [done..| |]. { unfold room in Hr. lia. }
    destruct (insert_step n w ins s k v ch) as [A1 A2]; [done|done|apply Hrep|done..|]. rewrite Es in *. cbn [mbind option_bind fst snd] in *. eauto.
  - injection E as E. destruct (LRU_Lookup_spec c s k) as (c' & -> & Hr'); [done..|]. destruct (lookup_step n w ins s k) as [A1 A2]; [done..|].
    rewrite E in *. cbn [fst snd] in *. eauto.
  - destruct (spec_Release h s) as [s1|] eqn:Es; [|done]. cbn [mbind option_bind] in E. injection E as <- <-.
    destruct (LRU_Release_spec c s h s1) as (c' & -> & Hr'); [done..|]. destruct (release_step n w ins s h s1) as [A1 A2]; [done..|].
    cbn [mbind option_bind]. eauto.
  - injection E as <- <-. destruct (LRU_Erase_spec c s k) as (c' & -> & Hr'); [done..|]. destruct (erase_step n w ins s k) as [A1 A2]; [done..|].
    cbn [mbind option_bind]. eauto.
  - injection E as <- <-. destruct (LRU_Prune_spec c s) as (c' & -> & Hr'); [done..|]. destruct (prune_step n w ins s) as [A1 A2]; [done..|].
    cbn [mbind option_bind]. eauto.
Qed.
Lemma ops_spec (os : list (cache_op V)) : forall c s rs s' ins, rep c s -> Forall (fun o : cache_op V => 0 <= op_charge o) os ->
  room (length os) (foldr (fun (o : cache_op V) n => op_charge o + n) 0 os) s -> accounts ins s ->
  run_ops (spec_cache_op capacity) s os = Some (rs, s') ->
  exists c', run_ops (lru_cache_op hf) c os = Some (rs, c') /\ rep c' s' /\ room 0 0 s' /\ accounts (ins ++ concat (op_entry <$> os)) s'.
Proof using Hhf.
  induction os as [|o os IH]; intros c s rs s' ins Hr Hc Hroom Ha E; cbn [run_ops] in *.
  - injection E as <- <-. exists c. cbn [fmap list_fmap concat]. by rewrite app_nil_r.
  - apply Forall_cons in Hc as [Ho Hc]. cbn [length foldr] in Hroom.
    assert (0 <= foldr (fun (o : cache_op V) n => op_charge o + n) 0 os) as Hw by (clear -Hc; induction Hc; simpl; lia).
    destruct (spec_cache_op capacity s o) as [[r s1]|] eqn:E1; [|done]. cbn [mbind option_bind] in E.
    destruct (op_spec c s o r s1 _ _ ins Hr Ho Hw Hroom Ha E1) as (c1 & -> & Hr1 & Hroom1 & Ha1). cbn [mbind option_bind].
    destruct (run_ops _ s1 os) as [[rs1 s2]|] eqn:E2; [|done]. cbn [mbind option_bind] in E. injection E as <- <-.
    destruct (IH c1 s1 rs1 s2 _ Hr1 Hc Hroom1 Ha1 E2) as (c' & -> & A1 & A2 & A3). cbn [mbind option_bind]. exists c'.
    cbn [fmap list_fmap concat]. by rewrite app_assoc.
Qed.

Lemma new_LRUCache_spec : exists c, new_LRUCache capacity = Some c /\ rep c (mkACache [] [] [] O).
Proof using Hhf.
  unfold new_LRUCache, new_HandleTable.
  destruct (Resize_spec hf Hhf (∅ : gmap nat (LRUHandle V)) (mkHandleTable 0 0 []) [] (fun _ => [])) as (t & -> & Ht); [by intros h ?%elem_of_nil|done..|].
  cbn [mbind option_bind]. eexists. split; [done|]. constructor; cbn; try done.
  - constructor; [by intros e ?%elem_of_nil|]. intros h _. apply lookup_empty.
  - exists (fun _ => []). split; [done|]. by intros e ?%elem_of_nil.
  - split; constructor.
Qed.

(** The destructor deletes what is left; nobody may hold a handle. *)
Lemma delete_loop_spec l : forall c, heap_rep hf (heap c) l -> usage_ c = live_charge l -> Forall (fun e => 0 <= ce_charge e) l ->
  live_charge l < 2 ^ 64 -> distinct l ->
  exists c', delete_loop (ids l) c = Some c' /\ heap_rep hf (heap c') [] /\ usage_ c' = 0 /\ deleted c' = deleted c ++ (kv <$> l).
Proof.
  induction l as [|o l IH]; intros c Hr Hu Hc Hz Hd.
  { exists c. split; [done|]. split; [done|]. split; [done|]. by rewrite app_nil_r. }
  change (ids (o :: l)) with (ce_id o :: ids l). cbn [delete_loop]. rewrite (hr_in _ _ _ Hr o) by (by left).
  cbn [mbind option_bind handle_of refs]. rewrite count_distinct by (done || by left). cbn [passert mbind option_bind Z.eqb Pos.eqb Z.of_nat Pos.of_succ_nat].
  destruct (Unref_spec hf c o l Hr Hu Hc Hz) as (hp & -> & Hr'). cbn [mbind option_bind].
  assert (live l (ce_id o) = false) as Hl by (apply not_true_iff_false; rewrite live_spec; by destruct Hd as [_ [? _]%NoDup_cons]).
  apply Forall_cons in Hc as [Ho Hc]. pose proof (live_charge_tail o l Ho). unfold unref. rewrite Hl.
  change (ce_key o, ce_value o) with (kv o).
  destruct (IH (set_heap hp (live_charge l) (deleted c ++ [kv o]) c)) as (c' & -> & A1 & A2 & A3); [done|done|done|lia| |].
  - destruct Hd as [[_ ?]%NoDup_cons [_ ?]%NoDup_cons]. by split.
  - exists c'. split; [done|]. split; [done|]. split; [done|]. rewrite A3. cbn [set_heap deleted fmap list_fmap]. by rewrite <-app_assoc.
Qed.
End shard.

Lemma run_ops_app {S O R} (step : S -> O -> option (R * S)) os os' : forall s,
  run_ops step s (os ++ os') = ('(rs, s) ← run_ops step s os; '(rs', s) ← run_ops step s os'; Some (rs ++ rs', s)).
Proof.
  induction os as [|o os IH]; intros s; cbn [run_ops app].
  - cbn [mbind option_bind]. by destruct (run_ops step s os') as [[? ?]|].
  - destruct (step s o) as [[r s1]|]; [|done]. cbn [mbind option_bind]. rewrite IH. destruct (run_ops step s1 os) as [[rs s2]|]; [|done].
    cbn [mbind option_bind]. by destruct (run_ops step s2 os') as [[? ?]|].
Qed.

(** ** Properties *)

Lemma spec_evict_bound {V} capacity (held : list (entry V)) cached : forall d cached' d',
  spec_evict capacity cached held d = (cached', d') -> live_charge (cached' ++ held) <= capacity \/ cached' = [].
Proof.
  induction cached as [|o cached IH]; intros d cached' d' E; cbn [spec_evict] in E; [injection E as <- _; by right|].
  destruct (Z.ltb_spec capacity (live_charge ((o :: cached) ++ held))); [by eapply IH|]. injection E as <- _. by left.
Qed.

(** C11 (lru_cache_refines) A shard of the cache under any operations of callers
    that release only handles they hold, within the counters of the code: no
    handle is used after it was freed, no assertion fails, and handles, order of
    use and deletions are those of the specification, a list of entries, oldest
    first, that drops its oldest entries when their charges and those of the
    entries still held exceed the capacity.  Each allocated handle carries its
    entry and counts its references. *)
Theorem lru_cache_refines {V} hf capacity (os : list (cache_op V)) rs s :
  (forall k, fits_unsigned 32 (hf k)) -> Forall (fun o => 0 <= op_charge o) os ->
  2 * zlen os + 2 < 2 ^ 31 -> foldr (fun o n => op_charge o + n) 0 os < 2 ^ 64 ->
  run_ops (spec_cache_op capacity) (mkACache [] [] [] O) os = Some (rs, s) ->
  exists c c', new_LRUCache capacity = Some c /\ run_ops (lru_cache_op hf) c os = Some (rs, c') /\
    lru_ c' = ids (a_cached s) /\ deleted c' = a_deleted s /\ usage_ c' = live_charge (a_cached s ++ a_held s) /\
    (forall h e, heap c' !! h = Some e <->
      exists x, x ∈ a_cached s ++ a_held s /\ h = ce_id x /\ e = handle_of hf x (count (a_cached s ++ a_held s) h)).
Proof.
  intros Hhf Hc Hn Hz E. destruct (new_LRUCache_spec (V := V) hf Hhf capacity) as (c & Ec & Hr).
  destruct (ops_spec hf Hhf capacity os c _ rs s [] Hr Hc) as (c' & E' & [R1 R2 R3 R4 _ R6 _ _ _ _] & _ & _); [|constructor|done|].
  { split; [|done]. cbn [a_cached a_held app length]. lia. }
  exists c, c'. split_and!; [done..|]. intros h e. split.
  - intros Hh. destruct (decide (h ∈ ids (a_cached s ++ a_held s))) as [(x & -> & Hx)%list_elem_of_fmap|Hout].
    + exists x. rewrite (hr_in _ _ _ R3 x Hx) in Hh. by injection Hh as <-.
    + by rewrite (hr_out _ _ _ R3 h Hout) in Hh.
  - intros (x & Hx & -> & ->). by apply R3.
Qed.

(** A hash with collisions, for the examples. *)
Definition zlen_hash (k : list Z) : Z := wrap 32 (zlen k).
Lemma zlen_hash_fits k : fits_unsigned 32 (zlen_hash k).
Proof. by apply wrap_unsigned. Qed.

Lemma lru_cache_refines_witness :
  let os := [CInsert [1] 10%nat 3; CRelease 0; CInsert [2] 20%nat 3; CRelease 1; CLookup [1]; CRelease 0; CInsert [3] 30%nat 3; CLookup [2]; CErase [1]] in
  let rs := [Some 0%nat; None; Some 1%nat; None; Some 0%nat; None; Some 2%nat; None; None] in
  let e := mkEntry 2 [3] 30%nat 3 in
  exists c c', new_LRUCache 6 = Some c /\ run_ops (lru_cache_op zlen_hash) c os = Some (rs, c') /\
    lru_ c' = [2%nat] /\ deleted c' = [([2], 20%nat); ([1], 10%nat)] /\ usage_ c' = 3 /\
    (forall h x, heap c' !! h = Some x <-> exists y, y ∈ [e] ++ [e] /\ h = ce_id y /\ x = handle_of zlen_hash y (count ([e] ++ [e]) h)).
Proof.
  intros os rs e. apply (lru_cache_refines zlen_hash 6 os rs (mkACache [e] [e] [([2], 20%nat); ([1], 10%nat)] 3)).
  - apply zlen_hash_fits.
  - repeat constructor; done.
  - done.
  - done.
  - vm_compute. reflexivity.
Defined.

(** C12 (lru_cache_accounting) After an insertion the charges of all the entries
    alive are within the capacity, or nothing is cached.  Every value that was
    inserted is given to its deleter once: when callers hold no handle any more,
    the destructor leaves nothing allocated, and the deletions are the
    insertions. *)
Theorem lru_cache_accounting {V} hf capacity (os : list (cache_op V)) rs s :
  (forall k, fits_unsigned 32 (hf k)) -> Forall (fun o => 0 <= op_charge o) os ->
  2 * zlen os + 2 < 2 ^ 31 -> foldr (fun o n => op_charge o + n) 0 os < 2 ^ 64 ->
  run_ops (spec_cache_op capacity) (mkACache [] [] [] O) os = Some (rs, s) ->
  exists c c', new_LRUCache capacity = Some c /\ run_ops (lru_cache_op hf) c os = Some (rs, c') /\
    (forall os' k v ch, os = os' ++ [CInsert k v ch] -> usage_ c' <= capacity \/ lru_ c' = []) /\
    (a_held s = [] -> exists c'', LRU_delete c' = Some c'' /\ (forall h, heap c'' !! h = None) /\ usage_ c'' = 0 /\
      deleted c'' ≡ₚ concat (op_entry <$> os)).
Proof.
  intros Hhf Hc Hn Hz E. destruct (new_LRUCache_spec (V := V) hf Hhf capacity) as (c & Ec & Hr).
  destruct (ops_spec hf Hhf capacity os c _ rs s [] Hr Hc) as (c' & E' & Hrep & Hroom & Hacc); [|constructor|done|].
  { split; [|done]. cbn [a_cached a_held app length]. lia. }
  destruct Hrep as [R1 R2 R3 R4 _ R6 _ _ R9 R10]. exists c, c'. split_and!; [done|done| |].
  - intros os' k v ch ->. rewrite run_ops_app in E. destruct (run_ops _ _ os') as [[rs' s1]|] eqn:E1; [|done].
    cbn [mbind option_bind run_ops spec_cache_op] in E. destruct (spec_Insert capacity k v ch s1) as [h s2] eqn:Es.
    cbn [mbind option_bind] in E. injection E as _ ->. rewrite R4, R2. unfold spec_Insert in Es.
    destruct (spec_evict _ _ _ _) as [cached d] eqn:Ev. injection Es as _ <-. cbn [a_cached a_held] in *.
    apply Forall_app in R10 as [R10 _]. clear -Ev. apply spec_evict_bound in Ev as [?| ->]; [by left|by right].
  - intros Hh. rewrite Hh, app_nil_r in *. unfold LRU_delete. rewrite R2.
    destruct (delete_loop_spec hf (a_cached s) c' R3 R4 R10) as (c'' & -> & A1 & A2 & A3); [unfold room in Hroom; rewrite Hh, app_nil_r in Hroom; lia|done|].
    exists c''. split; [done|]. split; [intros h; apply A1; by apply not_elem_of_nil|]. split; [done|]. rewrite A3, R6.
    unfold accounts in Hacc. rewrite Hh in Hacc. cbn [app] in Hacc. rewrite Hacc, alive_app by apply R9. cbn [alive]. rewrite app_nil_r.
    f_equiv. f_equiv. unfold ids. cbn [fmap list_fmap]. rewrite filter_all; [done|]. intros x _. apply not_elem_of_nil.
Qed.

Lemma lru_cache_accounting_witness :
  let os := [CInsert [1] 10%nat 3; CRelease 0; CInsert [2] 20%nat 3; CRelease 1; CInsert [1] 30%nat 4; CRelease 2; CPrune; CInsert [4] 40%nat 7; CRelease 3] in
  let rs := [Some 0%nat; None; Some 1%nat; None; Some 2%nat; None; None; Some 3%nat; None] in
  let s := mkACache [] [] [([1], 10%nat); ([2], 20%nat); ([1], 30%nat); ([4], 40%nat)] 4 in
  exists c c', new_LRUCache 6 = Some c /\ run_ops (lru_cache_op zlen_hash) c os = Some (rs, c') /\
    (forall os' k v ch, os = os' ++ [CInsert k v ch] -> usage_ c' <= 6 \/ lru_ c' = []) /\
    (a_held s = [] -> exists c'', LRU_delete c' = Some c'' /\ (forall h, heap c'' !! h = None) /\ usage_ c'' = 0 /\
      deleted c'' ≡ₚ [([1], 10%nat); ([2], 20%nat); ([1], 30%nat); ([4], 40%nat)]).
Proof.
  intros os rs s. apply (lru_cache_accounting zlen_hash 6 os rs s).
  - apply zlen_hash_fits.
  - repeat constructor; done.
  - done.
  - done.
  - vm_compute. reflexivity.
Defined.
