(* ===== verification/CacheShards.v ===== *)
(** The sharded cache of [Cache] as its users see it.

    First the table cache, where every entry counts for one and a handle is given
    back before the next one is taken: the entries that a lookup can find satisfy
    whatever held of the pairs that were inserted.  Then the block cache, with
    entries of any size and any number of handles out. *)
From S2P Require Import Prelude Coding LdbBase Iterator Filter Cache.

(** The value of the hash function, which is total. *)
Definition hash_of (le : bool) (k : list Z) : Z := default 0 (HashSlice le k).

Lemma lxor_shift_fits h n : 0 <= n -> fits_unsigned 32 h -> fits_unsigned 32 (Z.lxor h (Z.shiftr h n)).
Proof.
  intros Hn Hh. apply lxor_bound; [done..|]. unfold fits_unsigned in *. rewrite Z.shiftr_div_pow2 by done.
  pose proof (Z.pow_pos_nonneg 2 n ltac:(lia) Hn). split; [apply Z.div_pos; lia|]. apply Z.div_lt_upper_bound; nia.
Qed.

Lemma Hash_tail_fits data n h h' : fits_unsigned 32 h -> Hash_tail data n h = Some h' -> fits_unsigned 32 h'.
Proof.
  intros Hh. unfold Hash_tail.
  assert (forall x, fits_unsigned 32 (let h := wrap 32 (x * hash_m) in Z.lxor h (Z.shiftr h 24))) as Hfin.
  { intros x. cbv zeta. apply lxor_shift_fits; [done|by apply wrap_unsigned]. }
  destruct (n =? 3); [|destruct (n =? 2); [|destruct (n =? 1); [|by intros [= <-]]]].
  all: repeat (match goal with |- context [rd ?d ?i] => destruct (rd d i); [|done] end; cbn [mbind option_bind]); intros [= <-]; apply Hfin.
Qed.

Lemma Hash_loop_fits le fuel : forall data n h h', fits_unsigned 32 h -> Hash_loop le fuel data n h = Some h' -> fits_unsigned 32 h'.
Proof.
  induction fuel as [|fuel IH]; intros data n h h' Hh E; cbn [Hash_loop] in E; [done|]. destruct (4 <=? n); [|by eapply Hash_tail_fits].
  destruct (DecodeFixed32 le data); [|done]. cbn [mbind option_bind] in E. eapply IH; [|exact E]. apply lxor_shift_fits; [done|by apply wrap_unsigned].
Qed.

Lemma HashSlice_spec le k : HashSlice le k = Some (hash_of le k) /\ fits_unsigned 32 (hash_of le k).
Proof.
  unfold hash_of, HashSlice. destruct (Hash_total le k 0) as [h E]. rewrite E. cbn [default]. split; [done|].
  unfold Hash in E. eapply Hash_loop_fits; [|exact E]. by apply wrap_unsigned.
Qed.

Section counts.
Context {V : Type}.
Implicit Types (l held : list (entry V)) (e : entry V).

Definition ones l : Prop := Forall (fun e => ce_charge e = 1) l.

Lemma live_charge_ones l : ones l -> 0 <= live_charge l <= zlen l.
Proof. induction 1 as [|e l He _ IH]; [done|]. cbn [live_charge length]. destruct (live _ _); lia. Qed.

Lemma live_charge_held l e : ones l -> ce_charge e = 1 -> NoDup (ids l) -> zlen l <= live_charge (l ++ [e]).
Proof.
  intros Hl He Hn. rewrite live_charge_alive, alive_app, total_app by done. cbn [alive]. unfold live. cbn [ids fmap list_fmap].
  rewrite bool_decide_false by apply not_elem_of_nil. cbn [total]. rewrite He.
  enough (zlen l <= total (filter (fun x => ce_id x ∉ [ce_id e]) l) + 1) by (unfold ids in *; cbn in *; lia).
  induction Hl as [|x l Hx Hl IH]; [cbn; lia|]. cbn in Hn. apply NoDup_cons in Hn as [Hnx Hn]. rewrite filter_cons. case_decide as Hd.
  - cbn [total length]. rewrite Hx. specialize (IH Hn). lia.
  - assert (ce_id x = ce_id e) as Ex by (by apply list_elem_of_singleton in Hd).
    assert (filter (fun x => ce_id x ∉ [ce_id e]) l = l) as ->.
    { apply filter_all. intros y Hy E%list_elem_of_singleton. apply Hnx. rewrite Ex, <-E. by apply list_elem_of_fmap_2. }
    cbn [length]. assert (total l = zlen l) as -> by (clear -Hl; induction Hl as [|y l Hy _ IH]; [done|]; cbn [total length]; lia). lia.
Qed.
End counts.

Section shards.
Context {V : Type} (le : bool) (capacity : Z) (Hcap : 0 <= capacity < 2 ^ 30).
Implicit Types (P : list Z -> V -> Prop) (c : LRUCache V) (s : ShardedLRUCache V) (k : list Z) (v : V) (a : acache V).
Notation hf := (hash_of le).
Notation rep := (rep hf capacity).

Definition entry_ok P (e : entry V) : Prop := P (ce_key e) (ce_value e) /\ ce_charge e = 1.

(** A shard where the caller holds [held]. *)
Definition shard_ok P (held : list (entry V)) c : Prop := exists a, rep c a /\ a_held a = held /\ Forall (entry_ok P) (a_cached a ++ held) /\ zlen (a_cached a) <= capacity.

Definition shard_of k : nat := Z.to_nat (Shard (hf k)).

(** What a shard holds belongs there. *)
Definition at_shard P (i : nat) k v : Prop := P k v /\ shard_of k = i.

(** No handle is out. *)
Definition quiet P s : Prop := zlen (shard_ s) = kNumShards /\ forall i c, shard_ s !! i = Some c -> shard_ok (at_shard P i) [] c.

(** The handle [h] for the key [k] is out. *)
Definition holding P k v (h : nat) s : Prop := zlen (shard_ s) = kNumShards /\ exists c e, shard_ s !! shard_of k = Some c /\
  shard_ok (at_shard P (shard_of k)) [e] c /\ ce_id e = h /\ ce_key e = k /\ ce_value e = v /\
  forall i c', i <> shard_of k -> shard_ s !! i = Some c' -> shard_ok (at_shard P i) [] c'.

Lemma hf_fits k : fits_unsigned 32 (hf k).
Proof. apply HashSlice_spec. Qed.

Lemma shard_of_lt k : (shard_of k < 16)%nat.
Proof.
  unfold shard_of, Shard. pose proof (hf_fits k) as H. unfold fits_unsigned in H. rewrite Z.shiftr_div_pow2 by done. change (2 ^ (32 - kNumShardBits)) with 268435456.
  pose proof (Z.div_lt_upper_bound (hf k) 268435456 16 ltac:(lia) ltac:(lia)). lia.
Qed.

Lemma shard_here s k : zlen (shard_ s) = kNumShards -> exists c, shard_ s !! shard_of k = Some c.
Proof. intros Hn. pose proof (shard_of_lt k). change kNumShards with 16 in Hn. apply lookup_lt_is_Some_2. lia. Qed.

Lemma shard_impl P Q held c : (forall k v, P k v -> Q k v) -> shard_ok P held c -> shard_ok Q held c.
Proof.
  intros H (a & Hr & Hh & Hf & Hz). exists a. split_and!; [done..| |done]. eapply Forall_impl; [exact Hf|]. intros e [? ?]. split; auto.
Qed.

Lemma quiet_impl P Q s : (forall k v, P k v -> Q k v) -> quiet P s -> quiet Q s.
Proof. intros H [Hn Hs]. split; [done|]. intros i c Hi. eapply shard_impl; [|by apply Hs]. intros k v [? ?]. split; auto. Qed.

Lemma holding_impl P Q k v h s : (forall k v, P k v -> Q k v) -> holding P k v h s -> holding Q k v h s.
Proof. intros H (Hn & c & e & H1 & H2 & H3 & H4 & H5 & H6). split; [done|]. exists c, e. split_and!; try done; [|intros i c' Hi Hc']; (eapply shard_impl; [|by eauto]); intros k' v' [? ?]; split; auto. Qed.

Lemma quiet_shard P s k c c' : quiet P s -> shard_ s !! shard_of k = Some c -> shard_ok (at_shard P (shard_of k)) [] c' ->
  quiet P (mkSharded (<[shard_of k := c']> (shard_ s)) (last_id_ s)).
Proof.
  intros [Hn Hs] Hc Hc'. split; [cbn [shard_]; by rewrite length_insert|]. cbn [shard_]. intros i c2 Hi. destruct (decide (i = shard_of k)) as [-> |Hne].
  - rewrite list_lookup_insert_eq in Hi by (by eapply lookup_lt_Some). by injection Hi as <-.
  - rewrite list_lookup_insert_ne in Hi by done. by apply Hs.
Qed.

Lemma shard_fits P held c a : rep c a -> a_held a = held -> (length held <= 1)%nat -> Forall (entry_ok P) (a_cached a ++ held) -> zlen (a_cached a) <= capacity -> fits a.
Proof using Hcap.
  intros _ <- Hl Hf Hz. split; [rewrite length_app; lia|]. pose proof (live_charge_ones (a_cached a ++ a_held a)) as H. rewrite length_app in H.
  assert (ones (a_cached a ++ a_held a)) as Ho by (eapply Forall_impl; [exact Hf|]; by intros e [_ ?]). specialize (H Ho). lia.
Qed.

Lemma quiet_lookup P k s : quiet P s -> exists r s', Cache_Lookup le k s = Some (r, s') /\ last_id_ s' = last_id_ s /\
  match r with None => quiet P s' | Some h => exists v, P k v /\ holding P k v h s' end.
Proof using Hcap.
  intros Hq. pose proof Hq as [Hn Hs]. destruct (shard_here s k Hn) as [c Hc]. destruct (Hs _ _ Hc) as (a & Hr & Hh & Hf & Hz).
  pose proof (shard_fits _ [] c a Hr Hh ltac:(cbn; lia) Hf Hz) as Hfit. destruct (LRU_Lookup_spec hf hf_fits capacity c a k Hr Hfit) as (c' & E & Hr').
  unfold Cache_Lookup. rewrite (proj1 (HashSlice_spec le k)). cbn [mbind option_bind]. unfold on_shard. fold (shard_of k). rewrite Hc. cbn [mbind option_bind].
  rewrite E. cbn [mbind option_bind]. eexists _, _. split; [done|]. split; [done|]. unfold spec_Lookup in *. rewrite app_nil_r in Hf.
  pose proof (find_key_spec k (a_cached a)) as Hk. destruct (find_key k (a_cached a)) as [e|].
  - destruct Hk as [He Hek]. cbn [fst snd] in *. rewrite Forall_forall in Hf. destruct (Hf e He) as [[HP HPi] Hch]. rewrite Hek in HP.
    exists (ce_value e). split; [done|]. split; [cbn [shard_]; by rewrite length_insert|]. exists c', e. cbn [shard_].
    rewrite list_lookup_insert_eq by (by eapply lookup_lt_Some). split; [done|]. split; [|split_and!; try done; intros i c2 Hi; rewrite list_lookup_insert_ne by done; by apply Hs].
    assert (a_cached a ≡ₚ without k (a_cached a) ++ [e]) as Hp.
    { rewrite (without_perm _ e (r_distinct _ _ _ _ Hr) He) at 1. rewrite Hek. by rewrite Permutation_app_comm. }
    eexists. split; [exact Hr'|]. cbn [a_held a_cached]. rewrite Hh. split; [done|]. rewrite <-Hp. split; [|done].
    apply Forall_app. split; [by apply Forall_forall|]. constructor; [by apply Hf|done].
  - cbn [fst snd] in *. eapply quiet_shard; [done|exact Hc|]. exists a. split; [done|]. split; [done|]. by rewrite app_nil_r.
Qed.

Lemma quiet_insert P k v s : quiet P s -> P k v -> exists h s', Cache_Insert le k v 1 s = Some (h, s') /\ last_id_ s' = last_id_ s /\ holding P k v h s'.
Proof using Hcap.
  intros [Hn Hs] HP. destruct (shard_here s k Hn) as [c Hc]. destruct (Hs _ _ Hc) as (a & Hr & Hh & Hf & Hz).
  pose proof (shard_fits _ [] c a Hr Hh ltac:(cbn; lia) Hf Hz) as Hfit. rewrite app_nil_r in Hf.
  assert (ones (a_cached a)) as Hones by (eapply Forall_impl; [exact Hf|]; by intros e [_ ?]).
  destruct (LRU_Insert_spec hf hf_fits capacity c a k v 1 Hr Hfit) as (c' & E & Hr'); [lia|rewrite Hh, app_nil_r; pose proof (live_charge_ones _ Hones); lia|].
  unfold Cache_Insert. rewrite (proj1 (HashSlice_spec le k)). cbn [mbind option_bind]. unfold on_shard. fold (shard_of k). rewrite Hc. cbn [mbind option_bind].
  rewrite E. cbn [mbind option_bind]. eexists _, _. split; [done|]. split; [done|]. split; [cbn [shard_]; by rewrite length_insert|].
  exists c', (mkEntry (a_next a) k v 1). cbn [shard_]. rewrite list_lookup_insert_eq by (by eapply lookup_lt_Some). split; [done|].
  split; [|unfold spec_Insert; destruct (spec_evict _ _ _ _) as [cd d]; split_and!; try done; intros i c2 Hi; rewrite list_lookup_insert_ne by done; by apply Hs].
  set (e := mkEntry (a_next a) k v 1). unfold spec_Insert in Hr'. fold e in Hr'. rewrite Hh in Hr'.
  destruct (spec_evict capacity (without k (a_cached a) ++ [e]) [e] _) as [cd d] eqn:Ev. cbn [snd] in Hr'.
  assert (cd ⊆ without k (a_cached a) ++ [e]) as Hsub.
  { clear -Ev. revert Ev. generalize (without k (a_cached a) ++ [e]). intros l. match goal with |- context [spec_evict _ _ _ ?x] => generalize x end.
    induction l as [|o l IH]; intros x Ev; cbn [spec_evict] in Ev; [by injection Ev as <- _|]. destruct (_ <? _); [|by injection Ev as <- _].
    intros y Hy. right. by apply (IH _ Ev). }
  assert (Forall (entry_ok (at_shard P (shard_of k))) (cd ++ [e])) as Hfe.
  { apply Forall_app. split; [|by repeat constructor]. apply Forall_forall. intros y Hy. apply Hsub, elem_of_app in Hy as [Hy|[-> |Hy%not_elem_of_nil]%elem_of_cons]; [|by split|done].
    apply list_elem_of_filter in Hy as [_ Hy]. rewrite Forall_forall in Hf. auto. }
  eexists. split; [exact Hr'|]. cbn [a_held a_cached]. split; [done|]. split; [done|].
  destruct (spec_evict_bound _ _ _ _ _ _ Ev) as [Hb| ->]; [|cbn; lia]. etrans; [|exact Hb]. apply live_charge_held; [|done|apply (r_distinct _ _ _ _ Hr')].
  apply Forall_app in Hfe as [Hfe _]. eapply Forall_impl; [exact Hfe|]. by intros y [_ ?].
Qed.

Lemma holding_entry P k v h s : holding P k v h s -> exists c e, shard_ s !! shard_of k = Some c /\ heap c !! h = Some e /\ lh_value e = v /\ hash e = hf k.
Proof.
  intros (Hn & c & e & Hc & (a & Hr & Hh & _) & <- & <- & <- & _). exists c. eexists. split; [done|].
  split; [apply (hr_in _ _ _ (r_heap _ _ _ _ Hr)); rewrite Hh; apply elem_of_app; right; by left|done].
Qed.

Lemma holding_value P k v h s : holding P k v h s -> Cache_Value (Shard (hf k)) h s = Some v.
Proof.
  intros (c & e & Hc & He & Hv & _)%holding_entry. unfold Cache_Value. fold (shard_of k). rewrite Hc. cbn [mbind option_bind]. rewrite He. cbn. by rewrite Hv.
Qed.

Lemma holding_release P k v h s : holding P k v h s -> exists s', Cache_Release (Shard (hf k)) h s = Some s' /\ last_id_ s' = last_id_ s /\ quiet P s'.
Proof using Hcap.
  intros Hold. destruct (holding_entry _ _ _ _ _ Hold) as (c & e0 & Hc & He0 & _ & Hhash). destruct Hold as (Hn & c1 & e & Hc1 & (a & Hr & Hh & Hf & Hz) & <- & Hk & Hv & Hrest).
  rewrite Hc in Hc1. injection Hc1 as <-. pose proof (shard_fits _ [e] c a Hr Hh ltac:(cbn; lia) Hf Hz) as Hfit.
  destruct (LRU_Release_spec hf capacity c a (ce_id e) (mkACache (a_cached a) [] (unref e (a_cached a ++ []) (a_deleted a)) (a_next a)) Hr Hfit) as (c' & E & Hr').
  { unfold spec_Release. rewrite Hh. cbn. by rewrite decide_True by done. }
  unfold Cache_Release. fold (shard_of k). rewrite Hc. cbn [mbind option_bind]. rewrite He0. cbn [mbind option_bind]. unfold on_shard. rewrite Hhash. fold (shard_of k). rewrite Hc.
  cbn [mbind option_bind]. rewrite E. cbn [mbind option_bind]. eexists. split; [done|]. split; [done|]. split; [cbn [shard_]; by rewrite length_insert|].
  cbn [shard_]. intros i c2 Hi. destruct (decide (i = shard_of k)) as [-> |Hne].
  - rewrite list_lookup_insert_eq in Hi by (by eapply lookup_lt_Some). injection Hi as <-. eexists. split; [exact Hr'|]. cbn [a_held a_cached]. split; [done|].
    rewrite app_nil_r. apply Forall_app in Hf as [Hf _]. done.
  - rewrite list_lookup_insert_ne in Hi by done. by eapply Hrest.
Qed.

(** Erasing a key that is not held: it is gone. *)
Lemma quiet_erase P k s : quiet P s -> exists s', Cache_Erase le k s = Some s' /\ last_id_ s' = last_id_ s /\ quiet (fun k' v => P k' v /\ k' <> k) s'.
Proof using Hcap.
  intros [Hn Hs]. destruct (shard_here s k Hn) as [c Hc]. destruct (Hs _ _ Hc) as (a & Hr & Hh & Hf & Hz).
  pose proof (shard_fits _ [] c a Hr Hh ltac:(cbn; lia) Hf Hz) as Hfit. destruct (LRU_Erase_spec hf hf_fits capacity c a k Hr Hfit) as (c' & E & Hr').
  unfold Cache_Erase. rewrite (proj1 (HashSlice_spec le k)). cbn [mbind option_bind]. unfold on_shard. fold (shard_of k). rewrite Hc. cbn [mbind option_bind].
  rewrite E. cbn [mbind option_bind]. eexists. split; [done|]. split; [done|]. split; [cbn [shard_]; by rewrite length_insert|].
  cbn [shard_]. intros i c2 Hi. destruct (decide (i = shard_of k)) as [-> |Hne].
  - rewrite list_lookup_insert_eq in Hi by (by eapply lookup_lt_Some). injection Hi as <-. exists (spec_Erase k a). split; [done|]. unfold spec_Erase. rewrite app_nil_r in *.
    pose proof (find_key_spec k (a_cached a)) as Hk. destruct (find_key k (a_cached a)); cbn [a_held a_cached]; (split; [done|]); (split; [|try done]).
    + unfold without. apply Forall_forall. intros y [Hyk Hy]%list_elem_of_filter. rewrite Forall_forall in Hf. destruct (Hf y Hy) as [[? ?] ?]. by repeat split.
    + pose proof (length_filter (fun e => ce_key e <> k) (a_cached a)). unfold without. lia.
    + apply Forall_forall. intros y Hy. rewrite Forall_forall in Hf. destruct (Hf y Hy) as [[? ?] ?]. repeat split; auto.
  - rewrite list_lookup_insert_ne in Hi by done. eapply shard_impl; [|by apply Hs]. intros k' v [HP Hk']. repeat split; [done| |done]. intros ->. done.
Qed.
End shards.

(** A new cache is quiet. *)
Lemma NewLRUCache_quiet {V} le entries (P : list Z -> V -> Prop) : 0 <= entries < 2 ^ 30 ->
  exists s, NewLRUCache entries = Some s /\ quiet le ((entries + 15) / 16) P s.
Proof.
  intros He. unfold NewLRUCache. change (kNumShards - 1) with 15. change kNumShards with 16. rewrite wrap_fits by (unfold fits_unsigned; lia).
  destruct (new_LRUCache_spec (V := V) (hash_of le) (hf_fits le) ((entries + 15) / 16)) as (c & -> & Hr). cbn [mbind option_bind].
  eexists. split; [done|]. split; [done|]. cbn [shard_]. intros i c0 [-> _]%lookup_replicate. eexists. split; [exact Hr|]. cbn. split; [done|]. split; [constructor|].
  apply Z.div_pos; lia.
Qed.

(** ** Any number of handles *)
Section totals.
Context {V : Type}.
Implicit Types (l cached held : list (entry V)).

Lemma live_charge_le l : Forall (fun e => 0 <= ce_charge e) l -> live_charge l <= total l.
Proof. induction 1 as [|e l He _ IH]; [done|]. cbn [live_charge total]. destruct (live _ _); lia. Qed.

Lemma live_charge_total l : NoDup (ids l) -> live_charge l = total l.
Proof.
  intros Hn. rewrite live_charge_alive. rewrite <-(app_nil_r l) at 1. rewrite alive_app, app_nil_r by done.
  by rewrite filter_all by (intros; apply not_elem_of_nil).
Qed.

Lemma live_charge_right held cached : Forall (fun e => 0 <= ce_charge e) held -> live_charge cached <= live_charge (held ++ cached).
Proof. induction 1 as [|e held He _ IH]; [done|]. cbn [app live_charge]. destruct (live _ _); lia. Qed.

Lemma total_perm l l' : l ≡ₚ l' -> total l = total l'.
Proof. induction 1; cbn [total]; lia. Qed.

Lemma total_bounds l : Forall (fun e => 1 <= ce_charge e < 2 ^ 32) l -> zlen l <= total l <= zlen l * 2 ^ 32.
Proof. induction 1 as [|e l He _ IH]; [done|]. cbn [total length]. lia. Qed.

Lemma evict_sub capacity held cached : forall d cached' d', spec_evict capacity cached held d = (cached', d') -> forall e, e ∈ cached' -> e ∈ cached.
Proof.
  induction cached as [|o cached IH]; intros d cached' d' E e He; cbn [spec_evict] in E; [by injection E as <- _|].
  destruct (_ <? _); [right; by eapply IH|by injection E as <- _].
Qed.
End totals.

Section handles.
Context {V : Type} (le : bool) (capacity : Z) (Hcap : 0 <= capacity < 2 ^ 30).
Implicit Types (c : LRUCache V) (s : ShardedLRUCache V) (k : list Z) (v : V) (a : acache V) (l : list nat) (i : nat) (hs : list (Z * nat)).
Notation hf := (hash_of le).
Notation rep := (rep hf capacity).
Notation shard_of := (shard_of le).

Definition entry_at i (e : entry V) : Prop := 1 <= ce_charge e < 2 ^ 32 /\ shard_of (ce_key e) = i.

(** Shard [i], where the handles [l] are out. *)
Record shard_out i l a : Prop := {
  so_held : ids (a_held a) ≡ₚ l;
  so_entries : Forall (entry_at i) (a_cached a ++ a_held a);
  so_cached : total (a_cached a) <= capacity;
  so_few : zlen l <= 2 ^ 20;
}.

Lemma so_charges i l a : shard_out i l a -> Forall (fun e => 1 <= ce_charge e < 2 ^ 32) (a_cached a ++ a_held a).
Proof. intros H. eapply Forall_impl; [apply H|]. by intros e [? _]. Qed.

Lemma shard_out_fits i l a : shard_out i l a -> fits a /\ live_charge (a_cached a ++ a_held a) + 2 ^ 32 < 2 ^ 64.
Proof using Hcap.
  intros H. pose proof (so_charges _ _ _ H) as Hc. assert (zlen (a_held a) = zlen l) as Hl by (rewrite <-(so_held _ _ _ H); unfold ids; by rewrite length_fmap).
  pose proof (so_few _ _ _ H) as Hf. pose proof (so_cached _ _ _ H) as Ht. apply Forall_app in Hc as [H1 H2].
  pose proof (total_bounds _ H1) as B1. pose proof (total_bounds _ H2) as B2.
  assert (live_charge (a_cached a ++ a_held a) <= total (a_cached a) + total (a_held a)) as Hlive.
  { rewrite <-total_app. apply live_charge_le, Forall_app. split; (eapply Forall_impl; [eassumption|]; cbn; lia). }
  unfold fits. rewrite length_app. split; [split|]; lia.
Qed.

Lemma shard_out_perm i l l' a : l ≡ₚ l' -> shard_out i l a -> shard_out i l' a.
Proof. intros Hp [H1 H2 H3 H4]. split; [by rewrite H1|done|done|by rewrite <-Hp]. Qed.

(** A reference more to an entry that is there. *)
Lemma out_lookup c a i l k : rep c a -> shard_out i l a -> zlen l < 2 ^ 20 ->
  match find_key k (a_cached a) with
  | Some e => e ∈ a_cached a /\ ce_key e = k /\ without k (a_cached a) ++ [e] ≡ₚ a_cached a /\
      shard_out i (ce_id e :: l) (mkACache (without k (a_cached a) ++ [e]) (e :: a_held a) (a_deleted a) (a_next a))
  | None => True
  end.
Proof.
  intros Hr [H1 H2 H3 H4] Hl. pose proof (find_key_spec k (a_cached a)) as Hk. destruct (find_key k (a_cached a)) as [e|]; [|done]. destruct Hk as [He Hek].
  assert (without k (a_cached a) ++ [e] ≡ₚ a_cached a) as Hp.
  { rewrite (without_perm _ e (r_distinct _ _ _ _ Hr) He) at 2. rewrite Hek. by rewrite Permutation_app_comm. }
  split_and!; [done..|]. split; cbn [a_cached a_held length] in *; [|rewrite Hp|by rewrite (total_perm _ _ Hp)|lia].
  - unfold ids in *. cbn [fmap list_fmap]. by rewrite H1.
  - rewrite <-Permutation_middle. constructor; [|done]. rewrite Forall_forall in H2. apply H2, elem_of_app. by left.
Qed.

(** What is cached fits. *)
Lemma cached_charge c a : rep c a -> total (a_cached a) <= live_charge (a_cached a ++ a_held a).
Proof.
  intros Hr. rewrite <-live_charge_total by apply (r_distinct _ _ _ _ Hr).
  rewrite (live_charge_perm (a_cached a ++ a_held a) (a_held a ++ a_cached a)); [|intros e e'; by eapply heap_same, Hr|apply Permutation_app_comm].
  apply live_charge_right. pose proof (r_charge _ _ _ _ Hr) as Hc. by apply Forall_app in Hc as [_ ?].
Qed.

Lemma out_insert c c' a i l k v n (r := spec_Insert capacity k v n a) : rep c a -> rep c' r.2 -> shard_out i l a -> zlen l < 2 ^ 20 -> shard_of k = i -> 1 <= n < 2 ^ 32 ->
  shard_out i (r.1 :: l) r.2 /\ forall e, e ∈ a_cached r.2 -> ce_key e = k /\ ce_value e = v \/ e ∈ a_cached a.
Proof using Hcap.
  intros Hr Hr' [H1 H2 H3 H4] Hl Hi Hn. pose proof (cached_charge _ _ Hr') as Hcc. revert Hcc. subst r. unfold spec_Insert. set (e := mkEntry (a_next a) k v n).
  cbv zeta. destruct (spec_evict _ _ _ _) as [cached d] eqn:Ev. cbn [fst snd a_cached a_held]. intros Hcc.
  assert (forall x, x ∈ cached -> x = e \/ x ∈ a_cached a) as Hsub.
  { intros x Hx. apply (evict_sub _ _ _ _ _ _ Ev), elem_of_app in Hx as [[_ Hx]%list_elem_of_filter|Hx%list_elem_of_singleton]; auto. }
  split; [|intros x [-> |Hx]%Hsub; [by left|by right]]. rewrite Forall_app, !Forall_forall in H2. destruct H2 as [H2 H2']. split; cbn [a_cached a_held length].
  - unfold ids in *. cbn [fmap list_fmap]. by rewrite H1.
  - rewrite Forall_app, Forall_cons, !Forall_forall. split_and!; [|split; done|done]. intros x [-> |Hx]%Hsub; [by split|by apply H2].
  - destruct (spec_evict_bound _ _ _ _ _ _ Ev) as [Hb| ->]; [lia|cbn; lia].
  - lia.
Qed.

Lemma out_release a i h l : shard_out i (h :: l) a -> exists a', spec_Release h a = Some a' /\ shard_out i l a' /\ a_cached a' = a_cached a.
Proof.
  intros [H1 H2 H3 H4]. assert (h ∈ ids (a_held a)) as (e & -> & He)%list_elem_of_fmap by (rewrite H1; by left).
  destruct (list_find_elem_of (fun x => ce_id x = ce_id e) (a_held a) e) as [[j x] Ej]; [done..|]. unfold spec_Release. rewrite Ej.
  cbn [mbind option_bind]. eexists. split; [done|]. split; [|done]. apply list_find_Some in Ej as (Ej & Ex & _). pose proof (delete_Permutation _ _ _ Ej) as Hp.
  split; cbn [a_cached a_held length] in *; [|by rewrite Hp in H2; rewrite <-Permutation_middle in H2; apply Forall_cons in H2 as [_ ?]|done|lia].
  apply (Permutation_cons_inv (a := ce_id e)). etrans; [|exact H1]. symmetry. rewrite <-Ex. exact (ids_perm _ _ Hp).
Qed.

(** *** All shards *)
Definition handles_at i hs : list nat := snd <$> filter (fun h => Z.to_nat h.1 = i) hs.

Record caches_out s hs : Prop := {
  co_shards : zlen (shard_ s) = kNumShards;
  co_few : zlen hs <= 2 ^ 20;
  co_in : Forall (fun h => Z.to_nat h.1 < 16)%nat hs;
  co_at i c : shard_ s !! i = Some c -> exists a, rep c a /\ shard_out i (handles_at i hs) a;
}.

(** What a lookup can find. *)
Definition shard_has c k v : Prop := exists h e, h ∈ lru_ c /\ heap c !! h = Some e /\ lh_key e = k /\ lh_value e = v.
Definition lru_has s k v : Prop := exists c, c ∈ shard_ s /\ shard_has c k v.

Lemma shard_has_entry c a k v : rep c a -> shard_has c k v <-> exists e, e ∈ a_cached a /\ ce_key e = k /\ ce_value e = v.
Proof.
  intros Hr. assert (forall e, e ∈ a_cached a -> heap c !! ce_id e = Some (handle_of hf e (count (a_cached a ++ a_held a) (ce_id e)))) as Hin.
  { intros e He. by apply (hr_in _ _ _ (r_heap _ _ _ _ Hr)), in_cached. }
  unfold shard_has. rewrite (r_lru _ _ _ _ Hr). split.
  - intros (h & x & (e & -> & He)%list_elem_of_fmap & Hx & <- & <-). rewrite (Hin e He) in Hx. injection Hx as <-. by exists e.
  - intros (e & He & <- & <-). exists (ce_id e). eexists. split; [by apply list_elem_of_fmap_2|]. by rewrite (Hin e He).
Qed.

Lemma lru_has_at s i c k v : shard_ s !! i = Some c -> shard_has c k v -> lru_has s k v.
Proof. intros Hc H. exists c. split; [by eapply list_elem_of_lookup_2|done]. Qed.

Lemma lru_has_update s i c c' n k v : shard_ s !! i = Some c -> lru_has (mkSharded (<[i := c']> (shard_ s)) n) k v -> shard_has c' k v \/ lru_has s k v.
Proof.
  intros Hc (x & [j Hj]%list_elem_of_lookup & Hx). cbn [shard_] in Hj. destruct (decide (j = i)) as [-> |Hne].
  - rewrite list_lookup_insert_eq in Hj by (by eapply lookup_lt_Some). injection Hj as <-. by left.
  - rewrite list_lookup_insert_ne in Hj by done. right. by eapply lru_has_at.
Qed.

Lemma caches_out_perm s hs hs' : hs ≡ₚ hs' -> caches_out s hs -> caches_out s hs'.
Proof.
  intros Hp [H1 H2 H3 H4]. split; [done|by rewrite <-Hp|by rewrite <-Hp|]. intros i c Hc. destruct (H4 i c Hc) as (a & Hr & Ho). exists a. split; [done|].
  eapply shard_out_perm; [|exact Ho]. unfold handles_at. by rewrite Hp.
Qed.

Lemma handles_at_eq i h hs : Z.to_nat h.1 = i -> handles_at i (h :: hs) = h.2 :: handles_at i hs.
Proof. intros E. unfold handles_at. by rewrite filter_cons_True. Qed.

Lemma handles_at_ne i h hs : Z.to_nat h.1 <> i -> handles_at i (h :: hs) = handles_at i hs.
Proof. intros E. unfold handles_at. by rewrite filter_cons_False. Qed.

Lemma handles_at_few i hs : zlen (handles_at i hs) <= zlen hs.
Proof. unfold handles_at. rewrite length_fmap. pose proof (length_filter (fun h : Z * nat => Z.to_nat h.1 = i) hs). lia. Qed.

Lemma caches_out_update s hs hs' i c c' a' n : caches_out s hs -> shard_ s !! i = Some c -> rep c' a' -> shard_out i (handles_at i hs') a' ->
  (forall j, j <> i -> handles_at j hs' = handles_at j hs) -> zlen hs' <= 2 ^ 20 -> Forall (fun h => Z.to_nat h.1 < 16)%nat hs' ->
  caches_out (mkSharded (<[i := c']> (shard_ s)) n) hs'.
Proof.
  intros [H1 H2 H3 H4] Hc Hr Ho Hne Hf Hin. split; cbn [shard_]; [by rewrite length_insert|done|done|]. intros j x Hx. destruct (decide (j = i)) as [-> |Hj].
  - rewrite list_lookup_insert_eq in Hx by (by eapply lookup_lt_Some). injection Hx as <-. by exists a'.
  - rewrite list_lookup_insert_ne in Hx by done. rewrite Hne by done. by apply H4.
Qed.

Lemma shard_at s hs k : caches_out s hs -> exists c a, shard_ s !! shard_of k = Some c /\ rep c a /\ shard_out (shard_of k) (handles_at (shard_of k) hs) a.
Proof. intros H. destruct (shard_here le s k (co_shards _ _ H)) as [c Hc]. destruct (co_at _ _ H _ _ Hc) as (a & ? & ?). eauto. Qed.

Lemma Cache_Lookup_out s hs k : caches_out s hs -> zlen hs < 2 ^ 20 -> exists r s', Cache_Lookup le k s = Some (r, s') /\ last_id_ s' = last_id_ s /\
  (forall k' v, lru_has s' k' v -> lru_has s k' v) /\
  match r with
  | Some h => caches_out s' ((Shard (hf k), h) :: hs) /\ exists v, Cache_Value (Shard (hf k)) h s' = Some v /\ lru_has s k v
  | None => caches_out s' hs
  end.
Proof using Hcap.
  intros H Hf. destruct (shard_at s hs k H) as (c & a & Hc & Hr & Ho). destruct (shard_out_fits _ _ _ Ho) as [Hfit _].
  destruct (LRU_Lookup_spec hf (hf_fits le) capacity c a k Hr Hfit) as (c' & E & Hr').
  unfold Cache_Lookup. rewrite (proj1 (HashSlice_spec le k)). cbn [mbind option_bind]. unfold on_shard. fold (shard_of k). rewrite Hc. cbn [mbind option_bind].
  rewrite E. cbn [mbind option_bind]. eexists _, _. split; [done|]. split; [done|]. pose proof (handles_at_few (shard_of k) hs) as Hfew.
  pose proof (out_lookup c a _ _ k Hr Ho ltac:(lia)) as Hl. unfold spec_Lookup in *. destruct (find_key k (a_cached a)) as [e|]; cbn [fst snd] in *.
  - destruct Hl as (He & Hk & Hp & Ho'). split.
    + intros k' v [Hh|Hh]%(lru_has_update _ _ _ _ _ _ _ Hc); [|done]. eapply lru_has_at; [exact Hc|]. rewrite (shard_has_entry _ _ _ _ Hr') in Hh.
      rewrite (shard_has_entry _ _ _ _ Hr). destruct Hh as (x & Hx & ?). exists x. cbn [a_cached] in Hx. by rewrite Hp in Hx.
    + split.
      * eapply caches_out_update; [done|done|exact Hr'|by rewrite handles_at_eq|intros j Hj; by rewrite handles_at_ne|cbn [length]; lia|].
        constructor; [apply (shard_of_lt le k)|apply H].
      * exists (ce_value e). unfold Cache_Value. fold (shard_of k). cbn [shard_]. rewrite list_lookup_insert_eq by (by eapply lookup_lt_Some). cbn [mbind option_bind].
        rewrite (hr_in _ _ _ (r_heap _ _ _ _ Hr') e) by (apply elem_of_app; right; by left). split; [done|].
        eapply lru_has_at; [exact Hc|]. apply (shard_has_entry _ _ _ _ Hr). by exists e.
  - split; [|eapply caches_out_update; [done|done|exact Hr'|done..|lia|apply H]].
    intros k' v [Hh|Hh]%(lru_has_update _ _ _ _ _ _ _ Hc); [|done]. eapply lru_has_at; [exact Hc|]. rewrite (shard_has_entry _ _ _ _ Hr') in Hh. by apply (shard_has_entry _ _ _ _ Hr).
Qed.

Lemma Cache_Insert_out s hs k v n : caches_out s hs -> zlen hs < 2 ^ 20 -> 1 <= n < 2 ^ 32 -> exists h s', Cache_Insert le k v n s = Some (h, s') /\ last_id_ s' = last_id_ s /\
  caches_out s' ((Shard (hf k), h) :: hs) /\ forall k' v', lru_has s' k' v' -> k' = k /\ v' = v \/ lru_has s k' v'.
Proof using Hcap.
  intros H Hf Hn. destruct (shard_at s hs k H) as (c & a & Hc & Hr & Ho). destruct (shard_out_fits _ _ _ Ho) as [Hfit Hlive].
  destruct (LRU_Insert_spec hf (hf_fits le) capacity c a k v n Hr Hfit ltac:(lia) ltac:(lia)) as (c' & E & Hr').
  unfold Cache_Insert. rewrite (proj1 (HashSlice_spec le k)). cbn [mbind option_bind]. unfold on_shard. fold (shard_of k). rewrite Hc. cbn [mbind option_bind].
  rewrite E. cbn [mbind option_bind]. eexists _, _. split; [done|]. split; [done|]. pose proof (handles_at_few (shard_of k) hs) as Hfew.
  destruct (out_insert c c' a _ _ k v n Hr Hr' Ho ltac:(lia) eq_refl Hn) as [Ho' Hsub]. split.
  - eapply caches_out_update; [done|done|exact Hr'|by rewrite handles_at_eq|intros j Hj; by rewrite handles_at_ne|cbn [length]; lia|].
    constructor; [apply (shard_of_lt le k)|apply H].
  - intros k' v' [Hh|Hh]%(lru_has_update _ _ _ _ _ _ _ Hc); [|by right]. rewrite (shard_has_entry _ _ _ _ Hr') in Hh. destruct Hh as (x & [[<- <-]|Hx]%Hsub & <- & <-); [by left|].
    right. eapply lru_has_at; [exact Hc|]. apply (shard_has_entry _ _ _ _ Hr). by exists x.
Qed.

Lemma Cache_Release_out s h hs : caches_out s (h :: hs) -> exists s', Cache_Release h.1 h.2 s = Some s' /\ last_id_ s' = last_id_ s /\
  caches_out s' hs /\ forall k v, lru_has s' k v -> lru_has s k v.
Proof using Hcap.
  intros H. pose proof H as [H1 H2 H3 H4]. apply Forall_cons in H3 as [Hi Hin]. cbn [length] in H2. set (i := Z.to_nat h.1) in *.
  destruct (lookup_lt_is_Some_2 (shard_ s) i) as [c Hc]; [change kNumShards with 16 in H1; lia|]. destruct (H4 i c Hc) as (a & Hr & Ho).
  destruct (shard_out_fits _ _ _ Ho) as [Hfit _]. rewrite handles_at_eq in Ho by done. destruct (out_release a i h.2 _ Ho) as (a' & Ea & Ho' & Ec).
  destruct (LRU_Release_spec hf capacity c a h.2 a' Hr Hfit Ea) as (c' & E & Hr').
  assert (h.2 ∈ ids (a_held a)) as (e & Eh & He)%list_elem_of_fmap by (rewrite (so_held _ _ _ Ho); by left).
  assert (e ∈ a_cached a ++ a_held a) as Hall by (apply elem_of_app; by right). pose proof (so_entries _ _ _ Ho) as Hen. rewrite Forall_forall in Hen.
  destruct (Hen e Hall) as [_ Hsh]. unfold Cache_Release. fold i. rewrite Hc. cbn [mbind option_bind].
  rewrite Eh, (hr_in _ _ _ (r_heap _ _ _ _ Hr) e Hall), <-Eh. cbn [mbind option_bind handle_of hash]. unfold on_shard. fold (shard_of (ce_key e)). rewrite Hsh, Hc.
  cbn [mbind option_bind]. rewrite E. cbn [mbind option_bind]. eexists. split; [done|]. split; [done|]. split.
  - eapply caches_out_update; [exact H|done|exact Hr'|done|intros j Hj; by rewrite handles_at_ne|lia|done].
  - intros k v [Hh|Hh]%(lru_has_update _ _ _ _ _ _ _ Hc); [|done]. eapply lru_has_at; [exact Hc|]. rewrite (shard_has_entry _ _ _ _ Hr'), Ec in Hh. by apply (shard_has_entry _ _ _ _ Hr).
Qed.
End handles.

(** The only reference to an entry is the one of the cache. *)
Definition all_released {V} (s : ShardedLRUCache V) : Prop :=
  forall c h e, c ∈ shard_ s -> heap c !! h = Some e -> h ∈ lru_ c /\ refs e = 1.

Lemma caches_released {V} le capacity (s : ShardedLRUCache V) : caches_out le capacity s [] -> all_released s.
Proof.
  intros H c h x [i Hi]%list_elem_of_lookup Hx. destruct (co_at _ _ _ _ H i c Hi) as (a & Hr & Ho). pose proof (so_held _ _ _ _ _ Ho) as Hh.
  symmetry in Hh. apply Permutation_nil in Hh. unfold ids in Hh. apply fmap_nil_inv in Hh. pose proof (r_heap _ _ _ _ Hr) as [H1 H2]. rewrite Hh, app_nil_r in H1, H2.
  assert (h ∈ ids (a_cached a)) as Hin by (destruct (decide (h ∈ ids (a_cached a))); [done|]; by rewrite H2 in Hx). split; [by rewrite (r_lru _ _ _ _ Hr)|].
  apply list_elem_of_fmap in Hin as (e & -> & He). rewrite (H1 e He) in Hx. injection Hx as <-. cbn. by rewrite (count_distinct _ e (r_distinct _ _ _ _ Hr) He).
Qed.

(** A new cache: nothing in it, no handle out. *)
Lemma NewLRUCache_out {V} le entries : 0 <= entries < 2 ^ 34 - 15 ->
  exists s : ShardedLRUCache V, NewLRUCache entries = Some s /\ last_id_ s = 0 /\ caches_out le ((entries + 15) / 16) s [] /\ forall k v, ~ lru_has s k v.
Proof.
  intros He. unfold NewLRUCache. change (kNumShards - 1) with 15. change kNumShards with 16. rewrite wrap_fits by (unfold fits_unsigned; lia).
  destruct (new_LRUCache_spec (V := V) (hash_of le) (hf_fits le) ((entries + 15) / 16)) as (c & -> & Hr). cbn [mbind option_bind].
  eexists. split; [done|]. split; [done|]. split.
  - split; cbn [shard_]; [done|done|constructor|]. intros i c0 [-> _]%lookup_replicate. exists (mkACache [] [] [] O). split; [done|].
    split; [done|constructor|cbn; apply Z.div_pos; lia|done].
  - intros k v (x & [i [-> _]%lookup_replicate]%list_elem_of_lookup & (e & He' & _)%(shard_has_entry le _ _ _ _ _ Hr)). by apply elem_of_nil in He'.
Qed.
