(* ===== verification/CacheTables.v ===== *)
(** Tables that share the LRU cache: the cache of [Cache] keeps the contract of
    [TableRead], and tables opened on it stay apart by the identifiers that
    [NewId] hands out. *)
From S2P Require Import Prelude Coding Dbformat LdbBase Crc32c Iterator Block Filter Format TwoLevel Table TableRead Cache CacheShards.

(** ** The LRU cache as a block cache
    A handle is the shard and the entry in it. *)
Section instance.
Context (le : bool).
Implicit Types (s : ShardedLRUCache Block) (h : Z * nat).

Definition lru_lookup (key : list Z) s : option (option (Z * nat) * ShardedLRUCache Block) :=
  hash ← HashSlice le key;
  '(h, s) ← Cache_Lookup le key s;
  Some (match h with Some h => Some (Shard hash, h) | None => None end, s).
Definition lru_insert (key : list Z) (b : Block) (n : Z) s : option (Z * nat * ShardedLRUCache Block) :=
  hash ← HashSlice le key;
  '(h, s) ← Cache_Insert le key b n s;
  Some (Shard hash, h, s).

#[refine] Definition lru_block_cache : BlockCache (ShardedLRUCache Block) := {|
  cache_handle := Z * nat;
  cache_NewId := Cache_NewId;
  cache_Lookup := lru_lookup;
  cache_Value h := Cache_Value h.1 h.2;
  cache_Insert := lru_insert;
  cache_Release h := Cache_Release h.1 h.2;
  cached := lru_has;
  next_id s := last_id_ s + 1;
  cache_out s hs := exists capacity, 0 <= capacity < 2 ^ 30 /\ caches_out le capacity s hs;
|}.
Proof.
  - intros s hs hs' Hp (cap & Hcap & H). exists cap. split; [done|]. by eapply caches_out_perm.
  - intros s Hn. unfold Cache_NewId. cbn [fst snd last_id_]. rewrite wrap_fits by (split; lia). done.
  - intros s hs (cap & Hcap & [H1 H2 H3 H4]). exists cap. split; [done|]. by split.
  - by intros s key b.
  - intros key s hs (cap & Hcap & H) Hf. unfold lru_lookup. rewrite (proj1 (HashSlice_spec le key)). cbn [mbind option_bind].
    destruct (Cache_Lookup_out le cap Hcap s hs key H Hf) as (r & s' & -> & Hid & Hless & Hr). cbn [mbind option_bind].
    eexists _, _. split; [done|]. split; [by rewrite Hid|]. split; [done|]. destruct r as [h|]; [|by exists cap].
    destruct Hr as [Ho Hv]. split; [by exists cap|done].
  - intros key b n s hs (cap & Hcap & H) Hf Hn. unfold lru_insert. rewrite (proj1 (HashSlice_spec le key)). cbn [mbind option_bind].
    destruct (Cache_Insert_out le cap Hcap s hs key b n H Hf Hn) as (h & s' & -> & Hid & Ho & Hins). cbn [mbind option_bind].
    eexists _, _. split; [done|]. split; [by rewrite Hid|]. split; [by exists cap|done].
  - intros h s hs (cap & Hcap & H). destruct (Cache_Release_out le cap Hcap s h hs H) as (s' & E & Hid & Ho & Hless).
    exists s'. split; [done|]. split; [by rewrite Hid|]. split; [by exists cap|done].
Defined.
End instance.

(** ** Tables on a shared cache *)
Record layout := mkLayout { tl_groups : list (list (list Z * list Z)); tl_index : list (list Z * list Z); tl_filter : option (list Z) }.
Definition tl_entries (L : layout) : list (list Z * list Z) := concat (tl_groups L).

Section reads.
Context (le lw : bool) (ptr : list Z -> Z) (snappy : Snappy).
Context {C : Comparator} {S : Separators C} (policy : option FilterPolicy) (opts : Options) (uninit : Z).
Context {F : Type} `{!RandomAccessFile F} {K : Type} `{!BlockCache K}.
Context (Hptr : addresses ptr) (Hsnappy : Snappy_inverse snappy).
Context (Hcomp : o_compression opts = kNoCompression \/ o_compression opts = kSnappyCompression).
Context (Hint : 1 <= o_block_restart_interval opts).
Context (same_match : forall P x y f, policy = Some P -> same x y -> FP_KeyMayMatch x f = FP_KeyMayMatch y f).
Implicit Types (L : layout) (c : K) (t : Table F).

Definition tl_bytes L : list Z := table_bytes lw snappy policy opts (tl_groups L) (tl_index L) (tl_filter L).
Definition layout_ok L : Prop := table_ok lw snappy policy opts (tl_groups L) (tl_index L) (tl_filter L) /\ zlen (tl_bytes L) < 2 ^ 41.

(** The file holds a table of this layout. *)
Definition file_holds (f : F * Z) L : Prop := layout_ok L /\ serves f.1 (tl_bytes L) /\ f.2 = zlen (tl_bytes L).

(** The table is open on such a file, and the cache has its blocks only. *)
Definition table_reads L c t : Prop :=
  layout_ok L /\ serves (t_file t) (tl_bytes L) /\ open_on le lw uninit (tl_index L) (t_file t) t /\ filter_of le policy (tl_filter L) t /\
  cache_ok le lw snappy opts uninit (tl_groups L) (t_cache_id t) (Some c) /\ 0 < t_cache_id t < next_id c.

(** Every key of the cache has an identifier that was handed out. *)
Definition ids_below c : Prop := forall key b, cached c key b -> exists id o, key = cache_key le id o /\ 0 < id < next_id c.

Lemma cache_key_id id o id' o' : cache_key le id o = cache_key le id' o' -> 0 <= id < 2 ^ 64 -> 0 <= id' < 2 ^ 64 -> id = id'.
Proof.
  unfold cache_key. rewrite !EncodeFixed64_eq. intros [E _]%app_inj_1 H1 H2; [|by rewrite !length_le_enc].
  apply (f_equal le_dec) in E. rewrite !le_dec_enc in E. by rewrite !Z.mod_small in E by (simpl; lia).
Qed.

Lemma open_reads L c hs file size : file_holds (file, size) L -> ids_below c -> cache_out c hs -> 0 < next_id c < 2 ^ 64 ->
  exists t c', Open le ptr snappy policy (o_paranoid_checks opts) uninit file size (Some c) = Some (kOk, Some t, Some c') /\
    table_reads L c' t /\ ids_below c' /\ cache_out c' hs /\ t_cache_id t = next_id c /\ next_id c' = next_id c + 1 /\
    forall L' u, table_reads L' c u -> table_reads L' c' u.
Proof using Hptr Hsnappy Hcomp Hint.
  intros ([Hok Hz] & Hs & Hsz) Hids Hco Hn. cbn [fst snd] in *. subst size. destruct (cache_NewId_next c Hn) as [Hid Hnx].
  assert (fresh_id le (Some c)) as Hfresh.
  { intros o b Ho Hin. apply Hids in Hin as (id & o' & E & Hlt). rewrite Hid in E. apply cache_key_id in E; lia. }
  destruct (Open_spec le lw ptr snappy policy opts uninit Hptr Hsnappy Hcomp Hint _ _ _ file Hok Hs Hz (o_paranoid_checks opts) (Some c) Hfresh)
    as (t & cache' & E & Ho & Hfo & Hcok & _ & -> & Ht). rewrite Hid in Ht. exists t, (cache_NewId c).2.
  assert (t_file t = file) as Hfile by apply Ho. split; [done|]. unfold table_reads. rewrite Hfile, Hnx. split_and!; try done; try lia.
  - intros key b Hin%cache_NewId_spec. destruct (Hids key b Hin) as (id & o & -> & Hlt). exists id, o. split; [done|lia].
  - by apply cache_NewId_out.
  - intros L' u (A1 & A2 & A3 & A4 & A5 & A6). split_and!; try done; try lia. intros o b Hfo' Hin. apply A5; [done|by apply cache_NewId_spec].
Qed.

Lemma get_reads L c hs t options k : table_reads L c t -> ids_below c -> cache_out c hs -> zlen hs + 2 <= 2 ^ 20 -> next_id c <= 2 ^ 64 -> is_key k -> fkey policy k ->
  exists saved c', InternalGet le ptr snappy policy uninit t options (Some c) k = Some (kOk, saved, Some c') /\
    answers (tl_entries L) k saved /\ ids_below c' /\ cache_out c' hs /\ next_id c' = next_id c /\
    forall L' u, table_reads L' c u -> (t_cache_id u = t_cache_id t -> L' = L) -> table_reads L' c' u.
Proof using Hptr Hsnappy Hcomp Hint same_match.
  intros ([A1 A2] & A3 & A4 & A5 & A6 & A7) Hids Hco Hout Hn Hk Hfk.
  destruct (InternalGet_spec le lw ptr snappy policy opts uninit Hptr Hsnappy Hcomp Hint _ _ _ (t_file t) A1 A3 A2 same_match hs t options (Some c) k Hout A4 A5 A6 Hco Hk Hfk)
    as (saved & cache' & E & Hans & Hcok & Hco' & Hadds). destruct cache' as [c'|]; [|done]. destruct Hadds as [Hnx Hadds].
  exists saved, c'. split; [done|]. split; [done|]. split; [|split; [done|]; split; [done|]].
  - intros key b [Hin|[o ->]]%Hadds; rewrite Hnx; [by apply Hids in Hin|]. by exists (t_cache_id t), o.
  - intros L' u (B1 & B2 & B3 & B4 & B5 & B6) Hsame. unfold table_reads. rewrite Hnx.
    destruct (decide (t_cache_id u = t_cache_id t)) as [Eid|Hne]; [rewrite (Hsame Eid) in *; rewrite Eid in *; by split_and!; try lia|].
    split_and!; try done; try lia. intros o b Ho [Hin|[o' E']]%Hadds; [by apply B5|]. apply cache_key_id in E'; lia.
Qed.

(** An iterator over the table starts without an error, at the end; destroying it
    gives back what it holds. *)
Lemma iter_reads L c hs t options : table_reads L c t -> cache_out c hs -> zlen hs + 2 <= 2 ^ 20 ->
  exists it, Table_NewIterator le t (Some c) = Some it /\
    it_status (Iterator := Table_Iterator le ptr snappy uninit t options) it = kOk /\ delete_TwoLevelIterator ReleaseBlock it = Some (Some c).
Proof using Hptr Hsnappy Hcomp Hint.
  intros ([A1 A2] & A3 & A4 & A5 & A6 & A7) Hco Hout.
  pose proof (table_two_level le lw ptr snappy policy opts uninit Hptr Hsnappy Hcomp Hint _ _ _ (t_file t) A1 A3 A2 hs (Some c) t options Hout A4) as H2.
  destruct (index_iterator le lw snappy policy opts uninit Hsnappy Hcomp Hint _ _ _ (t_file t) A1 t A4) as (iit & Ei & Hi).
  pose proof (reads_start le lw snappy opts uninit (tl_groups L) hs _ _ A6 Hco) as Hr.
  destruct (NewTwoLevelIterator_spec _ _ _ _ _ _ _ _ H2 iit (Some c) Hi Hr) as (tl & Etl & Hat).
  exists tl. split; [unfold Table_NewIterator; by rewrite Ei|]. split; [exact (cur_ok _ _ (two_level_is_cursor _ _ _ _ _ _ _ _ H2) _ _ Hat)|].
  unfold NewTwoLevelIterator in Etl. destruct (new_IteratorWrapper (Some iit)); [|done]. cbn [new_IteratorWrapper Set_ mbind option_bind] in Etl. by injection Etl as <-.
Qed.

(** A table that was built. *)
Lemma built_holds es r (file : F) : entries_ok policy es -> build_table lw ptr snappy policy opts es = Some (kOk, r) -> serves file (tb_file r) ->
  exists L, file_holds (file, tb_offset r) L /\ tl_entries L = es /\ tl_bytes L = tb_file r.
Proof using Hptr Hsnappy Hcomp Hint.
  intros He Eb Hs. destruct (table_built lw ptr snappy policy opts es) as (r' & gs & idx & fc & Eb' & Hf & Hz & _ & Ec & Hok & Hlen); [done..|].
  rewrite Eb in Eb'. injection Eb' as <-. exists (mkLayout gs idx fc). unfold file_holds, layout_ok, tl_bytes. cbn [tl_groups tl_index tl_filter fst snd].
  rewrite Hz. rewrite <-Hf. by split_and!.
Qed.
End reads.

(** ** Tables opened and read in any order *)
Inductive table_op := TOpen (i : nat) | TGet (i : nat) (options : ReadOptions) (k : list Z).

Section shared.
Context (le lw : bool) (ptr : list Z -> Z) (snappy : Snappy).
Context {C : Comparator} {S : Separators C} (policy : option FilterPolicy) (opts : Options) (uninit : Z).
Context {F : Type} `{!RandomAccessFile F} {K : Type} `{!BlockCache K} (files : list (F * Z)).

(** The open tables by the number of their file, and the cache. *)
Definition tables : Type := gmap nat (Table F) * option K.

Definition table_step (st : tables) (o : table_op) : option (option (Code * option (list Z * list Z)) * tables) :=
  match o with
  | TOpen i =>
      '(file, size) ← files !! i;
      '(s, t, cache) ← Open le ptr snappy policy (o_paranoid_checks opts) uninit file size st.2;
      t ← t;
      Some (None, (<[i := t]> st.1, cache))
  | TGet i options k =>
      t ← st.1 !! i;
      '(s, saved, cache) ← InternalGet le ptr snappy policy uninit t options st.2 k;
      Some (Some (s, saved), (st.1, cache))
  end.

Context (Hptr : addresses ptr) (Hsnappy : Snappy_inverse snappy).
Context (Hcomp : o_compression opts = kNoCompression \/ o_compression opts = kSnappyCompression).
Context (Hint : 1 <= o_block_restart_interval opts).
Context (same_match : forall P x y f, policy = Some P -> same x y -> FP_KeyMayMatch x f = FP_KeyMayMatch y f).
Context (Ls : list layout) (Hfiles : Forall2 (file_holds lw snappy policy opts) files Ls).

Record shared_inv (ts : gmap nat (Table F)) (c : K) : Prop := {
  si_reads i t : ts !! i = Some t -> exists L, Ls !! i = Some L /\ table_reads le lw snappy policy opts uninit L c t;
  si_ids i j t u : ts !! i = Some t -> ts !! j = Some u -> t_cache_id t = t_cache_id u -> i = j;
  si_keys : ids_below le c;
  si_out : cache_out c [];
}.

Lemma shared_open ts c i : shared_inv ts c -> 0 < next_id c < 2 ^ 64 -> (i < length files)%nat ->
  exists t c', table_step (ts, Some c) (TOpen i) = Some (None, (<[i := t]> ts, Some c')) /\ shared_inv (<[i := t]> ts) c' /\ next_id c' = next_id c + 1.
Proof using Hptr Hsnappy Hcomp Hint Hfiles.
  intros [I1 I2 I3 I4] Hn Hi. destruct (lookup_lt_is_Some_2 _ _ Hi) as [[file size] Hf].
  destruct (Forall2_lookup_l _ _ _ _ _ Hfiles Hf) as (L & HL & Hh).
  edestruct (open_reads le lw ptr snappy policy opts uninit) as (t & c' & E & Hr & Hids & Hco & Hid & Hnx & Hkeep); [done..|].
  cbn [table_step snd fst]. rewrite Hf. cbn [mbind option_bind]. rewrite E. cbn [mbind option_bind].
  exists t, c'. split; [done|]. split; [|done].
  assert (forall j u, ts !! j = Some u -> t_cache_id u <> t_cache_id t) as Hnew.
  { intros j u Hu. destruct (I1 j u Hu) as (L' & _ & _ & _ & _ & _ & _ & Hlt). lia. }
  constructor; [| |done|done].
  - intros j u [[<- <-]|[Hne Hj]]%lookup_insert_Some; [by exists L|]. destruct (I1 j u Hj) as (L' & ? & ?). eauto.
  - intros j j' u u' [[<- <-]|[Hne Hj]]%lookup_insert_Some [[<- <-]|[Hne' Hj']]%lookup_insert_Some Eid; [done| | |by eapply I2].
    + symmetry in Eid. by destruct (Hnew _ _ Hj').
    + by destruct (Hnew _ _ Hj).
Qed.

Lemma shared_get ts c i t options k : shared_inv ts c -> next_id c <= 2 ^ 64 -> ts !! i = Some t -> is_key k -> fkey policy k ->
  exists L saved c', table_step (ts, Some c) (TGet i options k) = Some (Some (kOk, saved), (ts, Some c')) /\ Ls !! i = Some L /\
    answers (tl_entries L) k saved /\ shared_inv ts c' /\ next_id c' = next_id c.
Proof using Hptr Hsnappy Hcomp Hint same_match.
  intros [I1 I2 I3 I4] Hn Ht Hk Hfk. cbn [table_step fst snd]. rewrite Ht. cbn [mbind option_bind]. destruct (I1 i t Ht) as (L & HL & Hr).
  edestruct (get_reads le lw ptr snappy policy opts uninit) as (saved & c' & E & Hans & Hids & Hco & Hnx & Hkeep); [done..|]. rewrite E. cbn [mbind option_bind].
  exists L, saved, c'. split; [done|]. split; [done|]. split; [done|]. split; [|done]. constructor; [|done|done|done].
  intros j u Hj. destruct (I1 j u Hj) as (L' & HL' & Hr'). exists L'. split; [done|]. apply Hkeep; [done|]. intros Eid.
  assert (j = i) as -> by (by eapply I2). rewrite HL in HL'. by injection HL'.
Qed.
End shared.

(** Only tables that were opened are read. *)
Fixpoint table_ops_ok {F} (policy : option FilterPolicy) {C : Comparator} (files : list F) (opened : gset nat) (os : list table_op) : Prop :=
  match os with
  | [] => True
  | TOpen i :: os => (i < length files)%nat /\ table_ops_ok policy files ({[i]} ∪ opened) os
  | TGet i _ k :: os => i ∈ opened /\ is_key k /\ fkey policy k /\ table_ops_ok policy files opened os
  end.

(** A lookup in table [i] answers from the entries of table [i]. *)
Definition table_result {C : Comparator} {S : Separators C} (ess : list (list (list Z * list Z))) (o : table_op)
  (r : option (Code * option (list Z * list Z))) : Prop :=
  match o with
  | TOpen _ => r = None
  | TGet i _ k => exists es saved, ess !! i = Some es /\ r = Some (kOk, saved) /\ answers es k saved
  end.

Section shared_run.
Context (le lw : bool) (ptr : list Z -> Z) (snappy : Snappy).
Context {C : Comparator} {S : Separators C} (policy : option FilterPolicy) (opts : Options) (uninit : Z).
Context {F : Type} `{!RandomAccessFile F} {K : Type} `{!BlockCache K} (files : list (F * Z)) (Ls : list layout).
Context (Hptr : addresses ptr) (Hsnappy : Snappy_inverse snappy).
Context (Hcomp : o_compression opts = kNoCompression \/ o_compression opts = kSnappyCompression).
Context (Hint : 1 <= o_block_restart_interval opts).
Context (same_match : forall P x y f, policy = Some P -> same x y -> FP_KeyMayMatch x f = FP_KeyMayMatch y f).
Context (Hfiles : Forall2 (file_holds lw snappy policy opts) files Ls).

Lemma shared_ops os : forall ts c opened, shared_inv le lw snappy policy opts uninit Ls ts c -> 0 < next_id c -> next_id c + zlen os <= 2 ^ 64 ->
  (forall i, i ∈ opened -> is_Some (ts !! i)) -> table_ops_ok policy files opened os ->
  exists rs ts' c', run_ops (table_step le ptr snappy policy opts uninit files) (ts, Some c) os = Some (rs, (ts', Some c')) /\ cache_out c' [] /\
    Forall2 (table_result (tl_entries <$> Ls)) os rs.
Proof using Hptr Hsnappy Hcomp Hint same_match Hfiles.
  induction os as [|o os IH]; intros ts c opened Hinv H0 Hn Hop Hok; cbn [run_ops]; [eexists _, _, _; split; [done|]; split; [apply Hinv|done]|]. cbn [length] in Hn.
  destruct o as [i|i options k]; cbn [table_ops_ok] in Hok.
  - destruct Hok as [Hi Hok]. edestruct (shared_open le lw ptr snappy policy opts uninit files) as (t & c' & E & Hinv' & Hnx); [done..|lia|done|].
    rewrite E. cbn [mbind option_bind].
    destruct (IH _ c' ({[i]} ∪ opened) Hinv' ltac:(lia) ltac:(lia)) as (rs & ts' & c2 & -> & Hco & Hrs); [|done|].
    { intros j Hj. destruct (decide (j = i)) as [-> |Hne]; [by rewrite lookup_insert_eq|]. rewrite lookup_insert_ne by done. apply Hop. set_solver. }
    cbn [mbind option_bind]. eexists _, _, _. split; [done|]. split; [done|]. by constructor.
  - destruct Hok as (Hi & Hk & Hfk & Hok). destruct (Hop i Hi) as [t Ht].
    edestruct (shared_get le lw ptr snappy policy opts uninit files) as (L & saved & c' & E & HL & Hans & Hinv' & Hnx); [done..|lia|done|done|done|].
    rewrite E. cbn [mbind option_bind].
    destruct (IH _ c' opened Hinv' ltac:(lia) ltac:(lia) Hop Hok) as (rs & ts' & c2 & -> & Hco & Hrs).
    cbn [mbind option_bind]. eexists _, _, _. split; [done|]. split; [done|]. constructor; [|done]. exists (tl_entries L), saved. by rewrite list_lookup_fmap, HL.
Qed.
End shared_run.

(** ** Properties *)

(** C10 (shared_cache_correct) Tables opened on one LRU cache, of a capacity below
    2^34, and read in any order: no assertion of the cache fails and no handle is
    used after it was freed, every lookup answers from the entries of its own
    table, whatever blocks of the others are cached, evicted or replaced, and
    in the end every handle was released: the only reference to an entry is the
    one of the cache.  The identifiers that the
    cache hands out keep the tables apart. *)
Theorem shared_cache_correct (lw le : bool) ptr snappy {C : Comparator} {S : Separators C} policy opts uninit
  {F : Type} `{!RandomAccessFile F} (files : list (F * Z)) (ess : list (list (list Z * list Z))) capacity os :
  addresses ptr -> Snappy_inverse snappy -> o_compression opts = kNoCompression \/ o_compression opts = kSnappyCompression ->
  1 <= o_block_restart_interval opts ->
  (forall P x y f, policy = Some P -> same x y -> FP_KeyMayMatch x f = FP_KeyMayMatch y f) ->
  Forall2 (fun f es => entries_ok policy es /\ exists r, build_table lw ptr snappy policy opts es = Some (kOk, r) /\
    serves f.1 (tb_file r) /\ f.2 = tb_offset r) files ess ->
  table_ops_ok policy files ∅ os -> zlen os < 2 ^ 63 -> 0 <= capacity < 2 ^ 34 - 15 ->
  exists s rs ts s', NewLRUCache capacity = Some s /\
    run_ops (table_step (BlockCache0 := lru_block_cache le) le ptr snappy policy opts uninit files) (∅, Some s) os = Some (rs, (ts, Some s')) /\
    all_released s' /\
    Forall2 (table_result ess) os rs.
Proof.
  intros Hptr Hsn Hcomp Hint Hsame Hfiles Hos Hn Hcap. destruct (NewLRUCache_out (V := Block) le capacity Hcap) as (s & Es & Hid & Hco & Hempty).
  assert (exists Ls, Forall2 (file_holds lw snappy policy opts) files Ls /\ ess = tl_entries <$> Ls) as (Ls & Hholds & ->).
  { clear Hos. induction Hfiles as [|[file size] es files ess (He & r & Eb & Hs & Hsz) _ (Ls & IH1 & IH2)]; [by exists []|].
    cbn [fst snd] in *. edestruct (built_holds lw ptr snappy policy opts) as (L & HL & HLe & _); [done..|].
    exists (L :: Ls). split; [constructor; [by rewrite Hsz|done]|]. cbn. by rewrite HLe, IH2. }
  edestruct (shared_ops (BlockCache0 := lru_block_cache le) le lw ptr snappy policy opts uninit files Ls Hptr Hsn Hcomp Hint Hsame Hholds os ∅ s ∅)
    as (rs & ts & s' & E & (cap & _ & Hco') & Hrs); [| | | |done|exists s, rs, ts, s'; split_and!; by try eapply caches_released].
  - constructor; [by intros i t ?|by intros i j t u ?| |].
    + intros key b Hin. by destruct (Hempty key b).
    + exists ((capacity + 15) / 16). split; [|done]. split; [apply Z.div_pos; lia|]. apply Z.div_lt_upper_bound; lia.
  - cbn. lia.
  - cbn. lia.
  - set_solver.
Qed.

Lemma shared_cache_correct_witness :
  let es0 := [([97; 97], [1]); ([97; 98], [2]); ([98], [3])] in
  let es1 := [([97; 98], [4]); ([99], [5])] in
  let P := Some example_bloom in
  let build es := build_table true (fun _ => 1) no_snappy (S := Bytewise_Separators) P example_options es in
  let file es := match build es with Some (_, r) => (tb_file r, tb_offset r) | None => ([], 0) end in
  let os := [TOpen 0; TGet 0 default_ReadOptions [97; 98]; TGet 0 default_ReadOptions [97; 98]; TOpen 1; TGet 1 default_ReadOptions [97; 98]; TGet 0 default_ReadOptions [98]] in
  exists s rs ts s', NewLRUCache 1600 = Some s /\
    run_ops (table_step (C := Bytewise_Comparator) (BlockCache0 := lru_block_cache false) false (fun _ => 1) no_snappy P example_options 0 [file es0; file es1])
      (∅, Some s) os = Some (rs, (ts, Some s')) /\
    all_released s' /\
    Forall2 (table_result (S := Bytewise_Separators) [es0; es1]) os rs.
Proof.
  intros es0 es1 P build file os.
  assert (forall es, entries_ok (C := Bytewise_Comparator) P es -> entries_ok (C := Bytewise_Comparator) P es /\
    exists r, build es = Some (kOk, r) /\ serves (file es).1 (tb_file r) /\ (file es).2 = tb_offset r) as Hfile.
  { intros es He. split; [done|]. destruct (table_built true (fun _ => 1) no_snappy (S := Bytewise_Separators) P example_options es) as
      (r & _ & _ & _ & E & _); [done|by intros raw c _ ?|by left|done|done|]. exists r. split; [done|]. subst file build. cbv beta. rewrite E.
    split; [apply serves_itself|done]. }
  apply (shared_cache_correct true false (fun _ => 1) no_snappy (S := Bytewise_Separators) P example_options 0 [file es0; file es1] [es0; es1] 1600 os).
  - done.
  - by intros raw c _ ?.
  - by left.
  - done.
  - intros P' x y f _ ->. done.
  - apply Forall2_cons_2; [|apply Forall2_cons_2; [|constructor]]; apply Hfile;
      (constructor; [split; [repeat constructor|vm_compute; repeat constructor; by eexists]|repeat constructor; done|repeat constructor|by vm_compute]).
  - cbn. split_and!; (done || set_solver || lia).
  - done.
  - done.
Defined.
