(* ===== verification/VersionEdit.v ===== *)
(** Version edits: [src/leveldb/db/version_edit.cc] and [version_edit.h].

    The records of the MANIFEST file.  An [InternalKey] is its octets, of which
    [Encode] asserts that there are some.  The reference count of a file is not
    modelled, and what [number] holds before it is assigned is not known. *)
From S2P Require Import Prelude Coding LdbBase Iterator.

Record FileMetaData := mkFile {
  allowed_seeks : Z;
  number : Z;
  file_size : Z;
  smallest : list Z;
  largest : list Z;
}.

Record VersionEdit := mkEdit {
  comparator_ : list Z;
  log_number_ : Z;
  prev_log_number_ : Z;
  next_file_number_ : Z;
  last_sequence_ : Z;
  has_comparator_ : bool;
  has_log_number_ : bool;
  has_prev_log_number_ : bool;
  has_next_file_number_ : bool;
  has_last_sequence_ : bool;
  compact_pointers_ : list (Z * list Z);
  deleted_files_ : list (Z * Z);
  new_files_ : list (Z * FileMetaData);
}.

(** [dbformat.h] *)
Definition kNumLevels : Z := 7.

Definition kComparator : Z := 1.
Definition kLogNumber : Z := 2.
Definition kNextFileNumber : Z := 3.
Definition kLastSequence : Z := 4.
Definition kCompactPointer : Z := 5.
Definition kDeletedFile : Z := 6.
Definition kNewFile : Z := 7.
Definition kPrevLogNumber : Z := 9.

Definition InternalKey_Encode (rep_ : list Z) : option (list Z) :=
  _ ← passert (negb (bool_decide (rep_ = []))); Some rep_.

Section edit.
Implicit Types (e : VersionEdit) (f : FileMetaData).

(** [Clear] leaves the compaction pointers. *)
Definition Clear e : VersionEdit := mkEdit [] 0 0 0 0 false false false false false (compact_pointers_ e) [] [].
Definition new_VersionEdit : VersionEdit := mkEdit [] 0 0 0 0 false false false false false [] [] [].

Definition SetComparatorName name e : VersionEdit :=
  mkEdit name (log_number_ e) (prev_log_number_ e) (next_file_number_ e) (last_sequence_ e) true (has_log_number_ e)
    (has_prev_log_number_ e) (has_next_file_number_ e) (has_last_sequence_ e) (compact_pointers_ e) (deleted_files_ e) (new_files_ e).
Definition SetLogNumber num e : VersionEdit :=
  mkEdit (comparator_ e) num (prev_log_number_ e) (next_file_number_ e) (last_sequence_ e) (has_comparator_ e) true
    (has_prev_log_number_ e) (has_next_file_number_ e) (has_last_sequence_ e) (compact_pointers_ e) (deleted_files_ e) (new_files_ e).
Definition SetPrevLogNumber num e : VersionEdit :=
  mkEdit (comparator_ e) (log_number_ e) num (next_file_number_ e) (last_sequence_ e) (has_comparator_ e) (has_log_number_ e)
    true (has_next_file_number_ e) (has_last_sequence_ e) (compact_pointers_ e) (deleted_files_ e) (new_files_ e).
Definition SetNextFile num e : VersionEdit :=
  mkEdit (comparator_ e) (log_number_ e) (prev_log_number_ e) num (last_sequence_ e) (has_comparator_ e) (has_log_number_ e)
    (has_prev_log_number_ e) true (has_last_sequence_ e) (compact_pointers_ e) (deleted_files_ e) (new_files_ e).
Definition SetLastSequence seq e : VersionEdit :=
  mkEdit (comparator_ e) (log_number_ e) (prev_log_number_ e) (next_file_number_ e) seq (has_comparator_ e) (has_log_number_ e)
    (has_prev_log_number_ e) (has_next_file_number_ e) true (compact_pointers_ e) (deleted_files_ e) (new_files_ e).
Definition SetCompactPointer (level : Z) (key : list Z) e : VersionEdit :=
  mkEdit (comparator_ e) (log_number_ e) (prev_log_number_ e) (next_file_number_ e) (last_sequence_ e) (has_comparator_ e) (has_log_number_ e)
    (has_prev_log_number_ e) (has_next_file_number_ e) (has_last_sequence_ e) (compact_pointers_ e ++ [(level, key)]) (deleted_files_ e) (new_files_ e).

(** std::set::insert on pairs. *)
Fixpoint insert_pair (p : Z * Z) (s : list (Z * Z)) : list (Z * Z) :=
  match s with
  | [] => [p]
  | q :: s' =>
      if (p.1 <? q.1) || (p.1 =? q.1) && (p.2 <? q.2) then p :: s
      else if bool_decide (p = q) then s else q :: insert_pair p s'
  end.

Definition DeleteFile (level file : Z) e : VersionEdit :=
  mkEdit (comparator_ e) (log_number_ e) (prev_log_number_ e) (next_file_number_ e) (last_sequence_ e) (has_comparator_ e) (has_log_number_ e)
    (has_prev_log_number_ e) (has_next_file_number_ e) (has_last_sequence_ e) (compact_pointers_ e) (insert_pair (level, file) (deleted_files_ e)) (new_files_ e).
Definition push_file (level : Z) f e : VersionEdit :=
  mkEdit (comparator_ e) (log_number_ e) (prev_log_number_ e) (next_file_number_ e) (last_sequence_ e) (has_comparator_ e) (has_log_number_ e)
    (has_prev_log_number_ e) (has_next_file_number_ e) (has_last_sequence_ e) (compact_pointers_ e) (deleted_files_ e) (new_files_ e ++ [(level, f)]).
Definition AddFile (level file size : Z) (smallest largest : list Z) e : VersionEdit :=
  push_file level (mkFile (Z.shiftl 1 30) file size smallest largest) e.

(** ** Writing *)
Fixpoint put_compact_pointers (l : list (Z * list Z)) (dst : list Z) : option (list Z) :=
  match l with
  | [] => Some dst
  | (level, key) :: l =>
      k ← InternalKey_Encode key;
      put_compact_pointers l (PutLengthPrefixedSlice (PutVarint32 (PutVarint32 dst kCompactPointer) level) k)
  end.
Fixpoint put_deleted_files (l : list (Z * Z)) (dst : list Z) : list Z :=
  match l with
  | [] => dst
  | (level, number) :: l => put_deleted_files l (PutVarint64 (PutVarint32 (PutVarint32 dst kDeletedFile) level) number)
  end.
Fixpoint put_new_files (l : list (Z * FileMetaData)) (dst : list Z) : option (list Z) :=
  match l with
  | [] => Some dst
  | (level, f) :: l =>
      let dst := PutVarint64 (PutVarint64 (PutVarint32 (PutVarint32 dst kNewFile) level) (number f)) (file_size f) in
      s ← InternalKey_Encode (smallest f);
      let dst := PutLengthPrefixedSlice dst s in
      b ← InternalKey_Encode (largest f);
      put_new_files l (PutLengthPrefixedSlice dst b)
  end.

Definition EncodeTo e (dst : list Z) : option (list Z) :=
  let dst := if has_comparator_ e then PutLengthPrefixedSlice (PutVarint32 dst kComparator) (comparator_ e) else dst in
  let dst := if has_log_number_ e then PutVarint64 (PutVarint32 dst kLogNumber) (log_number_ e) else dst in
  let dst := if has_prev_log_number_ e then PutVarint64 (PutVarint32 dst kPrevLogNumber) (prev_log_number_ e) else dst in
  let dst := if has_next_file_number_ e then PutVarint64 (PutVarint32 dst kNextFileNumber) (next_file_number_ e) else dst in
  let dst := if has_last_sequence_ e then PutVarint64 (PutVarint32 dst kLastSequence) (last_sequence_ e) else dst in
  dst ← put_compact_pointers (compact_pointers_ e) dst;
  put_new_files (new_files_ e) (put_deleted_files (deleted_files_ e) dst).

(** ** Reading

    The readers take the input and return what is left of it, or [None] for
    [false]. *)
Definition GetInternalKey (input : list Z) : option (option (list Z * list Z)) := GetLengthPrefixedSlice input.

Definition GetLevel (input : list Z) : option (option (Z * list Z)) :=
  r ← GetVarint32 input;
  Some (match r with
        | Some (v, input) => if v <? kNumLevels then Some (v, input) else None
        | None => None
        end).

(** [if (get(&input, ...)) then k(...) else msg = ...]; conditions joined by [&&] nest. *)
Definition field {A B} (get : list Z -> option (option (A * list Z))) (input : list Z)
  (k : A -> list Z -> option (option B)) : option (option B) :=
  r ← get input;
  match r with Some (a, input) => k a input | None => Some None end.

(** One case of the switch: the input left and the edit, or [None] when [msg] is set. *)
Definition decode_field (tag : Z) (input : list Z) e : option (option (list Z * VersionEdit)) :=
  if tag =? kComparator then field GetLengthPrefixedSlice input (fun str input => Some (Some (input, SetComparatorName str e)))
  else if tag =? kLogNumber then field GetVarint64 input (fun n input => Some (Some (input, SetLogNumber n e)))
  else if tag =? kPrevLogNumber then field GetVarint64 input (fun n input => Some (Some (input, SetPrevLogNumber n e)))
  else if tag =? kNextFileNumber then field GetVarint64 input (fun n input => Some (Some (input, SetNextFile n e)))
  else if tag =? kLastSequence then field GetVarint64 input (fun n input => Some (Some (input, SetLastSequence n e)))
  else if tag =? kCompactPointer then
    field GetLevel input (fun level input => field GetInternalKey input (fun key input =>
      Some (Some (input, SetCompactPointer level key e))))
  else if tag =? kDeletedFile then
    field GetLevel input (fun level input => field GetVarint64 input (fun number input =>
      Some (Some (input, DeleteFile level number e))))
  else if tag =? kNewFile then
    field GetLevel input (fun level input => field GetVarint64 input (fun number input =>
      field GetVarint64 input (fun size input => field GetInternalKey input (fun smallest input =>
        field GetInternalKey input (fun largest input =>
          Some (Some (input, push_file level (mkFile (Z.shiftl 1 30) number size smallest largest) e)))))))
  else Some None.

(** Whether [msg] is NULL, the input left and the edit. *)
Fixpoint DecodeFrom_loop (fuel : nat) (input : list Z) e : option (bool * list Z * VersionEdit) :=
  match fuel with
  | O => None
  | S fuel =>
      r ← GetVarint32 input;
      match r with
      | None => Some (true, input, e)
      | Some (tag, input) =>
          r ← decode_field tag input e;
          match r with
          | Some (input, e) => DecodeFrom_loop fuel input e
          | None => Some (false, input, e)
          end
      end
  end.

(** A tag has at least one octet. *)
Definition DecodeFrom (src : list Z) e : option (Code * VersionEdit) :=
  '(ok, input, e) ← DecodeFrom_loop (S (length src)) src (Clear e);
  Some (if ok && bool_decide (input = []) then kOk else kCorruption, e).
End edit.

(** ** A record as the list of its fields *)
Inductive item :=
  | IComparator (name : list Z)
  | ILogNumber (n : Z)
  | IPrevLogNumber (n : Z)
  | INextFile (n : Z)
  | ILastSequence (n : Z)
  | ICompactPointer (level : Z) (key : list Z)
  | IDeletedFile (level number : Z)
  | INewFile (level : Z) (f : FileMetaData).

Notation varint_tag t := (EncodeVarint32 t) (only parsing).
Notation slice s := (PutLengthPrefixedSlice [] s) (only parsing).

Definition item_bytes (i : item) : list Z :=
  match i with
  | IComparator name => varint_tag kComparator ++ slice name
  | ILogNumber n => varint_tag kLogNumber ++ EncodeVarint64 n
  | IPrevLogNumber n => varint_tag kPrevLogNumber ++ EncodeVarint64 n
  | INextFile n => varint_tag kNextFileNumber ++ EncodeVarint64 n
  | ILastSequence n => varint_tag kLastSequence ++ EncodeVarint64 n
  | ICompactPointer level key => varint_tag kCompactPointer ++ EncodeVarint32 level ++ slice key
  | IDeletedFile level number => varint_tag kDeletedFile ++ EncodeVarint32 level ++ EncodeVarint64 number
  | INewFile level f => varint_tag kNewFile ++ EncodeVarint32 level ++ EncodeVarint64 (number f) ++
      EncodeVarint64 (file_size f) ++ slice (smallest f) ++ slice (largest f)
  end.

(** Files of an edit are fresh: none of their seeks is used. *)
Definition fresh_file (f : FileMetaData) : FileMetaData :=
  mkFile (Z.shiftl 1 30) (number f) (file_size f) (smallest f) (largest f).

Definition apply_item (e : VersionEdit) (i : item) : VersionEdit :=
  match i with
  | IComparator name => SetComparatorName name e
  | ILogNumber n => SetLogNumber n e
  | IPrevLogNumber n => SetPrevLogNumber n e
  | INextFile n => SetNextFile n e
  | ILastSequence n => SetLastSequence n e
  | ICompactPointer level key => SetCompactPointer level key e
  | IDeletedFile level number => DeleteFile level number e
  | INewFile level f => push_file level (fresh_file f) e
  end.

Definition items (e : VersionEdit) : list item :=
  (if has_comparator_ e then [IComparator (comparator_ e)] else []) ++
  (if has_log_number_ e then [ILogNumber (log_number_ e)] else []) ++
  (if has_prev_log_number_ e then [IPrevLogNumber (prev_log_number_ e)] else []) ++
  (if has_next_file_number_ e then [INextFile (next_file_number_ e)] else []) ++
  (if has_last_sequence_ e then [ILastSequence (last_sequence_ e)] else []) ++
  ((fun p => ICompactPointer p.1 p.2) <$> compact_pointers_ e) ++
  ((fun p => IDeletedFile p.1 p.2) <$> deleted_files_ e) ++
  ((fun p => INewFile p.1 p.2) <$> new_files_ e).

Definition slice_ok (s : list Z) : Prop := zlen s < 2 ^ 32.
Definition key_ok (k : list Z) : Prop := k <> [] /\ slice_ok k.
Definition level_ok (l : Z) : Prop := 0 <= l < kNumLevels.

Definition item_ok (i : item) : Prop :=
  match i with
  | IComparator name => slice_ok name
  | ILogNumber n | IPrevLogNumber n | INextFile n | ILastSequence n => fits_unsigned 64 n
  | ICompactPointer level key => level_ok level /\ key_ok key
  | IDeletedFile level number => level_ok level /\ fits_unsigned 64 number
  | INewFile level f => level_ok level /\ fits_unsigned 64 (number f) /\ fits_unsigned 64 (file_size f) /\
      key_ok (smallest f) /\ key_ok (largest f)
  end.

Lemma field_hit {A B} (get : list Z -> option (option (A * list Z))) input (k : A -> list Z -> option (option B)) a rest :
  get input = Some (Some (a, rest)) -> field get input k = k a rest.
Proof. unfold field. by intros ->. Qed.

Lemma level_fits l : level_ok l -> fits_unsigned 32 l.
Proof. unfold level_ok, kNumLevels, fits_unsigned. lia. Qed.

Lemma GetLevel_encode l rest : level_ok l -> GetLevel (EncodeVarint32 l ++ rest) = Some (Some (l, rest)).
Proof.
  intros Hl. unfold GetLevel. rewrite GetVarint32_encode by (by apply level_fits). cbn [mbind option_bind].
  by rewrite (proj2 (Z.ltb_lt l kNumLevels)) by apply Hl.
Qed.

#[local] Hint Resolve GetLevel_encode GetVarint64_encode GetLengthPrefixedSlice_put : core.

Lemma InternalKey_Encode_ok k : key_ok k -> InternalKey_Encode k = Some k.
Proof. intros [Hk _]. unfold InternalKey_Encode. by rewrite bool_decide_eq_false_2. Qed.

(** Reading one field back. *)
Lemma decode_item i e rest : item_ok i -> exists tag input, GetVarint32 (item_bytes i ++ rest) = Some (Some (tag, input)) /\
  decode_field tag input e = Some (Some (rest, apply_item e i)).
Proof.
  destruct i; cbn [item_ok item_bytes]; intros Hi; rewrite <-!app_assoc;
    (eexists _, _; split; [apply GetVarint32_encode; done|]);
    unfold decode_field; cbn [Z.eqb Pos.eqb kComparator kLogNumber kPrevLogNumber kNextFileNumber kLastSequence kCompactPointer kDeletedFile kNewFile].
  1-5: by erewrite field_hit by eauto.
  - destruct Hi as (Hl & Hk & Hs). erewrite field_hit by eauto. by erewrite field_hit by (apply GetLengthPrefixedSlice_put; done).
  - destruct Hi as (Hl & Hn). erewrite field_hit by eauto. by erewrite field_hit by eauto.
  - destruct Hi as (Hl & Hn & Hz & [_ Hs] & [_ Hb]). do 3 (erewrite field_hit by eauto).
    do 2 (erewrite field_hit by (apply GetLengthPrefixedSlice_put; done)). done.
Qed.

Lemma item_bytes_pos i : item_ok i -> 0 < zlen (item_bytes i).
Proof.
  assert (forall t (r : list Z), EncodeVarint32 t <> [] -> 0 < zlen (EncodeVarint32 t ++ r)) as H.
  { intros t r Ht. rewrite length_app. destruct (EncodeVarint32 t); [done|]. cbn [length]. lia. }
  destruct i; intros _; cbn [item_bytes]; by apply H.
Qed.

Lemma decode_items its : forall fuel e, Forall item_ok its -> (length its < fuel)%nat ->
  DecodeFrom_loop fuel (concat (item_bytes <$> its)) e = Some (true, [], foldl apply_item e its).
Proof.
  induction its as [|i its IH]; intros [|fuel] e Hok Hf; cbn [length] in Hf; try lia; [done|].
  apply Forall_cons in Hok as [Hi Hok]. cbn [fmap list_fmap concat DecodeFrom_loop foldl].
  destruct (decode_item i e (concat (item_bytes <$> its)) Hi) as (tag & input & -> & E). cbn [mbind option_bind].
  rewrite E. cbn [mbind option_bind]. apply IH; [done|lia].
Qed.

Lemma items_length its : Forall item_ok its -> (length its <= length (concat (item_bytes <$> its)))%nat.
Proof.
  induction 1 as [|i its Hi _ IH]; [done|]. cbn [fmap list_fmap concat length]. rewrite length_app.
  pose proof (item_bytes_pos i Hi). lia.
Qed.

(** ** The octets of an edit *)
Lemma put_compact_pointers_eq l : forall dst, Forall (fun p => key_ok p.2) l ->
  put_compact_pointers l dst = Some (dst ++ concat (item_bytes <$> ((fun p => ICompactPointer p.1 p.2) <$> l))).
Proof.
  induction l as [|[lv k] l IH]; intros dst Hl; [cbn; by rewrite app_nil_r|]; cbn [put_compact_pointers put_new_files fmap list_fmap concat item_bytes fst snd]. apply Forall_cons in Hl as [Hk Hl].
  rewrite InternalKey_Encode_ok by done. cbn [mbind option_bind]. rewrite IH by done.
  rewrite PutLengthPrefixedSlice_app. unfold PutVarint32. by rewrite <-!app_assoc.
Qed.

Lemma put_deleted_files_eq l : forall dst,
  put_deleted_files l dst = dst ++ concat (item_bytes <$> ((fun p => IDeletedFile p.1 p.2) <$> l)).
Proof.
  induction l as [|[lv n] l IH]; intros dst; [cbn; by rewrite app_nil_r|]; cbn [put_deleted_files fmap list_fmap concat item_bytes fst snd]. rewrite IH.
  unfold PutVarint32, PutVarint64. by rewrite <-!app_assoc.
Qed.

Lemma put_new_files_eq l : forall dst, Forall (fun p => key_ok (smallest p.2) /\ key_ok (largest p.2)) l ->
  put_new_files l dst = Some (dst ++ concat (item_bytes <$> ((fun p => INewFile p.1 p.2) <$> l))).
Proof.
  induction l as [|[lv f] l IH]; intros dst Hl; [cbn; by rewrite app_nil_r|]; cbn [put_compact_pointers put_new_files fmap list_fmap concat item_bytes fst snd]. apply Forall_cons in Hl as [[Hs Hb] Hl].
  rewrite !InternalKey_Encode_ok by done. cbn [mbind option_bind]. rewrite IH by done.
  rewrite (PutLengthPrefixedSlice_app (PutLengthPrefixedSlice _ _)), (PutLengthPrefixedSlice_app (PutVarint64 _ _)). unfold PutVarint32, PutVarint64. by rewrite <-!app_assoc.
Qed.

Lemma EncodeTo_eq e dst : Forall item_ok (items e) -> EncodeTo e dst = Some (dst ++ concat (item_bytes <$> items e)).
Proof.
  intros Hok. unfold items in *. rewrite !Forall_app in Hok. destruct Hok as (H1 & H2 & H3 & H4 & H5 & H6 & H7 & H8).
  rewrite !fmap_app, !concat_app. unfold EncodeTo. rewrite Forall_fmap in H6. rewrite Forall_fmap in H8.
  rewrite put_compact_pointers_eq by (eapply Forall_impl; [exact H6|]; intros [l k]; cbn; tauto). cbn [mbind option_bind].
  rewrite put_new_files_eq by (eapply Forall_impl; [exact H8|]; intros [l f]; cbn; tauto).
  rewrite put_deleted_files_eq. unfold PutVarint32, PutVarint64.
  destruct (has_comparator_ e), (has_log_number_ e), (has_prev_log_number_ e), (has_next_file_number_ e), (has_last_sequence_ e);
    cbn [fmap list_fmap concat item_bytes app]; rewrite ?app_nil_r, ?(PutLengthPrefixedSlice_app (_ ++ _)), <-?app_assoc; done.
Qed.

(** ** What the fields leave behind *)
Definition pair_lt (p q : Z * Z) : Prop := p.1 < q.1 \/ p.1 = q.1 /\ p.2 < q.2.

Lemma insert_pair_snoc s p : Forall (fun q => pair_lt q p) s -> insert_pair p s = s ++ [p].
Proof.
  induction 1 as [|q s Hq _ IH]; [done|]. cbn [insert_pair app]. rewrite IH. destruct p as [a b], q as [c d]. unfold pair_lt in Hq. cbn in *.
  replace ((a <? c) || (a =? c) && (b <? d)) with false by (symmetry; apply orb_false_intro; [lia|]; destruct (Z.eqb_spec a c); cbn; lia).
  rewrite bool_decide_eq_false_2; [done|]. intros [= -> ->]. lia.
Qed.

Lemma apply_compact l : forall e, foldl apply_item e ((fun p => ICompactPointer p.1 p.2) <$> l) =
  mkEdit (comparator_ e) (log_number_ e) (prev_log_number_ e) (next_file_number_ e) (last_sequence_ e) (has_comparator_ e) (has_log_number_ e)
    (has_prev_log_number_ e) (has_next_file_number_ e) (has_last_sequence_ e) (compact_pointers_ e ++ l) (deleted_files_ e) (new_files_ e).
Proof.
  induction l as [|[lv k] l IH]; intros e; cbn [fmap list_fmap foldl]; [rewrite app_nil_r; by destruct e|].
  rewrite IH. cbn. by rewrite <-app_assoc.
Qed.

Lemma apply_deleted l : forall e, StronglySorted pair_lt (deleted_files_ e ++ l) -> foldl apply_item e ((fun p => IDeletedFile p.1 p.2) <$> l) =
  mkEdit (comparator_ e) (log_number_ e) (prev_log_number_ e) (next_file_number_ e) (last_sequence_ e) (has_comparator_ e) (has_log_number_ e)
    (has_prev_log_number_ e) (has_next_file_number_ e) (has_last_sequence_ e) (compact_pointers_ e) (deleted_files_ e ++ l) (new_files_ e).
Proof.
  induction l as [|[lv n] l IH]; intros e Hs; cbn [fmap list_fmap foldl]; [rewrite app_nil_r; by destruct e|].
  pose proof Hs as (Hlt & _ & _)%StronglySorted_app.
  assert (insert_pair (lv, n) (deleted_files_ e) = deleted_files_ e ++ [(lv, n)]) as E.
  { apply insert_pair_snoc, Forall_forall. intros q Hq. apply Hlt; [done|by left]. }
  cbn [apply_item fst snd]. unfold DeleteFile. rewrite E, IH; cbn; by rewrite <-app_assoc.
Qed.

Lemma apply_new l : forall e, foldl apply_item e ((fun p => INewFile p.1 p.2) <$> l) =
  mkEdit (comparator_ e) (log_number_ e) (prev_log_number_ e) (next_file_number_ e) (last_sequence_ e) (has_comparator_ e) (has_log_number_ e)
    (has_prev_log_number_ e) (has_next_file_number_ e) (has_last_sequence_ e) (compact_pointers_ e) (deleted_files_ e)
    (new_files_ e ++ (prod_map id fresh_file <$> l)).
Proof.
  induction l as [|[lv f] l IH]; intros e; cbn [fmap list_fmap foldl]; [rewrite app_nil_r; by destruct e|].
  rewrite IH. cbn. by rewrite <-app_assoc.
Qed.

(** An edit made by [Clear] and the setters: its fields fit, those that are not
    set are zero, and the deleted files are in order. *)
Record edit_ok (e : VersionEdit) : Prop := {
  ed_items : Forall item_ok (items e);
  ed_deleted : StronglySorted pair_lt (deleted_files_ e);
  ed_comparator : has_comparator_ e = false -> comparator_ e = [];
  ed_log : has_log_number_ e = false -> log_number_ e = 0;
  ed_prev_log : has_prev_log_number_ e = false -> prev_log_number_ e = 0;
  ed_next : has_next_file_number_ e = false -> next_file_number_ e = 0;
  ed_last : has_last_sequence_ e = false -> last_sequence_ e = 0;
}.

(** What decoding leaves: the compaction pointers of before, and fresh files. *)
Definition decoded (e0 e : VersionEdit) : VersionEdit :=
  mkEdit (comparator_ e) (log_number_ e) (prev_log_number_ e) (next_file_number_ e) (last_sequence_ e) (has_comparator_ e) (has_log_number_ e)
    (has_prev_log_number_ e) (has_next_file_number_ e) (has_last_sequence_ e) (compact_pointers_ e0 ++ compact_pointers_ e) (deleted_files_ e)
    (prod_map id fresh_file <$> new_files_ e).

Lemma apply_scalars e0 e : edit_ok e ->
  foldl apply_item (foldl apply_item (foldl apply_item (foldl apply_item (foldl apply_item (Clear e0)
    (if has_comparator_ e then [IComparator (comparator_ e)] else []))
    (if has_log_number_ e then [ILogNumber (log_number_ e)] else []))
    (if has_prev_log_number_ e then [IPrevLogNumber (prev_log_number_ e)] else []))
    (if has_next_file_number_ e then [INextFile (next_file_number_ e)] else []))
    (if has_last_sequence_ e then [ILastSequence (last_sequence_ e)] else []) =
  mkEdit (comparator_ e) (log_number_ e) (prev_log_number_ e) (next_file_number_ e) (last_sequence_ e) (has_comparator_ e) (has_log_number_ e)
    (has_prev_log_number_ e) (has_next_file_number_ e) (has_last_sequence_ e) (compact_pointers_ e0) [] [].
Proof.
  intros [_ _ H1 H2 H3 H4 H5]. destruct e as [c l p n s bc bl bp bn bs ? ? ?]. cbn in *.
  destruct bc; [|rewrite H1 by done]; (destruct bl; [|rewrite H2 by done]); (destruct bp; [|rewrite H3 by done]);
    (destruct bn; [|rewrite H4 by done]); (destruct bs; [|rewrite H5 by done]); reflexivity.
Qed.

Lemma apply_items e0 e : edit_ok e -> foldl apply_item (Clear e0) (items e) = decoded e0 e.
Proof.
  intros He. unfold items, decoded. rewrite !foldl_app, (apply_scalars e0 e He), apply_compact. cbn.
  rewrite apply_deleted by apply He. cbn. by rewrite apply_new.
Qed.

Lemma edit_decode e0 e : edit_ok e -> exists r, EncodeTo e [] = Some r /\ DecodeFrom r e0 = Some (kOk, decoded e0 e).
Proof.
  intros He. eexists. split; [apply EncodeTo_eq, He|]. cbn [app]. unfold DecodeFrom.
  rewrite decode_items; [|apply He|pose proof (items_length _ (ed_items _ He)); lia]. cbn [mbind option_bind]. by rewrite apply_items.
Qed.

(** ** Arbitrary octets *)
Lemma field_total {A B} (get : list Z -> option (option (A * list Z))) input (k : A -> list Z -> option (option (list Z * B))) :
  (forall x, exists r, get x = Some r /\ match r with None => True | Some (_, rest) => (length rest <= length x)%nat end) ->
  (forall a rest, (length rest <= length input)%nat -> exists r, k a rest = Some r /\
     match r with None => True | Some (rest', _) => (length rest' <= length rest)%nat end) ->
  exists r, field get input k = Some r /\ match r with None => True | Some (rest, _) => (length rest <= length input)%nat end.
Proof.
  intros Hget Hk. unfold field. destruct (Hget input) as ([[a rest]|] & -> & Hr); cbn [mbind option_bind]; [|by exists None].
  destruct (Hk a rest Hr) as (r & -> & H). exists r. split; [done|]. destruct r as [[rest' ?]|]; [lia|done].
Qed.

Lemma GetVarint64_less x : exists r, GetVarint64 x = Some r /\ match r with None => True | Some (_, rest) => (length rest <= length x)%nat end.
Proof.
  destruct (GetVarint64_total x) as (r & -> & Hr). exists r. split; [done|]. destruct r as [[v rest]|]; [|done].
  destruct Hr as (hd & -> & _). rewrite length_app. lia.
Qed.

Lemma GetLengthPrefixedSlice_less x : exists r, GetLengthPrefixedSlice x = Some r /\ match r with None => True | Some (_, rest) => (length rest <= length x)%nat end.
Proof.
  destruct (GetLengthPrefixedSlice_total x) as (r & -> & Hr). exists r. split; [done|]. destruct r as [[v rest]|]; [|done].
  destruct Hr as (hd & -> & _). rewrite !length_app. lia.
Qed.

Lemma GetLevel_less x : exists r, GetLevel x = Some r /\ match r with None => True | Some (_, rest) => (length rest <= length x)%nat end.
Proof.
  unfold GetLevel. destruct (GetVarint32_total x) as (r & -> & Hr). cbn [mbind option_bind]. eexists. split; [done|].
  destruct r as [[v rest]|]; [|done]. destruct (v <? kNumLevels); [|done]. destruct Hr as (hd & -> & _). rewrite length_app. lia.
Qed.

Lemma decode_field_total tag input e : exists r, decode_field tag input e = Some r /\
  match r with None => True | Some (rest, _) => (length rest <= length input)%nat end.
Proof.
  unfold decode_field. repeat (case_match; [solve
    [repeat (apply field_total; [first [apply GetVarint64_less|apply GetLengthPrefixedSlice_less|apply GetLevel_less]|intros; cbv beta]); eexists; (split; [done|cbn; lia])]|]).
  by exists None.
Qed.

Lemma DecodeFrom_total src e : exists c e', DecodeFrom src e = Some (c, e') /\ (c = kOk \/ c = kCorruption).
Proof.
  unfold DecodeFrom. generalize (Clear e). clear e. intros e.
  assert (forall fuel input e, (length input < fuel)%nat -> is_Some (DecodeFrom_loop fuel input e)) as H.
  { induction fuel as [|fuel IH]; intros input e1 Hf; [lia|]. cbn [DecodeFrom_loop].
    destruct (GetVarint32_total input) as ([[tag rest]|] & -> & Hr); cbn [mbind option_bind]; [|by eexists].
    destruct Hr as (hd & -> & Hhd). rewrite length_app in Hf.
    destruct (decode_field_total tag rest e1) as ([[rest' e2]|] & -> & Hr'); cbn [mbind option_bind]; [|by eexists].
    apply IH. lia. }
  destruct (H (S (length src)) src e) as [[[okd rest] e'] ->]; [lia|]. cbn [mbind option_bind]. eexists _, _. split; [done|].
  destruct (okd && _); auto.
Qed.

(** ** Edits whose fields fit and whose strings are octets *)
Definition file_good (f : FileMetaData) : Prop :=
  fits_unsigned 64 (number f) /\ fits_unsigned 64 (file_size f) /\ key_ok (smallest f) /\ key_ok (largest f) /\
  Forall is_byte (smallest f) /\ Forall is_byte (largest f).

Record edit_good (e : VersionEdit) : Prop := {
  eg_comparator : has_comparator_ e = true -> slice_ok (comparator_ e) /\ Forall is_byte (comparator_ e);
  eg_log : has_log_number_ e = true -> fits_unsigned 64 (log_number_ e);
  eg_prev_log : has_prev_log_number_ e = true -> fits_unsigned 64 (prev_log_number_ e);
  eg_next : has_next_file_number_ e = true -> fits_unsigned 64 (next_file_number_ e);
  eg_last : has_last_sequence_ e = true -> fits_unsigned 64 (last_sequence_ e);
  eg_pointers : Forall (fun p => level_ok p.1 /\ key_ok p.2 /\ Forall is_byte p.2) (compact_pointers_ e);
  eg_deleted : Forall (fun p => level_ok p.1 /\ fits_unsigned 64 p.2) (deleted_files_ e);
  eg_new : Forall (fun p => level_ok p.1 /\ file_good p.2) (new_files_ e);
}.

Lemma varint_octets v : 0 <= v -> Forall is_byte (EncodeVarint64 v).
Proof. intros Hv. rewrite EncodeVarint64_eq by done. by apply varint_bytes. Qed.

Lemma varint32_octets v : fits_unsigned 32 v -> Forall is_byte (EncodeVarint32 v).
Proof. intros Hv. rewrite EncodeVarint32_eq by done. apply varint_bytes. unfold fits_unsigned in Hv. lia. Qed.

Lemma slice_octets s : slice_ok s -> Forall is_byte s -> Forall is_byte (slice s).
Proof.
  intros Hs Hb. rewrite PutLengthPrefixedSlice_app. cbn [app]. apply Forall_app_2; [|done]. apply varint32_octets. unfold slice_ok, fits_unsigned, wrap in *.
  rewrite ?Z.mod_small by lia. lia.
Qed.

Lemma edit_good_items e : edit_good e -> Forall (fun i => item_ok i /\ Forall is_byte (item_bytes i)) (items e).
Proof.
  intros [H1 H2 H3 H4 H5 H6 H7 H8]. unfold items.
  assert (forall t, 0 <= t < 128 -> Forall is_byte (varint_tag t)) as Ht by (intros t Ht; apply varint32_octets; unfold fits_unsigned; lia).
  assert (forall n, fits_unsigned 64 n -> Forall is_byte (EncodeVarint64 n)) as Hn by (intros n Hn; apply varint_octets; unfold fits_unsigned in Hn; lia).
  assert (forall l, level_ok l -> Forall is_byte (EncodeVarint32 l)) as Hl by (intros l Hl; apply varint32_octets, level_fits, Hl).
  assert (forall (b : bool) i, (b = true -> item_ok i /\ Forall is_byte (item_bytes i)) -> Forall (fun i => item_ok i /\ Forall is_byte (item_bytes i)) (if b then [i] else [])) as Hif.
  { intros [|] i Hi; [|constructor]. apply Forall_singleton. auto. }
  rewrite !Forall_app, !Forall_fmap. split_and!.
  - apply Hif. intros E. destruct (H1 E). split; [done|]. apply Forall_app_2; [by apply Ht|by apply slice_octets].
  - apply Hif. intros E. split; [by apply H2|]. apply Forall_app_2; [by apply Ht|auto].
  - apply Hif. intros E. split; [by apply H3|]. apply Forall_app_2; [by apply Ht|auto].
  - apply Hif. intros E. split; [by apply H4|]. apply Forall_app_2; [by apply Ht|auto].
  - apply Hif. intros E. split; [by apply H5|]. apply Forall_app_2; [by apply Ht|auto].
  - eapply Forall_impl; [exact H6|]. intros [l k] (L1 & L2 & L3). split; [done|]. cbn [item_bytes fst snd]. rewrite !Forall_app. split_and!; [by apply Ht|auto|]. apply slice_octets; [apply L2|done].
  - eapply Forall_impl; [exact H7|]. intros [l k] (L1 & L2). split; [done|]. cbn [item_bytes fst snd]. rewrite !Forall_app. split_and!; [by apply Ht|auto|auto].
  - eapply Forall_impl; [exact H8|]. intros [l f] (L1 & L2 & L3 & L4 & L5 & L6 & L7). split; [done|]. cbn [item_bytes fst snd]. rewrite !Forall_app.
    split_and!; [by apply Ht|auto|auto|auto|apply slice_octets; [apply L4|done]|apply slice_octets; [apply L5|done]].
Qed.

Lemma encode_good e : edit_good e -> exists r, EncodeTo e [] = Some r /\ Forall is_byte r.
Proof.
  intros He. apply edit_good_items, Forall_and in He as [H1 H2]. rewrite EncodeTo_eq by done. eexists. split; [done|]. cbn [app]. apply Forall_concat.
  by apply Forall_fmap.
Qed.

(** ** Properties *)

(** C14 (version_edit_roundtrip) An edit made by the setters encodes without a
    failed assertion, and decoding the record gives the edit back: every field,
    the deleted files and the new files in order.  Decoding into an edit that
    was used before keeps its compaction pointers in front, which [Clear] does
    not remove.  Any other octets decode to an edit or to Corruption. *)
Theorem version_edit_roundtrip e0 e src :
  edit_ok e ->
  (exists r, EncodeTo e [] = Some r /\ DecodeFrom r e0 = Some (kOk, decoded e0 e)) /\
  (exists c e', DecodeFrom src e0 = Some (c, e') /\ (c = kOk \/ c = kCorruption)).
Proof. intros He. split; [by apply edit_decode|apply DecodeFrom_total]. Qed.

Definition example_edit : VersionEdit :=
  AddFile 1 12 4096 [97; 1; 5; 0; 0; 0; 0; 0; 0] [98; 0; 6; 0; 0; 0; 0; 0; 0]
    (DeleteFile 0 7 (DeleteFile 1 3 (DeleteFile 0 9 (SetCompactPointer 0 [97; 1; 1; 0; 0; 0; 0; 0; 0]
      (SetLastSequence 300 (SetNextFile 13 (SetLogNumber 11 new_VersionEdit))))))).

Lemma version_edit_roundtrip_witness :
  exists r, EncodeTo example_edit [] = Some r /\ DecodeFrom r new_VersionEdit = Some (kOk, example_edit) /\
    deleted_files_ example_edit = [(0, 7); (0, 9); (1, 3)].
Proof.
  destruct (version_edit_roundtrip new_VersionEdit example_edit []) as [(r & E & D) _].
  - split; try done; [repeat constructor; done|]. repeat constructor; cbn; unfold pair_lt; cbn; lia.
  - exists r. split; [exact E|]. split; [exact D|reflexivity].
Defined.
