(* ===== verification/MemIter.v ===== *)
(** The iterator of a memtable ([MemTableIterator] of
    [src/leveldb/db/memtable.cc]) and what a scan with it sees: the versions of
    the memtable in the order of their internal keys. *)
From S2P Require Import Prelude Coding Dbformat LdbBase WriteBatch Skiplist Memtable Iterator.

Record MemTableIterator := mkMemIter { mit_table : SkipList (list Z); mit_node : option nat }.

Definition MemTable_NewIterator (table : SkipList (list Z)) : MemTableIterator := mkMemIter table None.

Section instance.
Context (le : bool).

Definition mit_move (it : MemTableIterator) (node : option (option nat)) : option MemTableIterator :=
  node ← node; Some (mkMemIter (mit_table it) node).

#[export] Instance MemTableIterator_Iterator : Iterator MemTableIterator := {
  it_Valid it := iter_Valid (mit_node it);
  it_SeekToFirst it := mit_move it (iter_SeekToFirst (mit_table it));
  it_SeekToLast it := mit_move it (iter_SeekToLast (mit_table it));
  it_Seek it k := mit_move it (mi_Seek le k (mit_table it));
  it_Next it := mit_move it (iter_Next (mit_table it) (mit_node it));
  it_Prev it := mit_move it (iter_Prev (KeyComparator le) (mit_table it) (mit_node it));
  it_key it := mi_key (mit_table it) (mit_node it);
  it_value it := mi_value (mit_table it) (mit_node it);
  it_status _ := kOk;
}.
End instance.

(** ** Versions as entries of a table *)
Definition ekey (e : version) : list Z := ikey (v_key e) (v_tag e).
Definition entry_of (e : version) : list Z * list Z := (ekey e, v_value e).
Definition vlt (a b : version) : Prop := ikey_cmp (v_key a) (v_tag a) (v_key b) (v_tag b) < 0.

Lemma ekey_ikey e : fits_version e -> is_ikey (ekey e).
Proof. intros He. exists (v_key e), (v_tag e). split; [done|by apply v_tag_fits]. Qed.

(** ** Scans

    A scan is a cursor that only goes forward. *)
Record is_scan {I} `{!Iterator I} (es : list (list Z * list Z)) (at_ : I -> nat -> Prop) : Prop := {
  scan_get it i e : at_ it i -> es !! i = Some e -> it_Valid it = true /\ it_key it = Some e.1 /\ it_value it = Some e.2;
  scan_end it i : at_ it i -> es !! i = None -> it_Valid it = false;
  scan_ok it i : at_ it i -> it_status it = kOk;
  scan_first it i : at_ it i -> exists it', it_SeekToFirst it = Some it' /\ at_ it' O;
  scan_next it i : at_ it i -> (i < length es)%nat -> exists it', it_Next it = Some it' /\ at_ it' (S i);
}.

Lemma cursor_scan {C : Comparator} {I} `{!Iterator I} es (at_ : I -> nat -> Prop) : is_cursor es at_ -> is_scan es at_.
Proof. intros [H1 H2 H3 H4 _ _ H5 _]. by constructor. Qed.

Section memtable_scan.
Context (le : bool).

Lemma mi_entry table e x : fits_version e -> iter_key table (Some x) = Some (encode_version e) ->
  mi_key table (Some x) = Some (ekey e) /\ mi_value table (Some x) = Some (v_value e).
Proof.
  intros (Hs & Hk & Hv) E. unfold mi_key, mi_value. rewrite E. cbn [mbind option_bind]. rewrite encode_version_block. split.
  - by apply LengthPrefixed_block.
  - unfold block. destruct (varint_ptr5 (zlen (v_key e) + 8) (ikey (v_key e) (v_tag e) ++ EncodeVarint32 (zlen (v_value e)) ++ v_value e)) as [n ->]; [lia|].
    cbn [mbind option_bind]. replace (Z.to_nat (zlen (v_key e) + 8)) with (length (ikey (v_key e) (v_tag e))) by (rewrite length_ikey; lia).
    rewrite drop_app_length. rewrite <-(app_nil_r (v_value e)) at 2. by apply LengthPrefixed_spec.
Qed.

Lemma memtable_scan table es : mem_rep le table es ->
  exists vs at_, vs ≡ₚ es /\ StronglySorted vlt vs /\ is_scan (I := MemTableIterator) (Iterator0 := MemTableIterator_Iterator le) (entry_of <$> vs) at_ /\
    at_ (MemTable_NewIterator table) (length vs).
Proof.
  intros (Hf & _ & ks & Hrep & Hp). pose proof (represents_sorted _ _ _ Hrep) as [Hsort _]. destruct Hrep as (L & Hinv & HL).
  apply Permutation_map_inv in Hp as (vs & Hks & Hvs). change (map encode_version vs) with (encode_version <$> vs) in Hks. subst ks.
  assert (Forall fits_version vs) as Hfv by (by rewrite <-Hvs).
  assert (length vs = length L) as Hlen by (apply (f_equal length) in Hks; unfold elements in Hks; by rewrite !length_fmap in Hks).
  exists vs, (fun it i => mit_table it = table /\ mit_node it = L !! i). split; [done|]. split.
  { rewrite Hks in Hsort. clear -Hsort Hfv. apply StronglySorted_intro. intros i j x y Hij Hx Hy. rewrite Forall_lookup in Hfv. unfold vlt.
    rewrite <-(cmp_versions le) by eauto. apply (StronglySorted_lookup (fun a b => cmp_block le a b < 0) _ i j _ _ Hsort Hij); by rewrite list_lookup_fmap, ?Hx, ?Hy. }
  assert (forall i e, (entry_of <$> vs) !! i = Some e -> exists v x, e = entry_of v /\ fits_version v /\ L !! i = Some x /\ iter_key table (Some x) = Some (encode_version v)) as Hent.
  { intros i e He. rewrite list_lookup_fmap in He. destruct (vs !! i) as [v|] eqn:Ev; [|done]. injection He as <-.
    destruct (lookup_lt_is_Some_2 L i) as [x Hx]; [rewrite <-Hlen; by eapply lookup_lt_Some|]. exists v, x. rewrite Forall_lookup in Hfv.
    split; [done|]. split; [eauto|]. split; [done|]. rewrite (iter_key_spec [] table L x Hinv) by (by eapply list_elem_of_lookup_2).
    apply (f_equal (.!! i)) in Hks. unfold elements in Hks. rewrite !list_lookup_fmap, Hx, Ev in Hks. done. }
  split; [constructor|split; [done|rewrite Hlen; symmetry; by apply lookup_ge_None]].
  - intros it i e [<- Hn] He. destruct (Hent i e He) as (v & x & -> & Hv & Hx & Ek). rewrite Hx in Hn. cbn [it_Valid it_key it_value MemTableIterator_Iterator].
    rewrite Hn. split; [done|]. by apply mi_entry.
  - intros it i [_ Hn] He. cbn [it_Valid MemTableIterator_Iterator]. rewrite Hn, lookup_ge_None_2; [done|].
    apply lookup_ge_None in He. rewrite length_fmap in He. lia.
  - done.
  - intros it i [<- _]. cbn [it_SeekToFirst MemTableIterator_Iterator]. unfold mit_move. rewrite (SeekToFirst_spec [] _ _ Hinv). eexists. by split.
  - intros it i [<- Hn] Hi. rewrite length_fmap, Hlen in Hi. destruct (lookup_lt_is_Some_2 L i Hi) as [x Hx]. rewrite Hx in Hn.
    cbn [it_Next MemTableIterator_Iterator]. unfold mit_move. rewrite Hn, (iter_Next_spec [] _ _ i x Hinv Hx). eexists. by split.
Qed.
End memtable_scan.
