(* ===== verification/Version.v ===== *)
(** Levels of table files: the [Version] class and [VersionSet::Builder] of
    [src/leveldb/db/version_set.cc].

    The user comparator is the bytewise one.  A file is its [FileMetaData];
    reference counts of files and versions are not modelled, and neither is the
    compaction score, a floating point number.  The tables are behind the
    interface [TableSource].  [None] is a failed assertion or an access outside
    of an array. *)
From S2P Require Import Prelude Coding Dbformat LdbBase WriteBatch Skiplist Memtable Iterator MemIter Block Filter Format Table TableRead VersionEdit.

(** ** The table cache as seen by a version ([src/leveldb/db/table_cache.h])

    [TS_holds t b files]: the table files with their sizes and entries, with
    identifiers left for at least [b] lookups.  A lookup hands one entry to its
    callback, or none. *)
Class TableReader (T : Type) := TS_Get : ReadOptions -> Z -> Z -> list Z -> T -> option (Code * option (list Z * list Z) * T).
Class TableSource (le : bool) (policy : option FilterPolicy) (T : Type) `{!TableReader T} := {
  TS_holds : T -> Z -> gmap Z (Z * list (list Z * list Z)) -> Prop;
  TS_less t b b' files : b' <= b -> TS_holds t b files -> TS_holds t b' files;
  TS_Get_spec options t b files n size es k :
    TS_holds t b files -> 0 < b -> files !! n = Some (size, es) -> is_ikey k -> fkey policy k ->
    exists c saved t', TS_Get options n size k t = Some (c, saved, t') /\ TS_holds t' (b - 1) files /\
      c <> kNotFound /\ (c = kOk -> answers (S := InternalKey_Separators le) es k saved);
}.

Definition kMaxMemCompactLevel : Z := 2.
Definition kTargetFileSize : Z := 2 * 1048576.
Definition kMaxGrandParentOverlapBytes : Z := 10 * kTargetFileSize.

Record Version := mkVersion {
  files_ : list (list FileMetaData);
  file_to_compact_ : option FileMetaData;
  file_to_compact_level_ : Z;
}.

Record GetStats := mkStats { seek_file : option FileMetaData; seek_file_level : Z }.

Inductive SaverState := SNotFound | SFound | SDeleted | SCorrupt.

Definition newer (a b : FileMetaData) : Prop := number b <= number a.
#[export] Instance newer_dec a b : Decision (newer a b).
Proof. unfold newer. apply _. Defined.
#[export] Instance newer_total : Total newer.
Proof. intros a b. unfold newer. lia. Qed.
#[export] Instance newer_trans : Transitive newer.
Proof. intros a b c. unfold newer. lia. Qed.

Section version.
Context (le : bool).
Implicit Types (f : FileMetaData) (files : list FileMetaData) (v : Version) (key user_key : list Z).

Definition TotalFileSize files : Z := fold_left (fun sum f => swrap 64 (sum + file_size f)) files 0.

(** [icmp.Compare] on two InternalKeys. *)
Definition icmp (a b : list Z) : option Z :=
  a ← InternalKey_Encode a; b ← InternalKey_Encode b; InternalKey_Compare le a b.

(** ** Finding files *)
Fixpoint FindFile_loop (fuel : nat) files key (left right : Z) : option Z :=
  match fuel with
  | O => None
  | S fuel =>
      if left <? right then
        let mid := wrap 32 (left + right) / 2 in
        f ← files !! Z.to_nat mid;
        k ← InternalKey_Encode (largest f);
        c ← InternalKey_Compare le k key;
        if c <? 0 then FindFile_loop fuel files key (wrap 32 (mid + 1)) right
        else FindFile_loop fuel files key left mid
      else Some right
  end.
Definition FindFile files key : option Z :=
  FindFile_loop (S (length files)) files key 0 (wrap 32 (zlen files)).

Definition AfterFile (user_key : option (list Z)) f : option bool :=
  match user_key with
  | None => Some false
  | Some u => l ← ExtractUserKey (largest f); Some (0 <? Bytewise_Compare u l)
  end.
Definition BeforeFile (user_key : option (list Z)) f : option bool :=
  match user_key with
  | None => Some false
  | Some u => l ← ExtractUserKey (smallest f); Some (Bytewise_Compare u l <? 0)
  end.

Fixpoint overlaps_some files (smallest_user_key largest_user_key : option (list Z)) : option bool :=
  match files with
  | [] => Some false
  | f :: files =>
      a ← AfterFile smallest_user_key f;
      b ← (if a : bool then Some true else BeforeFile largest_user_key f);
      if b : bool then overlaps_some files smallest_user_key largest_user_key else Some true
  end.

Definition SomeFileOverlapsRange (disjoint_sorted_files : bool) files (smallest_user_key largest_user_key : option (list Z)) : option bool :=
  if negb disjoint_sorted_files then overlaps_some files smallest_user_key largest_user_key
  else
    index ← (match smallest_user_key with
             | Some u => small ← AppendInternalKey le [] (Build_ParsedInternalKey u kMaxSequenceNumber kValueTypeForSeek); FindFile files small
             | None => Some 0
             end);
    if zlen files <=? index then Some false
    else f ← files !! Z.to_nat index; b ← BeforeFile largest_user_key f; Some (negb b).

Definition OverlapInLevel v (level : Z) (smallest_user_key largest_user_key : option (list Z)) : option bool :=
  files ← files_ v !! Z.to_nat level;
  SomeFileOverlapsRange (0 <? level) files smallest_user_key largest_user_key.

(** The loop of [GetOverlappingInputs]: the files from index [i] on, and the
    inputs collected. *)
Fixpoint overlapping_loop (fuel : nat) (level : Z) all (user_begin user_end : option (list Z)) files (inputs : list FileMetaData) : option (list FileMetaData) :=
  match fuel with
  | O => None
  | S fuel =>
      match files with
      | [] => Some inputs
      | f :: files =>
          file_start ← ExtractUserKey (smallest f);
          file_limit ← ExtractUserKey (largest f);
          let before := match user_begin with Some b => Bytewise_Compare file_limit b <? 0 | None => false end in
          let after := match user_end with Some e => 0 <? Bytewise_Compare file_start e | None => false end in
          if before || after then overlapping_loop fuel level all user_begin user_end files inputs
          else
            let inputs := inputs ++ [f] in
            let grows_left := match user_begin with Some b => Bytewise_Compare file_start b <? 0 | None => false end in
            let grows_right := match user_end with Some e => 0 <? Bytewise_Compare file_limit e | None => false end in
            if (level =? 0) && grows_left then overlapping_loop fuel level all (Some file_start) user_end all []
            else if (level =? 0) && grows_right then overlapping_loop fuel level all user_begin (Some file_limit) all []
            else overlapping_loop fuel level all user_begin user_end files inputs
      end
  end.

(** A restart moves one end of the range to the end of a file. *)
Definition overlapping_fuel files : nat := S ((2 * length files + 1) * length files).

Definition GetOverlappingInputs v (level : Z) (begin_ end_ : option (list Z)) : option (list FileMetaData) :=
  _ ← passert ((0 <=? level) && (level <? kNumLevels));
  user_begin ← (match begin_ with Some k => u ← ExtractUserKey k; Some (Some u) | None => Some None end);
  user_end ← (match end_ with Some k => u ← ExtractUserKey k; Some (Some u) | None => Some None end);
  files ← files_ v !! Z.to_nat level;
  overlapping_loop (overlapping_fuel files) level files user_begin user_end files [].

Fixpoint pick_level (fuel : nat) v (level : Z) (smallest_user_key largest_user_key start limit : list Z) : option Z :=
  match fuel with
  | O => None
  | S fuel =>
      if level <? kMaxMemCompactLevel then
        o ← OverlapInLevel v (level + 1) (Some smallest_user_key) (Some largest_user_key);
        if o : bool then Some level
        else
          stop ← (if level + 2 <? kNumLevels then
                    overlaps ← GetOverlappingInputs v (level + 2) (Some start) (Some limit);
                    Some (kMaxGrandParentOverlapBytes <? TotalFileSize overlaps)
                  else Some false);
          if stop : bool then Some level
          else pick_level fuel v (level + 1) smallest_user_key largest_user_key start limit
      else Some level
  end.

Definition PickLevelForMemTableOutput v (smallest_user_key largest_user_key : list Z) : option Z :=
  o ← OverlapInLevel v 0 (Some smallest_user_key) (Some largest_user_key);
  if o : bool then Some 0
  else
    start ← AppendInternalKey le [] (Build_ParsedInternalKey smallest_user_key kMaxSequenceNumber kValueTypeForSeek);
    limit ← AppendInternalKey le [] (Build_ParsedInternalKey largest_user_key 0 0);
    pick_level 3 v 0 smallest_user_key largest_user_key start limit.

(** ** Lookups *)

(** The callback of [Version::Get]: the state of the saver and the value. *)
Definition SaveValue user_key (value : list Z) (ikey v : list Z) : option (SaverState * list Z) :=
  parsed_key ← ParseInternalKey le ikey;
  Some (match parsed_key with
        | None => (SCorrupt, value)
        | Some pk =>
            if Bytewise_Compare (pk_user_key pk) user_key =? 0 then
              if pk_type pk =? kTypeValue then (SFound, v) else (SDeleted, value)
            else (SNotFound, value)
        end).

(** The files of level 0 whose range of user keys has the key. *)
Fixpoint level0_files user_key files : option (list FileMetaData) :=
  match files with
  | [] => Some []
  | f :: files =>
      s ← ExtractUserKey (smallest f);
      b ← ExtractUserKey (largest f);
      tmp ← level0_files user_key files;
      Some (if (0 <=? Bytewise_Compare user_key s) && (Bytewise_Compare user_key b <=? 0) then f :: tmp else tmp)
  end.

(** std::sort with [NewestFirst]; the numbers of files are different. *)
Definition NewestFirst files : list FileMetaData := merge_sort newer files.

(** The files to search in a level. *)
Definition files_to_search (level : Z) files ikey user_key : option (list FileMetaData) :=
  if level =? 0 then tmp ← level0_files user_key files; Some (NewestFirst tmp)
  else
    index ← FindFile files ikey;
    if zlen files <=? index then Some []
    else
      tmp2 ← files !! Z.to_nat index;
      s ← ExtractUserKey (smallest tmp2);
      Some (if Bytewise_Compare user_key s <? 0 then [] else [tmp2]).

Context {T : Type} `{!TableReader T}.
Context (options : ReadOptions).

(** What the loops carry: the value, the statistics, the file read last and the
    table cache. *)
Record search := mkSearch {
  sr_value : list Z;
  sr_stats : GetStats;
  sr_last_file_read : option (FileMetaData * Z);
  sr_tables : T;
}.

(** A second file read charges the first one. *)
Definition charge_seek (r : search) : GetStats :=
  match sr_last_file_read r, seek_file (sr_stats r) with
  | Some (last, last_level), None => mkStats (Some last) last_level
  | _, _ => sr_stats r
  end.

(** The files of one level; a status ends the search. *)
Fixpoint get_files ikey user_key (level : Z) files (r : search) : option (option Code * search) :=
  match files with
  | [] => Some (None, r)
  | f :: files =>
      let stats := charge_seek r in
      '(s, saved, t) ← TS_Get options (number f) (file_size f) ikey (sr_tables r);
      '(state, value) ← (match saved with
                         | Some (k, v) => SaveValue user_key (sr_value r) k v
                         | None => Some (SNotFound, sr_value r)
                         end);
      let r := mkSearch value stats (Some (f, level)) t in
      if negb (Status_ok s) then Some (Some s, r)
      else
        match state with
        | SNotFound => get_files ikey user_key level files r
        | SFound => Some (Some s, r)
        | SDeleted => Some (Some kNotFound, r)
        | SCorrupt => Some (Some kCorruption, r)
        end
  end.

Fixpoint get_levels ikey user_key (level : Z) (levels : list (list FileMetaData)) (r : search) : option (Code * search) :=
  match levels with
  | [] => Some (kNotFound, r)
  | files :: levels =>
      files ← files_to_search level files ikey user_key;
      '(s, r) ← get_files ikey user_key level files r;
      match s with
      | Some s => Some (s, r)
      | None => get_levels ikey user_key (level + 1) levels r
      end
  end.

(** The status, the value, the statistics and the table cache. *)
Definition Version_Get v (k : LookupKey) (value : list Z) (t : T) : option (Code * list Z * GetStats * T) :=
  '(s, r) ← get_levels (lk_internal_key k) (lk_user_key k) 0 (files_ v)
    (mkSearch value (mkStats None (-1)) None t);
  Some (s, sr_value r, sr_stats r, sr_tables r).

(** ** Seek statistics *)

(** The file is shared by the levels and by [file_to_compact_]. *)
Definition set_seeks (n seeks : Z) f : FileMetaData :=
  if number f =? n then mkFile seeks (number f) (file_size f) (smallest f) (largest f) else f.

Definition UpdateStats (stats : GetStats) v : bool * Version :=
  match seek_file stats with
  | None => (false, v)
  | Some f0 =>
      let seeks := default (allowed_seeks f0) (head (allowed_seeks <$> filter (fun f => number f = number f0) (concat (files_ v)))) in
      let seeks := swrap 32 (seeks - 1) in
      let v := mkVersion ((fun fs : list FileMetaData => set_seeks (number f0) seeks <$> fs) <$> files_ v) (set_seeks (number f0) seeks <$> file_to_compact_ v) (file_to_compact_level_ v) in
      match file_to_compact_ v with
      | None => if seeks <=? 0 then (true, mkVersion (files_ v) (Some (set_seeks (number f0) seeks f0)) (seek_file_level stats)) else (false, v)
      | Some _ => (false, v)
      end
  end.

(** The files that [ForEachOverlapping] visits, in order, until the function it
    calls ([State::Match] of [RecordReadSample]) has seen two. *)
Fixpoint ForEachOverlapping ikey user_key (level : Z) (levels : list (list FileMetaData)) (seen : list (Z * FileMetaData)) : option (list (Z * FileMetaData)) :=
  match levels with
  | [] => Some seen
  | files :: levels =>
      files ← files_to_search level files ikey user_key;
      let seen := take 2 (seen ++ ((fun f => (level, f)) <$> files)) in
      if 2 <=? zlen seen then Some seen
      else ForEachOverlapping ikey user_key (level + 1) levels seen
  end.

Definition RecordReadSample (internal_key : list Z) v : option (bool * Version) :=
  ikey ← ParseInternalKey le internal_key;
  match ikey with
  | None => Some (false, v)
  | Some pk =>
      matches ← ForEachOverlapping internal_key (pk_user_key pk) 0 (files_ v) [];
      Some (match matches with
            | (level, f) :: _ :: _ => UpdateStats (mkStats (Some f) level) v
            | _ => (false, v)
            end)
  end.
End version.

(** ** VersionSet::Builder *)
Record LevelState := mkLevelState { deleted_files : gset Z; added_files : list FileMetaData }.

Section builder.
Context (le : bool).
Implicit Types (f : FileMetaData) (files : list FileMetaData) (b : list LevelState).

Definition new_Builder : list LevelState := replicate (Z.to_nat kNumLevels) (mkLevelState ∅ []).

Definition BySmallestKey (f1 f2 : FileMetaData) : option bool :=
  r ← icmp le (smallest f1) (smallest f2);
  Some (if negb (r =? 0) then r <? 0 else number f1 <? number f2).

(** std::set::insert with [BySmallestKey]. *)
Fixpoint insert_file f files : option (list FileMetaData) :=
  match files with
  | [] => Some [f]
  | g :: files' =>
      lt ← BySmallestKey f g;
      if lt : bool then Some (f :: files)
      else
        gt ← BySmallestKey g f;
        if gt : bool then files' ← insert_file f files'; Some (g :: files')
        else Some files
  end.

Fixpoint apply_compact_pointers (l : list (Z * list Z)) (compact_pointer_ : list (list Z)) : option (list (list Z)) :=
  match l with
  | [] => Some compact_pointer_
  | (level, key) :: l =>
      _ ← compact_pointer_ !! Z.to_nat level;
      k ← InternalKey_Encode key;
      apply_compact_pointers l (<[Z.to_nat level := k]> compact_pointer_)
  end.

Fixpoint apply_deleted_files (l : list (Z * Z)) b : option (list LevelState) :=
  match l with
  | [] => Some b
  | (level, number) :: l =>
      s ← b !! Z.to_nat level;
      apply_deleted_files l (<[Z.to_nat level := mkLevelState ({[number]} ∪ deleted_files s) (added_files s)]> b)
  end.

Definition seeks_of (size : Z) : Z :=
  let seeks := swrap 32 (size / 16384) in if seeks <? 100 then 100 else seeks.

Fixpoint apply_new_files (l : list (Z * FileMetaData)) b : option (list LevelState) :=
  match l with
  | [] => Some b
  | (level, f) :: l =>
      let f := mkFile (seeks_of (file_size f)) (number f) (file_size f) (smallest f) (largest f) in
      s ← b !! Z.to_nat level;
      added ← insert_file f (added_files s);
      apply_new_files l (<[Z.to_nat level := mkLevelState (deleted_files s ∖ {[number f]}) added]> b)
  end.

Definition Apply (edit : VersionEdit) (compact_pointer_ : list (list Z)) b : option (list (list Z) * list LevelState) :=
  compact_pointer_ ← apply_compact_pointers (compact_pointers_ edit) compact_pointer_;
  b ← apply_deleted_files (deleted_files_ edit) b;
  b ← apply_new_files (new_files_ edit) b;
  Some (compact_pointer_, b).

(** [files] are those of the level of the new version so far. *)
Definition MaybeAddFile (level : Z) (s : LevelState) files f : option (list FileMetaData) :=
  if bool_decide (number f ∈ deleted_files s) then Some files
  else
    _ ← (match last files with
         | Some g => if 0 <? level then c ← icmp le (largest g) (smallest f); passert (c <? 0) else Some tt
         | None => Some tt
         end);
    Some (files ++ [f]).

Fixpoint add_files (level : Z) (s : LevelState) files (fs : list FileMetaData) : option (list FileMetaData) :=
  match fs with
  | [] => Some files
  | f :: fs => files ← MaybeAddFile level s files f; add_files level s files fs
  end.

(** std::upper_bound on a sorted range: the files up to the first one that
    comes after [f], and the others. *)
Fixpoint upper_bound f files : option (list FileMetaData * list FileMetaData) :=
  match files with
  | [] => Some ([], [])
  | g :: files' =>
      lt ← BySmallestKey f g;
      if lt : bool then Some ([], files)
      else '(a, b) ← upper_bound f files'; Some (g :: a, b)
  end.

Fixpoint merge_added (level : Z) (s : LevelState) (base added files : list FileMetaData) : option (list FileMetaData) :=
  match added with
  | [] => add_files level s files base
  | f :: added =>
      '(smaller, base) ← upper_bound f base;
      files ← add_files level s files smaller;
      files ← MaybeAddFile level s files f;
      merge_added level s base added files
  end.

Fixpoint save_levels (level : Z) (base : list (list FileMetaData)) b : option (list (list FileMetaData)) :=
  match base, b with
  | files :: base, s :: b =>
      files ← merge_added level s files (added_files s) [];
      rest ← save_levels (level + 1) base b;
      Some (files :: rest)
  | _, _ => Some []
  end.

Definition SaveTo (base : Version) b : option Version :=
  files ← save_levels 0 (files_ base) b;
  Some (mkVersion files None (-1)).
End builder.

(** ** Keys and versions *)
Notation klt_ le := (klt (C := InternalKey_Comparator le)) (only parsing).

Definition lookup_key (u : list Z) (s : Z) : list Z := ikey u (tag s kValueTypeForSeek).

(** The newest version of [u] at [s], among some versions in any order. *)
Definition newest (u : list Z) (s : Z) (vs : list version) (e : version) : Prop :=
  e ∈ vs /\ v_key e = u /\ e.1 <= s /\ forall e', e' ∈ vs -> v_key e' = u -> e'.1 <= s -> e'.1 <= e.1.
Definition unseen (u : list Z) (s : Z) (vs : list version) : Prop := forall e, e ∈ vs -> v_key e = u -> ~ e.1 <= s.

Lemma lookup_key_ikey u s : 0 <= s < 2 ^ 56 -> is_ikey (lookup_key u s).
Proof. intros Hs. eexists _, _. split; [done|by apply seek_tag_fits]. Qed.

Section keys.
Context (le : bool).

Lemma klt_ekey a b : fits_version a -> fits_version b -> klt_ le (ekey a) (ekey b) <-> vlt a b.
Proof. intros Ha Hb. apply klt_internal; by apply v_tag_fits. Qed.

Lemma klt_lookup e u s : fits_version e -> 0 <= s < 2 ^ 56 ->
  klt_ le (ekey e) (lookup_key u s) <-> lex (v_key e) u < 0 \/ v_key e = u /\ s < e.1.
Proof.
  intros He Hs. unfold ekey, lookup_key. rewrite klt_internal by (by apply v_tag_fits || by apply seek_tag_fits).
  rewrite ikey_cmp_lt. pose proof (v_type_range e). unfold v_tag, tag, kValueTypeForSeek, kTypeValue.
  split; (intros [?|[-> ?]]; [by left|right; split; [done|lia]]).
Qed.

Lemma entries_increasing vs : Forall fits_version vs -> StronglySorted vlt vs -> increasing (C := InternalKey_Comparator le) (entry_of <$> vs).
Proof.
  intros Hf Hs. rewrite Forall_forall in Hf. split.
  - apply Forall_fmap, Forall_fmap, Forall_forall. intros e He. apply ekey_ikey. auto.
  - induction Hs as [|e vs Hs IH Hlt]; cbn; constructor; [apply IH; intros; apply Hf; by right|].
    rewrite Forall_fmap, Forall_fmap. rewrite Forall_forall in Hlt |- *. intros e' He'. apply klt_ekey; [apply Hf; by left|apply Hf; by right|auto].
Qed.

(** What a lookup in a sorted list of versions answers. *)
Lemma answers_versions vs u s saved : Forall fits_version vs -> StronglySorted vlt vs -> 0 <= s < 2 ^ 56 ->
  answers (S := InternalKey_Separators le) (entry_of <$> vs) (lookup_key u s) saved ->
  match saved with
  | None => unseen u s vs
  | Some en => exists e, en = entry_of e /\ fits_version e /\ (v_key e = u -> newest u s vs e) /\ (v_key e <> u -> unseen u s vs)
  end.
Proof.
  intros Hf Hs Hu Ha. pose proof (entries_increasing vs Hf Hs) as Hinc. rewrite Forall_forall in Hf.
  set (es := entry_of <$> vs) in *. set (i := seek_index (C := InternalKey_Comparator le) es (lookup_key u s)) in *.
  (* visible versions are not before the first entry that is not below the key *)
  assert (forall j e, vs !! j = Some e -> v_key e = u -> e.1 <= s -> (i <= j)%nat) as Hge.
  { intros j e Hj Hk Hle. destruct (decide (i <= j)%nat) as [|Hlt]; [done|]. exfalso.
    assert (es !! j = Some (entry_of e)) as Hj' by (unfold es; by rewrite list_lookup_fmap, Hj).
    assert (below (C := InternalKey_Comparator le) (lookup_key u s) (entry_of e).1 = true) as Hb by (eapply seek_index_below; [|exact Hj']; fold i; lia).
    apply below_klt in Hb.
    apply klt_lookup in Hb; [|apply Hf; by eapply list_elem_of_lookup_2|done].
    rewrite Hk, lex_refl in Hb. lia. }
  assert (forall e, es !! i = Some (entry_of e) -> vs !! i = Some e -> v_key e = u -> newest u s vs e) as Hnew.
  { intros e He Hv Hk. pose proof (seek_index_at _ _ _ He) as Hb. rewrite <-not_true_iff_false, below_klt in Hb.
    assert (e ∈ vs) as Hin by (by eapply list_elem_of_lookup_2).
    change (entry_of e).1 with (ekey e) in Hb. rewrite klt_lookup in Hb by (auto || done). split; [done|]. split; [done|].
    split; [destruct (Z.le_gt_cases e.1 s); [done|]; destruct Hb; right; split; [done|lia]|].
    intros e' He' Hk' Hle'. apply list_elem_of_lookup in He' as [j Hj]. pose proof (Hge j e' Hj Hk' Hle').
    destruct (decide (j = i)) as [-> |Hne]; [rewrite Hj in Hv; by injection Hv as ->|].
    assert (vlt e e') as Hlt by (apply (StronglySorted_lookup vlt vs i j); done || lia).
    unfold vlt in Hlt. rewrite ikey_cmp_lt, Hk, Hk', lex_refl in Hlt. destruct Hlt as [|[_ Hlt]]; [lia|]. by apply v_tag_lt. }
  assert (es !! i = None -> unseen u s vs) as Hnone.
  { intros Hn e He Hk Hle. apply list_elem_of_lookup in He as [j Hj]. pose proof (Hge j e Hj Hk Hle).
    apply lookup_lt_Some in Hj. apply lookup_ge_None in Hn. unfold es in Hn. rewrite length_fmap in Hn. lia. }
  assert (forall e, vs !! i = Some e -> v_key e <> u -> unseen u s vs) as Hother.
  { intros e Hv Hk e' He' Hk' Hle'. apply list_elem_of_lookup in He' as [j Hj]. pose proof (Hge j e' Hj Hk' Hle').
    assert (es !! i = Some (entry_of e)) as He by (unfold es; by rewrite list_lookup_fmap, Hv).
    pose proof (seek_index_at _ _ _ He) as Hb. rewrite <-not_true_iff_false, below_klt in Hb.
    assert (e ∈ vs) as Hin by (by eapply list_elem_of_lookup_2).
    change (entry_of e).1 with (ekey e) in Hb. rewrite klt_lookup in Hb by (auto || done).
    destruct (decide (j = i)) as [-> |Hne]; [rewrite Hj in Hv; injection Hv as ->; done|].
    assert (vlt e e') as Hlt by (apply (StronglySorted_lookup vlt vs i j); done || lia).
    unfold vlt in Hlt. rewrite ikey_cmp_lt, Hk' in Hlt. destruct Hlt as [|[]]; [|done]. apply Hb. by left. }
  unfold answers in Ha. fold es i in Ha. destruct (vs !! i) as [e|] eqn:Hv.
  - assert (es !! i = Some (entry_of e)) as He by (unfold es; by rewrite list_lookup_fmap, Hv).
    rewrite He in Ha. destruct Ha as [-> |[-> Hs']].
    + exists e. split; [done|]. split; [apply Hf; by eapply list_elem_of_lookup_2|]. split; [auto|eauto].
    + eapply Hother; [done|]. intros Hk. apply (Hs' _ eq_refl). cbn. unfold same_user, lookup_key, ekey.
      by rewrite !ExtractUserKey_ikey, Hk.
  - assert (es !! i = None) as He by (unfold es; by rewrite list_lookup_fmap, Hv). rewrite He in Ha.
    destruct Ha as [-> |[-> _]]; by apply Hnone.
Qed.
End keys.

(** ** What the levels hold

    [M] gives the versions of the table files by number. *)
Section levels.
Context (le : bool).
Implicit Types (f g : FileMetaData) (files : list FileMetaData) (levels : list (list FileMetaData)) (M : gmap Z (list version)).

Definition contents M f : list version := default [] (M !! number f).
Definition all_versions M files : list version := concat (contents M <$> files).

Record file_ok M f : Prop := {
  fo_there : is_Some (M !! number f);
  fo_fits : Forall fits_version (contents M f);
  fo_sorted : StronglySorted vlt (contents M f);
  fo_smallest : exists e, head (contents M f) = Some e /\ smallest f = ekey e;
  fo_largest : exists e, last (contents M f) = Some e /\ largest f = ekey e;
}.

(** For every key, the versions in [f] are newer than those in [g]. *)
Definition supersedes M f g : Prop :=
  forall e e', e ∈ contents M f -> e' ∈ contents M g -> v_key e = v_key e' -> e'.1 < e.1.
Definition apart f g : Prop := klt_ le (largest f) (smallest g).

(** The order of the files in a level. *)
Definition by_smallest f g : Prop := klt_ le (smallest f) (smallest g) \/ smallest f = smallest g /\ number f < number g.

Record levels_sem M levels : Prop := {
  lv_length : length levels = Z.to_nat kNumLevels;
  lv_files : Forall (file_ok M) (concat levels);
  lv_count : zlen (concat levels) < 2 ^ 31;
  lv_numbers : NoDup (number <$> concat levels);
  lv_zero : forall A f g, levels !! 0%nat = Some A -> f ∈ A -> g ∈ A -> number g < number f -> supersedes M f g;
  lv_apart : forall i A f g, levels !! S i = Some A -> f ∈ A -> g ∈ A -> f <> g -> apart f g \/ apart g f;
  lv_newer : forall i j A B f g, (i < j)%nat -> levels !! i = Some A -> levels !! j = Some B -> f ∈ A -> g ∈ B -> supersedes M f g;
}.

Record levels_ok M levels : Prop := {
  lv_sem : levels_sem M levels;
  lv_sorted : Forall (StronglySorted by_smallest) levels;
}.

Lemma head_in {A} (l : list A) x : head l = Some x -> x ∈ l.
Proof. destruct l; [done|]. intros [= ->]. by left. Qed.

Lemma file_keys M f : file_ok M f -> is_ikey (smallest f) /\ is_ikey (largest f).
Proof.
  intros [_ Hf _ (e & He & ->) (e' & He' & ->)]. rewrite Forall_forall in Hf.
  split; apply ekey_ikey, Hf; [by apply head_in|by apply last_Some_elem_of].
Qed.

Lemma sorted_ends {A} (R : A -> A -> Prop) l a b x : StronglySorted R l -> head l = Some a -> last l = Some b -> x ∈ l ->
  (x = a \/ R a x) /\ (x = b \/ R x b).
Proof.
  intros Hs Ha Hb Hx. split.
  - destruct l as [|y l]; [done|]. injection Ha as ->. apply StronglySorted_inv in Hs as [_ Hs]. rewrite Forall_forall in Hs.
    apply elem_of_cons in Hx as [-> |Hx]; auto.
  - apply last_Some in Hb as [l' ->]. apply StronglySorted_app in Hs as (Hs & _ & _).
    apply elem_of_app in Hx as [Hx| ->%list_elem_of_singleton]; [|by left]. right. apply Hs; [done|by left].
Qed.

(** The keys of a file lie in its range. *)
Lemma file_range M f e : file_ok M f -> e ∈ contents M f ->
  fits_version e /\ ~ klt_ le (ekey e) (smallest f) /\ ~ klt_ le (largest f) (ekey e).
Proof.
  intros [_ Hf Hs (a & Ha & Es) (b & Hb & El)] He. rewrite Forall_forall in Hf.
  assert (a ∈ contents M f) as Hia by (by apply head_in). assert (b ∈ contents M f) as Hib by (by apply last_Some_elem_of).
  destruct (sorted_ends vlt _ a b e Hs Ha Hb He) as [H1 H2]. split; [auto|]. rewrite Es, El, !klt_ekey by auto. unfold vlt in *. split.
  - destruct H1 as [-> |H1]; [rewrite ikey_cmp_refl; lia|]. apply ikey_cmp_antisym in H1. lia.
  - destruct H2 as [-> |H2]; [rewrite ikey_cmp_refl; lia|]. apply ikey_cmp_antisym in H2. lia.
Qed.

Lemma not_klt_lex a b : fits_version a -> fits_version b -> ~ klt_ le (ekey a) (ekey b) -> lex (v_key b) (v_key a) <= 0.
Proof.
  intros Ha Hb. rewrite klt_ekey by done. unfold vlt. rewrite ikey_cmp_lt. intros H. rewrite lex_antisym.
  destruct (Z.le_gt_cases 0 (lex (v_key a) (v_key b))); [lia|]. destruct H. by left.
Qed.

(** The user keys of a file lie in its range of user keys. *)
Lemma file_user_range M f e : file_ok M f -> e ∈ contents M f ->
  exists s b, ExtractUserKey (smallest f) = Some s /\ ExtractUserKey (largest f) = Some b /\
    lex s (v_key e) <= 0 /\ lex (v_key e) b <= 0.
Proof.
  intros Hok He. destruct (file_range M f e Hok He) as (Hf & H1 & H2).
  destruct Hok as [_ Hfits Hs (a & Ha & Es) (b & Hb & El)]. rewrite Forall_forall in Hfits.
  exists (v_key a), (v_key b). rewrite Es, El in *. unfold ekey. rewrite !ExtractUserKey_ikey. split_and!; [done|done| |].
  - apply not_klt_lex; [done| |done]. by apply Hfits, head_in.
  - apply not_klt_lex; [by apply Hfits, last_Some_elem_of|done|done].
Qed.

Lemma InternalKey_Encode_ikey k : is_ikey k -> InternalKey_Encode k = Some k.
Proof.
  intros (u & n & -> & _). unfold InternalKey_Encode. rewrite bool_decide_eq_false_2; [done|].
  intros E. apply (f_equal length) in E. rewrite length_ikey in E. simpl in E. lia.
Qed.

Lemma icmp_ikey a b : is_ikey a -> is_ikey b -> exists c, icmp le a b = Some c /\ (c < 0 <-> klt_ le a b) /\ (c = 0 <-> a = b).
Proof.
  intros Ha Hb. unfold icmp. rewrite !InternalKey_Encode_ikey by done. cbn [mbind option_bind].
  destruct (Compare_total (Comparator := InternalKey_Comparator le) a b Ha Hb) as [c E]. change (InternalKey_Compare le a b = Some c) in E.
  exists c. rewrite E. split; [done|]. split.
  - split; [intros Hc; by exists c|]. intros (c' & E' & Hc'). change (InternalKey_Compare le a b = Some c') in E'. congruence.
  - rewrite <-(Compare_eq (Comparator := InternalKey_Comparator le) a b Ha Hb). change (Compare a b) with (InternalKey_Compare le a b). rewrite E. split; congruence.
Qed.

(** A file does not end before it starts. *)
Lemma file_ordered M f : file_ok M f -> ~ klt_ le (largest f) (smallest f).
Proof.
  intros Hf. destruct (file_keys M f Hf) as [Ks Kl]. destruct (fo_smallest _ _ Hf) as (e & He & _). apply head_in in He.
  destruct (file_range M f e Hf He) as (He1 & H1 & H2). pose proof (ekey_ikey e He1) as Ke.
  intros Hlt. destruct H1. eapply (le_klt_trans _ (largest f)); done.
Qed.

Lemma apart_sorted M files : Forall (file_ok M) files -> StronglySorted by_smallest files -> NoDup files ->
  (forall f g, f ∈ files -> g ∈ files -> f <> g -> apart f g \/ apart g f) -> StronglySorted apart files.
Proof.
  intros Hok Hs Hnd Hap. rewrite Forall_forall in Hok. induction Hs as [|f files Hs IH Hf]; [constructor|]. apply NoDup_cons in Hnd as [Hnin Hnd].
  constructor; [apply IH; [set_solver|done|intros; apply Hap; set_solver]|]. rewrite Forall_forall in Hf |- *. intros g Hg.
  assert (f <> g) as Hne by (by intros ->). destruct (Hap f g) as [|H]; [by left|by right|done|done|]. exfalso. unfold apart in H.
  assert (file_ok M f) as Of by (apply Hok; by left). assert (file_ok M g) as Og by (apply Hok; by right).
  destruct (file_keys M f Of) as [Kfs Kfl]. destruct (file_keys M g Og) as [Kgs Kgl].
  assert (klt_ le (smallest g) (smallest f)) as Hlt by (eapply (le_klt_trans _ (largest g)); try done; by apply (file_ordered M)).
  destruct (Hf g Hg) as [H'|[E _]]; [|rewrite E in Hlt; by apply (klt_irrefl (C := InternalKey_Comparator le)) in Hlt].
  apply (klt_irrefl (C := InternalKey_Comparator le) (smallest f)); [done|]. by apply (klt_trans _ (smallest g)).
Qed.

Lemma NoDup_of_numbers files : NoDup (number <$> files) -> NoDup files.
Proof. apply NoDup_fmap_1. Qed.

(** ** FindFile *)
Lemma FindFile_loop_spec files key : is_ikey key -> Forall (fun f => is_ikey (largest f)) files -> zlen files < 2 ^ 31 ->
  (forall i j f g, files !! i = Some f -> files !! j = Some g -> (i < j)%nat -> klt_ le (largest f) (largest g)) ->
  forall fuel left right, 0 <= left <= right -> right <= zlen files -> right - left < Z.of_nat fuel ->
  (forall j f, files !! j = Some f -> Z.of_nat j < left -> klt_ le (largest f) key) ->
  (forall j f, files !! j = Some f -> right <= Z.of_nat j -> ~ klt_ le (largest f) key) ->
  exists i, FindFile_loop le fuel files key left right = Some i /\ 0 <= i <= zlen files /\
    (forall j f, files !! j = Some f -> Z.of_nat j < i -> klt_ le (largest f) key) /\
    (forall j f, files !! j = Some f -> i <= Z.of_nat j -> ~ klt_ le (largest f) key).
Proof.
  intros Hk Hkeys Hn Hsort. induction fuel as [|fuel IH]; intros left right Hlr Hr Hf Hbelow Habove; [lia|]. cbn [FindFile_loop].
  destruct (Z.ltb_spec left right).
  - rewrite (wrap_fits 32 (left + right)) by (unfold fits_unsigned; lia). set (mid := (left + right) / 2).
    assert (left <= mid < right) as Hmid by (subst mid; zdiv_lia).
    destruct (lookup_lt_is_Some_2 files (Z.to_nat mid)) as [f Hfm]; [lia|]. rewrite Hfm. cbn [mbind option_bind].
    rewrite Forall_lookup in Hkeys. rewrite InternalKey_Encode_ikey by (by eapply Hkeys). cbn [mbind option_bind].
    destruct (Compare_total (Comparator := InternalKey_Comparator le) (largest f) key) as [c E]; [by eapply Hkeys|done|].
    change (InternalKey_Compare le (largest f) key = Some c) in E. rewrite E. cbn [mbind option_bind].
    destruct (Z.ltb_spec c 0) as [Hc|Hc].
    + assert (klt_ le (largest f) key) as Hlt by (by exists c). rewrite wrap_fits by (unfold fits_unsigned; lia).
      apply IH; [lia|done|lia| |done]. intros j g Hg Hj. destruct (decide (j = Z.to_nat mid)) as [-> |Hne]; [congruence|].
      apply (klt_trans _ (largest f)); try done; [by eapply Hkeys|by eapply Hkeys|]. eapply Hsort; [done|done|lia].
    + assert (~ klt_ le (largest f) key) as Hge.
      { intros (c' & E' & Hc'). change (InternalKey_Compare le (largest f) key = Some c') in E'. rewrite E in E'. injection E' as <-. lia. }
      apply IH; [lia|lia|lia|done|]. intros j g Hg Hj. destruct (decide (j = Z.to_nat mid)) as [-> |Hne]; [congruence|].
      intros Hlt. apply Hge. apply (klt_trans _ (largest g)); try done; [by eapply Hkeys|by eapply Hkeys|]. eapply Hsort; [done|done|lia].
  - assert (left = right) as -> by lia. exists right. by split_and!; try lia.
Qed.

Lemma apart_largest M files : Forall (file_ok M) files -> StronglySorted apart files ->
  forall i j f g, files !! i = Some f -> files !! j = Some g -> (i < j)%nat -> klt_ le (largest f) (largest g).
Proof.
  intros Hok Hs i j f g Hi Hj Hij. rewrite Forall_lookup in Hok.
  pose proof (StronglySorted_lookup _ _ _ _ _ _ Hs Hij Hi Hj) as Hfg. unfold apart in Hfg.
  destruct (file_keys M f (Hok _ _ Hi)) as [_ Kf]. destruct (file_keys M g (Hok _ _ Hj)) as [Ks Kl].
  destruct (fo_smallest _ _ (Hok _ _ Hj)) as (e & He & _). apply head_in in He.
  destruct (file_range M g e (Hok _ _ Hj) He) as (He1 & H1 & H2).
  pose proof (ekey_ikey e He1) as Ke.
  eapply (klt_le_trans _ (smallest g)); [done|done|done|done|]. intros Hlt.
  destruct H1. eapply (le_klt_trans _ (largest g)); done.
Qed.

Lemma FindFile_spec M files key : Forall (file_ok M) files -> StronglySorted apart files -> zlen files < 2 ^ 31 -> is_ikey key ->
  exists i, FindFile le files key = Some i /\ 0 <= i <= zlen files /\
    (forall j f, files !! j = Some f -> Z.of_nat j < i -> klt_ le (largest f) key) /\
    (forall j f, files !! j = Some f -> i <= Z.of_nat j -> ~ klt_ le (largest f) key).
Proof.
  intros Hok Hs Hn Hk. unfold FindFile. rewrite wrap_fits by (unfold fits_unsigned; lia). apply FindFile_loop_spec; try done; try lia.
  - eapply Forall_impl; [exact Hok|]. intros f Hf. by apply (file_keys M).
  - by eapply apart_largest.
  - intros j f Hj Hge. apply lookup_lt_Some in Hj. lia.
Qed.

(** ** Searching a level *)
Lemma all_versions_in M files e : e ∈ all_versions M files <-> exists f, f ∈ files /\ e ∈ contents M f.
Proof.
  unfold all_versions. rewrite elem_of_concat. split.
  - intros (l & He & (f & -> & Hf)%list_elem_of_fmap). eauto.
  - intros (f & Hf & He). exists (contents M f). split; [done|by apply list_elem_of_fmap_2].
Qed.

(** Later files of a sorted level cannot answer better than the one found. *)
Lemma level_found M files i f u s : Forall (file_ok M) files -> StronglySorted apart files -> 0 <= s < 2 ^ 56 ->
  files !! i = Some f -> (forall j g, files !! j = Some g -> (j < i)%nat -> klt_ le (largest g) (lookup_key u s)) ->
  ~ klt_ le (largest f) (lookup_key u s) ->
  (unseen u s (contents M f) -> unseen u s (all_versions M files)) /\
  (forall e, newest u s (contents M f) e -> newest u s (all_versions M files) e).
Proof.
  intros Hok Hs Hu Hi Hbefore Hat. pose proof (list_elem_of_lookup_2 _ _ _ Hi) as Hfin.
  rewrite Forall_lookup in Hok. pose proof (Hok _ _ Hi) as Hf. pose proof (fo_fits _ _ Hf) as Hfits. rewrite Forall_forall in Hfits.
  destruct (fo_largest _ _ Hf) as (e1 & He1 & El). apply last_Some_elem_of in He1. rewrite El in Hat.
  rewrite klt_lookup in Hat by (auto || done).
  (* a visible version elsewhere in the level is beaten by the last one of [f] *)
  assert (forall e, e ∈ all_versions M files -> v_key e = u -> e.1 <= s -> e ∈ contents M f \/ v_key e1 = u /\ e.1 <= e1.1 /\ e1.1 <= s) as Hcase.
  { intros e (g & Hg & He)%all_versions_in Hk Hle. apply list_elem_of_lookup in Hg as [j Hj].
    destruct (file_range M g e (Hok _ _ Hj) He) as (Hfe & H1 & H2). pose proof (file_keys M g (Hok _ _ Hj)) as [Kgs Kgl].
    pose proof (ekey_ikey e Hfe) as Ke. pose proof (lookup_key_ikey u s Hu) as Ku.
    destruct (Nat.lt_total j i) as [Hji|[-> |Hij]].
    - exfalso. specialize (Hbefore j g Hj Hji).
      assert (klt_ le (ekey e) (lookup_key u s)) as Hlt by (eapply (le_klt_trans _ (largest g)); done).
      apply klt_lookup in Hlt; [|done|done]. rewrite Hk, lex_refl in Hlt. lia.
    - left. congruence.
    - right. pose proof (StronglySorted_lookup _ _ _ _ _ _ Hs Hij Hi Hj) as Hap. unfold apart in Hap. rewrite El in Hap.
      assert (klt_ le (ekey e1) (ekey e)) as Hlt by (eapply (klt_le_trans _ (smallest g)); try done; by apply ekey_ikey, Hfits).
      apply klt_ekey in Hlt; [|auto|done]. unfold vlt in Hlt. rewrite ikey_cmp_lt, Hk in Hlt.
      destruct Hlt as [Hlt|[Hk1 Ht]]; [destruct Hat; by left|]. split; [done|]. split; [by apply v_tag_lt|].
      destruct (Z.le_gt_cases e1.1 s); [done|]. destruct Hat. right. split; [done|lia]. }
  split.
  - intros Hun e He Hk Hle. destruct (Hcase e He Hk Hle) as [Hin|(Hk1 & _ & H1)]; [by apply (Hun e)|by apply (Hun e1)].
  - intros e (He & Hk & Hle & Hmax). split; [apply all_versions_in; eauto|]. split; [done|]. split; [done|].
    intros e' He' Hk' Hle'. destruct (Hcase e' He' Hk' Hle') as [Hin|(Hk1 & H1 & H2)]; [auto|].
    specialize (Hmax e1 He1 Hk1 H2). lia.
Qed.

Lemma level_search M (level : Z) files u s : Forall (file_ok M) files -> StronglySorted apart files -> zlen files < 2 ^ 31 ->
  0 < level -> 0 <= s < 2 ^ 56 ->
  exists fs, files_to_search le level files (lookup_key u s) u = Some fs /\ Forall (fun f => f ∈ files) fs /\
    ((forall f, f ∈ fs -> unseen u s (contents M f)) -> unseen u s (all_versions M files)) /\
    (forall f e, f ∈ fs -> newest u s (contents M f) e -> newest u s (all_versions M files) e) /\
    (forall f g, f ∈ fs -> g ∈ fs -> f = g).
Proof.
  intros Hok Hs Hn Hlv Hu. pose proof (lookup_key_ikey u s Hu) as Ku. unfold files_to_search.
  rewrite (proj2 (Z.eqb_neq level 0)) by lia. destruct (FindFile_spec M files _ Hok Hs Hn Ku) as (i & -> & Hi & Hbelow & Habove).
  cbn [mbind option_bind]. destruct (Z.leb_spec (zlen files) i) as [Hge|Hlt].
  { exists []. split; [done|]. split; [done|]. split; [|by split; [intros f e ?%not_elem_of_nil|intros f g ?%not_elem_of_nil]].
    intros _ e (g & Hg & He)%all_versions_in Hk Hle. apply list_elem_of_lookup in Hg as [j Hj]. rewrite Forall_lookup in Hok.
    destruct (file_range M g e (Hok _ _ Hj) He) as (Hfe & H1 & H2). pose proof (file_keys M g (Hok _ _ Hj)) as [Kgs Kgl].
    assert (klt_ le (ekey e) (lookup_key u s)) as Hlt.
    { eapply (le_klt_trans _ (largest g)); try done; [by apply ekey_ikey|]. apply (Hbelow j); [done|]. apply lookup_lt_Some in Hj. lia. }
    apply klt_lookup in Hlt; [|done|done]. rewrite Hk, lex_refl in Hlt. lia. }
  destruct (lookup_lt_is_Some_2 files (Z.to_nat i)) as [f Hf]; [lia|]. rewrite Hf. cbn [mbind option_bind].
  pose proof Hok as Hok'. rewrite Forall_lookup in Hok'. pose proof (Hok' _ _ Hf) as Hfok.
  destruct (fo_smallest _ _ Hfok) as (e0 & He0 & _). apply head_in in He0.
  destruct (file_user_range M f e0 Hfok He0) as (sm & b & Esm & _ & _). rewrite Esm. cbn [mbind option_bind].
  destruct (level_found M files (Z.to_nat i) f u s Hok Hs Hu Hf) as [Hun Hnew].
  { intros j g Hj Hji. apply (Hbelow j); [done|lia]. }
  { apply (Habove (Z.to_nat i)); [done|lia]. }
  unfold Bytewise_Compare. rewrite Slice_compare_lex. destruct (Z.ltb_spec (lex u sm) 0) as [Hlx|Hlx].
  - exists []. split; [done|]. split; [done|]. split; [|by split; [intros ? ? ?%not_elem_of_nil|intros ? ? ?%not_elem_of_nil]].
    intros _. apply Hun. intros e He Hk _. destruct (file_user_range M f e Hfok He) as (sm' & b' & Esm' & _ & H1 & _).
    rewrite Esm in Esm'. injection Esm' as <-. rewrite lex_antisym, Hk in H1. lia.
  - exists [f]. split; [done|]. split; [constructor; [by eapply list_elem_of_lookup_2|done]|]. split; [|split].
    + intros H. apply Hun, H. by left.
    + intros g e ->%list_elem_of_singleton. apply Hnew.
    + intros g g' ->%list_elem_of_singleton ->%list_elem_of_singleton. done.
Qed.

Lemma level0_search M files u : Forall (file_ok M) files -> NoDup (number <$> files) ->
  exists fs, level0_files u files = Some fs /\ NoDup (number <$> fs) /\ Forall (fun f => f ∈ files) fs /\
    (forall f e, f ∈ files -> e ∈ contents M f -> v_key e = u -> f ∈ fs).
Proof.
  induction 1 as [|f files Hf Hfs IH]; intros Hnd; cbn [level0_files].
  { exists []. split_and!; [done|done|done|]. by intros f e ?%not_elem_of_nil. }
  cbn in Hnd. apply NoDup_cons in Hnd as [Hnin Hnd]. destruct (IH Hnd) as (fs & E & Hnd' & Hsub & Hall).
  destruct (fo_smallest _ _ Hf) as (e0 & He0 & _). apply head_in in He0.
  destruct (file_user_range M f e0 Hf He0) as (sm & b & Esm & Eb & _). rewrite Esm, Eb. cbn [mbind option_bind]. rewrite E. cbn [mbind option_bind].
  assert (Forall (fun g => g ∈ f :: files) fs) as Hsub' by (eapply Forall_impl; [exact Hsub|]; intros; by right).
  eexists. split; [done|]. unfold Bytewise_Compare. rewrite !Slice_compare_lex.
  destruct ((0 <=? lex u sm) && (lex u b <=? 0)) eqn:Hr.
  - split; [cbn; constructor; [|done]; intros (g & En & Hg)%list_elem_of_fmap; rewrite Forall_forall in Hsub; apply Hnin; rewrite En; apply list_elem_of_fmap_2; auto|].
    split; [constructor; [by left|done]|]. intros g e [-> |Hg]%elem_of_cons He Hk; [by left|right; eauto].
  - split; [done|]. split; [done|]. intros g e [-> |Hg]%elem_of_cons He Hk; [|eauto].
    destruct (file_user_range M f e Hf He) as (sm' & b' & Esm' & Eb' & H1 & H2). rewrite Esm in Esm'. rewrite Eb in Eb'. injection Esm' as <-. injection Eb' as <-.
    rewrite Hk in H1, H2. rewrite lex_antisym in H1. apply andb_false_iff in Hr as [?%Z.leb_gt|?%Z.leb_gt]; lia.
Qed.
End levels.

(** ** Searching the levels *)
Section get.
Context (le : bool) {policy : option FilterPolicy} {T : Type} `{!TableReader T} `{!TableSource le policy T} (options : ReadOptions).
Context (M : gmap Z (list version)) (F : gmap Z (Z * list (list Z * list Z))).
Implicit Types (f g : FileMetaData) (files fs : list FileMetaData) (levels : list (list FileMetaData)) (r : search (T := T)).

(** The table file of [f] has its versions. *)
Definition stored f : Prop := F !! number f = Some (file_size f, entry_of <$> contents M f).

Context (u : list Z) (s : Z) (Hs : 0 <= s < 2 ^ 56) (Hkey : fkey policy (lookup_key u s)).

(** How a search that stops with a status is right about some versions. *)
Definition right_answer (vs : list version) (c : Code) (value : list Z) : Prop :=
  (c = kOk -> exists e, newest u s vs e /\ v_result e = Some value) /\
  (c = kNotFound -> exists e, newest u s vs e /\ v_result e = None).

Lemma ParseInternalKey_total k : is_Some (ParseInternalKey le k).
Proof.
  unfold ParseInternalKey. destruct (Z.ltb_spec (zlen k) 8) as [|Hk]; [by eexists|].
  destruct (split_at k (length k - 8)) as (a & b & -> & Ha); [lia|]. rewrite length_app in *.
  replace (length a + length b - 8)%nat with (length a) by lia. rewrite drop_app_length.
  assert (length b = 8%nat) as Hb by lia. do 8 (destruct b as [|? b]; [done|]). destruct b; [|done].
  assert (exists n, DecodeFixed64 le [z; z0; z1; z2; z3; z4; z5; z6] = Some n) as [n ->] by (destruct le; eexists; reflexivity).
  cbn [mbind option_bind]. replace (Z.of_nat (length a + length [z; z0; z1; z2; z3; z4; z5; z6]) - 8) with (zlen a) by (cbn [length]; lia).
  rewrite rd_bytes_0 by done. cbn [mbind option_bind]. destruct (_ <=? _); by eexists.
Qed.

Lemma SaveValue_entry e value : fits_version e -> SaveValue le u value (ekey e) (v_value e) =
  Some (if bool_decide (v_key e = u) then match v_result e with Some v => (SFound, v) | None => (SDeleted, value) end else (SNotFound, value)).
Proof.
  intros He. pose proof (v_type_range e) as Ht. destruct He as (Hs' & _). unfold SaveValue, ekey, v_tag.
  rewrite ParseInternalKey_ikey by lia. rewrite (proj2 (Z.leb_le _ _)) by (unfold kTypeValue; lia). cbn [mbind option_bind pk_user_key pk_type].
  unfold Bytewise_Compare. rewrite Slice_compare_lex. case_bool_decide as Hk.
  - rewrite (proj2 (Z.eqb_eq _ _)) by (by apply lex_eq). by destruct e as [q [k v|k]].
  - rewrite (proj2 (Z.eqb_neq _ _)); [done|]. by rewrite lex_eq.
Qed.

Lemma files_to_search_length level files ikey user_key fs : files_to_search le level files ikey user_key = Some fs -> zlen fs <= zlen files.
Proof.
  unfold files_to_search. destruct (level =? 0).
  - destruct (level0_files user_key files) as [l|] eqn:E; [|done]. cbn [mbind option_bind]. intros [= <-].
    unfold NewestFirst. rewrite (merge_sort_Permutation newer l). revert l E. induction files as [|f files IH]; intros l E; cbn [level0_files] in E; [by injection E as <-|].
    destruct (ExtractUserKey (smallest f)); [|done]. cbn [mbind option_bind] in E. destruct (ExtractUserKey (largest f)); [|done]. cbn [mbind option_bind] in E.
    destruct (level0_files user_key files) as [l'|]; [|done]. cbn [mbind option_bind] in E. specialize (IH l' eq_refl). injection E as <-.
    destruct (_ && _); len_lia.
  - destruct (FindFile le files ikey) as [i|]; [|done]. cbn [mbind option_bind]. destruct (zlen files <=? i); [intros [= <-]; len_lia|].
    destruct files as [|f files]; [done|]. destruct (_ !! _); [|done]. cbn [mbind option_bind]. destruct (ExtractUserKey _); [|done].
    cbn [mbind option_bind]. intros [= <-]. destruct (_ <? 0); len_lia.
Qed.

(** A status that a read of one of the tables gives while they hold [F]. *)
Definition table_status files (c : Code) : Prop :=
  exists f t0 b0 saved t1, f ∈ files /\ TS_holds t0 b0 F /\ TS_Get options (number f) (file_size f) (lookup_key u s) t0 = Some (c, saved, t1).

Lemma table_status_sub files files' c : table_status files c -> files ⊆ files' -> table_status files' c.
Proof. intros (f & t0 & b0 & sv & t1 & Hf & E) Hsub. exists f, t0, b0, sv, t1. auto. Qed.

Lemma get_files_spec (level : Z) fs : forall r b, TS_holds (sr_tables r) b F -> zlen fs <= b -> Forall (file_ok M) fs -> Forall stored fs ->
  exists res r', get_files le options (lookup_key u s) u level fs r = Some (res, r') /\ TS_holds (sr_tables r') (b - zlen fs) F /\
    match res with
    | None => (forall f, f ∈ fs -> unseen u s (contents M f)) /\ sr_value r' = sr_value r
    | Some c =>
        (c = kOk \/ c = kNotFound /\ sr_value r' = sr_value r) /\ (exists pre f post, fs = pre ++ f :: post /\
          (forall g, g ∈ pre -> unseen u s (contents M g)) /\ right_answer (contents M f) c (sr_value r')) \/
        c <> kOk /\ c <> kNotFound /\ table_status fs c
    end.
Proof using Hs Hkey.
  induction fs as [|f fs IH]; intros r b Ht Hb Hok Hst; cbn [get_files].
  { exists None, r. split_and!; [done|by rewrite Z.sub_0_r| |done]. by intros f ?%not_elem_of_nil. }
  apply Forall_cons in Hok as [Hf Hok]. apply Forall_cons in Hst as [Hsf Hst]. set (stats := charge_seek r).
  destruct (TS_Get_spec options (sr_tables r) b F (number f) (file_size f) (entry_of <$> contents M f) (lookup_key u s) Ht)
    as (c & saved & t' & Eget & Ht' & Hnf & Hans); [cbn [length] in Hb; lia|done|by apply lookup_key_ikey|done|]. rewrite Eget. cbn [mbind option_bind].
  assert (TS_holds t' (b - zlen (f :: fs)) F) as Hstop by (eapply TS_less; [|exact Ht']; len_lia).
  destruct (Status_ok c) eqn:Ec.
  2:{ assert (exists st v, match saved with Some (k, v) => SaveValue le u (sr_value r) k v | None => Some (SNotFound, sr_value r) end = Some (st, v))
        as (st & v & ->).
      { destruct saved as [[k v]|]; [|by eexists _, _]. unfold SaveValue. destruct (ParseInternalKey_total k) as [pk ->]. cbn [mbind option_bind].
        destruct (match pk with None => _ | Some _ => _ end). by eexists _, _. }
      cbn [mbind option_bind negb]. eexists _, _. split; [done|]. split; [done|]. right. split; [by intros ->|]. split; [done|].
      exists f, (sr_tables r), b, saved, t'. split; [by left|done]. }
  apply Status_ok_eq in Ec as ->. specialize (Hans eq_refl).
  pose proof (answers_versions le _ u s saved (fo_fits _ _ Hf) (fo_sorted _ _ Hf) Hs Hans) as Hav.
  assert (unseen u s (contents M f) -> exists res r', get_files le options (lookup_key u s) u level fs (mkSearch (sr_value r) stats (Some (f, level)) t') = Some (res, r') /\
    TS_holds (sr_tables r') (b - zlen (f :: fs)) F /\ match res with
    | None => (forall g, g ∈ f :: fs -> unseen u s (contents M g)) /\ sr_value r' = sr_value r
    | Some c =>
        (c = kOk \/ c = kNotFound /\ sr_value r' = sr_value r) /\ (exists pre g post, f :: fs = pre ++ g :: post /\
          (forall g, g ∈ pre -> unseen u s (contents M g)) /\ right_answer (contents M g) c (sr_value r')) \/
        c <> kOk /\ c <> kNotFound /\ table_status (f :: fs) c
    end) as Hgo.
  { intros Hun. destruct (IH (mkSearch (sr_value r) stats (Some (f, level)) t') (b - 1)) as (res & r' & E & Ht2 & H); [done|cbn [length] in Hb; lia|done..|].
    exists res, r'. split; [done|]. split; [eapply TS_less; [|exact Ht2]; len_lia|]. destruct res as [c|].
    - destruct H as [[Hc (pre & g & post & -> & Hpre & Hg)]|(? & ? & Hts)]; [left|right; split_and!; [done..|]].
      + split; [done|]. exists (f :: pre), g, post. split; [done|]. split; [|done]. intros g' [-> |?]%elem_of_cons; auto.
      + eapply table_status_sub; [done|]. intros x Hx. by right.
    - destruct H as [H Hv]. split; [|done]. intros g [-> |?]%elem_of_cons; auto. }
  destruct saved as [en|].
  - destruct Hav as (e & -> & He & Hnew & Hun). cbn [entry_of fst snd]. rewrite SaveValue_entry by done. case_bool_decide as Hk; cbn [mbind option_bind negb].
    + change (Status_ok kOk) with true. cbv iota beta. destruct (v_result e) as [v|] eqn:Er; cbn [negb]; eexists _, _; (split; [done|]); (split; [done|]);
        left; (split; [by auto|]); exists [], f, fs; (split; [done|]); (split; [by intros g ?%not_elem_of_nil|]); split; intros Hc'; try done; exists e; split; auto.
    + change (Status_ok kOk) with true. cbv iota beta. by apply Hgo, Hun.
  - cbn [mbind option_bind]. change (Status_ok kOk) with true. cbv iota beta. cbn [negb]. by apply Hgo.
Qed.

Lemma all_versions_app fs fs' : all_versions M (fs ++ fs') = all_versions M fs ++ all_versions M fs'.
Proof. unfold all_versions. by rewrite fmap_app, concat_app. Qed.

Lemma newest_app_l vs vs' e : newest u s vs e -> (forall e', e' ∈ vs' -> v_key e' = u -> e'.1 <= e.1) -> newest u s (vs ++ vs') e.
Proof.
  intros (H1 & H2 & H3 & H4) H. split; [set_solver|]. split; [done|]. split; [done|].
  intros e' [He'|He']%elem_of_app Hk Hle; [auto|by apply H].
Qed.

Lemma newest_app_r vs vs' e : unseen u s vs -> newest u s vs' e -> newest u s (vs ++ vs') e.
Proof.
  intros H (H1 & H2 & H3 & H4). split; [set_solver|]. split; [done|]. split; [done|].
  intros e' [He'|He']%elem_of_app Hk Hle; [|auto]. by destruct (H e' He' Hk).
Qed.

Lemma unseen_app vs vs' : unseen u s vs -> unseen u s vs' -> unseen u s (vs ++ vs').
Proof. intros H H' e [He|He]%elem_of_app; [by apply H|by apply H']. Qed.

(** The verdict of a whole search of [files], which hold [vs]: [old] is the
    caller's value. *)
Definition verdict (vs : list version) files (old : list Z) (c : Code) (value : list Z) : Prop :=
  (c = kOk -> exists e, newest u s vs e /\ v_result e = Some value) /\
  (c = kNotFound -> (unseen u s vs \/ exists e, newest u s vs e /\ v_result e = None) /\ value = old) /\
  (c = kOk \/ c = kNotFound \/ table_status files c).

Lemma verdict_here vs vs' files old c value : c = kOk \/ c = kNotFound /\ value = old -> right_answer vs c value ->
  (forall e e', e ∈ vs -> e' ∈ vs' -> v_key e = v_key e' -> e'.1 < e.1) -> verdict (vs ++ vs') files old c value.
Proof.
  intros Hcase [H1 H2] Hsup. assert (forall e, newest u s vs e -> newest u s (vs ++ vs') e) as Hn.
  { intros e He. apply newest_app_l; [done|]. intros e' He' Hk. destruct He as (He & Hk' & _). specialize (Hsup e e' He He'). rewrite Hk, Hk' in Hsup. specialize (Hsup eq_refl). lia. }
  destruct Hcase as [-> |[-> ->]]; (split; [|split]); auto; intros Hc; try done.
  - destruct (H1 Hc) as (e & ? & ?). eauto.
  - destruct (H2 Hc) as (e & ? & ?). split; [right; eauto|done].
Qed.

Lemma verdict_later vs vs' files files' old c value : unseen u s vs -> verdict vs' files' old c value -> verdict (vs ++ vs') (files ++ files') old c value.
Proof.
  intros Hun (H1 & H2 & H3). split_and!; [intros Hc..|].
  - destruct (H1 Hc) as (e & ? & ?). eauto using newest_app_r.
  - destruct (H2 Hc) as [[?|(e & ? & ?)] ->]; (split; [|done]); [left; by apply unseen_app|right; eauto using newest_app_r].
  - destruct H3 as [?|[?|?]]; auto. right. right. eapply table_status_sub; [done|]. set_solver.
Qed.

(** One level: its files are searched, then the levels after it. *)
Lemma get_level_step (level : Z) files levels fs r b :
  files_to_search le level files (lookup_key u s) u = Some fs -> Forall (fun f => f ∈ files) fs ->
  Forall (file_ok M) files -> Forall stored files -> TS_holds (sr_tables r) b F -> zlen files <= b ->
  (forall f g, f ∈ files -> g ∈ concat levels -> supersedes M f g) ->
  ((forall f, f ∈ fs -> unseen u s (contents M f)) -> unseen u s (all_versions M files)) ->
  (forall pre f post e, fs = pre ++ f :: post -> (forall g, g ∈ pre -> unseen u s (contents M g)) ->
     newest u s (contents M f) e -> newest u s (all_versions M files) e) ->
  (forall r', TS_holds (sr_tables r') (b - zlen files) F -> sr_value r' = sr_value r -> exists c r2, get_levels le options (lookup_key u s) u (level + 1) levels r' = Some (c, r2) /\
     TS_holds (sr_tables r2) (b - zlen (concat (files :: levels))) F /\ verdict (all_versions M (concat levels)) (concat levels) (sr_value r) c (sr_value r2)) ->
  exists c r2, get_levels le options (lookup_key u s) u level (files :: levels) r = Some (c, r2) /\
    TS_holds (sr_tables r2) (b - zlen (concat (files :: levels))) F /\ verdict (all_versions M (concat (files :: levels))) (concat (files :: levels)) (sr_value r) c (sr_value r2).
Proof using Hs Hkey.
  intros E Hsub Hok Hst Ht Hb Hsup Hnone Hfound Hnext. cbn [get_levels]. rewrite E. cbn [mbind option_bind].
  rewrite Forall_forall in Hsub, Hok, Hst. pose proof (files_to_search_length _ _ _ _ _ E) as Hfs.
  destruct (get_files_spec level fs r b Ht) as (res & r' & -> & Ht' & Hres); [lia|apply Forall_forall; auto..|].
  cbn [mbind option_bind]. cbn [concat]. rewrite all_versions_app. destruct res as [c|].
  - exists c, r'. split; [done|]. split; [eapply TS_less; [|exact Ht']; len_lia|].
    destruct Hres as [[Hc (pre & f & post & Efs & Hpre & [H1 H2])]|(Hn1 & Hn2 & Hts)].
    2:{ split_and!; [done|done|]. right. right. eapply table_status_sub; [done|]. intros f Hf. apply elem_of_app. auto. }
    assert (right_answer (all_versions M files) c (sr_value r')) as Hra.
    { split; intros Hc'; [destruct (H1 Hc') as (e & ? & ?)|destruct (H2 Hc') as (e & ? & ?)]; exists e; eauto. }
    assert (forall e e', e ∈ all_versions M files -> e' ∈ all_versions M (concat levels) -> v_key e = v_key e' -> e'.1 < e.1) as Hlt.
    { intros e e' (f1 & Hf1 & He)%all_versions_in (g & Hg & He')%all_versions_in. by apply (Hsup f1 g). }
    by apply verdict_here.
  - destruct Hres as [Hres Hval]. destruct (Hnext r') as (c & r2 & -> & Ht2 & Hv); [eapply TS_less; [|exact Ht']; lia|done|]. exists c, r2. split; [done|]. split; [done|]. apply verdict_later; auto.
Qed.

Lemma get_levels_spec levels : forall (level : Z) r b, 0 < level -> Forall (file_ok M) (concat levels) -> Forall stored (concat levels) ->
  Forall (StronglySorted (apart le)) levels -> zlen (concat levels) < 2 ^ 31 ->
  StronglySorted (fun A B => forall f g, f ∈ A -> g ∈ B -> supersedes M f g) levels ->
  TS_holds (sr_tables r) b F -> zlen (concat levels) <= b ->
  exists c r2, get_levels le options (lookup_key u s) u level levels r = Some (c, r2) /\
    TS_holds (sr_tables r2) (b - zlen (concat levels)) F /\ verdict (all_versions M (concat levels)) (concat levels) (sr_value r) c (sr_value r2).
Proof using Hs Hkey.
  induction levels as [|files levels IH]; intros level r b Hlv Hok Hst Hd Hn Hnew Ht Hb.
  { exists kNotFound, r. split; [done|]. split; [by rewrite Z.sub_0_r|]. split; [done|]. split; [|auto]. intros _. split; [|done]. left. by intros e ?%not_elem_of_nil. }
  cbn [concat] in Hok, Hst, Hn. apply Forall_app in Hok as [Hok1 Hok2], Hst as [Hst1 Hst2]. apply Forall_cons in Hd as [Hd1 Hd2].
  cbn [concat] in Hb. rewrite length_app in Hn, Hb. apply StronglySorted_inv in Hnew as [Hnew2 Hnew1].
  destruct (level_search le M level files u s Hok1 Hd1 ltac:(lia) Hlv Hs) as (fs & E & Hsub & H1 & H2 & H3).
  eapply get_level_step; [exact E|done|done|done|exact Ht|lia| |done| |].
  - intros f g Hf (l & Hg & Hl)%elem_of_concat. rewrite Forall_forall in Hnew1. by apply (Hnew1 l).
  - intros pre f post e -> Hpre Hne. apply (H2 f); [set_solver|done].
  - intros r' Ht' <-. destruct (IH (level + 1) r' (b - zlen files)) as (c & r2 & ? & ? & ?); try done; try lia.
    exists c, r2. split; [done|]. split; [|done]. eapply TS_less; [|done]. cbn [concat]. len_lia.
Qed.

Lemma Version_Get_spec v lk junk value t b : levels_ok le M (files_ v) -> Forall stored (concat (files_ v)) -> TS_holds t b F ->
  zlen (concat (files_ v)) <= b ->
  zlen u + 8 < 2 ^ 32 -> new_LookupKey le junk u s = Some lk ->
  exists c value' stats t', Version_Get le options v lk value t = Some (c, value', stats, t') /\ TS_holds t' (b - zlen (concat (files_ v))) F /\
    verdict (all_versions M (concat (files_ v))) (concat (files_ v)) value c value'.
Proof using Hs Hkey.
  intros [[Hlen Hok Hn Hnd Hz Hd Hnew] Hsorted] Hst Ht Hb Hu Elk. unfold Version_Get.
  destruct (lk_parts le junk u s Hu Hs) as (lk' & Elk' & _ & Hik & Huk). rewrite Elk in Elk'. injection Elk' as <-. rewrite Hik, Huk. fold (lookup_key u s).
  assert (exists c r2, get_levels le options (lookup_key u s) u 0 (files_ v) (mkSearch value (mkStats None (-1)) None t) = Some (c, r2) /\
    TS_holds (sr_tables r2) (b - zlen (concat (files_ v))) F /\ verdict (all_versions M (concat (files_ v))) (concat (files_ v)) value c (sr_value r2)) as (c & r2 & -> & Ht2 & Hv);
    [|cbn [mbind option_bind]; eexists _, _, _, _; split; [done|]; by split].
  destruct (files_ v) as [|files levels]; [done|]. cbn [concat] in *.
  assert (Forall (StronglySorted (apart le)) levels) as Hd'.
  { apply Forall_lookup. intros i A HA. assert (A ⊆ concat levels) as Hsub by (intros f Hf; apply elem_of_concat; eauto using list_elem_of_lookup_2).
    apply (apart_sorted le M).
    - apply Forall_app in Hok as [_ Hok]. rewrite Forall_forall in Hok |- *. auto.
    - rewrite Forall_lookup in Hsorted. apply (Hsorted (Datatypes.S i)). done.
    - rewrite fmap_app, NoDup_app in Hnd. destruct Hnd as (_ & _ & Hnd). by apply NoDup_of_numbers, (concat_NoDup _ _ _ HA) in Hnd.
    - intros f g. by apply (Hd i). }
  assert (forall f g, f ∈ files -> g ∈ concat levels -> supersedes M f g) as Hnew1.
  { intros f g Hf (B & Hg & [j HB]%list_elem_of_lookup)%elem_of_concat. by apply (Hnew 0%nat (Datatypes.S j) files B); [lia|..]. }
  assert (StronglySorted (fun A B => forall f g, f ∈ A -> g ∈ B -> supersedes M f g) levels) as Hnew2.
  { apply StronglySorted_intro. intros i j A B Hij HA HB f g. by apply (Hnew (Datatypes.S i) (Datatypes.S j) A B); [lia|..]. }
  apply Forall_app in Hok as [Hok1 Hok2], Hst as [Hst1 Hst2]. rewrite length_app in Hn, Hb. rewrite fmap_app in Hnd.
  apply NoDup_app in Hnd as (Hnd & _ & _).
  destruct (level0_search le M files u Hok1 Hnd) as (fs & E & Hnd' & Hsub & Hall).
  assert (NewestFirst fs ≡ₚ fs) as HP by apply merge_sort_Permutation.
  eapply (get_level_step 0 files levels (NewestFirst fs) (mkSearch value (mkStats None (-1)) None t) b); try done.
  - unfold files_to_search. rewrite Z.eqb_refl, E. done.
  - by rewrite HP.
  - lia.
  - intros H e (f & Hf & He)%all_versions_in Hk. apply (H f); [rewrite HP; eauto|done|done].
  - intros pre f post e Efs Hpre (He & Hk & Hle & Hmax). split; [apply all_versions_in; exists f; split; [|done]; rewrite Forall_forall in Hsub; apply Hsub; rewrite <-HP, Efs; set_solver|].
    split; [done|]. split; [done|]. intros e' (g & Hg & He')%all_versions_in Hk' Hle'.
    assert (g ∈ NewestFirst fs) as Hin by (rewrite HP; eauto). rewrite Efs in Hin. apply elem_of_app in Hin as [Hin|[-> |Hin]%elem_of_cons]; [|auto|].
    + by destruct (Hpre g Hin e' He' Hk').
    + assert (number g < number f) as Hgf.
      { assert (StronglySorted newer (NewestFirst fs)) as Hsort by (apply StronglySorted_merge_sort; apply _).
        assert (NoDup (number <$> NewestFirst fs)) as Hnd2 by (by rewrite HP).
        rewrite Efs in Hsort, Hnd2. apply StronglySorted_app in Hsort as (_ & _ & Hsort). apply StronglySorted_inv in Hsort as [_ Hsort].
        rewrite Forall_forall in Hsort. specialize (Hsort g Hin). unfold newer in Hsort.
        rewrite fmap_app in Hnd2. apply NoDup_app in Hnd2 as (_ & _ & Hnd2). cbn in Hnd2. apply NoDup_cons in Hnd2 as [Hnin _].
        destruct (decide (number g = number f)) as [En|]; [|lia]. destruct Hnin. rewrite <-En. by apply list_elem_of_fmap_2. }
      assert (f ∈ files) as Hff by (rewrite Forall_forall in Hsub; apply Hsub; rewrite <-HP, Efs; set_solver).
      specialize (Hz files f g eq_refl Hff Hg Hgf e e' He He'). rewrite Hk, Hk' in Hz. specialize (Hz eq_refl). lia.
  - intros r' Ht' Hv'. cbn [sr_value] in Hv'. subst value. destruct (get_levels_spec levels (0 + 1) r' (b - zlen files)) as (c & r2 & ? & ? & ?); try done; try lia.
    exists c, r2. split; [done|]. split; [|done]. eapply TS_less; [|done]. cbn [concat]. len_lia.
Qed.
End get.

(** ** Theorem *)

(** Tables as sorted lists of entries. *)
Definition sorted_reader (le : bool) : TableReader (gmap Z (Z * list (list Z * list Z))) :=
  fun _ n size k t => '(_, es) ← t !! n; Some (kOk, es !! seek_index (C := InternalKey_Comparator le) es k, t).
#[refine] Definition sorted_tables (le : bool) (policy : option FilterPolicy) : TableSource le policy (gmap Z (Z * list (list Z * list Z))) (TableReader0 := sorted_reader le) := {|
  TS_holds t _ files := t = files;
|}.
Proof.
  - done.
  - intros options t b files n size es k -> _ E _ _. unfold TS_Get, sorted_reader. rewrite E. eexists _, _, _. split; [done|]. split; [done|]. split; [done|]. intros _. by left.
Defined.

(** C13 (version_get_correct) [Version::Get] over table files that hold the
    versions of a well-formed set of levels: it ends without a failed assertion
    whatever the tables answer, after at most as many table reads as there are
    files.  A value it returns is the one of the newest version of the key at
    the snapshot among all files; it says NotFound, and leaves the caller's value
    as it was, only when that version is a deletion or there is none; and any
    other status is one that a read of one of the tables returned, so that the
    answer is determined when no read fails. *)
Theorem version_get_correct (le : bool) policy {T} `{!TableReader T} `{!TableSource le policy T} options M F u s v lk junk value (t : T) b :
  0 <= s < 2 ^ 56 -> fkey policy (lookup_key u s) -> zlen u + 8 < 2 ^ 32 -> new_LookupKey le junk u s = Some lk ->
  levels_ok le M (files_ v) -> Forall (stored M F) (concat (files_ v)) -> TS_holds t b F -> zlen (concat (files_ v)) <= b ->
  exists c value' stats t', Version_Get le options v lk value t = Some (c, value', stats, t') /\
    TS_holds t' (b - zlen (concat (files_ v))) F /\
    let vs := all_versions M (concat (files_ v)) in
    (c = kOk -> exists e, newest u s vs e /\ v_result e = Some value') /\
    (c = kNotFound -> (unseen u s vs \/ exists e, newest u s vs e /\ v_result e = None) /\ value' = value) /\
    (c = kOk \/ c = kNotFound \/ table_status le options F u s (concat (files_ v)) c).
Proof. intros Hs Hk Hu Elk Hl Hst Ht Hb. eapply Version_Get_spec; eauto. Qed.

Definition example_put (n : Z) : version := (n, UPut [107] [n]).
Definition example_delete : version := (2, UDelete [108]).
Definition example_versions : gmap Z (list version) := <[9 := [example_put 5]]> (<[4 := [example_put 3; example_delete]]> ∅).
Definition example_file9 : FileMetaData := mkFile 0 9 50 (ekey (example_put 5)) (ekey (example_put 5)).
Definition example_file4 : FileMetaData := mkFile 0 4 60 (ekey (example_put 3)) (ekey example_delete).
Definition example_levels : Version := mkVersion [[example_file9]; [example_file4]; []; []; []; []; []] None (-1).
Definition example_tables : gmap Z (Z * list (list Z * list Z)) :=
  <[9 := (50, [entry_of (example_put 5)])]> (<[4 := (60, [entry_of (example_put 3); entry_of example_delete])]> ∅).

Lemma example_ok : levels_ok true example_versions (files_ example_levels).
Proof.
  assert (file_ok example_versions example_file9 /\ file_ok example_versions example_file4) as [H9 H4].
  { split; split; try (by eexists); try (eexists; by split); try (repeat constructor; done). }
  split; [split|]; cbn [files_ example_levels].
  - done.
  - do 2 (apply Forall_cons_2; [done|]). apply Forall_nil_2.
  - done.
  - cbn. repeat constructor; set_solver.
  - intros A f g [= <-] ->%list_elem_of_singleton ->%list_elem_of_singleton. lia.
  - intros i A f g HA Hf Hg Hne. destruct i as [|i]; cbn in HA.
    + injection HA as <-. apply list_elem_of_singleton in Hf as ->, Hg as ->. done.
    + do 5 (destruct i as [|i]; cbn in HA; [injection HA as <-; by apply elem_of_nil in Hf|]). done.
  - intros i j A B f g Hij HA HB Hf Hg. destruct i as [|i]; cbn in HA.
    + injection HA as <-. apply list_elem_of_singleton in Hf as ->.
      destruct j as [|[|j]]; [lia| |]; cbn in HB.
      * injection HB as <-. apply list_elem_of_singleton in Hg as ->. intros e e' He He'. cbv in He, He'.
        apply list_elem_of_singleton in He as ->. intros Hk. apply elem_of_cons in He' as [-> | ->%list_elem_of_singleton]; cbn in *; [lia|done].
      * do 5 (destruct j as [|j]; cbn in HB; [injection HB as <-; by apply elem_of_nil in Hg|]). done.
    + do 2 (destruct j as [|j]; [lia|]). cbn in HB.
      do 5 (destruct j as [|j]; cbn in HB; [injection HB as <-; by apply elem_of_nil in Hg|]). done.
  - repeat constructor.
Qed.

Lemma version_get_correct_witness :
  let lk := default (Build_LookupKey [] 0) (new_LookupKey true (fun _ => 0) [107] 4) in
  exists c value' stats t', Version_Get (TableReader0 := sorted_reader true) true default_ReadOptions example_levels lk [] example_tables = Some (c, value', stats, t') /\
    c = kOk /\ value' = [3] /\ t' = example_tables /\
    exists e, newest [107] 4 (all_versions example_versions (concat (files_ example_levels))) e /\ v_result e = Some value'.
Proof.
  intros lk. destruct (version_get_correct (TableReader0 := sorted_reader true) (TableSource0 := sorted_tables true None) true None default_ReadOptions example_versions example_tables [107] 4 example_levels lk (fun _ => 0) []
    example_tables 2) as (c & value' & stats & t' & E & Ht & Hok & _);
    [lia|done|by vm_compute|by vm_compute|exact example_ok|by repeat constructor|done|by vm_compute|].
  exists c, value', stats, t'. split; [exact E|]. vm_compute in E. injection E as <- <- <- <-. split_and!; [done|done|done|by apply Hok].
Defined.
