(* ===== verification/Levels.v ===== *)
(** What applying an edit does to the levels, and where a flushed memtable
    goes: [VersionSet::Builder] and [PickLevelForMemTableOutput] of
    [src/leveldb/db/version_set.cc] keep the invariant of [Version]. *)
From S2P Require Import Prelude Coding Dbformat LdbBase WriteBatch Skiplist Memtable Iterator MemIter Block Filter Format Table TableRead.
From S2P Require Import VersionEdit Version.

Section order.
Context (le : bool).
Implicit Types (f g h : FileMetaData) (files : list FileMetaData).
Notation by_smallest := (by_smallest le).
Notation apart := (apart le).
Notation C := (InternalKey_Comparator le).

Definition keyed f : Prop := is_ikey (smallest f) /\ is_ikey (largest f).
Definition wle f g : Prop := ~ by_smallest g f.

Lemma BySmallestKey_spec f g : keyed f -> keyed g -> exists b, BySmallestKey le f g = Some b /\ (b = true <-> by_smallest f g).
Proof.
  intros [Hf _] [Hg _]. unfold BySmallestKey. destruct (icmp_ikey le _ _ Hf Hg) as (c & -> & Hlt & Heq). cbn [mbind option_bind].
  eexists. split; [done|]. unfold Version.by_smallest. destruct (Z.eqb_spec c 0) as [E|E]; cbn [negb].
  - apply Heq in E. rewrite E, Z.ltb_lt. split; [by right|]. intros [H|[_ H]]; [|done]. by apply (klt_irrefl (C := C)) in H.
  - rewrite Z.ltb_lt, Hlt. split; [by left|]. intros [H|[H _]]; [done|]. by apply Heq in H.
Qed.

Lemma by_smallest_irrefl f : keyed f -> ~ by_smallest f f.
Proof. intros [Hf _] [H|[_ H]]; [by apply (klt_irrefl (C := C)) in H|lia]. Qed.

Lemma by_smallest_trans f g h : keyed f -> keyed g -> keyed h -> by_smallest f g -> by_smallest g h -> by_smallest f h.
Proof.
  intros [Hf _] [Hg _] [Hh _] [H1|[E1 H1]] [H2|[E2 H2]]; unfold Version.by_smallest.
  - left. by apply (klt_trans _ (smallest g)).
  - left. by rewrite <-E2.
  - left. by rewrite E1.
  - right. split; [by rewrite E1|lia].
Qed.

Lemma by_smallest_cases f g : keyed f -> keyed g -> by_smallest f g \/ by_smallest g f \/ smallest f = smallest g /\ number f = number g.
Proof.
  intros [Hf _] [Hg _]. unfold Version.by_smallest. destruct (klt_cases (C := C) _ _ Hf Hg) as [H|[E|H]]; [by left; left| |by right; left; left].
  rewrite E. destruct (Z.lt_trichotomy (number f) (number g)) as [|[|]]; [left; by right|by right; right|right; left; by right].
Qed.

Lemma by_smallest_wle f g : keyed f -> keyed g -> by_smallest f g -> wle f g.
Proof. intros Hf Hg H H'. apply (by_smallest_irrefl f Hf). by apply (by_smallest_trans f g f). Qed.

Lemma wle_trans f g h : keyed f -> keyed g -> keyed h -> wle f g -> wle g h -> wle f h.
Proof.
  intros Hf Hg Hh H1 H2 H. destruct (by_smallest_cases g f Hg Hf) as [|[Hfg|[E1 E2]]]; [done| |].
  - apply H2. by apply (by_smallest_trans h f g).
  - apply H2. destruct H as [H|[E3 H]]; [left; by rewrite E1|right; rewrite E1, E2; done].
Qed.

Lemma wle_strict f g : keyed f -> keyed g -> number f <> number g -> wle f g -> by_smallest f g.
Proof. intros Hf Hg Hn H. destruct (by_smallest_cases f g Hf Hg) as [|[|[_ ?]]]; done. Qed.

(** ** Merging the added files *)
Lemma upper_bound_spec f files : keyed f -> Forall keyed files -> StronglySorted wle files ->
  exists a b, upper_bound le f files = Some (a, b) /\ files = a ++ b /\ Forall (fun g => wle g f) a /\ Forall (by_smallest f) b.
Proof.
  intros Hf Hk Hs. induction files as [|g files IH]; cbn [upper_bound]; [by exists [], []|].
  apply Forall_cons in Hk as [Hg Hk]. apply StronglySorted_inv in Hs as [Hs Hgs].
  destruct (BySmallestKey_spec f g Hf Hg) as (b & -> & Hb). cbn [mbind option_bind]. destruct b.
  - exists [], (g :: files). split; [done|]. split; [done|]. split; [done|]. assert (by_smallest f g) as Hfg by (by apply Hb).
    constructor; [done|]. rewrite Forall_forall in Hk, Hgs |- *. intros h Hh.
    destruct (by_smallest_cases f h Hf (Hk h Hh)) as [|[H|[E1 E2]]]; [done| |].
    + destruct (Hgs h Hh). by apply (by_smallest_trans h f g); auto.
    + destruct (Hgs h Hh). destruct Hfg as [H|[E3 H]]; [left; by rewrite <-E1|right; rewrite <-E1, <-E2; done].
  - destruct IH as (a & b & -> & -> & Ha & Hb'); [done|done|]. cbn [mbind option_bind]. exists (g :: a), b. split; [done|]. split; [done|].
    split; [|done]. constructor; [|done]. intros H%Hb. done.
Qed.

Lemma add_files_app level s a : forall files b, add_files le level s files (a ++ b) = (files ← add_files le level s files a; add_files le level s files b).
Proof.
  induction a as [|f a IH]; intros files b; cbn [add_files app]; [done|]. destruct (MaybeAddFile le level s files f); cbn [mbind option_bind]; [apply IH|done].
Qed.

Lemma merge_added_spec level s added : forall base, Forall keyed base -> Forall keyed added ->
  StronglySorted wle base -> StronglySorted wle added ->
  exists m, (forall files, merge_added le level s base added files = add_files le level s files m) /\ m ≡ₚ base ++ added /\ StronglySorted wle m.
Proof.
  induction added as [|f added IH]; intros base Kb Ka Sb Sa; cbn [merge_added].
  { exists base. by rewrite app_nil_r. }
  apply Forall_cons in Ka as [Kf Ka]. apply StronglySorted_inv in Sa as [Sa Hfa].
  destruct (upper_bound_spec f base Kf Kb Sb) as (a & b & Eub & -> & Ha & Hb). rewrite Eub.
  apply Forall_app in Kb as [Kba Kbb]. apply StronglySorted_app in Sb as (Hab & Sba & Sbb).
  destruct (IH b Kbb Ka Sbb Sa) as (m & Em & HP & Sm). exists (a ++ f :: m). split; [|split].
  - intros files. cbn [mbind option_bind]. rewrite add_files_app. destruct (add_files le level s files a) as [fs|]; [|done]. cbn [mbind option_bind add_files].
    destruct (MaybeAddFile le level s fs f) as [fs'|]; [|done]. cbn [mbind option_bind]. apply Em.
  - rewrite HP. rewrite <-!app_assoc. apply Permutation_app_head. by rewrite Permutation_middle.
  - apply StronglySorted_app. split; [|split; [done|constructor; [done|]]].
    + intros x y Hx [-> |Hy]%elem_of_cons; rewrite Forall_forall in *; [by apply Ha|]. rewrite HP in Hy. apply elem_of_app in Hy as [Hy|Hy]; [by apply Hab|].
      apply (wle_trans x f y); auto.
    + rewrite Forall_forall in *. intros y Hy. rewrite HP in Hy. apply elem_of_app in Hy as [Hy|Hy]; [apply by_smallest_wle; auto|auto].
Qed.

Definition kept (s : LevelState) files : list FileMetaData := filter (fun f => number f ∉ deleted_files s) files.

Lemma add_files_spec level s m : forall files, Forall keyed (files ++ m) ->
  (0 < level -> StronglySorted apart (files ++ kept s m)) -> add_files le level s files m = Some (files ++ kept s m).
Proof.
  induction m as [|f m IH]; intros files Hk Hap; cbn [add_files]; [by rewrite app_nil_r|]. unfold kept in *. rewrite filter_cons in *.
  unfold MaybeAddFile. case_bool_decide as Hd.
  - rewrite decide_False in Hap |- * by auto. cbn [mbind option_bind]. apply IH; [|done].
    rewrite !Forall_app, Forall_cons in Hk. rewrite Forall_app. tauto.
  - rewrite decide_True in Hap |- * by auto.
    assert ((match last files with Some g => if 0 <? level then c ← icmp le (largest g) (smallest f); passert (c <? 0) else Some tt | None => Some tt end) = Some tt) as ->.
    { destruct (last files) as [g|] eqn:Hg; [|done]. destruct (Z.ltb_spec 0 level) as [Hl|]; [|done].
      apply last_Some in Hg as [fs ->]. specialize (Hap Hl). rewrite <-app_assoc in Hap. apply StronglySorted_app in Hap as (_ & _ & Hap).
      apply StronglySorted_inv in Hap as [_ Hgf%Forall_cons]. destruct Hgf as [Hgf _].
      rewrite !Forall_app, !Forall_cons in Hk. destruct (icmp_ikey le (largest g) (smallest f)) as (c & -> & Hc & _); [apply Hk|apply Hk|].
      cbn [mbind option_bind]. apply Hc in Hgf. by rewrite (proj2 (Z.ltb_lt c 0)). }
    cbn [mbind option_bind]. rewrite IH; [by rewrite <-app_assoc| |].
    + by rewrite <-app_assoc.
    + intros Hl. rewrite <-app_assoc. auto.
Qed.

(** The files of one level in the new version. *)
Lemma level_saved M level s base : Forall keyed base -> Forall keyed (added_files s) ->
  StronglySorted wle base -> StronglySorted wle (added_files s) ->
  Forall (file_ok M) (kept s (base ++ added_files s)) -> NoDup (number <$> kept s (base ++ added_files s)) ->
  (0 < level -> forall f g, f ∈ kept s (base ++ added_files s) -> g ∈ kept s (base ++ added_files s) -> f <> g -> apart f g \/ apart g f) ->
  exists out, merge_added le level s base (added_files s) [] = Some out /\ out ≡ₚ kept s (base ++ added_files s) /\ StronglySorted by_smallest out.
Proof.
  intros Kb Ka Sb Sa Hok Hnd Hap. destruct (merge_added_spec level s (added_files s) base Kb Ka Sb Sa) as (m & Em & HP & Sm).
  assert (kept s m ≡ₚ kept s (base ++ added_files s)) as HK by (unfold kept; by rewrite HP).
  assert (Forall keyed m) as Km by (rewrite HP; by apply Forall_app).
  assert (StronglySorted by_smallest (kept s m)) as Hs.
  { rewrite <-HK in Hnd. unfold kept in *. clear -Sm Hnd Km. induction Sm as [|f m Sm IH Hf]; [constructor|]. apply Forall_cons in Km as [Kf Km].
    rewrite filter_cons in *. case_decide as Hd; [|auto]. cbn in Hnd. apply NoDup_cons in Hnd as [Hnin Hnd]. constructor; [auto|].
    rewrite Forall_forall in *. intros g Hg. apply list_elem_of_filter in Hg as Hg'. destruct Hg' as [_ Hgm].
    apply wle_strict; auto. intros E. apply Hnin. rewrite E. by apply list_elem_of_fmap_2. }
  exists (kept s m). split; [|done]. rewrite Em, add_files_spec; [done|done|]. intros Hl. apply (apart_sorted le M); [by rewrite HK|done| |].
  - apply NoDup_of_numbers. by rewrite HK.
  - intros f g. rewrite !HK. by apply Hap.
Qed.
End order.

(** ** The new version *)
Section save.
Context (le : bool).
Implicit Types (f g h : FileMetaData) (files : list FileMetaData) (levels base : list (list FileMetaData)) (b : list LevelState).
Notation by_smallest := (by_smallest le).
Notation apart := (apart le).

Record builder_ok b : Prop := {
  bo_length : length b = Z.to_nat kNumLevels;
  bo_keyed : Forall (fun s => Forall keyed (added_files s)) b;
  bo_sorted : Forall (fun s => StronglySorted by_smallest (added_files s)) b;
}.

Definition kept_levels base b : list (list FileMetaData) :=
  zip_with (fun files s => kept s (files ++ added_files s)) base b.

Lemma sorted_wle files : Forall keyed files -> StronglySorted by_smallest files -> StronglySorted (wle le) files.
Proof.
  intros Hk Hs. eapply StronglySorted_impl_in; [|exact Hs]. rewrite Forall_forall in Hk. intros f g Hf Hg. apply by_smallest_wle; auto.
Qed.

Lemma levels_sem_perm M levels levels' : Forall2 (≡ₚ) levels levels' -> levels_sem le M levels -> levels_sem le M levels'.
Proof.
  intros HP [H1 H2 H3 H4 H5 H6 H7]. assert (concat levels ≡ₚ concat levels') as HC by (clear -HP; induction HP; cbn; [done|by f_equiv]).
  assert (forall i A, levels' !! i = Some A -> exists A', levels !! i = Some A' /\ A' ≡ₚ A) as Hl.
  { intros i A HA. destruct (Forall2_lookup_r _ _ _ _ _ HP HA) as (A' & ? & ?). eauto. }
  split.
  - by rewrite <-(Forall2_length _ _ _ HP).
  - by rewrite <-HC.
  - by rewrite <-HC.
  - by rewrite <-HC.
  - intros A f g (A' & HA' & E)%Hl Hf Hg. rewrite <-E in Hf, Hg. by apply (H5 A').
  - intros i A f g (A' & HA' & E)%Hl Hf Hg. rewrite <-E in Hf, Hg. by apply (H6 i A').
  - intros i j A B f g Hij (A' & HA' & EA)%Hl (B' & HB' & EB)%Hl Hf Hg. rewrite <-EA in Hf. rewrite <-EB in Hg. by apply (H7 i j A' B').
Qed.

Lemma save_levels_spec M base : forall b (level : Z), 0 <= level -> length base = length b ->
  Forall (Forall keyed) base -> Forall (StronglySorted by_smallest) base ->
  Forall (fun s => Forall keyed (added_files s)) b -> Forall (fun s => StronglySorted by_smallest (added_files s)) b ->
  Forall (file_ok M) (concat (kept_levels base b)) -> NoDup (number <$> concat (kept_levels base b)) ->
  (forall i A f g, 0 < level + Z.of_nat i -> kept_levels base b !! i = Some A -> f ∈ A -> g ∈ A -> f <> g -> apart f g \/ apart g f) ->
  exists out, save_levels le level base b = Some out /\ Forall2 (≡ₚ) out (kept_levels base b) /\ Forall (StronglySorted by_smallest) out.
Proof.
  induction base as [|files base IH]; intros [|s b] level Hl Hlen Kb Sb Ka Sa Hok Hnd Hap; try done; cbn [save_levels]; [by exists []|].
  cbn [kept_levels zip_with concat] in Hok, Hnd. apply Forall_app in Hok as [Hok1 Hok2].
  rewrite fmap_app, NoDup_app in Hnd. destruct Hnd as (Hnd1 & _ & Hnd2).
  apply Forall_cons in Kb as [Kf Kb], Sb as [Sf Sb], Ka as [Ks Ka], Sa as [Ss Sa].
  destruct (level_saved le M level s files) as (out & -> & HP & So); [done|done|by apply sorted_wle|by apply sorted_wle|done|done| |].
  { intros Hpos f g Hf Hg. apply (Hap 0%nat (kept s (files ++ added_files s))); [lia|done..]. }
  cbn [mbind option_bind]. destruct (IH b (level + 1)) as (rest & -> & HP2 & So2); try done; [lia|by injection Hlen| |].
  { intros i A f g Hi HA Hf Hg. apply (Hap (S i) A); [lia|done..]. }
  cbn [mbind option_bind]. exists (out :: rest). split; [done|]. split; by constructor.
Qed.

Lemma SaveTo_spec M v b : length (files_ v) = Z.to_nat kNumLevels -> Forall (Forall keyed) (files_ v) -> Forall (StronglySorted by_smallest) (files_ v) ->
  builder_ok b -> levels_sem le M (kept_levels (files_ v) b) ->
  exists v', SaveTo le v b = Some v' /\ Forall2 (≡ₚ) (files_ v') (kept_levels (files_ v) b) /\ levels_ok le M (files_ v').
Proof.
  intros Hlen Kv Sv [B1 B2 B3] Hsem. unfold SaveTo.
  destruct (save_levels_spec M (files_ v) b 0) as (out & -> & HP & So); try done; [by rewrite Hlen|apply Hsem|apply Hsem| |].
  { intros [|i] A f g Hi HA; [lia|]. by apply (lv_apart _ _ _ Hsem i). }
  cbn [mbind option_bind]. eexists. split; [done|]. split; [done|]. split; [|done]. eapply levels_sem_perm; [|exact Hsem]. symmetry. done.
Qed.

Lemma levels_keyed M levels : levels_sem le M levels -> Forall (Forall keyed) levels.
Proof.
  intros Hsem. pose proof (lv_files _ _ _ Hsem) as Hok. rewrite Forall_forall in Hok. apply Forall_forall. intros A HA. apply Forall_forall. intros f Hf.
  apply (file_keys M). apply Hok, elem_of_concat. eauto.
Qed.

(** ** Applying edits *)
Lemma insert_file_spec f files : keyed f -> Forall keyed files -> StronglySorted by_smallest files ->
  number f ∉ number <$> files ->
  exists out, insert_file le f files = Some out /\ out ≡ₚ f :: files /\ StronglySorted by_smallest out.
Proof.
  intros Kf Kfs Hs Hn. induction files as [|g files IH]; cbn [insert_file]; [exists [f]; repeat constructor|].
  apply Forall_cons in Kfs as [Kg Kfs]. apply StronglySorted_inv in Hs as [Hs Hgs]. cbn in Hn. apply not_elem_of_cons in Hn as [Hn1 Hn2].
  destruct (BySmallestKey_spec le f g Kf Kg) as (lt & -> & Hlt). cbn [mbind option_bind]. destruct lt.
  - exists (f :: g :: files). split; [done|]. split; [done|]. assert (by_smallest f g) as Hfg by (by apply Hlt). constructor; [by constructor|].
    constructor; [done|]. rewrite Forall_forall in *. intros h Hh. apply (by_smallest_trans le f g h); auto.
  - destruct (BySmallestKey_spec le g f Kg Kf) as (gt & -> & Hgt). cbn [mbind option_bind].
    assert (by_smallest g f) as Hgf by (destruct (by_smallest_cases le f g Kf Kg) as [?%Hlt|[?|[_ ?]]]; done). rewrite (proj2 Hgt Hgf).
    destruct IH as (out & -> & HP & So); [done..|]. cbn [mbind option_bind]. exists (g :: out). split; [done|]. split; [rewrite HP; constructor|].
    constructor; [done|]. rewrite HP. by constructor.
Qed.

(** What an edit says about one level. *)
Definition del_at (i : nat) (l : list (Z * Z)) : gset Z := list_to_set (snd <$> filter (fun p => p.1 = Z.of_nat i) l).
Definition seeked f : FileMetaData := mkFile (seeks_of (file_size f)) (number f) (file_size f) (smallest f) (largest f).
Definition new_at (i : nat) (l : list (Z * FileMetaData)) : list FileMetaData := (fun p => seeked p.2) <$> filter (fun p => p.1 = Z.of_nat i) l.

Lemma level_index {A} (b : list A) (level : Z) : level_ok level -> length b = Z.to_nat kNumLevels -> is_Some (b !! Z.to_nat level).
Proof. unfold level_ok. intros Hl Hb. apply lookup_lt_is_Some_2. rewrite Hb. unfold kNumLevels in *. lia. Qed.

Lemma apply_deleted_spec l : forall b, Forall (fun p => level_ok p.1) l -> builder_ok b ->
  exists b', apply_deleted_files l b = Some b' /\ builder_ok b' /\
    forall i s, b !! i = Some s -> b' !! i = Some (mkLevelState (del_at i l ∪ deleted_files s) (added_files s)).
Proof.
  induction l as [|[lv n] l IH]; intros b Hl Hb; cbn [apply_deleted_files].
  { exists b. split; [done|]. split; [done|]. intros i s Hi. rewrite Hi. f_equal. destruct s. f_equal. cbn. set_solver. }
  apply Forall_cons in Hl as [Hlv Hl]. cbn [fst] in Hlv. destruct (level_index b lv Hlv (bo_length _ Hb)) as [s Hs]. rewrite Hs. cbn [mbind option_bind].
  destruct (IH (<[Z.to_nat lv := mkLevelState ({[n]} ∪ deleted_files s) (added_files s)]> b) Hl) as (b' & -> & Hb' & Hi').
  { destruct Hb as [B1 B2 B3]. split; [by rewrite length_insert|apply Forall_insert; [done|]; cbn; rewrite Forall_lookup in B2; by eapply B2|].
    apply Forall_insert; [done|]. cbn. rewrite Forall_lookup in B3. by eapply B3. }
  exists b'. split; [done|]. split; [done|]. intros i si Hi. unfold del_at. rewrite filter_cons. cbn [fst]. destruct (decide (i = Z.to_nat lv)) as [-> |Hne].
  - rewrite Hs in Hi. injection Hi as ->. erewrite Hi' by (apply list_lookup_insert_eq; by eapply lookup_lt_Some). cbn.
    destruct Hlv. rewrite decide_True by lia. cbn. f_equal. f_equal. unfold del_at. set_solver.
  - erewrite Hi' by (by rewrite list_lookup_insert_ne). rewrite decide_False by (destruct Hlv; lia). done.
Qed.

Lemma apply_new_spec l : forall b, Forall (fun p => level_ok p.1 /\ keyed p.2) l -> builder_ok b ->
  (forall i s, b !! i = Some s -> NoDup ((number <$> new_at i l) ++ (number <$> added_files s))) ->
  exists b', apply_new_files le l b = Some b' /\ builder_ok b' /\
    forall i s, b !! i = Some s -> exists s', b' !! i = Some s' /\
      deleted_files s' = deleted_files s ∖ list_to_set (number <$> new_at i l) /\ added_files s' ≡ₚ new_at i l ++ added_files s.
Proof.
  induction l as [|[lv f] l IH]; intros b Hl Hb Hnd; cbn [apply_new_files].
  { exists b. split; [done|]. split; [done|]. intros i s Hi. exists s. split; [done|]. split; [cbn; set_solver|done]. }
  apply Forall_cons in Hl as [[Hlv Kf] Hl]. cbn [fst snd] in *. fold (seeked f). change (keyed (seeked f)) in Kf.
  destruct (level_index b lv Hlv (bo_length _ Hb)) as [s Hs]. rewrite Hs. cbn [mbind option_bind]. pose proof Hb as [B1 B2 B3].
  assert (new_at (Z.to_nat lv) ((lv, f) :: l) = seeked f :: new_at (Z.to_nat lv) l) as Enew.
  { unfold new_at. rewrite filter_cons, decide_True by (destruct Hlv; cbn; lia). done. }
  destruct (insert_file_spec (seeked f) (added_files s)) as (added & -> & HP & So); [done|by rewrite Forall_lookup in B2; eapply B2|by rewrite Forall_lookup in B3; eapply B3| |].
  { specialize (Hnd _ _ Hs). rewrite Enew in Hnd. cbn in Hnd. apply NoDup_cons in Hnd as [Hnd _]. cbn. set_solver. }
  cbn [mbind option_bind]. set (s1 := mkLevelState (deleted_files s ∖ {[number f]}) added).
  assert (forall i si, <[Z.to_nat lv := s1]> b !! i = Some si -> exists s0, b !! i = Some s0 /\
    (i = Z.to_nat lv /\ s0 = s /\ si = s1 \/ i <> Z.to_nat lv /\ si = s0)) as Hcase.
  { intros i si Hi. destruct (decide (i = Z.to_nat lv)) as [-> |Hne].
    - rewrite list_lookup_insert_eq in Hi by (by eapply lookup_lt_Some). injection Hi as <-. eauto 6.
    - rewrite list_lookup_insert_ne in Hi by done. eauto 6. }
  assert (forall i, i <> Z.to_nat lv -> new_at i ((lv, f) :: l) = new_at i l) as Eother.
  { intros i Hne. unfold new_at. rewrite filter_cons, decide_False by (destruct Hlv; cbn; lia). done. }
  destruct (IH (<[Z.to_nat lv := s1]> b) Hl) as (b' & E & Hb' & Hi').
  - split; [by rewrite length_insert|apply Forall_insert; [done|]; cbn; rewrite HP; constructor; [done|]; rewrite Forall_lookup in B2; by eapply B2|].
    by apply Forall_insert.
  - intros i si (s0 & H0 & [(-> & -> & ->)|[Hne ->]])%Hcase; specialize (Hnd _ _ H0).
    + rewrite Enew in Hnd. cbn [added_files s1]. rewrite HP. cbn in Hnd |- *. by rewrite <-Permutation_middle.
    + by rewrite Eother in Hnd.
  - exists b'. split; [done|]. split; [done|]. intros i si Hi. destruct (decide (i = Z.to_nat lv)) as [-> |Hne].
    + rewrite Hs in Hi. injection Hi as <-. destruct (Hi' (Z.to_nat lv) s1) as (s' & H1 & H2 & H3); [apply list_lookup_insert_eq; by eapply lookup_lt_Some|].
      exists s'. split; [done|]. rewrite Enew. split; [rewrite H2; apply difference_difference_l_L|]. rewrite H3. cbn [added_files s1 app]. rewrite HP. by rewrite <-Permutation_middle.
    + destruct (Hi' i si) as (s' & H1 & H2 & H3); [by rewrite list_lookup_insert_ne|]. exists s'. by rewrite Eother.
Qed.

Lemma apply_compact_spec l : forall cp, Forall (fun p => level_ok p.1 /\ key_ok p.2) l -> length cp = Z.to_nat kNumLevels ->
  exists cp', apply_compact_pointers l cp = Some cp' /\ length cp' = Z.to_nat kNumLevels.
Proof.
  induction l as [|[lv k] l IH]; intros cp Hl Hcp; cbn [apply_compact_pointers]; [by exists cp|]. apply Forall_cons in Hl as [[Hlv Hk] Hl]. cbn [fst snd] in *.
  destruct (level_index cp lv Hlv Hcp) as [old ->]. cbn [mbind option_bind]. rewrite InternalKey_Encode_ok by done. cbn [mbind option_bind].
  apply IH; [done|by rewrite length_insert].
Qed.

(** ** An edit on a version *)
Definition edited (edit : VersionEdit) (base : list (list FileMetaData)) : list (list FileMetaData) :=
  imap (fun i files => filter (fun f => number f ∉ del_at i (deleted_files_ edit)) files ++ new_at i (new_files_ edit)) base.

Record edit_fits (edit : VersionEdit) base : Prop := {
  ef_pointers : Forall (fun p => level_ok p.1 /\ key_ok p.2) (compact_pointers_ edit);
  ef_deleted : Forall (fun p => level_ok p.1) (deleted_files_ edit);
  ef_new : Forall (fun p => level_ok p.1 /\ keyed p.2) (new_files_ edit);
  ef_numbers : forall i, NoDup (number <$> new_at i (new_files_ edit));
  ef_fresh : forall i files f, base !! i = Some files -> f ∈ files -> number f ∉ number <$> new_at i (new_files_ edit);
}.

Lemma new_Builder_ok : builder_ok new_Builder.
Proof.
  split; [apply length_replicate|..]; apply Forall_replicate; [done|constructor].
Qed.

Lemma edit_spec M M' v edit cp : levels_ok le M (files_ v) -> edit_fits edit (files_ v) -> length cp = Z.to_nat kNumLevels ->
  levels_sem le M' (edited edit (files_ v)) ->
  exists cp' b v', Apply le edit cp new_Builder = Some (cp', b) /\ length cp' = Z.to_nat kNumLevels /\ SaveTo le v b = Some v' /\
    levels_ok le M' (files_ v') /\ Forall2 (≡ₚ) (files_ v') (edited edit (files_ v)).
Proof.
  intros [Hsem Hs] [E1 E2 E3 E4 E5] Hcp Hsem'. unfold Apply.
  destruct (apply_compact_spec _ cp E1 Hcp) as (cp' & -> & Hcp'). cbn [mbind option_bind].
  destruct (apply_deleted_spec _ new_Builder E2 new_Builder_ok) as (b1 & -> & Hb1 & Hi1). cbn [mbind option_bind].
  assert (forall i, (i < Z.to_nat kNumLevels)%nat -> b1 !! i = Some (mkLevelState (del_at i (deleted_files_ edit) ∪ ∅) [])) as Hi1'.
  { intros i Hi. apply (Hi1 i (mkLevelState ∅ [])). by apply lookup_replicate_2. }
  destruct (apply_new_spec (new_files_ edit) b1 E3 Hb1) as (b & -> & Hb & Hi).
  { intros i s Hi. assert (i < Z.to_nat kNumLevels)%nat by (apply lookup_lt_Some in Hi; by rewrite (bo_length _ Hb1) in Hi).
    rewrite Hi1' in Hi by done. injection Hi as <-. cbn. by rewrite app_nil_r. }
  cbn [mbind option_bind].
  assert (Forall2 (≡ₚ) (edited edit (files_ v)) (kept_levels (files_ v) b)) as HP.
  { apply Forall2_same_length_lookup_2.
    - unfold edited, kept_levels. rewrite length_imap, length_zip_with, (bo_length _ Hb), (lv_length _ _ _ Hsem). lia.
    - intros i A B HA HB. unfold edited in HA. rewrite list_lookup_imap in HA. unfold kept_levels in HB. rewrite lookup_zip_with in HB.
      destruct (files_ v !! i) as [files|] eqn:Ef; [|done]. cbn in HA. injection HA as <-. cbn [mbind option_bind] in HB.
      assert (i < Z.to_nat kNumLevels)%nat as Hlt by (rewrite <-(lv_length _ _ _ Hsem); by eapply lookup_lt_Some).
      destruct (Hi i _ (Hi1' i Hlt)) as (s & Hs' & Hd & Ha). rewrite Hs' in HB. cbn in HB. injection HB as <-. cbn [added_files deleted_files] in *. rewrite app_nil_r in Ha.
      unfold kept. rewrite Hd, filter_app. f_equiv.
      + apply reflexive_eq, filter_ext_in. intros f Hf. specialize (E5 i files f Ef Hf). rewrite <-(elem_of_list_to_set (C := gset Z)) in E5. clear -E5. set_solver.
      + rewrite Ha. rewrite filter_all; [done|]. intros f Hf. assert (number f ∈ number <$> new_at i (new_files_ edit)) as Hin by (by apply list_elem_of_fmap_2).
        rewrite <-(elem_of_list_to_set (C := gset Z)) in Hin. by intros [_ ?]%elem_of_difference. }
  destruct (SaveTo_spec M' v b) as (v' & Esave & HP' & Hok'); [apply Hsem|by eapply levels_keyed|done|done|by eapply levels_sem_perm|].
  eexists _, _, v'. split; [done|]. split; [done|]. split; [done|]. split; [done|]. clear -HP HP'.
  etrans; [exact HP'|]. by symmetry.
Qed.
End save.

(** ** Overlap with a range of user keys *)
Section overlap.
Context (le : bool).
Implicit Types (f g h : FileMetaData) (files : list FileMetaData) (levels : list (list FileMetaData)).

(** The file ends before [u1] or starts after [u2]. *)
Definition outside f (u1 u2 : list Z) : Prop :=
  (exists l, ExtractUserKey (largest f) = Some l /\ lex l u1 < 0) \/ (exists s, ExtractUserKey (smallest f) = Some s /\ lex u2 s < 0).

Lemma file_users M f : file_ok M f -> exists s l, ExtractUserKey (smallest f) = Some s /\ ExtractUserKey (largest f) = Some l /\
  smallest f <> [] /\ (exists m, smallest f = ikey s m /\ fits_unsigned 64 m) /\ (exists e, e ∈ contents M f /\ largest f = ekey e /\ v_key e = l).
Proof.
  intros Hf. pose proof (fo_fits _ _ Hf) as Hfits. rewrite Forall_forall in Hfits.
  destruct (fo_smallest _ _ Hf) as (a & Ha & Es), (fo_largest _ _ Hf) as (b & Hb & El). apply head_in in Ha. apply last_Some_elem_of in Hb.
  exists (v_key a), (v_key b). rewrite Es, El. unfold ekey. rewrite !ExtractUserKey_ikey. split; [done|]. split; [done|].
  split; [intros E; apply (f_equal length) in E; rewrite length_ikey in E; simpl in E; lia|]. split; [|by exists b].
  exists (v_tag a). split; [done|]. apply v_tag_fits. auto.
Qed.

Lemma outside_key M f u1 u2 e : file_ok M f -> outside f u1 u2 -> e ∈ contents M f -> lex u1 (v_key e) <= 0 -> lex (v_key e) u2 <= 0 -> False.
Proof.
  intros Hf Ho He H1 H2. destruct (file_user_range le M f e Hf He) as (s & b & Es & Eb & H3 & H4). destruct Ho as [(l & El & Hl)|(s' & Es' & Hs)].
  - rewrite Eb in El. injection El as <-. rewrite lex_antisym in H1.
    destruct (decide (v_key e = b)) as [E|]; [rewrite E in H1; rewrite lex_antisym in H1; rewrite (lex_antisym u1) in H1; lia|].
    assert (lex (v_key e) b < 0) as Hlt by (rewrite <-lex_eq in n; lia). pose proof (lex_trans _ _ _ Hlt Hl). lia.
  - rewrite Es in Es'. injection Es' as <-. destruct (decide (s = v_key e)) as [E|Hne]; [subst; rewrite lex_antisym in Hs; lia|].
    assert (lex s (v_key e) < 0) as Hlt by (rewrite <-lex_eq in Hne; lia). pose proof (lex_trans _ _ _ Hs Hlt) as H. rewrite lex_antisym in H. lia.
Qed.

Lemma overlaps_some_spec M files u1 u2 : Forall (file_ok M) files ->
  exists b, overlaps_some files (Some u1) (Some u2) = Some b /\ (b = false -> Forall (fun f => outside f u1 u2) files).
Proof.
  induction 1 as [|f files Hf _ (b & E & IH)]; cbn [overlaps_some]; [by exists false|].
  destruct (file_users M f Hf) as (s & l & Es & El & _). unfold AfterFile, BeforeFile. rewrite Es, El. cbn [mbind option_bind].
  unfold Bytewise_Compare. rewrite !Slice_compare_lex. destruct (Z.ltb_spec 0 (lex u1 l)) as [Ha|Ha]; cbn [mbind option_bind].
  - rewrite E. exists b. split; [done|]. intros Hb. constructor; [|auto]. left. exists l. split; [done|]. rewrite lex_antisym. lia.
  - destruct (Z.ltb_spec (lex u2 s) 0) as [Hb|Hb]; [|by exists true]. rewrite E. exists b. split; [done|]. intros Hbf. constructor; [|auto]. right. eauto.
Qed.

Lemma max_lookup u : AppendInternalKey le [] (Build_ParsedInternalKey u kMaxSequenceNumber kValueTypeForSeek) = Some (lookup_key u kMaxSequenceNumber).
Proof. rewrite AppendInternalKey_eq by done. done. Qed.

Lemma overlaps_sorted_spec M files u1 u2 : Forall (file_ok M) files -> StronglySorted (apart le) files -> zlen files < 2 ^ 31 ->
  exists b, SomeFileOverlapsRange le true files (Some u1) (Some u2) = Some b /\ (b = false -> Forall (fun f => outside f u1 u2) files).
Proof.
  intros Hok Hs Hn. unfold SomeFileOverlapsRange. cbn [negb]. rewrite max_lookup. cbn [mbind option_bind].
  assert (0 <= kMaxSequenceNumber < 2 ^ 56) as Hmax by done. pose proof (lookup_key_ikey u1 _ Hmax) as Ku.
  destruct (FindFile_spec le M files _ Hok Hs Hn Ku) as (i & -> & Hi & Hbelow & Habove). cbn [mbind option_bind].
  pose proof Hok as Hok'. rewrite Forall_lookup in Hok'.
  (* the files before [i] end before the first user key *)
  assert (forall j f, files !! j = Some f -> Z.of_nat j < i -> outside f u1 u2) as Hbefore.
  { intros j f Hj Hji. destruct (file_users M f (Hok' _ _ Hj)) as (s & l & Es & El & _ & _ & e & He & Ee & Ek).
    specialize (Hbelow j f Hj Hji). rewrite Ee in Hbelow. pose proof (fo_fits _ _ (Hok' _ _ Hj)) as Hfits. rewrite Forall_forall in Hfits.
    apply klt_lookup in Hbelow; [|auto|done]. left. exists l. split; [done|]. rewrite <-Ek. destruct Hbelow as [|[_ Hlt]]; [done|].
    destruct (Hfits e He) as ([_ H56] & _). change (2 ^ 56) with (kMaxSequenceNumber + 1) in H56. lia. }
  destruct (Z.leb_spec (zlen files) i) as [Hge|Hlt].
  { exists false. split; [done|]. intros _. apply Forall_lookup. intros j f Hj. apply (Hbefore j f Hj). apply lookup_lt_Some in Hj. lia. }
  destruct (lookup_lt_is_Some_2 files (Z.to_nat i)) as [f Hf]; [lia|]. rewrite Hf. cbn [mbind option_bind].
  destruct (file_users M f (Hok' _ _ Hf)) as (s & l & Es & El & _ & (m & Em & Hm) & _). unfold BeforeFile. rewrite Es. cbn [mbind option_bind].
  eexists. split; [done|]. intros Hb%negb_false_iff. unfold Bytewise_Compare in Hb. rewrite Slice_compare_lex in Hb. apply Z.ltb_lt in Hb.
  apply Forall_lookup. intros j g Hj. destruct (decide (Z.of_nat j < i)) as [|Hji]; [by eapply Hbefore|]. right.
  destruct (decide (j = Z.to_nat i)) as [-> |Hne]; [rewrite Hj in Hf; injection Hf as ->; eauto|].
  assert (apart le f g) as Hap by (apply (StronglySorted_lookup _ _ (Z.to_nat i) j _ _ Hs); [lia|done|done]).
  destruct (file_users M g (Hok' _ _ Hj)) as (s' & l' & Es' & El' & _ & (m' & Em' & Hm') & _). exists s'. split; [done|].
  (* u2 < start of f <= end of f < start of g *)
  pose proof (file_ordered le M f (Hok' _ _ Hf)) as Hord. destruct (file_keys M f (Hok' _ _ Hf)) as [Kfs Kfl]. destruct (file_keys M g (Hok' _ _ Hj)) as [Kgs _].
  assert (klt (C := InternalKey_Comparator le) (smallest f) (smallest g)) as Hlt' by (eapply (le_klt_trans _ (largest f)); done).
  rewrite Em, Em' in Hlt'. apply klt_internal in Hlt'; [|done|done]. apply ikey_cmp_lt in Hlt' as [Hlt'|[-> _]]; [|done]. by apply (lex_trans _ s).
Qed.

(** Level [i] is sorted, from level 1 on. *)
Lemma level_apart M levels i files : levels_ok le M levels -> levels !! S i = Some files -> StronglySorted (apart le) files.
Proof.
  intros [Hsem Hs] Hi. apply (apart_sorted le M).
  - pose proof (lv_files _ _ _ Hsem) as H. rewrite Forall_forall in *. intros f Hf. apply H, elem_of_concat. eauto using list_elem_of_lookup_2.
  - rewrite Forall_lookup in Hs. by eapply Hs.
  - apply NoDup_of_numbers. pose proof (lv_numbers _ _ _ Hsem) as H. rewrite (concat_middle _ _ _ Hi), !fmap_app, !NoDup_app in H. tauto.
  - intros f g. by apply (lv_apart _ _ _ Hsem i).
Qed.

Lemma level_files M levels i files : levels_ok le M levels -> levels !! i = Some files ->
  Forall (file_ok M) files /\ zlen files < 2 ^ 31 /\ NoDup (number <$> files).
Proof.
  intros [Hsem _] Hi. pose proof (lv_files _ _ _ Hsem) as H. pose proof (lv_count _ _ _ Hsem) as Hc. pose proof (lv_numbers _ _ _ Hsem) as Hn.
  rewrite (concat_middle _ _ _ Hi) in H, Hc, Hn. rewrite !Forall_app in H. rewrite !length_app in Hc. rewrite !fmap_app, !NoDup_app in Hn.
  split; [tauto|]. split; [lia|tauto].
Qed.

Lemma OverlapInLevel_spec M v level u1 u2 : levels_ok le M (files_ v) -> level_ok level ->
  exists b, OverlapInLevel le v level (Some u1) (Some u2) = Some b /\
    (b = false -> forall files, files_ v !! Z.to_nat level = Some files -> Forall (fun f => outside f u1 u2) files).
Proof.
  intros Hv Hl. unfold OverlapInLevel. destruct (level_index (files_ v) level Hl (lv_length _ _ _ (lv_sem _ _ _ Hv))) as [files Hf]. rewrite Hf. cbn [mbind option_bind].
  destruct (level_files M _ _ _ Hv Hf) as (Hok & Hn & _). destruct (Z.ltb_spec 0 level) as [Hpos|].
  - destruct (overlaps_sorted_spec M files u1 u2 Hok) as (b & -> & Hb); [|done|].
    { apply (level_apart M _ (Z.to_nat level - 1) _ Hv). by replace (S (Z.to_nat level - 1)) with (Z.to_nat level) by lia. }
    exists b. split; [done|]. intros E fs [= <-]. auto.
  - destruct (overlaps_some_spec M files u1 u2 Hok) as (b & E & Hb). exists b. split; [done|]. intros ? fs [= <-]. auto.
Qed.

(** Without restarts the loop is one pass. *)
Lemma overlapping_pass M level all b e files : forall fuel inputs, level <> 0 -> Forall (file_ok M) files -> (length files < fuel)%nat ->
  exists out, overlapping_loop fuel level all b e files inputs = Some out.
Proof.
  induction files as [|f files IH]; intros [|fuel] inputs Hl Hok Hf; cbn [length overlapping_loop] in *; try lia; [by eexists|].
  apply Forall_cons in Hok as [Hok1 Hok]. destruct (file_users M f Hok1) as (s & l & -> & -> & _). cbn [mbind option_bind].
  rewrite (proj2 (Z.eqb_neq level 0)) by done. cbn [andb]. destruct (_ || _); apply IH; (done || lia).
Qed.

Lemma PickLevel_spec M v u1 u2 : levels_ok le M (files_ v) ->
  exists L, PickLevelForMemTableOutput le v u1 u2 = Some L /\ 0 <= L <= kMaxMemCompactLevel /\
    (0 < L -> forall i files, 0 <= i <= L -> files_ v !! Z.to_nat i = Some files -> Forall (fun f => outside f u1 u2) files).
Proof.
  intros Hv. unfold PickLevelForMemTableOutput. destruct (OverlapInLevel_spec M v 0 u1 u2 Hv) as (o & -> & Ho); [done|]. cbn [mbind option_bind].
  destruct o; [exists 0; split; [done|]; split; [done|lia]|].
  rewrite max_lookup, AppendInternalKey_eq by done. cbn [app mbind option_bind].
  set (start := lookup_key u1 _). set (limit := ikey _ _).
  assert (ExtractUserKey start = Some u1) as Est by apply ExtractUserKey_ikey.
  assert (ExtractUserKey limit = Some u2) as Eli by apply ExtractUserKey_ikey.
  clearbody start limit.
  assert (forall fuel level, 0 <= level <= kMaxMemCompactLevel -> kMaxMemCompactLevel - level < Z.of_nat fuel ->
    (forall i files, 0 <= i <= level -> files_ v !! Z.to_nat i = Some files -> Forall (fun f => outside f u1 u2) files) ->
    exists L, pick_level le fuel v level u1 u2 start limit = Some L /\ 0 <= L <= kMaxMemCompactLevel /\
      (forall i files, 0 <= i <= L -> files_ v !! Z.to_nat i = Some files -> Forall (fun f => outside f u1 u2) files)) as Hloop.
  { induction fuel as [|fuel IH]; intros level Hl Hf Hout; [lia|]. cbn [pick_level]. destruct (Z.ltb_spec level kMaxMemCompactLevel) as [Hlt|]; [|by exists level].
    assert (level_ok (level + 1)) as Hl1 by (unfold level_ok, kNumLevels, kMaxMemCompactLevel in *; lia).
    destruct (OverlapInLevel_spec M v (level + 1) u1 u2 Hv Hl1) as (o & -> & Ho'). cbn [mbind option_bind]. destruct o; [by exists level|].
    assert (level_ok (level + 2)) as Hl2 by (unfold level_ok, kNumLevels, kMaxMemCompactLevel in *; lia).
    rewrite (proj2 (Z.ltb_lt (level + 2) kNumLevels)) by apply Hl2.
    destruct (level_index (files_ v) (level + 2) Hl2 (lv_length _ _ _ (lv_sem _ _ _ Hv))) as [fs Hfs]. destruct (level_files M _ _ _ Hv Hfs) as (Hok & _).
    unfold GetOverlappingInputs. rewrite (proj2 (Z.leb_le 0 (level + 2))), (proj2 (Z.ltb_lt (level + 2) kNumLevels)) by apply Hl2. cbn [andb passert mbind option_bind].
    rewrite Est, Eli, Hfs. cbn [mbind option_bind].
    destruct (overlapping_pass M (level + 2) fs (Some u1) (Some u2) fs (overlapping_fuel fs) []) as [out ->]; [lia|done|unfold overlapping_fuel; nia|]. cbn [mbind option_bind].
    destruct (_ <? TotalFileSize out); [by exists level|]. apply IH; [lia|lia|]. intros i files Hi Hfi. destruct (decide (i = level + 1)) as [-> |]; [by apply Ho'|]. apply (Hout i); [lia|done]. }
  destruct (Hloop 3%nat 0) as (L & -> & HL & Hout); [done|done| |exists L; split; [done|]; split; [done|]; intros _; exact Hout].
  intros i files Hi. replace i with 0 by lia. by apply Ho.
Qed.
End overlap.

(** ** A new file in the levels *)
Section flush.
Context (le : bool).
Implicit Types (f g h : FileMetaData) (files : list FileMetaData) (levels : list (list FileMetaData)).

Lemma contents_insert M f vs g : number g <> number f -> contents (<[number f := vs]> M) g = contents M g.
Proof. intros Hne. unfold contents. by rewrite lookup_insert_ne. Qed.

Lemma file_ok_insert M f vs g : number g <> number f -> file_ok M g -> file_ok (<[number f := vs]> M) g.
Proof.
  intros Hne [H1 H2 H3 H4 H5]. pose proof (contents_insert M f vs g Hne) as E. split; rewrite ?E; try done. by rewrite lookup_insert_ne.
Qed.

Lemma supersedes_insert M f vs g h : number g <> number f -> number h <> number f -> supersedes M g h -> supersedes (<[number f := vs]> M) g h.
Proof. intros Hg Hh H. unfold supersedes. by rewrite !contents_insert. Qed.

(** The keys of the file lie between its ends. *)
Lemma file_span M f u1 u2 e : file_ok M f -> ExtractUserKey (smallest f) = Some u1 -> ExtractUserKey (largest f) = Some u2 ->
  e ∈ contents M f -> lex u1 (v_key e) <= 0 /\ lex (v_key e) u2 <= 0.
Proof.
  intros Hf E1 E2 He. destruct (file_user_range le M f e Hf He) as (s & b & Es & Eb & H). rewrite Es in E1. rewrite Eb in E2. by injection E1 as <-; injection E2 as <-.
Qed.

Lemma outside_apart M M' f g u1 u2 : file_ok M g -> file_ok M' f -> ExtractUserKey (smallest f) = Some u1 -> ExtractUserKey (largest f) = Some u2 ->
  outside g u1 u2 -> apart le f g \/ apart le g f.
Proof.
  intros Hg Hf E1 E2 [(l & El & Hl)|(s & Es & Hs)].
  - right. destruct (file_users M' f Hf) as (s & _ & Es & _ & _ & (m & Em & Hm) & _). rewrite E1 in Es. injection Es as <-.
    destruct (file_users M g Hg) as (_ & l' & _ & El' & _ & _ & e & He & Ee & Ek). rewrite El in El'. injection El' as <-.
    unfold apart. rewrite Em, Ee. unfold ekey. pose proof (fo_fits _ _ Hg) as Hfits. rewrite Forall_forall in Hfits.
    apply klt_internal; [by apply v_tag_fits, Hfits|done|]. apply ikey_cmp_lt. left. by rewrite Ek.
  - left. destruct (file_users M g Hg) as (s' & _ & Es' & _ & _ & (m & Em & Hm) & _). rewrite Es in Es'. injection Es' as <-.
    destruct (file_users M' f Hf) as (_ & l' & _ & El' & _ & _ & e & He & Ee & Ek). rewrite E2 in El'. injection El' as <-.
    unfold apart. rewrite Em, Ee. unfold ekey. pose proof (fo_fits _ _ Hf) as Hfits. rewrite Forall_forall in Hfits.
    apply klt_internal; [by apply v_tag_fits, Hfits|done|]. apply ikey_cmp_lt. left. by rewrite Ek.
Qed.

Definition with_file (L : Z) f levels : list (list FileMetaData) := alter (fun files => files ++ [f]) (Z.to_nat L) levels.

Lemma with_file_lookup L f levels i A : with_file L f levels !! i = Some A ->
  exists files, levels !! i = Some files /\ (forall g, g ∈ A -> g ∈ files \/ i = Z.to_nat L /\ g = f).
Proof.
  unfold with_file. destruct (decide (i = Z.to_nat L)) as [-> |Hne].
  - rewrite list_lookup_alter_eq. destruct (levels !! Z.to_nat L) as [files|]; [|done]. cbn. intros [= <-]. exists files. split; [done|].
    intros g [?| ->%list_elem_of_singleton]%elem_of_app; [by left|by right].
  - rewrite list_lookup_alter_ne by done. intros Hi. exists A. split; [done|]. by left.
Qed.

Lemma with_file_concat L f levels : is_Some (levels !! Z.to_nat L) -> concat (with_file L f levels) ≡ₚ f :: concat levels.
Proof.
  intros [files Hl]. unfold with_file.
  assert (alter (fun files => files ++ [f]) (Z.to_nat L) levels = <[Z.to_nat L := files ++ [f]]> levels) as ->.
  { apply list_eq. intros i. destruct (decide (i = Z.to_nat L)) as [-> |]; [|by rewrite list_lookup_alter_ne, list_lookup_insert_ne].
    rewrite list_lookup_alter_eq, Hl, list_lookup_insert_eq by (by eapply lookup_lt_Some). done. }
  pose proof (concat_insert levels (Z.to_nat L) files (files ++ [f]) Hl) as HP. rewrite <-app_assoc in HP.
  apply Permutation_app_inv_l in HP. cbn in HP. by symmetry.
Qed.

Lemma flush_sem M levels f vs L u1 u2 : levels_sem le M levels -> level_ok L -> zlen (concat levels) + 1 < 2 ^ 31 ->
  file_ok (<[number f := vs]> M) f -> ExtractUserKey (smallest f) = Some u1 -> ExtractUserKey (largest f) = Some u2 ->
  Forall (fun g => number g < number f) (concat levels) ->
  (forall e e', e ∈ vs -> e' ∈ all_versions M (concat levels) -> e'.1 < e.1) ->
  (0 < L -> forall i files, 0 <= i <= L -> levels !! Z.to_nat i = Some files -> Forall (fun g => outside g u1 u2) files) ->
  levels_sem le (<[number f := vs]> M) (with_file L f levels).
Proof.
  intros Hv HL Hn Hf Hu1 Hu2 Hnum Hnew Hout. pose proof Hv as [S1 S2 S3 S4 S5 S6 S7]. set (M' := <[number f := vs]> M) in *.
  pose proof (with_file_concat L f levels (level_index levels L HL S1)) as HP. rewrite Forall_forall in Hnum, S2.
  assert (forall i A g, levels !! i = Some A -> g ∈ A -> g ∈ concat levels) as Hin by (intros i A g HA Hg; apply elem_of_concat; eauto using list_elem_of_lookup_2).
  assert (forall g, g ∈ concat levels -> number g <> number f) as Hne by (intros g Hg; specialize (Hnum g Hg); lia).
  assert (contents M' f = vs) as Evs by (unfold contents, M'; by rewrite lookup_insert_eq).
  assert (forall g, g ∈ concat levels -> supersedes M' f g) as Hsup.
  { intros g Hg e e' He He' _. rewrite Evs in He. unfold M' in He'. rewrite contents_insert in He' by auto. apply Hnew; [done|]. apply all_versions_in. eauto. }
  split.
  - unfold with_file. by rewrite length_alter.
  - rewrite HP. constructor; [done|]. apply Forall_forall. intros g Hg. apply file_ok_insert; auto.
  - rewrite HP. cbn [length]. lia.
  - rewrite HP. cbn. constructor; [|done]. intros (g & E & Hg)%list_elem_of_fmap. specialize (Hne g Hg). congruence.
  - intros A g h (files & Hfs & HA)%with_file_lookup Hg Hh Hlt.
    destruct (HA g Hg) as [Hg'|[_ ->]], (HA h Hh) as [Hh'|[_ ->]]; [apply supersedes_insert; eauto| |eauto|lia].
    specialize (Hnum g (Hin _ _ _ Hfs Hg')). lia.
  - intros i A g h (files & Hfs & HA)%with_file_lookup Hg Hh Hgh.
    assert (S i = Z.to_nat L -> forall x, x ∈ files -> apart le f x \/ apart le x f) as Hap.
    { intros Ei x Hx. apply (outside_apart M M' f x u1 u2); eauto. assert (Forall (fun g => outside g u1 u2) files) as Ho.
      { apply (Hout ltac:(lia) L); [lia|]. by rewrite <-Ei. } rewrite Forall_forall in Ho. auto. }
    destruct (HA g Hg) as [Hg'|[Ei ->]], (HA h Hh) as [Hh'|[Ei' ->]]; [eauto|destruct (Hap Ei' g Hg'); auto|eauto|done].
  - intros i j A B g h Hij (files & Hfs & HA)%with_file_lookup (files' & Hfs' & HB)%with_file_lookup Hg Hh.
    destruct (HA g Hg) as [Hg'|[Ei ->]], (HB h Hh) as [Hh'|[Ej ->]]; [apply supersedes_insert; eauto| |eauto|lia].
    (* the new file is below, and has no key of [g] *)
    intros e e' He He' Hk. exfalso. unfold M' in He. rewrite contents_insert in He by eauto.
    assert (Forall (fun g => outside g u1 u2) files) as Ho. { apply (Hout ltac:(lia) (Z.of_nat i)); [lia|]. by rewrite Nat2Z.id. }
    rewrite Forall_forall in Ho. destruct (file_span M' f u1 u2 e' Hf Hu1 Hu2 He') as [H1 H2]. rewrite <-Hk in H1, H2.
    eapply (outside_key le M g u1 u2 e); eauto.
Qed.

(** A number that no file has. *)
Lemma levels_sem_insert M levels n vs : Forall (fun g => number g <> n) (concat levels) -> levels_sem le M levels -> levels_sem le (<[n := vs]> M) levels.
Proof.
  intros Hne [S1 S2 S3 S4 S5 S6 S7]. rewrite Forall_forall in Hne. set (f := mkFile 0 n 0 [] []).
  assert (forall i A g, levels !! i = Some A -> g ∈ A -> number g <> number f) as Hin by (intros i A g HA Hg; apply Hne, elem_of_concat; eauto using list_elem_of_lookup_2).
  split; [done| |done|done| |done|].
  - apply Forall_forall. intros g Hg. apply (file_ok_insert M f); [by apply Hne|]. rewrite Forall_forall in S2. auto.
  - intros A g h HA Hg Hh Hlt. apply (supersedes_insert M f); eauto.
  - intros i j A B g h Hij HA HB Hg Hh. apply (supersedes_insert M f); eauto.
Qed.

Lemma levels_ok_insert M levels n vs : Forall (fun g => number g <> n) (concat levels) -> levels_ok le M levels -> levels_ok le (<[n := vs]> M) levels.
Proof. intros Hne [H1 H2]. split; [by apply levels_sem_insert|done]. Qed.

Lemma all_versions_insert M files n vs : Forall (fun g => number g <> n) files -> all_versions (<[n := vs]> M) files = all_versions M files.
Proof.
  intros Hne. unfold all_versions. f_equal. apply list_fmap_ext. intros i g Hg. rewrite Forall_forall in Hne.
  apply (contents_insert M (mkFile 0 n 0 [] [])). apply Hne. by eapply list_elem_of_lookup_2.
Qed.

Lemma all_versions_perm M files files' : files ≡ₚ files' -> all_versions M files ≡ₚ all_versions M files'.
Proof. intros Hp. unfold all_versions. by rewrite Hp. Qed.

(** One more file in an edit. *)
Lemma edited_push edit L f0 levels : level_ok L -> edited (push_file L f0 edit) levels = with_file L (seeked f0) (edited edit levels).
Proof.
  intros HL. unfold edited, with_file. apply list_eq. intros i. rewrite list_lookup_imap. cbn [push_file deleted_files_ new_files_].
  destruct (levels !! i) as [files|] eqn:Hi; cbn [fmap option_fmap option_map].
  - unfold new_at. rewrite filter_app, fmap_app, filter_cons, filter_nil. cbn [fst].
    destruct (decide (i = Z.to_nat L)) as [-> |Hne].
    + rewrite list_lookup_alter_eq, list_lookup_imap, Hi, decide_True by (destruct HL; lia). cbn. by rewrite app_assoc.
    + rewrite list_lookup_alter_ne, list_lookup_imap, Hi, decide_False by (destruct HL; lia || done). cbn. by rewrite app_nil_r.
  - symmetry. apply lookup_ge_None. rewrite length_alter, length_imap. by apply lookup_ge_None.
Qed.

Lemma edit_fits_push edit L f0 levels : level_ok L -> keyed f0 -> edit_fits edit levels -> Forall (fun g => number g <> number f0) (concat levels) ->
  Forall (fun p => number p.2 <> number f0) (new_files_ edit) -> edit_fits (push_file L f0 edit) levels.
Proof.
  intros HL Hk [F1 F2 F3 F4 F5] Hn1 Hn2. rewrite Forall_forall in Hn1. rewrite Forall_forall in Hn2.
  assert (forall i, number f0 ∉ number <$> new_at i (new_files_ edit)) as Hnew.
  { intros i (g & Eg & (p & -> & [_ Hp]%list_elem_of_filter)%list_elem_of_fmap)%list_elem_of_fmap. by apply (Hn2 p Hp). }
  assert (forall i, number <$> new_at i (new_files_ edit ++ [(L, f0)]) = (number <$> new_at i (new_files_ edit)) ++ if decide (L = Z.of_nat i) then [number f0] else []) as E.
  { intros i. unfold new_at. rewrite filter_app, !fmap_app, filter_cons, filter_nil. cbn [fst]. by case_decide. }
  split; cbn [push_file compact_pointers_ deleted_files_ new_files_]; [done|done|by apply Forall_app_2; [|apply Forall_singleton]|..].
  - intros i. rewrite E. apply NoDup_app. split; [done|]. case_decide; split; try apply NoDup_singleton; try constructor; intros x Hx; [|apply not_elem_of_nil].
    intros ->%list_elem_of_singleton. by apply (Hnew i).
  - intros i files f Hi Hf. rewrite E, elem_of_app. intros [Hx|Hx]; [by apply (F5 i files f Hi Hf)|]. case_decide; [|by apply elem_of_nil in Hx].
    apply list_elem_of_singleton in Hx. apply (Hn1 f); [|done]. apply elem_of_concat. eauto using list_elem_of_lookup_2.
Qed.

Lemma edit_fits_none edit levels : compact_pointers_ edit = [] -> deleted_files_ edit = [] -> new_files_ edit = [] -> edit_fits edit levels.
Proof. intros E1 E2 E3. split; rewrite ?E1, ?E2, ?E3; try done; intros; cbn; [constructor|apply not_elem_of_nil]. Qed.

Lemma edited_none edit levels : deleted_files_ edit = [] -> new_files_ edit = [] -> edited edit levels = levels.
Proof.
  intros Hd Hn. unfold edited. rewrite Hd, Hn. apply list_eq. intros i. rewrite list_lookup_imap. destruct (levels !! i) as [files|]; [|done].
  cbn. rewrite app_nil_r. f_equal. apply filter_all. intros f _. unfold del_at. cbn. set_solver.
Qed.
End flush.

(** ** Counting seeks changes no file but its counter *)
Section seeks.
Context (le : bool).
Implicit Types (f : FileMetaData) (levels : list (list FileMetaData)).

Definition only_seeks (g : FileMetaData -> FileMetaData) : Prop :=
  forall f, number (g f) = number f /\ file_size (g f) = file_size f /\ smallest (g f) = smallest f /\ largest (g f) = largest f.

Lemma UpdateStats_files stats v : exists g, only_seeks g /\ files_ (UpdateStats stats v).2 = (fun fs : list FileMetaData => g <$> fs) <$> files_ v.
Proof.
  unfold UpdateStats. destruct (seek_file stats) as [f0|].
  - set (seeks := swrap 32 _). exists (set_seeks (number f0) seeks). split; [intros f; unfold set_seeks; by case_match|]. by repeat case_match.
  - exists id. split; [done|]. cbn. symmetry. etrans; [|apply list_fmap_id]. apply list_fmap_ext. intros i fs _. apply list_fmap_id.
Qed.

Lemma concat_map_levels (g : FileMetaData -> FileMetaData) levels : concat ((fun fs : list FileMetaData => g <$> fs) <$> levels) = g <$> concat levels.
Proof. induction levels as [|fs levels IH]; [done|]. cbn. by rewrite IH, fmap_app. Qed.

Lemma levels_seeks M g levels : only_seeks g -> levels_ok le M levels -> levels_ok le M ((fun fs : list FileMetaData => g <$> fs) <$> levels).
Proof.
  intros Hg [[S1 S2 S3 S4 S5 S6 S7] Hs]. pose proof (concat_map_levels g levels) as Hc.
  assert (forall f, contents M (g f) = contents M f) as Hcon by (intros f; unfold contents; by destruct (Hg f) as (-> & _)).
  assert (forall i A x, ((fun fs : list FileMetaData => g <$> fs) <$> levels) !! i = Some A -> x ∈ A -> exists A0 f, levels !! i = Some A0 /\ f ∈ A0 /\ x = g f) as Hl.
  { intros i A x HA Hx. rewrite list_lookup_fmap in HA. apply fmap_Some in HA as (A0 & HA0 & ->). apply list_elem_of_fmap in Hx as (f & -> & Hf). eauto. }
  assert (forall f h, supersedes M f h -> supersedes M (g f) (g h)) as Hsup by (intros f h Hfh; unfold supersedes; by rewrite !Hcon).
  split; [split|].
  - by rewrite length_fmap.
  - rewrite Hc. apply Forall_fmap. eapply Forall_impl; [exact S2|]. intros f [F1 F2 F3 F4 F5]. destruct (Hg f) as (E1 & _ & E3 & E4). split; rewrite ?Hcon, ?E1, ?E3, ?E4; done.
  - by rewrite Hc, length_fmap.
  - rewrite Hc, <-list_fmap_compose. erewrite list_fmap_ext; [exact S4|]. intros i f _. cbn. by destruct (Hg f) as (-> & _).
  - intros A x y HA Hx Hy Hxy. destruct (Hl _ _ _ HA Hx) as (A0 & f & H1 & H2 & ->). destruct (Hl _ _ _ HA Hy) as (A1 & h & H3 & H4 & ->).
    rewrite H1 in H3. injection H3 as <-. apply Hsup. apply (S5 A0 f h H1 H2 H4). destruct (Hg f) as (<- & _). destruct (Hg h) as (<- & _). done.
  - intros i A x y HA Hx Hy Hxy. destruct (Hl _ _ _ HA Hx) as (A0 & f & H1 & H2 & ->). destruct (Hl _ _ _ HA Hy) as (A1 & h & H3 & H4 & ->).
    rewrite H1 in H3. injection H3 as <-. unfold apart. destruct (Hg f) as (_ & _ & -> & ->). destruct (Hg h) as (_ & _ & -> & ->). apply (S6 i A0 f h H1 H2 H4). by intros ->.
  - intros i j A B x y Hij HA HB Hx Hy. destruct (Hl _ _ _ HA Hx) as (A0 & f & H1 & H2 & ->). destruct (Hl _ _ _ HB Hy) as (A1 & h & H3 & H4 & ->). apply Hsup. eauto.
  - apply Forall_fmap. eapply Forall_impl; [exact Hs|]. intros fs Hfs. cbn. eapply StronglySorted_fmap; [|exact Hfs].
    intros f h. unfold by_smallest. destruct (Hg f) as (-> & _ & -> & _). by destruct (Hg h) as (-> & _ & -> & _).
Qed.
End seeks.
