(* ===== verification/Filename.v ===== *)
(** Names of the files of a database: [src/leveldb/db/filename.cc] and the
    number reader of [src/leveldb/util/logging.cc].

    A number that snprintf prints has at most 20 digits, so the text stays within
    its buffer of 100 octets. *)
From stdpp Require Import strings.
From S2P Require Import Prelude LdbBase Iterator Numconv.

Inductive FileType := kLogFile | kDBLockFile | kTableFile | kDescriptorFile | kCurrentFile | kTempFile | kInfoLogFile.
#[export] Instance FileType_eq_dec : EqDecision FileType.
Proof. solve_decision. Defined.

(** [%06llu] *)
Definition pad6 (number : Z) : list Z := replicate (6 - length (dec number)) 48 ++ dec number.

Definition MakeFileName (name : list Z) (number : Z) (suffix : list Z) : list Z :=
  name ++ chars "/" ++ pad6 number ++ chars "." ++ suffix.

Definition LogFileName (name : list Z) (number : Z) : option (list Z) :=
  _ ← passert (0 <? number); Some (MakeFileName name number (chars "log")).
Definition TableFileName (name : list Z) (number : Z) : option (list Z) :=
  _ ← passert (0 <? number); Some (MakeFileName name number (chars "ldb")).
Definition SSTTableFileName (name : list Z) (number : Z) : option (list Z) :=
  _ ← passert (0 <? number); Some (MakeFileName name number (chars "sst")).
Definition DescriptorFileName (dbname : list Z) (number : Z) : option (list Z) :=
  _ ← passert (0 <? number); Some (dbname ++ chars "/MANIFEST-" ++ pad6 number).
Definition CurrentFileName (dbname : list Z) : list Z := dbname ++ chars "/CURRENT".
Definition LockFileName (dbname : list Z) : list Z := dbname ++ chars "/LOCK".
Definition TempFileName (dbname : list Z) (number : Z) : option (list Z) :=
  _ ← passert (0 <? number); Some (MakeFileName dbname number (chars "dbtmp")).
Definition InfoLogFileName (dbname : list Z) : list Z := dbname ++ chars "/LOG".
Definition OldInfoLogFileName (dbname : list Z) : list Z := dbname ++ chars "/LOG.old".

(** The value, the input left and the number of digits; [None] on overflow. *)
Fixpoint consume_digits (input : list Z) (v digits : Z) : option (Z * list Z * Z) :=
  match input with
  | [] => Some (v, [], digits)
  | c :: rest =>
      if (48 <=? c) && (c <=? 57) then
        let delta := c - 48 in
        if (ULLONG_MAX / 10 <? v) || (v =? ULLONG_MAX / 10) && (ULLONG_MAX mod 10 <? delta) then None
        else consume_digits rest (v * 10 + delta) (digits + 1)
      else Some (v, input, digits)
  end.
Definition ConsumeDecimalNumber (input : list Z) : option (Z * list Z) :=
  '(v, rest, digits) ← consume_digits input 0 0;
  if 0 <? digits then Some (v, rest) else None.

Definition starts_with (s prefix : list Z) : bool := bool_decide (take (length prefix) s = prefix).

(** [None] is [false]. *)
Definition ParseFileName (fname : list Z) : option (Z * FileType) :=
  if bool_decide (fname = chars "CURRENT") then Some (0, kCurrentFile)
  else if bool_decide (fname = chars "LOCK") then Some (0, kDBLockFile)
  else if bool_decide (fname = chars "LOG") || bool_decide (fname = chars "LOG.old") then Some (0, kInfoLogFile)
  else if starts_with fname (chars "MANIFEST-") then
    '(num, rest) ← ConsumeDecimalNumber (drop (length (chars "MANIFEST-")) fname);
    if bool_decide (rest = []) then Some (num, kDescriptorFile) else None
  else
    '(num, suffix) ← ConsumeDecimalNumber fname;
    if bool_decide (suffix = chars ".log") then Some (num, kLogFile)
    else if bool_decide (suffix = chars ".sst") || bool_decide (suffix = chars ".ldb") then Some (num, kTableFile)
    else if bool_decide (suffix = chars ".dbtmp") then Some (num, kTempFile)
    else None.

(** ** Reading a printed number *)
Definition is_digit (c : Z) : Prop := 48 <= c <= 57.
Definition not_digit (l : list Z) : Prop := match l with [] => True | c :: _ => ~ is_digit c end.
#[local] Instance not_digit_dec l : Decision (not_digit l).
Proof. destruct l; [apply _|]. unfold not_digit, is_digit. apply _. Defined.
#[local] Ltac no_digit := apply (bool_decide_unpack _); vm_compute; exact I.

(** The value of a string of digits. *)
Fixpoint value_of (v : Z) (ds : list Z) : Z :=
  match ds with [] => v | c :: ds => value_of (v * 10 + (c - 48)) ds end.

Lemma value_of_app ds ds' : forall v, value_of v (ds ++ ds') = value_of (value_of v ds) ds'.
Proof. induction ds as [|c ds IH]; intros v; [done|]. apply IH. Qed.

Lemma value_of_le ds : forall v, 0 <= v -> Forall is_digit ds -> v <= value_of v ds.
Proof.
  induction ds as [|c ds IH]; intros v Hv Hd; cbn; [lia|]. apply Forall_cons in Hd as [Hc Hd]. unfold is_digit in Hc.
  etrans; [|apply IH; [lia|done]]. lia.
Qed.

Lemma consume_spec ds rest : not_digit rest -> forall v n, 0 <= v -> Forall is_digit ds -> value_of v ds <= ULLONG_MAX ->
  consume_digits (ds ++ rest) v n = Some (value_of v ds, rest, n + zlen ds).
Proof.
  intros Hr. induction ds as [|c ds IH]; intros v n Hv Hd Hm; cbn [app consume_digits value_of].
  - rewrite Z.add_0_r. destruct rest as [|c rest]; [done|]. cbn [consume_digits]. unfold not_digit, is_digit in Hr.
    by replace ((48 <=? c) && (c <=? 57)) with false by (symmetry; apply andb_false_iff; lia).
  - apply Forall_cons in Hd as [Hc Hd]. unfold is_digit in Hc. cbn [value_of] in Hm.
    replace ((48 <=? c) && (c <=? 57)) with true by (symmetry; apply andb_true_iff; lia).
    pose proof (value_of_le ds (v * 10 + (c - 48)) ltac:(lia) Hd) as Hle.
    replace ((ULLONG_MAX / 10 <? v) || (v =? ULLONG_MAX / 10) && (ULLONG_MAX mod 10 <? c - 48)) with false.
    2:{ symmetry. apply orb_false_iff. change (ULLONG_MAX / 10) with 1844674407370955161. change (ULLONG_MAX mod 10) with 5.
        change ULLONG_MAX with 18446744073709551615 in *. split; [lia|]. apply andb_false_iff. lia. }
    rewrite IH by (done || lia). do 2 f_equal.
    len_lia.
Qed.

Lemma dec_digits n v : 0 <= v < 10 ^ Z.of_nat n -> (0 < n <= 20)%nat -> Forall is_digit (dec v) /\ value_of 0 (dec v) = v /\ (0 < length (dec v))%nat.
Proof.
  revert v. induction n as [|n IH]; intros v Hv Hn; [lia|]. destruct (decide (v < 10)) as [Hlt|Hge].
  - rewrite dec_small by lia. split; [repeat constructor; unfold is_digit; lia|]. split; [cbn; lia|cbn; lia].
  - assert (v < 10 ^ 20) as H20.
    { eapply Z.lt_le_trans; [apply Hv|]. apply Z.pow_le_mono_r; lia. }
    destruct (decide (n = 0%nat)) as [-> |Hn0]; [change (10 ^ Z.of_nat 1) with 10 in Hv; lia|].
    assert (0 <= v / 10 < 10 ^ Z.of_nat n) as Hv'.
    { rewrite Nat2Z.inj_succ, Z.pow_succ_r in Hv by lia. split; [apply Z.div_pos; lia|]. apply Z.div_lt_upper_bound; lia. }
    destruct (IH (v / 10) Hv' ltac:(lia)) as (H1 & H2 & H3). rewrite dec_ten by lia. split.
    + apply Forall_app. split; [done|]. repeat constructor; unfold is_digit; pose proof (Z.mod_pos_bound v 10 ltac:(lia)); lia.
    + rewrite value_of_app, H2, length_app. cbn. split; [|lia]. pose proof (Z.div_mod v 10). lia.
Qed.

Lemma pad6_digits number : fits_unsigned 64 number -> Forall is_digit (pad6 number) /\ value_of 0 (pad6 number) = number /\ pad6 number <> [].
Proof.
  intros Hn. unfold fits_unsigned in Hn. destruct (dec_digits 20 number) as (H1 & H2 & H3); [change (10 ^ Z.of_nat 20) with 100000000000000000000; lia|lia|].
  unfold pad6. assert (forall k, value_of 0 (replicate k 48) = 0) as Hz by (induction k; [done|exact IHk]). split; [|split].
  - apply Forall_app. split; [|done]. apply Forall_replicate. done.
  - by rewrite value_of_app, Hz.
  - destruct (dec number); [cbn in H3; lia|]. by destruct (replicate _ _).
Qed.

Lemma consume_number number rest : fits_unsigned 64 number -> not_digit rest -> ConsumeDecimalNumber (pad6 number ++ rest) = Some (number, rest).
Proof.
  intros Hn Hr. destruct (pad6_digits number Hn) as (H1 & H2 & H3). unfold ConsumeDecimalNumber.
  rewrite consume_spec; [|done|done|done|rewrite H2; unfold fits_unsigned, ULLONG_MAX in *; lia]. cbn [mbind option_bind]. rewrite H2.
  rewrite (proj2 (Z.ltb_lt _ _)); [done|]. destruct (pad6 number); [done|]. cbn [length]. lia.
Qed.

(** A name that starts with a digit is none of the fixed ones. *)
Lemma parse_numbered number suffix : fits_unsigned 64 number -> not_digit suffix -> ParseFileName (pad6 number ++ suffix) =
  (if bool_decide (suffix = chars ".log") then Some (number, kLogFile)
   else if bool_decide (suffix = chars ".sst") || bool_decide (suffix = chars ".ldb") then Some (number, kTableFile)
   else if bool_decide (suffix = chars ".dbtmp") then Some (number, kTempFile) else None).
Proof.
  intros Hn Hs. unfold ParseFileName. destruct (pad6_digits number Hn) as (H1 & _ & H3).
  assert (forall l, not_digit l -> l <> [] -> (pad6 number ++ suffix) <> l) as Hne.
  { intros l Hl Hl' <-. destruct (pad6 number); [done|]. apply Forall_cons in H1 as [H1 _]. done. }
  assert (starts_with (pad6 number ++ suffix) (chars "MANIFEST-") = false) as Hst.
  { unfold starts_with. apply bool_decide_eq_false_2. destruct (pad6 number) as [|c l]; [done|]. apply Forall_cons in H1 as [H1 _].
    cbn. intros E. pose proof (f_equal head E) as E0. injection E0 as E0. vm_compute in E0. unfold is_digit in H1. lia. }
  rewrite !(bool_decide_eq_false_2 (pad6 number ++ suffix = _)) by (apply Hne; [no_digit|done]).
  cbn [orb]. rewrite Hst, consume_number by done. done.
Qed.

Lemma MakeFileName_inj dbname n n' s s' : fits_unsigned 64 n -> fits_unsigned 64 n' ->
  MakeFileName dbname n s = MakeFileName dbname n' s' -> n = n' /\ s = s'.
Proof.
  intros Hn Hn' E. unfold MakeFileName in E. apply app_inv_head, app_inv_head in E.
  assert (forall t, not_digit (chars "." ++ t)) as Hd by (intros t; no_digit).
  pose proof (consume_number n (chars "." ++ s) Hn (Hd s)) as H1. pose proof (consume_number n' (chars "." ++ s') Hn' (Hd s')) as H2.
  assert (Some (n, chars "." ++ s) = Some (n', chars "." ++ s')) as E' by (rewrite <-H1, <-H2; by f_equal).
  apply (inj Some) in E'. apply (inj2 pair) in E' as [-> Es]. split; [done|]. by apply app_inv_head in Es.
Qed.

Lemma parse_descriptor number : fits_unsigned 64 number -> ParseFileName (chars "MANIFEST-" ++ pad6 number) = Some (number, kDescriptorFile).
Proof.
  intros Hf. unfold ParseFileName. change (starts_with _ _) with true. rewrite !bool_decide_eq_false_2 by done. cbn [orb].
  change (drop _ (chars "MANIFEST-" ++ pad6 number)) with (pad6 number). rewrite <-(app_nil_r (pad6 number)), consume_number by done. done.
Qed.

(** [x] is the file [n] of type [t] of the database. *)
Definition named (dbname x : list Z) (n : Z) (t : FileType) : Prop := exists r, x = dbname ++ chars "/" ++ r /\ ParseFileName r = Some (n, t).

Lemma named_fun dbname x n t n' t' : named dbname x n t -> named dbname x n' t' -> n = n' /\ t = t'.
Proof. intros (r & -> & H) (r' & E%app_inv_head%app_inv_head & H'). subst r'. rewrite H in H'. by injection H'. Qed.

Lemma file_named dbname n : fits_unsigned 64 n ->
  named dbname (MakeFileName dbname n (chars "log")) n kLogFile /\ named dbname (MakeFileName dbname n (chars "ldb")) n kTableFile /\
  named dbname (MakeFileName dbname n (chars "sst")) n kTableFile /\ named dbname (MakeFileName dbname n (chars "dbtmp")) n kTempFile /\
  named dbname (dbname ++ chars "/MANIFEST-" ++ pad6 n) n kDescriptorFile.
Proof.
  intros Hn. split_and!; (eexists; split; [reflexivity|]); first [by rewrite parse_numbered by (done || no_digit)|by apply parse_descriptor].
Qed.

Lemma current_named dbname : named dbname (CurrentFileName dbname) 0 kCurrentFile.
Proof. by exists (chars "CURRENT"). Qed.

Lemma numbered_names dbname number : 0 < number < 2 ^ 64 -> exists log table sst descriptor temp,
  LogFileName dbname number = Some log /\ named dbname log number kLogFile /\
  TableFileName dbname number = Some table /\ named dbname table number kTableFile /\
  SSTTableFileName dbname number = Some sst /\ named dbname sst number kTableFile /\
  DescriptorFileName dbname number = Some descriptor /\ named dbname descriptor number kDescriptorFile /\
  TempFileName dbname number = Some temp /\ named dbname temp number kTempFile.
Proof.
  intros Hn. destruct (file_named dbname number) as (H1 & H2 & H3 & H4 & H5); [unfold fits_unsigned; lia|].
  unfold LogFileName, TableFileName, SSTTableFileName, DescriptorFileName, TempFileName. rewrite (proj2 (Z.ltb_lt 0 number)) by lia.
  cbn [passert mbind option_bind]. eexists _, _, _, _, _. split_and!; done.
Qed.

(** ** Properties *)

(** C31 (file_name_roundtrip) Every function that names a file of a database
    returns for every number from 1 on, and [ParseFileName] gives back the number
    and the type from the name once the directory is removed: logs, tables under
    both extensions, descriptors and temporary files, and, with the number 0,
    CURRENT, LOCK, LOG and LOG.old.  Different numbers give different names. *)
Theorem file_name_roundtrip dbname number : 0 < number < 2 ^ 64 ->
  (exists log table sst descriptor temp,
     LogFileName dbname number = Some log /\ named dbname log number kLogFile /\
     TableFileName dbname number = Some table /\ named dbname table number kTableFile /\
     SSTTableFileName dbname number = Some sst /\ named dbname sst number kTableFile /\
     DescriptorFileName dbname number = Some descriptor /\ named dbname descriptor number kDescriptorFile /\
     TempFileName dbname number = Some temp /\ named dbname temp number kTempFile /\
     forall number' name, 0 < number' < 2 ^ 64 ->
       (LogFileName dbname number' = Some name /\ name = log \/ TableFileName dbname number' = Some name /\ name = table \/
        SSTTableFileName dbname number' = Some name /\ name = sst \/ DescriptorFileName dbname number' = Some name /\ name = descriptor \/
        TempFileName dbname number' = Some name /\ name = temp) -> number' = number) /\
  named dbname (CurrentFileName dbname) 0 kCurrentFile /\ named dbname (LockFileName dbname) 0 kDBLockFile /\
  named dbname (InfoLogFileName dbname) 0 kInfoLogFile /\ named dbname (OldInfoLogFileName dbname) 0 kInfoLogFile.
Proof.
  intros Hn. split; [|split_and!; by eexists].
  destruct (numbered_names dbname number Hn) as (l & t & s & d & m & E1 & N1 & E2 & N2 & E3 & N3 & E4 & N4 & E5 & N5).
  exists l, t, s, d, m. split_and!; try done. intros number' name Hn' H.
  destruct (numbered_names dbname number' Hn') as (l' & t' & s' & d' & m' & E1' & N1' & E2' & N2' & E3' & N3' & E4' & N4' & E5' & N5').
  destruct H as [[E ->]|[[E ->]|[[E ->]|[[E ->]|[E ->]]]]]; simplify_eq;
    match goal with H1 : named _ ?x number _, H2 : named _ ?x number' _ |- _ => by destruct (named_fun _ _ _ _ _ _ H1 H2) end.
Qed.

Lemma file_name_roundtrip_witness :
  TableFileName (chars "/tmp/db") 42 = Some (chars "/tmp/db/000042.ldb") /\
  named (chars "/tmp/db") (chars "/tmp/db/000042.ldb") 42 kTableFile /\ named (chars "/tmp/db") (chars "/tmp/db/LOCK") 0 kDBLockFile.
Proof.
  split; [reflexivity|]. destruct (file_name_roundtrip (chars "/tmp/db") 42) as ((l & t & s & d & m & _ & _ & E & H & _) & _ & HL & _); [split; reflexivity|].
  injection E as <-. split; [exact H|exact HL].
Defined.
