(* ===== verification/TableIO.v ===== *)
(** Tables written to files whose writes may fail.

    The builder of [Table] runs over any [WritableFile]; here a run over such a
    file is compared with the run in memory.  As long as every write succeeds the
    two agree; after a failed one the builder skips the rest and [Finish] returns
    the error. *)
From S2P Require Import Prelude Coding LdbBase Crc32c Iterator Block Filter Format Table.

(** What a file that accepted its writes contains, and how any call may change
    it. *)
Class FileContents (F : Type) `{!WritableFile F} := {
  written : F -> list Z;
  evolves : F -> F -> Prop;
  evolves_refl f : evolves f f;
  evolves_trans f f' f'' : evolves f f' -> evolves f' f'' -> evolves f f'';
  Append_evolves s f : evolves f (LdbBase.Append s f).2;
  Flush_evolves f : evolves f (LdbBase.Flush f).2;
  Append_written s f f' : LdbBase.Append s f = (kOk, f') -> written f' = written f ++ s;
  Flush_written f f' : LdbBase.Flush f = (kOk, f') -> written f' = written f;
}.

Section simulation.
Context (le : bool) (ptr : list Z -> Z) (snappy : Snappy).
Context {C : Comparator} {S : Separators C} (policy : option FilterPolicy).
Context {F : Type} `{!WritableFile F} `{!FileContents F}.
Implicit Types (r : TBRep F) (m : TBRep (list Z)) (f : F).
Context (start : F).

(** The builder [m] with another file. *)
Definition over f m : TBRep F :=
  mkTB (tb_options m) f (tb_offset m) (tb_status m) (data_block m) (index_block m) (tb_last_key m) (num_entries m)
    (closed m) (filter_block m) (pending_index_entry m) (pending_handle m).

Definition sim r m : Prop := tb_status m = kOk /\ exists f, r = over f m /\ written f = tb_file m /\ evolves start f.

(** A write failed: the builder is [m] but for the file and the status. *)
Definition failed r m : Prop := exists f c, c <> kOk /\ evolves start f /\ r = set_tb_file f (tb_offset m) c (over f m).
Definition dead r : Prop := ok r = false /\ evolves start (tb_file r).

Lemma failed_dead r m : failed r m -> dead r.
Proof. intros (f & c & Hc & He & ->). split; [|done]. unfold ok. cbn. by apply bool_decide_eq_false_2. Qed.

Lemma sim_ok r m : sim r m -> ok r = true /\ ok m = true.
Proof. intros (Hs & f & -> & _). unfold ok. cbn. by rewrite Hs. Qed.

Lemma WriteRawBlock_sim bc ty r m h m' : sim r m -> WriteRawBlock le ptr bc ty m = Some (h, m') ->
  exists r', WriteRawBlock le ptr bc ty r = Some (h, r') /\ (sim r' m' \/ failed r' m).
Proof.
  intros (Hs & f & -> & Hf & He). unfold WriteRawBlock. cbn [LdbBase.Append mem_WritableFile]. change (Status_ok kOk) with true. cbv iota.
  cbn [over tb_file tb_offset]. destruct (Value le (ptr bc) bc) as [crc|]; [|done]. cbn [mbind option_bind].
  destruct (Extend le (ptr [ty]) crc [ty]) as [crc'|]; [|done]. cbn [mbind option_bind]. set (trailer := [ty] ++ _). intros [= <- <-].
  destruct (LdbBase.Append bc f) as [c f1] eqn:E1.
  assert (evolves start f1) as He1 by (eapply evolves_trans; [exact He|]; pose proof (Append_evolves bc f) as H; by rewrite E1 in H).
  destruct (Status_ok c) eqn:Ec.
  - apply Status_ok_eq in Ec as ->. destruct (LdbBase.Append trailer f1) as [c2 f2] eqn:E2.
    assert (evolves start f2) as He2 by (eapply evolves_trans; [exact He1|]; pose proof (Append_evolves trailer f1) as H; by rewrite E2 in H). eexists. split; [done|]. destruct (Status_ok c2) eqn:Ec2.
    + apply Status_ok_eq in Ec2 as ->. left. split; [done|]. exists f2. split; [done|]. split; [|done]. cbn.
      by rewrite (Append_written _ _ _ E2), (Append_written _ _ _ E1), Hf.
    + right. exists f2, c2. split; [by intros ->|done].
  - eexists. split; [done|]. right. exists f1, c. split; [by intros ->|done].
Qed.

Lemma WriteBlock_sim b r m h b' m' : sim r m -> WriteBlock le ptr snappy b m = Some (h, b', m') ->
  exists r', WriteBlock le ptr snappy b r = Some (h, b', r') /\ (sim r' m' \/ failed r' m).
Proof.
  intros Hsim. destruct (sim_ok _ _ Hsim) as [E1 E2]. unfold WriteBlock. rewrite E1, E2. cbn [passert mbind option_bind].
  destruct (Finish le b) as [raw b1]. assert (tb_options r = tb_options m) as -> by (by destruct Hsim as (_ & f & -> & _)).
  destruct (compress_block _ _ raw) as [bc ty]. destruct (WriteRawBlock le ptr bc ty m) as [[h1 r1]|] eqn:E; [|done]. cbn [mbind option_bind].
  intros [= <- <- <-]. destruct (WriteRawBlock_sim _ _ _ _ _ _ Hsim E) as (r' & -> & Hr). cbn [mbind option_bind]. eauto.
Qed.

(** The filter block has an entry for every 2 KB below the offset. *)
Definition filter_at {G} (r : TBRep G) : Prop := forall P b, policy = Some P -> filter_block r = Some b -> zlen (filter_offsets_ b) = tb_offset r / kFilterBase.

Lemma StartBlock_loop_at (P : FilterPolicy) fuel : forall n b b', StartBlock_loop fuel n b = Some b' -> zlen (filter_offsets_ b) <= n -> zlen (filter_offsets_ b') = n.
Proof.
  induction fuel as [|fuel IH]; intros n b b' E Hn; cbn [StartBlock_loop] in E; [done|]. destruct (Z.ltb_spec (zlen (filter_offsets_ b)) n).
  - unfold GenerateFilter in E. destruct (_ =? 0).
    + cbn [mbind option_bind] in E. apply (IH _ _ _ E). cbn. rewrite length_app. cbn. lia.
    + destruct (tmp_keys _ _); [|done]. cbn [mbind option_bind] in E. destruct (FP_CreateFilter _ _); [|done]. cbn [mbind option_bind] in E.
      apply (IH _ _ _ E). cbn. rewrite length_app. cbn. lia.
  - injection E as <-. lia.
Qed.

Lemma on_filter_start {G} (r r' : TBRep G) : on_filter policy (fun P => StartBlock (tb_offset r)) r = Some r' ->
  filter_at r' /\ tb_file r' = tb_file r /\ tb_status r' = tb_status r /\ closed r' = closed r.
Proof.
  unfold on_filter. destruct policy as [P|] eqn:EP; [|intros [= <-]; split; [|done]; intros P b HP; by rewrite EP in HP].
  destruct (filter_block r) as [b|] eqn:Eb; [|intros [= <-]; split; [|done]; intros P' b' HP Hb; by rewrite Eb in Hb].
  destruct (StartBlock (tb_offset r) b) as [b'|] eqn:E; [|done]. cbn [mbind option_bind]. intros [= <-]. split; [|done].
  intros P' b1 _ [= <-]. cbn [set_filter tb_offset]. unfold StartBlock in E. destruct (Z.leb_spec (zlen (filter_offsets_ b)) (tb_offset r / kFilterBase)); [|done].
  cbn [passert mbind option_bind] in E. by apply StartBlock_loop_at in E.
Qed.

Lemma on_filter_same {G} (r : TBRep G) : filter_at r -> is_Some (on_filter policy (fun P => StartBlock (tb_offset r)) r).
Proof.
  intros Hf. unfold on_filter. destruct policy as [P|] eqn:EP; [|by eexists]. destruct (filter_block r) as [b|] eqn:Eb; [|by eexists].
  specialize (Hf P b EP Eb). unfold StartBlock. rewrite <-Hf, Z.leb_refl, Z.sub_diag. cbn [passert mbind option_bind Z.to_nat StartBlock_loop].
  rewrite Z.ltb_irrefl. cbn [mbind option_bind]. by eexists.
Qed.

(** The builder once its data block was written. *)
Definition flushed {G} `{!WritableFile G} h b (r : TBRep G) : TBRep G :=
  let r := set_pending (pending_index_entry r) h (set_data_block b r) in
  if ok r then
    let r := set_pending true (pending_handle r) r in
    let '(c, file) := LdbBase.Flush (tb_file r) in set_tb_file file (tb_offset r) c r
  else r.

Lemma Flush_eq {G} `{!WritableFile G} (r : TBRep G) : ok r = true -> TableBuilder_Flush le ptr snappy policy r =
  (_ ← passert (negb (closed r));
   if builder_empty (data_block r) then Some r
   else
     _ ← passert (negb (pending_index_entry r));
     '(h, b, r) ← WriteBlock le ptr snappy (data_block r) r;
     on_filter policy (fun P => StartBlock (tb_offset (flushed h b r))) (flushed h b r)).
Proof. intros E. unfold TableBuilder_Flush. by rewrite E. Qed.

Lemma WriteBlock_mem b m h b' m' : WriteBlock le ptr snappy b m = Some (h, b', m') ->
  closed m' = closed m /\ pending_index_entry m' = pending_index_entry m /\ tb_status m' = kOk.
Proof.
  unfold WriteBlock. destruct (ok m); [|done]. cbn [passert mbind option_bind]. destruct (Finish _ _) as [raw b1]. destruct (compress_block _ _ _) as [bc ty].
  unfold WriteRawBlock. cbn [LdbBase.Append mem_WritableFile]. change (Status_ok kOk) with true. cbv iota.
  destruct (Value _ _ _); [|done]. cbn [mbind option_bind]. destruct (Extend _ _ _ _); [|done]. cbn [mbind option_bind]. by intros [= _ _ <-].
Qed.

(** Starting a filter block does not look at the file or the status. *)
Lemma on_filter_over o f c m m' : on_filter policy (fun P => StartBlock o) m = Some m' ->
  on_filter policy (fun P => StartBlock o) (set_tb_file f (tb_offset m) c (over f m)) = Some (set_tb_file f (tb_offset m') c (over f m')).
Proof.
  unfold on_filter. destruct policy as [P|]; [|by intros [= <-]]. cbn. destruct (filter_block m) as [fb|]; [|by intros [= <-]].
  destruct (StartBlock _ _); [|done]. cbn [mbind option_bind]. by intros [= <-].
Qed.

Lemma Flush_sim r m m' : sim r m -> filter_at m -> TableBuilder_Flush le ptr snappy policy m = Some m' ->
  exists r', TableBuilder_Flush le ptr snappy policy r = Some r' /\ filter_at m' /\ closed m' = closed m /\ closed r' = closed m' /\ (sim r' m' \/ dead r').
Proof.
  intros Hsim Hfa. destruct (sim_ok _ _ Hsim) as [E1 E2]. rewrite !Flush_eq by done.
  assert (closed r = closed m /\ data_block r = data_block m /\ pending_index_entry r = pending_index_entry m) as (Ec & Ed & Ep)
    by (by destruct Hsim as (_ & f & -> & _)). rewrite Ec, Ed, Ep. destruct (closed m) eqn:Ecl; [done|]. cbn [negb passert mbind option_bind].
  destruct (builder_empty (data_block m)); [intros [= <-]; exists r; by rewrite Ec, Ecl; split_and!; auto|].
  destruct (pending_index_entry m) eqn:Epe; [done|]. cbn [negb passert mbind option_bind].
  destruct (WriteBlock le ptr snappy (data_block m) m) as [[[h b] r1]|] eqn:E; [|done]. cbn [mbind option_bind].
  destruct (WriteBlock_sim _ _ _ _ _ _ Hsim E) as (r' & -> & Hr). cbn [mbind option_bind].
  destruct (WriteBlock_mem _ _ _ _ _ E) as (Ec1 & _ & Es1).
  assert (flushed h b r1 = set_pending true h (set_data_block b r1)) as E0.
  { unfold flushed, ok. cbn. rewrite Es1. cbn. by destruct r1; cbn in *; rewrite Es1. }
  rewrite E0. intros Em. pose proof (on_filter_start _ _ Em) as (Hfa' & Hfile & Hst & Hcl). cbn in Hcl, Hfile, Hst. rewrite Ec1, Ecl in Hcl. rewrite Es1 in Hst.
  destruct Hr as [(_ & f & -> & Hf & He)|(f & c & Hc & He & ->)].
  - destruct (LdbBase.Flush f) as [c f'] eqn:Ef.
    assert (evolves start f') as He' by (eapply evolves_trans; [exact He|]; pose proof (Flush_evolves f) as H; by rewrite Ef in H). set (m1 := set_pending true h (set_data_block b r1)) in *.
    assert (flushed h b (over f r1) = set_tb_file f' (tb_offset m1) c (over f' m1)) as ->.
    { unfold flushed, ok. cbn. rewrite Es1. cbn. by rewrite Ef. }
    cbn [tb_offset set_tb_file]. erewrite on_filter_over by exact Em. eexists. split; [done|]. split; [done|]. split; [by rewrite Hcl|]. split; [done|].
    destruct (Status_ok c) eqn:Ecs.
    + apply Status_ok_eq in Ecs as ->. left. split; [done|]. exists f'. split; [by destruct m'; cbn in *; rewrite Hst|].
      split; [|done]. by rewrite Hfile, (Flush_written _ _ Ef), Hf.
    + by right.
  - assert (Status_ok c = false) as Ecs by (by apply bool_decide_eq_false_2).
    set (rf := flushed h b _). assert (rf = set_pending (pending_index_entry m) h (set_data_block b (set_tb_file f (tb_offset m) c (over f m)))) as Erf.
    { unfold rf, flushed, ok. cbn. by rewrite Ecs. }
    assert (filter_at rf) as Hfr by (rewrite Erf; exact Hfa). destruct (on_filter_same rf Hfr) as [r2 E2'].
    rewrite E2'. exists r2. split; [done|]. split; [done|].
    apply on_filter_start in E2' as (_ & Hf2 & Hs2 & Hc2). split; [by rewrite Hcl|]. split; [rewrite Hc2, Hcl, Erf; exact Ecl|].
    right. unfold dead, ok. rewrite Hs2, Hf2, Erf. split; [exact Ecs|exact He].
Qed.
(** ** Adding entries *)
Lemma add_index_entry_over key f m : add_index_entry key (over f m) = over f <$> add_index_entry key m.
Proof.
  unfold add_index_entry. cbn [over pending_handle index_block]. destruct (BlockHandle_EncodeTo _ _); [|done]. cbn [mbind option_bind].
  by destruct (Add _ _ _ _).
Qed.

Lemma on_filter_over' g f m : on_filter policy g (over f m) = over f <$> on_filter policy g m.
Proof. unfold on_filter. destruct policy; [|done]. cbn [over filter_block]. destruct (filter_block m); [|done]. by destruct (g _ _). Qed.

Lemma over_status f m : written f = tb_file m -> tb_status m = kOk -> evolves start f -> sim (over f m) m.
Proof. intros. split; [done|]. by exists f. Qed.

Lemma add_index_entry_kept key m m' : add_index_entry key m = Some m' ->
  filter_block m' = filter_block m /\ tb_offset m' = tb_offset m /\ tb_status m' = tb_status m /\ tb_file m' = tb_file m /\ closed m' = closed m.
Proof.
  unfold add_index_entry. destruct (BlockHandle_EncodeTo _ _); [|done]. cbn [mbind option_bind]. destruct (Add _ _ _ _); [|done].
  by intros [= <-].
Qed.

Lemma on_filter_key_kept key m m' : on_filter policy (fun P b => Some (AddKey key b)) m = Some m' ->
  (filter_at m -> filter_at m') /\ tb_offset m' = tb_offset m /\ tb_status m' = tb_status m /\ tb_file m' = tb_file m /\ closed m' = closed m.
Proof.
  unfold on_filter. destruct policy as [P|] eqn:EP; [|by intros [= <-]]. destruct (filter_block m) as [b|] eqn:Eb; [|by intros [= <-]]. cbn [mbind option_bind].
  intros [= <-]. split_and!; try done. intros Hf P' b' HP [= <-]. cbn. by apply (Hf P).
Qed.

Lemma Add_sim key value r m m' : sim r m -> filter_at m -> TableBuilder_Add le ptr snappy policy key value m = Some m' ->
  exists r', TableBuilder_Add le ptr snappy policy key value r = Some r' /\ filter_at m' /\ closed m = false /\ closed m' = false /\ closed r' = false /\ (sim r' m' \/ dead r').
Proof.
  intros Hsim Hfa. destruct (sim_ok _ _ Hsim) as [E1 E2]. unfold TableBuilder_Add. rewrite E1, E2. destruct Hsim as (Hs & f & -> & Hf & He).
  cbn [over closed num_entries tb_last_key pending_index_entry data_block]. destruct (closed m) eqn:Ecl; [done|]. cbn [negb passert mbind option_bind].
  match goal with |- mbind _ ?x = _ -> _ => destruct x; [|done] end. cbn [mbind option_bind].
  assert (exists m1 : option (TBRep (list Z)), (if pending_index_entry m then _ ← passert (builder_empty (data_block m)); sep ← FindShortestSeparator (tb_last_key m) key; add_index_entry sep m else Some m) = m1 /\
    (if pending_index_entry m then _ ← passert (builder_empty (data_block m)); sep ← FindShortestSeparator (tb_last_key m) key; add_index_entry sep (over f m) else Some (over f m)) = over f <$> m1 /\
    forall x, m1 = Some x -> filter_at x /\ tb_status x = kOk /\ tb_file x = tb_file m /\ closed x = false) as (m1 & -> & -> & Hm1).
  { destruct (pending_index_entry m); [|eexists; split; [done|]; split; [done|]; intros x [= <-]; done].
    destruct (builder_empty _); [|by eexists]. cbn [passert mbind option_bind]. destruct (FindShortestSeparator _ _) as [sep|]; [|by eexists].
    cbn [mbind option_bind]. eexists. split; [done|]. split; [apply add_index_entry_over|]. intros x Ex.
    apply add_index_entry_kept in Ex as (K1 & K2 & K3 & K4 & K5). rewrite K3, K4, K5. split_and!; try done. intros P b HP. rewrite K1, K2. exact (Hfa P b HP). }
  destruct m1 as [m1|]; [|done]. cbn [fmap option_fmap option_map mbind option_bind]. destruct (Hm1 m1 eq_refl) as (F1 & F2 & F3 & F4).
  rewrite on_filter_over'. destruct (on_filter policy _ m1) as [m2|] eqn:Em2; [|done]. cbn [fmap option_fmap option_map mbind option_bind].
  apply on_filter_key_kept in Em2 as (G1 & G2 & G3 & G4 & G5). specialize (G1 F1).
  cbn [over set_last_key data_block tb_options num_entries]. destruct (Add _ (data_block m2) key value) as [b|]; [|done]. cbn [mbind option_bind].
  cbn [set_data_block tb_options]. set (m3 := set_data_block b (set_last_key key (num_entries m2 + 1) m2)).
  assert (sim (over f m3) m3) as Hsim3 by (apply over_status; [cbn; congruence..|done]).
  assert (filter_at m3) as Hfa3 by exact G1. destruct (_ <=? _).
  - intros E. destruct (Flush_sim (over f m3) m3 m' Hsim3 Hfa3 E) as (r' & E' & H1 & H2 & H3 & H4). exists r'.
    split; [exact E'|]. cbn in H2. rewrite H3, H2, G5, F4. done.
  - intros [= <-]. eexists. split; [done|]. cbn. rewrite G5, F4. split_and!; try done. by left.
Qed.

Definition live r m : Prop := sim r m /\ filter_at m.

Lemma add_all_sim es : forall r m m', live r m \/ dead r -> closed r = false -> TableBuilder_add_all le ptr snappy policy es m = Some m' ->
  exists r', TableBuilder_add_all le ptr snappy policy es r = Some r' /\ closed r' = false /\ (live r' m' \/ dead r').
Proof.
  induction es as [|[k v] es IH]; intros r m m' Hs Hr; cbn [TableBuilder_add_all]; [intros [= <-]; by exists r|].
  destruct (TableBuilder_Add le ptr snappy policy k v m) as [m1|] eqn:E; [|done]. cbn [mbind option_bind].
  assert (exists r1, TableBuilder_Add le ptr snappy policy k v r = Some r1 /\ closed r1 = false /\ (live r1 m1 \/ dead r1)) as (r1 & -> & K1 & K2).
  { destruct Hs as [[Hs Hfa]|Hd].
    - destruct (Add_sim k v r m m1 Hs Hfa E) as (r1 & ? & ? & _ & _ & ? & [?|?]); exists r1; (split; [done|]); (split; [done|]); [by left|by right].
    - exists r. unfold TableBuilder_Add. rewrite Hr, (proj1 Hd). split; [done|]. split; [done|by right]. }
  cbn [mbind option_bind]. by apply IH.
Qed.

(** ** Finish *)
Lemma dead_finish r : dead r -> closed r = false ->
  TableBuilder_Finish le ptr snappy policy r = Some (tb_status r, set_closed r) /\ tb_status r <> kOk.
Proof.
  intros [Hd _] Hc. unfold ok in Hd. assert (tb_status r <> kOk) as Hne by (intros E; by rewrite E in Hd). split; [|done].
  unfold TableBuilder_Finish, TableBuilder_Flush, ok. rewrite Hc, Hd. cbn [negb passert mbind option_bind]. rewrite Hc. cbn [negb passert mbind option_bind].
  set (r1 := set_closed r). assert (ok r1 = false) as Hd1 by exact Hd.
  assert (write_filter le ptr policy r1 = Some (new_BlockHandle, r1)) as ->.
  { unfold write_filter. rewrite Hd1. destruct policy; [|done]. by destruct (filter_block r1). }
  cbn [mbind option_bind]. unfold write_metaindex. rewrite Hd1. cbn [mbind option_bind]. unfold write_index. rewrite Hd1. cbn [mbind option_bind].
  unfold write_footer. by rewrite Hd1.
Qed.

(** The steps after the flush, each of which is skipped once a write failed. *)
Definition finish_tail {G} `{!WritableFile G} (r : TBRep G) : option (Code * TBRep G) :=
  '(filter_block_handle, r) ← write_filter le ptr policy r;
  '(metaindex_block_handle, r) ← write_metaindex le ptr snappy policy filter_block_handle r;
  '(index_block_handle, r) ← write_index le ptr snappy r;
  r ← write_footer le metaindex_block_handle index_block_handle r;
  Some (tb_status r, r).

Definition agrees (x : option (Code * TBRep F)) (y : Code * TBRep (list Z)) : Prop :=
  exists c r, x = Some (c, r) /\ evolves start (tb_file r) /\ (c = kOk -> sim r y.2).

Lemma dead_steps r hf hm hi : dead r ->
  write_filter le ptr policy r = Some (new_BlockHandle, r) /\ write_metaindex le ptr snappy policy hf r = Some (new_BlockHandle, r) /\
  write_index le ptr snappy r = Some (new_BlockHandle, r) /\ write_footer le hm hi r = Some r /\ tb_status r <> kOk.
Proof.
  intros [Hd _]. unfold write_filter, write_metaindex, write_index, write_footer. rewrite Hd. split_and!; try done.
  - destruct policy; [|done]. by destruct (filter_block r).
  - intros E. unfold ok in Hd. by rewrite E in Hd.
Qed.

Lemma write_filter_sim r m h m' : sim r m -> write_filter le ptr policy m = Some (h, m') ->
  exists r', write_filter le ptr policy r = Some (h, r') /\ (sim r' m' \/ dead r').
Proof.
  intros Hsim. destruct (sim_ok _ _ Hsim) as [E1 E2]. unfold write_filter. rewrite E1, E2. destruct Hsim as (Hs & f & -> & Hf & He).
  destruct policy as [P|]; [|intros [= <- <-]; eexists; split; [done|]; left; by apply over_status].
  cbn [over filter_block]. destruct (filter_block m) as [b|]; [|intros [= <- <-]; eexists; split; [done|]; left; by apply over_status].
  destruct (FilterBlock_Finish le b) as [[cs b']|]; [|done]. cbn [mbind option_bind]. intros E.
  destruct (WriteRawBlock_sim cs kNoCompression (over f (set_filter (Some b') m)) _ _ _ ltac:(by apply over_status) E) as (r' & E' & [?|?%failed_dead]); eauto.
Qed.

Lemma write_metaindex_sim h0 r m h m' : sim r m -> write_metaindex le ptr snappy policy h0 m = Some (h, m') ->
  exists r', write_metaindex le ptr snappy policy h0 r = Some (h, r') /\ (sim r' m' \/ dead r').
Proof.
  intros Hsim. destruct (sim_ok _ _ Hsim) as [E1 E2]. unfold write_metaindex. rewrite E1, E2.
  assert (filter_block r = filter_block m /\ tb_options r = tb_options m) as [-> ->] by (by destruct Hsim as (_ & f & -> & _)).
  match goal with |- mbind _ ?x = _ -> _ => destruct x as [meta|]; [|done] end. cbn [mbind option_bind].
  destruct (WriteBlock le ptr snappy meta m) as [[[h1 b1] m1]|] eqn:E; [|done]. cbn [mbind option_bind]. intros [= <- <-].
  destruct (WriteBlock_sim _ _ _ _ _ _ Hsim E) as (r' & -> & [?|?%failed_dead]); cbn [mbind option_bind]; eauto.
Qed.

Lemma write_index_sim r m h m' : sim r m -> write_index le ptr snappy m = Some (h, m') ->
  exists r', write_index le ptr snappy r = Some (h, r') /\ (sim r' m' \/ dead r').
Proof.
  intros Hsim. destruct (sim_ok _ _ Hsim) as [E1 E2]. unfold write_index. rewrite E1, E2. destruct Hsim as (Hs & f & -> & Hf & He).
  cbn [over pending_index_entry tb_last_key].
  assert (exists m1 : option (TBRep (list Z)), (if pending_index_entry m then succ ← FindShortSuccessor (tb_last_key m); add_index_entry succ m else Some m) = m1 /\
    (if pending_index_entry m then succ ← FindShortSuccessor (tb_last_key m); add_index_entry succ (over f m) else Some (over f m)) = over f <$> m1 /\
    forall x, m1 = Some x -> tb_status x = kOk /\ tb_file x = tb_file m) as (m1 & -> & E & Hm1).
  { destruct (pending_index_entry m); [|eexists; split; [done|]; split; [done|]; intros x [= <-]; done].
    destruct (FindShortSuccessor _) as [succ|]; [|by eexists]. cbn [mbind option_bind]. eexists. split; [done|]. split; [apply add_index_entry_over|].
    intros x Ex. apply add_index_entry_kept in Ex as (_ & _ & -> & -> & _). done. }
  fold (over f m). rewrite E. destruct m1 as [m1|]; [|done]. cbn [fmap option_fmap option_map mbind option_bind]. destruct (Hm1 m1 eq_refl) as [F1 F2].
  destruct (WriteBlock le ptr snappy (index_block m1) m1) as [[[h1 b1] m2]|] eqn:Ew; [|done]. cbn [mbind option_bind]. intros [= <- <-].
  destruct (WriteBlock_sim _ (over f m1) _ _ _ _ ltac:(apply over_status; [congruence..|done]) Ew) as (r' & Er & Hr).
  change (index_block (over f m1)) with (index_block m1). rewrite Er. cbn [mbind option_bind]. eexists. split; [done|].
  destruct Hr as [(Hs2 & f2 & -> & Hf2 & He2)|(f2 & c & Hc & He2 & ->)]; [left; by apply over_status|right].
  split; [|done]. unfold ok. cbn. by apply bool_decide_eq_false_2.
Qed.

Lemma write_footer_sim hm hi r m m' : sim r m -> write_footer le hm hi m = Some m' ->
  exists r', write_footer le hm hi r = Some r' /\ (sim r' m' \/ dead r').
Proof.
  intros Hsim. destruct (sim_ok _ _ Hsim) as [E1 E2]. unfold write_footer. rewrite E1, E2. destruct Hsim as (Hs & f & -> & Hf & He).
  destruct (Footer_EncodeTo _ _ _) as [fe|]; [|done]. cbn [mbind option_bind]. cbn [LdbBase.Append mem_WritableFile over tb_file tb_offset].
  change (Status_ok kOk) with true. cbv iota. intros [= <-]. destruct (LdbBase.Append fe f) as [c f'] eqn:Ea.
  assert (evolves start f') as He' by (eapply evolves_trans; [exact He|]; pose proof (Append_evolves fe f) as H; by rewrite Ea in H). eexists. split; [done|].
  destruct (Status_ok c) eqn:Ec.
  - apply Status_ok_eq in Ec as ->. left. split; [done|]. exists f'. split; [done|]. split; [|done]. cbn. by rewrite (Append_written _ _ _ Ea), Hf.
  - by right.
Qed.

(** Once a write failed nothing is written and the error stays. *)
Ltac dead_tail Hd :=
  let H := fresh in pose proof (fun hf hm hi => dead_steps _ hf hm hi Hd) as H;
  rewrite ?(fun hf => proj1 (proj2 (H hf new_BlockHandle new_BlockHandle))); cbn [mbind option_bind];
  rewrite ?(proj1 (proj2 (proj2 (H new_BlockHandle new_BlockHandle new_BlockHandle)))); cbn [mbind option_bind];
  rewrite ?(fun hm hi => proj1 (proj2 (proj2 (proj2 (H new_BlockHandle hm hi))))); cbn [mbind option_bind];
  eexists _, _; split; [done|]; split; [apply Hd|]; intros ?; by destruct (proj2 (proj2 (proj2 (proj2 (H new_BlockHandle new_BlockHandle new_BlockHandle))))).

Lemma finish_tail_sim r m y : sim r m -> finish_tail m = Some y -> agrees (finish_tail r) y.
Proof.
  intros Hsim. unfold finish_tail. destruct (write_filter le ptr policy m) as [[hf m1]|] eqn:E1; [|done]. cbn [mbind option_bind].
  destruct (write_metaindex le ptr snappy policy hf m1) as [[hm m2]|] eqn:E2; [|done]. cbn [mbind option_bind].
  destruct (write_index le ptr snappy m2) as [[hi m3]|] eqn:E3; [|done]. cbn [mbind option_bind].
  destruct (write_footer le hm hi m3) as [m4|] eqn:E4; [|done]. cbn [mbind option_bind]. intros [= <-]. unfold agrees. cbn [snd].
  destruct (write_filter_sim _ _ _ _ Hsim E1) as (r1 & -> & [S1|D1]); cbn [mbind option_bind]; [|dead_tail D1].
  destruct (write_metaindex_sim _ _ _ _ _ S1 E2) as (r2 & -> & [S2|D2]); cbn [mbind option_bind]; [|dead_tail D2].
  destruct (write_index_sim _ _ _ _ S2 E3) as (r3 & -> & [S3|D3]); cbn [mbind option_bind]; [|dead_tail D3].
  destruct (write_footer_sim _ _ _ _ _ S3 E4) as (r4 & -> & [S4|D4]); cbn [mbind option_bind]; [|dead_tail D4].
  eexists _, _. split; [done|]. split; [|done]. by destruct S4 as (_ & f & -> & _ & ?).
Qed.

Lemma Finish_sim r m y : live r m \/ dead r -> closed r = false -> TableBuilder_Finish le ptr snappy policy m = Some y ->
  agrees (TableBuilder_Finish le ptr snappy policy r) y.
Proof.
  intros [[Hsim Hfa]|Hd] Hc E; [|destruct (dead_finish r Hd Hc) as [-> Hne]; eexists _, _; split; [done|]; split; [apply Hd|done]].
  unfold TableBuilder_Finish in *. destruct (TableBuilder_Flush le ptr snappy policy m) as [m1|] eqn:Ef; [|done]. cbn [mbind option_bind] in E.
  destruct (Flush_sim r m m1 Hsim Hfa Ef) as (r1 & -> & _ & Hc1 & Hc2 & Hr). cbn [mbind option_bind]. rewrite Hc2.
  destruct (closed m1) eqn:Ec; [done|]. cbn [negb passert mbind option_bind] in E |- *. change (finish_tail (set_closed m1) = Some y) in E.
  change (agrees (finish_tail (set_closed r1)) y). destruct Hr as [(Hs & f & -> & Hf & He)|Hd].
  - eapply finish_tail_sim; [|done]. by apply over_status.
  - assert (dead (set_closed r1)) as Hd' by exact Hd. unfold agrees, finish_tail.
    rewrite (proj1 (dead_steps _ new_BlockHandle new_BlockHandle new_BlockHandle Hd')). cbn [mbind option_bind]. dead_tail Hd'.
Qed.
End simulation.
