(* ===== verification/LogIO.v ===== *)
(** The log writer ([src/leveldb/db/log_writer.cc]) over files that may fail:
    it runs as over a file in memory, up to the first status that is not OK.

    [AddRecord] drops the status of the append that fills up a block.  It makes
    such an append at most once, before the first fragment, and a record that it
    reports as written is where it should be only if that append succeeded. *)
From S2P Require Import Prelude LdbBase Coding Crc32c LogFormat TableIO.

Section log_io.
Context (le : bool) (ptr : list Z -> Z) (Hptr : addresses ptr).
Context {F : Type} `{!WritableFile F} `{!FileContents F}.
Implicit Types (w : Writer F) (m : Writer (list Z)).

Definition type_crcs : list Z := (fun t => crc32c 0 [t]) <$> [0; 1; 2; 3; 4].

(** The writer is between two records, or broken by a failed write. *)
Definition writer_ok w : Prop := 0 <= block_offset_ w <= kBlockSize /\ type_crc_ w = type_crcs.

Definition same_place w m : Prop := block_offset_ w = block_offset_ m /\ type_crc_ w = type_crc_ m.

(** Where the next record does not fit into the block, filling it up succeeds. *)
Definition pads w : Prop :=
  let leftover := kBlockSize - block_offset_ w in
  0 < leftover < kHeaderSize -> (LdbBase.Append (replicate (Z.to_nat leftover) 0) (dest_ w)).1 = kOk.

(** [w'] is [w] after the octets that take [m] to [m'], provided [P]. *)
Definition follows (P : Prop) w m (s : Code) w' m' : Prop :=
  evolves (dest_ w) (dest_ w') /\ same_place w' m' /\
  exists bytes, dest_ m' = dest_ m ++ bytes /\ (P -> s = kOk -> written (dest_ w') = written (dest_ w) ++ bytes).

Lemma EmitPhysicalRecord_sim w m t data m' : same_place w m -> EmitPhysicalRecord le ptr m t data = Some (kOk, m') ->
  exists s w', EmitPhysicalRecord le ptr w t data = Some (s, w') /\ follows True w m s w' m'.
Proof.
  intros [Ho Hc]. unfold EmitPhysicalRecord. rewrite Ho, Hc. unfold LogFormat.assert.
  destruct (_ <=? 0xffff); [|done]. destruct (block_offset_ m + _ + _ <=? _); [|done].
  destruct (rd (type_crc_ m) t) as [c|]; cbn [mbind option_bind]; [|done].
  destruct (Extend le (ptr data) c data) as [crc|]; cbn [mbind option_bind]; [|done].
  set (buf := EncodeFixed32 le (Mask crc) ++ _). cbn [LdbBase.Append mem_WritableFile Status_ok]. change (bool_decide (kOk = kOk)) with true. cbn [LdbBase.Flush].
  intros [= <-].
  destruct (LdbBase.Append buf (dest_ w)) as [s1 f1] eqn:E1.
  assert (evolves (dest_ w) f1) as V1 by (pose proof (Append_evolves buf (dest_ w)) as H; by rewrite E1 in H).
  assert (forall s f, evolves (dest_ w) f -> (s = kOk -> written f = written (dest_ w) ++ buf ++ data) ->
    exists s0 w', Some (s, Build_Writer f (block_offset_ m + kHeaderSize + zlen data) (type_crc_ m)) = Some (s0, w') /\
      follows True w m s0 w' (Build_Writer ((dest_ m ++ buf) ++ data) (block_offset_ m + kHeaderSize + zlen data) (type_crc_ m))) as Hend.
  { intros s f Hv Hs. eexists _, _. split; [done|]. split; [done|]. split; [done|]. exists (buf ++ data). cbn. rewrite app_assoc. auto. }
  destruct (Status_ok s1) eqn:S1; [|apply Hend; [done|by intros ->]].
  apply Status_ok_eq in S1 as ->. apply Append_written in E1 as W1.
  destruct (LdbBase.Append data f1) as [s2 f2] eqn:E2.
  assert (evolves (dest_ w) f2) as V2.
  { eapply evolves_trans; [exact V1|]. pose proof (Append_evolves data f1) as H. by rewrite E2 in H. }
  destruct (Status_ok s2) eqn:S2; [|apply Hend; [done|by intros ->]].
  apply Status_ok_eq in S2 as ->. apply Append_written in E2 as W2.
  destruct (LdbBase.Flush f2) as [s3 f3] eqn:E3.
  apply Hend.
  - eapply evolves_trans; [exact V2|]. pose proof (Flush_evolves f2) as H. by rewrite E3 in H.
  - intros ->. apply Flush_written in E3. by rewrite E3, W2, W1, <-app_assoc.
Qed.

Lemma EmitPhysicalRecord_fits {G} `{!WritableFile G} (w : Writer G) t data r : EmitPhysicalRecord le ptr w t data = Some r ->
  block_offset_ r.2 = block_offset_ w + kHeaderSize + zlen data /\ block_offset_ r.2 <= kBlockSize /\ type_crc_ r.2 = type_crc_ w.
Proof.
  unfold EmitPhysicalRecord, LogFormat.assert. destruct (_ <=? 0xffff); [|done]. destruct (Z.leb_spec (block_offset_ w + kHeaderSize + zlen data) kBlockSize); [|done].
  destruct (rd _ _); [|done]. cbn [mbind option_bind]. destruct (Extend _ _ _ _); [|done]. cbn [mbind option_bind].
  destruct (LdbBase.Append _ _) as [s1 f1]. destruct (if Status_ok s1 then _ else _) as [s2 f2]. intros [= <-]. cbn. done.
Qed.

(** The start of a turn of the loop. *)
Definition padded {G} `{!WritableFile G} (w : Writer G) : Writer G :=
  let leftover := kBlockSize - block_offset_ w in
  if leftover <? kHeaderSize then
    Build_Writer (if 0 <? leftover then (LdbBase.Append (replicate (Z.to_nat leftover) 0) (dest_ w)).2 else dest_ w) 0 (type_crc_ w)
  else w.

Lemma padded_place m : (0 <= block_offset_ m -> 0 <= block_offset_ (padded m)) /\ type_crc_ (padded m) = type_crc_ m.
Proof. unfold padded. by destruct (_ <? kHeaderSize). Qed.

Lemma padded_sim w m : same_place w m -> follows (pads w) w m kOk (padded w) (padded m).
Proof.
  intros [Ho Hc]. unfold padded, pads. rewrite Ho. destruct (Z.ltb_spec (kBlockSize - block_offset_ m) kHeaderSize); [|split; [apply evolves_refl|]; split; [done|]; exists []; rewrite !app_nil_r; auto].
  destruct (Z.ltb_spec 0 (kBlockSize - block_offset_ m)); [|split; [apply evolves_refl|]; split; [done|]; exists []; cbn; rewrite !app_nil_r; auto].
  split; [apply Append_evolves|]. split; [done|]. eexists. split; [done|]. intros Hp _. cbn [dest_].
  destruct (LdbBase.Append _ (dest_ w)) as [s f] eqn:E in Hp |- *. apply Append_written. rewrite E. f_equal. apply Hp. lia.
Qed.

Lemma follows_trans (P Q : Prop) w m w1 m1 s w2 m2 : follows P w m kOk w1 m1 -> follows Q w1 m1 s w2 m2 -> Q -> follows P w m s w2 m2.
Proof.
  intros (V1 & P1 & b1 & D1 & H1) (V2 & P2 & b2 & D2 & H2) HQ. split; [by eapply evolves_trans|]. split; [done|]. exists (b1 ++ b2).
  rewrite D2, D1, app_assoc. split; [done|]. intros Hp Hs. rewrite H2, H1 by done. by rewrite app_assoc.
Qed.

Lemma AddRecord_turn {G} `{!WritableFile G} fuel (w : Writer G) data begin_ :
  AddRecord_loop le ptr (S fuel) w data begin_ =
  (LogFormat.assert (0 <=? kBlockSize - block_offset_ w);;
   LogFormat.assert (0 <=? kBlockSize - block_offset_ (padded w) - kHeaderSize);;
   let avail := kBlockSize - block_offset_ (padded w) - kHeaderSize in
   let n := if zlen data <? avail then zlen data else avail in
   let end_ := zlen data =? n in
   '(s, w) ← EmitPhysicalRecord le ptr (padded w)
               (if begin_ && end_ then kFullType else if begin_ then kFirstType
                else if end_ then kLastType else kMiddleType) (take (Z.to_nat n) data);
   if Status_ok s && (0 <? zlen (drop (Z.to_nat n) data)) then AddRecord_loop le ptr fuel w (drop (Z.to_nat n) data) false
   else Some (s, w)).
Proof. reflexivity. Qed.

Lemma AddRecord_loop_sim fuel : forall w m data begin_ m', same_place w m -> AddRecord_loop le ptr fuel m data begin_ = Some (kOk, m') ->
  exists s w' m1, AddRecord_loop le ptr fuel w data begin_ = Some (s, w') /\ follows (pads w) w m s w' m1 /\ (s = kOk -> m1 = m') /\
    (0 <= block_offset_ m -> 0 <= block_offset_ m1 <= kBlockSize) /\ type_crc_ m1 = type_crc_ m.
Proof.
  induction fuel as [|fuel IH]; intros w m data begin_ m' Hp; [done|]. destruct (padded_place m) as [Hp0 Hpc]. rewrite !AddRecord_turn. unfold LogFormat.assert.
  pose proof (padded_sim w m Hp) as Hpad. destruct Hp as [Ho Hc]. pose proof Hpad as (_ & Hp1 & _). pose proof Hp1 as [Ho1 Hc1].
  rewrite Ho, Ho1. destruct (0 <=? kBlockSize - block_offset_ m); [|done]. destruct (0 <=? _ - kHeaderSize); [|done]. cbn [mbind option_bind].
  set (n := if _ <? _ then _ else _). set (t := if begin_ && _ then _ else _).
  destruct (EmitPhysicalRecord le ptr (padded m) t (take (Z.to_nat n) data)) as [[s1 m1]|] eqn:E; cbn [mbind option_bind]; [|done].
  destruct (Status_ok s1) eqn:S1; [apply Status_ok_eq in S1 as ->|by intros [= -> _]].
  destruct (EmitPhysicalRecord_sim _ _ _ _ _ Hp1 E) as (s & w1 & -> & Hw1). cbn [mbind option_bind andb].
  pose proof (follows_trans _ _ _ _ _ _ _ _ _ Hpad Hw1 I) as Hw. pose proof (EmitPhysicalRecord_fits _ _ _ _ E) as (Hat & Hfit & Hcrc).
  assert (block_offset_ (padded m) <= block_offset_ m1) as Hge by (cbn in Hat; unfold kHeaderSize in Hat; lia).
  destruct (Status_ok s) eqn:S2; cbn [andb].
  2:{ intros _. eexists _, _, m1. split_and!; [done|done|by intros ->|intros; cbn in *; lia|cbn in *; congruence]. }
  apply Status_ok_eq in S2 as ->. destruct (Z.ltb_spec 0 (zlen (drop (Z.to_nat n) data))) as [Hmore|Hmore].
  - intros E'. destruct (IH w1 m1 _ _ _ (proj1 (proj2 Hw1)) E') as (s' & w' & m2 & -> & Hf & Hm & Hb & Hc2).
    assert (pads w1) as Hp1'.
    { intros Hleft. exfalso. destruct Hw1 as (_ & [Ho' _] & _). rewrite Ho' in Hleft. cbn [snd] in Hat. rewrite Hat in Hleft.
      rewrite length_drop in Hmore. rewrite length_take in Hleft. subst n. destruct (Z.ltb_spec (zlen data) (kBlockSize - block_offset_ (padded m) - kHeaderSize)); lia. }
    eexists _, _, m2. split_and!; [done|by eapply follows_trans|done|intros; apply Hb; cbn in *; lia|cbn in *; congruence].
  - intros [= <-]. eexists _, _, m1. split_and!; [done|done|done|intros; cbn in *; lia|cbn in *; congruence].
Qed.

(** The writer over a file in memory that holds [f]. *)
Definition in_memory (f : list Z) w : Writer (list Z) := Build_Writer f (block_offset_ w) (type_crc_ w).

(** [AddRecord] returns, whatever the file does; and when it reports success,
    and blocks were filled up, the file is what it is in memory. *)
Lemma AddRecord_file w data : writer_ok w -> Forall is_byte data ->
  exists s w', AddRecord le ptr w data = Some (s, w') /\ evolves (dest_ w) (dest_ w') /\ writer_ok w' /\
    (pads w -> s = kOk -> forall f, winv (in_memory f w) f -> written (dest_ w) = f ->
       AddRecord le ptr (in_memory f w) data = Some (kOk, in_memory (written (dest_ w')) w')).
Proof using Hptr.
  intros [Ho Hc] Hb.
  assert (forall f, winv (in_memory f w) f -> exists s w', AddRecord le ptr w data = Some (s, w') /\ evolves (dest_ w) (dest_ w') /\ writer_ok w' /\
    (pads w -> s = kOk -> written (dest_ w) = f -> AddRecord le ptr (in_memory f w) data = Some (kOk, in_memory (written (dest_ w')) w'))) as Hall.
  { intros f Hw. destruct (AddRecord_spec le ptr Hptr _ _ data Hw Hb) as (m' & ps & E & Hw' & _).
    destruct (AddRecord_loop_sim _ w (in_memory f w) _ _ _ (conj eq_refl eq_refl) E) as (s & w' & m1 & Ew & (Hv & [Ho1 Hc1] & bytes & Hd & Hb1) & Hm & Hfit & Hcm).
    exists s, w'. split; [done|]. split; [done|]. split.
    - split; [rewrite Ho1; apply Hfit; apply Ho|by rewrite Hc1, Hcm].
    - intros Hp -> <-. rewrite (Hm eq_refl) in *. rewrite E. f_equal. f_equal. unfold in_memory. rewrite Ho1, Hc1, (Hb1 Hp eq_refl). cbn in Hd. rewrite <-Hd. by destruct m'. }
  destruct (Hall (replicate (Z.to_nat (block_offset_ w)) 0)) as (s & w' & E & Hv & Hok & _).
  { split; [done|]. split; [done|]. split; [done|]. cbn. by rewrite length_replicate, Z2Nat.id by lia. }
  exists s, w'. split_and!; [done|done|done|]. intros Hp Hs f Hw Hf. destruct (Hall f Hw) as (s2 & w2 & E2 & _ & _ & H2). rewrite E in E2. injection E2 as <- <-. auto.
Qed.
End log_io.

(** A record that fits into the first block. *)
Lemma AddRecord_short le ptr (w : Writer (list Z)) data : addresses ptr -> winv w [] -> zlen data + 7 <= kBlockSize -> Forall is_byte data ->
  exists w', AddRecord le ptr w data = Some (kOk, w') /\ zlen (dest_ w') = 7 + zlen data.
Proof.
  intros Hptr Hw Hlen Hb. unfold AddRecord. replace (length data + 2)%nat with (S (length data + 1)) by lia.
  destruct (switch_block_spec w [] Hw) as (Hw1 & Hfit & Hmod & _). pose proof Hw as (_ & _ & Ho & Hm). pose proof Hw1 as (_ & _ & Ho1 & _).
  change (padlen (zlen [])) with 0 in *. cbn [Z.to_nat replicate app length] in *.
  assert (block_offset_ (switch_block w) = 0) as E0 by (rewrite (Z.mod_small (block_offset_ (switch_block w))) in Hmod by lia; by rewrite <-Hmod).
  rewrite AddRecord_loop_S by lia. cbv zeta. rewrite E0. destruct (Z.ltb_spec (zlen data) (kBlockSize - 0 - 7)) as [Hlt|Hge].
  - rewrite Z.eqb_refl, Nat2Z.id, take_ge, drop_ge by lia. cbn [andb].
    destruct (EmitPhysicalRecord_spec le ptr Hptr (switch_block w) [] kFullType data Hw1) as (w' & -> & Hw' & _); [lia|done|done|]. cbn.
    exists w'. split; [done|]. rewrite (proj1 Hw'). cbn [app]. rewrite length_phys. lia.
  - replace (kBlockSize - 0 - 7) with (zlen data) in * by lia. rewrite Z.eqb_refl, Nat2Z.id, take_ge, drop_ge by lia. cbn [andb].
    destruct (EmitPhysicalRecord_spec le ptr Hptr (switch_block w) [] kFullType data Hw1) as (w' & -> & Hw' & _); [lia|done|done|]. cbn.
    exists w'. split; [done|]. rewrite (proj1 Hw'). cbn [app]. rewrite length_phys. lia.
Qed.
