(* ===== verification/Env.v ===== *)
(** The file system as the engine uses it ([src/leveldb/include/leveldb/env.h]),
    [WriteStringToFileSync] of [src/leveldb/util/env.cc] and [SetCurrentFile] of
    [src/leveldb/db/filename.cc].

    Every call may fail with an IO error.  A call that fails leaves any contents
    behind, but only in the file it names, except that a failed rename or
    deletion leaves everything as it is.  [disk] are the contents with what is still buffered.
    Files opened for reading serve the octets that they had when
    they were opened, as memory maps of [PosixMmapReadableFile] do. *)
From stdpp Require Import strings.
From S2P Require Import Prelude LdbBase Iterator Numconv Filename TableIO.

Definition io_code (c : Code) : Prop := c = kOk \/ c = kIOError.

Class Env (E : Type) := {
  disk : E -> gmap (list Z) (list Z);
  env_NewRandomAccessFile : list Z -> E -> Code * list Z * E;
  env_NewSequentialFile : list Z -> E -> Code * list Z * E;
  env_GetChildren : list Z -> E -> Code * list (list Z) * E;
  env_GetFileSize : list Z -> E -> Code * Z * E;
  env_NewWritableFile : list Z -> E -> Code * E;
  env_NewAppendableFile : list Z -> E -> Code * E;
  env_Append : list Z -> list Z -> E -> Code * E;
  env_Flush : list Z -> E -> Code * E;
  env_Sync : list Z -> E -> Code * E;
  env_Close : list Z -> E -> Code * E;
  env_DeleteFile : list Z -> E -> Code * E;
  env_RenameFile : list Z -> list Z -> E -> Code * E;
  env_FileExists : list Z -> E -> bool;
  env_CreateDir : list Z -> E -> Code * E;
  env_DeleteDir : list Z -> E -> Code * E;
  env_LockFile : list Z -> E -> Code * E;
  env_UnlockFile : list Z -> E -> Code * E;
  NewRandomAccessFile_spec name e c f e' : env_NewRandomAccessFile name e = (c, f, e') ->
    io_code c /\ disk e' = disk e /\ (c = kOk -> disk e !! name = Some f);
  NewSequentialFile_spec name e c f e' : env_NewSequentialFile name e = (c, f, e') ->
    io_code c /\ disk e' = disk e /\ (c = kOk -> disk e !! name = Some f);
  GetChildren_spec dir e c names e' : env_GetChildren dir e = (c, names, e') ->
    io_code c /\ disk e' = disk e /\
    (c = kOk -> NoDup names /\ (forall x, is_Some (disk e !! (dir ++ chars "/" ++ x)) -> 47 ∉ x -> x ∈ names) /\
       forall x, x ∈ names -> x = chars "." \/ x = chars ".." \/ is_Some (disk e !! (dir ++ chars "/" ++ x)));
  GetFileSize_spec name e c n e' : env_GetFileSize name e = (c, n, e') ->
    io_code c /\ disk e' = disk e /\ (c = kOk -> exists f, disk e !! name = Some f /\ n = zlen f);
  NewAppendableFile_spec name e c e' : env_NewAppendableFile name e = (c, e') ->
    (io_code c \/ c = kNotSupported) /\ (forall x, x <> name -> disk e' !! x = disk e !! x) /\ (c = kOk -> disk e' !! name = Some (default [] (disk e !! name)));
  NewWritableFile_spec name e c e' : env_NewWritableFile name e = (c, e') ->
    io_code c /\ (forall x, x <> name -> disk e' !! x = disk e !! x) /\ (c = kOk -> disk e' !! name = Some []);
  Append_spec name s e c e' : env_Append name s e = (c, e') ->
    io_code c /\ (forall x, x <> name -> disk e' !! x = disk e !! x) /\ (c = kOk -> disk e' !! name = Some (default [] (disk e !! name) ++ s));
  Flush_spec name e c e' : env_Flush name e = (c, e') ->
    io_code c /\ (forall x, x <> name -> disk e' !! x = disk e !! x) /\ (c = kOk -> disk e' !! name = disk e !! name);
  Sync_spec name e c e' : env_Sync name e = (c, e') ->
    io_code c /\ (forall x, x <> name -> disk e' !! x = disk e !! x) /\ (c = kOk -> disk e' !! name = disk e !! name);
  Close_spec name e c e' : env_Close name e = (c, e') ->
    io_code c /\ (forall x, x <> name -> disk e' !! x = disk e !! x) /\ (c = kOk -> disk e' !! name = disk e !! name);
  DeleteFile_spec name e c e' : env_DeleteFile name e = (c, e') ->
    io_code c /\ (forall x, x <> name -> disk e' !! x = disk e !! x) /\ (c = kOk -> disk e' !! name = None) /\ (c <> kOk -> disk e' = disk e);
  RenameFile_spec src dst e c e' : env_RenameFile src dst e = (c, e') ->
    io_code c /\ (c = kOk -> disk e' = <[dst := default [] (disk e !! src)]> (delete src (disk e))) /\ (c <> kOk -> disk e' = disk e);
  FileExists_spec name e : env_FileExists name e = bool_decide (is_Some (disk e !! name));
  CreateDir_spec name e c e' : env_CreateDir name e = (c, e') -> io_code c /\ disk e' = disk e;
  DeleteDir_spec name e c e' : env_DeleteDir name e = (c, e') -> io_code c /\ disk e' = disk e;
  LockFile_spec name e c e' : env_LockFile name e = (c, e') ->
    io_code c /\ (forall x, x <> name -> disk e' !! x = disk e !! x);
  UnlockFile_spec name e c e' : env_UnlockFile name e = (c, e') -> io_code c /\ disk e' = disk e;
}.

(** ** A file open for writing *)
Record OpenFile (E : Type) := mkOpenFile { of_name : list Z; of_env : E }.
#[global] Arguments mkOpenFile {E}.
#[global] Arguments of_name {E}.
#[global] Arguments of_env {E}.

Section open_file.
Context {E : Type} `{!Env E}.

Definition on_file (f : OpenFile E) (x : Code * E) : Code * OpenFile E := (x.1, mkOpenFile (of_name f) x.2).

#[export] Instance OpenFile_WritableFile : WritableFile (OpenFile E) := {
  Append s f := on_file f (env_Append (of_name f) s (of_env f));
  Flush f := on_file f (env_Flush (of_name f) (of_env f));
}.

(** The other files stay as they are. *)
Definition touches (name : list Z) (e e' : E) : Prop := forall x, x <> name -> disk e' !! x = disk e !! x.

Lemma touches_refl name e : touches name e e.
Proof. by intros x. Qed.
Lemma touches_trans name e e' e'' : touches name e e' -> touches name e' e'' -> touches name e e''.
Proof. intros H1 H2 x Hx. rewrite H2 by done. by apply H1. Qed.

#[refine, export] Instance OpenFile_FileContents : FileContents (OpenFile E) := {
  written f := default [] (disk (of_env f) !! of_name f);
  evolves f f' := of_name f' = of_name f /\ touches (of_name f) (of_env f) (of_env f');
}.
Proof.
  - intros f. split; [done|apply touches_refl].
  - intros f f' f'' [E1 H1] [E2 H2]. split; [congruence|]. rewrite E1 in H2. by eapply touches_trans.
  - intros s f. cbn. destruct (env_Append _ _ _) as [c e'] eqn:Ea. apply Append_spec in Ea as (_ & Ha & _). by split.
  - intros f. cbn. destruct (env_Flush _ _) as [c e'] eqn:Ea. apply Flush_spec in Ea as (_ & Ha & _). by split.
  - intros s f f'. cbn. unfold on_file. destruct (env_Append _ _ _) as [c e'] eqn:Ea. apply Append_spec in Ea as (_ & _ & Ha). cbn. intros [= -> <-].
    cbn. by rewrite Ha.
  - intros f f'. cbn. unfold on_file. destruct (env_Flush _ _) as [c e'] eqn:Ea. apply Flush_spec in Ea as (_ & _ & Ha). cbn. intros [= -> <-].
    cbn. by rewrite Ha.
Defined.
End open_file.

(** ** A file system whose calls fail as told; after the list all succeed *)
Record System := mkSystem { sys_files : gmap (list Z) (list Z); sys_outcomes : list bool }.

Definition attempt (e : System) (f : gmap (list Z) (list Z) -> gmap (list Z) (list Z)) : Code * System :=
  match sys_outcomes e with
  | false :: os => (kIOError, mkSystem (sys_files e) os)
  | _ => (kOk, mkSystem (f (sys_files e)) (tail (sys_outcomes e)))
  end.

Definition children (dir : list Z) (d : gmap (list Z) (list Z)) : list (list Z) :=
  drop (length dir + 1) <$> filter (fun name => starts_with name (dir ++ chars "/") = true) (map_to_list d).*1.

Lemma children_spec dir d : NoDup (children dir d) /\ (forall x, is_Some (d !! (dir ++ chars "/" ++ x)) -> 47 ∉ x -> x ∈ children dir d) /\
  forall x, x ∈ children dir d -> x = chars "." \/ x = chars ".." \/ is_Some (d !! (dir ++ chars "/" ++ x)).
Proof.
  assert (forall name, starts_with name (dir ++ chars "/") = true <-> exists x, name = dir ++ chars "/" ++ x) as Hs.
  { intros name. unfold starts_with. rewrite bool_decide_eq_true. split.
    - intros E. exists (drop (length (dir ++ chars "/")) name). rewrite <-(take_drop (length (dir ++ chars "/")) name) at 1. by rewrite E, app_assoc.
    - intros (x & ->). by rewrite app_assoc, take_app_length. }
  assert (forall x, drop (length dir + 1) (dir ++ chars "/" ++ x) = x) as Hd by (intros x; by rewrite drop_app_add).
  unfold children. split_and!.
  - apply NoDup_fmap_2_strong; [|apply NoDup_filter, NoDup_fst_map_to_list].
    intros a b [(x & ->)%Hs _]%list_elem_of_filter [(y & ->)%Hs _]%list_elem_of_filter. rewrite !Hd. by intros ->.
  - intros x [f Hf] _. apply list_elem_of_fmap. exists (dir ++ chars "/" ++ x). rewrite Hd. split; [done|]. apply list_elem_of_filter. split; [apply Hs; eauto|].
    apply list_elem_of_fmap. exists (dir ++ chars "/" ++ x, f). split; [done|]. by apply elem_of_map_to_list.
  - intros x (name & -> & [(y & ->)%Hs ([n f] & Hn & Hf%elem_of_map_to_list)%list_elem_of_fmap]%list_elem_of_filter)%list_elem_of_fmap. cbn in Hn. subst n.
    rewrite Hd. right. right. by eexists.
Qed.

#[refine] Definition system_Env : Env System := {|
  disk := sys_files;
  env_NewRandomAccessFile name e :=
    let '(c, e) := attempt e id in
    match sys_files e !! name with
    | Some f => (c, f, e)
    | None => (kIOError, [], e)
    end;
  env_NewSequentialFile name e :=
    let '(c, e) := attempt e id in
    match sys_files e !! name with
    | Some f => (c, f, e)
    | None => (kIOError, [], e)
    end;
  env_GetChildren dir e :=
    let '(c, e) := attempt e id in
    (c, if Status_ok c then children dir (sys_files e) else [], e);
  env_GetFileSize name e :=
    let '(c, e) := attempt e id in
    match sys_files e !! name with
    | Some f => (c, zlen f, e)
    | None => (kIOError, 0, e)
    end;
  env_NewWritableFile name e := attempt e <[name := []]>;
  env_NewAppendableFile name e := attempt e (fun d => <[name := default [] (d !! name)]> d);
  env_Append name s e := attempt e (fun d => <[name := default [] (d !! name) ++ s]> d);
  env_Flush name e := attempt e id;
  env_Sync name e := attempt e id;
  env_Close name e := attempt e id;
  env_DeleteFile name e := attempt e (delete name);
  env_RenameFile src dst e := attempt e (fun d => <[dst := default [] (d !! src)]> (delete src d));
  env_FileExists name e := bool_decide (is_Some (sys_files e !! name));
  env_CreateDir name e := attempt e id;
  env_DeleteDir name e := attempt e id;
  env_LockFile name e := attempt e (fun d => <[name := default [] (d !! name)]> d);
  env_UnlockFile name e := attempt e id;
|}.
Proof.
  all: unfold attempt, io_code.
  1-2: intros name e c f e'; destruct (sys_outcomes e) as [|[|] os]; cbn; (destruct (sys_files e !! name) eqn:Ef; intros [= <- <- <-]); cbn; (split_and!; [auto|done|by intros ?]).
  1: { intros dir e c names e'. destruct (sys_outcomes e) as [|[|] os]; intros [= <- <- <-]; cbn; (split_and!; [auto|done|]); intros ?; try done; apply children_spec. }
  1: { intros name e c n e'. destruct (sys_outcomes e) as [|[|] os]; cbn; (destruct (sys_files e !! name) eqn:Ef; intros [= <- <- <-]); cbn; (split_and!; [auto|done|intros ?; eauto; done]). }
  all: try done.
  8: { intros src dst e c e'. destruct (sys_outcomes e) as [|[|] os]; intros [= <- <-]; cbn; (split_and!; [auto|by intros ?|by intros ?]). }
  all: intros; destruct (sys_outcomes _) as [|[|] os]; simplify_eq; cbn; (split_and!; [auto|..]); intros; simplify_map_eq; try done.
Defined.

Section current.
Context {E : Type} `{!Env E}.
Implicit Types e : E.

Definition DoWriteStringToFile (data fname : list Z) (should_sync : bool) e : Code * E :=
  let '(s, e) := env_NewWritableFile fname e in
  if negb (Status_ok s) then (s, e)
  else
    let '(s, e) := env_Append fname data e in
    let '(s, e) := if Status_ok s && should_sync then env_Sync fname e else (s, e) in
    let '(s, e) := if Status_ok s then env_Close fname e else (s, e) in
    if negb (Status_ok s) then (s, (env_DeleteFile fname e).2) else (s, e).

Definition WriteStringToFileSync (data fname : list Z) e : Code * E := DoWriteStringToFile data fname true e.

Definition SetCurrentFile (dbname : list Z) (descriptor_number : Z) e : option (Code * E) :=
  manifest ← DescriptorFileName dbname descriptor_number;
  _ ← passert (starts_with manifest (dbname ++ chars "/"));
  let contents := drop (length dbname + 1) manifest in
  tmp ← TempFileName dbname descriptor_number;
  let '(s, e) := WriteStringToFileSync (contents ++ [10]) tmp e in
  let '(s, e) := if Status_ok s then env_RenameFile tmp (CurrentFileName dbname) e else (s, e) in
  Some (if negb (Status_ok s) then (s, (env_DeleteFile tmp e).2) else (s, e)).

Lemma DoWriteStringToFile_spec data fname sync e c e' : DoWriteStringToFile data fname sync e = (c, e') ->
  io_code c /\ touches fname e e' /\ (c = kOk -> disk e' !! fname = Some data).
Proof.
  unfold DoWriteStringToFile. destruct (env_NewWritableFile fname e) as [s1 e1] eqn:E1. apply NewWritableFile_spec in E1 as (C1 & T1 & D1).
  destruct (Status_ok s1) eqn:S1; cbn [negb]; [|intros [= <- <-]; split_and!; [done|done|]; intros ->; done]. apply Status_ok_eq in S1 as ->. specialize (D1 eq_refl).
  destruct (env_Append fname data e1) as [s2 e2] eqn:E2. apply Append_spec in E2 as (C2 & T2 & D2). rewrite D1 in D2. cbn in D2.
  assert (exists s3 e3, (if Status_ok s2 && sync then env_Sync fname e2 else (s2, e2)) = (s3, e3) /\ io_code s3 /\ touches fname e e3 /\ (s3 = kOk -> disk e3 !! fname = Some data))
    as (s3 & e3 & -> & C3 & T3 & D3).
  { assert (touches fname e e2) as T12 by (by eapply touches_trans). destruct (Status_ok s2 && sync) eqn:Es; [|by exists s2, e2].
    apply andb_true_iff in Es as [->%Status_ok_eq _]. destruct (env_Sync fname e2) as [s3 e3] eqn:E3. apply Sync_spec in E3 as (C3 & T3 & D3).
    exists s3, e3. split_and!; [done|done|by eapply touches_trans|]. intros Hs. rewrite D3 by done. by apply D2. }
  assert (exists s4 e4, (if Status_ok s3 then env_Close fname e3 else (s3, e3)) = (s4, e4) /\ io_code s4 /\ touches fname e e4 /\ (s4 = kOk -> disk e4 !! fname = Some data))
    as (s4 & e4 & -> & C4 & T4 & D4).
  { destruct (Status_ok s3) eqn:S3; [|by exists s3, e3]. apply Status_ok_eq in S3 as ->. destruct (env_Close fname e3) as [s4 e4] eqn:E4. apply Close_spec in E4 as (C4 & T4 & D4).
    exists s4, e4. split_and!; [done|done|by eapply touches_trans|]. intros Hs. rewrite D4 by done. by apply D3. }
  destruct (Status_ok s4) eqn:S4; cbn [negb]; intros [= <- <-]; [done|]. split; [done|]. split; [|by intros ->].
  destruct (env_DeleteFile fname e4) as [s5 e5] eqn:E5. apply DeleteFile_spec in E5 as (_ & T5 & _). by eapply touches_trans.
Qed.
End current.

(** The name that CURRENT gets. *)
Definition manifest_base (n : Z) : list Z := chars "MANIFEST-" ++ pad6 n.

Lemma SetCurrentFile_spec {E} `{!Env E} dbname n (e : E) : 0 < n < 2 ^ 64 ->
  exists c e', SetCurrentFile dbname n e = Some (c, e') /\ io_code c /\
    disk e' !! CurrentFileName dbname = (if Status_ok c then Some (manifest_base n ++ [10]) else disk e !! CurrentFileName dbname) /\
    forall x, x <> MakeFileName dbname n (chars "dbtmp") -> x <> CurrentFileName dbname -> disk e' !! x = disk e !! x.
Proof.
  intros Hn. assert (fits_unsigned 64 n) as Hf by (unfold fits_unsigned; lia). unfold SetCurrentFile, DescriptorFileName, TempFileName.
  rewrite (proj2 (Z.ltb_lt 0 n)) by lia. cbn [passert mbind option_bind]. set (name := manifest_base n).
  change (chars "/MANIFEST-" ++ pad6 n) with (chars "/" ++ name).
  assert (starts_with (dbname ++ chars "/" ++ name) (dbname ++ chars "/") = true) as ->.
  { unfold starts_with. apply bool_decide_eq_true_2. rewrite app_assoc. apply take_app_length. }
  cbn [passert mbind option_bind]. replace (drop (length dbname + 1) (dbname ++ chars "/" ++ name)) with name.
  2:{ rewrite drop_app_add. done. }
  set (tmp := MakeFileName dbname n (chars "dbtmp")).
  assert (tmp <> CurrentFileName dbname) as Hne.
  { unfold tmp, MakeFileName, CurrentFileName. intros E0%app_inv_head. destruct (pad6_digits n Hf) as (Hd & _ & Hp). destruct (pad6 n) as [|d ds]; [done|].
    apply Forall_cons in Hd as [Hd _]. apply (f_equal (.!! 1%nat)) in E0. vm_compute in E0. injection E0 as ->. unfold is_digit in Hd. lia. }
  destruct (WriteStringToFileSync (name ++ [10]) tmp e) as [c1 e1] eqn:E1. apply DoWriteStringToFile_spec in E1 as (C1 & T1 & D1).
  destruct (Status_ok c1) eqn:S1.
  - apply Status_ok_eq in S1 as ->. destruct (env_RenameFile tmp (CurrentFileName dbname) e1) as [c2 e2] eqn:E2. apply RenameFile_spec in E2 as (C2 & D2 & D2').
    destruct (Status_ok c2) eqn:S2; cbn [negb].
    + apply Status_ok_eq in S2 as ->. exists kOk, e2. split_and!; try done; rewrite D2, D1 by done.
      * by rewrite lookup_insert_eq.
      * intros x Hx Hx'. rewrite lookup_insert_ne, lookup_delete_ne by done. by apply T1.
    + destruct (env_DeleteFile tmp e2) as [c3 e3] eqn:E3. apply DeleteFile_spec in E3 as (_ & T3 & _). exists c2, e3. cbn [snd].
      assert (disk e2 = disk e1) as Ed by (apply D2'; by intros ->). split_and!; try done.
      * rewrite S2, T3, Ed by done. by apply T1.
      * intros x Hx Hx'. rewrite T3, Ed by done. by apply T1.
  - rewrite S1. cbn [negb]. destruct (env_DeleteFile tmp e1) as [c3 e3] eqn:E3. apply DeleteFile_spec in E3 as (_ & T3 & _). exists c1, e3. cbn [snd].
    split_and!; try done.
    + rewrite S1, T3 by done. by apply T1.
    + intros x Hx Hx'. rewrite T3 by done. by apply T1.
Qed.

(** ** Properties *)

(** C15 (set_current_atomic) [SetCurrentFile] points CURRENT at the new descriptor or
    leaves it as it was: when it succeeds CURRENT holds the name of the
    descriptor and a newline, when it fails CURRENT is unchanged, and in either
    case no file but CURRENT and the temporary one is touched. *)
Theorem set_current_atomic {E} `{!Env E} dbname n (e : E) : 0 < n < 2 ^ 64 ->
  exists c e' name tmp, SetCurrentFile dbname n e = Some (c, e') /\
    DescriptorFileName dbname n = Some (dbname ++ chars "/" ++ name) /\ ParseFileName name = Some (n, kDescriptorFile) /\
    TempFileName dbname n = Some tmp /\ io_code c /\
    disk e' !! CurrentFileName dbname = (if Status_ok c then Some (name ++ [10]) else disk e !! CurrentFileName dbname) /\
    forall x, x <> tmp -> x <> CurrentFileName dbname -> disk e' !! x = disk e !! x.
Proof.
  intros Hn. destruct (SetCurrentFile_spec dbname n e Hn) as (c & e' & E0 & Hc & Hcur & Hx).
  exists c, e', (manifest_base n), (MakeFileName dbname n (chars "dbtmp")). unfold DescriptorFileName, TempFileName. rewrite (proj2 (Z.ltb_lt 0 n)) by lia.
  split_and!; try done. apply parse_descriptor. unfold fits_unsigned. lia.
Qed.

Lemma set_current_atomic_witness :
  exists c e' name tmp, SetCurrentFile (Env0 := system_Env) (chars "/db") 5 (mkSystem {[chars "/db/CURRENT" := chars "MANIFEST-000002"]} [true; true; true; true; false]) = Some (c, e') /\
    c = kIOError /\ disk (Env := system_Env) e' !! CurrentFileName (chars "/db") = Some (chars "MANIFEST-000002") /\ TempFileName (chars "/db") 5 = Some tmp /\
    ParseFileName name = Some (5, kDescriptorFile).
Proof.
  destruct (set_current_atomic (Env0 := system_Env) (chars "/db") 5 (mkSystem {[chars "/db/CURRENT" := chars "MANIFEST-000002"]} [true; true; true; true; false]))
    as (c & e' & name & tmp & E & _ & Hp & Ht & _ & Hd & _); [split; reflexivity|].
  assert (c = kIOError) as -> by (vm_compute in E; congruence).
  exists kIOError, e', name, tmp. split; [exact E|]. split; [reflexivity|]. split; [rewrite Hd; vm_compute; reflexivity|]. split; [exact Ht|exact Hp].
Defined.
