(* ===== verification/TableCache.v ===== *)
(** The table cache ([src/leveldb/db/table_cache.cc]) and the writing of a table
    file ([src/leveldb/db/builder.cc]).

    The state is the file system, the cache of open tables and the cache of
    blocks that the tables share.  The comparator is the one of internal keys.
    A handle is the shard and the entry in it. *)
From stdpp Require Import strings.
From S2P Require Import Prelude Coding Dbformat LdbBase Crc32c Iterator Block Filter Format TwoLevel Table TableRead Cache.
From S2P Require Import WriteBatch Skiplist Memtable MemIter CacheTables CacheShards Numconv Filename TableIO Env VersionEdit Version.

(** A file that was opened is the octets it serves. *)
Record TableAndFile := mkTF { tf_file : list Z; tf_table : Table (list Z) }.

Record TableCache (E K : Type) := mkTC { tc_env : E; tc_cache : ShardedLRUCache TableAndFile; tc_blocks : option K }.
#[global] Arguments mkTC {E K}.
#[global] Arguments tc_env {E K}.
#[global] Arguments tc_cache {E K}.
#[global] Arguments tc_blocks {E K}.

Section table_cache.
Context (le : bool) (ptr : list Z -> Z) (snappy : Snappy) (policy : option FilterPolicy) (opts : Options) (uninit : Z) (dbname : list Z).
Context {E : Type} `{!Env E} {K : Type} `{!BlockCache K}.
Notation ICmp := (InternalKey_Comparator le).
Implicit Types (tc : TableCache E K) (n : Z).

Definition new_TableCache (entries : Z) (env : E) (blocks : option K) : option (TableCache E K) :=
  cache ← NewLRUCache entries;
  Some (mkTC env cache blocks).

(** The file, under its name or the one that older releases used. *)
Definition open_table_file n (env : E) : option (Code * list Z * E) :=
  fname ← TableFileName dbname n;
  let '(s, file, env) := env_NewRandomAccessFile fname env in
  if negb (Status_ok s) then
    old_fname ← SSTTableFileName dbname n;
    let '(s', file', env) := env_NewRandomAccessFile old_fname env in
    Some (if Status_ok s' then (kOk, file', env) else (s, file, env))
  else Some (s, file, env).

Definition FindTable n (file_size : Z) tc : option (Code * option (Z * nat) * TableCache E K) :=
  let key := EncodeFixed64 le n in
  hash ← HashSlice le key;
  '(handle, cache) ← Cache_Lookup le key (tc_cache tc);
  match handle with
  | Some h => Some (kOk, Some (Shard hash, h), mkTC (tc_env tc) cache (tc_blocks tc))
  | None =>
      '(s, file, env) ← open_table_file n (tc_env tc);
      '(s, table, blocks) ← (if Status_ok s then Open le ptr snappy policy (o_paranoid_checks opts) uninit file file_size (tc_blocks tc)
                             else Some (s, None, tc_blocks tc));
      match table with
      | None =>
          _ ← passert (negb (Status_ok s));
          Some (s, None, mkTC env cache blocks)
      | Some t =>
          _ ← passert (Status_ok s);
          '(h, cache) ← Cache_Insert le key (mkTF file t) 1 cache;
          Some (s, Some (Shard hash, h), mkTC env cache blocks)
      end
  end.

(** The callback receives at most one entry. *)
Definition TableCache_Get (options : ReadOptions) n (file_size : Z) (k : list Z) tc :
  option (Code * option (list Z * list Z) * TableCache E K) :=
  '(s, handle, tc) ← FindTable n file_size tc;
  if Status_ok s then
    '(shard, h) ← handle;
    tf ← Cache_Value shard h (tc_cache tc);
    '(s, saved, blocks) ← InternalGet (C := ICmp) le ptr snappy policy uninit (tf_table tf) options (tc_blocks tc) k;
    cache ← Cache_Release shard h (tc_cache tc);
    Some (s, saved, mkTC (tc_env tc) cache blocks)
  else Some (s, None, tc).

(** An iterator and, for one over a table, the handle that its destruction gives
    back. *)
Inductive TableIter := TIError (it : EmptyIterator)
  | TITable (t : Table (list Z)) (it : TwoLevelIterator NewIter NewIter (option (cache_handle K)) (option K)) (handle : Z * nat).

Definition TableCache_NewIterator n (file_size : Z) tc : option (TableIter * TableCache E K) :=
  '(s, handle, tc) ← FindTable n file_size tc;
  if negb (Status_ok s) then Some (TIError (NewErrorIterator s), tc)
  else
    handle ← handle;
    tf ← Cache_Value handle.1 handle.2 (tc_cache tc);
    result ← Table_NewIterator (C := ICmp) le (tf_table tf) (tc_blocks tc);
    Some (TITable (tf_table tf) result handle, tc).

Definition TableIter_status (options : ReadOptions) (it : TableIter) : Code :=
  match it with
  | TIError it => it_status it
  | TITable t it _ => it_status (Iterator := Table_Iterator (C := ICmp) le ptr snappy uninit t options) it
  end.

(** The members are destroyed before the cleanup of the base class runs. *)
Definition TableIter_delete (it : TableIter) tc : option (TableCache E K) :=
  match it with
  | TIError _ => Some tc
  | TITable _ it (shard, h) =>
      blocks ← delete_TwoLevelIterator ReleaseBlock it;
      cache ← Cache_Release shard h (tc_cache tc);
      Some (mkTC (tc_env tc) cache blocks)
  end.

Definition TableCache_Evict n tc : option (TableCache E K) :=
  cache ← Cache_Erase le (EncodeFixed64 le n) (tc_cache tc);
  Some (mkTC (tc_env tc) cache (tc_blocks tc)).

#[export] Instance TableCache_reader : TableReader (TableCache E K) := TableCache_Get.

(** ** BuildTable *)
Context {I : Type} `{!Iterator I}.
Implicit Types (iter : I) (meta : FileMetaData).

Fixpoint add_loop (fuel : nat) iter meta (builder : TBRep (OpenFile E)) : option (I * FileMetaData * TBRep (OpenFile E)) :=
  match fuel with
  | O => None
  | S fuel =>
      if it_Valid iter then
        key ← it_key iter;
        let meta := mkFile (allowed_seeks meta) (number meta) (VersionEdit.file_size meta) (smallest meta) key in
        value ← it_value iter;
        builder ← TableBuilder_Add (S := InternalKey_Separators le) le ptr snappy policy key value builder;
        iter ← it_Next iter;
        add_loop fuel iter meta builder
      else Some (iter, meta, builder)
  end.

(** The part under [if (iter->Valid())], once the file is open; the status is OK
    there, so that [builder->Abandon()] is not reached. *)
Definition write_table (fuel : nat) (fname : list Z) iter meta tc : option (Code * I * FileMetaData * TableCache E K) :=
  builder ← new_TableBuilder policy opts (mkOpenFile fname (tc_env tc));
  key ← it_key iter;
  let meta := mkFile (allowed_seeks meta) (number meta) (VersionEdit.file_size meta) key (largest meta) in
  '(iter, meta, builder) ← add_loop fuel iter meta builder;
  '(s, builder) ← TableBuilder_Finish (S := InternalKey_Separators le) le ptr snappy policy builder;
  meta ← (if Status_ok s then
            let size := FileSize builder in
            _ ← passert (0 <? size);
            Some (mkFile (allowed_seeks meta) (number meta) size (smallest meta) (largest meta))
          else Some meta);
  let env := of_env (tb_file builder) in
  let '(s, env) := if Status_ok s then env_Sync fname env else (s, env) in
  let '(s, env) := if Status_ok s then env_Close fname env else (s, env) in
  let tc := mkTC env (tc_cache tc) (tc_blocks tc) in
  if Status_ok s then
    '(it, tc) ← TableCache_NewIterator (number meta) (VersionEdit.file_size meta) tc;
    let s := TableIter_status default_ReadOptions it in
    tc ← TableIter_delete it tc;
    Some (s, iter, meta, tc)
  else Some (s, iter, meta, tc).

Definition BuildTable (fuel : nat) iter meta tc : option (Code * FileMetaData * TableCache E K) :=
  let meta := mkFile (allowed_seeks meta) (number meta) 0 (smallest meta) (largest meta) in
  iter ← it_SeekToFirst iter;
  fname ← TableFileName dbname (number meta);
  let finish (s : Code) iter meta tc :=
    let s := if negb (Status_ok (it_status iter)) then it_status iter else s in
    if Status_ok s && (0 <? VersionEdit.file_size meta) then Some (s, meta, tc)
    else Some (s, meta, mkTC (env_DeleteFile fname (tc_env tc)).2 (tc_cache tc) (tc_blocks tc)) in
  if it_Valid iter then
    let '(s, env) := env_NewWritableFile fname (tc_env tc) in
    let tc := mkTC env (tc_cache tc) (tc_blocks tc) in
    if negb (Status_ok s) then Some (s, meta, tc)
    else
      '(s, iter, meta, tc) ← write_table fuel fname iter meta tc;
      finish s iter meta tc
  else finish kOk iter meta tc.
End table_cache.

(** ** Correctness *)
Section proofs.
Context (le : bool) (ptr : list Z -> Z) (snappy : Snappy) (policy : option FilterPolicy) (opts : Options) (uninit : Z) (dbname : list Z) (cap : Z).
Context {E : Type} `{!Env E} {K : Type} `{!BlockCache K}.
Notation Sep := (InternalKey_Separators le).
Context (Hptr : addresses ptr) (Hsnappy : Snappy_inverse snappy).
Context (Hcomp : o_compression opts = kNoCompression \/ o_compression opts = kSnappyCompression).
Context (Hint : 1 <= o_block_restart_interval opts).
Context (same_match : forall P x y f, policy = Some P -> same (Separators := Sep) x y -> FP_KeyMayMatch x f = FP_KeyMayMatch y f).
Context (Hcap : 0 <= cap < 2 ^ 30).
Implicit Types (tc : TableCache E K) (n b : Z) (Ls : gmap Z layout) (L : layout) (c : K) (owner : Z -> Z).
Notation layout_ok := (layout_ok (S := Sep) le snappy policy opts).
Notation tl_bytes := (tl_bytes le snappy policy opts).
Notation table_reads := (table_reads (S := Sep) le le snappy policy opts uninit).

Definition table_name n : list Z := MakeFileName dbname n (chars "ldb").
Definition old_name n : list Z := MakeFileName dbname n (chars "sst").

(** The files of the tables are on the disk. *)
Definition on_disk (e : E) Ls : Prop := forall n L, Ls !! n = Some L ->
  0 < n < 2 ^ 64 /\ layout_ok L /\ disk e !! table_name n = Some (tl_bytes L) /\ disk e !! old_name n = None.

(** Every table that is cached reads its own file, under an identifier that no
    other table has. *)
Definition tc_entry c owner Ls (key : list Z) (tf : TableAndFile) : Prop := exists n L, key = EncodeFixed64 le n /\ 0 < n < 2 ^ 64 /\
  Ls !! n = Some L /\ table_reads L c (tf_table tf) /\ owner (t_cache_id (tf_table tf)) = n.

(** [b] more tables can be opened. *)
Record tc_ok tc b Ls c owner : Prop := {
  tc_has_blocks : tc_blocks tc = Some c;
  tc_ids : ids_below le c;
  tc_out : cache_out c [];
  tc_next : 0 < next_id c /\ next_id c + b <= 2 ^ 64;
  tc_files : on_disk (tc_env tc) Ls;
}.
Definition tc_inv tc b Ls : Prop := exists c owner, tc_ok tc b Ls c owner /\ quiet le cap (tc_entry c owner Ls) (tc_cache tc).

Lemma tc_inv_less tc b b' Ls : b' <= b -> tc_inv tc b Ls -> tc_inv tc b' Ls.
Proof. intros Hb (c & owner & [H1 H2 Hout H3 H4] & H5). exists c, owner. split; [|done]. constructor; try done. lia. Qed.

Lemma names_ok n : 0 < n < 2 ^ 64 -> TableFileName dbname n = Some (table_name n) /\ SSTTableFileName dbname n = Some (old_name n).
Proof. intros Hn. unfold TableFileName, SSTTableFileName. by rewrite (proj2 (Z.ltb_lt 0 n)) by lia. Qed.

Lemma names_apart n n' : 0 < n < 2 ^ 64 -> 0 < n' < 2 ^ 64 -> (n <> n' -> table_name n <> table_name n') /\ old_name n <> table_name n' /\ (n <> n' -> old_name n <> old_name n').
Proof.
  intros Hn Hn'. assert (fits_unsigned 64 n /\ fits_unsigned 64 n') as [F1 F2] by (unfold fits_unsigned; lia). unfold table_name, old_name.
  split; [|split]; [intros Hne E0|intros E0|intros Hne E0]; apply (MakeFileName_inj _ _ _ _ _ F1 F2) in E0 as [E0 E1]; [done| |done]. discriminate E1.
Qed.

Lemma key_inj n n' : 0 < n < 2 ^ 64 -> 0 < n' < 2 ^ 64 -> EncodeFixed64 le n = EncodeFixed64 le n' -> n = n'.
Proof.
  intros Hn Hn' E0. rewrite !EncodeFixed64_eq in E0. apply (f_equal le_dec) in E0. rewrite !le_dec_enc in E0. by rewrite !Z.mod_small in E0 by (simpl; lia).
Qed.

Lemma open_table_file_spec e Ls n L : on_disk e Ls -> Ls !! n = Some L -> exists s file e', open_table_file dbname n e = Some (s, file, e') /\ disk e' = disk e /\
  (s = kOk /\ file = tl_bytes L \/ s = kIOError).
Proof.
  intros Hd HL. destruct (Hd n L HL) as (Hn & Hok & Hf & Hold). unfold open_table_file. destruct (names_ok n Hn) as [-> ->]. cbn [mbind option_bind].
  destruct (env_NewRandomAccessFile (table_name n) e) as [[s file] e1] eqn:E1. apply NewRandomAccessFile_spec in E1 as (C1 & D1 & F1).
  destruct (Status_ok s) eqn:Es; cbn [negb].
  - apply Status_ok_eq in Es as ->. exists kOk, file, e1. split; [done|]. split; [done|]. left. split; [done|]. rewrite F1 in Hf by done. by injection Hf.
  - cbn [mbind option_bind]. destruct (env_NewRandomAccessFile (old_name n) e1) as [[s' file'] e2] eqn:E2. apply NewRandomAccessFile_spec in E2 as (C2 & D2 & F2).
    rewrite D1, Hold in F2. destruct (Status_ok s') eqn:Es'; [apply Status_ok_eq in Es' as ->; by specialize (F2 eq_refl)|].
    exists s, file, e2. split; [done|]. split; [congruence|]. right. by destruct C1 as [-> |].
Qed.

Lemma tc_entry_kept c c' owner owner' Ls key tf : tc_entry c owner Ls key tf ->
  (forall n L, Ls !! n = Some L -> table_reads L c (tf_table tf) -> owner (t_cache_id (tf_table tf)) = n -> table_reads L c' (tf_table tf) /\ owner' (t_cache_id (tf_table tf)) = n) ->
  tc_entry c' owner' Ls key tf.
Proof. intros (n & L & -> & Hn & HL & Hr & Ho) H. exists n, L. destruct (H n L HL Hr Ho). split; [done|]. split; [done|]. split; [done|]. by split. Qed.

(** A table found or opened, its handle out; or an error. *)
Lemma FindTable_spec tc b Ls n L : tc_inv tc b Ls -> 0 < b -> Ls !! n = Some L ->
  exists s h tc', FindTable le ptr snappy policy opts uninit dbname n (zlen (tl_bytes L)) tc = Some (s, h, tc') /\
    disk (tc_env tc') = disk (tc_env tc) /\
    ((exists c owner v h0, s = kOk /\ h = Some (Shard (hash_of le (EncodeFixed64 le n)), h0) /\ tc_ok tc' (b - 1) Ls c owner /\
       holding le cap (tc_entry c owner Ls) (EncodeFixed64 le n) v h0 (tc_cache tc') /\ table_reads L c (tf_table v) /\ owner (t_cache_id (tf_table v)) = n) \/
     s = kIOError /\ forall Ls0, tc_inv tc b Ls0 -> tc_inv tc' (b - 1) Ls0).
Proof using Hptr Hsnappy Hcomp Hint Hcap.
  intros (c & owner & [H1 H2 Hout H3 H4] & Hq) Hb HL. destruct (H4 n L HL) as (Hn & Hok & _). unfold FindTable. set (key := EncodeFixed64 le n).
  rewrite (proj1 (HashSlice_spec le key)). cbn [mbind option_bind].
  destruct (quiet_lookup le cap Hcap _ key _ Hq) as (r & cache & El & _ & Hr). rewrite El. cbn [mbind option_bind]. destruct r as [h0|].
  - destruct Hr as (v & Hv & Hold). eexists _, _, _. split; [done|]. split; [done|]. left. exists c, owner, v, h0. split_and!; try done.
    + constructor; cbn; try done. lia.
    + destruct Hv as (n' & L' & Ek & Hn' & HL' & Hr & _). apply key_inj in Ek as <-; [|done..]. rewrite HL in HL'. by injection HL' as <-.
    + destruct Hv as (n' & L' & Ek & Hn' & HL' & Hr & Ho). by apply key_inj in Ek as <-.
  - destruct (open_table_file_spec (tc_env tc) Ls n L H4 HL) as (s & file & e' & -> & Hd & [[-> ->]| ->]); cbn [mbind option_bind].
    2:{ cbn [Status_ok bool_decide]. cbn [mbind option_bind]. eexists _, _, _. split; [done|]. split; [done|]. right. split; [done|].
        intros Ls0 (c0 & owner0 & [I1 I2 Iout I3 I4] & Hq0). destruct (quiet_lookup le cap Hcap _ key _ Hq0) as (r & cache0 & El0 & _ & Hr0). rewrite El in El0. injection El0 as <- <-.
        exists c0, owner0. split; [|done]. constructor; cbn; try done; [lia|]. unfold on_disk. by rewrite Hd. }
    change (Status_ok kOk) with true. cbv iota. rewrite H1.
    edestruct (open_reads (S := Sep) le le ptr snappy policy opts uninit) as (t & c' & E0 & Hreads & Hids & Hco & Hid & Hnx & Hkeep); [done..| |exact H2|exact Hout|lia|].
    { split; [exact Hok|]. split; [apply serves_itself|done]. }
    rewrite E0. cbn [mbind option_bind]. change (Status_ok kOk) with true. cbn [passert mbind option_bind].
    set (owner' := fun id => if id =? next_id c then n else owner id).
    assert (forall k v, tc_entry c owner Ls k v -> tc_entry c' owner' Ls k v) as Hgo.
    { intros k v Hv. eapply tc_entry_kept; [exact Hv|]. intros m L' _ Hr' Ho. split; [auto|]. unfold owner'. rewrite (proj2 (Z.eqb_neq _ _)); [done|].
      destruct Hr' as (_ & _ & _ & _ & _ & Hlt). lia. }
    destruct (quiet_insert le cap Hcap (tc_entry c' owner' Ls) key (mkTF (tl_bytes L) t) cache) as (h0 & cache' & -> & _ & Hold).
    { eapply quiet_impl; [|exact Hr]. auto. }
    { exists n, L. unfold owner'. cbn. rewrite Hid, Z.eqb_refl. split; [done|]. split; [done|]. split; [done|]. by split. }
    cbn [mbind option_bind]. eexists _, _, _. split; [done|]. split; [done|]. left. exists c', owner', (mkTF (tl_bytes L) t), h0.
    split; [done|]. split; [done|]. split; [constructor; cbn; try done; [lia|]; unfold on_disk; by rewrite Hd|]. split; [done|]. split; [done|].
    unfold owner'. cbn. by rewrite Hid, Z.eqb_refl.
Qed.

Lemma TableCache_Get_spec options tc b Ls n L k : tc_inv tc b Ls -> 0 < b -> Ls !! n = Some L -> is_ikey k -> fkey policy k ->
  exists s saved tc', TableCache_Get le ptr snappy policy opts uninit dbname options n (zlen (tl_bytes L)) k tc = Some (s, saved, tc') /\
    tc_inv tc' (b - 1) Ls /\ disk (tc_env tc') = disk (tc_env tc) /\ io_code s /\ (s = kOk -> answers (S := Sep) (tl_entries L) k saved).
Proof using Hptr Hsnappy Hcomp Hint same_match Hcap.
  intros Hinv Hb HL Hk Hfk. unfold TableCache_Get.
  destruct (FindTable_spec tc b Ls n L Hinv Hb HL) as (s & h & tc' & -> & Hd & [(c & owner & v & h0 & -> & -> & [H1 H2 Hout H3 H4] & Hold & Hr & Ho)|[-> Hi]]);
    cbn [mbind option_bind]; [|cbn; eexists _, _, _; split; [done|]; split_and!; auto; by right].
  change (Status_ok kOk) with true. cbv iota. rewrite (holding_value le cap _ _ _ _ _ Hold). cbn [mbind option_bind]. rewrite H1.
  edestruct (get_reads (S := Sep) le le ptr snappy policy opts uninit) as (saved & c' & E0 & Hans & Hids & Hco & Hnx & Hkeep);
    [done|done|done|done|exact same_match|exact Hr|exact H2|exact Hout|done|lia|exact Hk|exact Hfk|]. rewrite E0. cbn [mbind option_bind].
  destruct (holding_release le cap Hcap _ _ _ _ _ Hold) as (cache & -> & _ & Hq). cbn [mbind option_bind]. eexists _, _, _. split; [done|].
  split; [|split_and!; [done|by left|done]]. exists c', owner. split; [constructor; cbn; [done|done|done|lia|done]|]. eapply quiet_impl; [|exact Hq]. intros key tf Hv.
  eapply tc_entry_kept; [exact Hv|]. intros m L' HL' Hr' Ho'. split; [|done]. apply Hkeep; [done|]. intros Eid.
  rewrite Eid, Ho in Ho'. subst m. rewrite HL in HL'. by injection HL'.
Qed.

Lemma TableCache_Evict_spec tc b Ls n : tc_inv tc b Ls ->
  exists tc', TableCache_Evict le n tc = Some tc' /\ tc_inv tc' b (delete n Ls) /\ tc_env tc' = tc_env tc.
Proof using Hcap.
  intros (c & owner & [H1 H2 Hout H3 H4] & Hq). unfold TableCache_Evict.
  destruct (quiet_erase le cap Hcap _ (EncodeFixed64 le n) _ Hq) as (cache & -> & _ & Hq'). cbn [mbind option_bind]. eexists. split; [done|]. split; [|done].
  exists c, owner. split.
  - constructor; try done. intros m L [_ HL]%lookup_delete_Some. by apply H4.
  - eapply quiet_impl; [|exact Hq']. intros k tf [(m & L & -> & Hm & HL & Hr & Ho) Hne]. exists m, L. split; [done|]. split; [done|]. split; [|done].
    rewrite lookup_delete_ne; [done|]. intros ->. by apply Hne.
Qed.

(** Opening and closing an iterator. *)
Lemma NewIterator_status tc b Ls n L : tc_inv tc b Ls -> 0 < b -> Ls !! n = Some L ->
  exists it tc1 tc', TableCache_NewIterator le ptr snappy policy opts uninit dbname n (zlen (tl_bytes L)) tc = Some (it, tc1) /\
    TableIter_delete it tc1 = Some tc' /\ disk (tc_env tc') = disk (tc_env tc) /\
    (TableIter_status le ptr snappy uninit default_ReadOptions it = kOk /\ tc_inv tc' (b - 1) Ls \/
     TableIter_status le ptr snappy uninit default_ReadOptions it = kIOError /\ forall Ls0, tc_inv tc b Ls0 -> tc_inv tc' (b - 1) Ls0).
Proof using Hptr Hsnappy Hcomp Hint Hcap.
  intros Hinv Hb HL. unfold TableCache_NewIterator.
  destruct (FindTable_spec tc b Ls n L Hinv Hb HL) as (s & h & tc' & -> & Hd & [(c & owner & v & h0 & -> & -> & [H1 H2 Hout H3 H4] & Hold & Hr & Ho)|[-> Hi]]);
    cbn [mbind option_bind]; [|cbn; eexists _, _, _; split; [done|]; split; [done|]; split; [done|]; by right].
  change (Status_ok kOk) with true. cbn [negb fst snd]. rewrite (holding_value le cap _ _ _ _ _ Hold). cbn [mbind option_bind]. rewrite H1.
  destruct (iter_reads (S := Sep) le le ptr snappy policy opts uninit Hptr Hsnappy Hcomp Hint L c [] (tf_table v) default_ReadOptions Hr Hout ltac:(done)) as (it & E0 & Hst & Edel).
  rewrite E0. cbn [mbind option_bind]. destruct (holding_release le cap Hcap _ _ _ _ _ Hold) as (cache & Er & _ & Hq).
  exists (TITable (tf_table v) it (Shard (hash_of le (EncodeFixed64 le n)), h0)), tc', (mkTC (tc_env tc') cache (Some c)).
  split; [done|]. cbn [TableIter_status TableIter_delete]. rewrite Edel. cbn [mbind option_bind]. rewrite Er. cbn [mbind option_bind]. split; [done|]. split; [done|]. left.
  split; [exact Hst|]. exists c, owner. by split; [constructor|].
Qed.

(** ** Writing a table *)
Section build.
Context {I : Type} `{!Iterator I} (es : list (list Z * list Z)) (at_ : I -> nat -> Prop) (Hscan : is_scan es at_).

Lemma add_loop_spec fuel : forall i iter meta builder builder', at_ iter i -> (i <= length es)%nat -> (length es - i < fuel)%nat ->
  TableBuilder_add_all (S := Sep) le ptr snappy policy (drop i es) builder = Some builder' ->
  exists iter', add_loop le ptr snappy policy fuel iter meta builder =
    Some (iter', mkFile (allowed_seeks meta) (number meta) (VersionEdit.file_size meta) (smallest meta) (default (largest meta) (fst <$> last (drop i es))), builder') /\
    at_ iter' (length es).
Proof using Hscan.
  induction fuel as [|fuel IH]; intros i iter meta builder builder' Ha Hi Hf E0; [lia|]. cbn [add_loop]. destruct (es !! i) as [e|] eqn:He.
  - destruct (scan_get _ _ Hscan _ _ _ Ha He) as (-> & -> & ->). cbn [mbind option_bind]. rewrite (drop_S _ _ _ He) in E0 |- *.
    destruct e as [k v]. cbn [TableBuilder_add_all fst snd] in E0 |- *. destruct (TableBuilder_Add _ _ _ _ k v builder) as [b1|]; [|done]. cbn [mbind option_bind] in E0 |- *.
    apply lookup_lt_Some in He. destruct (scan_next _ _ Hscan _ _ Ha He) as (iter1 & -> & Ha1). cbn [mbind option_bind].
    destruct (IH (Datatypes.S i) iter1 (mkFile (allowed_seeks meta) (number meta) (VersionEdit.file_size meta) (smallest meta) k) b1 builder' Ha1 ltac:(lia) ltac:(lia) E0)
      as (iter' & -> & Ha'). exists iter'. split; [|done]. do 3 f_equal. rewrite last_cons. destruct (last (drop (Datatypes.S i) es)); done.
  - rewrite (scan_end _ _ Hscan _ _ Ha He). apply lookup_ge_None in He. rewrite drop_ge in E0 |- * by lia. injection E0 as <-.
    exists iter. assert (i = length es) as <- by lia. split; [|done]. by destruct meta.
Qed.

Lemma new_builder_live fname e : disk e !! fname = Some [] -> exists r m, new_TableBuilder policy opts (mkOpenFile fname e) = Some r /\
  new_TableBuilder policy opts [] = Some m /\ live policy (mkOpenFile fname e) r m /\ closed r = false.
Proof.
  intros Hf. unfold new_TableBuilder. set (m0 := mkTB opts ([] : list Z) 0 kOk new_BlockBuilder new_BlockBuilder [] 0 false _ false new_BlockHandle).
  assert (filter_block m0 = None \/ exists fb, filter_block m0 = Some fb /\ filter_offsets_ fb = []) as Hfb.
  { unfold m0. cbn. destruct policy; [right; by eexists|by left]. }
  assert (is_Some (on_filter policy (fun P => StartBlock 0) m0)) as [m Em].
  { unfold on_filter. destruct policy as [P|]; [|by eexists]. destruct Hfb as [-> |(b & -> & Hb)]; [by eexists|].
    unfold StartBlock. rewrite Hb. cbn. rewrite Hb. cbn. by eexists. }
  exists (over (mkOpenFile fname e) m), m. split; [|split; [done|]].
  - change (mkTB opts (mkOpenFile fname e) 0 kOk new_BlockBuilder new_BlockBuilder [] 0 false _ false new_BlockHandle) with (over (mkOpenFile fname e) m0).
    rewrite on_filter_over', Em. done.
  - pose proof (on_filter_start policy m0 m Em) as (H1 & H2 & H3 & H4). split; [split; [|done]|exact H4]. apply over_status; [|done|apply evolves_refl].
    cbn. rewrite Hf, H2. done.
Qed.

(** Which tables there are after [BuildTable], and the file it describes. *)
Definition built n meta s meta' tc' b Ls : Prop :=
  if Status_ok s then
    match es with
    | [] => VersionEdit.file_size meta' = 0 /\ tc_inv tc' b Ls
    | e :: _ => exists L, tl_entries L = es /\ 0 < zlen (tl_bytes L) < 2 ^ 41 /\ tc_inv tc' b (<[n := L]> Ls) /\
        meta' = mkFile (allowed_seeks meta) n (zlen (tl_bytes L)) e.1 (default [] (fst <$> last es))
    end
  else tc_inv tc' b Ls.

Lemma on_disk_touched e e' Ls n : on_disk e Ls -> touches (table_name n) e e' -> Ls !! n = None -> 0 < n < 2 ^ 64 -> on_disk e' Ls.
Proof.
  intros Hd Ht Hn Hr m L HL. destruct (Hd m L HL) as (H1 & H2 & H3 & H4). split; [done|]. split; [done|].
  assert (m <> n) as Hne by (intros ->; by rewrite Hn in HL). destruct (names_apart m n H1 Hr) as (N1 & N2 & _). by rewrite (Ht _ (N1 Hne)), (Ht _ N2).
Qed.

Lemma tc_inv_env tc e' b Ls n : tc_inv tc b Ls -> touches (table_name n) (tc_env tc) e' -> Ls !! n = None -> 0 < n < 2 ^ 64 ->
  tc_inv (mkTC e' (tc_cache tc) (tc_blocks tc)) b Ls.
Proof.
  intros (c & owner & [H1 H2 Hout H3 H4] & Hq) Ht Hn Hr. exists c, owner. split; [|done]. constructor; cbn; try done. by eapply on_disk_touched.
Qed.

Lemma tc_inv_new tc b Ls n L : tc_inv tc b Ls -> Ls !! n = None -> 0 < n < 2 ^ 64 -> layout_ok L -> disk (tc_env tc) !! table_name n = Some (tl_bytes L) ->
  disk (tc_env tc) !! old_name n = None -> tc_inv tc b (<[n := L]> Ls).
Proof.
  intros (c & owner & [H1 H2 Hout H3 H4] & Hq) Hn Hr Hok Hf Hold. exists c, owner. split.
  - constructor; try done. intros m L' [[<- <-]|[Hne Hm]]%lookup_insert_Some; [done|by apply H4].
  - eapply quiet_impl; [|exact Hq]. intros key tf (m & L' & -> & Hm & HL' & Hr' & Ho). exists m, L'. split; [done|]. split; [done|].
    split; [|done]. rewrite lookup_insert_ne; [done|]. intros <-. by rewrite Hn in HL'.
Qed.

Lemma write_table_spec fuel iter meta tc b Ls n e0 : at_ iter 0%nat -> head es = Some e0 -> (length es < fuel)%nat -> entries_ok (C := InternalKey_Comparator le) policy es ->
  n = number meta -> 0 < n < 2 ^ 64 -> Ls !! n = None -> VersionEdit.file_size meta = 0 ->
  disk (tc_env tc) !! table_name n = Some [] -> disk (tc_env tc) !! old_name n = None -> tc_inv tc b Ls -> 0 < b ->
  exists s iter' meta' tc', write_table le ptr snappy policy opts uninit dbname fuel (table_name n) iter meta tc = Some (s, iter', meta', tc') /\
    at_ iter' (length es) /\ touches (table_name n) (tc_env tc) (tc_env tc') /\
    (s <> kOk -> tc_inv tc' (b - 1) Ls) /\
    (s = kOk -> exists L, tl_entries L = es /\ 0 < zlen (tl_bytes L) < 2 ^ 41 /\ tc_inv tc' (b - 1) (<[n := L]> Ls) /\
        meta' = mkFile (allowed_seeks meta) n (zlen (tl_bytes L)) e0.1 (default [] (fst <$> last es))).
Proof using Hscan Hptr Hsnappy Hcomp Hint Hcap same_match.
  intros Ha He0 Hfuel Hok -> Hn HLn Hsz Hf Hold Hinv Hb. unfold write_table. set (n := number meta) in *.
  destruct (new_builder_live (table_name n) (tc_env tc) Hf) as (r & m & -> & Em & Hlive & Hcl). cbn [mbind option_bind].
  assert (es !! 0%nat = Some e0) as He0' by (by destruct es). destruct (scan_get _ _ Hscan _ _ _ Ha He0') as (_ & -> & _). cbn [mbind option_bind].
  destruct (table_built le ptr snappy (S := Sep) policy opts es) as (m2 & gs & idx & fc & Eb & Hbytes & Hoff & _ & Ec & Htok & Hlen); [done..|].
  unfold build_table in Eb. rewrite Em in Eb. cbn [mbind option_bind] in Eb. destruct (TableBuilder_add_all le ptr snappy policy es m) as [m1|] eqn:Ea; [|done]. cbn [mbind option_bind] in Eb.
  destruct (add_all_sim le ptr snappy policy _ es r m m1 (or_introl Hlive) Hcl Ea) as (r1 & Er1 & Hcl1 & Hr1).
  set (L := mkLayout gs idx fc). assert (layout_ok L) as HLok by (split; [exact Htok|rewrite Hbytes in Hlen; exact Hlen]).
  assert (kEncodedLength <= zlen (tl_bytes L)) as Hlong.
  { eapply (table_long le ptr snappy (S := Sep) policy opts Hptr Hsnappy Hcomp Hint gs idx fc Htok). rewrite <-Hbytes. exact Hlen. }
  change kEncodedLength with 48 in Hlong. assert (zlen (tl_bytes L) < 2 ^ 41) as Hsmall by (apply HLok). clear Htok.
  destruct (add_loop_spec fuel 0 iter (mkFile (allowed_seeks meta) n (VersionEdit.file_size meta) e0.1 (largest meta)) r r1 Ha ltac:(lia) ltac:(lia) Er1) as (iter' & El & Ha').
  rewrite drop_0 in El. cbn [allowed_seeks number VersionEdit.file_size smallest largest] in El.
  assert (default (largest meta) (fst <$> last es) = default [] (fst <$> last es)) as Elast by (destruct (last es) eqn:El'; [done|]; apply last_None in El'; by rewrite El' in He0).
  rewrite Elast in El. rewrite El. cbn [mbind option_bind allowed_seeks number VersionEdit.file_size smallest largest].
  destruct (Finish_sim le ptr snappy policy _ r1 m1 (kOk, m2) Hr1 Hcl1 Eb) as (c & r2 & -> & Hev & Hsim). cbn [mbind option_bind].
  destruct Hev as [Hname Htouch]. cbn [of_name of_env] in Hname, Htouch.
  assert (forall e', touches (table_name n) (of_env (tb_file r2)) e' -> touches (table_name n) (tc_env tc) e') as Hgo by (intros; by eapply touches_trans).
  assert (forall e', touches (table_name n) (of_env (tb_file r2)) e' -> tc_inv (mkTC e' (tc_cache tc) (tc_blocks tc)) b Ls) as Hgoi by (intros; eapply tc_inv_env; eauto).
  destruct (Status_ok c) eqn:Ecs.
  2:{ cbn [mbind option_bind]. rewrite Ecs. rewrite Ecs. eexists _, _, _, _. split; [done|]. split; [done|]. split; [by apply Hgo, touches_refl|]. split; [|by intros ->].
      intros _. eapply tc_inv_less; [|apply Hgoi, touches_refl]. lia. }
  apply Status_ok_eq in Ecs as ->. destruct (Hsim eq_refl) as (_ & f & -> & Hwf & _). cbn [snd] in *. unfold FileSize. cbn [over tb_offset tb_file] in *. rewrite Hoff, Hbytes. rewrite Hbytes in Hwf.
  change (table_bytes le snappy policy opts gs idx fc) with (tl_bytes L) in *.
  rewrite (proj2 (Z.ltb_lt 0 (zlen (tl_bytes L)))) by lia. cbn [passert mbind option_bind]. change (Status_ok kOk) with true. cbv iota.
  destruct (env_Sync (table_name n) (of_env f)) as [s1 e1] eqn:E1. apply Sync_spec in E1 as (_ & T1 & D1).
  destruct (Status_ok s1) eqn:S1.
  2:{ rewrite S1. eexists _, _, _, _. split; [done|]. split; [done|]. split; [by apply Hgo|]. split; [|by intros ->].
      intros _. eapply tc_inv_less; [|by apply Hgoi]. lia. }
  apply Status_ok_eq in S1 as ->. destruct (env_Close (table_name n) e1) as [s2 e2] eqn:E2. apply Close_spec in E2 as (_ & T2 & D2).
  assert (touches (table_name n) (of_env f) e2) as T12 by (by eapply touches_trans).
  destruct (Status_ok s2) eqn:S2.
  2:{ eexists _, _, _, _. split; [done|]. split; [done|]. split; [by apply Hgo|]. split; [|by intros ->].
      intros _. eapply tc_inv_less; [|by apply Hgoi]. lia. }
  apply Status_ok_eq in S2 as ->. cbn [number VersionEdit.file_size].
  assert (disk e2 !! table_name n = Some (tl_bytes L)) as Hdisk.
  { rewrite D2, D1 by done. cbn [written OpenFile_FileContents] in Hwf. rewrite Hname in Hwf.
    destruct (disk (of_env f) !! table_name n); cbn [default from_option id] in Hwf; [by rewrite Hwf|].
    rewrite <-Hwf in Hlong. cbn [length] in Hlong. lia. }
  assert (disk e2 !! old_name n = None) as Hold2.
  { rewrite (Hgo e2 T12); [done|]. by apply names_apart. }
  assert (tc_inv (mkTC e2 (tc_cache tc) (tc_blocks tc)) b (<[n := L]> Ls)) as Hinv2 by (apply tc_inv_new; auto).
  destruct (NewIterator_status _ b (<[n := L]> Ls) n L Hinv2 Hb (lookup_insert_eq _ _ _)) as (it & tc1 & tc' & -> & Edel & Hd' & Hst).
  cbn [mbind option_bind]. rewrite Edel. cbn [mbind option_bind]. cbn in Hd'. eexists _, _, _, _. split; [done|]. split; [done|].
  split; [intros x Hx; rewrite Hd'; by apply (Hgo e2 T12)|]. destruct Hst as [[-> Hinv']|[-> Hinv']].
  - split; [done|]. intros _. exists L. split; [exact Ec|]. split; [lia|]. by split.
  - split; [|done]. intros _. apply Hinv'. by apply Hgoi.
Qed.

Lemma BuildTable_spec fuel iter i meta tc b Ls n : at_ iter i -> (length es < fuel)%nat -> entries_ok (C := InternalKey_Comparator le) policy es ->
  n = number meta -> 0 < n < 2 ^ 64 -> Ls !! n = None -> disk (tc_env tc) !! old_name n = None -> tc_inv tc b Ls -> 0 < b ->
  exists s meta' tc', BuildTable le ptr snappy policy opts uninit dbname fuel iter meta tc = Some (s, meta', tc') /\
    touches (table_name n) (tc_env tc) (tc_env tc') /\ built n meta s meta' tc' (b - 1) Ls.
Proof using Hscan Hptr Hsnappy Hcomp Hint Hcap same_match.
  intros Ha Hfuel Hok -> Hn HLn Hold Hinv Hb. unfold BuildTable, built. set (n := number meta) in *. cbn [number]. fold n.
  destruct (scan_first _ _ Hscan _ _ Ha) as (iter1 & -> & Ha1). cbn [mbind option_bind]. rewrite (proj1 (names_ok n Hn)). cbn [mbind option_bind].
  assert (forall tc1 b1, tc_inv tc1 b1 Ls -> tc_inv (mkTC (env_DeleteFile (table_name n) (tc_env tc1)).2 (tc_cache tc1) (tc_blocks tc1)) b1 Ls) as Hdel.
  { intros tc1 b1 H1. eapply tc_inv_env; [exact H1| |done|done]. destruct (env_DeleteFile _ _) as [c e'] eqn:E0. by apply DeleteFile_spec in E0 as (_ & ? & _). }
  assert (forall e, touches (table_name n) e (env_DeleteFile (table_name n) e).2) as Hdel2.
  { intros e. destruct (env_DeleteFile _ _) as [c e'] eqn:E0. by apply DeleteFile_spec in E0 as (_ & ? & _). }
  destruct (head es) as [e0|] eqn:He0.
  - assert (es !! 0%nat = Some e0) as He0' by (by destruct es). destruct (scan_get _ _ Hscan _ _ _ Ha1 He0') as (-> & _).
    destruct (env_NewWritableFile (table_name n) (tc_env tc)) as [s1 e1] eqn:E1. apply NewWritableFile_spec in E1 as (C1 & T1 & D1).
    destruct (Status_ok s1) eqn:S1; cbn [negb].
    2:{ eexists _, _, _. split; [done|]. split; [exact T1|]. rewrite S1. eapply tc_inv_less; [|eapply tc_inv_env; [exact Hinv|exact T1|done|done]]. lia. }
    apply Status_ok_eq in S1 as ->. specialize (D1 eq_refl).
    edestruct (write_table_spec fuel iter1 (mkFile (allowed_seeks meta) n 0 (smallest meta) (largest meta)) (mkTC e1 (tc_cache tc) (tc_blocks tc)) b Ls n e0)
      as (s2 & iter2 & meta2 & tc2 & -> & Ha2 & T2 & Hbad & Hgood); [done..|exact D1| |by eapply tc_inv_env|done|].
    { cbn. rewrite (T1 (old_name n)); [done|]. by apply names_apart. }
    cbn [mbind option_bind]. rewrite (scan_ok _ _ Hscan _ _ Ha2). change (Status_ok kOk) with true. cbn [negb]. cbn [tc_env] in T2.
    assert (touches (table_name n) (tc_env tc) (tc_env tc2)) as T12 by (by eapply touches_trans). destruct (Status_ok s2) eqn:S2.
    + apply Status_ok_eq in S2 as ->. destruct (Hgood eq_refl) as (L & HL & Hpos & Hinv2 & ->). cbn [VersionEdit.file_size]. rewrite (proj2 (Z.ltb_lt _ _)) by lia. cbn [andb].
      eexists _, _, _. split; [done|]. split; [done|]. change (Status_ok kOk) with true. cbv iota. destruct es as [|e1' es']; [done|]. injection He0 as ->.
      exists L. split; [done|]. split; [done|]. by split.
    + cbn [andb]. eexists _, _, _. split; [done|]. split; [by eapply touches_trans|]. rewrite S2. apply Hdel, Hbad. by intros ->.
  - apply head_None in He0. assert (es !! 0%nat = None) as He0' by (by rewrite He0). rewrite (scan_end _ _ Hscan _ _ Ha1 He0').
    rewrite (scan_ok _ _ Hscan _ _ Ha1). change (Status_ok kOk) with true. cbn [negb andb VersionEdit.file_size]. change (0 <? 0) with false. cbv iota.
    eexists _, _, _. split; [done|]. split; [apply Hdel2|]. change (Status_ok kOk) with true. cbv iota. rewrite He0. split; [done|]. apply Hdel.
    eapply tc_inv_less; [|exact Hinv]. lia.
Qed.
End build.

(** Lookups keep whatever holds of the tables and the files. *)
Definition TableCache_source (Q : gmap Z layout -> gmap (list Z) (list Z) -> Prop) :
  TableSource le policy (TableCache E K) (TableReader0 := TableCache_reader le ptr snappy policy opts uninit dbname).
Proof using Hptr Hsnappy Hcomp Hint same_match Hcap opts uninit dbname Env0 BlockCache0.
  refine {| TS_holds tc b files := exists Ls, tc_inv tc b Ls /\ Q Ls (disk (tc_env tc)) /\ forall n size es, files !! n = Some (size, es) -> exists L, Ls !! n = Some L /\ size = zlen (tl_bytes L) /\ tl_entries L = es |}.
  - intros tc b b' files Hb (Ls & Hi & HQ & Hf). exists Ls. split; [by eapply tc_inv_less|done].
  - intros options tc b files n size es k (Ls & Hi & HQ & Hf) Hb Hn Hk Hfk. destruct (Hf n size es Hn) as (L & HL & -> & <-).
    destruct (TableCache_Get_spec options tc b Ls n L k Hi Hb HL Hk Hfk) as (s & saved & tc' & E0 & Hi' & Hd & Hs & Hans).
    exists s, saved, tc'. split; [done|]. split; [exists Ls; by rewrite Hd|]. split; [by destruct Hs as [-> | ->]|done].
Defined.
End proofs.
