(* ===== verification/Manifest.v ===== *)
(** The version set and its manifest: [VersionSet] of
    [src/leveldb/db/version_set.cc], with [ReadFileToString] of
    [src/leveldb/util/env.cc].

    The state is that of a [VersionSet] with the table cache and the file system
    it uses.  Of the list of versions only the current one is kept: versions
    that readers still hold, and the counting of references, are not modelled.
    [mu] is not modelled: the calls run one after another. *)
From stdpp Require Import strings.
From S2P Require Import Prelude Coding Dbformat LdbBase Crc32c LogFormat Iterator Block Filter Format Table TableRead Cache.
From S2P Require Import WriteBatch Skiplist Memtable MemIter Numconv Filename TableIO LogIO Env VersionEdit Version Levels CacheShards TableCache.

(** [descriptor_file_] and [descriptor_log_]. *)
Record Descriptor := mkDescriptor { d_name : list Z; d_offset : Z; d_crc : list Z }.

Record VSet (E K : Type) := mkVSet {
  vs_tables : TableCache E K;
  vs_next_file_number : Z;
  vs_manifest_file_number : Z;
  vs_last_sequence : Z;
  vs_log_number : Z;
  vs_prev_log_number : Z;
  vs_descriptor : option Descriptor;
  vs_compact_pointer : list (list Z);
  vs_current : Version;
}.
#[global] Arguments mkVSet {E K}.
#[global] Arguments vs_tables {E K}.
#[global] Arguments vs_next_file_number {E K}.
#[global] Arguments vs_manifest_file_number {E K}.
#[global] Arguments vs_last_sequence {E K}.
#[global] Arguments vs_log_number {E K}.
#[global] Arguments vs_prev_log_number {E K}.
#[global] Arguments vs_descriptor {E K}.
#[global] Arguments vs_compact_pointer {E K}.
#[global] Arguments vs_current {E K}.

Definition Bytewise_Name : list Z := chars "leveldb.BytewiseComparator".

Section vset.
Context {E K : Type}.
Implicit Types (vs : VSet E K).

Definition vs_env vs : E := tc_env (vs_tables vs).
Definition set_tables (tc : TableCache E K) vs : VSet E K :=
  mkVSet tc (vs_next_file_number vs) (vs_manifest_file_number vs) (vs_last_sequence vs) (vs_log_number vs) (vs_prev_log_number vs)
    (vs_descriptor vs) (vs_compact_pointer vs) (vs_current vs).
Definition set_env (e : E) vs : VSet E K := set_tables (mkTC e (tc_cache (vs_tables vs)) (tc_blocks (vs_tables vs))) vs.
Definition set_next (n : Z) vs : VSet E K :=
  mkVSet (vs_tables vs) n (vs_manifest_file_number vs) (vs_last_sequence vs) (vs_log_number vs) (vs_prev_log_number vs)
    (vs_descriptor vs) (vs_compact_pointer vs) (vs_current vs).
Definition set_descriptor (d : option Descriptor) vs : VSet E K :=
  mkVSet (vs_tables vs) (vs_next_file_number vs) (vs_manifest_file_number vs) (vs_last_sequence vs) (vs_log_number vs) (vs_prev_log_number vs)
    d (vs_compact_pointer vs) (vs_current vs).
Definition set_compact_pointer (cp : list (list Z)) vs : VSet E K :=
  mkVSet (vs_tables vs) (vs_next_file_number vs) (vs_manifest_file_number vs) (vs_last_sequence vs) (vs_log_number vs) (vs_prev_log_number vs)
    (vs_descriptor vs) cp (vs_current vs).
Definition set_last (s : Z) vs : VSet E K :=
  mkVSet (vs_tables vs) (vs_next_file_number vs) (vs_manifest_file_number vs) s (vs_log_number vs) (vs_prev_log_number vs)
    (vs_descriptor vs) (vs_compact_pointer vs) (vs_current vs).
(** [AppendVersion] and the log numbers of the edit. *)
Definition install (v : Version) (log prev_log : Z) vs : VSet E K :=
  mkVSet (vs_tables vs) (vs_next_file_number vs) (vs_manifest_file_number vs) (vs_last_sequence vs) log prev_log
    (vs_descriptor vs) (vs_compact_pointer vs) v.

Definition NewFileNumber vs : Z * VSet E K := (vs_next_file_number vs, set_next (wrap 64 (vs_next_file_number vs + 1)) vs).
Definition ReuseFileNumber (file_number : Z) vs : VSet E K :=
  if vs_next_file_number vs =? wrap 64 (file_number + 1) then set_next file_number vs else vs.
Definition MarkFileNumberUsed (number : Z) vs : VSet E K :=
  if vs_next_file_number vs <=? number then set_next (wrap 64 (number + 1)) vs else vs.
Definition SetLastSequence (s : Z) vs : option (VSet E K) :=
  _ ← passert (vs_last_sequence vs <=? s); Some (set_last s vs).

(** The numbers of the files of the current version. *)
Definition AddLiveFiles vs (live : gset Z) : gset Z := live ∪ list_to_set (number <$> concat (files_ (vs_current vs))).
Definition NumLevelFiles (level : Z) vs : option Z :=
  _ ← passert ((0 <=? level) && (level <? kNumLevels));
  files ← files_ (vs_current vs) !! Z.to_nat level;
  Some (swrap 32 (zlen files)).
Definition NumLevelBytes (level : Z) vs : option Z :=
  _ ← passert ((0 <=? level) && (level <? kNumLevels));
  files ← files_ (vs_current vs) !! Z.to_nat level;
  Some (TotalFileSize files).
End vset.

Section manifest.
Context (le : bool) (ptr : list Z -> Z) (dbname : list Z).
Context {E : Type} `{!Env E} {K : Type}.
Implicit Types (vs : VSet E K) (edit : VersionEdit) (e : E).

(** [new log::Writer(descriptor_file_)] *)
Definition new_Descriptor (fname : list Z) e : option Descriptor :=
  w ← new_Writer le ptr (mkOpenFile fname e);
  Some (mkDescriptor fname (block_offset_ w) (type_crc_ w)).

(** [descriptor_log_->AddRecord(record)] *)
Definition add_record (d : Descriptor) (record : list Z) e : option (Code * Descriptor * E) :=
  '(s, w) ← AddRecord le ptr (Build_Writer (mkOpenFile (d_name d) e) (d_offset d) (d_crc d)) record;
  Some (s, mkDescriptor (d_name d) (block_offset_ w) (type_crc_ w), of_env (dest_ w)).

(** The edit of [WriteSnapshot]: the compaction pointers and the files, level by
    level. *)
Fixpoint snapshot_pointers (level : Z) (cps : list (list Z)) edit : VersionEdit :=
  match cps with
  | [] => edit
  | cp :: cps => snapshot_pointers (level + 1) cps (if bool_decide (cp = []) then edit else SetCompactPointer level cp edit)
  end.
Definition snapshot_level (level : Z) (files : list FileMetaData) edit : VersionEdit :=
  foldl (fun edit f => AddFile level (number f) (VersionEdit.file_size f) (smallest f) (largest f) edit) edit files.
Fixpoint snapshot_files (level : Z) (levels : list (list FileMetaData)) edit : VersionEdit :=
  match levels with
  | [] => edit
  | files :: levels => snapshot_files (level + 1) levels (snapshot_level level files edit)
  end.
Definition snapshot_edit vs : VersionEdit :=
  snapshot_files 0 (files_ (vs_current vs))
    (snapshot_pointers 0 (vs_compact_pointer vs) (SetComparatorName Bytewise_Name new_VersionEdit)).
Definition WriteSnapshot (d : Descriptor) vs : option (Code * VSet E K) :=
  record ← EncodeTo (snapshot_edit vs) [];
  '(s, d, e) ← add_record d record (vs_env vs);
  Some (s, set_descriptor (Some d) (set_env e vs)).

(** The edit with the fields that [LogAndApply] fills in. *)
Definition complete_edit edit vs : option VersionEdit :=
  edit ← (if has_log_number_ edit then
            _ ← passert (vs_log_number vs <=? log_number_ edit);
            _ ← passert (log_number_ edit <? vs_next_file_number vs);
            Some edit
          else Some (SetLogNumber (vs_log_number vs) edit));
  let edit := if negb (has_prev_log_number_ edit) then SetPrevLogNumber (vs_prev_log_number vs) edit else edit in
  Some (VersionEdit.SetLastSequence (vs_last_sequence vs) (SetNextFile (vs_next_file_number vs) edit)).

(** A descriptor to write to: the status, the name of the new file if there is
    one, and the edit and the state. *)
Definition open_descriptor edit vs : option (Code * option (list Z) * VersionEdit * VSet E K) :=
  match vs_descriptor vs with
  | Some _ => Some (kOk, None, edit, vs)
  | None =>
      new_manifest_file ← DescriptorFileName dbname (vs_manifest_file_number vs);
      let edit := SetNextFile (vs_next_file_number vs) edit in
      let '(s, e) := env_NewWritableFile new_manifest_file (vs_env vs) in
      let vs := set_env e vs in
      if Status_ok s then
        d ← new_Descriptor new_manifest_file e;
        '(s, vs) ← WriteSnapshot d vs;
        Some (s, Some new_manifest_file, edit, vs)
      else Some (s, Some new_manifest_file, edit, vs)
  end.

(** The record of the edit, synced. *)
Definition write_edit edit vs : option (Code * VSet E K) :=
  record ← EncodeTo edit [];
  d ← vs_descriptor vs;
  '(s, d, e) ← add_record d record (vs_env vs);
  let '(s, e) := if Status_ok s then env_Sync (d_name d) e else (s, e) in
  Some (s, set_descriptor (Some d) (set_env e vs)).

Definition LogAndApply edit vs : option (Code * VSet E K) :=
  edit ← complete_edit edit vs;
  '(cp, b) ← Apply le edit (vs_compact_pointer vs) new_Builder;
  v ← SaveTo le (vs_current vs) b;
  '(s, new_manifest_file, edit, vs) ← open_descriptor edit (set_compact_pointer cp vs);
  '(s, vs) ← (if Status_ok s then write_edit edit vs else Some (s, vs));
  '(s, vs) ← (match new_manifest_file with
              | Some _ =>
                  if Status_ok s then
                    '(s, e) ← SetCurrentFile dbname (vs_manifest_file_number vs) (vs_env vs);
                    Some (s, set_env e vs)
                  else Some (s, vs)
              | None => Some (s, vs)
              end);
  if Status_ok s then Some (s, install v (log_number_ edit) (prev_log_number_ edit) vs)
  else
    match new_manifest_file with
    | Some fname => Some (s, set_env (env_DeleteFile fname (vs_env vs)).2 (set_descriptor None vs))
    | None => Some (s, vs)
    end.
End manifest.

(** ** Reading a manifest back
    [as_file] are the reads of a file that was opened: they may fail. *)
Section recover.
Context (le : bool) (ptr : list Z -> Z) (dbname : list Z) (reuse_logs : bool).
Context {E : Type} `{!Env E} {K : Type} {F : Type} `{!SequentialFile F} (as_file : list Z -> F).
Implicit Types (vs : VSet E K) (e : E) (r : Reader F).

Fixpoint read_fragments (fuel : nat) (file : F) (data : list Z) : option (Code * list Z) :=
  match fuel with
  | O => None
  | S fuel =>
      let '(s, fragment, file) := Read 8192 file in
      if negb (Status_ok s) then Some (s, data)
      else if bool_decide (fragment = []) then Some (s, data ++ fragment)
      else read_fragments fuel file (data ++ fragment)
  end.
(** Every turn but the last reads an octet. *)
Definition ReadFileToString (fname : list Z) e : option (Code * list Z * E) :=
  let '(s, file, e) := env_NewSequentialFile fname e in
  if negb (Status_ok s) then Some (s, [], e)
  else
    '(s, data) ← read_fragments (S (length file)) (as_file file) [];
    Some (s, data, e).

(** What the loop of [Recover] has gathered: the status, the builder, and the
    numbers that some edit had. *)
Record Gathered := mkGathered {
  g_status : Code;
  g_compact_pointer : list (list Z);
  g_builder : list LevelState;
  g_log_number : option Z;
  g_prev_log_number : option Z;
  g_next_file : option Z;
  g_last_sequence : option Z;
}.
Definition set_status (s : Code) (g : Gathered) : Gathered :=
  mkGathered s (g_compact_pointer g) (g_builder g) (g_log_number g) (g_prev_log_number g) (g_next_file g) (g_last_sequence g).
(** [LogReporter::Corruption], for the reports made since [r]. *)
Definition reported (s : Code) r (r' : Reader F) : Code :=
  foldl (fun status s => if Status_ok status then s else status) s
    (drop (length (default [] (reports r))) (default [] (reports r')).*2).
(** The body of the loop. *)
Definition gather_record (record : list Z) (g : Gathered) : option Gathered :=
  '(s, edit) ← DecodeFrom record new_VersionEdit;
  let s := if Status_ok s && has_comparator_ edit && negb (bool_decide (comparator_ edit = Bytewise_Name)) then kInvalidArgument else s in
  '(cp, b) ← (if Status_ok s then Apply le edit (g_compact_pointer g) (g_builder g) else Some (g_compact_pointer g, g_builder g));
  let pick (has : bool) (n : Z) (old : option Z) := if has then Some n else old in
  Some (mkGathered s cp b (pick (has_log_number_ edit) (log_number_ edit) (g_log_number g))
    (pick (has_prev_log_number_ edit) (prev_log_number_ edit) (g_prev_log_number g))
    (pick (has_next_file_number_ edit) (next_file_number_ edit) (g_next_file g))
    (pick (has_last_sequence_ edit) (last_sequence_ edit) (g_last_sequence g))).
Fixpoint gather (fuel : nat) r (g : Gathered) : option Gathered :=
  match fuel with
  | O => None
  | S fuel =>
      '(ok, record, r') ← ReadRecord le ptr r;
      let g := set_status (reported (g_status g) r r') g in
      if ok && Status_ok (g_status g) then g ← gather_record record g; gather fuel r' g
      else Some g
  end.

(** Whether the manifest is reused, which then is open for appending. *)
Definition ReuseManifest (dscname dscbase : list Z) vs : option (bool * VSet E K) :=
  if negb reuse_logs then Some (false, vs)
  else
    match ParseFileName dscbase with
    | Some (manifest_number, kDescriptorFile) =>
        let '(s, manifest_size, e) := env_GetFileSize dscname (vs_env vs) in
        let vs := set_env e vs in
        if negb (Status_ok s) || (kTargetFileSize <=? manifest_size) then Some (false, vs)
        else
          _ ← passert (negb (bool_decide (is_Some (vs_descriptor vs))));
          let '(r, e) := env_NewAppendableFile dscname (vs_env vs) in
          let vs := set_env e vs in
          if negb (Status_ok r) then Some (false, vs)
          else
            w ← new_Writer_at le ptr (mkOpenFile dscname e) manifest_size;
            let vs := set_descriptor (Some (mkDescriptor dscname (block_offset_ w) (type_crc_ w))) vs in
            Some (true, mkVSet (vs_tables vs) (vs_next_file_number vs) manifest_number (vs_last_sequence vs) (vs_log_number vs)
              (vs_prev_log_number vs) (vs_descriptor vs) (vs_compact_pointer vs) (vs_current vs))
    | _ => Some (false, vs)
    end.

(** The end of [Recover], from what was gathered. *)
Definition recover_finish (dscname dscbase : list Z) (g : Gathered) vs : option (Code * bool * VSet E K) :=
  let vs := set_compact_pointer (g_compact_pointer g) vs in
  if negb (Status_ok (g_status g)) then Some (g_status g, false, vs)
  else
    let s := match g_next_file g, g_log_number g, g_last_sequence g with
             | Some _, Some _, Some _ => g_status g
             | _, _, _ => kCorruption
             end in
    let log_number := default 0 (g_log_number g) in
    let prev_log_number := default 0 (g_prev_log_number g) in
    let vs := MarkFileNumberUsed log_number (MarkFileNumberUsed prev_log_number vs) in
    if negb (Status_ok s) then Some (s, false, vs)
    else
      v ← SaveTo le (vs_current vs) (g_builder g);
      let next_file := default 0 (g_next_file g) in
      let vs := mkVSet (vs_tables vs) (wrap 64 (next_file + 1)) next_file (default 0 (g_last_sequence g)) log_number prev_log_number
                  (vs_descriptor vs) (vs_compact_pointer vs) v in
      '(reused, vs) ← ReuseManifest dscname dscbase vs;
      Some (s, negb reused, vs).

(** The status, whether [*save_manifest] is set, and the state. *)
Definition Recover vs : option (Code * bool * VSet E K) :=
  '(s, current, e) ← ReadFileToString (CurrentFileName dbname) (vs_env vs);
  let vs := set_env e vs in
  if negb (Status_ok s) then Some (s, false, vs)
  else if negb (bool_decide (last current = Some 10)) then Some (kCorruption, false, vs)
  else
    let dscbase := take (length current - 1) current in
    let dscname := dbname ++ chars "/" ++ dscbase in
    let '(s, file, e) := env_NewSequentialFile dscname (vs_env vs) in
    let vs := set_env e vs in
    if negb (Status_ok s) then Some (s, false, vs)
    else
      g ← gather (S (length file)) (new_Reader (as_file file) true true 0)
            (mkGathered kOk (vs_compact_pointer vs) new_Builder None None None None);
      recover_finish dscname dscbase g vs.
End recover.

(** ** Correctness of [LogAndApply] *)
Section proofs.
Context (le : bool) (ptr : list Z -> Z) (Hptr : addresses ptr) (dbname : list Z).
Context {E : Type} `{!Env E} {K : Type}.
Implicit Types (vs : VSet E K) (edit : VersionEdit) (e : E) (d : Descriptor).

(** Files that describe the database, as against tables and logs. *)
Definition meta_name (x : list Z) : Prop :=
  exists n t, named dbname x n t /\ (t = kDescriptorFile \/ t = kCurrentFile \/ t = kTempFile).
Definition spares (P : list Z -> Prop) e e' : Prop := forall x, ~ P x -> disk e' !! x = disk e !! x.

Lemma spares_refl P e : spares P e e.
Proof. by intros x _. Qed.
Lemma spares_trans P e e' e'' : spares P e e' -> spares P e' e'' -> spares P e e''.
Proof. intros H1 H2 x Hx. by rewrite H2, H1. Qed.
Lemma touches_spares (P : list Z -> Prop) name e e' : P name -> touches name e e' -> spares P e e'.
Proof. intros HP Ht x Hx. apply Ht. by intros ->. Qed.
Lemma spares_same P e e' : disk e' = disk e -> spares P e e'.
Proof. intros Hd x _. by rewrite Hd. Qed.

Definition descriptor_ok d : Prop :=
  (exists n, named dbname (d_name d) n kDescriptorFile) /\ 0 <= d_offset d <= kBlockSize /\ d_crc d = type_crcs.

Lemma descriptor_meta d : descriptor_ok d -> meta_name (d_name d).
Proof. intros [[n Hn] _]. exists n, kDescriptorFile. auto. Qed.

Lemma new_Descriptor_spec fname e n : named dbname fname n kDescriptorFile ->
  exists d, new_Descriptor le ptr fname e = Some d /\ descriptor_ok d /\ d_name d = fname.
Proof using Hptr.
  intros Hn. unfold new_Descriptor, new_Writer. rewrite InitTypeCrc_spec by done. cbn [mbind option_bind].
  eexists. split; [done|]. split; [|done]. split; [by exists n|]. cbn. split; [unfold kBlockSize; lia|done].
Qed.

Lemma add_record_spec d record e : descriptor_ok d -> Forall is_byte record ->
  exists s d' e', add_record le ptr d record e = Some (s, d', e') /\ descriptor_ok d' /\ d_name d' = d_name d /\ touches (d_name d) e e'.
Proof using Hptr.
  intros (Hn & Ho & Hc) Hb. unfold add_record.
  destruct (AddRecord_file le ptr Hptr (Build_Writer (mkOpenFile (d_name d) e) (d_offset d) (d_crc d)) record) as (s & w & -> & [Hname Ht] & [Ho' Hc'] & _); [done|done|].
  cbn [mbind option_bind]. eexists _, _, _. split; [done|]. split; [|done]. by split.
Qed.

(** ** Snapshots *)
Definition pointers_ok (cps : list (list Z)) : Prop :=
  length cps = Z.to_nat kNumLevels /\ Forall (fun k => slice_ok k /\ Forall is_byte k) cps.

Lemma snapshot_pointers_good cps : forall level edit, 0 <= level -> level + zlen cps <= kNumLevels ->
  Forall (fun k => slice_ok k /\ Forall is_byte k) cps -> edit_good edit -> edit_good (snapshot_pointers level cps edit).
Proof.
  induction cps as [|cp cps IH]; intros level edit Hl Hn Hc He; [done|]. cbn [snapshot_pointers]. cbn [length] in Hn. apply Forall_cons in Hc as [[Hc1 Hc2] Hc].
  apply IH; [lia|lia|done|]. case_bool_decide; [done|]. destruct He as [H1 H2 H3 H4 H5 H6 H7 H8]. split; try done. cbn.
  apply Forall_app_2; [done|]. apply Forall_singleton. unfold level_ok, key_ok. cbn. split_and!; [lia|lia|done|done|done].
Qed.

Lemma snapshot_level_good level files : forall edit, level_ok level -> Forall file_good files -> edit_good edit -> edit_good (snapshot_level level files edit).
Proof.
  unfold snapshot_level. induction files as [|f files IH]; intros edit Hl Hf He; [done|]. cbn [foldl]. apply Forall_cons in Hf as [Hf1 Hf].
  apply IH; [done|done|]. destruct He as [H1 H2 H3 H4 H5 H6 H7 H8]. split; try done. cbn. apply Forall_app_2; [done|]. by apply Forall_singleton.
Qed.

Lemma snapshot_files_good levels : forall level edit, 0 <= level -> level + zlen levels <= kNumLevels -> Forall file_good (concat levels) ->
  edit_good edit -> edit_good (snapshot_files level levels edit).
Proof.
  induction levels as [|files levels IH]; intros level edit Hl Hn Hf He; [done|]. cbn [snapshot_files]. cbn [length concat] in *. apply Forall_app in Hf as [Hf1 Hf].
  apply IH; [lia|lia|done|]. apply snapshot_level_good; [|done|done]. unfold level_ok. lia.
Qed.

Lemma snapshot_good vs : pointers_ok (vs_compact_pointer vs) -> length (files_ (vs_current vs)) = Z.to_nat kNumLevels ->
  Forall file_good (concat (files_ (vs_current vs))) -> edit_good (snapshot_edit vs).
Proof.
  intros [Hc1 Hc2] Hl Hf. unfold snapshot_edit. apply snapshot_files_good; [lia|rewrite Hl; unfold kNumLevels; lia|done|].
  apply snapshot_pointers_good; [lia|rewrite Hc1; unfold kNumLevels; lia|done|]. split; try done. intros _. split; [by vm_compute|].
  apply (bool_decide_unpack _). vm_compute. exact I.
Qed.

Lemma WriteSnapshot_spec d vs : descriptor_ok d -> edit_good (snapshot_edit vs) ->
  exists s d' e', WriteSnapshot le ptr d vs = Some (s, set_descriptor (Some d') (set_env e' vs)) /\ descriptor_ok d' /\ d_name d' = d_name d /\
    touches (d_name d) (vs_env vs) e'.
Proof using Hptr.
  intros Hd Hg. unfold WriteSnapshot. destruct (encode_good _ Hg) as (r & -> & Hr). cbn [mbind option_bind].
  destruct (add_record_spec d r (vs_env vs) Hd Hr) as (s & d' & e' & -> & Hd' & Hn & Ht). cbn [mbind option_bind]. eauto 10.
Qed.

(** ** The parts of [LogAndApply] *)
Definition open_ok (od : option Descriptor) : Prop := match od with Some d => descriptor_ok d | None => True end.

Lemma vs_eta vs : set_descriptor (vs_descriptor vs) (set_env (vs_env vs) vs) = vs.
Proof. by destruct vs as [[]]. Qed.

Lemma complete_edit_spec edit vs : (has_log_number_ edit = true -> vs_log_number vs <= log_number_ edit < vs_next_file_number vs) ->
  exists edit', complete_edit edit vs = Some edit' /\ compact_pointers_ edit' = compact_pointers_ edit /\ deleted_files_ edit' = deleted_files_ edit /\
    new_files_ edit' = new_files_ edit /\ next_file_number_ edit' = vs_next_file_number vs /\
    log_number_ edit' = (if has_log_number_ edit then log_number_ edit else vs_log_number vs) /\
    prev_log_number_ edit' = (if has_prev_log_number_ edit then prev_log_number_ edit else vs_prev_log_number vs) /\
    (edit_good edit -> fits_unsigned 64 (vs_next_file_number vs) -> fits_unsigned 64 (vs_last_sequence vs) -> fits_unsigned 64 (vs_log_number vs) ->
     fits_unsigned 64 (vs_prev_log_number vs) -> edit_good edit').
Proof.
  intros Hlog. unfold complete_edit. destruct (has_log_number_ edit) eqn:El.
  - destruct (Hlog eq_refl). rewrite (proj2 (Z.leb_le _ _)), (proj2 (Z.ltb_lt _ _)) by lia. cbn [passert mbind option_bind].
    eexists. split; [done|]. destruct (has_prev_log_number_ edit) eqn:Ep; cbn; rewrite ?El; (split_and!; [done..|]);
      intros [G1 G2 G3 G4 G5 G6 G7 G8] ? ? ? ?; by split.
  - cbn [mbind option_bind]. eexists. split; [done|]. change (has_prev_log_number_ (SetLogNumber _ edit)) with (has_prev_log_number_ edit).
    destruct (has_prev_log_number_ edit) eqn:Ep; cbn; (split_and!; [done..|]); intros [G1 G2 G3 G4 G5 G6 G7 G8] ? ? ? ?; by split.
Qed.

Lemma open_descriptor_spec edit vs : open_ok (vs_descriptor vs) -> 0 < vs_manifest_file_number vs < 2 ^ 64 -> edit_good (snapshot_edit vs) ->
  exists s nm edit' od e', open_descriptor le ptr dbname edit vs = Some (s, nm, edit', set_descriptor od (set_env e' vs)) /\
    spares meta_name (vs_env vs) e' /\ open_ok od /\ (s = kOk -> is_Some od) /\ (edit' = edit \/ edit' = SetNextFile (vs_next_file_number vs) edit) /\
    (forall f, nm = Some f -> meta_name f).
Proof using Hptr.
  intros Ho Hm Hg. unfold open_descriptor. destruct (vs_descriptor vs) as [d|] eqn:Ed.
  - eexists _, _, _, (Some d), (vs_env vs). split; [by rewrite <-Ed, vs_eta|]. split_and!; [apply spares_refl|exact Ho|intros _; by eexists|by left|done].
  - unfold DescriptorFileName. rewrite (proj2 (Z.ltb_lt 0 _)) by lia. cbn [passert mbind option_bind]. set (fname := dbname ++ _).
    assert (named dbname fname (vs_manifest_file_number vs) kDescriptorFile) as Hn by (apply file_named; unfold fits_unsigned; lia).
    assert (meta_name fname) as Hmeta by (exists (vs_manifest_file_number vs), kDescriptorFile; auto).
    destruct (env_NewWritableFile fname (vs_env vs)) as [c e1] eqn:E1. apply NewWritableFile_spec in E1 as (_ & T1 & _).
    assert (spares meta_name (vs_env vs) e1) as S1 by (by eapply touches_spares). destruct (Status_ok c) eqn:Ec.
    + destruct (new_Descriptor_spec fname e1 _ Hn) as (d & -> & Hd & Hdn). cbn [mbind option_bind].
      destruct (WriteSnapshot_spec d (set_env e1 vs) Hd Hg) as (s & d' & e' & -> & Hd' & Hdn' & T2). cbn [mbind option_bind].
      eexists _, _, _, (Some d'), e'. split; [done|]. split_and!; [|done|intros _; by eexists|by right|by intros f [= <-]].
      eapply spares_trans; [exact S1|]. eapply touches_spares; [|exact T2]. by rewrite Hdn.
    + eexists _, _, _, None, e1. split; [by rewrite <-Ed|]. split_and!; [done|done|by intros ->|by right|by intros f [= <-]].
Qed.

Lemma write_edit_spec edit vs d : vs_descriptor vs = Some d -> descriptor_ok d -> edit_good edit ->
  exists s d' e', write_edit le ptr edit vs = Some (s, set_descriptor (Some d') (set_env e' vs)) /\ spares meta_name (vs_env vs) e' /\ descriptor_ok d'.
Proof using Hptr.
  intros Ed Hd Hg. unfold write_edit. destruct (encode_good _ Hg) as (r & -> & Hr). rewrite Ed. cbn [mbind option_bind].
  destruct (add_record_spec d r (vs_env vs) Hd Hr) as (s & d' & e' & -> & Hd' & Hn & T). cbn [mbind option_bind].
  assert (spares meta_name (vs_env vs) e') as S1 by (eapply touches_spares; [|exact T]; by apply descriptor_meta).
  destruct (Status_ok s); [|eauto 10]. destruct (env_Sync (d_name d') e') as [c e2] eqn:E2. apply Sync_spec in E2 as (_ & T2 & _).
  eexists _, _, _. split; [done|]. split; [|done]. eapply spares_trans; [exact S1|]. eapply touches_spares; [|exact T2]; by apply descriptor_meta.
Qed.

Lemma SetCurrentFile_spares n e : 0 < n < 2 ^ 64 -> exists s e', SetCurrentFile dbname n e = Some (s, e') /\ spares meta_name e e'.
Proof.
  intros Hn. destruct (SetCurrentFile_spec dbname n e Hn) as (c & e' & -> & _ & _ & Hx). eexists _, _. split; [done|]. intros x Hm. apply Hx; intros ->; apply Hm.
  - exists n, kTempFile. split; [|auto]. apply file_named. unfold fits_unsigned. lia.
  - exists 0, kCurrentFile. split; [apply current_named|auto].
Qed.

(** What [LogAndApply] needs to know of the state. *)
Record vs_good vs : Prop := {
  vg_descriptor : open_ok (vs_descriptor vs);
  vg_manifest : 0 < vs_manifest_file_number vs < 2 ^ 64;
  vg_pointers : pointers_ok (vs_compact_pointer vs);
  vg_files : Forall file_good (concat (files_ (vs_current vs)));
  vg_numbers : fits_unsigned 64 (vs_next_file_number vs) /\ fits_unsigned 64 (vs_last_sequence vs) /\
    fits_unsigned 64 (vs_log_number vs) /\ fits_unsigned 64 (vs_prev_log_number vs);
}.

Lemma vs_good_tables tc vs : vs_good vs -> vs_good (set_tables tc vs).
Proof. intros [G1 G2 G3 G4 G5]. by split. Qed.

Lemma apply_compact_ok l : forall cp cp', apply_compact_pointers l cp = Some cp' -> pointers_ok cp ->
  Forall (fun p => level_ok p.1 /\ key_ok p.2 /\ Forall is_byte p.2) l -> pointers_ok cp'.
Proof.
  induction l as [|[level key] l IH]; intros cp cp'; cbn [apply_compact_pointers]; [by intros [= <-]|]. intros Ea [H1 H2] ((_ & [Hk1 Hk2] & Hk3) & Hl)%Forall_cons. cbn in *.
  destruct (cp !! Z.to_nat level); [|done]. cbn [mbind option_bind] in Ea. rewrite InternalKey_Encode_ok in Ea by done. cbn [mbind option_bind] in Ea.
  apply (IH _ _ Ea); [|done]. split; [by rewrite length_insert|]. by apply Forall_insert.
Qed.

Lemma Apply_pointers edit cp cp' b b' : Apply le edit cp b = Some (cp', b') -> pointers_ok cp -> edit_good edit -> pointers_ok cp'.
Proof.
  intros EA Hcp Hg. unfold Apply in EA. destruct (apply_compact_pointers _ _) as [cp0|] eqn:Ea; [|done]. cbn [mbind option_bind] in EA.
  destruct (apply_deleted_files _ _) as [b0|]; [|done]. cbn [mbind option_bind] in EA. destruct (apply_new_files _ _ _) as [b1|]; [|done]. injection EA as <- _.
  eapply apply_compact_ok; [exact Ea|done|]. apply Hg.
Qed.

Lemma edit_fits_same edit edit' base : compact_pointers_ edit' = compact_pointers_ edit -> deleted_files_ edit' = deleted_files_ edit ->
  new_files_ edit' = new_files_ edit -> edit_fits edit base -> edit_fits edit' base.
Proof. intros E1 E2 E3 [F1 F2 F3 F4 F5]. split; rewrite ?E1, ?E2, ?E3; done. Qed.

Lemma perm_levels (A B : list (list FileMetaData)) : Forall2 (≡ₚ) A B -> concat A ≡ₚ concat B.
Proof. induction 1 as [|x y A B Hxy _ IH]; [done|]. cbn. by rewrite Hxy, IH. Qed.

Lemma edited_good edit base : Forall file_good (concat base) -> edit_good edit -> Forall file_good (concat (edited edit base)).
Proof.
  intros Hb [_ _ _ _ _ _ _ Hn]. rewrite Forall_forall in Hb. rewrite Forall_forall in Hn. apply Forall_forall. intros f (files & Hf & (i & Hi)%list_elem_of_lookup)%elem_of_concat.
  unfold edited in Hi. rewrite list_lookup_imap in Hi. apply fmap_Some in Hi as (fs & Hfs & ->). apply elem_of_app in Hf as [[_ Hf]%list_elem_of_filter|Hf].
  - apply Hb, elem_of_concat. eauto using list_elem_of_lookup_2.
  - apply list_elem_of_fmap in Hf as (p & -> & [_ Hp]%list_elem_of_filter). by destruct (Hn p Hp).
Qed.

(** Applying an edit: the new version is there when the status is OK, and the
    old one otherwise; only files that describe the database are touched. *)
Lemma LogAndApply_spec M M' edit vs : vs_good vs -> levels_ok le M (files_ (vs_current vs)) -> edit_fits edit (files_ (vs_current vs)) -> edit_good edit ->
  levels_sem le M' (edited edit (files_ (vs_current vs))) ->
  (has_log_number_ edit = true -> vs_log_number vs <= log_number_ edit < vs_next_file_number vs) ->
  exists s vs', LogAndApply le ptr dbname edit vs = Some (s, vs') /\ vs_good vs' /\ spares meta_name (vs_env vs) (vs_env vs') /\
    tc_cache (vs_tables vs') = tc_cache (vs_tables vs) /\ tc_blocks (vs_tables vs') = tc_blocks (vs_tables vs) /\
    vs_next_file_number vs' = vs_next_file_number vs /\ vs_manifest_file_number vs' = vs_manifest_file_number vs /\ vs_last_sequence vs' = vs_last_sequence vs /\
    if Status_ok s then
      levels_ok le M' (files_ (vs_current vs')) /\ Forall2 (≡ₚ) (files_ (vs_current vs')) (edited edit (files_ (vs_current vs))) /\
      vs_log_number vs' = (if has_log_number_ edit then log_number_ edit else vs_log_number vs) /\
      vs_prev_log_number vs' = (if has_prev_log_number_ edit then prev_log_number_ edit else vs_prev_log_number vs)
    else vs_current vs' = vs_current vs /\ vs_log_number vs' = vs_log_number vs /\ vs_prev_log_number vs' = vs_prev_log_number vs.
Proof using Hptr.
  intros [G1 G2 G3 G4 (G5 & G6 & G7 & G8)] Hok Hfit Hgood Hsem Hlog. unfold LogAndApply.
  destruct (complete_edit_spec edit vs Hlog) as (edit1 & -> & Ec & Ed & En & Enx & El & Ep & Hg1). specialize (Hg1 Hgood G5 G6 G7 G8). cbn [mbind option_bind].
  assert (edited edit1 (files_ (vs_current vs)) = edited edit (files_ (vs_current vs))) as Eed by (unfold edited; by rewrite Ed, En).
  destruct (edit_spec le M M' (vs_current vs) edit1 (vs_compact_pointer vs)) as (cp & b & v & EA & Hcp & ES & Hv & HP);
    [done|by eapply edit_fits_same|by destruct G3|by rewrite Eed|]. rewrite EA. cbn [mbind option_bind]. rewrite ES. cbn [mbind option_bind]. rewrite Eed in HP.
  pose proof (Apply_pointers edit1 _ _ _ b EA G3 Hg1) as Hcp'.
  set (vs1 := set_compact_pointer cp vs). assert (length (files_ (vs_current vs)) = Z.to_nat kNumLevels) as Hlen by apply Hok.
  destruct (open_descriptor_spec edit1 vs1 G1 G2 (snapshot_good vs1 Hcp' Hlen G4)) as (s & nm & edit2 & od & e2 & -> & S2 & Ho2 & Hs2 & He2 & Hnm). cbn [mbind option_bind].
  assert (edit_good edit2 /\ log_number_ edit2 = log_number_ edit1 /\ prev_log_number_ edit2 = prev_log_number_ edit1) as (Hg2 & El2 & Ep2).
  { destruct He2 as [-> | ->]; [done|]. split; [|done]. destruct Hg1 as [I1 I2 I3 I4 I5 I6 I7 I8]. by split. }
  assert (exists s3 od3 e3, (if Status_ok s then write_edit le ptr edit2 (set_descriptor od (set_env e2 vs1)) else Some (s, set_descriptor od (set_env e2 vs1))) =
    Some (s3, set_descriptor od3 (set_env e3 vs1)) /\ spares meta_name (vs_env vs) e3 /\ open_ok od3) as (s3 & od3 & e3 & -> & S3 & Ho3).
  { destruct (Status_ok s) eqn:Es; [|eauto 10]. apply Status_ok_eq in Es. destruct (Hs2 Es) as [d ->].
    destruct (write_edit_spec edit2 (set_descriptor (Some d) (set_env e2 vs1)) d eq_refl Ho2 Hg2) as (s3 & d3 & e3 & -> & S3 & Hd3).
    exists s3, (Some d3), e3. split; [done|]. split; [|done]. eapply spares_trans; [exact S2|exact S3]. }
  cbn [mbind option_bind].
  assert (exists s4 e4, (match nm with Some _ => if Status_ok s3 then '(s, e) ← SetCurrentFile dbname (vs_manifest_file_number (set_descriptor od3 (set_env e3 vs1))) (vs_env (set_descriptor od3 (set_env e3 vs1)));
      Some (s, set_env e (set_descriptor od3 (set_env e3 vs1))) else Some (s3, set_descriptor od3 (set_env e3 vs1)) | None => Some (s3, set_descriptor od3 (set_env e3 vs1)) end) =
    Some (s4, set_descriptor od3 (set_env e4 vs1)) /\ spares meta_name (vs_env vs) e4) as (s4 & e4 & -> & S4).
  { destruct nm; [|eauto 10]. destruct (Status_ok s3); [|eauto 10].
    destruct (SetCurrentFile_spares (vs_manifest_file_number vs) e3 G2) as (s4 & e4 & E4 & S4). change (vs_manifest_file_number (set_descriptor od3 (set_env e3 vs1))) with (vs_manifest_file_number vs).
    change (vs_env (set_descriptor od3 (set_env e3 vs1))) with e3. rewrite E4. cbn [mbind option_bind]. exists s4, e4. split; [done|]. by eapply spares_trans. }
  cbn [mbind option_bind]. destruct (Status_ok s4) eqn:E4.
  - eexists s4, _. split; [done|]. rewrite E4. cbn. split_and!; try done; [|by rewrite El2|by rewrite Ep2].
    split; cbn; try done; [by rewrite (perm_levels _ _ HP); apply edited_good|]. split_and!; [done|done| |].
    + rewrite El2, El. destruct (has_log_number_ edit) eqn:Eh; [|done]. by apply Hgood.
    + rewrite Ep2, Ep. destruct (has_prev_log_number_ edit) eqn:Eh; [|done]. by apply Hgood.
  - destruct nm as [fname|].
    + eexists s4, _. split; [done|]. rewrite E4. cbn. split_and!; try done. change (vs_env (set_descriptor None (set_descriptor od3 (set_env e4 vs1)))) with e4.
      destruct (env_DeleteFile fname _) as [c5 e5] eqn:E5. apply DeleteFile_spec in E5 as (_ & T5 & _). cbn. eapply spares_trans; [exact S4|].
      eapply touches_spares; [by apply Hnm|exact T5].
    + eexists s4, _. split; [done|]. rewrite E4. cbn. by split_and!.
Qed.
End proofs.
