(* ===== verification/Storage.v ===== *)
(** What a database keeps on disk: memtables written as tables
    ([DBImpl::WriteLevel0Table]), lookups in the current version with the
    statistics of seeks, and the deletion of files that are no longer needed
    ([DBImpl::DeleteObsoleteFiles]), all of [src/leveldb/db/db_impl.cc], over
    the version set of [Manifest].

    This discharges the interfaces [VersionSet] and [TableSink] of [DbImpl].  One
    call runs at a time: [pending_outputs_] is empty between calls, and the
    database is not being closed. *)
From stdpp Require Import strings.
From S2P Require Import Prelude Coding Dbformat LdbBase Crc32c LogFormat Iterator Block Filter Format Table TableRead Cache CacheTables.
From S2P Require Import WriteBatch Skiplist Memtable MemIter Arena DbImpl Numconv Filename TableIO LogIO Env VersionEdit Version Levels CacheShards TableCache Manifest.

Section storage.
Context (le : bool) (ptr : list Z -> Z) (snappy : Snappy) (policy : option FilterPolicy) (opts : Options) (uninit : Z) (dbname : list Z).
Context {E : Type} `{!Env E} {K : Type} `{!BlockCache K}.
Implicit Types (vs : VSet E K) (edit : VersionEdit).

(** The scan of a memtable has as many steps as nodes. *)
Definition WriteLevel0Table (mem : SkipList (list Z)) edit (base : option Version) vs : option (Code * VersionEdit * VSet E K) :=
  let '(n, vs) := NewFileNumber vs in
  let meta := mkFile (Z.shiftl 1 30) n 0 [] [] in
  '(s, meta, tc) ← BuildTable (Iterator0 := MemTableIterator_Iterator le) le ptr snappy policy opts uninit dbname
                     (S (length (nodes mem))) (MemTable_NewIterator mem) meta (vs_tables vs);
  let vs := set_tables tc vs in
  if Status_ok s && (0 <? VersionEdit.file_size meta) then
    min_user_key ← ExtractUserKey (smallest meta);
    max_user_key ← ExtractUserKey (largest meta);
    level ← (match base with
             | Some base => PickLevelForMemTableOutput le base min_user_key max_user_key
             | None => Some 0
             end);
    Some (s, AddFile level (number meta) (VersionEdit.file_size meta) (smallest meta) (largest meta) edit, vs)
  else Some (s, edit, vs).

(** Whether a file of the directory is still needed. *)
Definition keep_file (live : gset Z) vs (number : Z) (type : FileType) : bool :=
  match type with
  | kLogFile => (vs_log_number vs <=? number) || (number =? vs_prev_log_number vs)
  | kDescriptorFile => vs_manifest_file_number vs <=? number
  | kTableFile => bool_decide (number ∈ live)
  | kTempFile => bool_decide (number ∈ live)
  | kCurrentFile | kDBLockFile | kInfoLogFile => true
  end.
Fixpoint delete_obsolete (live : gset Z) (filenames : list (list Z)) vs : option (VSet E K) :=
  match filenames with
  | [] => Some vs
  | name :: filenames =>
      match ParseFileName name with
      | Some (number, type) =>
          if keep_file live vs number type then delete_obsolete live filenames vs
          else
            tc ← (if bool_decide (type = kTableFile) then TableCache_Evict le number (vs_tables vs) else Some (vs_tables vs));
            let vs := set_tables tc vs in
            delete_obsolete live filenames (set_env (env_DeleteFile (dbname ++ chars "/" ++ name) (vs_env vs)).2 vs)
      | None => delete_obsolete live filenames vs
      end
  end.
Definition DeleteObsoleteFiles (bg_ok : bool) vs : option (VSet E K) :=
  if negb bg_ok then Some vs
  else
    let live := AddLiveFiles vs ∅ in
    let '(_, filenames, e) := env_GetChildren dbname (vs_env vs) in
    delete_obsolete live filenames (set_env e vs).

(** The flush in [CompactMemTable], with the last sequence number and the number
    of the current log. *)
Definition flush_table (seq logfile_number : Z) (bg_ok : bool) (imm : SkipList (list Z)) vs : option (Code * VSet E K) :=
  let vs := set_last seq vs in
  '(s, edit, vs) ← WriteLevel0Table imm new_VersionEdit (Some (vs_current vs)) vs;
  '(s, vs) ← (if Status_ok s then LogAndApply le ptr dbname (SetLogNumber logfile_number (SetPrevLogNumber 0 edit)) vs
              else Some (s, vs));
  if Status_ok s then vs ← DeleteObsoleteFiles bg_ok vs; Some (s, vs)
  else Some (s, vs).

(** The part of [DBImpl::Get] that looks in the tables. *)
Definition current_Get (options : ReadOptions) (lkey : LookupKey) (value : list Z) vs : option (Code * list Z * VSet E K) :=
  '(s, value, stats, tc) ← Version_Get (TableReader0 := TableCache_reader le ptr snappy policy opts uninit dbname) le options (vs_current vs) lkey value (vs_tables vs);
  let v := (UpdateStats stats (vs_current vs)).2 in
  Some (s, value, install v (vs_log_number vs) (vs_prev_log_number vs) (set_tables tc vs)).

(** Recovery writes its tables into an edit; the state is the version set, the
    edit, and [*save_manifest]. *)
Definition sink_write : TableWriter le (VSet E K * VersionEdit * bool) := fun w table =>
  '(s, edit, vs) ← WriteLevel0Table table w.1.2 None w.1.1; Some (s, (vs, edit, true)).
End storage.

(** ** The entries of a memtable fit into a table *)
Lemma wt_perm c es es' : es ≡ₚ es' -> wt c es = wt c es'.
Proof. induction 1; cbn [wt]; repeat case_match; lia. Qed.

Lemma wt_weight c es : 0 <= c -> Forall fits_version es -> 26 * wt (64 + c) (entry_of <$> es) <= (72 + c) * mem_weight es.
Proof.
  intros Hc. unfold mem_weight, entry_bytes. induction 1 as [|e es He _ IH]; cbn [fmap list_fmap wt foldr length]; [lia|].
  unfold entry_of at 1. assert (zlen (encode_version e) >= zlen (ekey e) + zlen (v_value e) + 2 /\ 8 <= zlen (ekey e)) as [H1 H2].
  { unfold encode_version, ekey. rewrite !length_app, length_ikey. assert (forall v, fits_unsigned 32 v -> 1 <= zlen (EncodeVarint32 v)) as Hv.
    { intros v Hv. rewrite EncodeVarint32_eq by done. cbn [varint]. case_match; cbn [length]; lia. }
    destruct He as (_ & Hk & Hvl). pose proof (Hv (zlen (v_key e) + 8) ltac:(unfold fits_unsigned; lia)). pose proof (Hv (zlen (v_value e)) ltac:(unfold fits_unsigned; lia)). lia. }
  assert (26 * (zlen (ekey e) + zlen (v_value e) + (64 + c)) <= (72 + c) * (zlen (encode_version e) + 16)) by nia. nia.
Qed.

Lemma ekey_octets e : fits_version e -> Forall is_byte (v_key e) -> Forall is_byte (ekey e).
Proof. intros He Hk. unfold ekey, ikey. apply Forall_app_2; [done|]. apply le_enc_bytes. Qed.

Section entries.
Context (le : bool) (policy : option FilterPolicy) (Hfkey : forall k, is_ikey k -> fkey policy k).
Context (Hper : per_key policy <= 400) (Hname : zlen (policy_name policy) < 2 ^ 28).

Lemma memtable_entries_ok em ss : ss ≡ₚ em -> StronglySorted vlt ss -> Forall fits_version em -> Forall byte_version em -> mem_weight em <= 2 ^ 26 ->
  entries_ok (C := InternalKey_Comparator le) policy (entry_of <$> ss).
Proof using Hfkey Hper Hname.
  intros Hp Hs Hf Hb Hw. assert (Forall fits_version ss) as Hf' by (by rewrite Hp). assert (Forall byte_version ss) as Hb' by (by rewrite Hp).
  pose proof (per_key_nonneg policy). split.
  - by apply entries_increasing.
  - apply Forall_fmap. rewrite Forall_forall in Hf', Hb'. apply Forall_forall. intros e He. destruct (Hb' e He). split; [by apply ekey_octets; auto|done].
  - apply Forall_fmap. eapply Forall_impl; [exact Hf'|]. intros e He. apply Hfkey. by apply ekey_ikey.
  - rewrite (wt_perm _ _ (entry_of <$> em)) by (by rewrite Hp). pose proof (wt_weight (per_key policy) em ltac:(lia) Hf). nia.
Qed.
End entries.

(** ** What is stored *)
Section rep.
Context (le : bool) (ptr : list Z -> Z) (snappy : Snappy) (policy : option FilterPolicy) (opts : Options) (uninit : Z) (dbname : list Z) (cap : Z).
Context {E : Type} `{!Env E} {K : Type} `{!BlockCache K}.
Implicit Types (vs : VSet E K) (edit : VersionEdit) (M : gmap Z (list version)) (Ls : gmap Z layout) (es em : list version) (f : FileMetaData).
Notation tc_inv := (tc_inv le snappy policy opts uninit dbname cap).
Notation bytes := (tl_bytes le snappy policy opts).
Notation levels vs := (files_ (vs_current vs)).

(** Identifiers of tables that are left. *)
Definition ids_left (tc : TableCache E K) : Z := match tc_blocks tc with Some c => 2 ^ 64 - next_id c | None => 0 end.

Lemma tc_inv_left tc b Ls : tc_inv tc b Ls -> tc_inv tc (ids_left tc) Ls /\ b <= ids_left tc.
Proof.
  intros (c & owner & [T1 T2 Tout T3 T4] & Hq). unfold ids_left. rewrite T1. split; [|lia]. exists c, owner. split; [|done]. split; [done|done|done|lia|done].
Qed.

(** The table file of [f] has its versions. *)
Definition holds M Ls f : Prop := exists L, Ls !! number f = Some L /\ VersionEdit.file_size f = zlen (bytes L) /\ tl_entries L = entry_of <$> contents M f.

Definition by_sequence es : Prop := StronglySorted (fun a b : version => a.1 < b.1) es.

(** The tables of the current version hold [es]. *)
Record st_base vs M Ls es : Prop := {
  sb_good : vs_good dbname vs;
  sb_levels : levels_ok le M (levels vs);
  sb_holds : Forall (holds M Ls) (concat (levels vs));
  sb_tables : tc_inv (vs_tables vs) (ids_left (vs_tables vs)) Ls;
  sb_next : 0 < vs_next_file_number vs;
  sb_below : forall n L, Ls !! n = Some L -> n < vs_next_file_number vs;
  sb_fresh : forall n, vs_next_file_number vs <= n < 2 ^ 64 -> disk (vs_env vs) !! old_name dbname n = None;
  sb_versions : all_versions M (concat (levels vs)) ≡ₚ es;
  sb_sorted : by_sequence es;
  sb_prev : vs_prev_log_number vs = 0;
}.

(** Once the edit is applied they hold [es]. *)
Record st_edit vs edit M Ls es : Prop := {
  se_fits : edit_fits edit (levels vs);
  se_good : edit_good edit;
  se_sem : levels_sem le M (edited edit (levels vs));
  se_holds : Forall (holds M Ls) (concat (edited edit (levels vs)));
  se_new : Forall (fun p => number p.2 < vs_next_file_number vs) (new_files_ edit);
  se_versions : all_versions M (concat (edited edit (levels vs))) ≡ₚ es;
  se_sorted : by_sequence es;
}.

Lemma st_edit_none vs M Ls es : st_base vs M Ls es -> st_edit vs new_VersionEdit M Ls es.
Proof using. clear ptr.
  intros [B1 B2 B3 B4 B5 B6 B7 B8 B9 B10]. assert (edited new_VersionEdit (levels vs) = levels vs) as E0 by (by apply edited_none).
  split; rewrite ?E0; [by apply edit_fits_none|by split|apply B2|done|constructor|done|done].
Qed.

Lemma holds_below vs M Ls es fs : st_base vs M Ls es -> Forall (holds M Ls) fs -> Forall (fun f => number f < vs_next_file_number vs) fs.
Proof. intros HB Hf. eapply Forall_impl; [exact Hf|]. intros f (L & HL & _). by eapply sb_below. Qed.

Lemma holds_insert M Ls n ss L f : number f <> n -> holds M Ls f -> holds (<[n := ss]> M) (<[n := L]> Ls) f.
Proof.
  intros Hne (L0 & H1 & H2 & H3). exists L0. rewrite lookup_insert_ne by done. split; [done|]. split; [done|].
  by rewrite (contents_insert M (mkFile 0 n 0 [] [])).
Qed.

Lemma old_name_table n n' : 0 < n < 2 ^ 64 -> 0 < n' < 2 ^ 64 -> old_name dbname n <> table_name dbname n'.
Proof. intros Hn Hn'. by destruct (names_apart dbname n n' Hn Hn') as (_ & ? & _). Qed.

(** After a number was taken and a table file of that number written. *)
Lemma st_base_step vs tc' b M Ls M' Ls' es : st_base vs M Ls es -> vs_next_file_number vs < 2 ^ 62 ->
  touches (table_name dbname (vs_next_file_number vs)) (vs_env vs) (tc_env tc') -> tc_inv tc' b Ls' ->
  (forall n L, Ls' !! n = Some L -> Ls !! n = Some L \/ n = vs_next_file_number vs) -> levels_ok le M' (levels vs) ->
  Forall (holds M' Ls') (concat (levels vs)) -> all_versions M' (concat (levels vs)) = all_versions M (concat (levels vs)) ->
  st_base (set_tables tc' (set_next (vs_next_file_number vs + 1) vs)) M' Ls' es.
Proof.
  intros [B1 B2 B3 B4 B5 B6 B7 B8 B9 B10] Hn Ht Htc HL Hok Hh Ha. split; cbn; try done.
  - destruct B1 as [G1 G2 G3 G4 (G5 & G6 & G7 & G8)]. split; try done. cbn. split; [unfold fits_unsigned; lia|done].
  - by apply (tc_inv_left _ _ _ Htc).
  - lia.
  - intros n L Hl. destruct (HL n L Hl) as [Hl'| ->]; [specialize (B6 _ _ Hl'); lia|lia].
  - intros n Hn'. change (vs_env (set_tables tc' (set_next (vs_next_file_number vs + 1) vs))) with (tc_env tc'). rewrite Ht; [apply B7; lia|]. apply old_name_table; lia.
  - by rewrite Ha.
Qed.

Lemma edited_below vs edit M Ls es0 es : st_base vs M Ls es0 -> st_edit vs edit M Ls es -> Forall (fun f => number f < vs_next_file_number vs) (concat (edited edit (levels vs))).
Proof. intros HB [S1 S2 S3 S4 S5 S6 S7]. by eapply holds_below. Qed.

Lemma below_ne n fs : Forall (fun f => number f < n) fs -> Forall (fun f => number f <> n) fs.
Proof. intros Hf. eapply Forall_impl; [exact Hf|]. cbn. lia. Qed.

(** Nothing came of the table. *)
Lemma st_step_same vs edit tc' b M Ls es0 es : st_base vs M Ls es0 -> st_edit vs edit M Ls es -> vs_next_file_number vs < 2 ^ 62 ->
  touches (table_name dbname (vs_next_file_number vs)) (vs_env vs) (tc_env tc') -> tc_inv tc' b Ls ->
  st_base (set_tables tc' (set_next (vs_next_file_number vs + 1) vs)) M Ls es0 /\ st_edit (set_tables tc' (set_next (vs_next_file_number vs + 1) vs)) edit M Ls es.
Proof.
  intros HB HE Hn Ht Htc. split; [eapply st_base_step; try done; [by left|apply HB|apply HB]|]. destruct HE as [S1 S2 S3 S4 S5 S6 S7]. split; cbn; try done.
  eapply Forall_impl; [exact S5|]. cbn. lia.
Qed.

(** A file for a sorted list of versions. *)
Lemma new_file_ok M n size ss e0 el : head ss = Some e0 -> last ss = Some el -> Forall fits_version ss -> StronglySorted vlt ss ->
  file_ok (<[n := ss]> M) (seeked (mkFile (Z.shiftl 1 30) n size (ekey e0) (ekey el))).
Proof.
  intros H0 Hl Hf Hs. assert (contents (<[n := ss]> M) (seeked (mkFile (Z.shiftl 1 30) n size (ekey e0) (ekey el))) = ss) as Hc.
  { unfold contents. cbn. by rewrite lookup_insert_eq. }
  split; rewrite ?Hc; [cbn; rewrite lookup_insert_eq; by eexists|done|done|eauto|eauto].
Qed.

Lemma new_file_good n size e0 el : 0 <= n < 2 ^ 62 -> 0 <= size < 2 ^ 41 -> fits_version e0 -> fits_version el -> byte_version e0 -> byte_version el ->
  file_good (mkFile (Z.shiftl 1 30) n size (ekey e0) (ekey el)).
Proof.
  intros Hn Hs H0 Hl [B0 _] [Bl _]. assert (forall e, fits_version e -> key_ok (ekey e)) as Hk.
  { intros e (_ & Hk & _). unfold key_ok, slice_ok, ekey. rewrite length_ikey. split; [|lia]. intros Hx%(f_equal length). rewrite length_ikey in Hx. cbn in Hx. lia. }
  unfold file_good, fits_unsigned. cbn. split_and!; try lia; auto using ekey_octets.
Qed.

Lemma holds_step fs n M Ls ss L : Forall (fun f => number f <> n) fs -> Forall (holds M Ls) fs -> Forall (holds (<[n := ss]> M) (<[n := L]> Ls)) fs.
Proof. intros Hn Hh. rewrite Forall_forall in Hn. rewrite Forall_forall in Hh. apply Forall_forall. intros f Hf. apply holds_insert; auto. Qed.

Lemma sorted_parts es em : by_sequence (es ++ em) -> forall e e', e ∈ em -> e' ∈ es -> e'.1 < e.1.
Proof.
  induction es as [|x es IH]; intros Hs e e' He He'; [by apply elem_of_nil in He'|]. apply StronglySorted_inv in Hs as [Hs Hx].
  apply elem_of_cons in He' as [-> |He']; [|by apply IH]. rewrite Forall_forall in Hx. apply Hx, elem_of_app. auto.
Qed.

(** The table was written: the edit has one more file. *)
Lemma st_step_new vs edit tc' b M Ls es0 es em ss L lv e0 el : st_base vs M Ls es0 -> st_edit vs edit M Ls es -> vs_next_file_number vs < 2 ^ 62 ->
  touches (table_name dbname (vs_next_file_number vs)) (vs_env vs) (tc_env tc') -> tc_inv tc' b (<[vs_next_file_number vs := L]> Ls) ->
  ss ≡ₚ em -> head ss = Some e0 -> last ss = Some el -> Forall fits_version ss -> StronglySorted vlt ss -> Forall byte_version ss ->
  tl_entries L = entry_of <$> ss -> zlen (bytes L) < 2 ^ 41 -> by_sequence (es ++ em) -> level_ok lv -> zlen (concat (edited edit (levels vs))) < 2 ^ 30 ->
  (0 < lv -> forall i files, 0 <= i <= lv -> edited edit (levels vs) !! Z.to_nat i = Some files -> Forall (fun g => outside g (v_key e0) (v_key el)) files) ->
  let n := vs_next_file_number vs in let vs' := set_tables tc' (set_next (n + 1) vs) in
  let f := mkFile (Z.shiftl 1 30) n (zlen (bytes L)) (ekey e0) (ekey el) in
  st_base vs' (<[n := ss]> M) (<[n := L]> Ls) es0 /\ st_edit vs' (push_file lv f edit) (<[n := ss]> M) (<[n := L]> Ls) (es ++ em).
Proof.
  intros HB HE Hn Ht Htc Hp H0 Hl Hf Hs Hb HL Hz Hseq Hlv Hcount Hout n vs' f.
  pose proof (below_ne _ _ (holds_below _ _ _ _ _ HB (sb_holds _ _ _ _ HB))) as Hne1. pose proof (edited_below _ _ _ _ _ _ HB HE) as Hlt2. pose proof (below_ne _ _ Hlt2) as Hne2.
  assert (fits_version e0 /\ fits_version el /\ byte_version e0 /\ byte_version el) as (F0 & Fl & V0 & Vl).
  { rewrite Forall_forall in Hf. rewrite Forall_forall in Hb. pose proof (head_in ss e0 H0). assert (el ∈ ss) by (by apply last_Some_elem_of). auto. }
  assert (file_ok (<[n := ss]> M) (seeked f)) as Hfo by (by apply new_file_ok).
  assert (keyed f) as Hk by (split; by apply ekey_ikey). destruct HE as [S1 S2 S3 S4 S5 S6 S7].
  pose proof (edited_push edit lv f (levels vs) Hlv) as Epush. pose proof (sb_next _ _ _ _ HB) as Hpos.
  pose proof (with_file_concat lv (seeked f) (edited edit (levels vs)) ltac:(apply level_index; [done|apply S3])) as HP. split.
  - eapply st_base_step; try done.
    + intros m L0. destruct (decide (m = n)) as [-> |Hm]; [by right|]. rewrite lookup_insert_ne by done. by left.
    + apply levels_ok_insert; [done|apply HB].
    + apply holds_step; [done|apply HB].
    + by apply all_versions_insert.
  - split; cbn [vs' set_tables set_next vs_current vs_next_file_number]; rewrite ?Epush.
    + apply edit_fits_push; try done. eapply Forall_impl; [exact S5|]. cbn. lia.
    + destruct S2 as [G1 G2 G3 G4 G5 G6 G7 G8]. split; try done. cbn. apply Forall_app_2; [done|]. apply Forall_singleton. split; [done|]. apply new_file_good; try done; lia.
    + apply (flush_sem le M _ (seeked f) ss lv (v_key e0) (v_key el)); try done; try apply ExtractUserKey_ikey; [lia|].
      intros e e' He He'. rewrite Hp in He. rewrite S6 in He'. by eapply sorted_parts.
    + rewrite HP. constructor; [|by apply holds_step]. exists L. cbn. rewrite lookup_insert_eq. split; [done|]. split; [done|]. unfold contents. cbn. by rewrite lookup_insert_eq.
    + cbn. apply Forall_app_2; [|apply Forall_singleton; cbn; lia]. eapply Forall_impl; [exact S5|]. cbn. lia.
    + rewrite (all_versions_perm _ _ _ HP). unfold all_versions. cbn [fmap list_fmap concat]. rewrite Permutation_app_comm. apply Permutation_app.
      * fold (all_versions (<[n := ss]> M) (concat (edited edit (levels vs)))). by rewrite all_versions_insert.
      * unfold contents. cbn. by rewrite lookup_insert_eq.
    + done.
Qed.
End rep.

(** ** Writing a memtable as a table *)
Section flush.
Context (le : bool) (ptr : list Z -> Z) (snappy : Snappy) (policy : option FilterPolicy) (opts : Options) (uninit : Z) (dbname : list Z) (cap : Z).
Context {E : Type} `{!Env E} {K : Type} `{!BlockCache K}.
Context (Hptr : addresses ptr) (Hsnappy : Snappy_inverse snappy).
Context (Hcomp : o_compression opts = kNoCompression \/ o_compression opts = kSnappyCompression).
Context (Hint : 1 <= o_block_restart_interval opts).
Context (same_match : forall P x y f, policy = Some P -> same (Separators := InternalKey_Separators le) x y -> FP_KeyMayMatch x f = FP_KeyMayMatch y f).
Context (Hcap : 0 <= cap < 2 ^ 30).
Context (Hfkey : forall k, is_ikey k -> fkey policy k) (Hper : per_key policy <= 400) (Hname : zlen (policy_name policy) < 2 ^ 28).
Implicit Types (vs : VSet E K) (edit : VersionEdit) (M : gmap Z (list version)) (Ls : gmap Z layout) (es em : list version) (f : FileMetaData).
Notation tc_inv := (tc_inv le snappy policy opts uninit dbname cap).
Notation bytes := (tl_bytes le snappy policy opts).
Notation levels vs := (files_ (vs_current vs)).
Notation st_base := (st_base le snappy policy opts uninit dbname cap).
Notation st_edit := (st_edit le snappy policy opts).
Notation write := (WriteLevel0Table le ptr snappy policy opts uninit dbname).

Lemma mem_rep_length table em : mem_rep le table em -> length (nodes table) = S (length em).
Proof.
  intros Hm. destruct (mem_rep_nodes le table em Hm) as (h & nds & -> & _ & _ & Hp). apply Permutation_length in Hp. rewrite !length_fmap in Hp. cbn. by rewrite Hp.
Qed.

(** Where the table goes. *)
Lemma level_for vs M Ls es0 edit base u1 u2 : st_base vs M Ls es0 -> (base = None \/ base = Some (vs_current vs) /\ edited edit (levels vs) = levels vs) ->
  exists lv, (match base with Some base => PickLevelForMemTableOutput le base u1 u2 | None => Some 0 end) = Some lv /\ level_ok lv /\
    (0 < lv -> forall i files, 0 <= i <= lv -> edited edit (levels vs) !! Z.to_nat i = Some files -> Forall (fun g => outside g u1 u2) files).
Proof.
  intros HB [-> |[-> ->]]; [exists 0; split; [done|]; split; [unfold level_ok, kNumLevels; lia|lia]|].
  destruct (PickLevel_spec le M (vs_current vs) u1 u2 (sb_levels _ _ _ _ _ _ _ _ _ _ _ HB)) as (lv & -> & Hlv & Hout). exists lv. split; [done|]. split; [|done].
  unfold level_ok, kNumLevels, kMaxMemCompactLevel in *. lia.
Qed.

Lemma WriteLevel0Table_spec vs edit M Ls es0 es mem em base : st_base vs M Ls es0 -> st_edit vs edit M Ls es ->
  (base = None \/ base = Some (vs_current vs) /\ edited edit (levels vs) = levels vs) ->
  vs_next_file_number vs < 2 ^ 62 -> 0 < ids_left (vs_tables vs) -> zlen (concat (edited edit (levels vs))) < 2 ^ 30 ->
  mem_rep le mem em -> Forall byte_version em -> mem_weight em <= 2 ^ 26 -> by_sequence (es ++ em) ->
  exists s edit' tc' M' Ls', let vs' := set_tables tc' (set_next (vs_next_file_number vs + 1) vs) in
    write mem edit base vs = Some (s, edit', vs') /\ st_base vs' M' Ls' es0 /\ st_edit vs' edit' M' Ls' (if Status_ok s then es ++ em else es) /\
    ids_left (vs_tables vs) - 1 <= ids_left tc' /\ zlen (concat (edited edit' (levels vs))) <= zlen (concat (edited edit (levels vs))) + 1 /\
    touches (table_name dbname (vs_next_file_number vs)) (vs_env vs) (tc_env tc') /\ (edit' = edit \/ exists lv f, edit' = push_file lv f edit).
Proof using Hptr Hsnappy Hcomp Hint same_match Hcap Hfkey Hper Hname.
  intros HB HE Hbase Hnum Hids Hcount Hm Hb Hw Hseq. pose proof (sb_next _ _ _ _ _ _ _ _ _ _ _ HB) as Hpos.
  destruct (memtable_scan le mem em Hm) as (ss & at_ & Hp & Hss & Hscan & Hat).
  assert (Forall fits_version em) as Hf by apply Hm. assert (Forall fits_version ss) as Hf' by (by rewrite Hp). assert (Forall byte_version ss) as Hb' by (by rewrite Hp).
  unfold WriteLevel0Table, NewFileNumber. set (n := vs_next_file_number vs) in *. assert (wrap 64 (n + 1) = n + 1) as -> by (apply wrap_fits; unfold fits_unsigned; lia).
  set (meta := mkFile (Z.shiftl 1 30) n 0 [] []).
  destruct (BuildTable_spec le ptr snappy policy opts uninit dbname cap Hptr Hsnappy Hcomp Hint same_match Hcap (entry_of <$> ss) at_ Hscan
    (S (length (nodes mem))) (MemTable_NewIterator mem) (length ss) meta (vs_tables vs) (ids_left (vs_tables vs)) Ls n) as (s & meta' & tc' & EB & Ht & Hbuilt).
  { done. }
  { rewrite length_fmap, (mem_rep_length mem em Hm), Hp. lia. }
  { by eapply memtable_entries_ok. }
  { done. }
  { lia. }
  { destruct (Ls !! n) as [L|] eqn:El; [|done]. pose proof (sb_below _ _ _ _ _ _ _ _ _ _ _ HB n L El). lia. }
  { apply HB. lia. }
  { apply HB. }
  { done. }
  change (vs_tables (set_next (n + 1) vs)) with (vs_tables vs). rewrite EB. cbn [mbind option_bind].
  assert (tc_inv tc' (ids_left (vs_tables vs) - 1) Ls -> exists M' Ls', st_base (set_tables tc' (set_next (n + 1) vs)) M' Ls' es0 /\
    st_edit (set_tables tc' (set_next (n + 1) vs)) edit M' Ls' es /\ ids_left (vs_tables vs) - 1 <= ids_left tc') as Hsame.
  { intros Htc. exists M, Ls. destruct (st_step_same le snappy policy opts uninit dbname cap _ _ _ _ _ _ _ _ HB HE Hnum Ht Htc) as [B' E']. split_and!; [done|done|].
    by apply tc_inv_left in Htc as [_ ?]. }
  unfold built in Hbuilt. destruct (Status_ok s) eqn:Es; cbn [andb].
  2:{ destruct (Hsame Hbuilt) as (M' & Ls' & B' & E' & Hi). exists s, edit, tc', M', Ls'. rewrite Es. split_and!; try done; [lia|by left]. }
  destruct ss as [|e0 ss0] eqn:Ess; cbn [fmap list_fmap] in Hbuilt.
  { destruct Hbuilt as [-> Hbuilt]. assert (em = []) as -> by (by apply Permutation_nil_l in Hp). rewrite app_nil_r.
    destruct (Hsame Hbuilt) as (M' & Ls' & B' & E' & Hi). exists s, edit, tc', M', Ls'. rewrite Es. split_and!; try done; [lia|by left]. }
  destruct Hbuilt as (L & HL & Hz & Htc & ->). rewrite <-Ess in *. destruct (last ss) as [el|] eqn:El; [|by apply last_None in El; subst ss].
  assert (fst <$> last (entry_of <$> ss) = Some (ekey el)) as Elast by (rewrite fmap_last, El; done).
  change (entry_of e0 :: (entry_of <$> ss0)) with (entry_of <$> e0 :: ss0) in *. rewrite <-Ess, Elast in *. cbn [VersionEdit.file_size smallest largest number allowed_seeks meta default from_option id fst entry_of].
  rewrite (proj2 (Z.ltb_lt 0 _)) by lia. assert (forall e, ExtractUserKey (ekey e) = Some (v_key e)) as Hx by (intros e; apply ExtractUserKey_ikey). rewrite !Hx. cbn [mbind option_bind].
  destruct (level_for vs M Ls es0 edit base (v_key e0) (v_key el) HB Hbase) as (lv & -> & Hlv & Hout). cbn [mbind option_bind].
  destruct (st_step_new le snappy policy opts uninit dbname cap vs edit tc' _ M Ls es0 es em ss L lv e0 el HB HE Hnum Ht Htc Hp) as [B' E']; try done; [by subst ss|lia|].
  eexists s, _, tc', _, _. split; [done|]. rewrite Es. split; [exact B'|]. split; [exact E'|]. split; [by apply tc_inv_left in Htc as [_ ?]|]. split; [|split; [done|right; by eexists _, _]].
  unfold AddFile. rewrite edited_push by done. rewrite with_file_concat by (apply level_index; [done|apply HE]). cbn [length]. lia.
Qed.

(** ** Deleting files *)
Lemma tc_inv_disk (tc : TableCache E K) e' b Ls : tc_inv tc b Ls -> (forall n L, Ls !! n = Some L -> disk e' !! table_name dbname n = disk (tc_env tc) !! table_name dbname n) ->
  (forall n L, Ls !! n = Some L -> disk (tc_env tc) !! old_name dbname n = None -> disk e' !! old_name dbname n = None) ->
  tc_inv (mkTC e' (tc_cache tc) (tc_blocks tc)) b Ls.
Proof.
  intros (c & owner & [T1 T2 Tout T3 T4] & Hq) H1 H2. exists c, owner. split; [|done]. split; [done|done|done|done|]. cbn. intros n L HL. destruct (T4 n L HL) as (N1 & N2 & N3 & N4).
  split; [done|]. split; [done|]. split; [by rewrite (H1 n L)|by apply (H2 n L)].
Qed.

Lemma tc_inv_number (tc : TableCache E K) b Ls n L : tc_inv tc b Ls -> Ls !! n = Some L -> 0 < n < 2 ^ 64.
Proof. intros (c & owner & [T1 T2 Tout T3 T4] & Hq) HL. by destruct (T4 n L HL). Qed.

Lemma table_named n : 0 < n < 2 ^ 64 -> named dbname (table_name dbname n) n kTableFile /\ named dbname (old_name dbname n) n kTableFile.
Proof using. intros Hn. clear -Hn. split; apply file_named; unfold fits_unsigned; lia. Qed.

(** The numbers, the log and the version stay as they are. *)
Definition same_but_tables vs vs' : Prop := exists tc, vs' = set_tables tc vs /\ tc_blocks tc = tc_blocks (vs_tables vs).

Lemma delete_one vs M Ls Ls1 es n t name tc : st_base vs M Ls es -> ParseFileName name = Some (n, t) -> Forall (holds le snappy policy opts M Ls1) (concat (levels vs)) ->
  (forall m L, Ls1 !! m = Some L -> Ls !! m = Some L) ->
  tc_inv tc (ids_left (vs_tables vs)) Ls1 -> tc_env tc = vs_env vs -> tc_blocks tc = tc_blocks (vs_tables vs) -> (t = kTableFile -> Ls1 !! n = None) ->
  st_base (set_env (env_DeleteFile (dbname ++ chars "/" ++ name) (vs_env (set_tables tc vs))).2 (set_tables tc vs)) M Ls1 es.
Proof.
  intros HB Hparse Hh Hsub Htc Henv Hbl Hn. set (x := dbname ++ chars "/" ++ name). assert (named dbname x n t) as Hx by (by exists name).
  change (vs_env (set_tables tc vs)) with (tc_env tc). rewrite Henv. destruct (env_DeleteFile x (vs_env vs)) as [c e'] eqn:Ed. apply DeleteFile_spec in Ed as (_ & Ht & D1 & D2).
  assert (forall m, disk (vs_env vs) !! old_name dbname m = None -> disk e' !! old_name dbname m = None) as Hold.
  { intros m Hm. destruct (decide (old_name dbname m = x)) as [Ex|Hne]; [|by rewrite Ht]. destruct (decide (c = kOk)) as [Hc|Hc]; [rewrite Ex; auto|by rewrite D2]. }
  destruct HB as [B1 B2 B3 B4 B5 B6 B7 B8 B9 B10]. split; cbn; try done; [by do 2 apply vs_good_tables| |intros m L HL; by apply (B6 m L), Hsub|intros m Hm; by apply Hold, B7].
  assert (ids_left (mkTC e' (tc_cache tc) (tc_blocks tc)) = ids_left (vs_tables vs)) as -> by (unfold ids_left; cbn; by rewrite Hbl).
  apply tc_inv_disk; [done| |]; intros m L HL.
  - rewrite Henv. apply Ht. intros Ex. destruct (table_named m (tc_inv_number _ _ _ _ _ Htc HL)) as [Hm _]. rewrite Ex in Hm.
    destruct (named_fun _ _ _ _ _ _ Hm Hx) as [-> <-]. by rewrite Hn in HL.
  - rewrite Henv. apply Hold.
Qed.

(** A table that is not needed leaves the cache. *)
Lemma evict_one live vs M Ls es n t : st_base vs M Ls es -> Forall (fun f => number f ∈ live) (concat (levels vs)) -> keep_file live vs n t = false ->
  exists tc Ls1, (if bool_decide (t = kTableFile) then TableCache_Evict le n (vs_tables vs) else Some (vs_tables vs)) = Some tc /\ tc_env tc = vs_env vs /\
    tc_blocks tc = tc_blocks (vs_tables vs) /\ tc_inv tc (ids_left (vs_tables vs)) Ls1 /\ Forall (holds le snappy policy opts M Ls1) (concat (levels vs)) /\
    (forall m L, Ls1 !! m = Some L -> Ls !! m = Some L) /\ (t = kTableFile -> Ls1 !! n = None).
Proof using Hcap.
  intros HB Hl Hk. case_bool_decide as Et.
  - subst t. cbn in Hk. apply bool_decide_eq_false in Hk.
    destruct (TableCache_Evict_spec le snappy policy opts uninit dbname cap Hcap _ _ _ n (sb_tables _ _ _ _ _ _ _ _ _ _ _ HB)) as (tc & Ee & Htc & Henv).
    assert (tc_blocks tc = tc_blocks (vs_tables vs)) as Hbl by (unfold TableCache_Evict in Ee; destruct (Cache_Erase _ _ _); [|done]; by injection Ee as <-).
    exists tc, (delete n Ls). split_and!; try done; [|by intros m L [_ ?]%lookup_delete_Some|intros _; apply lookup_delete_eq].
    pose proof (sb_holds _ _ _ _ _ _ _ _ _ _ _ HB) as B3. rewrite Forall_forall in B3. rewrite Forall_forall in Hl. apply Forall_forall. intros f Hf.
    destruct (B3 f Hf) as (L & HL & HL'). exists L. split; [|done]. rewrite lookup_delete_ne; [done|]. intros ->. by apply Hk, Hl.
  - exists (vs_tables vs), Ls. split_and!; try done; apply HB.
Qed.

Lemma delete_obsolete_spec live names : forall vs M Ls es, st_base vs M Ls es -> Forall (fun f => number f ∈ live) (concat (levels vs)) ->
  exists vs' Ls', delete_obsolete le dbname live names vs = Some vs' /\ st_base vs' M Ls' es /\ same_but_tables vs vs'.
Proof using Hcap.
  induction names as [|name names IH]; intros vs M Ls es HB Hl; cbn [delete_obsolete].
  { exists vs, Ls. split; [done|]. split; [done|]. exists (vs_tables vs). by destruct vs. }
  destruct (ParseFileName name) as [[n t]|] eqn:Hparse; [|by apply (IH vs M Ls es)]. destruct (keep_file live vs n t) eqn:Hk; [by apply (IH vs M Ls es)|].
  destruct (evict_one live vs M Ls es n t HB Hl Hk) as (tc & Ls1 & -> & Henv & Hbl & Htc & Hh & Hsub & Hn). cbn [mbind option_bind].
  pose proof (delete_one vs M Ls Ls1 es n t name tc HB Hparse Hh Hsub Htc Henv Hbl Hn) as HB2.
  destruct (IH _ M Ls1 es HB2) as (vs' & Ls' & -> & HB' & (tc' & -> & Hbl')); [done|]. exists (set_tables tc' vs), Ls'. split; [done|]. split; [done|].
  exists tc'. split; [done|]. rewrite Hbl'. done.
Qed.

Lemma DeleteObsoleteFiles_spec bg_ok vs M Ls es : st_base vs M Ls es ->
  exists vs' Ls', DeleteObsoleteFiles le dbname bg_ok vs = Some vs' /\ st_base vs' M Ls' es /\ same_but_tables vs vs'.
Proof using Hcap.
  intros HB. unfold DeleteObsoleteFiles. destruct bg_ok; cbn [negb].
  2:{ exists vs, Ls. split; [done|]. split; [done|]. exists (vs_tables vs). by destruct vs. }
  destruct (env_GetChildren dbname (vs_env vs)) as [[c names] e] eqn:Ec. apply GetChildren_spec in Ec as (_ & Hd & _).
  destruct (delete_obsolete_spec (AddLiveFiles vs ∅) names (set_env e vs) M Ls es) as (vs' & Ls' & -> & HB' & (tc & -> & Hbl)).
  { destruct HB as [B1 B2 B3 B4 B5 B6 B7 B8 B9 B10]. split; cbn; try done; [by apply vs_good_tables| |by rewrite Hd].
    change (ids_left (mkTC e (tc_cache (vs_tables vs)) (tc_blocks (vs_tables vs)))) with (ids_left (vs_tables vs)). apply tc_inv_disk; [done| |]; intros n L HL; by rewrite Hd. }
  { apply Forall_forall. intros f Hf. unfold AddLiveFiles. apply elem_of_union_r, elem_of_list_to_set, list_elem_of_fmap. eauto. }
  exists (set_tables tc vs), Ls'. split; [done|]. split; [done|]. exists tc. split; [done|]. by rewrite Hbl.
Qed.

(** ** Applying an edit *)
Lemma tc_inv_meta (tc : TableCache E K) e' b Ls : tc_inv tc b Ls -> spares (meta_name dbname) (tc_env tc) e' -> tc_inv (mkTC e' (tc_cache tc) (tc_blocks tc)) b Ls.
Proof.
  intros Htc Hs. apply tc_inv_disk; [done|intros n L HL; apply Hs|intros n L HL <-; apply Hs]; intros (m & t & Hm & Ht);
    destruct (table_named n (tc_inv_number _ _ _ _ _ Htc HL)) as [H1 H2]; [destruct (named_fun _ _ _ _ _ _ H1 Hm) as [_ <-]|destruct (named_fun _ _ _ _ _ _ H2 Hm) as [_ <-]];
    by destruct Ht as [|[|]].
Qed.

Lemma LogAndApply_rep vs edit M Ls es0 es : st_base vs M Ls es0 -> st_edit vs edit M Ls es ->
  (has_log_number_ edit = true -> vs_log_number vs <= log_number_ edit < vs_next_file_number vs) -> (has_prev_log_number_ edit = true -> prev_log_number_ edit = 0) ->
  vs_next_file_number vs < 2 ^ 62 ->
  exists s vs', LogAndApply le ptr dbname edit vs = Some (s, vs') /\ st_base vs' M Ls (if Status_ok s then es else es0) /\
    ids_left (vs_tables vs') = ids_left (vs_tables vs) /\ vs_next_file_number vs' = vs_next_file_number vs /\
    vs_log_number vs' = (if Status_ok s && has_log_number_ edit then log_number_ edit else vs_log_number vs) /\
    zlen (concat (levels vs')) = zlen (concat (if Status_ok s then edited edit (levels vs) else levels vs)) /\ vs_last_sequence vs' = vs_last_sequence vs.
Proof using Hptr.
  intros HB HE Hlog Hprev Hnum. pose proof HB as [B1 B2 B3 B4 B5 B6 B7 B8 B9 B10]. destruct HE as [S1 S2 S3 S4 S5 S6 S7].
  destruct (LogAndApply_spec le ptr Hptr dbname M M edit vs B1 B2 S1 S2 S3 Hlog) as (s & vs' & -> & G & Hsp & Ec & Eb & En & Em & El & Hs).
  assert (ids_left (vs_tables vs') = ids_left (vs_tables vs)) as Eids by (unfold ids_left; by rewrite Eb).
  assert (tc_inv (vs_tables vs') (ids_left (vs_tables vs')) Ls) as Htc.
  { rewrite Eids. replace (vs_tables vs') with (mkTC (vs_env vs') (tc_cache (vs_tables vs)) (tc_blocks (vs_tables vs))) by (rewrite <-Ec, <-Eb; unfold vs_env; by destruct (vs_tables vs')).
    by apply tc_inv_meta. }
  assert (forall n, vs_next_file_number vs' <= n < 2 ^ 64 -> disk (vs_env vs') !! old_name dbname n = None) as Hfresh.
  { rewrite En. intros n Hn. rewrite Hsp; [by apply B7|]. intros (m & t & Hm & Ht). destruct (table_named n ltac:(lia)) as [_ H2].
    destruct (named_fun _ _ _ _ _ _ H2 Hm) as [_ <-]. by destruct Ht as [|[|]]. }
  exists s, vs'. split; [done|]. destruct (Status_ok s) eqn:Es; cbn [andb].
  - destruct Hs as (Hok & HP & Elog & Eprev). apply perm_levels in HP as HP'. split_and!; try done; [|by rewrite HP'].
    split; try done; [by rewrite HP'|lia|intros n L HL; rewrite En; eauto| |].
    + by rewrite (all_versions_perm _ _ _ HP').
    + rewrite Eprev. destruct (has_prev_log_number_ edit); auto.
  - destruct Hs as (Ecur & Elog & Eprev). rewrite Ecur. split_and!; try done. split; rewrite ?Ecur; try done; [lia|intros n L HL; rewrite En; eauto|by rewrite Eprev].
Qed.

(** An edit with other log numbers. *)
Lemma st_edit_log vs edit M Ls es log : st_edit vs edit M Ls es -> fits_unsigned 64 log -> st_edit vs (SetLogNumber log (SetPrevLogNumber 0 edit)) M Ls es.
Proof.
  intros [S1 [G1 G2 G3 G4 G5 G6 G7 G8] S3 S4 S5 S6 S7] Hl. split; [by apply (edit_fits_same edit)| |done|done|done|done|done]. by split.
Qed.

Lemma flush_table_spec vs M Ls es imm em seq log bg_ok : st_base vs M Ls es -> vs_log_number vs <= log < vs_next_file_number vs ->
  vs_next_file_number vs < 2 ^ 62 - 1 -> 0 < ids_left (vs_tables vs) -> zlen (concat (levels vs)) < 2 ^ 30 ->
  mem_rep le imm em -> Forall byte_version em -> mem_weight em <= 2 ^ 26 -> by_sequence (es ++ em) -> 0 <= seq < 2 ^ 56 ->
  exists s vs' M' Ls', flush_table le ptr snappy policy opts uninit dbname seq log bg_ok imm vs = Some (s, vs') /\
    st_base vs' M' Ls' (if Status_ok s then es ++ em else es) /\ vs_log_number vs' <= log < vs_next_file_number vs' /\
    vs_next_file_number vs' = vs_next_file_number vs + 1 /\ ids_left (vs_tables vs) - 1 <= ids_left (vs_tables vs') /\
    zlen (concat (levels vs')) <= zlen (concat (levels vs)) + 1.
Proof using Hptr Hsnappy Hcomp Hint same_match Hcap Hfkey Hper Hname.
  intros HB Hlog Hnum Hids Hcount Hm Hb Hw Hseq Hq. unfold flush_table.
  assert (st_base (set_last seq vs) M Ls es) as HB1.
  { destruct HB as [[G1 G2 G3 G4 (G5 & G6 & G7 & G8)] B2 B3 B4 B5 B6 B7 B8 B9 B10]. split; try done. split; try done. split_and!; try done; cbn; unfold fits_unsigned in *; lia. }
  assert (edited new_VersionEdit (levels vs) = levels vs) as E0 by (by apply edited_none).
  destruct (WriteLevel0Table_spec (set_last seq vs) new_VersionEdit M Ls es es imm em (Some (vs_current (set_last seq vs)))) as (s & edit & tc & M' & Ls' & -> & HB2 & HE2 & Hi & Hc & _);
    try done; [by eapply st_edit_none|by right|cbn; lia|cbn; by rewrite E0|]. cbn [mbind option_bind]. set (vs2 := set_tables tc _) in *.
  cbn [set_last vs_current vs_next_file_number vs_tables] in Hc, Hi. rewrite E0 in Hc. destruct (Status_ok s) eqn:Es.
  2:{ cbn [mbind option_bind]. rewrite Es. exists s, vs2, M', Ls'. rewrite Es. split_and!; try done; cbn; lia. }
  assert (fits_unsigned 64 log) as Hfit by (destruct HB as [[_ _ _ _ (? & ? & ? & ?)]]; unfold fits_unsigned in *; lia).
  destruct (LogAndApply_rep vs2 _ M' Ls' es (es ++ em) HB2 (st_edit_log _ _ _ _ _ log HE2 Hfit)) as (s3 & vs3 & -> & HB3 & Ei3 & En3 & El3 & Ec3 & _);
    [intros _; cbn; lia|by intros _|cbn; lia|]. cbn [mbind option_bind]. cbn [andb] in El3. rewrite andb_true_r in El3.
  assert (zlen (concat (levels vs3)) <= zlen (concat (levels vs)) + 1) as Hc3 by (rewrite Ec3; destruct (Status_ok s3); [exact Hc|cbn; lia]).
  assert (vs_log_number vs3 <= log < vs_next_file_number vs3) as Hlog3 by (rewrite El3, En3; destruct (Status_ok s3); cbn; lia).
  destruct (Status_ok s3) eqn:Es3.
  - destruct (DeleteObsoleteFiles_spec bg_ok vs3 M' Ls' _ HB3) as (vs4 & Ls4 & -> & HB4 & (tc4 & -> & Hbl)). cbn [mbind option_bind].
    eexists _, _, M', Ls4. split; [done|]. rewrite Es3. split; [done|]. split; [done|]. split; [cbn; rewrite En3; cbn; lia|]. split; [|done].
    assert (ids_left tc4 = ids_left (vs_tables vs3)) as Ei4 by (unfold ids_left; by rewrite Hbl). cbn [vs_tables set_tables]. rewrite Ei4, Ei3. exact Hi.
  - eexists _, _, M', Ls'. split; [done|]. rewrite Es3. split; [done|]. split; [done|]. split; [rewrite En3; cbn; lia|]. split; [|done].
    rewrite Ei3. exact Hi.
Qed.

(** ** Lookups *)
Definition table_files Ls : gmap Z (Z * list (list Z * list Z)) := (fun L => (zlen (bytes L), tl_entries L)) <$> Ls.

Lemma holds_stored M Ls f : holds le snappy policy opts M Ls f -> stored M (table_files Ls) f.
Proof. intros (L & HL & Hz & He). unfold stored, table_files. by rewrite lookup_fmap, HL, Hz, <-He. Qed.

(** Another counter of seeks in some files. *)
Lemma st_base_seeks vs tc b M Ls es stats : st_base vs M Ls es -> tc_inv tc b Ls -> disk (tc_env tc) = disk (vs_env vs) ->
  st_base (install (UpdateStats stats (vs_current vs)).2 (vs_log_number vs) (vs_prev_log_number vs) (set_tables tc vs)) M Ls es.
Proof.
  intros [[G1 G2 G3 G4 G5] B2 B3 B4 B5 B6 B7 B8 B9 B10] Htc Hd. destruct (UpdateStats_files stats (vs_current vs)) as (g & Hg & Ev).
  assert (concat (files_ (UpdateStats stats (vs_current vs)).2) = g <$> concat (levels vs)) as Ec by (by rewrite Ev, concat_map_levels).
  assert (forall f, contents M (g f) = contents M f) as Hcon by (intros f; unfold contents; by destruct (Hg f) as (-> & _)).
  split; cbn; try done.
  - split; try done. cbn. rewrite Ec. apply Forall_fmap. eapply Forall_impl; [exact G4|]. intros f Hf. cbn. unfold file_good. by destruct (Hg f) as (-> & -> & -> & ->).
  - rewrite Ev. by apply levels_seeks.
  - rewrite Ec. apply Forall_fmap. eapply Forall_impl; [exact B3|]. intros f (L & H1 & H2 & H3). exists L. rewrite Hcon. by destruct (Hg f) as (-> & -> & _).
  - by apply (tc_inv_left _ _ _ _ _ _ _ _ _ _ Htc).
  - unfold vs_env. cbn. by rewrite Hd.
  - rewrite Ec. unfold all_versions. rewrite <-list_fmap_compose. erewrite list_fmap_ext; [exact B8|]. intros i f _. apply Hcon.
Qed.

Lemma verdict_visible es (vs0 : list version) u s c value : vs0 ≡ₚ es -> by_sequence es -> (c = kOk -> exists e, newest u s vs0 e /\ v_result e = Some value) ->
  (c = kNotFound -> unseen u s vs0 \/ exists e, newest u s vs0 e /\ v_result e = None) ->
  (c = kOk -> visible u s es = Some (Some value)) /\ (c = kNotFound -> visible u s es = None \/ visible u s es = Some None).
Proof.
  intros Hp Hs H1 H2. assert (forall e, newest u s vs0 e -> visible u s es = Some (v_result e)) as Hnew.
  { intros e (Hin & Hk & Hle & Hmax). apply visible_max; [done|by rewrite <-Hp|done|done|]. intros e' He'. apply Hmax. by rewrite Hp. }
  split.
  - intros Hc. destruct (H1 Hc) as (e & He & Hr). by rewrite (Hnew e He), Hr.
  - intros Hc. destruct (H2 Hc) as [Hu|(e & He & Hr)]; [left|right; by rewrite (Hnew e He), Hr]. apply visible_none. intros e He. apply Hu. by rewrite Hp.
Qed.

Lemma current_Get_spec options vs M Ls es junk u s lk value : st_base vs M Ls es -> zlen (concat (levels vs)) <= ids_left (vs_tables vs) ->
  zlen u + 8 < 2 ^ 32 -> 0 <= s < 2 ^ 56 -> new_LookupKey le junk u s = Some lk ->
  exists c value' vs', current_Get le ptr snappy policy opts uninit dbname options lk value vs = Some (c, value', vs') /\ st_base vs' M Ls es /\
    vs_next_file_number vs' = vs_next_file_number vs /\ vs_log_number vs' = vs_log_number vs /\ zlen (concat (levels vs')) = zlen (concat (levels vs)) /\
    ids_left (vs_tables vs) - zlen (concat (levels vs)) <= ids_left (vs_tables vs') /\
    (c = kOk -> visible u s es = Some (Some value')) /\ (c = kNotFound -> (visible u s es = None \/ visible u s es = Some None) /\ value' = value).
Proof using Hptr Hsnappy Hcomp Hint same_match Hcap Hfkey.
  intros HB Hb Hu Hs Elk. unfold current_Get. pose proof HB as [B1 B2 B3 B4 B5 B6 B7 B8 B9 B10].
  set (Q := fun (Ls' : gmap Z layout) (d : gmap (list Z) (list Z)) => Ls' = Ls /\ d = disk (vs_env vs)).
  destruct (Version_Get_spec (TableSource0 := TableCache_source le ptr snappy policy opts uninit dbname cap Hptr Hsnappy Hcomp Hint same_match Hcap Q)
    le options M (table_files Ls) u s Hs (Hfkey _ (lookup_key_ikey u s Hs)) (vs_current vs) lk junk value (vs_tables vs) (ids_left (vs_tables vs)) B2)
    as (c & value' & stats & tc & EG & (Ls' & Htc & [-> Hd] & _) & Hv).
  { eapply Forall_impl; [exact B3|]. intros f. apply holds_stored. }
  { exists Ls. split; [done|]. split; [done|]. intros n size es' Hn. unfold table_files in Hn. rewrite lookup_fmap in Hn. apply fmap_Some in Hn as (L & HL & [= -> ->]). eauto. }
  { done. }
  { done. }
  { done. }
  rewrite EG. cbn [mbind option_bind]. eexists _, _, _. split; [done|]. split; [by eapply st_base_seeks|]. split; [done|]. split; [done|]. split.
  { cbn. destruct (UpdateStats_files stats (vs_current vs)) as (g & _ & ->). by rewrite concat_map_levels, length_fmap. }
  split; [by apply tc_inv_left in Htc as [_ ?]|]. destruct Hv as (H1 & H2 & _).
  destruct (verdict_visible es _ u s c value' B8 B9 H1) as [H3 H4]; [by intros Hc; apply H2|]. split; [done|]. intros Hc. split; [auto|by apply H2].
Qed.

(** ** The interfaces of [DbImpl] *)
Definition files_left (n : Z) : Z := 2 ^ 30 - n.
(** A lookup opens up to [2 ^ 30] tables; a flush takes a number. *)
Definition storage_room vs : Z :=
  Z.min (files_left (zlen (concat (levels vs)))) (Z.min (ids_left (vs_tables vs) / 2 ^ 30) (2 ^ 62 - 1 - vs_next_file_number vs)).
Definition storage_rep vs (log : Z) es : Prop := exists M Ls, st_base vs M Ls es /\ vs_log_number vs <= log < vs_next_file_number vs.

Lemma st_base_next vs M Ls es n : st_base vs M Ls es -> (forall m L, Ls !! m = Some L -> m < n) -> 0 < n < 2 ^ 64 ->
  (forall m, n <= m < 2 ^ 64 -> disk (vs_env vs) !! old_name dbname m = None) -> st_base (set_next n vs) M Ls es.
Proof.
  intros [[G1 G2 G3 G4 (G5 & G6 & G7 & G8)] B2 B3 B4 B5 B6 B7 B8 B9 B10] Hb Hn Hf. split; try done; [|cbn; lia]. split; try done. split; [|done]. cbn. unfold fits_unsigned. lia.
Qed.

Lemma NewFileNumber_rep vs log es : storage_rep vs log es -> 0 < storage_room vs ->
  NewFileNumber vs = (vs_next_file_number vs, set_next (vs_next_file_number vs + 1) vs) /\
  storage_rep (set_next (vs_next_file_number vs + 1) vs) (vs_next_file_number vs) es /\ storage_room vs - 1 <= storage_room (set_next (vs_next_file_number vs + 1) vs).
Proof.
  intros (M & Ls & HB & Hlog) Hr. pose proof (sb_next _ _ _ _ _ _ _ _ _ _ _ HB) as Hpos. unfold storage_room, files_left in *. split; [|split].
  - unfold NewFileNumber. rewrite wrap_fits by (unfold fits_unsigned; lia). done.
  - exists M, Ls. split; [|cbn; lia]. apply st_base_next; [done|intros m L HL; pose proof (sb_below _ _ _ _ _ _ _ _ _ _ _ HB m L HL); lia|lia|]. intros m Hm. apply HB. lia.
  - cbn. lia.
Qed.

Lemma ReuseFileNumber_rep vs log es : storage_rep vs log es -> 0 < storage_room vs ->
  ReuseFileNumber (NewFileNumber vs).1 (NewFileNumber vs).2 = vs.
Proof.
  intros HV Hr. destruct (NewFileNumber_rep vs log es HV Hr) as (-> & _). destruct HV as (M & Ls & HB & Hlog). pose proof (sb_next _ _ _ _ _ _ _ _ _ _ _ HB) as Hpos.
  unfold ReuseFileNumber, storage_room in *. cbn. rewrite wrap_fits by (unfold fits_unsigned; lia). rewrite Z.eqb_refl. by destruct vs.
Qed.

Lemma ids_pos a : 0 < a / 2 ^ 30 -> 0 < a.
Proof. intros Ha. pose proof (Z.mul_div_le a (2 ^ 30)). lia. Qed.

Lemma Z_div_minus_1 a b : 0 < b -> (a - b) / b = a / b - 1.
Proof. intros Hb. replace (a - b) with (a + (-1) * b) by lia. rewrite Z.div_add by lia. lia. Qed.

Definition storage_VersionSet (options : ReadOptions) : VersionSet le (VSet E K).
Proof using Hptr Hsnappy Hcomp Hint same_match Hcap Hfkey Hper Hname ptr snappy policy opts uninit dbname cap Env0 BlockCache0.
  refine {|
    V_rep := storage_rep; V_room := storage_room; V_max := 2 ^ 25;
    V_Get vs lk value := current_Get le ptr snappy policy opts uninit dbname options lk value vs;
    V_flush vs seq log collect table := flush_table le ptr snappy policy opts uninit dbname seq log collect table vs;
    V_NewFileNumber := NewFileNumber;
    V_ReuseFileNumber := ReuseFileNumber;
    V_PrevLogNumber := vs_prev_log_number;
  |}.
  - lia.
  - intros vs log es (M & Ls & HB & _). apply HB.
  - intros vs log es junk u s lk value (M & Ls & HB & Hlog) Hr Hu _ Hs Elk. unfold storage_room, files_left in Hr.
    assert (2 ^ 30 <= ids_left (vs_tables vs)) as Hids.
    { assert (1 <= ids_left (vs_tables vs) / 2 ^ 30) as H1 by lia. apply (Z.mul_le_mono_nonneg_l _ _ (2 ^ 30)) in H1; [|lia]. pose proof (Z.mul_div_le (ids_left (vs_tables vs)) (2 ^ 30)). lia. }
    destruct (current_Get_spec options vs M Ls es junk u s lk value HB) as (c & value' & vs' & -> & HB' & En & El & Ec & Hi & Hok & Hnf); [lia|done|done|done|].
    eexists _, _, _. split; [done|]. split; [exists M, Ls; split; [done|lia]|]. split; [|done]. unfold storage_room, files_left. rewrite En, Ec.
    assert (ids_left (vs_tables vs) / 2 ^ 30 - 1 <= ids_left (vs_tables vs') / 2 ^ 30); [|lia]. rewrite <-Z_div_minus_1 by lia. apply Z.div_le_mono; lia.
  - intros vs log es table em seq collect (M & Ls & HB & Hlog) Hr Hm Hb Hw Hseq Hq. unfold storage_room, files_left in Hr.
    destruct (flush_table_spec vs M Ls es table em seq log collect HB Hlog) as (s & vs' & M' & Ls' & -> & HB' & Hlog' & En & Hi & Hc);
      try done; try lia; [apply ids_pos; lia|].
    eexists _, _. split; [done|]. split; [by exists M', Ls'|]. unfold storage_room, files_left.
    assert (ids_left (vs_tables vs) / 2 ^ 30 - 1 <= ids_left (vs_tables vs') / 2 ^ 30); [|lia]. rewrite <-Z_div_minus_1 by lia. apply Z.div_le_mono; lia.
  - intros vs log es HV Hr. destruct (NewFileNumber_rep vs log es HV Hr) as (-> & ? & ?). done.
  - intros vs log es HV Hr. rewrite (ReuseFileNumber_rep vs log es HV Hr). split; [done|lia].
Defined.

(** ** The tables of recovery *)
Definition sink_room (w : VSet E K * VersionEdit * bool) : Z :=
  Z.min (files_left (zlen (concat (edited w.1.2 (levels w.1.1))))) (Z.min (ids_left (vs_tables w.1.1)) (2 ^ 62 - 1 - vs_next_file_number w.1.1)).
(** A fact [Q] that writing a table keeps. *)
Definition sink_keeps (Q : VSet E K * VersionEdit * bool -> Prop) : Prop := forall vs edit save tc edit', Q (vs, edit, save) ->
  touches (table_name dbname (vs_next_file_number vs)) (vs_env vs) (tc_env tc) -> (edit' = edit \/ exists lv f, edit' = push_file lv f edit) ->
  ids_left (vs_tables vs) - 1 <= ids_left tc -> Q (set_tables tc (set_next (vs_next_file_number vs + 1) vs), edit', true).
Definition sink_rep Q es0 (w : VSet E K * VersionEdit * bool) es : Prop := Q w /\ exists M Ls, st_base w.1.1 M Ls es0 /\ st_edit w.1.1 w.1.2 M Ls es.

Definition storage_TableSink Q es0 (HQ : sink_keeps Q) :
  TableSink (TableWriter0 := sink_write le ptr snappy policy opts uninit dbname) le (VSet E K * VersionEdit * bool).
Proof using Hptr Hsnappy Hcomp Hint same_match Hcap Hfkey Hper Hname ptr snappy policy opts uninit dbname cap Env0 BlockCache0.
  refine {| W_rep := sink_rep Q es0; W_room := sink_room; W_max := 2 ^ 26 |}.
  - lia.
  - intros [[vs edit] save] es table em (Hq & M & Ls & HB & HE) Hr Hm Hb Hw Hseq. unfold sink_room, files_left in Hr. unfold W_write, sink_write. cbn [fst snd] in *.
    destruct (WriteLevel0Table_spec vs edit M Ls es0 es table em None) as (s & edit' & tc & M' & Ls' & -> & HB' & HE' & Hi & Hc & Ht & He); try done; [by left|lia|lia|lia|].
    cbn [mbind option_bind]. eexists _, _. split; [done|]. split; [split; [by eapply HQ|by exists M', Ls']|]. unfold sink_room, files_left. cbn. lia.
Defined.
End flush.
