(* ===== verification/ManifestLog.v ===== *)
(** The manifest as a log of edits: what [VersionSet::LogAndApply] has written,
    [VersionSet::Recover] reads back. *)
From stdpp Require Import strings.
From S2P Require Import Prelude Coding Dbformat LdbBase Crc32c LogFormat Iterator Block Filter Format Table TableRead Cache.
From S2P Require Import WriteBatch Skiplist Memtable MemIter Numconv Filename TableIO LogIO Env VersionEdit Version Levels CacheShards TableCache Manifest.

(** ** Edits applied one after another *)
Section history.
Context (le : bool).
Implicit Types (ed : VersionEdit) (eds : list VersionEdit) (f : FileMetaData) (lv : list (list FileMetaData)) (b : list LevelState) (s : LevelState).

Fixpoint apply_edits eds (cp : list (list Z)) b : option (list (list Z) * list LevelState) :=
  match eds with
  | [] => Some (cp, b)
  | ed :: eds => '(cp, b) ← Apply le ed cp b; apply_edits eds cp b
  end.

Lemma apply_edits_snoc eds ed : forall cp b, apply_edits (eds ++ [ed]) cp b = ('(cp, b) ← apply_edits eds cp b; Apply le ed cp b).
Proof.
  induction eds as [|ed0 eds IH]; intros cp b; cbn [apply_edits app]; [cbn [mbind option_bind]; by destruct (Apply le ed cp b) as [[? ?]|]|].
  destruct (Apply le ed0 cp b) as [[cp1 b1]|]; [|done]. cbn [mbind option_bind]. apply IH.
Qed.

(** What an edit needs of the builder it is applied to. *)
Record edit_applies ed b : Prop := {
  ea_pointers : Forall (fun p => level_ok p.1 /\ key_ok p.2) (compact_pointers_ ed);
  ea_deleted : Forall (fun p => level_ok p.1) (deleted_files_ ed);
  ea_new : Forall (fun p => level_ok p.1 /\ keyed p.2) (new_files_ ed);
  ea_numbers : forall i s, b !! i = Some s -> NoDup ((number <$> new_at i (new_files_ ed)) ++ (number <$> added_files s));
}.

Lemma Apply_spec ed cp b : edit_applies ed b -> builder_ok le b -> length cp = Z.to_nat kNumLevels ->
  exists cp' b', Apply le ed cp b = Some (cp', b') /\ builder_ok le b' /\ length cp' = Z.to_nat kNumLevels /\
    forall i s, b !! i = Some s -> exists s', b' !! i = Some s' /\ added_files s' ≡ₚ new_at i (new_files_ ed) ++ added_files s /\
      deleted_files s' = (del_at i (deleted_files_ ed) ∪ deleted_files s) ∖ list_to_set (number <$> new_at i (new_files_ ed)).
Proof.
  intros [A1 A2 A3 A4] Hb Hcp. unfold Apply. destruct (apply_compact_spec _ cp A1 Hcp) as (cp' & -> & Hcp'). cbn [mbind option_bind].
  destruct (apply_deleted_spec le _ b A2 Hb) as (b1 & -> & Hb1 & Hd). cbn [mbind option_bind].
  destruct (apply_new_spec le (new_files_ ed) b1 A3 Hb1) as (b2 & -> & Hb2 & Hn).
  { intros i s1 Hs1. destruct (lookup_lt_is_Some_2 b i) as [s Hs]; [rewrite (bo_length _ _ Hb), <-(bo_length _ _ Hb1); by eapply lookup_lt_Some|].
    rewrite (Hd i s Hs) in Hs1. injection Hs1 as <-. exact (A4 i s Hs). }
  cbn [mbind option_bind]. exists cp', b2. split; [done|]. split; [done|]. split; [done|]. intros i s Hs. destruct (Hn i _ (Hd i s Hs)) as (s' & Hs' & E1 & E2). eauto.
Qed.

(** The edits lead from nothing to the files [lv]. *)
Record history eds (cp : list (list Z)) b lv : Prop := {
  hi_apply : apply_edits eds (replicate (Z.to_nat kNumLevels) []) new_Builder = Some (cp, b);
  hi_builder : builder_ok le b;
  hi_pointers : length cp = Z.to_nat kNumLevels;
  hi_length : length lv = Z.to_nat kNumLevels;
  hi_files : forall i s files, b !! i = Some s -> lv !! i = Some files -> kept s (added_files s) ≡ₚ seeked <$> files;
  hi_numbers : forall i s, b !! i = Some s -> NoDup (number <$> added_files s);
}.

(** The order in a level and the counters of seeks do not matter. *)
Lemma history_same eds cp b lv lv' : history eds cp b lv -> length lv' = Z.to_nat kNumLevels ->
  (forall i files', lv' !! i = Some files' -> exists files, lv !! i = Some files /\ (seeked <$> files) ≡ₚ seeked <$> files') -> history eds cp b lv'.
Proof.
  intros [H1 H2 H3 H4 H5 H6] Hl Hs. split; try done. intros i s files' Hi Hf'. destruct (Hs i files' Hf') as (files & Hf & <-). eauto.
Qed.

Definition no_files : list (list FileMetaData) := replicate (Z.to_nat kNumLevels) [].

Lemma history_nil : history [] (replicate (Z.to_nat kNumLevels) []) new_Builder no_files.
Proof.
  split; [done|apply new_Builder_ok|by rewrite length_replicate|by unfold no_files; rewrite length_replicate| |].
  - intros i s files Hs Hf. apply lookup_replicate in Hs as [-> _]. apply lookup_replicate in Hf as [-> _]. done.
  - intros i s [-> _]%lookup_replicate. constructor.
Qed.

Lemma seeked_twice f : seeked (seeked f) = seeked f.
Proof. done. Qed.

Lemma new_at_seeked i l : seeked <$> new_at i l = new_at i l.
Proof. unfold new_at. rewrite <-list_fmap_compose. by apply list_fmap_ext. Qed.

(** The files that one more edit leaves in a level. *)
Lemma kept_step ed s s' i (files : list FileMetaData) :
  NoDup ((number <$> new_at i (new_files_ ed)) ++ (number <$> added_files s)) ->
  added_files s' ≡ₚ new_at i (new_files_ ed) ++ added_files s ->
  deleted_files s' = (del_at i (deleted_files_ ed) ∪ deleted_files s) ∖ list_to_set (number <$> new_at i (new_files_ ed)) ->
  kept s (added_files s) ≡ₚ seeked <$> files ->
  kept s' (added_files s') ≡ₚ seeked <$> (filter (fun f => number f ∉ del_at i (deleted_files_ ed)) files ++ new_at i (new_files_ ed)).
Proof.
  intros (_ & Hdis & _)%NoDup_app Ha Hd Hk. set (N := new_at i (new_files_ ed)) in *. set (D := del_at i (deleted_files_ ed)) in *.
  assert (seeked <$> N = N) as EN by apply new_at_seeked. rewrite fmap_app, EN. unfold kept in *. rewrite Ha, filter_app, Permutation_app_comm. apply Permutation_app.
  - trans (filter (fun f => number f ∉ D) (filter (fun f => number f ∉ deleted_files s) (added_files s))).
    + rewrite list_filter_filter. apply Permutation_refl'. apply filter_ext_in. intros f Hf. rewrite Hd, elem_of_difference, elem_of_union, elem_of_list_to_set.
      assert (number f ∉ number <$> N) by (intros Hx; apply (Hdis _ Hx), list_elem_of_fmap; eauto). tauto.
    + rewrite Hk. apply Permutation_refl'. apply (filter_fmap seeked).
  - apply Permutation_refl'. apply filter_all. intros f Hf. rewrite Hd, elem_of_difference, elem_of_list_to_set. intros [_ Hx]. apply Hx, list_elem_of_fmap. eauto.
Qed.

Lemma history_snoc eds cp b lv ed : history eds cp b lv -> edit_applies ed b ->
  exists cp' b', history (eds ++ [ed]) cp' b' (edited ed lv) /\
    forall i s', b' !! i = Some s' -> exists s, b !! i = Some s /\ added_files s' ≡ₚ new_at i (new_files_ ed) ++ added_files s.
Proof.
  intros [H1 H2 H3 H4 H5 H6] Hea. destruct (Apply_spec ed cp b Hea H2 H3) as (cp' & b' & EA & Hb' & Hcp' & Hs).
  assert (forall i s', b' !! i = Some s' -> exists s, b !! i = Some s /\ added_files s' ≡ₚ new_at i (new_files_ ed) ++ added_files s) as Hadded.
  { intros i s' Hs'. destruct (lookup_lt_is_Some_2 b i) as [s Hb]; [rewrite (bo_length _ _ H2), <-(bo_length _ _ Hb'); by eapply lookup_lt_Some|].
    destruct (Hs i s Hb) as (s'' & Hs'' & E1 & E2). rewrite Hs' in Hs''. injection Hs'' as <-. eauto. }
  exists cp', b'. split; [|done]. split; [|done|done| | |].
  - rewrite apply_edits_snoc, H1. done.
  - unfold edited. by rewrite length_imap.
  - intros i s' files' Hs' Hf'. unfold edited in Hf'. rewrite list_lookup_imap in Hf'. apply fmap_Some in Hf' as (files & Hf & ->).
    destruct (lookup_lt_is_Some_2 b i) as [s Hb]; [rewrite (bo_length _ _ H2), <-(bo_length _ _ Hb'); by eapply lookup_lt_Some|].
    destruct (Hs i s Hb) as (s'' & Hs'' & E1 & E2). rewrite Hs' in Hs''. injection Hs'' as <-. apply (kept_step ed s s' i files); eauto using ea_numbers.
  - intros i s' Hs'. destruct (Hadded i s' Hs') as (s & Hb & ->). rewrite fmap_app. by apply (ea_numbers _ _ Hea).
Qed.
End history.

(** ** The records of a manifest *)
Section records.
Context (le : bool) (ptr : list Z -> Z) (Hptr : addresses ptr) (dbname : list Z).
Context {E : Type} `{!Env E}.
Implicit Types (ed : VersionEdit) (eds : list VersionEdit) (d : Descriptor) (e : E).

(** If the next record has to start in a new block, the append that fills up the
    block succeeds. *)
Definition descriptor_pads d e : Prop := pads (Build_Writer (mkOpenFile (d_name d) e) (d_offset d) (d_crc d)).

(** An edit that a manifest may have. *)
Definition edit_logged ed : Prop := edit_good ed /\ edit_ok ed /\ (has_comparator_ ed = true -> comparator_ ed = Bytewise_Name).

(** The file is the log of the edits, and the writer is at its end. *)
Definition wrote eds (file : list Z) d : Prop := exists evs w0,
  Forall2 (fun ed r => EncodeTo ed [] = Some r /\ edit_logged ed) eds evs.*2 /\ new_Writer le ptr [] = Some w0 /\
  write_log le ptr evs w0 = Some (kOk, Build_Writer file (d_offset d) (d_crc d)).
(** The file is such a log, and [old] is what it was with the first [j] edits. *)
Definition grew (j : nat) (old : list Z) eds (file : list Z) d : Prop := exists evs w0 wj,
  Forall2 (fun ed r => EncodeTo ed [] = Some r /\ edit_logged ed) eds evs.*2 /\ new_Writer le ptr [] = Some w0 /\
  write_log le ptr evs w0 = Some (kOk, Build_Writer file (d_offset d) (d_crc d)) /\
  (j <= length eds)%nat /\ write_log le ptr (take j evs) w0 = Some (kOk, wj) /\ dest_ wj = old.

Lemma grew_wrote j old eds file d : grew j old eds file d -> wrote eds file d.
Proof. intros (evs & w0 & wj & H1 & H2 & H3 & _). by exists evs, w0. Qed.

Lemma wrote_grew eds file d : wrote eds file d -> grew (length eds) file eds file d.
Proof.
  intros (evs & w0 & H1 & H2 & H3). pose proof (Forall2_length _ _ _ H1) as Hl. rewrite length_fmap in Hl. eexists evs, w0, _. rewrite take_ge by lia. by split_and!.
Qed.

Lemma write_log_snoc evs restart r : forall (w : Writer (list Z)), write_log le ptr (evs ++ [(restart, r)]) w =
  ('(s, w) ← write_log le ptr evs w; if Status_ok s then w ← reopen le ptr restart w; AddRecord le ptr w r else Some (s, w)).
Proof.
  induction evs as [|[restart' r'] evs IH]; intros w; cbn [write_log app].
  - cbn [mbind option_bind]. change (Status_ok kOk) with true. cbv iota. destruct (reopen le ptr restart w) as [w'|]; [|done]. cbn [mbind option_bind].
    destruct (AddRecord le ptr w' r) as [[s w2]|]; [|done]. cbn [mbind option_bind]. destruct (Status_ok s) eqn:Es; [|done]. by apply Status_ok_eq in Es as ->.
  - destruct (reopen le ptr restart' w) as [w'|]; [|done]. cbn [mbind option_bind]. destruct (AddRecord le ptr w' r') as [[s w2]|]; [|done]. cbn [mbind option_bind].
    destruct (Status_ok s) eqn:Es; [apply IH|]. cbn [mbind option_bind]. by rewrite Es.
Qed.

Lemma logged_octets eds rs : Forall2 (fun ed r => EncodeTo ed [] = Some r /\ edit_logged ed) eds rs -> Forall (Forall is_byte) rs.
Proof.
  induction 1 as [|ed r eds rs [Er (Hg & _)] _ IH]; constructor; [|done]. destruct (encode_good ed Hg) as (r' & Er' & Hr). rewrite Er in Er'. by injection Er' as <-.
Qed.

(** The length of a log with one short record. *)
Lemma wrote_one ed file d r : wrote [ed] file d -> EncodeTo ed [] = Some r -> zlen r + 7 <= kBlockSize -> zlen file = 7 + zlen r.
Proof using Hptr.
  intros (evs & w0 & Hevs & Hw0 & Hlog) Er Hlen. pose proof (logged_octets _ _ Hevs) as Ho. apply Forall2_cons_inv_l in Hevs as (r' & rs & [Er' _] & Hrs & Eevs).
  apply Forall2_nil_inv_l in Hrs as ->. rewrite Er in Er'. injection Er' as <-. destruct evs as [|[restart r'] [|]]; try done. injection Eevs as ->. cbn in Ho. inversion Ho as [|? ? Ho1 _]; subst.
  destruct (new_Writer_spec le ptr Hptr) as (w0' & Hw0' & Hwinv0). rewrite Hw0 in Hw0'. injection Hw0' as <-.
  cbn [write_log] in Hlog. destruct (reopen_spec le ptr Hptr restart w0 [] Hwinv0) as (w1 & Ew1 & Hw1). rewrite Ew1 in Hlog. cbn [mbind option_bind] in Hlog.
  destruct (AddRecord_short le ptr w1 r Hptr Hw1 Hlen Ho1) as (w2 & Ew2 & Hz). rewrite Ew2 in Hlog. cbn in Hlog. injection Hlog as ->. done.
Qed.

Lemma wrote_nil fname e d : new_Descriptor le ptr fname e = Some d -> wrote [] [] d.
Proof using Hptr.
  unfold new_Descriptor, new_Writer. rewrite InitTypeCrc_spec by done. cbn [mbind option_bind]. intros [= <-]. exists []. eexists. split; [constructor|].
  unfold new_Writer. rewrite InitTypeCrc_spec by done. split; [done|]. done.
Qed.

(** A new file is not at the end of a block. *)
Lemma new_Descriptor_pads fname e d : new_Descriptor le ptr fname e = Some d -> descriptor_pads d e.
Proof using Hptr.
  unfold new_Descriptor, new_Writer. rewrite InitTypeCrc_spec by done. cbn [mbind option_bind]. intros [= <-]. unfold descriptor_pads, pads. cbn. unfold kBlockSize, kHeaderSize. lia.
Qed.

Lemma wrote_add eds file d ed r e d' e' : descriptor_pads d e -> wrote eds file d -> descriptor_ok dbname d -> edit_logged ed -> EncodeTo ed [] = Some r ->
  default [] (disk e !! d_name d) = file -> add_record le ptr d r e = Some (kOk, d', e') -> grew (length eds) file (eds ++ [ed]) (default [] (disk e' !! d_name d)) d'.
Proof using Hptr.
  intros Hpads (evs & w0 & Hevs & Hw0 & Hlog) (_ & Ho & Hc) Hed Er Hfile Hadd. pose proof (logged_octets _ _ Hevs) as Hoct.
  destruct (new_Writer_spec le ptr Hptr) as (w0' & Hw0' & Hwinv0). rewrite Hw0 in Hw0'. injection Hw0' as <-.
  destruct (write_log_grows le ptr Hptr evs w0 [] Hwinv0 Hoct) as (w' & b & Hlog' & Hwinv). rewrite Hlog in Hlog'. injection Hlog' as <-. pose proof (proj1 Hwinv) as Hb. cbn in Hb.
  assert (Forall is_byte r) as Hr by (destruct Hed as [Hg _]; destruct (encode_good ed Hg) as (r' & Er' & Hr); rewrite Er in Er'; by injection Er' as <-).
  unfold add_record in Hadd. set (w := Build_Writer (mkOpenFile (d_name d) e) (d_offset d) (d_crc d)) in *.
  destruct (AddRecord_file le ptr Hptr w r) as (s & w1 & Ew & [Hn _] & _ & Hmem); [by split|done|]. rewrite Ew in Hadd. cbn [mbind option_bind] in Hadd. injection Hadd as -> <- <-.
  specialize (Hmem Hpads eq_refl file). rewrite <-Hb in Hwinv. specialize (Hmem Hwinv Hfile).
  pose proof (Forall2_length _ _ _ Hevs) as Hl. rewrite length_fmap in Hl.
  eexists (evs ++ [(false, r)]), w0, _. split_and!; [|done| |rewrite length_app; lia|by rewrite Hl, take_app_length, Hlog|done].
  - rewrite fmap_app. apply Forall2_app; [done|]. apply Forall2_cons_2; [done|apply Forall2_nil_2].
  - rewrite write_log_snoc, Hlog. cbn [mbind option_bind]. change (Status_ok kOk) with true. cbn [reopen mbind option_bind].
    change (Build_Writer file (d_offset d) (d_crc d)) with (in_memory file w). rewrite Hmem. unfold in_memory. cbn. do 3 f_equal. unfold written. cbn. by rewrite Hn.
Qed.
End records.

(** ** Reading the records back *)
Section reading.
Context (le : bool) (ptr : list Z -> Z) (Hptr : addresses ptr) (dbname : list Z).
Implicit Types (ed : VersionEdit) (eds : list VersionEdit) (g : Gathered) (r : Reader (list Z)).

(** An edit read from its record adds the same files. *)
Lemma apply_new_fresh l : forall b, apply_new_files le (prod_map id fresh_file <$> l) b = apply_new_files le l b.
Proof.
  induction l as [|[level f] l IH]; intros b; [done|]. cbn [fmap list_fmap prod_map apply_new_files fresh_file number VersionEdit.file_size smallest largest fst snd id].
  destruct (b !! Z.to_nat level) as [s|]; [|done]. cbn [mbind option_bind]. destruct (insert_file _ _ _); [|done]. cbn [mbind option_bind]. apply IH.
Qed.

Lemma Apply_decoded ed cp b : Apply le (decoded new_VersionEdit ed) cp b = Apply le ed cp b.
Proof.
  unfold Apply, decoded. cbn [compact_pointers_ deleted_files_ new_files_ new_VersionEdit app]. destruct (apply_compact_pointers _ _); [|done]. cbn [mbind option_bind].
  destruct (apply_deleted_files _ _); [|done]. cbn [mbind option_bind]. by rewrite apply_new_fresh.
Qed.

(** The numbers of an edit over those gathered before. *)
Definition with_numbers ed g : Gathered :=
  mkGathered (g_status g) (g_compact_pointer g) (g_builder g)
    (if has_log_number_ ed then Some (log_number_ ed) else g_log_number g)
    (if has_prev_log_number_ ed then Some (prev_log_number_ ed) else g_prev_log_number g)
    (if has_next_file_number_ ed then Some (next_file_number_ ed) else g_next_file g)
    (if has_last_sequence_ ed then Some (last_sequence_ ed) else g_last_sequence g).
Definition set_builder cp b g : Gathered :=
  mkGathered (g_status g) cp b (g_log_number g) (g_prev_log_number g) (g_next_file g) (g_last_sequence g).

Lemma gather_record_logged ed (r : list Z) g cp b : EncodeTo ed [] = Some r -> edit_logged ed -> g_status g = kOk ->
  Apply le ed (g_compact_pointer g) (g_builder g) = Some (cp, b) -> gather_record le r g = Some (with_numbers ed (set_builder cp b g)).
Proof.
  intros Er (_ & Hok & Hcmp) Hg EA. unfold gather_record. destruct (edit_decode new_VersionEdit ed Hok) as (r' & Er' & ED). rewrite Er in Er'. injection Er' as <-. rewrite ED. cbn [mbind option_bind].
  change (has_comparator_ (decoded new_VersionEdit ed)) with (has_comparator_ ed). change (comparator_ (decoded new_VersionEdit ed)) with (comparator_ ed).
  replace (Status_ok kOk && has_comparator_ ed && negb (bool_decide (comparator_ ed = Bytewise_Name))) with false.
  2:{ destruct (has_comparator_ ed); [|done]. by rewrite bool_decide_eq_true_2 by auto. }
  change (Status_ok kOk) with true. cbv iota. rewrite Apply_decoded, EA. cbn [mbind option_bind]. unfold with_numbers, set_builder. cbn. by rewrite Hg.
Qed.

Lemma gather_quiet eds rs : forall fuel r g cp b, Forall2 (fun ed x => EncodeTo ed [] = Some x /\ edit_logged ed) eds rs -> quiet_reads le ptr rs r ->
  g_status g = kOk -> apply_edits le eds (g_compact_pointer g) (g_builder g) = Some (cp, b) -> (length rs < fuel)%nat ->
  gather le ptr fuel r g = Some (set_builder cp b (foldl (fun g ed => with_numbers ed g) g eds)).
Proof.
  revert rs. induction eds as [|ed eds IH]; intros rs fuel r g cp b Hrs Hq Hg EA Hfuel; (destruct fuel as [|fuel]; [lia|]); cbn [gather].
  - apply Forall2_nil_inv_l in Hrs as ->. destruct Hq as (r' & -> & Hrep). cbn [mbind option_bind andb]. injection EA as <- <-. cbn [foldl].
    unfold reported. rewrite Hrep, drop_ge by (by rewrite length_fmap). cbn [foldl]. by destruct g.
  - apply Forall2_cons_inv_l in Hrs as (x & rs' & [Ex Hed] & Hrs & ->). destruct Hq as (r' & -> & Hrep & Hq). cbn [mbind option_bind].
    unfold reported. rewrite Hrep, drop_ge by (by rewrite length_fmap). cbn [foldl]. replace (set_status (g_status g) g) with g by (by destruct g).
    rewrite Hg. change (true && Status_ok kOk) with true. cbv iota. cbn [apply_edits] in EA.
    destruct (Apply le ed (g_compact_pointer g) (g_builder g)) as [[cp1 b1]|] eqn:E1; [|done]. cbn [mbind option_bind] in EA.
    rewrite (gather_record_logged ed x g cp1 b1 Ex Hed Hg E1). cbn [mbind option_bind].
    rewrite (IH rs' fuel r' (with_numbers ed (set_builder cp1 b1 g)) cp b Hrs Hq); [|done|done|cbn in Hfuel; lia].
    f_equal. assert (forall eds g1 g2, g_status g1 = g_status g2 -> g_log_number g1 = g_log_number g2 -> g_prev_log_number g1 = g_prev_log_number g2 ->
      g_next_file g1 = g_next_file g2 -> g_last_sequence g1 = g_last_sequence g2 ->
      set_builder cp b (foldl (fun g ed => with_numbers ed g) g1 eds) = set_builder cp b (foldl (fun g ed => with_numbers ed g) g2 eds)) as Hsame.
    { clear. induction eds as [|ed eds IH]; intros g1 g2 H1 H2 H3 H4 H5; cbn [foldl]; [unfold set_builder; by rewrite H1, H2, H3, H4, H5|].
      apply IH; cbn; by rewrite ?H1, ?H2, ?H3, ?H4, ?H5. }
    by apply Hsame.
Qed.

(** The numbers that the last edit gives. *)
Record numbered ed (log prev next last : Z) : Prop := {
  nu_log : has_log_number_ ed = true /\ log_number_ ed = log;
  nu_prev : has_prev_log_number_ ed = true /\ prev_log_number_ ed = prev;
  nu_next : has_next_file_number_ ed = true /\ next_file_number_ ed = next;
  nu_last : has_last_sequence_ ed = true /\ last_sequence_ ed = last;
}.

Lemma numbers_last eds ed g log prev next last : numbered ed log prev next last ->
  foldl (fun g ed => with_numbers ed g) g (eds ++ [ed]) = mkGathered (g_status g) (g_compact_pointer g) (g_builder g) (Some log) (Some prev) (Some next) (Some last).
Proof.
  intros [[H1 <-] [H2 <-] [H3 <-] [H4 <-]]. rewrite foldl_app. cbn [foldl]. unfold with_numbers at 1. rewrite H1, H2, H3, H4.
  assert (forall eds g, g_status (foldl (fun g ed => with_numbers ed g) g eds) = g_status g /\ g_compact_pointer (foldl (fun g ed => with_numbers ed g) g eds) = g_compact_pointer g /\
    g_builder (foldl (fun g ed => with_numbers ed g) g eds) = g_builder g) as Hs.
  { clear. induction eds as [|ed eds IH]; intros g; [done|]. cbn [foldl]. by destruct (IH (with_numbers ed g)) as (-> & -> & ->). }
  by destruct (Hs eds g) as (-> & -> & ->).
Qed.

(** The numbers that edits give together. *)
Definition numbers eds (log prev next last : Z) : Prop := exists p, default 0 p = prev /\ forall s cp b,
  foldl (fun g ed => with_numbers ed g) (mkGathered s cp b None None None None) eds = mkGathered s cp b (Some log) p (Some next) (Some last).

Lemma numbered_numbers eds ed log prev next last : list.last eds = Some ed -> numbered ed log prev next last -> numbers eds log prev next last.
Proof. intros (eds0 & ->)%last_Some Hn. exists (Some prev). split; [done|]. intros s cp b. by rewrite (numbers_last eds0 ed _ log prev next last Hn). Qed.
End reading.

(** ** Recovery *)
Section recovery.
Context (le : bool) (ptr : list Z -> Z) (Hptr : addresses ptr) (dbname : list Z) (reuse_logs : bool).
Context {E : Type} `{!Env E} {K : Type}.
Implicit Types (vs : VSet E K) (ed : VersionEdit) (eds : list VersionEdit) (d : Descriptor) (e : E).
Notation Recover := (Recover (F := list Z) le ptr dbname reuse_logs id).

Lemma read_fragments_id fuel : forall (file data : list Z), (length file < fuel)%nat -> read_fragments fuel file data = Some (kOk, data ++ file).
Proof.
  induction fuel as [|fuel IH]; intros file data Hf; [lia|]. cbn [read_fragments]. destruct (Read 8192 file) as [[s r] file'] eqn:Er. cbn in Er. injection Er as <- <- <-.
  change (negb (Status_ok kOk)) with false. cbv iota. case_bool_decide as Hnil.
  - assert (file = []) as -> by (by destruct file). by rewrite !app_nil_r.
  - rewrite IH; [by rewrite <-app_assoc, take_drop|]. rewrite length_drop. destruct file; [done|]. cbn [length] in *. lia.
Qed.

Lemma ReadFileToString_spec fname e : exists s data e', ReadFileToString (F := list Z) id fname e = Some (s, data, e') /\ io_code s /\ disk e' = disk e /\
  (s = kOk -> disk e !! fname = Some data).
Proof.
  unfold ReadFileToString. destruct (env_NewSequentialFile fname e) as [[s file] e'] eqn:Eo. apply NewSequentialFile_spec in Eo as (Hc & Hd & Hf).
  destruct (Status_ok s) eqn:Es; cbn [negb].
  - apply Status_ok_eq in Es as ->. rewrite read_fragments_id by (unfold id; lia). cbn [mbind option_bind]. eexists _, _, _. split; [done|]. split; [by left|]. split; [done|].
    intros _. by rewrite Hf.
  - eexists _, _, _. split; [done|]. split; [done|]. split; [done|]. by intros ->.
Qed.

(** Whether the manifest is open for appending. *)
Definition manifest_open (reused : bool) (base : list Z) vs vs' : Prop :=
  if reused then exists n d, ParseFileName base = Some (n, kDescriptorFile) /\ vs_manifest_file_number vs' = n /\ vs_descriptor vs' = Some d /\
    descriptor_ok dbname d /\ d_name d = dbname ++ chars "/" ++ base
  else vs_manifest_file_number vs' = vs_manifest_file_number vs /\ vs_descriptor vs' = None.

Lemma ReuseManifest_spec base vs : vs_descriptor vs = None ->
  exists reused vs', ReuseManifest le ptr reuse_logs (dbname ++ chars "/" ++ base) base vs = Some (reused, vs') /\ vs_current vs' = vs_current vs /\
    vs_next_file_number vs' = vs_next_file_number vs /\ vs_last_sequence vs' = vs_last_sequence vs /\ vs_log_number vs' = vs_log_number vs /\
    vs_prev_log_number vs' = vs_prev_log_number vs /\ vs_compact_pointer vs' = vs_compact_pointer vs /\
    tc_cache (vs_tables vs') = tc_cache (vs_tables vs) /\ tc_blocks (vs_tables vs') = tc_blocks (vs_tables vs) /\
    touches (dbname ++ chars "/" ++ base) (vs_env vs) (vs_env vs') /\ manifest_open reused base vs vs'.
Proof using Hptr.
  intros Hd. unfold ReuseManifest. set (name := dbname ++ chars "/" ++ base). destruct reuse_logs; cbn [negb]; [|by eexists _, vs; split_and!].
  destruct (ParseFileName base) as [[n []]|] eqn:Ep; try by eexists _, vs; split_and!.
  destruct (env_GetFileSize name (vs_env vs)) as [[s size] e] eqn:Es. apply GetFileSize_spec in Es as (_ & D1 & Hsize).
  assert (touches name (vs_env vs) e) as T1 by (intros x _; by rewrite D1).
  destruct (negb (Status_ok s) || _) eqn:Eb; [by eexists _, (set_env e vs); split_and!|]. cbn [set_env set_tables vs_descriptor]. rewrite Hd.
  cbn [passert mbind option_bind bool_decide negb]. change (vs_env (set_env e vs)) with e. destruct (env_NewAppendableFile name e) as [r e2] eqn:Er. apply NewAppendableFile_spec in Er as (_ & T2 & _).
  assert (touches name (vs_env vs) e2) as T by (by eapply touches_trans). destruct (negb (Status_ok r)); [by eexists _, (set_env e2 (set_env e vs)); split_and!|].
  apply orb_false_elim in Eb as [Eb _]. apply negb_false_iff, Status_ok_eq in Eb. destruct (Hsize Eb) as (f & _ & ->).
  unfold new_Writer_at. rewrite InitTypeCrc_spec by done. cbn [mbind option_bind]. eexists true, _. split; [done|]. split_and!; try done. exists n. eexists.
  split; [done|]. split; [done|]. split; [done|]. split; [|done]. split; [exists n, base; by split|]. cbn. split; [|done]. unfold kBlockSize. pose proof (Z.mod_pos_bound (zlen f) 32768). lia.
Qed.

(** A version set as the constructor leaves it. *)
Record vs_new vs : Prop := {
  vn_files : files_ (vs_current vs) = no_files;
  vn_descriptor : vs_descriptor vs = None;
  vn_pointers : vs_compact_pointer vs = replicate (Z.to_nat kNumLevels) [];
}.

Lemma history_levels M eds cp b lv v : history le eds cp b lv -> levels_ok le M lv -> files_ v = no_files ->
  exists v', SaveTo le v b = Some v' /\ levels_ok le M (files_ v') /\ Forall2 (≡ₚ) (files_ v') ((fun fs : list FileMetaData => seeked <$> fs) <$> lv).
Proof.
  intros [H1 H2 H3 H4 H5 H6] Hok Hv. set (lv' := (fun fs : list FileMetaData => seeked <$> fs) <$> lv).
  assert (levels_ok le M lv') as Hok' by (apply levels_seeks; [by intros f|done]).
  assert (Forall2 (≡ₚ) lv' (kept_levels no_files b)) as HP.
  { apply Forall2_same_length_lookup. split; [unfold lv', kept_levels, no_files; rewrite length_fmap, length_zip_with, length_replicate, H4, (bo_length _ _ H2); lia|].
    intros i x y Hx Hy. unfold lv' in Hx. rewrite list_lookup_fmap in Hx. apply fmap_Some in Hx as (files & Hf & ->). unfold kept_levels in Hy.
    apply lookup_zip_with_Some in Hy as (fs & s & -> & [-> _]%lookup_replicate & Hs). cbn [app]. symmetry. eauto. }
  destruct (SaveTo_spec le M v b) as (v' & -> & HP' & Hok2); rewrite ?Hv.
  - unfold no_files. by rewrite length_replicate.
  - apply Forall_replicate. constructor.
  - apply Forall_replicate. constructor.
  - done.
  - eapply levels_sem_perm; [exact HP|apply Hok'].
  - exists v'. split; [done|]. split; [done|]. rewrite Hv in HP'. etrans; [exact HP'|]. by symmetry.
Qed.

(** What [Recover] leaves. *)
Record recovered_set vs M base lv (cp : list (list Z)) (log prev next last : Z) (save : bool) vs' : Prop := {
  rs_levels : levels_ok le M (files_ (vs_current vs'));
  rs_files : Forall2 (≡ₚ) (files_ (vs_current vs')) ((fun fs : list FileMetaData => seeked <$> fs) <$> lv);
  rs_numbers : vs_log_number vs' = log /\ vs_prev_log_number vs' = prev /\ vs_last_sequence vs' = last /\ vs_next_file_number vs' = wrap 64 (next + 1);
  rs_pointers : vs_compact_pointer vs' = cp;
  rs_tables : tc_cache (vs_tables vs') = tc_cache (vs_tables vs) /\ tc_blocks (vs_tables vs') = tc_blocks (vs_tables vs);
  rs_disk : touches (dbname ++ chars "/" ++ base) (vs_env vs) (vs_env vs');
  rs_manifest : if save then vs_manifest_file_number vs' = next /\ vs_descriptor vs' = None else
    exists n d, ParseFileName base = Some (n, kDescriptorFile) /\ vs_manifest_file_number vs' = n /\ vs_descriptor vs' = Some d /\
    descriptor_ok dbname d /\ d_name d = dbname ++ chars "/" ++ base;
}.

Lemma mark_used_same m vs : vs_current (MarkFileNumberUsed m vs) = vs_current vs /\ vs_descriptor (MarkFileNumberUsed m vs) = vs_descriptor vs /\
  vs_compact_pointer (MarkFileNumberUsed m vs) = vs_compact_pointer vs /\ vs_tables (MarkFileNumberUsed m vs) = vs_tables vs.
Proof. unfold MarkFileNumberUsed. by case_match. Qed.

(** The end of [Recover], once the edits are gathered. *)
Lemma recover_finish_spec M eds cp b lv log prev next last vs base cp0 b0 : vs_new vs -> history le eds cp b lv -> levels_ok le M lv ->
  numbers eds log prev next last ->
  exists save vs', recover_finish le ptr reuse_logs (dbname ++ chars "/" ++ base) base
      (set_builder cp b (foldl (fun g ed => with_numbers ed g) (mkGathered kOk cp0 b0 None None None None) eds)) vs = Some (kOk, save, vs') /\
    recovered_set vs M base lv cp log prev next last save vs'.
Proof using Hptr.
  intros [N1 N2 N3] Hh Hok (p & <- & ->). unfold recover_finish, set_builder.
  cbn [g_status g_compact_pointer g_builder g_log_number g_prev_log_number g_next_file g_last_sequence]. change (Status_ok kOk) with true. cbn [negb].
  change (Status_ok kOk) with true. cbn [negb]. cbn [default from_option id]. fold (default 0 p). set (prev := default 0 p).
  set (vs1 := MarkFileNumberUsed log (MarkFileNumberUsed prev (set_compact_pointer cp vs))).
  assert (vs_current vs1 = vs_current vs /\ vs_descriptor vs1 = None /\ vs_compact_pointer vs1 = cp /\ vs_tables vs1 = vs_tables vs) as (E1 & E2 & E3 & E4).
  { unfold vs1. destruct (mark_used_same log (MarkFileNumberUsed prev (set_compact_pointer cp vs))) as (-> & -> & -> & ->).
    by destruct (mark_used_same prev (set_compact_pointer cp vs)) as (-> & -> & -> & ->). }
  rewrite E1. destruct (history_levels M _ cp b lv (vs_current vs) Hh Hok N1) as (v' & -> & Hok' & HP). cbn [mbind option_bind].
  match goal with |- context [ReuseManifest le ptr reuse_logs _ base ?x] =>
    destruct (ReuseManifest_spec base x) as (reused & vs' & -> & C1 & C2 & C3 & C4 & C5 & C6 & C7 & C8 & C9 & C10); [done|] end.
  cbn [mbind option_bind]. eexists _, vs'. split; [done|]. cbn in C1, C2, C3, C4, C5, C6, C7, C8. split; rewrite ?C1, ?C2, ?C3, ?C4, ?C5, ?C6, ?C7, ?C8, ?E3, ?E4; try done.
  - intros x Hx. rewrite C9 by done. unfold vs_env. cbn. by rewrite E4.
  - unfold manifest_open in C10. by destruct reused.
Qed.

(** The octets of a manifest from which the edits are read. *)
Definition manifest_of eds (bytes : list Z) : Prop := exists rs,
  Forall2 (fun ed r => EncodeTo ed [] = Some r /\ edit_logged ed) eds rs /\ quiet_reads le ptr rs (new_Reader bytes true true 0) /\ (length rs <= length bytes)%nat.

Lemma apply_edits_pointers eds : forall cp b cp' b', apply_edits le eds cp b = Some (cp', b') -> Forall edit_good eds -> pointers_ok cp -> pointers_ok cp'.
Proof.
  induction eds as [|ed eds IH]; intros cp b cp' b'; cbn [apply_edits]; [by intros [= <- _]|]. destruct (Apply le ed cp b) as [[cp1 b1]|] eqn:EA; [|done]. cbn [mbind option_bind].
  intros E0 [Hg Hgs]%Forall_cons Hcp. eapply IH; [exact E0|done|]. by eapply Apply_pointers.
Qed.

Lemma manifest_pointers eds bytes cp b lv : manifest_of eds bytes -> history le eds cp b lv -> pointers_ok cp.
Proof.
  intros (rs & Hrs & _) Hh. eapply apply_edits_pointers; [apply Hh| |].
  - clear Hh. induction Hrs as [|ed r eds rs [_ [Hg _]] _ IH]; [constructor|]. by constructor.
  - split; [done|]. by apply Forall_replicate.
Qed.

(** From a manifest that lost its end some of the edits are read, all those
    that are complete. *)
Lemma grew_reads j old eds file d n : grew le ptr j old eds file d -> zlen file < 2 ^ 64 ->
  exists k, (k <= length eds)%nat /\ ((length file <= n)%nat -> k = length eds) /\ ((length old <= n)%nat -> (j <= k)%nat) /\ manifest_of (take k eds) (take n file).
Proof using Hptr.
  intros (evs & w0 & wj & Hevs & Hw0 & Hlog & Hjl & Hold & <-) Hz. destruct (new_Writer_spec le ptr Hptr) as (w0' & Hw0' & Hwinv0). rewrite Hw0 in Hw0'. injection Hw0' as <-.
  destruct (log_read_prefix le le ptr ptr Hptr Hptr evs w0 [] Hwinv0 (logged_octets _ _ Hevs)) as (w' & bytes & Hlog' & Hwinv & Hread).
  rewrite Hlog in Hlog'. injection Hlog' as <-. pose proof (proj1 Hwinv) as Hb. cbn in Hb. subst bytes.
  destruct (Hread (new_Reader (take n file) true true 0) n) as (k & Hk & Hk' & Hq & Hj). { apply new_Reader_rinv. rewrite length_take. lia. }
  pose proof (Forall2_length _ _ _ Hevs) as Hlen. rewrite length_fmap in Hlen. exists k. split; [lia|]. split.
  { intros Hn. destruct (Hj (length evs) ltac:(lia)) as (wj1 & Hwj & Hiff). rewrite take_ge, Hlog in Hwj by lia. injection Hwj as <-. cbn in Hiff. lia. }
  split. { intros Hn. destruct (Hj j ltac:(lia)) as (wj2 & Hwj & Hiff). rewrite Hold in Hwj. injection Hwj as <-. cbn in Hiff. lia. }
  exists (take k evs.*2). split; [by apply Forall2_take|]. split; [done|]. rewrite length_take, length_fmap. lia.
Qed.

Lemma Recover_spec vs eds base bytes M cp b lv log prev next last : vs_new vs -> manifest_of eds bytes ->
  disk (vs_env vs) !! CurrentFileName dbname = Some (base ++ [10]) -> disk (vs_env vs) !! (dbname ++ chars "/" ++ base) = Some bytes ->
  history le eds cp b lv -> levels_ok le M lv -> numbers eds log prev next last ->
  exists c save vs', Recover vs = Some (c, save, vs') /\ io_code c /\ (c = kOk -> recovered_set vs M base lv cp log prev next last save vs').
Proof using Hptr.
  intros Hnew (rs & Hrs & Hq & Hlen) Hcur Hfile Hh Hok Hnum. unfold Recover.
  destruct (ReadFileToString_spec (CurrentFileName dbname) (vs_env vs)) as (s & current & e & -> & Hs & Hd & Hcontents). cbn [mbind option_bind].
  destruct (Status_ok s) eqn:Es; cbn [negb]; [|eexists _, _, _; split; [done|]; split; [done|]; by intros ->]. apply Status_ok_eq in Es as ->.
  specialize (Hcontents eq_refl). rewrite Hcur in Hcontents. injection Hcontents as <-. rewrite last_snoc, bool_decide_eq_true_2 by done. cbn [negb].
  replace (take (length (base ++ [10]) - 1) (base ++ [10])) with base by (rewrite length_app; cbn [length]; rewrite Nat.add_sub, take_app_length; done).
  change (vs_env (set_env e vs)) with e. destruct (env_NewSequentialFile (dbname ++ chars "/" ++ base) e) as [[s2 file2] e2] eqn:Eo. apply NewSequentialFile_spec in Eo as (Hc2 & Hd2 & Hf2).
  destruct (Status_ok s2) eqn:Es2; cbn [negb]; [|eexists _, _, _; split; [done|]; split; [done|]; by intros ->]. apply Status_ok_eq in Es2 as ->.
  specialize (Hf2 eq_refl). rewrite Hd, Hfile in Hf2. injection Hf2 as <-.
  pose proof Hnew as [N1 N2 N3]. change (vs_compact_pointer (set_env e2 (set_env e vs))) with (vs_compact_pointer vs). rewrite N3.
  rewrite (gather_quiet le ptr eds rs _ _ _ cp b Hrs Hq); [|done|apply Hh|lia]. cbn [mbind option_bind].
  destruct (recover_finish_spec M eds cp b lv log prev next last (set_env e2 (set_env e vs)) base
    (replicate (Z.to_nat kNumLevels) []) new_Builder) as (save & vs' & -> & [R1 R2 R3 R4 R5 R6 R7]); [by split|done..|].
  eexists _, _, _. split; [done|]. split; [by left|]. intros _. split; try done. intros x Hx. rewrite R6 by done. change (disk e2 !! x = disk (vs_env vs) !! x). by rewrite Hd2, Hd.
Qed.
End recovery.

(** ** Snapshots of a version *)
Section snapshots.
Context (le : bool).
Implicit Types (ed : VersionEdit) (files : list FileMetaData) (lv : list (list FileMetaData)).

Lemma snapshot_level_new level files : forall ed, new_files_ (snapshot_level level files ed) = new_files_ ed ++ ((fun f => (level, fresh_file f)) <$> files).
Proof.
  unfold snapshot_level. induction files as [|f files IH]; intros ed; cbn [foldl fmap list_fmap]; [by rewrite app_nil_r|].
  rewrite IH. cbn [AddFile push_file new_files_]. by rewrite <-app_assoc.
Qed.

Lemma new_at_app i l l' : new_at i (l ++ l') = new_at i l ++ new_at i l'.
Proof. unfold new_at. by rewrite filter_app, fmap_app. Qed.

Lemma new_at_level i level files : new_at i ((fun f => (level, fresh_file f)) <$> files) = if decide (level = Z.of_nat i) then seeked <$> files else [].
Proof.
  unfold new_at. rewrite filter_fmap. cbn [fst]. case_decide as Hl.
  - rewrite filter_all by done. rewrite <-list_fmap_compose. by apply list_fmap_ext.
  - induction files as [|f files IH]; [done|]. rewrite filter_cons, decide_False by done. exact IH.
Qed.

Lemma snapshot_files_new i lv : forall (level : nat) ed, new_at i (new_files_ (snapshot_files (Z.of_nat level) lv ed)) =
  new_at i (new_files_ ed) ++ (if decide (level <= i)%nat then seeked <$> default [] (lv !! (i - level)%nat) else []).
Proof.
  induction lv as [|files lv IH]; intros level ed; cbn [snapshot_files].
  { case_decide; by rewrite ?lookup_nil, app_nil_r. }
  replace (Z.of_nat level + 1) with (Z.of_nat (S level)) by lia. rewrite IH, snapshot_level_new, new_at_app, new_at_level, <-app_assoc. f_equal.
  destruct (decide (Z.of_nat level = Z.of_nat i)) as [Hl|Hl].
  - assert (level = i) as -> by lia. rewrite decide_False, decide_True by lia. rewrite Nat.sub_diag. cbn. by rewrite app_nil_r.
  - cbn [app]. destruct (decide (S level <= i)%nat); [rewrite decide_True by lia|by rewrite decide_False by lia].
    by replace (i - level)%nat with (S (i - S level)) by lia.
Qed.

Definition scalars ed := (comparator_ ed, log_number_ ed, prev_log_number_ ed, next_file_number_ ed, last_sequence_ ed,
  (has_comparator_ ed, has_log_number_ ed, has_prev_log_number_ ed, has_next_file_number_ ed, has_last_sequence_ ed, deleted_files_ ed)).

Lemma snapshot_level_scalars level files : forall ed, scalars (snapshot_level level files ed) = scalars ed /\ compact_pointers_ (snapshot_level level files ed) = compact_pointers_ ed.
Proof. unfold snapshot_level. induction files as [|f files IH]; intros ed; [done|]. cbn [foldl]. by destruct (IH (AddFile level (number f) (VersionEdit.file_size f) (smallest f) (largest f) ed)) as [-> ->]. Qed.

Lemma snapshot_files_scalars lv : forall level ed, scalars (snapshot_files level lv ed) = scalars ed /\ compact_pointers_ (snapshot_files level lv ed) = compact_pointers_ ed.
Proof.
  induction lv as [|files lv IH]; intros level ed; [done|]. cbn [snapshot_files]. destruct (IH (level + 1) (snapshot_level level files ed)) as [-> ->]. apply snapshot_level_scalars.
Qed.

Lemma snapshot_pointers_scalars cps : forall level ed, scalars (snapshot_pointers level cps ed) = scalars ed /\ new_files_ (snapshot_pointers level cps ed) = new_files_ ed.
Proof.
  induction cps as [|cp cps IH]; intros level ed; [done|]. cbn [snapshot_pointers]. destruct (IH (level + 1) (if bool_decide (cp = []) then ed else SetCompactPointer level cp ed)) as [-> ->].
  by case_bool_decide.
Qed.

Context {E : Type} `{!Env E} {K : Type}.
Implicit Types (vs : VSet E K).

Lemma snapshot_logged vs : edit_good (snapshot_edit vs) -> edit_logged (snapshot_edit vs).
Proof.
  intros Hg. pose proof (edit_good_items _ Hg) as [Hi _]%Forall_and. split; [done|].
  assert (scalars (snapshot_edit vs) = scalars (SetComparatorName Bytewise_Name new_VersionEdit)) as Hs.
  { unfold snapshot_edit. rewrite (proj1 (snapshot_files_scalars _ _ _)). apply snapshot_pointers_scalars. }
  unfold scalars in Hs. cbn in Hs. injection Hs as E1 E2 E3 E4 E5 E6 E7 E8 E9 E10 E11. split; [|done]. split; rewrite ?E6, ?E7, ?E8, ?E9, ?E10, ?E11; done || constructor.
Qed.

Lemma snapshot_history M vs : levels_ok le M (files_ (vs_current vs)) -> edit_good (snapshot_edit vs) ->
  exists cp b, history le [snapshot_edit vs] cp b (files_ (vs_current vs)) /\
    forall i s f, b !! i = Some s -> f ∈ added_files s -> exists files f', files_ (vs_current vs) !! i = Some files /\ f' ∈ files /\ number f' = number f.
Proof.
  intros Hok Hg. set (lv := files_ (vs_current vs)) in *. set (ed := snapshot_edit vs) in *.
  assert (forall i, new_at i (new_files_ ed) = seeked <$> default [] (lv !! i)) as Hnew.
  { intros i. unfold ed, snapshot_edit. change 0 with (Z.of_nat 0) at 1. rewrite snapshot_files_new, decide_True, Nat.sub_0_r by lia.
    by rewrite (proj2 (snapshot_pointers_scalars _ _ _)). }
  assert (deleted_files_ ed = []) as Hdel.
  { assert (scalars ed = scalars (SetComparatorName Bytewise_Name new_VersionEdit)) as Hs.
    { unfold ed, snapshot_edit. rewrite (proj1 (snapshot_files_scalars _ _ _)). apply snapshot_pointers_scalars. }
    unfold scalars in Hs. by injection Hs. }
  destruct (history_snoc le [] _ _ no_files ed (history_nil le)) as (cp & b & Hh & Hadded).
  { split; [by eapply Forall_impl; [apply Hg|]; intros p (? & ? & _)|by rewrite Hdel| |].
    - pose proof (eg_new _ Hg) as Hn. rewrite Forall_forall in Hn. apply Forall_forall. intros [level f] Hp. destruct (Hn _ Hp) as [Hl _]. cbn [fst snd] in *. split; [done|].
      assert (seeked f ∈ new_at (Z.to_nat level) (new_files_ ed)) as Hin.
      { unfold new_at. apply list_elem_of_fmap. exists (level, f). split; [done|]. apply list_elem_of_filter. split; [cbn; unfold level_ok in Hl; lia|done]. }
      rewrite Hnew in Hin. apply list_elem_of_fmap in Hin as (f0 & Ef & Hf0). destruct (lv !! Z.to_nat level) as [files|] eqn:Hfs; [|by apply elem_of_nil in Hf0].
      pose proof (levels_keyed le M lv (lv_sem _ _ _ Hok)) as Hk. rewrite Forall_lookup in Hk. specialize (Hk _ _ Hfs). rewrite Forall_forall in Hk. specialize (Hk f0 Hf0).
      unfold keyed in *. injection Ef as _ _ _ -> ->. done.
    - intros i s0 [-> _]%lookup_replicate. cbn. rewrite app_nil_r, Hnew, <-list_fmap_compose. destruct (lv !! i) as [files|] eqn:Hfs; [|constructor].
      cbn. by destruct (level_files le M lv i files Hok Hfs) as (_ & _ & ?). }
  exists cp, b. split.
  2:{ intros i s0 f Hs0 Hf. destruct (Hadded i s0 Hs0) as (s & [-> _]%lookup_replicate & HP). rewrite HP, Hnew, elem_of_app in Hf. cbn in Hf.
      destruct Hf as [Hf|Hf]; [|by apply elem_of_nil in Hf]. destruct (lv !! i) as [files|] eqn:Hfs; [|by apply elem_of_nil in Hf].
      apply list_elem_of_fmap in Hf as (f' & -> & Hf'). eauto. }
  eapply history_same; [exact Hh|apply Hok|]. intros i files Hfs. unfold edited. rewrite list_lookup_imap.
  assert (no_files !! i = Some []) as -> by (unfold no_files; apply lookup_replicate; split; [done|]; apply lookup_lt_Some in Hfs; by rewrite (lv_length _ _ _ (lv_sem _ _ _ Hok)) in Hfs).
  eexists. split; [done|]. rewrite filter_nil, Hnew, Hfs. cbn. rewrite <-list_fmap_compose. apply Permutation_refl'. by apply list_fmap_ext.
Qed.
End snapshots.

(** ** What a successful [LogAndApply] did *)
Section durable.
Context (le : bool) (ptr : list Z -> Z) (Hptr : addresses ptr) (dbname : list Z).
Context {E : Type} `{!Env E} {K : Type}.
Implicit Types (vs : VSet E K) (ed edit : VersionEdit) (eds : list VersionEdit) (d : Descriptor) (e : E).

(** A record added, and a record added and perhaps synced. *)
Definition record_added (d : Descriptor) ed e d' e' : Prop := exists r, EncodeTo ed [] = Some r /\ add_record le ptr d r e = Some (kOk, d', e').
Definition record_written (d : Descriptor) ed e d' e' : Prop := exists r e1, EncodeTo ed [] = Some r /\ add_record le ptr d r e = Some (kOk, d', e1) /\
  (e' = e1 \/ env_Sync (d_name d') e1 = (kOk, e')).

Lemma write_edit_inv edit vs d vs' : vs_descriptor vs = Some d -> write_edit le ptr edit vs = Some (kOk, vs') ->
  exists d' e', record_written d edit (vs_env vs) d' e' /\ vs' = set_descriptor (Some d') (set_env e' vs).
Proof.
  intros Hd. unfold write_edit. destruct (EncodeTo edit []) as [r|] eqn:Er; [|done]. rewrite Hd. cbn [mbind option_bind].
  destruct (add_record le ptr d r (vs_env vs)) as [[[s d'] e1]|] eqn:Ea; [|done]. cbn [mbind option_bind]. destruct (Status_ok s) eqn:Es.
  - apply Status_ok_eq in Es as ->. destruct (env_Sync (d_name d') e1) as [s2 e2] eqn:Ey. intros [= -> <-]. exists d', e2. split; [|done]. exists r, e1. auto.
  - intros [= -> <-]. done.
Qed.

Lemma LogAndApply_inv edit vs vs' : LogAndApply le ptr dbname edit vs = Some (kOk, vs') ->
  exists ed cp b v d' e', complete_edit edit vs = Some ed /\ Apply le ed (vs_compact_pointer vs) new_Builder = Some (cp, b) /\ SaveTo le (vs_current vs) b = Some v /\
    vs' = install v (log_number_ ed) (prev_log_number_ ed) (set_descriptor (Some d') (set_env e' (set_compact_pointer cp vs))) /\
    match vs_descriptor vs with
    | Some d => record_written d ed (vs_env vs) d' e'
    | None => exists fname e1 d0 d1 e2 e3, DescriptorFileName dbname (vs_manifest_file_number vs) = Some fname /\ env_NewWritableFile fname (vs_env vs) = (kOk, e1) /\
        new_Descriptor le ptr fname e1 = Some d0 /\ record_added d0 (snapshot_edit (set_compact_pointer cp vs)) e1 d1 e2 /\
        record_written d1 (SetNextFile (vs_next_file_number vs) ed) e2 d' e3 /\ SetCurrentFile dbname (vs_manifest_file_number vs) e3 = Some (kOk, e')
    end.
Proof.
  unfold LogAndApply. destruct (complete_edit edit vs) as [ed|] eqn:Ec; [|done]. cbn [mbind option_bind].
  destruct (Apply le ed (vs_compact_pointer vs) new_Builder) as [[cp b]|] eqn:EA; [|done]. cbn [mbind option_bind].
  destruct (SaveTo le (vs_current vs) b) as [v|] eqn:EV; [|done]. cbn [mbind option_bind]. unfold open_descriptor. cbn [vs_descriptor set_compact_pointer].
  destruct (vs_descriptor vs) as [d|] eqn:Ed.
  - cbn [mbind option_bind]. change (Status_ok kOk) with true. cbv iota. destruct (write_edit le ptr ed (set_compact_pointer cp vs)) as [[s vs1]|] eqn:Ew; [|done]. cbn [mbind option_bind].
    destruct (Status_ok s) eqn:Es; [|by intros [= -> _]]. apply Status_ok_eq in Es as ->. intros [= <-].
    destruct (write_edit_inv ed (set_compact_pointer cp vs) d vs1 Ed Ew) as (d' & e' & Hr & ->). exists ed, cp, b, v, d', e'. done.
  - cbn [vs_manifest_file_number set_compact_pointer]. destruct (DescriptorFileName dbname (vs_manifest_file_number vs)) as [fname|] eqn:Ef; [|done]. cbn [mbind option_bind].
    change (vs_env (set_compact_pointer cp vs)) with (vs_env vs). destruct (env_NewWritableFile fname (vs_env vs)) as [s1 e1] eqn:E1. destruct (Status_ok s1) eqn:Es1.
    2:{ do 4 (cbn [mbind option_bind]; rewrite ?Es1). by intros [= -> _]. }
    apply Status_ok_eq in Es1 as ->. destruct (new_Descriptor le ptr fname e1) as [d0|] eqn:E0; [|done]. cbn [mbind option_bind]. unfold WriteSnapshot.
    change (snapshot_edit (set_env e1 (set_compact_pointer cp vs))) with (snapshot_edit (set_compact_pointer cp vs)).
    destruct (EncodeTo (snapshot_edit (set_compact_pointer cp vs)) []) as [r0|] eqn:Er0; [|done]. cbn [mbind option_bind]. change (vs_env (set_env e1 (set_compact_pointer cp vs))) with e1.
    destruct (add_record le ptr d0 r0 e1) as [[[s2 d1] e2]|] eqn:Ea; [|done]. cbn [mbind option_bind]. destruct (Status_ok s2) eqn:Es2.
    2:{ do 4 (cbn [mbind option_bind]; rewrite ?Es2). by intros [= -> _]. }
    apply Status_ok_eq in Es2 as ->. cbn [vs_next_file_number set_compact_pointer]. set (ed' := SetNextFile _ ed).
    destruct (write_edit le ptr ed' _) as [[s3 vs3]|] eqn:Ew; [|done]. cbn [mbind option_bind]. destruct (Status_ok s3) eqn:Es3.
    2:{ do 4 (cbn [mbind option_bind]; rewrite ?Es3). by intros [= -> _]. }
    apply Status_ok_eq in Es3 as ->. destruct (write_edit_inv ed' (set_descriptor (Some d1) (set_env e2 (set_env e1 (set_compact_pointer cp vs)))) d1 vs3 eq_refl Ew) as (d' & e3 & Hr & ->).
    cbn [vs_manifest_file_number set_descriptor set_env set_tables set_compact_pointer]. match goal with |- context [SetCurrentFile dbname _ ?x] => change x with e3 end.
    destruct (SetCurrentFile dbname (vs_manifest_file_number vs) e3) as [[s4 e4]|] eqn:E4; [|done]. cbn [mbind option_bind]. destruct (Status_ok s4) eqn:Es4; [|by intros [= -> _]].
    apply Status_ok_eq in Es4 as ->. intros [= <-]. exists ed, cp, b, v, d', e4. split_and!; try done. exists fname, e1, d0, d1, e2, e3. split_and!; try done. by exists r0.
Qed.

Lemma record_written_spec eds file d ed e d' e' : descriptor_pads d e -> wrote le ptr eds file d -> descriptor_ok dbname d -> edit_logged ed ->
  default [] (disk e !! d_name d) = file -> record_written d ed e d' e' ->
  grew le ptr (length eds) file (eds ++ [ed]) (default [] (disk e' !! d_name d)) d' /\ descriptor_ok dbname d' /\ d_name d' = d_name d /\ touches (d_name d) e e'.
Proof using Hptr.
  intros Hp Hw Hd Hed Hf (r & e1 & Er & Ea & Hs).
  assert (Forall is_byte r) as Hr by (destruct Hed as [Hg _]; destruct (encode_good ed Hg) as (r' & Er' & Hr); rewrite Er in Er'; by injection Er' as <-).
  destruct (add_record_spec le ptr Hptr dbname d r e Hd Hr) as (s & d1 & e1' & Ea' & Hd' & Hn & Ht). rewrite Ea in Ea'. injection Ea' as <- <- <-.
  pose proof (wrote_add le ptr Hptr dbname eds file d ed r e d' e1 Hp Hw Hd Hed Er Hf Ea) as Hw'.
  destruct Hs as [-> |Hs]; [done|]. apply Sync_spec in Hs as (_ & T2 & D2). rewrite Hn in *. split_and!; [by rewrite D2|done|done|by eapply touches_trans].
Qed.

(** The file of a descriptor. *)
Definition manifest vs d : list Z := default [] (disk (vs_env vs) !! d_name d).

(** The manifest of [vs] is the log of [eds], which lead to its version. *)
Definition manifest_next eds : Z := default 0 (next_file_number_ <$> last eds).
Record synced vs eds : Prop := {
  sy_file : exists d base, vs_descriptor vs = Some d /\ d_name d = dbname ++ chars "/" ++ base /\
    disk (vs_env vs) !! CurrentFileName dbname = Some (base ++ [10]) /\ wrote le ptr eds (manifest vs d) d;
  sy_history : exists cp b, history le eds cp b (files_ (vs_current vs)) /\ forall i s f, b !! i = Some s -> f ∈ added_files s -> number f < manifest_next eds;
  sy_last : exists ed seq, last eds = Some ed /\ numbered ed (vs_log_number vs) (vs_prev_log_number vs) (manifest_next eds) seq;
}.

(** What is known of an edit and the state it is applied to. *)
Record change vs edit M M' : Prop := {
  ch_good : vs_good dbname vs;
  ch_levels : levels_ok le M (files_ (vs_current vs));
  ch_fits : edit_fits edit (files_ (vs_current vs));
  ch_edit : edit_good edit /\ edit_ok edit /\ has_comparator_ edit = false;
  ch_sem : levels_sem le M' (edited edit (files_ (vs_current vs)));
  ch_log : has_log_number_ edit = true -> vs_log_number vs <= log_number_ edit < vs_next_file_number vs;
  ch_files : Forall (fun f => number f < vs_next_file_number vs) (concat (files_ (vs_current vs)));
  ch_new : Forall (fun p => number p.2 < vs_next_file_number vs) (new_files_ edit);
}.

Lemma complete_logged edit vs ed M M' : change vs edit M M' -> complete_edit edit vs = Some ed ->
  edit_logged ed /\ numbered ed (log_number_ ed) (prev_log_number_ ed) (vs_next_file_number vs) (vs_last_sequence vs) /\
  compact_pointers_ ed = compact_pointers_ edit /\ deleted_files_ ed = deleted_files_ edit /\ new_files_ ed = new_files_ edit /\
  SetNextFile (vs_next_file_number vs) ed = ed.
Proof.
  intros [C1 C2 C3 (C4 & C5 & C6) C7 C8 C9 C10] Ec. destruct (complete_edit_spec edit vs C8) as (ed' & Ec' & E1 & E2 & E3 & E4 & E5 & E6 & Hg). rewrite Ec in Ec'. injection Ec' as <-.
  destruct C1 as [G1 G2 G3 G4 (G5 & G6 & G7 & G8)]. specialize (Hg C4 G5 G6 G7 G8).
  assert (has_log_number_ ed = true /\ has_prev_log_number_ ed = true /\ has_next_file_number_ ed = true /\ has_last_sequence_ ed = true /\ last_sequence_ ed = vs_last_sequence vs /\
    has_comparator_ ed = has_comparator_ edit /\ comparator_ ed = comparator_ edit) as (F1 & F2 & F3 & F4 & F5 & F6 & F7).
  { unfold complete_edit in Ec. destruct (has_log_number_ edit) eqn:El; [destruct (_ <=? _); [|done]; destruct (_ <? _); [|done]|]; cbn [passert mbind option_bind] in Ec;
      injection Ec as <-; cbn; destruct (has_prev_log_number_ edit) eqn:Ep; cbn; by rewrite ?El, ?Ep. }
  split_and!; try done.
  - split; [done|]. split; [|by rewrite F6, C6]. destruct C5 as [K1 K2 K3 K4 K5 K6 K7]. pose proof (edit_good_items _ Hg) as [Hi _]%Forall_and.
    split; rewrite ?F1, ?F2, ?F3, ?F4, ?F6, ?F7, ?E2; done.
  - destruct ed; cbn in *. unfold SetNextFile. cbn. by rewrite E4, F3.
Qed.

(** New files whose numbers are above all those of the builder. *)
Lemma edit_applies_above edit b bound base : edit_fits edit base -> (forall i s, b !! i = Some s -> NoDup (number <$> added_files s)) ->
  (forall i s f, b !! i = Some s -> f ∈ added_files s -> number f < bound) -> Forall (fun p => bound <= number p.2) (new_files_ edit) -> edit_applies edit b.
Proof.
  intros [F1 F2 F3 F4 F5] Hn Hb Hnew. split; try done. intros i s Hs. apply NoDup_app. split; [done|]. split; [|by eapply Hn].
  intros x (f & -> & (p & -> & [_ Hp]%list_elem_of_filter)%list_elem_of_fmap)%list_elem_of_fmap (g & Eg & Hg)%list_elem_of_fmap.
  rewrite Forall_forall in Hnew. specialize (Hnew p Hp). specialize (Hb i s g Hs Hg). change (number (seeked p.2)) with (number p.2) in Eg. lia.
Qed.

(** New files whose numbers are not in their levels. *)
Lemma edit_applies_fresh edit b base : edit_fits edit base -> (forall i s, b !! i = Some s -> NoDup (number <$> added_files s)) ->
  (forall i s f, b !! i = Some s -> f ∈ added_files s -> exists files f', base !! i = Some files /\ f' ∈ files /\ number f' = number f) -> edit_applies edit b.
Proof.
  intros [F1 F2 F3 F4 F5] Hn Hb. split; try done. intros i s Hs. apply NoDup_app. split; [done|]. split; [|by eapply Hn].
  intros x Hx (g & -> & Hg)%list_elem_of_fmap. destruct (Hb i s g Hs Hg) as (files & f' & Hf & Hin & En). rewrite <-En in Hx. by eapply F5.
Qed.

Lemma history_perm eds cp b lv lv' : history le eds cp b lv -> Forall2 (≡ₚ) lv' lv -> history le eds cp b lv'.
Proof.
  intros Hh HP. eapply history_same; [exact Hh|by rewrite (Forall2_length _ _ _ HP); apply Hh|]. intros i files' Hf'.
  destruct (Forall2_lookup_l _ _ _ _ _ HP Hf') as (files & Hf & Hp). exists files. split; [done|]. by rewrite Hp.
Qed.

(** The edit leads on from the files of [vs]. *)
Lemma history_change M M' vs edit ed eds cp b files' : change vs edit M M' -> new_files_ ed = new_files_ edit -> deleted_files_ ed = deleted_files_ edit ->
  compact_pointers_ ed = compact_pointers_ edit -> history le eds cp b (files_ (vs_current vs)) -> edit_applies edit b ->
  (forall i s f, b !! i = Some s -> f ∈ added_files s -> number f < vs_next_file_number vs) -> Forall2 (≡ₚ) files' (edited edit (files_ (vs_current vs))) ->
  exists cp' b', history le (eds ++ [ed]) cp' b' files' /\ forall i s f, b' !! i = Some s -> f ∈ added_files s -> number f < vs_next_file_number vs.
Proof.
  intros Hc En Ed Ep Hh [A1 A2 A3 A4] Hb HP. destruct (history_snoc le eds cp b _ ed Hh) as (cp' & b' & Hh' & Hadded).
  { split; rewrite ?En, ?Ed, ?Ep; done. }
  exists cp', b'. split.
  - eapply history_perm; [exact Hh'|]. unfold edited. by rewrite En, Ed.
  - intros i s' f Hs' Hf. destruct (Hadded i s' Hs') as (s & Hs & Ea). rewrite Ea, En, elem_of_app in Hf. destruct Hf as [Hf|Hf]; [|by eapply Hb].
    apply list_elem_of_fmap in Hf as (p & -> & [_ Hp]%list_elem_of_filter). pose proof (ch_new _ _ _ _ Hc) as Hn. rewrite Forall_forall in Hn. by apply Hn.
Qed.

(** What the files hold after the records of [LogAndApply]: a log that existed
    has one more record, a new one has a snapshot and the edit. *)
Lemma opened_written vs ed cp d' fname e1 d0 d1 e2 e3 : descriptor_pads d1 e2 -> 0 < vs_manifest_file_number vs < 2 ^ 64 -> edit_logged (snapshot_edit (set_compact_pointer cp vs)) ->
  edit_logged ed -> DescriptorFileName dbname (vs_manifest_file_number vs) = Some fname -> env_NewWritableFile fname (vs_env vs) = (kOk, e1) ->
  new_Descriptor le ptr fname e1 = Some d0 -> record_added d0 (snapshot_edit (set_compact_pointer cp vs)) e1 d1 e2 -> record_written d1 ed e2 d' e3 ->
  d_name d' = fname /\ wrote le ptr [snapshot_edit (set_compact_pointer cp vs); ed] (default [] (disk e3 !! fname)) d'.
Proof using Hptr.
  intros Hp Hm Hsn Hed Ef E1 E0 (r0 & Er0 & Ea0) R2.
  assert (record_written d0 (snapshot_edit (set_compact_pointer cp vs)) e1 d1 e2) as R1 by (exists r0, e2; auto). apply NewWritableFile_spec in E1 as (_ & T1 & D1). unfold DescriptorFileName in Ef.
  rewrite (proj2 (Z.ltb_lt 0 _)) in Ef by lia. cbn [passert mbind option_bind] in Ef. injection Ef as <-.
  destruct (file_named dbname (vs_manifest_file_number vs)) as (_ & _ & _ & _ & Hn); [unfold fits_unsigned; lia|]. set (fname := dbname ++ _) in *.
  destruct (new_Descriptor_spec le ptr Hptr dbname fname e1 _ Hn) as (d0' & E0' & Hd0 & Hn0). rewrite E0 in E0'. injection E0' as <-.
  destruct (record_written_spec [] [] d0 _ e1 d1 e2 (new_Descriptor_pads le ptr Hptr fname e1 d0 E0) (wrote_nil le ptr Hptr fname e1 d0 E0) Hd0 Hsn) as (W1%grew_wrote & Hd1 & Hn1 & _); [by rewrite Hn0, D1|done|].
  rewrite Hn0 in *. destruct (record_written_spec _ _ d1 ed e2 d' e3 Hp W1 Hd1 Hed) as (W2%grew_wrote & _ & Hn2 & _); [by rewrite Hn1|done|].
  rewrite Hn1 in *. done.
Qed.

(** A manifest to come: [vs] writes a new one, or its own is the log of [eds]
    and the new files are newer than what is in it. *)
Definition continues vs eds edit : Prop :=
  vs_descriptor vs = None \/
  synced vs eds /\ manifest_next eds <= vs_next_file_number vs /\ Forall (fun p => manifest_next eds <= number p.2) (new_files_ edit).

Lemma edited_history M M' vs edit ed eds vs' : change vs edit M M' -> continues vs eds edit -> complete_edit edit vs = Some ed ->
  vs_descriptor vs <> None -> Forall2 (≡ₚ) (files_ (vs_current vs')) (edited edit (files_ (vs_current vs))) ->
  exists cp b, history le (eds ++ [ed]) cp b (files_ (vs_current vs')) /\ forall i s f, b !! i = Some s -> f ∈ added_files s -> number f < vs_next_file_number vs.
Proof.
  intros Hc [?|([_ (cp & b & Hh & Hb) _] & Hn & Hnew)] Ec Hd HP; [done|]. destruct (complete_logged edit vs ed M M' Hc Ec) as (_ & _ & E1 & E2 & E3 & _).
  eapply (history_change M M' vs edit ed eds cp b); try done.
  - eapply (edit_applies_above edit b (manifest_next eds)); [apply Hc|apply Hh|done|done].
  - intros i s f Hs Hf. specialize (Hb i s f Hs Hf). lia.
Qed.

Lemma snapshot_edited_history M M' vs edit ed cp1 vs' : change vs edit M M' -> complete_edit edit vs = Some ed -> pointers_ok cp1 ->
  Forall2 (≡ₚ) (files_ (vs_current vs')) (edited edit (files_ (vs_current vs))) -> edit_logged (snapshot_edit (set_compact_pointer cp1 vs)) /\
  exists cp b, history le [snapshot_edit (set_compact_pointer cp1 vs); ed] cp b (files_ (vs_current vs')) /\
    forall i s f, b !! i = Some s -> f ∈ added_files s -> number f < vs_next_file_number vs.
Proof.
  intros Hc Ec Hcp HP. destruct (complete_logged edit vs ed M M' Hc Ec) as (_ & _ & E1 & E2 & E3 & _).
  assert (edit_good (snapshot_edit (set_compact_pointer cp1 vs))) as Hs by (apply snapshot_good; [done|apply Hc|apply Hc]).
  split; [by apply snapshot_logged|]. destruct (snapshot_history le M (set_compact_pointer cp1 vs)) as (cp & b & Hh & Hb); [apply Hc|done|].
  apply (history_change M M' vs edit ed [_] cp b); try done.
  - eapply edit_applies_fresh; [apply Hc|apply Hh|exact Hb].
  - intros i s f Hi Hf. destruct (Hb i s f Hi Hf) as (files & f' & Hfs & Hin & <-). pose proof (ch_files _ _ _ _ Hc) as Hall. rewrite Forall_forall in Hall.
    apply Hall, elem_of_concat. eauto using list_elem_of_lookup_2.
Qed.

(** The descriptor that [LogAndApply] adds the record of the edit to: if the
    record has to start in a new block, filling up the old one succeeds. *)
Definition trailer_written vs edit : Prop := forall ed cp b s name ed' vs1 d,
  complete_edit edit vs = Some ed -> Apply le ed (vs_compact_pointer vs) new_Builder = Some (cp, b) ->
  open_descriptor le ptr dbname ed (set_compact_pointer cp vs) = Some (s, name, ed', vs1) -> vs_descriptor vs1 = Some d -> descriptor_pads d (vs_env vs1).

Lemma trailer_pads vs edit ed cp b : trailer_written vs edit -> complete_edit edit vs = Some ed -> Apply le ed (vs_compact_pointer vs) new_Builder = Some (cp, b) ->
  match vs_descriptor vs with
  | Some d => descriptor_pads d (vs_env vs)
  | None => forall fname e1 d0 d1 e2, DescriptorFileName dbname (vs_manifest_file_number vs) = Some fname -> env_NewWritableFile fname (vs_env vs) = (kOk, e1) ->
      new_Descriptor le ptr fname e1 = Some d0 -> record_added d0 (snapshot_edit (set_compact_pointer cp vs)) e1 d1 e2 -> descriptor_pads d1 e2
  end.
Proof.
  intros Ht Ec EA. specialize (fun s name ed' vs1 d => Ht ed cp b s name ed' vs1 d Ec EA). unfold open_descriptor in Ht. cbn [vs_descriptor set_compact_pointer] in Ht.
  destruct (vs_descriptor vs) as [d|] eqn:Ed; [by apply (Ht _ _ _ _ d eq_refl)|].
  intros fname e1 d0 d1 e2 Ef E1 E0 (r & Er & Ea).
  cbn [vs_manifest_file_number set_compact_pointer] in Ht. rewrite Ef in Ht. cbn [mbind option_bind] in Ht.
  change (vs_env (set_compact_pointer cp vs)) with (vs_env vs) in Ht. rewrite E1 in Ht. change (Status_ok kOk) with true in Ht. cbv iota in Ht.
  rewrite E0 in Ht. cbn [mbind option_bind] in Ht. unfold WriteSnapshot in Ht.
  change (snapshot_edit (set_env e1 (set_compact_pointer cp vs))) with (snapshot_edit (set_compact_pointer cp vs)) in Ht. rewrite Er in Ht. cbn [mbind option_bind] in Ht.
  change (vs_env (set_env e1 (set_compact_pointer cp vs))) with e1 in Ht. rewrite Ea in Ht. cbn [mbind option_bind] in Ht.
  specialize (Ht _ _ _ _ d1 eq_refl eq_refl). done.
Qed.

Lemma LogAndApply_synced M M' vs edit eds vs' : trailer_written vs edit -> change vs edit M M' -> continues vs eds edit -> LogAndApply le ptr dbname edit vs = Some (kOk, vs') ->
  exists eds' ed, synced vs' eds' /\ last eds' = Some ed /\
    numbered ed (vs_log_number vs') (vs_prev_log_number vs') (vs_next_file_number vs') (vs_last_sequence vs') /\
    forall d, vs_descriptor vs = Some d -> eds' = eds ++ [ed] /\ exists d', vs_descriptor vs' = Some d' /\ d_name d' = d_name d /\
      grew le ptr (length eds) (manifest vs d) eds' (manifest vs' d) d'.
Proof using Hptr.
  intros Hp Hc Hwas EL. pose proof Hc as [C1 C2 C3 (C4 & C5 & C6) C7 C8 C9 C10].
  destruct (LogAndApply_spec le ptr Hptr dbname M M' edit vs C1 C2 C3 C4 C7 C8) as (s & vs'' & EL' & Hg' & _ & _ & _ & N1 & N2 & N3 & HR).
  rewrite EL in EL'. injection EL' as <- <-. destruct HR as (L1 & L2 & L3 & L4).
  apply LogAndApply_inv in EL as (ed & cp & b & v & d' & e' & Ec & EA & _ & Evs & Hm).
  destruct (complete_logged edit vs ed M M' Hc Ec) as (Hed & Hnum & E1 & E2 & E3 & E4). pose proof (trailer_pads vs edit ed cp b Hp Ec EA) as Hpads.
  assert (forall eds', last eds' = Some ed -> manifest_next eds' = vs_next_file_number vs) as Hnx by (intros eds' El; unfold manifest_next; rewrite El; apply Hnum).
  destruct (vs_descriptor vs) as [d|] eqn:Edd.
  - exists (eds ++ [ed]), ed. rewrite last_snoc.
    destruct (edited_history M M' vs edit ed eds vs' Hc Hwas Ec) as (cp' & b' & Hh & Hb); [by rewrite Edd|done|]. specialize (Hnx (eds ++ [ed]) ltac:(by rewrite last_snoc)).
    destruct Hwas as [?|([(d0 & base & Ed0 & Hn & Hcur & Hw) _ _] & _ & _)]; [congruence|]. rewrite Edd in Ed0. injection Ed0 as <-.
    destruct C1 as [G1 _ _ _ _]. rewrite Edd in G1. destruct (record_written_spec eds _ d ed (vs_env vs) d' e' Hpads Hw G1 Hed eq_refl Hm) as (Hw' & Hd' & Hn' & Ht).
    subst vs'. split_and!; [|done|exact Hnum|by intros d1 [= <-]; split; [|exists d']]. split.
    + exists d', base. unfold manifest. cbn. rewrite Hn'. split_and!; [done|done| |by eapply grew_wrote, Hw']. change (disk e' !! CurrentFileName dbname = Some (base ++ [10])). rewrite Ht; [done|].
      intros E0. destruct G1 as ((n & Hnm) & _). rewrite <-E0 in Hnm. by destruct (named_fun _ _ _ _ _ _ Hnm (current_named dbname)).
    + exists cp', b'. by rewrite Hnx.
    + exists ed, (vs_last_sequence vs). rewrite last_snoc, Hnx. done.
  - destruct Hm as (fname & e1 & d0 & d1 & e2 & e3 & Ef & En & Ed0 & R1 & R2 & Es). rewrite E4 in R2. destruct C1 as [_ G2 G3 _ _].
    destruct (snapshot_edited_history M M' vs edit ed cp vs' Hc Ec) as (Hsn & cp' & b' & Hh & Hb); [by eapply Apply_pointers; [exact EA|done|apply Hed]|done|].
    destruct (opened_written vs ed cp d' fname e1 d0 d1 e2 e3 (Hpads fname e1 d0 d1 e2 Ef En Ed0 R1) G2 Hsn Hed Ef En Ed0 R1 R2) as (Hn' & Hw'). specialize (Hnx [snapshot_edit (set_compact_pointer cp vs); ed] eq_refl).
    exists [snapshot_edit (set_compact_pointer cp vs); ed], ed. destruct (SetCurrentFile_spec dbname (vs_manifest_file_number vs) e3 G2) as (c & e4 & Es' & _ & D1 & D2). rewrite Es in Es'. injection Es' as <- <-.
    subst vs'. split_and!; [|done|exact Hnum|done]. unfold DescriptorFileName in Ef. rewrite (proj2 (Z.ltb_lt 0 _)) in Ef by lia. cbn [passert mbind option_bind] in Ef. injection Ef as <-.
    destruct (file_named dbname (vs_manifest_file_number vs)) as (_ & _ & _ & Hn1 & Hn2); [unfold fits_unsigned; lia|]. split.
    + exists d', (manifest_base (vs_manifest_file_number vs)). unfold manifest. rewrite Hn'. split_and!; [done|done|exact D1|].
      change (wrote le ptr [snapshot_edit (set_compact_pointer cp vs); ed] (default [] (disk e' !! (dbname ++ chars "/MANIFEST-" ++ pad6 (vs_manifest_file_number vs)))) d').
      rewrite D2; [done| |]; intros E0; rewrite E0 in Hn2; [by destruct (named_fun _ _ _ _ _ _ Hn1 Hn2)|by destruct (named_fun _ _ _ _ _ _ Hn2 (current_named dbname))].
    + exists cp', b'. by rewrite Hnx.
    + exists ed, (vs_last_sequence vs). by rewrite Hnx.
Qed.
End durable.

(** ** Properties *)

(** The version, and the numbers of its logs, up to the order in a level and
    the counters of seeks, which are not stored. *)
Definition same_version {E K} (vs vs1 : VSet E K) : Prop :=
  Forall2 (≡ₚ) (files_ (vs_current vs1)) ((fun fs : list FileMetaData => seeked <$> fs) <$> files_ (vs_current vs)) /\
  vs_log_number vs1 = vs_log_number vs /\ vs_prev_log_number vs1 = vs_prev_log_number vs.

(** C7 (manifest_atomic) The manifest commits a change of version atomically.
    [LogAndApply] returned OK, and if the record of the change had to start in a
    new block, the append that fills up the old block, whose status [AddRecord]
    does not look at, succeeded too.  Then opening the database runs to its end,
    with OK or an IO error of the file system; with OK it finds the new version,
    its log numbers, sequence number and next file number.  If a crash cut the
    manifest inside the record of the change, it finds the new version or the
    one before, whole. *)
Theorem manifest_atomic le ptr dbname reuse_logs {E K} `{!Env E} M M' (vs vs' vs0 : VSet E K) edit eds n :
  addresses ptr -> trailer_written le ptr dbname vs edit -> change le dbname vs edit M M' -> continues le ptr dbname vs eds edit -> LogAndApply le ptr dbname edit vs = Some (kOk, vs') ->
  vs_new vs0 -> disk (vs_env vs0) !! CurrentFileName dbname = disk (vs_env vs') !! CurrentFileName dbname ->
  (forall d', vs_descriptor vs' = Some d' -> zlen (manifest vs' d') < 2 ^ 64 /\ disk (vs_env vs0) !! d_name d' = Some (take n (manifest vs' d')) /\
     (length (manifest vs' d') <= n \/ exists d, vs_descriptor vs = Some d /\ length (manifest vs d) <= n)%nat) ->
  exists c save vs1, Recover (F := list Z) le ptr dbname reuse_logs id vs0 = Some (c, save, vs1) /\ io_code c /\
    (c = kOk -> (same_version vs' vs1 /\ levels_ok le M' (files_ (vs_current vs1)) /\
         vs_last_sequence vs1 = vs_last_sequence vs' /\ vs_next_file_number vs1 = wrap 64 (vs_next_file_number vs' + 1)) \/
       (same_version vs vs1 /\ levels_ok le M (files_ (vs_current vs1)) /\ exists d', vs_descriptor vs' = Some d' /\ (n < length (manifest vs' d'))%nat)).
Proof.
  intros Hptr Hp Hc Hwas EL Hnew Hcur Hcut. pose proof Hc as [C1 C2 C3 (C4 & C5 & C6) C7 C8 C9 C10].
  destruct (LogAndApply_synced le ptr Hptr dbname M M' vs edit eds vs' Hp Hc Hwas EL) as (eds' & ed & Hs & El & Hnum & Hgrew).
  destruct (LogAndApply_spec le ptr Hptr dbname M M' edit vs C1 C2 C3 C4 C7 C8) as (s & vs'' & EL' & _ & _ & _ & _ & _ & _ & _ & HR).
  rewrite EL in EL'. injection EL' as <- <-. destruct HR as (L1 & _). clear EL. destruct Hs as [(d' & base & Ed' & Hn & Hc' & Hw) (cp & b & Hh & _) _].
  destruct (Hcut d' Ed') as (Hz & Hf & Hsz). rewrite Hn in Hf. rewrite Hc' in Hcur.
  assert (exists j old, grew le ptr j old eds' (manifest vs' d') d' /\ (length old <= n)%nat /\
    (j = length eds' \/ eds' = eds ++ [ed] /\ j = length eds /\ exists d, vs_descriptor vs = Some d)) as (j & old & Hg & Hold & Hj).
  { destruct Hsz as [Hsz|(d & Ed & Hsz)]; [exists (length eds'), (manifest vs' d'); split; [by apply wrote_grew|auto]|].
    destruct (Hgrew d Ed) as (Eeds & d'' & Ed'' & Hnd & Hg). rewrite Ed' in Ed''. injection Ed'' as <-. exists (length eds), (manifest vs d). unfold manifest at 2. rewrite Hnd. split; [exact Hg|]. eauto 10. }
  destruct (grew_reads le ptr Hptr j old eds' (manifest vs' d') d' n Hg Hz) as (k & Hk & Hk1 & Hk2 & Hreads). specialize (Hk2 Hold).
  pose proof (fun M cp b lv log prev next last => Recover_spec le ptr Hptr dbname reuse_logs vs0 _ base _ M cp b lv log prev next last Hnew Hreads Hcur Hf) as Hrec.
  destruct (decide (k = length eds')) as [-> |Hne].
  - rewrite take_ge in Hrec by lia. destruct (Hrec M' cp b _ _ _ _ _ Hh L1 (numbered_numbers _ _ _ _ _ _ El Hnum)) as (c & save & vs1 & E1 & Hio & HR). exists c, save, vs1. split_and!; [done|done|].
    intros Ec. left. destruct (HR Ec) as [R1 R2 (R3 & R4 & R5 & R6) _ _ _ _]. done.
  - destruct Hj as [->|(-> & -> & d & Ed)]; [lia|]. rewrite length_app in *. cbn [length] in *. assert (k = length eds) as -> by lia.
    rewrite take_app_length in Hrec. destruct Hwas as [?|([_ (cp0 & b0 & Hh0 & _) (ed0 & seq & El0 & Hnum0)] & _)]; [congruence|].
    destruct (Hrec M cp0 b0 _ _ _ _ _ Hh0 C2 (numbered_numbers _ _ _ _ _ _ El0 Hnum0)) as (c & save & vs1 & E1 & Hio & HR). exists c, save, vs1. split_and!; [done|done|].
    intros Ec. right. destruct (HR Ec) as [R1 R2 (R3 & R4 & R5 & R6) _ _ _ _]. split; [done|]. split; [done|]. exists d'. split; [done|].
    destruct (decide (n < length (manifest vs' d'))%nat); [done|]. lia.
Qed.

Lemma no_files_ok le M : levels_ok le M no_files.
Proof.
  assert (forall i A f, no_files !! i = Some A -> f ∈ A -> False) as Hn.
  { intros i A f HA Hf. apply lookup_replicate in HA as [-> _]. by apply elem_of_nil in Hf. }
  split; [|by apply Forall_replicate; constructor]. split; try done; first [by cbn; constructor|by intros; exfalso; eauto].
Qed.

Definition example_set : VSet System unit :=
  mkVSet (mkTC (mkSystem ∅ []) (mkSharded [] 0) None) 8 1 7 0 0 None (replicate (Z.to_nat kNumLevels) []) (mkVersion no_files None (-1)).
Definition example_apply edit (vs : VSet System unit) : VSet System unit :=
  match LogAndApply (Env0 := system_Env) true (fun _ => 0) (chars "db") edit vs with Some (_, vs) => vs | None => vs end.
Definition example_edit1 : VersionEdit := SetLogNumber 3 new_VersionEdit.
Definition example_edit2 : VersionEdit := push_file 0 example_file9 new_VersionEdit.
Definition example_set1 : VSet System unit := set_next 10 (example_apply example_edit1 example_set).
Definition example_set2 : VSet System unit := example_apply example_edit2 example_set1.
(** The disk after a crash: the last record of the manifest is not complete. *)
Definition example_crash : VSet System unit :=
  let disk := sys_files (vs_env example_set2) in
  let name := chars "db/MANIFEST-000001" in
  set_env (mkSystem (<[name := take (length (default [] (sys_files (vs_env example_set1) !! name)) + 8) (default [] (disk !! name))]> disk) []) example_set.

Lemma example_change1 : change true (chars "db") example_set example_edit1 ∅ ∅.
Proof.
  split; try done.
  - split; try done. split; [done|]. apply Forall_replicate. done.
  - apply no_files_ok.
  - split; try done; try constructor. by intros i files f [-> _]%lookup_replicate Hf%elem_of_nil.
  - split; [split; try done|split; [split; try done|done]]; repeat constructor; cbn; lia.
  - apply no_files_ok.
Qed.

Lemma example_vs1 : LogAndApply (Env0 := system_Env) true (fun _ => 0) (chars "db") example_edit1 example_set = Some (kOk, example_apply example_edit1 example_set).
Proof. by vm_compute. Qed.

Lemma example_vs2 : LogAndApply (Env0 := system_Env) true (fun _ => 0) (chars "db") example_edit2 example_set1 = Some (kOk, example_set2).
Proof. by vm_compute. Qed.

Lemma example_change2 (vs : VSet System unit) : vs_good (chars "db") vs -> files_ (vs_current vs) = no_files -> vs_next_file_number vs = 10 ->
  change true (chars "db") vs example_edit2 ∅ (<[9 := [example_put 5]]> ∅).
Proof.
  intros Hg Ef En. assert (file_ok (<[9 := [example_put 5]]> ∅) example_file9) as Hf9 by (split; try (by eexists); try (eexists; by split); repeat constructor; done).
  split; rewrite ?Ef; [done| | | | |done|constructor|].
  - apply no_files_ok.
  - by apply edit_fits_push; [|exact (file_keys _ _ Hf9)|apply edit_fits_none| |].
  - split; [split; try done|split; [split; try done|done]]; repeat constructor; try done; cbn; lia.
  - change (edited example_edit2 no_files) with (with_file 0 (seeked example_file9) no_files).
    apply (flush_sem true ∅ no_files (seeked example_file9) [example_put 5] 0 [107] [107]); try done.
    + apply no_files_ok.
    + by destruct Hf9; split.
    + by intros e e' _ He'%elem_of_nil.
  - apply Forall_singleton. rewrite En. cbn. lia.
Qed.

Lemma vs_good_next {E K} dbname n (vs : VSet E K) : fits_unsigned 64 n -> vs_good dbname vs -> vs_good dbname (set_next n vs).
Proof. intros Hn [G1 G2 G3 G4 (G5 & G6)]. by split. Qed.

Lemma example_good1 : vs_good (chars "db") example_set1.
Proof.
  destruct example_change1 as [C1 C2 C3 (C4 & C5 & C6) C7 C8 _ _].
  destruct (LogAndApply_spec (Env0 := system_Env) true (fun _ => 0) ltac:(done) (chars "db") ∅ ∅ example_edit1 example_set C1 C2 C3 C4 C7 C8) as (s & vs & EL & Hg & _).
  rewrite example_vs1 in EL. unfold example_set1. revert EL. generalize (example_apply example_edit1 example_set). intros vs1 EL. apply vs_good_next; [done|]. pose proof (f_equal (fun x => snd <$> x) EL) as E1. cbn [fmap option_fmap option_map snd] in E1.
  apply (inj Some) in E1. by rewrite E1.
Qed.

Lemma example_pads1 : trailer_written (Env0 := system_Env) true (fun _ => 0) (chars "db") example_set example_edit1.
Proof.
  intros ed cp b s name ed' vs1 d Ec EA Eo Ed. vm_compute in Ec. injection Ec as <-. vm_compute in EA. injection EA as <- <-.
  vm_compute in Eo. injection Eo as <- <- <- <-. vm_compute in Ed. injection Ed as <-. intros H. vm_compute in H. by destruct H.
Qed.

Lemma example_pads2 : trailer_written (Env0 := system_Env) true (fun _ => 0) (chars "db") example_set1 example_edit2.
Proof.
  intros ed cp b s name ed' vs1 d Ec EA Eo Ed. vm_compute in Ec. injection Ec as <-. vm_compute in EA. injection EA as <- <-.
  vm_compute in Eo. injection Eo as <- <- <- <-. vm_compute in Ed. injection Ed as <-. intros H. vm_compute in H. by destruct H.
Qed.

Lemma manifest_atomic_witness : exists c save vs1,
  Recover (F := list Z) (Env0 := system_Env) true (fun _ => 0) (chars "db") true id example_crash = Some (c, save, vs1) /\ io_code c /\
  (c = kOk -> (same_version example_set2 vs1 /\ levels_ok true (<[9 := [example_put 5]]> ∅) (files_ (vs_current vs1)) /\
       vs_last_sequence vs1 = vs_last_sequence example_set2 /\ vs_next_file_number vs1 = wrap 64 (vs_next_file_number example_set2 + 1)) \/
     (same_version example_set1 vs1 /\ levels_ok true ∅ (files_ (vs_current vs1)) /\
       exists d', vs_descriptor example_set2 = Some d' /\ (58 < length (manifest (Env0 := system_Env) example_set2 d'))%nat)).
Proof.
  destruct (LogAndApply_synced (Env0 := system_Env) true (fun _ => 0) ltac:(done) (chars "db") ∅ ∅ example_set example_edit1 [] _
    example_pads1 example_change1 (or_introl eq_refl) example_vs1) as (eds & ed & [Y1 Y2 Y3] & El & Hnum & _).
  assert (manifest_next eds = 8) as Hnx. { unfold manifest_next. rewrite El. destruct Hnum as [_ _ [_ H] _]. cbn. rewrite H. by vm_compute. }
  refine (manifest_atomic (Env0 := system_Env) true (fun _ => 0) (chars "db") true ∅ _ example_set1 example_set2 example_crash example_edit2 eds 58
    _ example_pads2 (example_change2 _ example_good1 _ _) _ example_vs2 _ _ _).
  - done.
  - by vm_compute.
  - by vm_compute.
  - right. rewrite Hnx. split; [by split|]. split; [done|]. by repeat constructor.
  - by split.
  - by vm_compute.
  - intros d' Hd'. vm_compute in Hd'. injection Hd' as <-. split; [by vm_compute|]. split; [by vm_compute|]. right. eexists. split; [vm_compute; reflexivity|]. apply Nat.leb_le. by vm_compute.
Defined.
