(* ===== verification/Open.v ===== *)
(** Opening and destroying a database: [SanitizeOptions], [DBImpl::NewDB],
    [DBImpl::Recover], [DBImpl::RecoverLogFile] on its log file, [DB::Open] and
    [DestroyDB] of [src/leveldb/db/db_impl.cc].

    The manifest is read back by [Manifest.Recover], the logs by the loop of
    [Recovery], into tables of [Storage].  An [info_log] is given, so that
    [SanitizeOptions] does not open one. *)
From stdpp Require Import strings sorting.
From S2P Require Import Prelude Coding Dbformat LdbBase Crc32c LogFormat Iterator Block Filter Format Table TableRead Cache CacheTables.
From S2P Require Import WriteBatch Skiplist Memtable MemIter Arena DbImpl Recovery Numconv Filename TableIO LogIO Env VersionEdit Version Levels CacheShards TableCache.
From S2P Require Import Manifest Storage ManifestLog.

Record DBOptions := mkDBOptions {
  create_if_missing : bool;
  error_if_exists : bool;
  paranoid_checks : bool;
  reuse_logs : bool;
  write_buffer_size : Z;
  max_open_files : Z;
  block_size : Z;
}.

Definition kNumNonTableCacheFiles : Z := 10.
Definition ClipToRange (x minvalue maxvalue : Z) : Z :=
  let x := if maxvalue <? x then maxvalue else x in
  if x <? minvalue then minvalue else x.
Definition SanitizeOptions (src : DBOptions) : DBOptions :=
  mkDBOptions (create_if_missing src) (error_if_exists src) (paranoid_checks src) (reuse_logs src)
    (ClipToRange (write_buffer_size src) (Z.shiftl 64 10) (Z.shiftl 1 30))
    (ClipToRange (max_open_files src) (64 + kNumNonTableCacheFiles) 50000)
    (ClipToRange (block_size src) (Z.shiftl 1 10) (Z.shiftl 4 20)).

(** [mem_], [logfile_number_] and where [log_] appends, once they are set. *)
Record OpenLog := mkOpenLog { ol_mem : SkipList (list Z); ol_number : Z; ol_offset : Z }.

Section open.
Context (le : bool) (ptr : list Z -> Z) (junk : nat -> Z) (uninit : option nat) (stack : nat -> nat) (new_block : list (Z * Z) -> Z -> Z).
Context (snappy : Snappy) (policy : option FilterPolicy) (uninit_restart : Z) (compression restart_interval : Z) (dbname : list Z).
Context {E : Type} `{!Env E} {K : Type} `{!BlockCache K}.
Implicit Types (vs : VSet E K) (edit : VersionEdit) (e : E) (o : DBOptions).

Definition table_options o : Options := mkOptions compression (block_size o) restart_interval (paranoid_checks o).

(** [VersionSet::VersionSet] *)
Definition new_VersionSet (tc : TableCache E K) : VSet E K :=
  mkVSet tc 2 0 0 0 0 None (replicate (Z.to_nat kNumLevels) []) (mkVersion (replicate (Z.to_nat kNumLevels) []) None (-1)).

Definition new_db_edit : VersionEdit :=
  VersionEdit.SetLastSequence 0 (SetNextFile 2 (SetLogNumber 0 (SetComparatorName Bytewise_Name new_VersionEdit))).

Definition NewDB e : option (Code * E) :=
  manifest ← DescriptorFileName dbname 1;
  let '(s, e) := env_NewWritableFile manifest e in
  if negb (Status_ok s) then Some (s, e)
  else
    log ← new_Descriptor le ptr manifest e;
    record ← EncodeTo new_db_edit [];
    '(s, _, e) ← add_record le ptr log record e;
    let '(s, e) := if Status_ok s then env_Close manifest e else (s, e) in
    if Status_ok s then SetCurrentFile dbname 1 e
    else Some (s, (env_DeleteFile manifest e).2).

(** The file of a log that may be reused: its size, and whether it could be
    opened for appending. *)
Definition reuse_file (try : bool) (fname : list Z) e : option Z * bool * E :=
  if try then
    let '(s, lfile_size, e) := env_GetFileSize fname e in
    if Status_ok s then let '(s, e) := env_NewAppendableFile fname e in (Some lfile_size, Status_ok s, e)
    else (None, false, e)
  else (None, false, e).

Definition sink_writer o : TableWriter le (VSet E K * VersionEdit * bool) := sink_write le ptr snappy policy (table_options o) uninit_restart dbname.

(** [RecoverLogFile] after its loop: the log is reused, or what is left of the
    memtable is written. *)
Definition finish_file o (log_number : Z) (last_log : bool) (fname : list Z) (status : Code) (mem : option (SkipList (list Z)))
    (w : VSet E K * VersionEdit * bool) (max_sequence : Z) (compacted : bool) : option (Code * (VSet E K * VersionEdit * bool) * Z * option OpenLog) :=
  let '(lfile_size, appendable, e) := reuse_file (Status_ok status && reuse_logs o && last_log && negb compacted) fname (vs_env w.1.1) in
  '(status, w, reused) ←
    finish_log (TableWriter0 := sink_writer o) le uninit
      (Build_LogFile kOk (reuse_logs o && last_log) lfile_size appendable) status mem (set_env e w.1.1, w.1.2, w.2) compacted;
  Some (status, w, max_sequence, match reused with Some (m, lfile_size) => Some (mkOpenLog m log_number (lfile_size mod kBlockSize)) | None => None end).

(** [RecoverLogFile] once the file is open: what it adds to the tables and the
    edit, and, if it is reused, the memtable. *)
Definition recover_file o (log_number : Z) (last_log : bool) (fname file : list Z) (w : VSet E K * VersionEdit * bool) (max_sequence : Z)
    : option (Code * (VSet E K * VersionEdit * bool) * Z * option OpenLog) :=
  '(status, mem, w, max_sequence, compacted) ←
    RecoverLogFile_read (TableWriter0 := sink_writer o)
      le junk uninit stack new_block (write_buffer_size o) (paranoid_checks o) ptr
      (S (length file)) (new_Reader file true true 0) None w max_sequence kOk false;
  finish_file o log_number last_log fname status mem w max_sequence compacted.

Definition RecoverLog o (log_number : Z) (last_log : bool) (w : VSet E K * VersionEdit * bool) (max_sequence : Z)
    : option (Code * (VSet E K * VersionEdit * bool) * Z * option OpenLog) :=
  fname ← LogFileName dbname log_number;
  let '(status, file, e) := env_NewSequentialFile fname (vs_env w.1.1) in
  let w := (set_env e w.1.1, w.1.2, w.2) in
  if negb (Status_ok status) then Some (MaybeIgnoreError (paranoid_checks o) status, w, max_sequence, None)
  else recover_file o log_number last_log fname file w max_sequence.

(** The loop over the directory: the live files that are not there, and the
    logs to recover. *)
Fixpoint scan_files (min_log prev_log : Z) (filenames : list (list Z)) (expected : gset Z) (logs : list Z) : gset Z * list Z :=
  match filenames with
  | [] => (expected, logs)
  | name :: filenames =>
      match ParseFileName name with
      | Some (number, type) =>
          let expected := expected ∖ {[number]} in
          if bool_decide (type = kLogFile) && ((min_log <=? number) || (number =? prev_log))
          then scan_files min_log prev_log filenames expected (logs ++ [number])
          else scan_files min_log prev_log filenames expected logs
      | None => scan_files min_log prev_log filenames expected logs
      end
  end.

Fixpoint recover_logs o (logs : list Z) (w : VSet E K * VersionEdit * bool) (max_sequence : Z) (opened : option OpenLog)
    : option (Code * (VSet E K * VersionEdit * bool) * Z * option OpenLog) :=
  match logs with
  | [] => Some (kOk, w, max_sequence, opened)
  | log :: logs =>
      '(s, w, max_sequence, opened) ← RecoverLog o log (bool_decide (logs = [])) w max_sequence;
      if negb (Status_ok s) then Some (s, w, max_sequence, opened)
      else
        recover_logs o logs (MarkFileNumberUsed log w.1.1, w.1.2, w.2) max_sequence opened
  end.

(** [DBImpl::Recover] once [versions_->Recover] has run. *)
Definition recover_files o vs (save_manifest : bool) : option (Code * (VSet E K * VersionEdit * bool) * option OpenLog) :=
  let min_log := vs_log_number vs in
  let prev_log := vs_prev_log_number vs in
  let '(s, filenames, e) := env_GetChildren dbname (vs_env vs) in
  let vs := set_env e vs in
  if negb (Status_ok s) then Some (s, (vs, new_VersionEdit, save_manifest), None)
  else
    let '(expected, logs) := scan_files min_log prev_log filenames (AddLiveFiles vs ∅) [] in
    if negb (bool_decide (expected = ∅)) then Some (kCorruption, (vs, new_VersionEdit, save_manifest), None)
    else
      '(s, w, max_sequence, opened) ← recover_logs o (merge_sort Z.le logs) (vs, new_VersionEdit, save_manifest) 0 None;
      if negb (Status_ok s) then Some (s, w, opened)
      else
        let '(vs, edit, save_manifest) := w in
        vs ← (if vs_last_sequence vs <? max_sequence then SetLastSequence max_sequence vs else Some vs);
        Some (kOk, (vs, edit, save_manifest), opened).

(** The status, the version set, the edit and [*save_manifest], the log if one
    was reused, and whether the lock is held. *)
Definition DBImpl_Recover o vs : option (Code * (VSet E K * VersionEdit * bool) * option OpenLog * bool) :=
  let e := (env_CreateDir dbname (vs_env vs)).2 in
  let '(s, e) := env_LockFile (LockFileName dbname) e in
  let fail s e := Some (s, (set_env e vs, new_VersionEdit, false), None, true) in
  if negb (Status_ok s) then Some (s, (set_env e vs, new_VersionEdit, false), None, false)
  else
    '(s, e) ← (if negb (env_FileExists (CurrentFileName dbname) e) then
                 if create_if_missing o then NewDB e else Some (kInvalidArgument, e)
               else if error_if_exists o then Some (kInvalidArgument, e) else Some (kOk, e));
    if negb (Status_ok s) then fail s e
    else
      '(s, save_manifest, vs) ← Recover (F := list Z) le ptr dbname (reuse_logs o) id (set_env e vs);
      if negb (Status_ok s) then Some (s, (vs, new_VersionEdit, save_manifest), None, true)
      else
        '(s, w, opened) ← recover_files o vs save_manifest;
        Some (s, w, opened, true).

(** A database that is open: [versions_] and the log. *)
Record OpenDB := mkOpenDB { od_versions : VSet E K; od_log : OpenLog }.

(** The new log of [DB::Open]. *)
Definition open_log vs edit : option (Code * VSet E K * VersionEdit * option OpenLog) :=
  let '(new_log_number, vs) := NewFileNumber vs in
  fname ← LogFileName dbname new_log_number;
  let '(s, e) := env_NewWritableFile fname (vs_env vs) in
  let vs := set_env e vs in
  if Status_ok s then
    mem ← new_MemTable uninit;
    Some (s, vs, SetLogNumber new_log_number edit, Some (mkOpenLog mem new_log_number 0))
  else Some (s, vs, edit, None).

(** The end of [DB::Open], with its [log_]. *)
Definition open_end (s : Code) vs edit (save_manifest : bool) (opened : option OpenLog) (locked : bool) : option (Code * option OpenDB * E) :=
  '(s, vs) ← (if Status_ok s && save_manifest then
                LogAndApply le ptr dbname (SetLogNumber (match opened with Some log => ol_number log | None => 0 end) (SetPrevLogNumber 0 edit)) vs
              else Some (s, vs));
  vs ← (if Status_ok s then DeleteObsoleteFiles le dbname true vs else Some vs);
  if Status_ok s then
    log ← opened;
    Some (s, Some (mkOpenDB vs log), vs_env vs)
  else Some (s, None, if locked then (env_UnlockFile (LockFileName dbname) (vs_env vs)).2 else vs_env vs).

(** [new DBImpl], then [Open].  The file system is what is left after a failure. *)
Definition DB_Open (raw_options : DBOptions) (block_cache : K) e : option (Code * option OpenDB * E) :=
  let o := SanitizeOptions raw_options in
  table_cache ← new_TableCache (max_open_files o - kNumNonTableCacheFiles) e (Some block_cache);
  '(s, (vs, edit, save_manifest), opened, locked) ← DBImpl_Recover o (new_VersionSet table_cache);
  '(s, vs, edit, opened) ← (if Status_ok s && negb (bool_decide (is_Some opened)) then open_log vs edit
                            else Some (s, vs, edit, opened));
  open_end s vs edit save_manifest opened locked.

(** [DestroyDB] *)
Fixpoint destroy_files (filenames : list (list Z)) (result : Code) e : Code * E :=
  match filenames with
  | [] => (result, e)
  | name :: filenames =>
      match ParseFileName name with
      | Some (_, type) =>
          if negb (bool_decide (type = kDBLockFile)) then
            let '(del, e) := env_DeleteFile (dbname ++ chars "/" ++ name) e in
            destroy_files filenames (if Status_ok result && negb (Status_ok del) then del else result) e
          else destroy_files filenames result e
      | None => destroy_files filenames result e
      end
  end.
Definition DestroyDB e : Code * E :=
  let '(_, filenames, e) := env_GetChildren dbname e in
  if bool_decide (filenames = []) then (kOk, e)
  else
    let lockname := LockFileName dbname in
    let '(result, e) := env_LockFile lockname e in
    if Status_ok result then
      let '(result, e) := destroy_files filenames result e in
      let e := (env_UnlockFile lockname e).2 in
      let e := (env_DeleteFile lockname e).2 in
      (result, (env_DeleteDir dbname e).2)
    else (result, e).
End open.

(** ** The logs of a directory *)
Definition log_found (min_log prev_log : Z) (name : list Z) : option Z :=
  '(number, type) ← ParseFileName name;
  if bool_decide (type = kLogFile) && ((min_log <=? number) || (number =? prev_log)) then Some number else None.

Lemma scan_files_spec min_log prev_log names : forall expected logs, scan_files min_log prev_log names expected logs =
  (expected ∖ list_to_set (omap (fun name => fst <$> ParseFileName name) names), logs ++ omap (log_found min_log prev_log) names).
Proof.
  induction names as [|name names IH]; intros expected logs; cbn [scan_files omap list_omap].
  - apply (f_equal2 pair); [set_solver|by rewrite app_nil_r].
  - unfold log_found at 1. destruct (ParseFileName name) as [[n t]|]; cbn [mbind option_bind fmap option_fmap option_map fst list_to_set]; [|apply IH].
    destruct (_ && _); rewrite IH; apply (f_equal2 pair); try set_solver. by rewrite <-app_assoc.
Qed.

Section directory.
Context (le : bool) (ptr : list Z -> Z) (dbname : list Z) (o : DBOptions) {E : Type} `{!Env E}.

Definition log_name (n : Z) : list Z := MakeFileName dbname n (chars "log").

Lemma log_not_table n m : log_name n <> table_name dbname m.
Proof.
  intros E0. unfold log_name, table_name, MakeFileName in E0. apply app_inv_head, app_inv_head, (f_equal last) in E0.
  by rewrite !last_app in E0.
Qed.

(** The octets of a log from which the batches are read. *)
Definition log_of (bs : list (Z * list update)) (bytes : list Z) : Prop :=
  quiet_reads le ptr ((fun b => encode_batch b.1 b.2) <$> bs) (new_Reader bytes true true 0) /\ (length bs <= length bytes)%nat.

(** Opening a log file for reading works, or its failure is reported. *)
Definition logs_open : Prop := paranoid_checks o = true \/ forall name (e : E), is_Some (disk e !! name) -> (env_NewSequentialFile name e).1.1 = kOk.
(** A log record, in tables of the size that recovery writes. *)
Definition recoverable (b : Z * list update) : Prop :=
  1 <= b.1 /\ zlen b.2 < 2 ^ 31 /\ b.1 + zlen b.2 <= 2 ^ 56 /\ Forall fits_version (versions b.1 b.2) /\
  Forall byte_version (versions b.1 b.2) /\ Z.max 0 (write_buffer_size o) + update_weight b.2 <= 2 ^ 26.

(** A log on the disk with the batches. *)
Definition log_stored (e : E) (l : Z * list (Z * list update)) : Prop :=
  0 < l.1 < 2 ^ 61 /\ Forall recoverable l.2 /\ exists bytes, disk e !! log_name l.1 = Some bytes /\ log_of l.2 bytes.
Definition logs_size (logs : list (Z * list (Z * list update))) : Z := foldr (fun l n => zlen l.2 + 1 + n) 0 logs.
Lemma logs_size_nonneg logs : 0 <= logs_size logs.
Proof. clear. unfold logs_size. induction logs as [|l logs IH]; cbn [foldr]; lia. Qed.

Lemma log_versions_app bs bs' : log_versions (bs ++ bs') = log_versions bs ++ log_versions bs'.
Proof. unfold log_versions. by rewrite fmap_app, concat_app. Qed.

(** The logs are those that the version set has not seen, in files with the
    usual names. *)
Record dir_logs (e : E) (log : Z) (logs : list (Z * list (Z * list update))) : Prop := {
  dl_sorted : StronglySorted Z.lt logs.*1;
  dl_stored : Forall (log_stored e) logs;
  dl_new : Forall (fun l => log <= l.1) logs;
  dl_only : forall x n, is_Some (disk e !! (dbname ++ chars "/" ++ x)) -> ParseFileName x = Some (n, kLogFile) -> log <= n \/ n = 0 ->
    x = pad6 n ++ chars ".log" /\ n ∈ logs.*1;
}.

Lemma no_slash n suffix : fits_unsigned 64 n -> 47 ∉ suffix -> 47 ∉ pad6 n ++ suffix.
Proof.
  intros Hn Hs [H|H]%elem_of_app; [|done]. destruct (pad6_digits n Hn) as (Hd & _). rewrite Forall_forall in Hd. specialize (Hd _ H). unfold is_digit in Hd. lia.
Qed.

Lemma dir_logs_found e e' log logs names : env_GetChildren dbname e = (kOk, names, e') -> dir_logs e log logs -> merge_sort Z.le (omap (log_found log 0) names) = logs.*1.
Proof.
  intros Eg [L1 L2 L3 L4]. apply GetChildren_spec in Eg as (_ & _ & Hnames). destruct (Hnames eq_refl) as (Hnd & Hin & Hex).
  assert (forall x n, log_found log 0 x = Some n -> ParseFileName x = Some (n, kLogFile) /\ (log <= n \/ n = 0)) as Hfound.
  { intros x n. unfold log_found. destruct (ParseFileName x) as [[m t]|]; [|done]. cbn [mbind option_bind]. case_bool_decide; [|done]. subst t. cbn [andb].
    destruct (Z.leb_spec log m), (Z.eqb_spec m 0); cbn [orb]; intros E0; simplify_eq; auto. }
  assert (forall x n, x ∈ names -> log_found log 0 x = Some n -> x = pad6 n ++ chars ".log" /\ n ∈ logs.*1) as Hname.
  { intros x n Hx Hf. destruct (Hfound x n Hf) as [Hp Hn]. destruct (Hex x Hx) as [-> |[-> |Hd]]; [done|done|]. by apply L4. }
  assert (omap (log_found log 0) names ≡ₚ logs.*1) as HP.
  { apply NoDup_Permutation.
    - apply NoDup_omap_strong; [done|]. intros x y n Hx Hy Ex Ey. destruct (Hname x n Hx Ex) as [-> _], (Hname y n Hy Ey) as [-> _]. done.
    - apply (StronglySorted_NoDup Z.lt); [lia|done].
    - intros n. rewrite list_elem_of_omap. split; [intros (x & Hx & Hf); by destruct (Hname x n Hx Hf)|].
      intros ([m bs] & -> & Hl)%list_elem_of_fmap. rewrite Forall_forall in L2. rewrite Forall_forall in L3. destruct (L2 _ Hl) as (Hm & _ & bytes & Hb & _). specialize (L3 _ Hl). cbn in *.
      assert (fits_unsigned 64 m) as Hfit by (unfold fits_unsigned; lia). exists (pad6 m ++ chars ".log"). split; [apply Hin; [by eexists|apply no_slash; [done|]; by apply (bool_decide_unpack _)]|].
      destruct (file_named dbname m Hfit) as ((r & Er%app_inv_head%app_inv_head & Hp) & _). subst r.
      change (chars ".log") with (chars "." ++ chars "log"). unfold log_found. rewrite Hp. cbn. rewrite (proj2 (Z.leb_le log m)) by done. done. }
  eapply (StronglySorted_unique Z.le).
  - apply StronglySorted_merge_sort; apply _.
  - eapply StronglySorted_impl_in; [|exact L1]. intros a b _ _. lia.
  - by rewrite merge_sort_Permutation.
Qed.
End directory.

(** ** Recovery of the logs *)
Section logs.
Context (le : bool) (ptr : list Z -> Z) (junk : nat -> Z) (uninit : option nat) (stack : nat -> nat) (new_block : list (Z * Z) -> Z -> Z).
Context (snappy : Snappy) (policy : option FilterPolicy) (uninit_restart : Z) (compression restart_interval : Z) (dbname : list Z) (o : DBOptions) (cap : Z).
Context {E : Type} `{!Env E} {K : Type} `{!BlockCache K}.
Notation opts := (table_options compression restart_interval o).
Notation levels vs := (files_ (vs_current vs)).
Context (Hptr : addresses ptr) (Hblock : fresh_blocks new_block) (Hsnappy : Snappy_inverse snappy).
Context (Hcomp : o_compression opts = kNoCompression \/ o_compression opts = kSnappyCompression).
Context (Hint : 1 <= o_block_restart_interval opts).
Context (same_match : forall P x y f, policy = Some P -> same (Separators := InternalKey_Separators le) x y -> FP_KeyMayMatch x f = FP_KeyMayMatch y f).
Context (Hcap : 0 <= cap < 2 ^ 30).
Context (Hfkey : forall k, is_ikey k -> fkey policy k) (Hper : per_key policy <= 400) (Hname : zlen (policy_name policy) < 2 ^ 28).
Implicit Types (vs : VSet E K) (edit : VersionEdit) (M : gmap Z (list version)) (Ls : gmap Z layout) (es ew em : list version) (w : VSet E K * VersionEdit * bool).
Notation st_base := (st_base le snappy policy opts uninit_restart dbname cap).
Notation st_edit := (st_edit le snappy policy opts).
Notation table_name := (table_name dbname).
Notation sink_rep := (sink_rep le snappy policy opts uninit_restart dbname cap).
Notation log_name := (log_name dbname).
Notation log_of := (log_of le ptr).
Notation logs_open := (logs_open o (E := E)).
Notation recoverable := (recoverable o).
Notation log_stored := (log_stored le ptr dbname o).
Notation recover_log := (RecoverLog le ptr junk uninit stack new_block snappy policy uninit_restart compression restart_interval dbname o).

(** Other files than tables do not matter. *)
Lemma st_base_env vs e' M Ls es : st_base vs M Ls es -> (forall x n, named dbname x n kTableFile -> disk e' !! x = disk (vs_env vs) !! x) ->
  st_base (set_env e' vs) M Ls es.
Proof.
  intros [B1 B2 B3 B4 B5 B6 B7 B8 B9 B10] Hd. split; try done.
  - by apply vs_good_tables.
  - eapply tc_inv_disk; [exact B4|..].
    + intros n L HL. destruct (table_named dbname n) as [Hn _]; [by eapply tc_inv_number|]. by eapply Hd.
    + intros n L HL. destruct (table_named dbname n) as [_ Hn]; [by eapply tc_inv_number|]. by erewrite <-Hd.
  - intros n Hn. destruct (table_named dbname n) as [_ Hm]; [pose proof B5; cbn in *; lia|]. change (vs_env (set_env e' vs)) with e'. erewrite Hd by exact Hm. by apply B7.
Qed.

(** What recovery does to the version set [vs0] and the flag [save0]. *)
Definition recovering (strict : bool) vs0 (save0 : bool) w : Prop := exists tc n, w.1.1 = set_tables tc (set_next n vs0) /\
  (vs_next_file_number vs0 <= n /\ ids_left (vs_tables vs0) - (n - vs_next_file_number vs0) <= ids_left tc) /\
  (strict = true -> forall x, (forall m, x <> table_name m) -> disk (tc_env tc) !! x = disk (vs_env vs0) !! x) /\
  (save0 = true -> w.2 = true) /\ (w.2 = false -> w.1.2 = new_VersionEdit).

Lemma recovering_keeps strict vs0 save0 : sink_keeps dbname (recovering strict vs0 save0).
Proof.
  intros vs edit save tc edit' (tc0 & n & E0 & Hn & Hd & Hs & He) Ht _ Hi. cbn in E0. subst vs. exists tc, (n + 1). cbn in *.
  split; [done|]. split; [lia|]. split; [|done]. intros Hst x Hx. rewrite Ht by done. by apply Hd.
Qed.

Lemma sink_env strict strict' vs0 save0 es0 w ew e' n : 0 < n < 2 ^ 64 -> sink_rep (recovering strict vs0 save0) es0 w ew -> touches (log_name n) (vs_env w.1.1) e' ->
  (strict' = true -> strict = true /\ disk e' = disk (vs_env w.1.1)) -> sink_rep (recovering strict' vs0 save0) es0 (set_env e' w.1.1, w.1.2, w.2) ew.
Proof using.
  intros Hn ((tc & m & Ew & Hm & Hd & Hs & He) & M & Ls & HB & HE) Ht Hst. split.
  - exists (mkTC e' (tc_cache tc) (tc_blocks tc)), m. cbn. rewrite Ew. split; [done|]. split; [done|]. split; [|done]. intros H. destruct (Hst H) as [H1 H2].
    intros x Hx. rewrite H2, Ew. by apply Hd.
  - exists M, Ls. cbn. split; [|by destruct HE; split]. apply st_base_env; [done|]. intros x k Hk. apply Ht. intros ->.
    destruct (file_named dbname n) as [Hl _]; [unfold fits_unsigned; clear -Hn; lia|]. by destruct (named_fun _ _ _ _ _ _ Hk Hl).
Qed.

Lemma sink_room_env w e' : sink_room (set_env e' w.1.1, w.1.2, w.2) = sink_room w.
Proof using. done. Qed.


Notation sink strict vs0 save0 es0 := (storage_TableSink le ptr snappy policy opts uninit_restart dbname cap Hptr Hsnappy Hcomp Hint same_match Hcap Hfkey Hper Hname
  (recovering strict vs0 save0) es0 (recovering_keeps strict vs0 save0)).
Notation writer := (sink_writer le ptr snappy policy uninit_restart compression restart_interval dbname o (E := E) (K := K)).

(** What a log that was recovered adds: to the tables, or to the memtable. *)
Definition log_added (last : bool) vs0 save0 es0 log w' ew bs (opened : option OpenLog) : Prop :=
  match opened with
  | Some l => last = true /\ ol_number l = log /\ mem_rep le (ol_mem l) (log_versions bs) /\ mem_weight (log_versions bs) <= Z.max 0 (write_buffer_size o) /\
      sink_rep (recovering (negb last) vs0 save0) es0 w' ew
  | None => sink_rep (recovering (negb last) vs0 save0) es0 w' (ew ++ log_versions bs)
  end.

Lemma finish_file_spec vs0 save0 es0 log last w max ew' em' ew bs status mem compacted : 0 < log < 2 ^ 64 -> write_buffer_size o <= 2 ^ 26 ->
  (status = kOk -> 0 < sink_room w /\ by_sequence (ew' ++ em') /\ opt_rep le (write_buffer_size o) mem em' /\ Forall byte_version em' /\
     sink_rep (recovering true vs0 save0) es0 w ew' /\ ew' ++ em' = ew ++ log_versions bs /\ (compacted = false -> em' = log_versions bs)) ->
  exists s w' opened, finish_file le ptr uninit snappy policy uninit_restart compression restart_interval dbname o log last (log_name log) status mem w max compacted
      = Some (s, w', max, opened) /\
    (s = kOk -> status = kOk /\ sink_room w - 1 <= sink_room w' /\ log_added last vs0 save0 es0 log w' ew bs opened).
Proof using Hptr Hsnappy Hcomp Hint same_match Hcap Hfkey Hper Hname.
  intros Hlog Hwbs Hok. unfold finish_file. set (try := _ && _ && _ && _).
  destruct (reuse_file try (log_name log) (vs_env w.1.1)) as [[size app] e'] eqn:Er.
  assert (touches (log_name log) (vs_env w.1.1) e' /\ (last = false -> disk e' = disk (vs_env w.1.1))) as [Ht Hd].
  { unfold reuse_file in Er. destruct try eqn:Et; [|by injection Er as _ _ <-].
    assert (last = true) as -> by (unfold try in Et; rewrite !andb_true_iff in Et; tauto).
    destruct (env_GetFileSize _ _) as [[s1 n] e1] eqn:E1. apply GetFileSize_spec in E1 as (_ & D1 & _).
    assert (touches (log_name log) (vs_env w.1.1) e1) as T1 by (intros x _; by rewrite D1).
    destruct (Status_ok s1); [|by injection Er as _ _ <-]. destruct (env_NewAppendableFile _ _) as [s2 e2] eqn:E2. apply NewAppendableFile_spec in E2 as (_ & T2 & _).
    injection Er as _ _ <-. split; [by eapply touches_trans|done]. }
  destruct (finish_log_cases (TableWriter0 := writer) (TableSink0 := sink (negb last) vs0 save0 es0) le uninit (write_buffer_size o)
    (Build_LogFile kOk (reuse_logs o && last) size app) status mem (set_env e' w.1.1, w.1.2, w.2) compacted ew' em') as (c & w' & reused & -> & Hc & _).
  { done. }
  { intros Hs. destruct (Hok Hs) as (H1 & H2 & H3 & H4 & H5 & _). split; [done|]. split; [done|]. split; [done|]. split; [done|].
    eapply (sink_env true); [done|exact H5|done|]. destruct last; [done|]. auto. }
  cbn [mbind option_bind]. eexists _, _, _. split; [done|]. intros ->. destruct (Hc eq_refl) as [Hs HR]. split; [done|].
  destruct (Hok Hs) as (H1 & H2 & H3 & H4 & H5 & H6 & H7). destruct reused as [[m sz]|].
  - destruct HR as (-> & Hm & Hcm & Hrl). specialize (H7 Hcm). subst em'. apply app_inv_tail in H6 as ->. cbn [reuse_log] in Hrl. apply andb_prop in Hrl as [_ ->].
    split; [rewrite sink_room_env; lia|]. split; [done|]. split; [done|]. split; [done|]. split; [|by eapply (sink_env true)].
    destruct mem; [destruct H3; lia|]. cbn in H3. rewrite H3. unfold mem_weight. cbn. lia.
  - destruct HR as [HR Hroom]. split; [exact Hroom|]. unfold log_added. by rewrite <-H6.
Qed.

Lemma RecoverLog_spec vs0 save0 es0 log last w max ew bs bytes : 0 < log < 2 ^ 64 -> write_buffer_size o <= 2 ^ 26 -> logs_open ->
  disk (vs_env vs0) !! log_name log = Some bytes -> log_of bs bytes -> Forall recoverable bs ->
  sink_rep (recovering true vs0 save0) es0 w ew -> zlen bs < sink_room w -> by_sequence (ew ++ log_versions bs) ->
  exists s w' max' opened, recover_log log last w max = Some (s, w', max', opened) /\
    (s = kOk -> max <= max' /\ (max < 2 ^ 56 -> max' < 2 ^ 56) /\ Forall (fun e => e.1 <= max') (log_versions bs) /\ sink_room w - zlen bs - 1 <= sink_room w' /\
       log_added last vs0 save0 es0 log w' ew bs opened).
Proof using Hptr Hblock Hsnappy Hcomp Hint same_match Hcap Hfkey Hper Hname.
  intros Hlog Hwbs Hopen Hfile [Hq Hlen] Hbs Hw Hroom Hs. unfold RecoverLog, LogFileName. rewrite (proj2 (Z.ltb_lt 0 log)) by lia. cbn [passert mbind option_bind].
  fold (log_name log). assert (disk (vs_env w.1.1) !! log_name log = Some bytes) as Hf.
  { destruct Hw as ((tc & m & -> & _ & Hd & _) & _). rewrite <-Hfile. change (vs_env (set_tables tc (set_next m vs0))) with (tc_env tc). apply Hd; [done|apply log_not_table]. }
  destruct (env_NewSequentialFile (log_name log) (vs_env w.1.1)) as [[s1 file] e1] eqn:E1. pose proof E1 as E1'. apply NewSequentialFile_spec in E1 as (Hc1 & D1 & Hf1).
  destruct (Status_ok s1) eqn:Es1; cbn [negb].
  2:{ eexists _, _, _, _. split; [done|]. intros Hok. exfalso. destruct Hopen as [Hp|Hall].
      - unfold MaybeIgnoreError in Hok. rewrite Hp, orb_true_r in Hok. subst s1. done.
      - specialize (Hall (log_name log) (vs_env w.1.1) ltac:(by eexists)). rewrite E1' in Hall. cbn in Hall. subst s1. done. }
  apply Status_ok_eq in Es1 as ->. specialize (Hf1 eq_refl). rewrite Hf in Hf1. injection Hf1 as <-. unfold recover_file.
  set (w1 := (set_env e1 w.1.1, w.1.2, w.2)). assert (sink_rep (recovering true vs0 save0) es0 w1 ew) as Hw1.
  { eapply (sink_env true); [done|exact Hw| |done]. intros x _. by rewrite D1. }
  destruct (recover_prefix (TableWriter0 := writer) (TableSink0 := sink true vs0 save0 es0) le junk uninit stack new_block (write_buffer_size o) (paranoid_checks o)
    bs (length bs) w1 ew max Hblock) as (c & mem & w2 & max2 & compacted & Hloop & Hr2 & Hm56 & Hs2 & Hok2 & _); [done|done|change (zlen bs <= sink_room w); lia|done|].
  rewrite take_ge in * by lia.
  rewrite (RecoverLogFile_read_quiet (TableWriter0 := writer) le junk uninit stack new_block (write_buffer_size o) (paranoid_checks o) ptr
    _ (S (length bytes)) _ None w1 max false c mem w2 max2 compacted Hq (encode_batches_12 _) ltac:(rewrite length_fmap; lia) Hloop).
  cbn [mbind option_bind]. change (sink_room w1 - zlen bs <= sink_room w2) in Hr2. change (sink_room w1) with (sink_room w) in Hr2.
  assert (exists em' ew', c = kOk -> opt_rep le (write_buffer_size o) mem em' /\ Forall byte_version em' /\ sink_rep (recovering true vs0 save0) es0 w2 ew' /\
    ew' ++ em' = ew ++ log_versions bs /\ Forall (fun e => e.1 <= max2) (log_versions bs) /\ max <= max2 /\ (compacted = false -> em' = log_versions bs)) as (em' & ew' & Hok').
  { destruct (decide (c = kOk)) as [H|H]; [|by exists [], []]. destruct (Hok2 H) as (em' & ew' & ?). by exists em', ew'. }
  destruct (finish_file_spec vs0 save0 es0 log last w2 max2 ew' em' ew bs c mem compacted Hlog Hwbs) as (s & w3 & opened & -> & Hfin).
  { intros H. destruct (Hok' H) as (H1 & H2 & H3 & H4 & H5 & H6 & H7). split_and!; try done; [lia|]. by rewrite H4. }
  eexists _, _, _, _. split; [done|]. intros H. destruct (Hfin H) as (Hc & Hr3 & Hadd). destruct (Hok' Hc) as (_ & _ & _ & _ & H5 & H6 & _). split_and!; try done; lia.
Qed.

Lemma sink_mark strict vs0 save0 es0 w ew log : sink_rep (recovering strict vs0 save0) es0 w ew -> 0 < log < 2 ^ 61 ->
  let w' := (MarkFileNumberUsed log w.1.1, w.1.2, w.2) in
  sink_rep (recovering strict vs0 save0) es0 w' ew /\ Z.min (sink_room w) (2 ^ 62 - 2 - log) <= sink_room w' /\ log < vs_next_file_number w'.1.1.
Proof using.
  intros (HQ & M & Ls & HB & HE) Hlog w'. unfold w', MarkFileNumberUsed. pose proof HB as [B1 B2 B3 B4 B5 B6 B7 B8 B9 B10].
  rewrite wrap_fits by (unfold fits_unsigned; clear -Hlog; lia). destruct (Z.leb_spec (vs_next_file_number w.1.1) log) as [Hle|Hgt].
  - split_and!.
    + split.
      * destruct HQ as (tc & n & E0 & Hn & Hd & Hs & He). exists tc, (log + 1). cbn [fst snd]. rewrite E0 in *. split; [done|]. split; [cbn in Hle; clear -Hle Hn; lia|done].
      * exists M, Ls. cbn [fst snd]. split.
        -- apply st_base_next; [done| |clear -Hlog; lia|intros m Hm; apply B7; clear -Hm Hle; lia]. intros m L HL. specialize (B6 m L HL). clear -B6 Hle. lia.
        -- destruct HE as [S1 S2 S3 S4 S5 S6 S7]. split; try done. eapply Forall_impl; [exact S5|]. cbn. intros p Hp. clear -Hp Hle. lia.
    + unfold sink_room. cbn. clear. lia.
    + cbn. clear. lia.
  - split_and!; [|clear; destruct w as [[? ?] ?]; cbn [fst snd]; lia|done]. split; [by destruct HQ as (tc & n & ?); exists tc, n|]. by exists M, Ls.
Qed.

Lemma recovering_weaken vs0 save0 w : recovering true vs0 save0 w -> recovering false vs0 save0 w.
Proof using. intros (tc & n & H1 & H2 & _ & H3). exists tc, n. split; [done|]. split; [done|]. split; [done|exact H3]. Qed.

Notation logs_versions logs := (log_versions (concat logs.*2)).

(** The versions that recovery finds: in the tables of the edit, and in the
    memtable of the log that is reused. *)
Definition logs_added vs0 save0 es0 w es (opened : option OpenLog) : Prop := exists ew bs, ew ++ log_versions bs = es /\
  sink_rep (recovering false vs0 save0) es0 w ew /\
  match opened with
  | Some l => mem_rep le (ol_mem l) (log_versions bs) /\ mem_weight (log_versions bs) <= Z.max 0 (write_buffer_size o) /\ Forall recoverable bs /\
      vs_log_number vs0 <= ol_number l < vs_next_file_number w.1.1
  | None => bs = []
  end.

Lemma recover_logs_spec vs0 save0 es0 logs : forall spare w max ew, write_buffer_size o <= 2 ^ 26 -> logs_open ->
  Forall (log_stored (vs_env vs0)) logs -> Forall (fun l => vs_log_number vs0 <= l.1) logs -> sink_rep (recovering true vs0 save0) es0 w ew ->
  0 <= spare -> logs_size logs + spare <= sink_room w -> logs_size logs + spare <= 2 ^ 60 -> by_sequence (ew ++ logs_versions logs) -> 0 <= max < 2 ^ 56 ->
  exists s w' max' opened, recover_logs le ptr junk uninit stack new_block snappy policy uninit_restart compression restart_interval dbname o logs.*1 w max None = Some (s, w', max', opened) /\
    (s = kOk -> max <= max' < 2 ^ 56 /\ Forall (fun e => e.1 <= max') (logs_versions logs) /\ spare <= sink_room w' /\
      logs_added vs0 save0 es0 w' (ew ++ logs_versions logs) opened).
Proof using Hptr Hblock Hsnappy Hcomp Hint same_match Hcap Hfkey Hper Hname.
  induction logs as [|[log bs] logs IH]; intros spare w max ew Hwbs Hopen Hlogs Hnew Hw Hsp Hroom Hsize Hs Hmax.
  { eexists _, _, _, _. split; [done|]. intros _. split; [lia|]. split; [constructor|]. split; [done|]. exists ew, []. split; [done|]. split; [|done].
    destruct Hw as [HQ HR]. split; [by apply recovering_weaken|done]. }
  apply Forall_cons in Hlogs as [(Hlog & Hbs & bytes & Hf & Hof) Hlogs]. apply Forall_cons in Hnew as [Hge Hnew]. cbn [fmap list_fmap fst snd concat] in *. cbn [recover_logs].
  rewrite log_versions_app, app_assoc in Hs. pose proof Hs as Hs'. unfold by_sequence in Hs'. apply StronglySorted_app in Hs' as (_ & Hs1 & _).
  pose proof (logs_size_nonneg logs) as Hnn. change (logs_size ((log, bs) :: logs)) with (zlen bs + 1 + logs_size logs) in *.
  destruct (RecoverLog_spec vs0 save0 es0 log (bool_decide (logs.*1 = [])) w max ew bs bytes) as (s & w1 & max1 & opened & -> & Hok); try done; try lia.
  cbn [mbind option_bind]. destruct (Status_ok s) eqn:Es; cbn [negb]; [|by eexists _, _, _, _; split; [done|]; intros ->].
  apply Status_ok_eq in Es as ->. destruct (Hok eq_refl) as (Hm1 & Hm2 & Hall & Hr1 & Hadd). rewrite log_versions_app, app_assoc.
  assert (forall ew1, sink_rep (recovering (negb (bool_decide (logs.*1 = []))) vs0 save0) es0 w1 ew1 -> sink_rep (recovering (negb (bool_decide (logs.*1 = []))) vs0 save0) es0
     (MarkFileNumberUsed log w1.1.1, w1.1.2, w1.2) ew1 /\ logs_size logs + spare <= sink_room (MarkFileNumberUsed log w1.1.1, w1.1.2, w1.2) /\
     log < vs_next_file_number (MarkFileNumberUsed log w1.1.1)) as Hmark.
  { intros ew1 Hw1. destruct (sink_mark _ vs0 save0 es0 w1 ew1 log Hw1 Hlog) as (Hw2 & Hr2 & Hn2). split; [done|]. split; [lia|done]. }
  destruct logs as [|l logs].
  - cbn [recover_logs]. eexists _, _, _, _. split; [done|]. intros _. cbn [fmap list_fmap concat] in *. rewrite !app_nil_r. split; [lia|]. split; [done|].
    rewrite bool_decide_eq_true_2 in * by done. cbn [negb] in *. unfold log_added in Hadd. destruct opened as [l|].
    + destruct Hadd as (_ & El & Hm & Hwt & Hw1). destruct (Hmark ew Hw1) as (Hw2 & Hr2 & Hn2). split; [cbn in *; lia|]. exists ew, bs. split; [done|]. split; [done|]. rewrite El. split; [done|]. split; [done|]. split; [done|]. split; [exact Hge|exact Hn2].
    + destruct (Hmark _ Hadd) as (Hw2 & Hr2 & Hn2). split; [cbn in *; lia|]. exists (ew ++ log_versions bs), []. rewrite app_nil_r. done.
  - rewrite bool_decide_eq_false_2 in * by done. cbn [negb] in *. destruct opened as [l'|]; [by destruct Hadd|]. cbn [log_added] in Hadd.
    destruct (Hmark _ Hadd) as (Hw2 & Hr2 & Hn2). destruct (IH spare _ max1 _ Hwbs Hopen Hlogs Hnew Hw2) as (s & w3 & max3 & opened3 & -> & Hok3); try done; [lia|lia|].
    eexists _, _, _, _. split; [done|]. intros Hs3. destruct (Hok3 Hs3) as (Hm3 & Hall3 & Hr3 & Hadd3). split; [lia|]. split; [|done].
    apply Forall_app. split; [|done]. eapply Forall_impl; [exact Hall|]. cbn. intros. lia.
Qed.


Lemma live_found vs M Ls es names e' : st_base vs M Ls es -> env_GetChildren dbname (vs_env vs) = (kOk, names, e') ->
  AddLiveFiles vs ∅ ∖ list_to_set (omap (fun name => fst <$> ParseFileName name) names) = ∅.
Proof using.
  intros HB Eg. apply GetChildren_spec in Eg as (_ & _ & Hnames). destruct (Hnames eq_refl) as (_ & Hin & _). pose proof HB as [_ _ B3 B4 _ _ _ _ _ _].
  apply leibniz_equiv. intros n. split; [|by intros ?%elem_of_empty]. intros [Hl Hn]%elem_of_difference. exfalso. apply Hn. clear Hn.
  unfold AddLiveFiles in Hl. apply elem_of_union in Hl as [?%elem_of_empty|(f & -> & Hf)%elem_of_list_to_set%list_elem_of_fmap]; [done|].
  rewrite Forall_forall in B3. destruct (B3 f Hf) as (L & HL & _). pose proof (tc_inv_number _ _ _ _ _ _ _ _ _ _ _ _ B4 HL) as Hnum.
  destruct (table_named dbname (number f) Hnum) as [(r & Er & Hp) _]. assert (fits_unsigned 64 (number f)) as Hfit by (clear -Hnum; unfold fits_unsigned; lia).
  destruct B4 as (c & owner & [_ _ _ _ T4] & _). destruct (T4 _ _ HL) as (_ & _ & Hd & _). apply elem_of_list_to_set, list_elem_of_omap. exists r. rewrite Hp. split; [|done].
  apply Hin; [rewrite <-Er; by eexists|]. unfold TableCache.table_name, MakeFileName in Er. apply app_inv_head, app_inv_head in Er. subst r. apply no_slash; [done|]. by apply (bool_decide_unpack _).
Qed.

Lemma set_last_same vs : set_last (vs_last_sequence vs) vs = vs.
Proof using. by destruct vs. Qed.

Lemma recover_files_spec vs save M Ls es logs spare : st_base vs M Ls es -> dir_logs le ptr dbname o (vs_env vs) (vs_log_number vs) logs ->
  write_buffer_size o <= 2 ^ 26 -> logs_open -> 0 <= spare -> logs_size logs + spare <= sink_room (vs, new_VersionEdit, save) -> logs_size logs + spare <= 2 ^ 60 ->
  by_sequence (es ++ logs_versions logs) -> 0 <= vs_last_sequence vs < 2 ^ 56 ->
  exists s w opened, recover_files le ptr junk uninit stack new_block snappy policy uninit_restart compression restart_interval dbname o vs save = Some (s, w, opened) /\
    (s = kOk -> exists e' w0 l, disk e' = disk (vs_env vs) /\ w = (set_last l w0.1.1, w0.1.2, w0.2) /\ vs_last_sequence vs <= l < 2 ^ 56 /\
      Forall (fun e => e.1 <= l) (logs_versions logs) /\ spare <= sink_room w0 /\ logs_added (set_env e' vs) save es w0 (es ++ logs_versions logs) opened).
Proof using Hptr Hblock Hsnappy Hcomp Hint same_match Hcap Hfkey Hper Hname.
  intros HB Hlogs Hwbs Hopen Hsp Hroom Hsize Hs Hlast. unfold recover_files.
  destruct (env_GetChildren dbname (vs_env vs)) as [[s names] e] eqn:Eg. destruct (Status_ok s) eqn:Es; cbn [negb]; [|by eexists _, _, _; split; [done|]; intros ->].
  apply Status_ok_eq in Es as ->. rewrite scan_files_spec. change (AddLiveFiles (set_env e vs) ∅) with (AddLiveFiles vs ∅). rewrite (live_found vs M Ls es names e HB Eg).
  rewrite bool_decide_eq_true_2 by done. cbn [negb app].
  assert (vs_prev_log_number vs = 0) as -> by apply HB. rewrite (dir_logs_found le ptr dbname o _ _ _ logs _ Eg Hlogs).
  pose proof Eg as (_ & Hd & _)%GetChildren_spec. assert (st_base (set_env e vs) M Ls es) as HB' by (apply st_base_env; [done|]; intros x n _; by rewrite Hd).
  destruct (recover_logs_spec (set_env e vs) save es logs spare (set_env e vs, new_VersionEdit, save) 0 es Hwbs Hopen) as (s & w & max & opened & -> & Hok); try done.
  { destruct Hlogs as [_ L2 _ _]. eapply Forall_impl; [exact L2|]. intros l (H1 & H2 & bytes & H3 & H4). split; [done|]. split; [done|]. exists bytes. split; [|done]. cbn. by rewrite Hd. }
  { apply Hlogs. }
  { split; [|by exists M, Ls; split; [done|eapply st_edit_none]]. exists (vs_tables (set_env e vs)), (vs_next_file_number vs). cbn. split_and!; try done. unfold ids_left. cbn. lia. }
  cbn [mbind option_bind]. destruct (Status_ok s) eqn:Es; cbn [negb]; [|by eexists _, _, _; split; [done|]; intros ->].
  apply Status_ok_eq in Es as ->. destruct (Hok eq_refl) as (Hm & Hall & Hr & Hadd). destruct w as [[vs1 edit1] save1].
  assert (vs_last_sequence vs1 = vs_last_sequence vs) as El. { destruct Hadd as (ew & bs & _ & ((tc & n & E1 & _) & _) & _). cbn in E1. by rewrite E1. }
  destruct (Z.ltb_spec (vs_last_sequence vs1) max) as [Hlt|Hge].
  - unfold SetLastSequence. rewrite (proj2 (Z.leb_le _ _)) by lia. cbn [passert mbind option_bind]. eexists _, _, _. split; [done|]. intros _.
    exists e, (vs1, edit1, save1), max. cbn [fst snd]. split_and!; try done; lia.
  - cbn [mbind option_bind]. eexists _, _, _. split; [done|]. intros _. exists e, (vs1, edit1, save1), (vs_last_sequence vs). cbn [fst snd].
    rewrite <-El at 1. rewrite set_last_same. split_and!; try done; try lia. eapply Forall_impl; [exact Hall|]. cbn. intros. lia.
Qed.

(** ** A directory with a database *)
Notation on_disk := (on_disk le snappy policy opts dbname).
Notation holds := (holds le snappy policy opts).

(** The manifest leads to the levels [lv], whose tables hold [es]; the logs hold
    what came later. *)
Record dir_state (e : E) base eds lv (cp : list (list Z)) b M Ls es (log next last : Z) logs : Prop := {
  ds_current : disk e !! CurrentFileName dbname = Some (base ++ [10]);
  ds_base : exists m, base = manifest_base m /\ 0 < m < 2 ^ 64;
  ds_manifest : exists bytes, disk e !! (dbname ++ chars "/" ++ base) = Some bytes /\ manifest_of le ptr eds bytes;
  ds_history : history le eds cp b lv;
  ds_levels : levels_ok le M lv;
  ds_good : Forall file_good (concat lv);
  ds_numbers : numbers eds log 0 next last;
  ds_bounds : 0 <= log <= next /\ 0 < next < 2 ^ 61 /\ 0 <= last < 2 ^ 56;
  ds_tables : on_disk e Ls;
  ds_holds : Forall (holds M Ls) (concat lv);
  ds_below : forall n L, Ls !! n = Some L -> n <= next;
  ds_unused : forall n, next < n < 2 ^ 64 -> disk e !! old_name dbname n = None;
  ds_versions : all_versions M (concat lv) ≡ₚ es;
  ds_seqs : Forall (fun v => v.1 <= last) es;
  ds_bytes : Forall byte_version es;
  ds_sorted : by_sequence (es ++ logs_versions logs);
  ds_logs : dir_logs le ptr dbname o e log logs;
}.

Lemma lock_named : named dbname (LockFileName dbname) 0 kDBLockFile.
Proof using. by exists (chars "LOCK"). Qed.

Lemma manifest_named m : 0 < m < 2 ^ 64 -> named dbname (dbname ++ chars "/" ++ manifest_base m) m kDescriptorFile.
Proof using. intros Hm. clear -Hm. destruct (file_named dbname m) as (_ & _ & _ & _ & H); [unfold fits_unsigned; lia|]. exact H. Qed.

(** Locking the directory changes nothing. *)
Lemma dir_state_lock e e' base eds lv cp b M Ls es log next last logs : dir_state e base eds lv cp b M Ls es log next last logs ->
  touches (LockFileName dbname) e e' -> dir_state e' base eds lv cp b M Ls es log next last logs.
Proof using.
  intros [D1 D2 D3 D4 D5 D6 D7 D8 D9 D10 D11 D12 D13 D14 D17 D15 D16] Ht.
  assert (forall x n t, named dbname x n t -> t <> kDBLockFile -> disk e' !! x = disk e !! x) as Hd.
  { intros x n t Hx Hne. apply Ht. intros ->. by destruct (named_fun _ _ _ _ _ _ Hx lock_named). }
  split; try done.
  - rewrite <-D1. by eapply Hd; [apply current_named|].
  - destruct D3 as (bytes & Hb & Hm), D2 as (m & -> & Hm'). exists bytes. split; [|done]. rewrite <-Hb. by eapply Hd; [by apply manifest_named|].
  - intros n L HL. destruct (D9 n L HL) as (T1 & T2 & T3 & T4). destruct (table_named dbname n T1) as [N1 N2]. split; [done|]. split; [done|].
    split; [rewrite <-T3|rewrite <-T4]; by eapply Hd.
  - intros n Hn. rewrite <-(D12 n Hn). destruct (table_named dbname n) as [_ N2]; [destruct D8 as (_ & H8 & _); clear -Hn H8; lia|]. by eapply Hd.
  - destruct D16 as [L1 L2 L3 L4]. split; [done| |done|].
    + eapply Forall_impl; [exact L2|]. intros l (H1 & H2 & bytes & H3 & H4). split; [done|]. split; [done|]. exists bytes. split; [|done]. rewrite <-H3.
      destruct (file_named dbname l.1) as [N1 _]; [clear -H1; unfold fits_unsigned; lia|]. by eapply Hd.
    + intros x n Hx Hp. apply L4; [|done]. rewrite <-(Hd _ n kLogFile) by (done || by exists x). done.
Qed.

(** ** A new database *)
Lemma new_db_logged : edit_logged new_db_edit.
Proof using.
  split; [split; try done|split; [split; try done|done]]; repeat constructor; try done; cbn; clear; lia.
Qed.

Lemma NewDB_spec (e : E) : exists s e', NewDB le ptr dbname e = Some (s, e') /\
  spares (meta_name dbname) e e' /\
  (s = kOk -> disk e' !! CurrentFileName dbname = Some (manifest_base 1 ++ [10]) /\
     exists bytes, disk e' !! (dbname ++ chars "/" ++ manifest_base 1) = Some bytes /\ manifest_of le ptr [new_db_edit] bytes).
Proof using Hptr.
  unfold NewDB. change (DescriptorFileName dbname 1) with (Some (dbname ++ chars "/" ++ manifest_base 1)). cbn [mbind option_bind].
  set (name := dbname ++ chars "/" ++ manifest_base 1). pose proof (manifest_named 1 ltac:(clear; lia)) as Hn. fold name in Hn.
  assert (meta_name dbname name) as Hx by (exists 1, kDescriptorFile; auto).
  destruct (env_NewWritableFile name e) as [s1 e1] eqn:E1. apply NewWritableFile_spec in E1 as (_ & T1 & D1).
  destruct (Status_ok s1) eqn:Es1; cbn [negb]; [|by eexists _, _; split; [done|]; split; [by eapply touches_spares|intros ->]]. apply Status_ok_eq in Es1 as ->. specialize (D1 eq_refl).
  destruct (new_Descriptor_spec le ptr Hptr dbname name e1 1 Hn) as (d & Ed & Hd & Hnd). rewrite Ed. cbn [mbind option_bind].
  destruct (encode_good new_db_edit (proj1 new_db_logged)) as (r & Er & Hr). rewrite Er. cbn [mbind option_bind].
  destruct (add_record_spec le ptr Hptr dbname d r e1 Hd Hr) as (s2 & d' & e2 & Ea & Hd' & Hnd' & T2). rewrite Ea, Hnd in *. cbn [mbind option_bind].
  destruct (if Status_ok s2 then env_Close name e2 else (s2, e2)) as [s3 e3] eqn:E3.
  assert (touches name e2 e3 /\ (s3 = kOk -> s2 = kOk /\ disk e3 !! name = disk e2 !! name)) as [T3 D3].
  { destruct (Status_ok s2) eqn:Es2; [|injection E3 as <- <-; split; [apply touches_refl|by intros ->]]. apply Status_ok_eq in Es2 as ->. apply Close_spec in E3 as (_ & T3 & D3). split; [done|auto]. }
  assert (touches name e e3) as T by (eapply touches_trans; [exact T1|]; by eapply touches_trans).
  destruct (Status_ok s3) eqn:Es3.
  2:{ eexists _, _. split; [done|]. destruct (env_DeleteFile name e3) as [s4 e4] eqn:E4. apply DeleteFile_spec in E4 as (_ & T4 & _). cbn. split; [|by intros ->].
      eapply touches_spares; [exact Hx|]. by eapply touches_trans. }
  apply Status_ok_eq in Es3 as ->. destruct (D3 eq_refl) as [-> D3'].
  destruct (SetCurrentFile_spec dbname 1 e3) as (s4 & e4 & -> & _ & D4 & D5); [clear; lia|].
  destruct (file_named dbname 1) as (_ & _ & _ & Htmp & _); [clear; unfold fits_unsigned; lia|]. eexists _, _. split; [done|]. split.
  - eapply spares_trans; [by eapply touches_spares|]. intros x H1.
    apply D5; intros ->; apply H1; [exists 1, kTempFile; auto|exists 0, kCurrentFile; split; [apply current_named|auto]].
  - intros ->. split; [exact D4|]. assert (disk e4 !! name = disk e2 !! name) as D6.
    { rewrite D5; [done|..]; intros E0; rewrite E0 in Hn; [by destruct (named_fun _ _ _ _ _ _ Hn Htmp)|by destruct (named_fun _ _ _ _ _ _ Hn (current_named dbname))]. }
    pose proof (wrote_add le ptr Hptr dbname [] [] d new_db_edit r e1 d' e2 (new_Descriptor_pads le ptr Hptr name e1 d Ed) (wrote_nil le ptr Hptr name e1 d Ed) Hd new_db_logged Er) as Hw.
    rewrite Hnd, D1 in Hw. specialize (Hw eq_refl Ea). rewrite D6.
    assert (manifest_of le ptr [new_db_edit] (default [] (disk e2 !! name))) as Hm.
    { assert (zlen r = 34) as Hz by (vm_compute in Er; injection Er as <-; done). pose proof (wrote_one le ptr Hptr _ _ _ _ (grew_wrote _ _ _ _ _ _ _ Hw) Er) as Hlen.
      destruct (grew_reads le ptr Hptr _ _ _ _ _ (length (default [] (disk e2 !! name))) Hw) as (k & _ & Hk & _ & Hm); [rewrite Hlen; rewrite Hz; done|].
      rewrite (Hk (le_n _)), take_ge, take_ge in Hm by done. exact Hm. }
    destruct (disk e2 !! name) as [bytes|]; [by exists bytes|]. exfalso. destruct Hm as (rs & Hrs & _ & Hl). apply Forall2_length in Hrs. cbn in *. clear -Hrs Hl. lia.
Qed.

(** A directory without logs or tables of older releases. *)
Definition fresh_dir (e : E) : Prop :=
  (forall x n, is_Some (disk e !! (dbname ++ chars "/" ++ x)) -> ParseFileName x <> Some (n, kLogFile)) /\
  (forall n, 2 < n < 2 ^ 64 -> disk e !! old_name dbname n = None).

Lemma new_dir_state (e e' : E) bytes : fresh_dir e -> spares (meta_name dbname) e e' -> disk e' !! CurrentFileName dbname = Some (manifest_base 1 ++ [10]) ->
  disk e' !! (dbname ++ chars "/" ++ manifest_base 1) = Some bytes -> manifest_of le ptr [new_db_edit] bytes ->
  exists cp b, dir_state e' (manifest_base 1) [new_db_edit] no_files cp b ∅ ∅ [] 0 2 0 [].
Proof using.
  intros [F1 F2] Hs Hcur Hfile Hm.
  assert (forall x n t, named dbname x n t -> t = kLogFile \/ t = kTableFile -> disk e' !! x = disk e !! x) as Hd.
  { intros x n t Hx Ht. apply Hs. intros (n' & t' & Hx' & Ht'). destruct (named_fun _ _ _ _ _ _ Hx Hx') as [_ <-]. by destruct Ht as [-> | ->], Ht' as [?|[?|?]]. }
  destruct (history_snoc le [] _ _ _ new_db_edit (history_nil le)) as (cp & b & Hh & _).
  { split; [constructor|constructor|constructor|]. intros i s [-> _]%lookup_replicate. cbn. constructor. }
  exists cp, b. split; try done.
  - exists 1. split; [done|]. clear. lia.
  - by exists bytes.
  - apply no_files_ok.
  - by exists None.
  - intros n Hn. rewrite <-(F2 n Hn). destruct (table_named dbname n) as [_ N]; [clear -Hn; lia|]. by eapply Hd; [exact N|right].
  - constructor.
  - split; [constructor|constructor|constructor|]. intros x n Hx Hp. exfalso. apply (F1 x n); [|done]. rewrite <-(Hd _ n kLogFile); [done|by exists x|by left].
Qed.

(** ** After [versions_->Recover] *)

(** The caches of a database that is being opened. *)
Definition caches_new (tc : TableCache E K) : Prop :=
  (exists c, tc_blocks tc = Some c /\ (ids_below le c /\ cache_out c []) /\ 0 < next_id c <= 2 ^ 63) /\ forall P, quiet le cap P (tc_cache tc).

Lemma seeked_levels M lv : all_versions M (concat ((fun fs : list FileMetaData => seeked <$> fs) <$> lv)) = all_versions M (concat lv).
Proof using.
  induction lv as [|fs lv IH]; [done|]. cbn. unfold all_versions in *. rewrite !fmap_app, !concat_app, IH. f_equal. f_equal. by induction fs as [|f fs IHfs]; cbn; [|rewrite IHfs].
Qed.

Lemma seeked_Forall (P : FileMetaData -> Prop) lv : (forall f, P f -> P (seeked f)) -> Forall P (concat lv) -> Forall P (concat ((fun fs : list FileMetaData => seeked <$> fs) <$> lv)).
Proof using.
  intros HP. induction lv as [|fs lv IH]; [done|]. cbn. rewrite !Forall_app. intros [H1 H2]. split; [|auto]. apply Forall_fmap. eapply Forall_impl; [exact H1|]. apply HP.
Qed.

Lemma recovered_base vs base eds lv cp b M Ls es log next last logs save vs' : dir_state (vs_env vs) base eds lv cp b M Ls es log next last logs -> caches_new (vs_tables vs) ->
  recovered_set le dbname vs M base lv cp log 0 next last save vs' -> st_base vs' M Ls es /\ dir_logs le ptr dbname o (vs_env vs') log logs.
Proof using Hptr.
  intros [D1 (m & -> & Hm) (bytes & Hb & Hman) D4 D5 D6 D7 (Hlog & Hnext & Hlast) D9 D10 D11 D12 D13 D14 D17 D15 D16] ((c & Hc & Hids & Hid) & Hq) [R1 R2 (R3 & R4 & R5 & R6) R7 (R8 & R9) R10 R11].
  assert (wrap 64 (next + 1) = next + 1) as Ew by (apply wrap_fits; clear -Hnext; unfold fits_unsigned; lia). rewrite Ew in R6.
  assert (forall x n t, named dbname x n t -> t <> kDescriptorFile -> disk (vs_env vs') !! x = disk (vs_env vs) !! x) as Hd.
  { intros x n t Hx Hne. apply R10. intros ->. by destruct (named_fun _ _ _ _ _ _ Hx (manifest_named m Hm)). }
  pose proof (perm_levels _ _ R2) as HP. split.
  - split; rewrite ?HP.
    + split.
      * destruct save; [by destruct R11 as (_ & ->)|]. by destruct R11 as (n & d & _ & _ & -> & Hd' & _).
      * destruct save; [destruct R11 as (-> & _); clear -Hnext; lia|]. destruct R11 as (n & d & Hp & -> & _).
        destruct (manifest_named m Hm) as (r & Er%app_inv_head%app_inv_head & Hp'). rewrite <-Er, Hp in Hp'. injection Hp' as ->. done.
      * rewrite R7. by eapply manifest_pointers.
      * rewrite HP. by apply seeked_Forall.
      * rewrite R3, R4, R5, R6. clear -Hlog Hnext Hlast. unfold fits_unsigned. lia.
    + done.
    + apply seeked_Forall; [|done]. intros f (L & H1 & H2 & H3). by exists L.
    + unfold ids_left. rewrite R9, Hc. exists c, (fun _ => 0). split; [split; [by rewrite R9|apply Hids|apply Hids|clear -Hid; lia|]|rewrite R8; apply Hq].
      intros n L HL. destruct (D9 n L HL) as (T1 & T2 & T3 & T4). destruct (table_named dbname n T1) as [N1 N2]. split; [done|]. split; [done|].
      split; [rewrite <-T3|rewrite <-T4]; by eapply Hd.
    + rewrite R6. clear -Hnext. lia.
    + intros n L HL. specialize (D11 n L HL). rewrite R6. clear -D11. lia.
    + intros n Hn. rewrite R6 in Hn. rewrite <-(D12 n) by (clear -Hn; lia). destruct (table_named dbname n) as [_ N2]; [clear -Hn Hnext; lia|]. by eapply Hd.
    + by rewrite (all_versions_perm M _ _ HP), seeked_levels.
    + unfold by_sequence in *. by apply StronglySorted_app in D15 as (_ & ? & _).
    + done.
  - destruct D16 as [L1 L2 L3 L4]. split; [done| |done|].
    + eapply Forall_impl; [exact L2|]. intros l (H1 & H2 & bytes' & H3 & H4). split; [done|]. split; [done|]. exists bytes'. split; [|done]. rewrite <-H3.
      destruct (file_named dbname l.1) as [N1 _]; [clear -H1; unfold fits_unsigned; lia|]. by eapply Hd.
    + intros x n Hx Hp. apply L4; [|done]. rewrite <-(Hd _ n kLogFile) by (done || by exists x). done.
Qed.

(** A directory that [DB::Open] accepts: with a database of [files] tables that
    hold [es] and the logs, or without one. *)
Definition dir_holds (e : E) (files : Z) es (logs : list (Z * list (Z * list update))) : Prop :=
  (error_if_exists o = false /\ exists base eds lv cp b M Ls log next last, dir_state e base eds lv cp b M Ls es log next last logs /\ zlen (concat lv) = files) \/
  (create_if_missing o = true /\ fresh_dir e /\ disk e !! CurrentFileName dbname = None /\ files = 0 /\ es = [] /\ logs = []).

(** What [DBImpl::Recover] leaves when it succeeds. *)
Definition db_recovered es (logs : list (Z * list (Z * list update))) (spare : Z) w (opened : option OpenLog) : Prop := exists vs1 M Ls save w0 l, st_base vs1 M Ls es /\ 2 ^ 63 <= ids_left (vs_tables vs1) /\
  w = (set_last l w0.1.1, w0.1.2, w0.2) /\ 0 <= l < 2 ^ 56 /\ Forall (fun e => e.1 <= l) (es ++ logs_versions logs) /\ spare <= sink_room w0 /\
  logs_added vs1 save es w0 (es ++ logs_versions logs) opened /\ vs_log_number vs1 < vs_next_file_number vs1 /\ Forall byte_version es /\ Forall recoverable (concat logs.*2).

(** From the version set that was read back. *)
Lemma recover_rest base eds lv cp b M Ls es log next last logs save vs vs1 spare : dir_state (vs_env vs) base eds lv cp b M Ls es log next last logs -> caches_new (vs_tables vs) ->
  recovered_set le dbname vs M base lv cp log 0 next last save vs1 -> write_buffer_size o <= 2 ^ 26 -> logs_open -> 0 <= spare -> zlen (concat lv) + logs_size logs + spare <= 2 ^ 30 ->
  exists s w opened, recover_files le ptr junk uninit stack new_block snappy policy uninit_restart compression restart_interval dbname o vs1 save = Some (s, w, opened) /\
    (s = kOk -> db_recovered es logs spare w opened).
Proof using Hptr Hblock Hsnappy Hcomp Hint same_match Hcap Hfkey Hper Hname.
  intros HD HC HR Hwbs Hopen Hsp Hsize. destruct (recovered_base _ _ _ _ _ _ _ _ _ _ _ _ _ _ _ HD HC HR) as [HB Hlogs].
  pose proof HR as [R1 R2 (R3 & R4 & R5 & R6) R7 (R8 & R9) R10 R11]. pose proof HD as [D1 D2 D3 D4 D5 D6 D7 (Hlog & Hnext & Hlast) D9 D10 D11 D12 D13 D14 D17 D15 D16].
  assert (wrap 64 (next + 1) = next + 1) as Ew by (apply wrap_fits; clear -Hnext; unfold fits_unsigned; lia). rewrite Ew in R6.
  destruct HC as ((c & Hc & _ & Hid) & _). assert (ids_left (vs_tables vs1) = 2 ^ 64 - next_id c) as Hids by (unfold ids_left; by rewrite R9, Hc).
  assert (zlen (concat (edited new_VersionEdit (levels vs1))) = zlen (concat lv)) as Hcount.
  { rewrite edited_none by done. pose proof (perm_levels _ _ R2) as HP. rewrite HP. clear. induction lv as [|fs lv IH]; [done|]. cbn. rewrite !length_app, length_fmap. lia. }
  rewrite <-R3 in Hlogs. pose proof (logs_size_nonneg logs) as Hnn.
  destruct (recover_files_spec vs1 save M Ls es logs spare HB Hlogs Hwbs Hopen Hsp) as (s & w & opened & -> & Hok); try done.
  { unfold sink_room, files_left. cbn [fst snd]. rewrite Hcount, R6, Hids. clear -Hsize Hnext Hid Hnn Hsp. lia. }
  { clear -Hsize Hsp Hnn. lia. }
  { rewrite R5. clear -Hlast. lia. }
  eexists _, _, _. split; [done|]. intros Hs. destruct (Hok Hs) as (e' & w0 & l & He' & -> & Hl & Hall & Hroom & Hadd).
  exists (set_env e' vs1), M, Ls, save, w0, l. split; [by apply st_base_env; [|intros x n _; rewrite He']|]. split; [change (2 ^ 63 <= ids_left (vs_tables vs1)); rewrite Hids; clear -Hid; lia|].
  split; [done|]. rewrite R5 in Hl. split; [clear -Hl Hlast; lia|]. split.
  { apply Forall_app. split; [|done]. eapply Forall_impl; [exact D14|]. cbn. intros v Hv. clear -Hv Hl. lia. }
  split; [done|]. split; [done|]. split; [change (vs_log_number vs1 < vs_next_file_number vs1); rewrite R3, R6; clear -Hlog; lia|]. split; [done|].
  destruct D16 as [_ L2 _ _]. clear -L2. induction L2 as [|l logs (_ & H & _) _ IH]; [constructor|]. cbn. by apply Forall_app.
Qed.

Lemma DBImpl_Recover_spec vs files es logs spare : vs_new vs -> dir_holds (vs_env vs) files es logs -> caches_new (vs_tables vs) -> write_buffer_size o <= 2 ^ 26 -> logs_open ->
  0 <= spare -> files + logs_size logs + spare <= 2 ^ 30 ->
  exists s w opened locked, DBImpl_Recover le ptr junk uninit stack new_block snappy policy uninit_restart compression restart_interval dbname o vs = Some (s, w, opened, locked) /\
    (s = kOk -> db_recovered es logs spare w opened).
Proof using Hptr Hblock Hsnappy Hcomp Hint same_match Hcap Hfkey Hper Hname.
  intros Hnew Hdir HC Hwbs Hopen Hsp Hsize. unfold DBImpl_Recover. destruct (env_CreateDir dbname (vs_env vs)) as [s0 e0] eqn:E0. apply CreateDir_spec in E0 as [_ D0]. cbn [snd].
  destruct (env_LockFile (LockFileName dbname) e0) as [s1 e1] eqn:E1. apply LockFile_spec in E1 as [_ T1].
  assert (touches (LockFileName dbname) (vs_env vs) e1) as T by (intros x Hx; by rewrite T1, D0).
  destruct (Status_ok s1) eqn:Es1; cbn [negb]; [|by eexists _, _, _, _; split; [done|]; intros ->]. apply Status_ok_eq in Es1 as ->. rewrite FileExists_spec.
  assert (disk e1 !! CurrentFileName dbname = disk (vs_env vs) !! CurrentFileName dbname) as Hcur.
  { apply T. intros H. pose proof (current_named dbname) as Hn. rewrite H in Hn. by destruct (named_fun _ _ _ _ _ _ Hn lock_named). }
  assert (exists s2 e2, (if negb (bool_decide (is_Some (disk e1 !! CurrentFileName dbname))) then if create_if_missing o then NewDB le ptr dbname e1 else Some (kInvalidArgument, e1)
      else if error_if_exists o then Some (kInvalidArgument, e1) else Some (kOk, e1)) = Some (s2, e2) /\
    (s2 = kOk -> exists base eds lv cp b M Ls log next last, dir_state e2 base eds lv cp b M Ls es log next last logs /\ zlen (concat lv) = files)) as (s2 & e2 & -> & Hds).
  { destruct Hdir as [(He & base & eds & lv & cp & b & M & Ls & log & next & last & HD & Hf)|(Hcr & Hfr & Hnone & -> & -> & ->)].
    - rewrite Hcur, (ds_current _ _ _ _ _ _ _ _ _ _ _ _ _ HD), bool_decide_eq_true_2 by (by eexists). cbn [negb]. rewrite He. eexists _, _. split; [done|]. intros _.
      exists base, eds, lv, cp, b, M, Ls, log, next, last. split; [by eapply dir_state_lock|done].
    - rewrite Hcur, Hnone, bool_decide_eq_false_2 by (by intros []). cbn [negb]. rewrite Hcr. destruct (NewDB_spec e1) as (s2 & e2 & -> & Hsp2 & Hok2). eexists _, _. split; [done|].
      intros Hs. destruct (Hok2 Hs) as (H1 & bytes & H2 & H3). destruct (new_dir_state e1 e2 bytes) as (cp & b & HD); try done; [|by eexists _, _, _, cp, b, _, _, _, _, _].
      destruct Hfr as [F1 F2]. split.
      + intros x n Hx Hpx. apply (F1 x n); [|done]. rewrite <-T; [done|]. intros H. assert (named dbname (LockFileName dbname) n kLogFile) as Hn by (rewrite <-H; by exists x).
        by destruct (named_fun _ _ _ _ _ _ Hn lock_named).
      + intros n Hn. rewrite T; [by apply F2|]. intros H. destruct (table_named dbname n) as [_ N]; [clear -Hn; lia|]. rewrite H in N. by destruct (named_fun _ _ _ _ _ _ N lock_named). }
  cbn [mbind option_bind]. destruct (Status_ok s2) eqn:Es2; cbn [negb]; [|by eexists _, _, _, _; split; [done|]; intros ->]. apply Status_ok_eq in Es2 as ->.
  destruct (Hds eq_refl) as (base & eds & lv & cp & b & M & Ls & log & next & last & HD & <-). pose proof HD as [D1 _ (bytes & Hb & Hman) D4 D5 _ D7 _ _ _ _ _ _ _ _ _ _].
  destruct (Recover_spec le ptr Hptr dbname (reuse_logs o) (set_env e2 vs) eds base bytes M cp b lv log 0 next last) as (c & save & vs1 & -> & _ & Hrec); try done; [by destruct Hnew; split|].
  cbn [mbind option_bind]. destruct (Status_ok c) eqn:Ec; cbn [negb]; [|by eexists _, _, _, _; split; [done|]; intros ->]. apply Status_ok_eq in Ec as ->.
  destruct (recover_rest base eds lv cp b M Ls es log next last logs save (set_env e2 vs) vs1 spare HD) as (s & w & opened & -> & Hok); try done; [by apply Hrec|].
  cbn [mbind option_bind]. eexists _, _, _, _. split; [done|]. done.
Qed.

(** ** The end of [DB::Open] *)
Lemma st_base_last vs l M Ls es : st_base vs M Ls es -> 0 <= l < 2 ^ 56 -> st_base (set_last l vs) M Ls es.
Proof using.
  intros [[G1 G2 G3 G4 (G5 & G6 & G7)] B2 B3 B4 B5 B6 B7 B8 B9 B10] Hl. split; try done. split; try done. split; [done|]. split; [|done]. cbn. clear -Hl. unfold fits_unsigned. lia.
Qed.

Lemma open_log_spec vs edit M Ls es ew : st_base vs M Ls es -> st_edit vs edit M Ls ew -> vs_next_file_number vs < 2 ^ 62 ->
  exists s vs' edit' opened, open_log uninit dbname vs edit = Some (s, vs', edit', opened) /\
    (s = kOk -> exists mem e', opened = Some (mkOpenLog mem (vs_next_file_number vs) 0) /\ mem_rep le mem [] /\ edit' = SetLogNumber (vs_next_file_number vs) edit /\
       vs' = set_env e' (set_next (vs_next_file_number vs + 1) vs) /\ st_base vs' M Ls es /\ st_edit vs' edit M Ls ew).
Proof using.
  intros HB HE Hn. pose proof HB as [B1 B2 B3 B4 B5 B6 B7 B8 B9 B10]. unfold open_log, NewFileNumber, LogFileName. set (n := vs_next_file_number vs) in *.
  rewrite (proj2 (Z.ltb_lt 0 n)) by done. cbn [passert mbind option_bind]. fold (log_name n). rewrite wrap_fits by (clear -Hn B5; unfold fits_unsigned; lia).
  change (vs_env (set_next (n + 1) vs)) with (vs_env vs). destruct (env_NewWritableFile (log_name n) (vs_env vs)) as [s e] eqn:Ew. apply NewWritableFile_spec in Ew as (_ & T & _).
  destruct (Status_ok s) eqn:Es; [|by eexists _, _, _, _; split; [done|]; intros ->]. destruct (new_MemTable_rep le uninit) as (mem & -> & Hm). cbn [mbind option_bind].
  eexists _, _, _, _. split; [done|]. intros _. exists mem, e. split_and!; try done.
  - apply st_base_env.
    + apply st_base_next; [done| |clear -Hn B5; lia|intros m Hm'; apply B7; clear -Hm'; lia]. intros m L HL. specialize (B6 m L HL). clear -B6. lia.
    + intros x k Hk. apply T. intros ->. destruct (file_named dbname n) as [N _]; [clear -Hn B5; unfold fits_unsigned; lia|]. by destruct (named_fun _ _ _ _ _ _ Hk N).
  - destruct HE as [S1 S2 S3 S4 S5 S6 S7]. split; try done. eapply Forall_impl; [exact S5|]. cbn. fold n. intros p Hp. clear -Hp. lia.
Qed.

(** Nothing to save: the version has the tables of the edit already. *)
Lemma same_versions vs M Ls es ew : st_base vs M Ls es -> st_edit vs new_VersionEdit M Ls ew -> ew = es.
Proof using.
  intros [_ _ _ _ _ _ _ B8 B9 _] [_ _ _ _ _ S6 S7]. rewrite edited_none in S6 by done. apply (StronglySorted_unique_strong (fun a b : version => a.1 < b.1)); [|done|done|by rewrite <-S6, <-B8].
  intros x y _ _ H1 H2. exfalso. clear -H1 H2. lia.
Qed.

Lemma save_spec vs edit M Ls es ew save log edit0 : st_base vs M Ls es -> st_edit vs edit M Ls ew -> vs_log_number vs <= log < vs_next_file_number vs -> vs_next_file_number vs < 2 ^ 62 ->
  (save = false -> edit = new_VersionEdit) -> edit0 = edit \/ edit0 = SetLogNumber log edit ->
  exists s vs', (if Status_ok kOk && save then LogAndApply le ptr dbname (SetLogNumber log (SetPrevLogNumber 0 edit0)) vs else Some (kOk, vs)) = Some (s, vs') /\
    (s = kOk -> st_base vs' M Ls ew /\ vs_log_number vs' <= log < vs_next_file_number vs' /\ vs_next_file_number vs' = vs_next_file_number vs /\
       ids_left (vs_tables vs') = ids_left (vs_tables vs) /\ zlen (concat (levels vs')) = zlen (concat (edited edit (levels vs))) /\ vs_last_sequence vs' = vs_last_sequence vs).
Proof using Hptr.
  intros HB HE Hlog Hn Hnew He0. change (Status_ok kOk) with true. destruct save; cbn [andb].
  - assert (SetLogNumber log (SetPrevLogNumber 0 edit0) = SetLogNumber log (SetPrevLogNumber 0 edit)) as -> by (by destruct He0 as [-> | ->]).
    pose proof (st_edit_log le snappy policy opts vs edit M Ls ew log HE) as HE'. specialize (HE' ltac:(destruct HB as [[_ _ _ _ (_ & _ & H & _)] _ _ _ _ _ _ _ _ _]; clear -Hlog Hn H; unfold fits_unsigned in *; lia)).
    destruct (LogAndApply_rep le ptr snappy policy opts uninit_restart dbname cap Hptr vs _ M Ls es ew HB HE') as (s & vs' & -> & HB' & Hi & Hnx & Hl & Hz & Hls); [done|done|done|].
    exists s, vs'. split; [done|]. intros ->. split; [done|]. rewrite Hnx. change (vs_log_number vs' = log) in Hl. split; [rewrite Hl; clear -Hlog; lia|]. split_and!; done.
  - exists kOk, vs. split; [done|]. intros _. rewrite (Hnew eq_refl) in *. rewrite (same_versions vs M Ls es ew HB HE). rewrite edited_none by done. done.
Qed.

(** The database that was opened, with the records of its log. *)
Definition opened_db (db : OpenDB) (records : list (list Z)) : DBImpl (VSet E K) :=
  Build_DBImpl (ol_mem (od_log db)) None (od_versions db) (vs_last_sequence (od_versions db)) kOk (ol_number (od_log db))
    ((fun record => (record, kOk)) <$> records).

Notation VS options := (storage_VersionSet le ptr snappy policy opts uninit_restart dbname cap Hptr Hsnappy Hcomp Hint same_match Hcap Hfkey Hper Hname options).

Lemma opened_rep options vs log M Ls ew bs es : st_base vs M Ls ew -> vs_log_number vs <= ol_number log < vs_next_file_number vs -> 0 <= vs_last_sequence vs < 2 ^ 56 ->
  mem_rep le (ol_mem log) (log_versions bs) -> mem_weight (log_versions bs) <= 2 ^ 25 -> Forall recoverable bs -> ew ++ log_versions bs = es -> by_sequence es ->
  Forall (fun e => e.1 <= vs_last_sequence vs) es -> Forall byte_version es ->
  db_rep (VersionSet0 := VS options) le (opened_db (mkOpenDB vs log) ((fun b => encode_batch b.1 b.2) <$> bs)) es.
Proof using.
  intros HB Hlog Hl Hm Hw Hbs Hes Hs Hall Hby. split; [done|done|done|done|]. exists ew, [], (log_versions bs), bs. cbn. split; [done|]. split; [by exists M, Ls|]. split; [done|]. split; [done|].
  split; [by vm_compute|]. split; [done|]. split; [apply acked_all|]. split; [|done]. eapply Forall_impl; [exact Hbs|]. by intros b (H1 & H2 & H3 & _).
Qed.

Lemma recovered_bytes bs : Forall recoverable bs -> Forall byte_version (log_versions bs).
Proof using. induction 1 as [|b bs (_ & _ & _ & _ & H & _) _ IH]; [constructor|]. unfold log_versions in *. cbn. by apply Forall_app. Qed.

(** Rooms for tables, numbers and identifiers. *)
Lemma room_enough vs spare : 0 <= spare <= 2 ^ 30 -> zlen (concat (levels vs)) + spare <= 2 ^ 30 -> vs_next_file_number vs + spare <= 2 ^ 62 - 1 -> 2 ^ 61 <= ids_left (vs_tables vs) ->
  spare <= storage_room vs.
Proof using.
  intros H1 H2 H3 H4. clear -H1 H2 H3 H4. unfold storage_room, files_left. assert (2 ^ 31 <= ids_left (vs_tables vs) / 2 ^ 30); [|lia].
  change (2 ^ 31) with (2 ^ 61 / 2 ^ 30). by apply Z.div_le_mono.
Qed.

Lemma open_end_fails s vs edit save opened locked : s <> kOk -> open_end le ptr dbname s vs edit save opened locked =
  Some (s, None, if locked then (env_UnlockFile (LockFileName dbname) (vs_env vs)).2 else vs_env vs).
Proof using. intros Hs. unfold open_end. assert (Status_ok s = false) as E0 by (by destruct s). rewrite E0. cbn [andb mbind option_bind]. by rewrite E0. Qed.

Lemma open_end_spec options vs edit edit0 M Ls es0 ew bs es save log locked spare : st_base vs M Ls es0 -> st_edit vs edit M Ls ew ->
  vs_log_number vs <= ol_number log < vs_next_file_number vs -> (save = false -> edit = new_VersionEdit) -> edit0 = edit \/ edit0 = SetLogNumber (ol_number log) edit ->
  0 <= spare <= 2 ^ 30 -> zlen (concat (edited edit (levels vs))) + spare <= 2 ^ 30 -> vs_next_file_number vs + spare <= 2 ^ 62 - 1 -> 2 ^ 61 <= ids_left (vs_tables vs) ->
  0 <= vs_last_sequence vs < 2 ^ 56 -> mem_rep le (ol_mem log) (log_versions bs) -> mem_weight (log_versions bs) <= 2 ^ 25 -> Forall recoverable bs -> ew ++ log_versions bs = es ->
  by_sequence es -> Forall (fun e => e.1 <= vs_last_sequence vs) es -> Forall byte_version es ->
  exists s odb e', open_end le ptr dbname kOk vs edit0 save (Some log) locked = Some (s, odb, e') /\
    (s = kOk -> exists db, odb = Some db /\ spare <= storage_room (od_versions db) /\
       db_rep (VersionSet0 := VS options) le (opened_db db ((fun b => encode_batch b.1 b.2) <$> bs)) es).
Proof using.
  intros HB HE Hlog Hnew He0 Hsp Hcount Hnext Hids Hl Hm Hw Hbs Hes Hs Hall Hby. unfold open_end.
  destruct (save_spec vs edit M Ls es0 ew save (ol_number log) edit0 HB HE Hlog) as (s & vs1 & -> & Hok); [clear -Hnext Hsp; lia|done|done|].
  cbn [mbind option_bind]. destruct (Status_ok s) eqn:Es; [|cbn [mbind option_bind]; by eexists _, _, _; split; [done|]; intros ->].
  apply Status_ok_eq in Es as ->. destruct (Hok eq_refl) as (HB1 & Hlog1 & Hn1 & Hi1 & Hz1 & Hl1).
  destruct (DeleteObsoleteFiles_spec le snappy policy opts uninit_restart dbname cap Hcap true vs1 M Ls ew HB1) as (vs2 & Ls2 & -> & HB2 & tc & -> & Htc).
  cbn [mbind option_bind]. change (Status_ok kOk) with true. cbv iota. eexists _, _, _. split; [done|]. intros _. eexists. split; [done|]. cbn [od_versions]. split.
  - apply room_enough; [done|cbn; rewrite Hz1; done|cbn; rewrite Hn1; done|]. cbn. replace (ids_left tc) with (ids_left (vs_tables vs)); [done|]. rewrite <-Hi1. unfold ids_left. by rewrite Htc.
  - eapply opened_rep; try done; cbn; rewrite Hl1; done.
Qed.

Lemma new_tables raw (e : E) block_cache : SanitizeOptions raw = o -> cap = (max_open_files o - kNumNonTableCacheFiles + 15) / 16 -> ids_below le block_cache /\ cache_out block_cache [] -> 0 < next_id block_cache <= 2 ^ 63 ->
  exists tc, new_TableCache (max_open_files o - kNumNonTableCacheFiles) e (Some block_cache) = Some tc /\ caches_new tc /\ tc_env tc = e.
Proof using.
  intros Ho Hc Hb Hid. assert (0 <= max_open_files o - kNumNonTableCacheFiles < 2 ^ 30) as Hn.
  { rewrite <-Ho. clear. unfold SanitizeOptions, ClipToRange, kNumNonTableCacheFiles. cbn [max_open_files]. repeat case_match; lia. }
  destruct (NewLRUCache_quiet (V := TableAndFile) le _ (fun _ _ => True) Hn) as (s & Es & _). unfold new_TableCache. rewrite Es. cbn [mbind option_bind].
  eexists. split; [done|]. split; [|done]. split; [by exists block_cache|]. intros P. destruct (NewLRUCache_quiet le _ P Hn) as (s' & Es' & Hq). rewrite Es in Es'. injection Es' as <-.
  by rewrite Hc.
Qed.

Lemma DB_Open_spec options raw block_cache (e : E) files es logs spare : SanitizeOptions raw = o -> cap = (max_open_files o - kNumNonTableCacheFiles + 15) / 16 ->
  ids_below le block_cache /\ cache_out block_cache [] -> 0 < next_id block_cache <= 2 ^ 63 -> write_buffer_size o <= 2 ^ 25 -> logs_open -> dir_holds e files es logs ->
  0 <= spare -> files + logs_size logs + spare < 2 ^ 30 ->
  exists s odb e', DB_Open le ptr junk uninit stack new_block snappy policy uninit_restart compression restart_interval dbname raw block_cache e = Some (s, odb, e') /\
    (s = kOk -> exists db records, odb = Some db /\ spare <= storage_room (od_versions db) /\
       db_rep (VersionSet0 := VS options) le (opened_db db records) (es ++ logs_versions logs)).
Proof using Hblock.
  intros Ho Hc Hb Hid Hwbs Hopen Hdir Hsp Hsize. unfold DB_Open. rewrite Ho. destruct (new_tables raw e block_cache Ho Hc Hb Hid) as (tc & -> & Hnew & He). cbn [mbind option_bind].
  destruct (DBImpl_Recover_spec (new_VersionSet tc) files es logs (spare + 1)) as (s & [[vs edit] save] & opened & locked & -> & Hrec); try done; [|clear -Hwbs; lia|clear -Hsp; lia|clear -Hsize; lia|].
  { change (dir_holds (tc_env tc) files es logs). by rewrite He. }
  cbn [mbind option_bind]. destruct (Status_ok s) eqn:Es; cbn [andb].
  2:{ cbn [mbind option_bind]. rewrite open_end_fails by (by intros ->). eexists _, _, _. split; [done|]. by intros ->. }
  apply Status_ok_eq in Es as ->. destruct (Hrec eq_refl) as (vs1 & M0 & Ls0 & save0 & [[vs0 edit0] save1] & l & HB0 & Hids & Ew & Hl & Hall & Hroom & (ew & bs & Hes & HW & Hlog) & Hln & Hby & Hbs).
  cbn [fst snd] in Ew. injection Ew as -> -> ->. destruct HW as ((tc0 & n & E0 & [Hn Hi] & _ & _ & Hnw) & M & Ls & HB & HE). cbn [fst snd] in E0, HB, HE, Hnw.
  assert (st_base (set_last l vs0) M Ls es) as HB' by (by apply st_base_last). assert (st_edit (set_last l vs0) edit0 M Ls ew) as HE' by (by destruct HE; split).
  assert (zlen (concat (edited edit0 (levels vs0))) + spare + 1 <= 2 ^ 30 /\ vs_next_file_number vs0 + spare + 1 <= 2 ^ 62 - 1) as [Hr1 Hr2].
  { unfold sink_room, files_left in Hroom. cbn [fst snd] in Hroom. clear -Hroom. lia. }
  assert (2 ^ 61 <= ids_left (vs_tables vs0)) as Hr3.
  { rewrite E0 in Hr2 |- *. cbn in Hr2 |- *. pose proof (sb_next _ _ _ _ _ _ _ _ _ _ _ HB0) as Hp. clear -Hr2 Hi Hids Hp Hsp. lia. }
  assert (by_sequence (es ++ logs_versions logs) /\ Forall byte_version (es ++ logs_versions logs)) as [Hseq Hbytes].
  { split; [|apply Forall_app; split; [done|by apply recovered_bytes]].
    destruct Hdir as [(_ & base & eds & lv & cp & b & M1 & Ls1 & log & next & last & HD & _)|(_ & _ & _ & _ & -> & ->)]; [apply HD|constructor]. }
  assert (vs_log_number vs0 = vs_log_number vs1 /\ vs_next_file_number vs1 <= vs_next_file_number vs0) as [El Hnx] by (rewrite E0; done).
  destruct opened as [log|].
  - destruct Hlog as (Hm & Hwt & Hrb & Hnum). cbn [fst snd] in Hnum. rewrite bool_decide_eq_true_2 by (by eexists). cbn [negb mbind option_bind].
    destruct (open_end_spec options (set_last l vs0) edit0 edit0 M Ls es ew bs (es ++ logs_versions logs) save1 log locked spare) as (s & odb & e' & -> & Hok); try done.
    + cbn. by rewrite El.
    + by left.
    + clear -Hsp Hr1. lia.
    + change (zlen (concat (edited edit0 (levels vs0))) + spare <= 2 ^ 30). clear -Hr1. lia.
    + cbn. clear -Hr2. lia.
    + clear -Hwt Hwbs. lia.
    + eexists _, _, _. split; [done|]. intros Hs. destruct (Hok Hs) as (db & -> & H1 & H2). by eexists _, _.
  - cbn in Hlog. subst bs. cbn [log_versions] in Hes. rewrite bool_decide_eq_false_2 by (by intros []). cbn [negb].
    destruct (open_log_spec (set_last l vs0) edit0 M Ls es ew HB' HE') as (s & vs2 & edit2 & opened & -> & Hop); [cbn; clear -Hr2 Hsp; lia|]. cbn [mbind option_bind].
    destruct (decide (s = kOk)) as [->|Hs]; [|rewrite open_end_fails by done; eexists _, _, _; split; [done|]; by intros ->].
    destruct (Hop eq_refl) as (mem & e' & -> & Hm & -> & -> & HB2 & HE2).
    destruct (open_end_spec options _ edit0 (SetLogNumber (vs_next_file_number (set_last l vs0)) edit0) M Ls es ew [] (es ++ logs_versions logs) save1
      (mkOpenLog mem (vs_next_file_number (set_last l vs0)) 0) locked spare HB2 HE2) as (s & odb & e2 & -> & Hok); try done.
    + cbn. rewrite El. clear -Hln Hnx. lia.
    + by right.
    + clear -Hsp Hr1. lia.
    + change (zlen (concat (edited edit0 (levels vs0))) + spare <= 2 ^ 30). clear -Hr1. lia.
    + cbn. clear -Hr2. lia.
    + eexists _, _, _. split; [done|]. intros Hs. destruct (Hok Hs) as (db & -> & H1 & H2). by eexists _, _.
Qed.
End logs.
